(* ===== verification/_CoqProject ===== *)
-Q . S2P
Prelude.v
Text.v
Json.v
Task.v
Protocol.v
RunApi.v
Validate.v
Accounting.v
Context.v
Snapshot.v
Evidence.v
RunEvents.v
AgentEvents.v
Reducer.v
Steps.v
LogFacts.v
ToolFacts.v
EvidenceFacts.v
CompletionFacts.v
AgentFacts.v
ModelFacts.v
ContextFacts.v
ErrorFacts.v
MemStore.v
RunLog.v
MemStoreFacts.v
SqliteStore.v
SqliteFacts.v
TextOps.v
Patch.v
PatchFacts.v
PatchRoundtrip.v
PatchFiles.v
PatchExecFacts.v
Ledger.v
LedgerFacts.v
ExecPolicy.v
ExecPolicyFacts.v
Paths.v
PathsFacts.v
CommandSafety.v
CommandSafetyFacts.v
Sandbox.v
SandboxFacts.v
ToolSchema.v
ToolSchemaFacts.v
BrowserRequest.v
IpAddr.v
WebUrl.v
HtmlText.v
HtmlTextFacts.v
WebFetch.v
WebFetchFacts.v
ToolAuthorization.v
ToolAuthorizationFacts.v
AgentRuntime.v
AgentRuntimeFacts.v
AgentWriter.v
AgentWriterFacts.v
AgentSettle.v
AgentTools.v
AgentControl.v
AgentTurn.v
AgentProcess.v
AgentCompletion.v
AgentCall.v
AgentLoop.v
AgentEmits.v
AgentControlFacts.v
AgentCompletionFacts.v
AgentCallFacts.v
AgentTurnFacts.v
AgentStreamFacts.v
AgentAcceptFacts.v
AgentLoopFacts.v
Demo.v
Witnesses.v
ToolWitnesses.v
AgentWitnesses.v
PolicyWitnesses.v
