(* ===== verification/Prelude.v ===== *)
(** * DSE: the durable run state machine

    DSE (DeepSeek Engineer) is a coding agent.  Whatever its runtime, its tools and its model
    do becomes durable as one append-only log of typed events per run; everything the program
    later believes about a run - what the model has seen, which tool may start, what evidence
    exists, whether the task is complete, what a crashed process may resume - is computed from
    that log by one reducer.  This development models that core and proves what it guarantees.

    ** The program and its model

    The modelled sources are, under [src/crates/]:

    - [protocol/src/task.rs]: task contracts, verifier specifications, evidence, completion
      facts and their validation: [Task]; the canonical JSON form: [Json];
    - [protocol/src/agent_runtime.rs]: the protocol data and the runtime events: [Protocol];
      its validation functions: [Validate]; [ModelAccounting]: [Accounting];
    - [protocol/src/run_api.rs]: the commands kept with a launch reservation: [RunApi];
    - [context/src/compaction.rs]: the deterministic context broker, from the token estimate to
      the compaction plan: [Context];
    - [runtime/src/store.rs] and parts of [runtime/src/lib.rs]: the snapshot of a run and the
      continuation check: [Snapshot]; the helpers of the reducer that only read a snapshot:
      [Evidence]; one definition [on_...] per event handler: [RunEvents] for the turn loop
      (model, tool, interaction, verification, completion) and [AgentEvents] for child agents,
      writers, steering, control and the terminal event; [admit_event], [dispatch],
      [apply_event], [reduce_events]: [Reducer]; the in-memory store: [MemStore];
    - [state/src/run_store.rs] over the schema in [state/src/lib.rs]: the SQLite store:
      [SqliteStore];
    - [runtime/src/orchestration.rs] and parts of [runtime/src/agent.rs], the runtime loop: its
      ports, its state monad and the publication of an event: [AgentRuntime]; the lifecycle of
      an isolated writer: [AgentWriter]; the tool catalog of a model request and the arguments
      of the builtin tools: [AgentTools]; the commands, the shared budget and the deadlines of
      a live run: [AgentControl]; a whole turn of the model with its stream, retries and
      compaction: [AgentTurn]; the execution of a tool call: [AgentCall]; the review of a
      completion and the terminal outcome: [AgentCompletion]; what a process starts with, the
      recovery and the loop of a run: [AgentLoop];
    - [deepseek/src/accounting.rs], [pricing.rs] and the projection in [model_port.rs]: the
      request ledger: [Ledger];
    - [execpolicy/src/lib.rs]: the command policy: [ExecPolicy];
    - [tools/src/command_safety.rs] and the network test of [shell/exec_shell.rs]: what a shell
      command is and may do: [CommandSafety];
    - [tools/src/production_context.rs]: where a path of a tool leads, and the reads an edit
      needs: [Paths];
    - [tools/src/sandbox/] (policies, bubblewrap, the manager on Linux): [Sandbox];
    - [tools/src/production.rs]: the catalog with its JSON schemas and the validator of
      arguments: [ToolSchema]; the authorization of a call and the outcome of its execution:
      [ToolAuthorization];
    - [tools/src/semantic_browser.rs]: the parser of interaction requests: [BrowserRequest];
    - [tools/src/web_fetch.rs]: public addresses ([IpAddr]) and the target policy ([WebUrl]),
      what is read from a page ([HtmlText]) and the fetch loop ([WebFetch]);
    - [tools/src/apply_patch.rs] and [atomic_write.rs]: the patch tool, from the parser of
      unified diffs ([Patch]) to planning, publication and rollback on a file system
      ([PatchFiles]); [TextOps] holds what these parts use of the standard library:
      operations of [str], the UTF-8 decoder, [f64].

    [Prelude] (result monad, inversion tactics, bounded integers, record update) and [Text]
    (UTF-8 strings, slices, duplicate checks) hold what the language and its standard library
    provide.  The parts interact as in the code: a store appends an event only after
    [apply_event] accepted it against the current snapshot; [apply_event] validates the event
    with [Validate] and [Task], consults the broker of [Context] for model requests and
    compactions, and [Evidence] for receipts, retries and the completion decision; loading a
    run replays its log with [reduce_events].  The runtime loop publishes through the class
    [RunPort] of stores and reads its own snapshot back; its theorems are proved against the
    laws of that class ([RunPortLaws], [RunPortAvailable]), which the in-memory store
    discharges.

    ** How the code is represented

    A definition has the name of the function it models; a method [T::f] is [T_f] where the
    name alone is ambiguous.  Structures are records with a field prefix, enums are inductive
    types, newtypes over strings are strings, a [Box] is its content.  A fallible function
    returns [result], with the source's error text and in the source's order of checks.
    Unsigned integers are [N]; saturating and checked operations are written with their width
    ([sat_add64], [sat_add32], [checked_add64], [sat_mul64], [checked_shl64]), and SQLite
    columns are [Z] with the conversions of the store.  The lexical sums of the token estimate
    are not bounded: they add up the lengths of strings that are in memory.

    A handler maps the snapshot before an event to the snapshot after it.  The source mutates
    the snapshot in place and may stop half-way with an error; both stores then drop it, so
    the error is the whole result here.  A panic ([expect]) is the error [panicked]; [ErrorFacts] shows
    that none of the reducer's can occur.

    A store is a value and an operation one atomic step on it: the in-memory store holds its
    mutexes during an operation (the creation map is cleared of an intent under its own lock,
    after the run is inserted; the model does both in the step [create]), and every operation
    of the SQLite store is one transaction, whose error leaves the database as it was.  The
    statements check the declared constraints.  The clock, the owner of a new lease and the
    liveness of a process are arguments of the operations that read them.

    An asynchronous function of the runtime loop is a function of the monad [M]: it maps the
    state of the run, the store, the sink and a tick to their successors and a result, and
    what it did survives its error.  Every call of a port takes a fresh tick and every port is
    a function of it, so the environment may answer each call differently.  A [select!] loop
    reads the inputs of its wait - an answer, a command, the deadline - in the order in which
    it takes them; a process that has read them all is stopped there, as a crash stops it.
    What a process asks of the outside or answers to it is recorded in its [lw_calls].  The
    children of a run are concurrent tasks; what launches, joins and settles them is the
    interface [Delegation], and the theorems about a whole run are for runs without it: the
    depth limit refuses a child, and the run has a budget of its own.  The patch tool works on
    a file-system state whose every system call may fail.

    Third-party code is a parameter: SHA-256 and the rendering and parsing of JSON ([JsonLib],
    [TaskCodec], [ProtocolCodec], [ContextCodec], collected in [Codecs]), serde's text of
    stored rows ([StoreJson]) and the [url] crate ([UrlLib], [UrlEdit]).  Only the SQLite theorems assume something of it: what was
    written reads back as the same value ([StoreJsonLaws]); the witnesses instantiate it.

    A JSON object is the list of its entries, in insertion order, as [serde_json] keeps it
    with [preserve_order].  Two objects are equal in the model when their entry lists are;
    [serde_json] also equates objects that differ in the order of their entries, so a log in
    which a value was re-ordered between two events that must agree is refused by the model
    although the code accepts it.  The runtime compares clones and round trips, which keep the
    order.

    ** Loops and fuel

    The loops of the code that are not structural carry fuel: the token scan (one unit per
    byte), the grouping of a history (one per entry), the expansion of a selection (one per
    grouped entry, and one), the lineage walk of a continuation (one per stored run, and one).
    [ContextFacts] and [MemStoreFacts] show that this fuel always suffices, for every input.
    The wildcard matcher of the command policy has fuel for every pair of positions, and
    [ExecPolicyFacts] shows the result is the one of the reference matcher.  The
    classifier of read-only commands follows nested [sh -c] commands, one unit per byte, and
    [CommandSafetyFacts] shows that it always answers.  The attempts of a model request have
    fuel for one more than its retries ([AgentTurnFacts]), the flush of the steers one unit per
    queued steer.  The turns of a run have one unit per request of its budget and three more,
    for what an earlier process may have left and the last refusal
    (C5).  The other definitions are structural: a wait of the
    runtime loop recurses over what it hears.

    ** What is proved

    The numbers are those of the theorems' comments.

    - Completion (C1, C22;
      [EvidenceFacts], [CompletionFacts]): a completed run rests on a model answer of the log
      and, for every acceptance criterion, on an explicit Host acceptance or on a receipt that
      a passing, side-effect-free Host verification sealed on the final workspace; a
      [failed_write_pass] receipt rests on a failure, a real change by another tool and a
      pass, in this order.
    - Tools (C2; [ToolFacts],
      [ErrorFacts]): no executable tool starts without a
      committed authorization for exactly its invocation, and nothing else changes the
      workspace state; what the read-only guarantee does to an outcome.
    - The log ([LogFacts]): numbering, the terminal event, append-only histories, durable control
      requests, exactly-once commands, the steer queue, the workspace epoch.
    - Child agents (C30; [AgentFacts]): the order of the lifecycle
      facts of a task; with unique identities and a single writer.
    - The runtime loop (C11; [AgentRuntimeFacts]): an event is published
      exactly once even when the store fails in the middle.  (C10;
      [AgentWriterFacts], [AgentSettle]): from wherever a crash left an isolated writer, the
      loop brings it to a finished task with events the reducer takes, under the contract
      [orchestrator_ok] of the Git orchestrator.  ([AgentTools]): the
      model is shown exactly the tools its actor may use, and a parsed launch of a child is
      well formed.
    - Commands and budget (C16, C17;
      [AgentControlFacts]): an acknowledged command is in the log and is handled once; the
      budget that a run shares with its children is exact under every interleaving of its
      atomic updates.
    - Whole runs (C3, C4, C5; [AgentLoopFacts]): a process that creates or takes up a run
      calls the model, the tools and the verifier exactly for the starts in the durable log,
      with what the log grants; it leaves alone what was under way in an earlier process; and
      its loop ends within the budget.  (C6; [AgentCallFacts]):
      the same for a single call, with the outcome it commits.
      (C7, C8, C9;
      [AgentCompletionFacts]): what the review accepts is what the reducer accepts, the outcome
      of a run is the one in its log, and a request that was never settled stays visible in it.
      [AgentEmits] is the logic of the steps that only publish.
    - Model turns (C12; [AgentTurnFacts]): the model is called exactly for the attempts the log has started, with
      the requests the log holds, within the budget, whatever fails in between.  [AgentProcess]
      is the logic of these proofs: triples over a live process, with what is durable at every
      moment ([durable]) and what holds between steps ([safe]).
      (C15; [AgentStreamFacts]): what streams is what is
      committed.  (C13, C14;
      [AgentAcceptFacts]): the reducer accepts the requests and the retry decisions the turn
      makes.
    - Model attempts ([ModelFacts]): in the log a retry repeats the first request, under the
      policy, with the policy's backoff.
    - Context (C32; [ContextFacts]): a planned compaction fits the limit, keeps every
      mandatory entry and splits no tool turn; the reducer commits exactly the broker's plan.
    - Errors ([ErrorFacts]): for any event at all the
      reducer accepts it or reports an unsupported schema or a corrupt run.
    - Stores (C23, C24, C31; [RunLog], [MemStoreFacts], [SqliteFacts]).
      [RunLog] is the specification: a map of append-only, reducible logs with fenced leases
      ([log_step]), and the interface [RunLogStore] with its laws [RunLogLaws].  Both stores
      implement it by simulation, and the facts about every store are proved against the
      interface.  [SqliteFacts.delta_after_control_makes_run_unreadable] shows the one
      behaviour of the SQLite store outside of it: a streamed delta after a control request is committed and
      makes the run unreadable.
    - The request ledger (C28, C29; [LedgerFacts]): every attempt is counted once, a
      complete receipt leaves no response out, a resumed budget is what is left.
    - The command policy (C27; [ExecPolicyFacts]): an allow rule never covers a command chained behind the allowed one.
    - Permissions (C19, C20, C21; [ToolAuthorizationFacts]): which
      calls each permission mode lets through without the user, that no mode runs what the
      safety analysis or a deny rule refuses, that the executor of a writer reaches neither the
      network nor a path outside its worktree, and that a decision binds the call it was made
      for.  (C36, C37;
      [ToolAuthorizationFacts], [ToolSchemaFacts]): the arguments a tool sees conform to its
      schema, and what a call reports however it ends.
    - Command safety ([CommandSafetyFacts]): what the analysis finds in a chain of
      commands, and what a command that runs without a prompt cannot contain.
    - Paths and sandbox (C33, C34, C35; [PathsFacts], [SandboxFacts]): a
      resolved path lies in the workspace; the mounts of bubblewrap grant what the policy
      grants; an isolated writer is never run without them; the tools inside the process write
      no file the sandbox would refuse.
    - The patch tool (C25, C26;
      [PatchFacts], [PatchRoundtrip]; C18; [PatchFiles],
      [PatchExecFacts]): applying the diff of two texts to the first gives the second, a hunk
      is applied where its context is, and a request changes all its files or none.
    - Web fetch (C38, C39; [WebFetchFacts]):
      a call ends within six requests, all of them to public addresses of admitted URLs and
      never from HTTPS back to HTTP, and its report tells what was done.
      ([IpAddr]): the address test by octets and segments
      instead of masks.  (C40; [HtmlTextFacts]): the scanner reaches
      the end of any source; what it reports is bounded and clean.

    [Steps] inverts the reducer once for all these proofs ([step_cases]); [reachable] is the
    rule-induction form of an accepted log.  [Demo] is a concrete run of 29 events on concrete
    parameters - a retried model request, a failing frozen verifier, an approved change, a
    steer, Host acceptance, a verified completion - and shorter ones for interruption and
    delegation; [Witnesses], [ToolWitnesses], [AgentWitnesses] and [PolicyWitnesses] apply
    every numbered theorem with hypotheses to them or to small inputs of their own;
    [AgentWitnesses] runs the whole loop.

    ** What is not modelled, and what comes next

    Not modelled: the launch, recovery and supervision of children in
    [runtime/src/agent.rs] (the lifecycle of a finished writer is), the Git commands behind the
    orchestrator, the DeepSeek transport, the other tools than the patch and the fetch tool, the
    browser harness, the sandboxes of macOS and Windows, the application service, the user
    interfaces and the configuration; they reach the core only through the events they append.
    The theorems about a whole run leave out two things its model has: a tool call that an
    earlier process prepared (the theorem about a single call covers it), and children.  Next
    would be, in this order: the children of a run as processes beside it;
    [tools/src/edit_file.rs]; the migrations of [state/src/run_store.rs], which replay logs
    through the reducer; the preservation of complete tool turns by every projection of the
    broker. *)
From stdpp Require Export base decidable option list list_numbers numbers strings pretty gmap.
From stdpp Require Import sorting.
From Stdlib Require Export Lia.

Open Scope N_scope.

(** ** Boolean tests on decidable equalities and options *)

Declare Scope dse_scope.
Delimit Scope dse_scope with dse.
Open Scope dse_scope.

Notation "x ==? y" := (bool_decide (x = y)) (at level 70, no associativity) : dse_scope.
Notation "x !=? y" := (negb (bool_decide (x = y))) (at level 70, no associativity) : dse_scope.

Definition is_some {A} (o : option A) : bool := match o with Some _ => true | None => false end.
Definition is_none {A} (o : option A) : bool := negb (is_some o).

(** Rust's [Option::is_some_and] and [Option::is_none_or]. *)
Definition is_some_and {A} (o : option A) (p : A → bool) : bool :=
  match o with Some a => p a | None => false end.
Definition is_none_or {A} (o : option A) (p : A → bool) : bool :=
  match o with Some a => p a | None => true end.

(** ** Rust's [Result] *)

Inductive result (E A : Type) :=
| Ok (a : A)
| Err (e : E).
Arguments Ok {E A} a.
Arguments Err {E A} e.

#[global] Instance result_ret E : MRet (result E) := λ A a, Ok a.
#[global] Instance result_bind E : MBind (result E) := λ A B f m,
  match m with Ok a => f a | Err e => Err e end.

Definition ok_or {E A} (o : option A) (e : E) : result E A :=
  match o with Some a => Ok a | None => Err e end.
Definition fail_if {E} (b : bool) (e : E) : result E unit :=
  if b then Err e else Ok tt.
Definition map_err {E F A} (f : E → F) (m : result E A) : result F A :=
  match m with Ok a => Ok a | Err e => Err (f e) end.
Definition is_ok {E A} (m : result E A) : bool :=
  match m with Ok _ => true | Err _ => false end.
Definition is_ok_and {E A} (m : result E A) (p : A → bool) : bool :=
  match m with Ok a => p a | Err _ => false end.

(** [for x in xs { body(x)?; }] *)
Fixpoint for_each {E A} (f : A → result E unit) (xs : list A) : result E unit :=
  match xs with
  | [] => Ok tt
  | x :: xs' => f x ;; for_each f xs'
  end.

(** A loop that threads a state: [for x in xs { state = body(state, x)?; }] *)
Fixpoint fold_result {E A S} (f : S → A → result E S) (s : S) (xs : list A) : result E S :=
  match xs with
  | [] => Ok s
  | x :: xs' => s' ← f s x; fold_result f s' xs'
  end.
(** [iter.map(f).collect::<Result<Vec<_>, _>>()] *)
Fixpoint map_result {E A B} (f : A → result E B) (xs : list A) : result E (list B) :=
  match xs with
  | [] => Ok []
  | x :: xs' => y ← f x; ys ← map_result f xs'; Ok (y :: ys)
  end.

Section result_lemmas.
Context {E : Type}.

Lemma bind_Ok {A B} (m : result E A) (f : A → result E B) b :
  (m ≫= f) = Ok b ↔ ∃ a, m = Ok a ∧ f a = Ok b.
Proof. destruct m; cbn; naive_solver. Qed.
Lemma seq_Ok {A} (r : result E unit) (k : result E A) a :
  (r ;; k) = Ok a ↔ r = Ok tt ∧ k = Ok a.
Proof. destruct r as [[]|]; cbn; naive_solver. Qed.
Lemma fail_if_Ok b (e : E) u : fail_if b e = Ok u ↔ b = false.
Proof. destruct b, u; cbn; naive_solver. Qed.
Lemma ok_or_Ok {A} (o : option A) (e : E) a : ok_or o e = Ok a ↔ o = Some a.
Proof. destruct o; cbn; naive_solver. Qed.
Lemma map_err_Ok {A F} (f : E → F) (m : result E A) a : map_err f m = Ok a ↔ m = Ok a.
Proof. destruct m; cbn; naive_solver. Qed.
Lemma is_ok_Ok {A} (m : result E A) : is_ok m = true ↔ ∃ a, m = Ok a.
Proof. destruct m; cbn; naive_solver. Qed.
Lemma for_each_Ok {A} (f : A → result E unit) xs u :
  for_each f xs = Ok u ↔ Forall (λ x, f x = Ok tt) xs.
Proof.
  destruct u. induction xs as [|x xs IH]; cbn; [naive_solver|].
  rewrite bind_Ok, Forall_cons, <- IH. split.
  - by intros ([] & ? & ?).
  - intros [? ?]. by exists tt.
Qed.
Lemma fold_result_app {A S} (f : S → A → result E S) s xs ys :
  fold_result f s (xs ++ ys) = (s' ← fold_result f s xs; fold_result f s' ys).
Proof.
  revert s; induction xs as [|x xs IH]; intros s; [done|]. cbn.
  destruct (f s x) as [s'|e]; cbn; [apply IH|done].
Qed.
Lemma map_result_Ok {A B} (f : A → result E B) xs ys :
  map_result f xs = Ok ys ↔ Forall2 (λ x y, f x = Ok y) xs ys.
Proof.
  split.
  - revert ys. induction xs as [|x xs IH]; intros ys Hm; cbn in Hm.
    + injection Hm as <-. constructor.
    + apply bind_Ok in Hm as (y & Hy & Hm). apply bind_Ok in Hm as (ys' & Hys & Hm).
      injection Hm as <-. constructor; auto.
  - induction 1 as [|x y xs ys Hx _ IH]; cbn; [done|]. by rewrite Hx, IH.
Qed.
End result_lemmas.

(** [inv_ok]: invert every hypothesis of the form [computation = Ok _] into the facts the
    computation checked, until no monadic structure is left. *)
Ltac inv_ok_step :=
  match goal with
  | H : (_ ≫= _) = Ok _ |- _ => apply bind_Ok in H; destruct H as (? & ? & ?)
  | H : mret _ = Ok _ |- _ => unfold mret, result_ret in H
  | H : Ok _ = Ok _ |- _ => injection H as H
  | H : Err _ = Ok _ |- _ => discriminate H
  | H : Ok _ = Err _ |- _ => discriminate H
  | H : fail_if _ _ = Ok _ |- _ => apply fail_if_Ok in H
  | H : ok_or _ _ = Ok _ |- _ => apply ok_or_Ok in H
  | H : map_err _ _ = Ok _ |- _ => apply map_err_Ok in H
  | H : (if ?b then _ else _) = Ok _ |- _ => destruct b eqn:?
  | H : match ?x with _ => _ end = Ok _ |- _ => destruct x eqn:?
  | H : @eq unit _ _ |- _ => clear H
  | x : unit |- _ => destruct x
  end.
Ltac inv_ok := repeat inv_ok_step.

(** The lemmas that carry a fact about a log over to a longer log, and those about saturating
    counters, are resolved from this database. *)
Create HintDb dse discriminated.

(** ** Booleans *)

Lemma bool_decide_false_neg (P : Prop) `{Decision P} : bool_decide P = false ↔ ¬ P.
Proof. apply bool_decide_eq_false. Qed.

(** [bprop]: turn the boolean facts produced by guards into propositions. *)
Ltac bprop_step :=
  match goal with
  | H : (_ || _)%bool = false |- _ => apply orb_false_iff in H; destruct H
  | H : (_ && _)%bool = true |- _ => apply andb_true_iff in H; destruct H
  | H : negb _ = false |- _ => apply negb_false_iff in H
  | H : negb _ = true |- _ => apply negb_true_iff in H
  | H : bool_decide _ = false |- _ => apply bool_decide_eq_false in H
  | H : bool_decide _ = true |- _ => apply bool_decide_eq_true in H
  | H : (_ <? _)%N = true |- _ => apply N.ltb_lt in H
  | H : (_ <? _)%N = false |- _ => apply N.ltb_ge in H
  | H : (_ <=? _)%N = true |- _ => apply N.leb_le in H
  | H : (_ <=? _)%N = false |- _ => apply N.leb_gt in H
  | H : (_ =? _)%N = true |- _ => apply N.eqb_eq in H
  | H : (_ =? _)%N = false |- _ => apply N.eqb_neq in H
  | H : is_none ?o = true |- _ => destruct o eqn:?; [discriminate H|clear H]
  | H : is_none ?o = false |- _ => destruct o eqn:?; [clear H|discriminate H]
  | H : is_some ?o = true |- _ => destruct o eqn:?; [clear H|discriminate H]
  | H : is_some ?o = false |- _ => destruct o eqn:?; [discriminate H|clear H]
  end.
Ltac bprop := repeat bprop_step.

(** ** Removing neighbours with one key *)

(** [Vec::dedup_by] on a key: of neighbours with one key the first stays. *)
Fixpoint dedup_by {A K} `{EqDecision K} (key : A → K) (xs : list A) : list A :=
  match xs with
  | [] => []
  | x :: xs' =>
    match dedup_by key xs' with
    | next :: rest => if key next ==? key x then x :: rest else x :: next :: rest
    | [] => [x]
    end
  end.

Section dedup_by_lemmas.
Context {A K : Type} `{EqDecision K} (key : A → K) (le : K → K → Prop) `{!AntiSymm eq le}.
Implicit Types (x : A) (xs : list A).
Notation key_le := (λ x y, le (key x) (key y)).

Lemma dedup_by_sub xs x : x ∈ dedup_by key xs → x ∈ xs.
Proof.
  revert x; induction xs as [|y xs IH]; cbn; [done|]. intros x.
  destruct (dedup_by key xs) as [|next rest].
  - rewrite list_elem_of_singleton. intros ->. by left.
  - case_bool_decide; rewrite !elem_of_cons in *; intros Hx.
    + destruct Hx as [->|Hx]; [by left|]. right. apply IH. by right.
    + destruct Hx as [->|Hx]; [by left|]. right. apply IH. rewrite elem_of_cons. done.
Qed.
Lemma dedup_by_keys xs : ∀ k, k ∈ (key <$> xs) ↔ k ∈ (key <$> dedup_by key xs).
Proof.
  induction xs as [|x xs IH]; cbn; [done|]. intros k. rewrite elem_of_cons, IH.
  destruct (dedup_by key xs) as [|next rest]; [cbn; rewrite !elem_of_cons; done|].
  case_bool_decide as He; cbn; rewrite !elem_of_cons; rewrite ?He; naive_solver.
Qed.
Lemma dedup_by_sorted xs :
  StronglySorted key_le xs →
  StronglySorted key_le (dedup_by key xs) ∧ NoDup (key <$> dedup_by key xs).
Proof.
  induction 1 as [|x xs Hs [IHs IHn] Hx]; cbn; [by repeat constructor|].
  assert (Hx' : Forall (key_le x) (dedup_by key xs)).
  { rewrite Forall_forall in *. intros y Hy. by apply Hx, dedup_by_sub. }
  destruct (dedup_by key xs) as [|next rest].
  - cbn. split; [by repeat constructor|apply NoDup_singleton].
  - apply Forall_cons in Hx' as [Hxn Hxr]. inversion IHs as [|? ? Hsr Hnr]; subst.
    cbn in IHn. apply NoDup_cons in IHn as [Hnin Hnd].
    case_bool_decide as He; cbn.
    + split; [by constructor|]. apply NoDup_cons. by rewrite <- He.
    + split; [constructor; [done|by constructor]|]. apply NoDup_cons. split; [|by apply NoDup_cons].
      rewrite elem_of_cons. intros [Heq|Hin]; [congruence|].
      apply list_elem_of_fmap in Hin as (y & Hy & Hin). rewrite Forall_forall in Hnr.
      apply He. specialize (Hnr y Hin). cbn in Hnr. rewrite <- Hy in Hnr.
      by apply (anti_symm le).
Qed.
End dedup_by_lemmas.

(** ** Fixed-width unsigned integers

    [u64], [u32], [u8] and [usize] (64 bit) values are [N]; every operation that could
    leave the width is written with its Rust overflow behaviour. *)

Definition U64_MAX : N := 18446744073709551615.
Definition U32_MAX : N := 4294967295.
Definition U8_MAX : N := 255.

Definition saturating_add (max a b : N) : N := N.min (a + b) max.
Abbreviation sat_add64 := (saturating_add U64_MAX).
Abbreviation sat_add32 := (saturating_add U32_MAX).
Abbreviation sat_add8 := (saturating_add U8_MAX).
Definition sat_mul64 (a b : N) : N := N.min (a * b) U64_MAX.
Definition checked_add (max a b : N) : option N :=
  if a + b <=? max then Some (a + b) else None.
Abbreviation checked_add64 := (checked_add U64_MAX).
Abbreviation checked_add32 := (checked_add U32_MAX).
Definition div_ceil (a b : N) : N := (a + (b - 1)) / b.

Lemma saturating_add_le_max max a b : saturating_add max a b ≤ max.
Proof. unfold saturating_add. lia. Qed.
Lemma saturating_add_ge max a b : a ≤ max → a ≤ saturating_add max a b.
Proof. unfold saturating_add. lia. Qed.
#[export] Hint Resolve saturating_add_le_max saturating_add_ge : dse.
Lemma saturating_add_exact max a b : a + b ≤ max → saturating_add max a b = a + b.
Proof. unfold saturating_add. lia. Qed.
Lemma saturating_add_comm max a b : saturating_add max a b = saturating_add max b a.
Proof. unfold saturating_add. lia. Qed.
Lemma saturating_add_assoc max a b c :
  saturating_add max a (saturating_add max b c) = saturating_add max (saturating_add max a b) c.
Proof. unfold saturating_add. lia. Qed.
Lemma checked_add_Some max a b c : checked_add max a b = Some c ↔ c = a + b ∧ a + b ≤ max.
Proof.
  unfold checked_add. destruct (N.leb_spec (a + b) max); split; intros Hs;
    simplify_eq; try lia; try (destruct Hs; subst); try done; lia.
Qed.

(** ** Record update: [r <| field := v |>] *)

Class Settable (R : Type) := eta_expand : R → R.
Class Setter {R T : Type} (proj : R → T) := set_field : T → R → R.
Arguments set_field {R T} proj {_} v r.

Ltac solve_setter :=
  lazymatch goal with
  | |- @Setter ?R ?T ?proj =>
    let inst := constr:(_ : Settable R) in
    let eta := eval cbv delta [eta_expand] in (@eta_expand R inst) in
    let eta := eval hnf in eta in
    lazymatch eval pattern proj in eta with
    | ?f _ => let t := eval cbv beta in (fun (v : T) (r : R) => f (fun _ => v) r) in exact t
    end
  end.
#[global] Hint Extern 0 (Setter _) => solve_setter : typeclass_instances.

Notation "r <| proj := v |>" := (set_field proj v r)
  (at level 12, left associativity, format "r  <|  proj  :=  v  |>").
