(* ===== verification/Text.v ===== *)
(** UTF-8 text: the operations of [str], [u8], [std::path] and slices the program uses.

    A Rust [String] is the [string] of its UTF-8 bytes, so [str::len] is [str_len], the
    derived [PartialEq] is [=], and [Ord] is the byte-lexicographic [String.compare]. *)
From Stdlib Require Import Ascii String.
From S2P Require Import Prelude.

Open Scope string_scope.
Open Scope N_scope.

(** ** Bytes *)

Definition byte_val (a : ascii) : N := N_of_ascii a.
Definition in_range (lo hi : N) (a : ascii) : bool := (lo <=? byte_val a) && (byte_val a <=? hi).

(** [u8::is_ascii_lowercase], [is_ascii_digit], [is_ascii_hexdigit], ... *)
Definition is_ascii_lowercase := in_range 97 122.
Definition is_ascii_uppercase := in_range 65 90.
Definition is_ascii_digit := in_range 48 57.
Definition is_ascii_alphabetic (a : ascii) : bool := is_ascii_lowercase a || is_ascii_uppercase a.
Definition is_ascii_alphanumeric (a : ascii) : bool := is_ascii_alphabetic a || is_ascii_digit a.
Definition is_ascii_hexdigit (a : ascii) : bool :=
  is_ascii_digit a || in_range 97 102 a || in_range 65 70 a.
Definition is_ascii (a : ascii) : bool := byte_val a <=? 127.
(** Space, tab, line feed, form feed, carriage return (vertical tab is not one). *)
Definition is_ascii_whitespace (a : ascii) : bool :=
  let b := byte_val a in (b =? 32) || (b =? 9) || (b =? 10) || (b =? 12) || (b =? 13).
(** A byte [10xxxxxx] continues the code point begun before it. *)
Definition is_continuation (a : ascii) : bool := in_range 128 191 a.

Fixpoint bytes (s : string) : list ascii :=
  match s with EmptyString => [] | String a s' => a :: bytes s' end.
Fixpoint of_bytes (l : list ascii) : string :=
  match l with [] => EmptyString | a :: l' => String a (of_bytes l') end.
Definition str_len (s : string) : N := N.of_nat (length (bytes s)).
Definition all_bytes (p : ascii → bool) (s : string) : bool := forallb p (bytes s).
Definition is_empty_str (s : string) : bool := s ==? "".

Lemma of_bytes_bytes s : of_bytes (bytes s) = s.
Proof. induction s; cbn; congruence. Qed.
Lemma bytes_app s t : bytes (s ++ t) = (bytes s ++ bytes t)%list.
Proof.
  induction s as [|a s IH]; [done|].
  change (String a s ++ t) with (String a (s ++ t)). cbn. by rewrite IH.
Qed.

(** ** Characters

    [str::chars]: a code point is a leading byte with the continuation bytes after it. *)

Fixpoint chars_go (cur : list ascii) (l : list ascii) : list (list ascii) :=
  match l with
  | [] => match cur with [] => [] | _ => [reverse cur] end
  | a :: l' =>
    if is_continuation a then chars_go (a :: cur) l'
    else match cur with [] => chars_go [a] l' | _ => reverse cur :: chars_go [a] l' end
  end.
Definition chars (s : string) : list (list ascii) := chars_go [] (bytes s).
Definition of_chars (cs : list (list ascii)) : string := of_bytes (mjoin cs).
Definition chars_count (s : string) : N := N.of_nat (length (chars s)).

Lemma chars_go_join cur l : mjoin (chars_go cur l) = (reverse cur ++ l)%list.
Proof.
  revert cur; induction l as [|a l IH]; intros cur; cbn.
  - destruct cur; [done|]. cbn [mjoin list_join]. by rewrite !app_nil_r.
  - destruct (is_continuation a).
    + rewrite IH, reverse_cons, <- app_assoc. done.
    + destruct cur as [|c cur]; [by rewrite IH|].
      cbn [mjoin list_join]. by rewrite IH.
Qed.
Lemma of_chars_chars s : of_chars (chars s) = s.
Proof. unfold of_chars, chars. rewrite chars_go_join. apply of_bytes_bytes. Qed.

(** ** [str::trim().is_empty()]

    [char::is_whitespace] is Unicode [White_Space]; the code points with that property are
    listed by their UTF-8 encodings. *)

Definition white_space_char (c : list ascii) : bool :=
  match byte_val <$> c with
  | [b] => ((9 <=? b) && (b <=? 13)) || (b =? 32)
  | [194; b] => (b =? 133) || (b =? 160)
  | [225; 154; 128] => true
  | [226; 128; b] => ((128 <=? b) && (b <=? 138)) || (b =? 168) || (b =? 169) || (b =? 175)
  | [226; 129; 159] => true
  | [227; 128; 128] => true
  | _ => false
  end.
Definition trim_is_empty (s : string) : bool := forallb white_space_char (chars s).

(** ** Searching *)

Definition contains_byte (b : N) (s : string) : bool :=
  existsb (λ a, byte_val a =? b) (bytes s).
Definition contains_nul := contains_byte 0.

Fixpoint strip_prefix (p s : string) : option string :=
  match p, s with
  | EmptyString, _ => Some s
  | String a p', String b s' => if a ==? b then strip_prefix p' s' else None
  | String _ _, EmptyString => None
  end.
Definition starts_with (p s : string) : bool := is_some (strip_prefix p s).

Lemma strip_prefix_Some p s t : strip_prefix p s = Some t ↔ s = p ++ t.
Proof.
  revert s; induction p as [|a p IH]; intros s.
  { change ("" ++ t) with t. cbn. naive_solver. }
  change (String a p ++ t) with (String a (p ++ t)). cbn.
  destruct s as [|b s]; [naive_solver|].
  case_bool_decide; subst; [rewrite IH|]; naive_solver.
Qed.

(** [str::split] on any of the given bytes. *)
Fixpoint split_go (sep : ascii → bool) (cur : list ascii) (l : list ascii) : list (list ascii) :=
  match l with
  | [] => [reverse cur]
  | a :: l' => if sep a then reverse cur :: split_go sep [] l' else split_go sep (a :: cur) l'
  end.
Definition split_bytes (sep : ascii → bool) (s : string) : list string :=
  of_bytes <$> split_go sep [] (bytes s).

(** [char::join(",")] / [join("\n")] *)
Fixpoint str_join (sep : string) (l : list string) : string :=
  match l with
  | [] => ""
  | [x] => x
  | x :: l' => x ++ sep ++ str_join sep l'
  end.

Definition newline : string := String (ascii_of_N 10) "".

(** Byte-lexicographic [<] on strings. *)
Definition str_lt (a b : string) : bool :=
  match String.compare a b with Lt => true | _ => false end.

(** [std::path] on Unix: a path is absolute when it starts with [/]; its components are the
    segments between slashes, [..] being [Component::ParentDir]. *)
Definition is_slash (a : ascii) : bool := byte_val a =? 47.
Definition is_slash_or_backslash (a : ascii) : bool := (byte_val a =? 47) || (byte_val a =? 92).
Definition path_is_absolute (s : string) : bool := starts_with "/" s.
Definition path_has_parent_dir (s : string) : bool :=
  existsb (λ seg, seg ==? "..") (split_bytes is_slash s).

(** Decimal rendering of an unsigned integer ([Display]). *)
Definition show_N (n : N) : string := pretty n.

Lemma show_N_inj n m : show_N n = show_N m → n = m.
Proof. apply pretty_N_inj. Qed.
Lemma str_app_inj_l p a b : p ++ a = p ++ b → a = b.
Proof.
  induction p as [|c p IH]; [done|].
  change (String c p ++ a) with (String c (p ++ a)).
  change (String c p ++ b) with (String c (p ++ b)). intros [= ?]; auto.
Qed.

(** ** Duplicate detection: the [HashSet::insert] loops *)

Fixpoint first_duplicate_go {A} `{EqDecision A} (seen : list A) (l : list A) : option A :=
  match l with
  | [] => None
  | x :: l' => if bool_decide (x ∈ seen) then Some x else first_duplicate_go (x :: seen) l'
  end.
Definition no_dup {A} `{EqDecision A} (l : list A) : bool := is_none (first_duplicate_go [] l).

Lemma first_duplicate_go_None {A} `{EqDecision A} (seen l : list A) :
  first_duplicate_go seen l = None ↔ NoDup l ∧ ∀ x, x ∈ l → x ∉ seen.
Proof.
  revert seen; induction l as [|x l IH]; intros seen; cbn.
  - split; [|done]. split; [constructor|]. intros ? Hx; by apply elem_of_nil in Hx.
  - case_bool_decide as Hx.
    + split; [done|]. intros [_ Hs]. destruct (Hs x); [left|done].
    + rewrite IH, NoDup_cons. split.
      * intros [Hnd Hs]. split_and!; [|done|].
        -- intros Hxl. destruct (Hs x Hxl). left.
        -- intros y [->|Hy]%elem_of_cons; [done|].
           intros Hys. destruct (Hs y Hy). by right.
      * intros [[Hxl Hnd] Hs]. split; [done|].
        intros y Hy [->|Hys]%elem_of_cons; [done|].
        destruct (Hs y); [by right|done].
Qed.

(** ** List access used by the reducer *)

(** [iter().find(p)], [iter().position(p)], [iter().rposition(p)], [iter().find_map(f)]. *)
Fixpoint find_first {A} (p : A → bool) (l : list A) : option A :=
  match l with [] => None | x :: l' => if p x then Some x else find_first p l' end.
Fixpoint position {A} (p : A → bool) (l : list A) : option nat :=
  match l with
  | [] => None
  | x :: l' => if p x then Some O else S <$> position p l'
  end.
Fixpoint find_map {A B} (f : A → option B) (l : list A) : option B :=
  match l with
  | [] => None
  | x :: l' => match f x with Some b => Some b | None => find_map f l' end
  end.

(** [slice.windows(2).all(p)] *)
Fixpoint windows2_all {A} (p : A → A → bool) (l : list A) : bool :=
  match l with
  | x :: ((y :: _) as l') => p x y && windows2_all p l'
  | _ => true
  end.

Lemma find_first_Some {A} (p : A → bool) l x :
  find_first p l = Some x → x ∈ l ∧ p x = true.
Proof.
  induction l as [|y l IH]; cbn; [done|].
  destruct (p y) eqn:Hy; [intros [= ->]; split; [left|done]|].
  intros [? ?]%IH. split; [by right|done].
Qed.
Lemma find_first_None {A} (p : A → bool) l x :
  find_first p l = None → x ∈ l → p x = false.
Proof.
  induction l as [|y l IH]; cbn; [by intros _ Hx%elem_of_nil|].
  destruct (p y) eqn:Hy; [done|].
  intros H [->|?]%elem_of_cons; auto.
Qed.
Lemma find_first_is_Some {A} (p : A → bool) l x :
  x ∈ l → p x = true → is_Some (find_first p l).
Proof.
  intros Hx Hp. destruct (find_first p l) eqn:E; [done|].
  pose proof (find_first_None _ _ _ E Hx). congruence.
Qed.
Lemma position_Some {A} (p : A → bool) l i :
  position p l = Some i → ∃ x, l !! i = Some x ∧ p x = true.
Proof.
  revert i; induction l as [|y l IH]; intros i; cbn; [done|].
  destruct (p y) eqn:Hy; [intros [= <-]; by exists y|].
  destruct (position p l); cbn; [|done]. intros [= <-]. apply IH; done.
Qed.
Lemma find_map_Some {A B} (f : A → option B) l b :
  find_map f l = Some b → ∃ x, x ∈ l ∧ f x = Some b.
Proof.
  induction l as [|y l IH]; cbn; [done|].
  destruct (f y) eqn:Hy; [intros [= ->]; exists y; split; [left|done]|].
  intros (x & ? & ?)%IH. exists x; split; [by right|done].
Qed.
Lemma existsb_elem_of {A} (p : A → bool) (l : list A) :
  existsb p l = true ↔ ∃ x, x ∈ l ∧ p x = true.
Proof. rewrite existsb_exists. by setoid_rewrite list_elem_of_In. Qed.
Lemma existsb_false_elem_of {A} (p : A → bool) (l : list A) :
  existsb p l = false ↔ ∀ x, x ∈ l → p x = false.
Proof.
  split.
  - intros H x Hx. destruct (p x) eqn:E; [|done].
    rewrite <- H. symmetry. apply existsb_elem_of. eauto.
  - intros H. destruct (existsb p l) eqn:E; [|done].
    apply existsb_elem_of in E as (x & Hx & Hp). by rewrite (H x Hx) in Hp.
Qed.
Lemma forallb_elem_of {A} (p : A → bool) (l : list A) :
  forallb p l = true ↔ ∀ x, x ∈ l → p x = true.
Proof. rewrite forallb_forall. by setoid_rewrite list_elem_of_In. Qed.

(** A loop over [xs] that validates each element and then inserts its key into a [HashSet],
    failing on a key that is already there. *)
Fixpoint for_each_unique {E A K} `{EqDecision K} (check : A → result E unit) (key : A → K)
    (dup : A → E) (seen : list K) (xs : list A) : result E unit :=
  match xs with
  | [] => Ok tt
  | x :: xs' =>
    check x ;;
    fail_if (bool_decide (key x ∈ seen)) (dup x) ;;
    for_each_unique check key dup (key x :: seen) xs'
  end.

Lemma for_each_unique_Ok {E A K} `{EqDecision K} (check : A → result E unit) (key : A → K)
    dup seen xs u :
  for_each_unique check key dup seen xs = Ok u ↔
  Forall (λ x, check x = Ok tt) xs ∧ NoDup (key <$> xs) ∧ ∀ x, x ∈ key <$> xs → x ∉ seen.
Proof.
  destruct u. revert seen; induction xs as [|x xs IH]; intros seen; cbn.
  - split; [|done]. intros _. split_and!; [constructor|constructor|].
    intros ? Hx; by apply elem_of_nil in Hx.
  - rewrite bind_Ok. setoid_rewrite bind_Ok. setoid_rewrite IH.
    rewrite Forall_cons, NoDup_cons. split.
    + intros ([] & Hc & [] & Hf & Hall & Hnd & Hs). apply fail_if_Ok in Hf.
      apply bool_decide_eq_false in Hf. split_and!; try done.
      * intros Hx. destruct (Hs _ Hx). left.
      * intros y [->|Hy]%elem_of_cons; [done|]. intros Hys. destruct (Hs _ Hy). by right.
    + intros ((Hc & Hall) & (Hx & Hnd) & Hs). exists tt. split; [done|]. exists tt.
      split_and!; [|done|done|].
      * apply fail_if_Ok, bool_decide_eq_false. apply Hs. left.
      * intros y Hy [->|Hys]%elem_of_cons; [done|]. destruct (Hs y); [by right|done].
Qed.

Lemma for_each_unique_nil {E A K} `{EqDecision K} (check : A → result E unit) (key : A → K)
    dup xs u :
  for_each_unique check key dup [] xs = Ok u ↔
  Forall (λ x, check x = Ok tt) xs ∧ NoDup (key <$> xs).
Proof.
  rewrite for_each_unique_Ok. split; [naive_solver|].
  intros [? ?]. split_and!; [done..|]. intros ? _ Hx. by apply elem_of_nil in Hx.
Qed.
