(* ===== verification/Json.v ===== *)
(** JSON values as the program holds them ([serde_json::Value]) and the canonical key order
    of [protocol/src/task.rs].

    The constructors are those the sources match on.  A number is kept as its literal text.
    An object is the list of its entries in insertion order ([serde_json] is built with
    [preserve_order]).  Rendering a value to text or bytes and hashing are code of third-party
    crates: they are the operations of the class [JsonLib]. *)
From Stdlib Require Import String.
From stdpp Require Import sorting.
From S2P Require Import Prelude Text.

Open Scope string_scope.
Open Scope N_scope.

Inductive Value :=
| VNull
| VBool (b : bool)
| VNumber (literal : string)
| VString (s : string)
| VArray (values : list Value)
| VObject (entries : list (string * Value)).

#[global] Instance Value_eq_dec : EqDecision Value.
Proof.
  refine (fix go (v w : Value) : Decision (v = w) :=
    let _ : EqDecision Value := go in
    match v, w with
    | VNull, VNull => left eq_refl
    | VBool a, VBool b => cast_if (decide (a = b))
    | VNumber a, VNumber b => cast_if (decide (a = b))
    | VString a, VString b => cast_if (decide (a = b))
    | VArray a, VArray b => cast_if (decide (a = b))
    | VObject a, VObject b => cast_if (decide (a = b))
    | _, _ => right _
    end); congruence.
Defined.

(** [Value::is_object], [Value::as_object], [Value::as_str], [Map::get]. *)
Definition is_object (v : Value) : bool := match v with VObject _ => true | _ => false end.
Definition as_object (v : Value) : option (list (string * Value)) :=
  match v with VObject fs => Some fs | _ => None end.
Definition as_str (v : Value) : option string :=
  match v with VString s => Some s | _ => None end.
Definition object_get (k : string) (fs : list (string * Value)) : option Value :=
  snd <$> find_first (λ e, e.1 ==? k) fs.

(** The third-party operations: [sha2] (lower-case hexadecimal SHA-256), [Value]'s [Display]
    and [serde_json::to_vec] on a [Value]. *)
Class JsonLib := {
  sha256_hex : string → string;
  value_to_string : Value → string;
  value_to_vec : Value → result string string;
}.

(** ** [canonical_json] *)

Definition key_le (e f : string * Value) : Prop := String.le e.1 f.1.
#[global] Instance key_le_dec : RelDecision key_le.
Proof. intros e f. unfold key_le. apply _. Defined.
#[global] Instance key_le_trans : Transitive key_le.
Proof. intros a b c. unfold key_le. apply transitivity. Qed.
#[global] Instance key_le_total : Total key_le.
Proof. intros a b. unfold key_le. apply total. apply _. Qed.

Fixpoint canonical_json (v : Value) : Value :=
  match v with
  | VObject fs =>
    VObject (merge_sort key_le
      (List.map (λ e, match e with (k, x) => (k, canonical_json x) end) fs))
  | VArray vs => VArray (List.map canonical_json vs)
  | _ => v
  end.

(** Induction over the nested lists. *)
Lemma Value_nested_ind (P : Value → Prop) :
  P VNull → (∀ b, P (VBool b)) → (∀ l, P (VNumber l)) → (∀ s, P (VString s)) →
  (∀ vs, Forall P vs → P (VArray vs)) →
  (∀ fs, Forall (λ e, P e.2) fs → P (VObject fs)) →
  ∀ v, P v.
Proof.
  intros Hn Hb Hm Hs Ha Ho. fix go 1.
  intros [|b|l|s|vs|fs]; [exact Hn|exact (Hb b)|exact (Hm l)|exact (Hs s)| |].
  - apply Ha. induction vs as [|v vs IH]; constructor; [apply (go v)|exact IH].
  - apply Ho. induction fs as [|[k x] fs IH]; constructor; [apply (go x)|exact IH].
Qed.

(** A value in which no object repeats a key, as every [serde_json::Map] guarantees. *)
Inductive distinct_keys : Value → Prop :=
| distinct_null : distinct_keys VNull
| distinct_bool b : distinct_keys (VBool b)
| distinct_number l : distinct_keys (VNumber l)
| distinct_string s : distinct_keys (VString s)
| distinct_array vs : Forall distinct_keys vs → distinct_keys (VArray vs)
| distinct_object fs :
    NoDup (fs.*1) → Forall (λ e, distinct_keys e.2) fs → distinct_keys (VObject fs).

(** [same_json v w]: [v] and [w] differ only in the order of object entries (what
    [serde_json]'s map equality ignores). *)
Inductive same_json : Value → Value → Prop :=
| same_null : same_json VNull VNull
| same_bool b : same_json (VBool b) (VBool b)
| same_number l : same_json (VNumber l) (VNumber l)
| same_string s : same_json (VString s) (VString s)
| same_array vs ws : Forall2 same_json vs ws → same_json (VArray vs) (VArray ws)
| same_object fs gs hs :
    Forall2 (λ e f, e.1 = f.1 ∧ same_json e.2 f.2) fs gs → gs ≡ₚ hs →
    same_json (VObject fs) (VObject hs).

(** Every object in the value lists its keys in increasing byte order. *)
Inductive sorted_json : Value → Prop :=
| sorted_null : sorted_json VNull
| sorted_bool b : sorted_json (VBool b)
| sorted_number l : sorted_json (VNumber l)
| sorted_string s : sorted_json (VString s)
| sorted_array vs : Forall sorted_json vs → sorted_json (VArray vs)
| sorted_object fs :
    Sorted key_le fs → Forall (λ e, sorted_json e.2) fs → sorted_json (VObject fs).

Definition canon_entry (e : string * Value) : string * Value :=
  match e with (k, x) => (k, canonical_json x) end.

Lemma canon_entry_fst l : (List.map canon_entry l).*1 = l.*1.
Proof. induction l as [|[k x] l IH]; cbn; congruence. Qed.

Lemma canonical_json_object fs :
  canonical_json (VObject fs) = VObject (merge_sort key_le (List.map canon_entry fs)).
Proof. done. Qed.

Lemma canonical_json_sorted v : sorted_json (canonical_json v).
Proof.
  induction v as [| | | |vs IH|fs IH] using Value_nested_ind; cbn; try constructor.
  - by apply Forall_map.
  - apply Sorted_merge_sort. apply _.
  - rewrite merge_sort_Permutation. apply Forall_map.
    eapply Forall_impl; [exact IH|]. by intros [k x].
Qed.

(** Two lists of entries with distinct keys that are permutations of one another sort to the
    same list. *)
Lemma sort_entries_unique l1 l2 :
  NoDup (l1.*1) → l1 ≡ₚ l2 → merge_sort key_le l1 = merge_sort key_le l2.
Proof.
  intros Hnd Hp.
  apply (StronglySorted_unique_strong key_le).
  - intros [k x] [k' y]. rewrite !merge_sort_Permutation, <- Hp.
    intros Hx Hy Hle Hge. unfold key_le in *; cbn in *.
    assert (k = k') as <- by (by apply (anti_symm String.le)).
    f_equal.
    apply list_elem_of_lookup in Hx as [i Hi], Hy as [j Hj].
    assert (i = j) as <-; [|congruence].
    eapply NoDup_lookup; [exact Hnd| |]; rewrite list_lookup_fmap;
      [by rewrite Hi|by rewrite Hj].
  - apply StronglySorted_merge_sort; apply _.
  - apply StronglySorted_merge_sort; apply _.
  - by rewrite !merge_sort_Permutation.
Qed.

(** [canonical_json] maps values that differ only in the insertion order of object keys, at
    any depth, to one and the same value. *)
Lemma canonical_json_same v : ∀ w, distinct_keys v → same_json v w → canonical_json v = canonical_json w.
Proof.
  induction v as [| | | |vs IH|fs IH] using Value_nested_ind; intros w Hd Hs;
    inversion Hs as [| | | |? ws Hws|? gs hs Hg Hp]; subst; try done.
  - cbn. f_equal. inversion Hd as [| | | |? Hvs|]; subst.
    revert ws Hws Hvs IH Hs Hd. clear.
    intros ws Hws Hvs IH _ _. induction Hws as [|v w vs ws Hvw Hws IHl]; cbn; [done|].
    inversion Hvs; inversion IH; subst. f_equal; eauto.
  - inversion Hd as [| | | | |? Hnd Hfs]; subst. rewrite !canonical_json_object. f_equal.
    assert (Heq : List.map canon_entry fs = List.map canon_entry gs).
    { clear Hs Hd Hp Hnd.
      induction Hg as [|[k x] [k' y] fs gs [Hk Hxy] Hg IHg]; [done|].
      inversion IH; inversion Hfs; subst. cbn in *. subst. f_equal; [f_equal; eauto|eauto]. }
    rewrite Heq. apply sort_entries_unique; [|by rewrite Hp].
    rewrite <- Heq, canon_entry_fst. done.
Qed.

Lemma canonical_json_distinct v : distinct_keys v → distinct_keys (canonical_json v).
Proof.
  induction v as [| | | |vs IH|fs IH] using Value_nested_ind; intros Hd; inversion Hd; subst;
    cbn; constructor.
  - apply Forall_map. rewrite Forall_forall in *. auto.
  - change (NoDup (merge_sort key_le (List.map canon_entry fs)).*1).
    rewrite merge_sort_Permutation, canon_entry_fst. done.
  - rewrite merge_sort_Permutation. apply Forall_map. rewrite Forall_forall in *.
    intros [k x] Hx. cbn. apply (IH (k, x) Hx). by apply (H1 (k, x)).
Qed.

Lemma canonical_json_id v : sorted_json v → distinct_keys v → canonical_json v = v.
Proof.
  induction v as [| | | |vs IH|fs IH] using Value_nested_ind; intros Hs Hd;
    inversion Hs as [| | | |? Hvs|? Hsort Hfs]; inversion Hd as [| | | |? Hdv|? Hnd Hdf];
    subst; try done.
  - cbn. f_equal. clear Hs Hd. induction vs as [|v vs IHvs]; [done|]. cbn.
    inversion IH; inversion Hvs; inversion Hdv; subst. f_equal; auto.
  - rewrite canonical_json_object. f_equal.
    assert (List.map canon_entry fs = fs) as ->.
    { clear Hsort Hnd Hs Hd. induction fs as [|[k x] fs IHf]; [done|]. cbn.
      inversion IH; inversion Hfs; inversion Hdf; subst. cbn in *. f_equal; [f_equal; auto|auto]. }
    apply (StronglySorted_unique_strong key_le).
    + intros [k x] [k' y]. rewrite merge_sort_Permutation. intros Hx Hy Hle Hge.
      unfold key_le in *; cbn in *.
      assert (k = k') as <- by (by apply (anti_symm String.le)). f_equal.
      apply list_elem_of_lookup in Hx as [i Hi], Hy as [j Hj].
      assert (i = j) as <-; [|congruence].
      eapply NoDup_lookup; [exact Hnd| |]; rewrite list_lookup_fmap;
        [by rewrite Hi|by rewrite Hj].
    + apply StronglySorted_merge_sort; apply _.
    + by apply Sorted_StronglySorted; [apply _|].
    + by rewrite merge_sort_Permutation.
Qed.

(** The canonical form of a JSON value is canonical: values that differ only in the order
    of object entries (at any depth) have the same canonical form, in it every object lists
    its keys in increasing order, and canonicalising again changes nothing.  So a digest of
    canonical bytes does not depend on how a producer ordered its keys. *)
Theorem canonical_json_is_canonical v w :
  distinct_keys v → same_json v w →
  canonical_json v = canonical_json w ∧ sorted_json (canonical_json v) ∧
  canonical_json (canonical_json v) = canonical_json v.
Proof.
  intros Hd Hs. split_and!.
  - by apply canonical_json_same.
  - apply canonical_json_sorted.
  - apply canonical_json_id; [apply canonical_json_sorted|by apply canonical_json_distinct].
Qed.
