(* ===== verification/Task.v ===== *)
(** Canonical task, verifier, evidence and completion contracts:
    [crates/protocol/src/task.rs].

    Every [string_id!] newtype is its string.  A validator returns [Ok tt] or the [Err]
    message of the first check that fails, in the order of the source. *)
From Stdlib Require Import String.
From S2P Require Import Prelude Text Json.

Open Scope string_scope.
Open Scope N_scope.

Definition TaskGenerationId := string.
Definition AcceptanceId := string.
Definition VerificationId := string.
Definition EvidenceReceiptId := string.
Definition CompletionCandidateId := string.
Definition HostAcceptanceReceiptId := string.

Definition DEFAULT_HOST_ACCEPTANCE_DESCRIPTION : string := "由 Host 明确接受完成候选".

(** ** Text validators *)

Definition require_id (kind value : string) : result string unit :=
  if trim_is_empty value then Err (kind ++ " must not be empty") else Ok tt.

Definition require_text (kind value : string) : result string unit := require_id kind value.

Definition validate_text_list (kind : string) (values : list string) : result string unit :=
  fail_if (existsb trim_is_empty values) (kind ++ " entries must not be empty").

Definition validate_ids (kind : string) (values : list string) : result string unit :=
  for_each_unique (require_id kind) id
    (λ value, kind ++ " '" ++ value ++ "' appears more than once") [] values.

(** ** Workspace identity *)

Inductive WorkspaceRevision :=
| Known (sha256 : string)
| Unknown (reason : string).
#[global] Instance WorkspaceRevision_eq_dec : EqDecision WorkspaceRevision.
Proof. solve_decision. Defined.

Definition WorkspaceRevision_validate (r : WorkspaceRevision) : result string unit :=
  match r with
  | Known sha256 => require_id "workspace revision" sha256
  | Unknown reason => require_text "workspace revision failure" reason
  end.

(** [ws_generation] is a [u64] Host epoch. *)
Record WorkspaceState := mkWorkspaceState {
  ws_generation : N;
  ws_revision : WorkspaceRevision;
}.
#[global] Instance WorkspaceState_eq_dec : EqDecision WorkspaceState.
Proof. solve_decision. Defined.

Definition WorkspaceState_validate (s : WorkspaceState) : result string unit :=
  WorkspaceRevision_validate (ws_revision s).

Definition is_unknown_revision (r : WorkspaceRevision) : bool :=
  match r with Unknown _ => true | Known _ => false end.

Definition require_known_workspace_state (kind : string) (s : WorkspaceState)
    : result string unit :=
  WorkspaceState_validate s ;;
  fail_if (is_unknown_revision (ws_revision s)) (kind ++ " requires a known workspace revision").

(** ** Verifier specifications *)

Inductive VerifierEvidencePolicy := LatestPassPolicy | FailedWritePassPolicy.
#[global] Instance VerifierEvidencePolicy_eq_dec : EqDecision VerifierEvidencePolicy.
Proof. solve_decision. Defined.

Record VerifierStep := mkVerifierStep {
  step_id : string;
  step_program : string;
  step_args : list string;
  step_cwd : string;
  step_env : gmap string string;
  step_timeout_ms : N;
}.
#[global] Instance VerifierStep_eq_dec : EqDecision VerifierStep.
Proof. solve_decision. Defined.

Definition VerifierStep_validate (s : VerifierStep) : result string unit :=
  require_id "verifier step id" (step_id s) ;;
  require_id "verifier program" (step_program s) ;;
  fail_if (step_timeout_ms s =? 0) "verifier step timeout must be greater than zero" ;;
  fail_if (starts_with "/" (step_cwd s)
           || starts_with "\" (step_cwd s)
           || existsb (λ part, part ==? "..") (split_bytes is_slash_or_backslash (step_cwd s)))
    "verifier step cwd must stay inside the workspace" ;;
  fail_if (existsb trim_is_empty ((map_to_list (step_env s)).*1))
    "verifier environment variable names must not be empty".

Record VerifierPlan := mkVerifierPlan { plan_steps : list VerifierStep }.
#[global] Instance VerifierPlan_eq_dec : EqDecision VerifierPlan.
Proof. solve_decision. Defined.

Definition VerifierPlan_validate (p : VerifierPlan) : result string unit :=
  fail_if (plan_steps p ==? []) "verifier plan must contain at least one step" ;;
  for_each_unique VerifierStep_validate step_id
    (λ step, "verifier plan contains duplicate step id '" ++ step_id step ++ "'")
    [] (plan_steps p).

Record VerifierSpec := mkVerifierSpec {
  spec_verifier_id : string;
  spec_parameters : Value;
  spec_plan : VerifierPlan;
}.
#[global] Instance VerifierSpec_eq_dec : EqDecision VerifierSpec.
Proof. solve_decision. Defined.
#[global] Instance VerifierSpec_settable : Settable VerifierSpec :=
  λ r, mkVerifierSpec (spec_verifier_id r) (spec_parameters r) (spec_plan r).

Definition VerifierSpec_validate (s : VerifierSpec) : result string unit :=
  require_id "verifier id" (spec_verifier_id s) ;;
  fail_if (negb (is_object (spec_parameters s))) "verifier parameters must be a JSON object" ;;
  VerifierPlan_validate (spec_plan s).

Definition VerifierSpec_canonicalized (s : VerifierSpec) : VerifierSpec :=
  s <| spec_parameters := canonical_json (spec_parameters s) |>.

(** The derived [Serialize] of [VerifierSpec] ([serde_json::to_vec]). *)
Class TaskCodec := { verifier_spec_to_vec : VerifierSpec → string }.

Definition VerifierSpec_sha256 `{JsonLib, TaskCodec} (s : VerifierSpec) : string :=
  "sha256:" ++ sha256_hex (verifier_spec_to_vec (VerifierSpec_canonicalized s)).

Inductive VerifierVerdict := VerdictPassed | VerdictFailed | VerdictPartial.
#[global] Instance VerifierVerdict_eq_dec : EqDecision VerifierVerdict.
Proof. solve_decision. Defined.

Record VerifierObservation := mkVerifierObservation {
  obs_spec : VerifierSpec;
  obs_verdict : VerifierVerdict;
  obs_workspace_revision : WorkspaceRevision;
  obs_artifact_ids : list string;
}.
#[global] Instance VerifierObservation_eq_dec : EqDecision VerifierObservation.
Proof. solve_decision. Defined.

Definition VerifierObservation_validate (o : VerifierObservation) : result string unit :=
  VerifierSpec_validate (obs_spec o) ;;
  WorkspaceRevision_validate (obs_workspace_revision o) ;;
  validate_ids "verifier artifact id" (obs_artifact_ids o).

(** ** Task definitions *)

Inductive TaskAcceptance :=
| AcceptHost (id : AcceptanceId) (description : string)
| AcceptVerifier (id : AcceptanceId) (description : string)
    (evidence_policy : VerifierEvidencePolicy) (verifier : VerifierSpec).
#[global] Instance TaskAcceptance_eq_dec : EqDecision TaskAcceptance.
Proof. solve_decision. Defined.

Definition acceptance_id (a : TaskAcceptance) : AcceptanceId :=
  match a with AcceptHost id _ => id | AcceptVerifier id _ _ _ => id end.
Definition is_verifier_acceptance (a : TaskAcceptance) : bool :=
  match a with AcceptVerifier _ _ _ _ => true | AcceptHost _ _ => false end.
Definition is_host_acceptance (a : TaskAcceptance) : bool :=
  match a with AcceptHost _ _ => true | AcceptVerifier _ _ _ _ => false end.

Definition TaskAcceptance_validate (a : TaskAcceptance) : result string unit :=
  '(id, description) ← match a with
    | AcceptHost id description => Ok (id, description)
    | AcceptVerifier id description _ verifier =>
      VerifierSpec_validate verifier ;; Ok (id, description)
    end;
  require_id "acceptance id" id ;;
  require_text "acceptance description" description.

Record TaskDefinition := mkTaskDefinition {
  def_objective : string;
  def_constraints : list string;
  def_non_goals : list string;
  def_acceptance : list TaskAcceptance;
}.
#[global] Instance TaskDefinition_eq_dec : EqDecision TaskDefinition.
Proof. solve_decision. Defined.

Definition TaskDefinition_host (objective : string) : TaskDefinition :=
  mkTaskDefinition objective [] [] [AcceptHost "host" DEFAULT_HOST_ACCEPTANCE_DESCRIPTION].

Definition append_model_list (message title : string) (values : list string) : string :=
  match values with
  | [] => message
  | _ => foldl (λ m value, m ++ newline ++ "- " ++ value)
           (message ++ newline ++ newline ++ title ++ "：") values
  end.

Definition append_model_acceptance (message : string) (a : TaskAcceptance) : string :=
  match a with
  | AcceptHost _ description => message ++ newline ++ "- " ++ description
  | AcceptVerifier id description policy _ =>
    message ++ newline ++ "- " ++ description ++ "（冻结 verifier ID：`" ++ id ++
    match policy with
    | LatestPassPolicy => "`；完整参数和最终验收由 Host 管理）"
    | FailedWritePassPolicy => "`；Host 只接受修改前失败→有效修改→最终通过的有序证据）"
    end
  end.

Definition default_host_task (d : TaskDefinition) : bool :=
  match def_constraints d, def_non_goals d, def_acceptance d with
  | [], [], [AcceptHost id description] =>
    (id ==? "host") && (description ==? DEFAULT_HOST_ACCEPTANCE_DESCRIPTION)
  | _, _, _ => false
  end.

Definition model_message (d : TaskDefinition) : string :=
  if default_host_task d then def_objective d
  else
    let message := "任务目标：" ++ newline ++ def_objective d in
    let message := append_model_list message "约束" (def_constraints d) in
    let message := append_model_list message "非目标" (def_non_goals d) in
    let message := message ++ newline ++ newline ++ "验收条件：" in
    foldl append_model_acceptance message (def_acceptance d).

Definition TaskDefinition_validate (d : TaskDefinition) : result string unit :=
  require_text "task objective" (def_objective d) ;;
  validate_text_list "constraint" (def_constraints d) ;;
  validate_text_list "non-goal" (def_non_goals d) ;;
  fail_if (def_acceptance d ==? []) "task acceptance must not be empty" ;;
  for_each_unique TaskAcceptance_validate acceptance_id
    (λ a, "task contains duplicate acceptance id '" ++ acceptance_id a ++ "'")
    [] (def_acceptance d) ;;
  fail_if (Nat.ltb 1 (length (List.filter is_verifier_acceptance (def_acceptance d))))
    "task must use one exact verifier plan; put multiple gates in that plan".

Record TaskContract := mkTaskContract {
  contract_generation_id : TaskGenerationId;
  contract_definition : TaskDefinition;
}.
#[global] Instance TaskContract_eq_dec : EqDecision TaskContract.
Proof. solve_decision. Defined.

Definition TaskContract_validate (c : TaskContract) : result string unit :=
  require_id "task generation id" (contract_generation_id c) ;;
  TaskDefinition_validate (contract_definition c).

(** ** Evidence *)

Inductive FailedVerifierSource :=
| SourceTool (operation_id : string)
| SourceHost (verification_id : VerificationId).
#[global] Instance FailedVerifierSource_eq_dec : EqDecision FailedVerifierSource.
Proof. solve_decision. Defined.

Definition FailedVerifierSource_validate (s : FailedVerifierSource) : result string unit :=
  match s with
  | SourceTool operation_id => require_id "failed verifier operation id" operation_id
  | SourceHost verification_id => require_id "failed Host verification id" verification_id
  end.

Record FailedVerifierEvidence := mkFailedVerifierEvidence {
  fve_source : FailedVerifierSource;
  fve_workspace_state : WorkspaceState;
  fve_artifact_ids : list string;
}.
#[global] Instance FailedVerifierEvidence_eq_dec : EqDecision FailedVerifierEvidence.
Proof. solve_decision. Defined.

Definition FailedVerifierEvidence_validate (e : FailedVerifierEvidence) : result string unit :=
  FailedVerifierSource_validate (fve_source e) ;;
  require_known_workspace_state "failed verifier workspace" (fve_workspace_state e) ;;
  fail_if (fve_artifact_ids e ==? []) "failed verifier evidence requires at least one artifact" ;;
  validate_ids "failed verifier artifact id" (fve_artifact_ids e).

Record WorkspaceMutationEvidence := mkWorkspaceMutationEvidence {
  wme_operation_id : string;
  wme_before : WorkspaceState;
  wme_after : WorkspaceState;
}.
#[global] Instance WorkspaceMutationEvidence_eq_dec : EqDecision WorkspaceMutationEvidence.
Proof. solve_decision. Defined.

Definition WorkspaceMutationEvidence_validate (m : WorkspaceMutationEvidence)
    : result string unit :=
  require_id "workspace mutation operation id" (wme_operation_id m) ;;
  require_known_workspace_state "workspace mutation before" (wme_before m) ;;
  require_known_workspace_state "workspace mutation after" (wme_after m) ;;
  expected_generation ←
    ok_or (checked_add64 (ws_generation (wme_before m)) 1)
      "workspace mutation generation cannot overflow";
  fail_if (ws_generation (wme_after m) !=? expected_generation)
    "workspace mutation must advance exactly one generation" ;;
  fail_if (ws_revision (wme_before m) ==? ws_revision (wme_after m))
    "workspace mutation requires a real content revision change".

Inductive EvidenceLineage :=
| LatestPass
| FailedWritePass (failure : FailedVerifierEvidence) (mutation : WorkspaceMutationEvidence)
| DelegatedFailedWritePass (child_run_id : string) (child_receipt_id : EvidenceReceiptId)
    (integration : WorkspaceMutationEvidence).
#[global] Instance EvidenceLineage_eq_dec : EqDecision EvidenceLineage.
Proof. solve_decision. Defined.

Definition lineage_satisfies (l : EvidenceLineage) (policy : VerifierEvidencePolicy) : bool :=
  match policy, l with
  | LatestPassPolicy, LatestPass => true
  | FailedWritePassPolicy, (FailedWritePass _ _ | DelegatedFailedWritePass _ _ _) => true
  | _, _ => false
  end.
Definition is_failed_write_pass (l : EvidenceLineage) : bool :=
  match l with FailedWritePass _ _ => true | _ => false end.

(** The tail every temporal lineage shares: its mutation is well formed and ends strictly
    before, and with the content of, the workspace the final Host pass verified. *)
Definition lineage_mutation_validate (mutation : WorkspaceMutationEvidence)
    (final_workspace : WorkspaceState) : result string unit :=
  WorkspaceMutationEvidence_validate mutation ;;
  fail_if ((ws_generation final_workspace <=? ws_generation (wme_after mutation))
           || (ws_revision final_workspace !=? ws_revision (wme_after mutation)))
    "temporal evidence must end at the workspace verified by the final Host pass".

Definition EvidenceLineage_validate (l : EvidenceLineage) (final_workspace : WorkspaceState)
    : result string unit :=
  match l with
  | LatestPass => Ok tt
  | FailedWritePass failure mutation =>
    FailedVerifierEvidence_validate failure ;;
    fail_if (ws_generation (wme_before mutation) <? ws_generation (fve_workspace_state failure))
      "failed verifier must precede the effective mutation" ;;
    fail_if (ws_revision (fve_workspace_state failure) ==? ws_revision final_workspace)
      "failed_write_pass requires a final revision different from the failed revision" ;;
    lineage_mutation_validate mutation final_workspace
  | DelegatedFailedWritePass child_run_id child_receipt_id integration =>
    require_id "delegated child run id" child_run_id ;;
    require_id "delegated child receipt id" child_receipt_id ;;
    lineage_mutation_validate integration final_workspace
  end.

Record EvidenceReceipt := mkEvidenceReceipt {
  er_id : EvidenceReceiptId;
  er_generation_id : TaskGenerationId;
  er_acceptance_id : AcceptanceId;
  er_verification_id : VerificationId;
  er_verifier : VerifierSpec;
  er_workspace_state : WorkspaceState;
  er_artifact_ids : list string;
  er_lineage : EvidenceLineage;
}.
#[global] Instance EvidenceReceipt_eq_dec : EqDecision EvidenceReceipt.
Proof. solve_decision. Defined.

Definition EvidenceReceipt_validate (r : EvidenceReceipt) : result string unit :=
  require_id "evidence receipt id" (er_id r) ;;
  require_id "task generation id" (er_generation_id r) ;;
  require_id "acceptance id" (er_acceptance_id r) ;;
  require_id "verification id" (er_verification_id r) ;;
  VerifierSpec_validate (er_verifier r) ;;
  WorkspaceState_validate (er_workspace_state r) ;;
  fail_if (is_unknown_revision (ws_revision (er_workspace_state r)))
    "evidence receipt requires a known workspace revision" ;;
  fail_if (er_artifact_ids r ==? []) "evidence receipt requires at least one artifact" ;;
  validate_ids "evidence artifact id" (er_artifact_ids r) ;;
  EvidenceLineage_validate (er_lineage r) (er_workspace_state r).

(** ** Completion *)

Record CompletionCandidate := mkCompletionCandidate {
  cc_id : CompletionCandidateId;
  cc_generation_id : TaskGenerationId;
  cc_message : string;
  cc_workspace_state : WorkspaceState;
}.
#[global] Instance CompletionCandidate_eq_dec : EqDecision CompletionCandidate.
Proof. solve_decision. Defined.

Definition CompletionCandidate_validate (c : CompletionCandidate) : result string unit :=
  require_id "completion candidate id" (cc_id c) ;;
  require_id "task generation id" (cc_generation_id c) ;;
  require_text "completion candidate message" (cc_message c) ;;
  WorkspaceState_validate (cc_workspace_state c).

Record HostCompletionAcceptance := mkHostCompletionAcceptance {
  hca_candidate_id : CompletionCandidateId;
  hca_generation_id : TaskGenerationId;
  hca_workspace_state : WorkspaceState;
}.
#[global] Instance HostCompletionAcceptance_eq_dec : EqDecision HostCompletionAcceptance.
Proof. solve_decision. Defined.

Definition HostCompletionAcceptance_validate (a : HostCompletionAcceptance)
    : result string unit :=
  require_id "completion candidate id" (hca_candidate_id a) ;;
  require_id "task generation id" (hca_generation_id a) ;;
  require_known_workspace_state "Host completion acceptance" (hca_workspace_state a).

Record HostAcceptanceReceipt := mkHostAcceptanceReceipt {
  har_id : HostAcceptanceReceiptId;
  har_candidate_id : CompletionCandidateId;
  har_generation_id : TaskGenerationId;
  har_workspace_state : WorkspaceState;
}.
#[global] Instance HostAcceptanceReceipt_eq_dec : EqDecision HostAcceptanceReceipt.
Proof. solve_decision. Defined.

Definition HostAcceptanceReceipt_validate (r : HostAcceptanceReceipt) : result string unit :=
  require_id "Host acceptance receipt id" (har_id r) ;;
  HostCompletionAcceptance_validate
    (mkHostCompletionAcceptance (har_candidate_id r) (har_generation_id r)
       (har_workspace_state r)).

Inductive AcceptanceSatisfaction :=
| SatisfiedByHost (acceptance_id : AcceptanceId) (receipt_id : HostAcceptanceReceiptId)
| SatisfiedByEvidence (acceptance_id : AcceptanceId) (receipt_id : EvidenceReceiptId).
#[global] Instance AcceptanceSatisfaction_eq_dec : EqDecision AcceptanceSatisfaction.
Proof. solve_decision. Defined.

Definition satisfaction_acceptance_id (s : AcceptanceSatisfaction) : AcceptanceId :=
  match s with SatisfiedByHost a _ => a | SatisfiedByEvidence a _ => a end.

Record CompletionDecision := mkCompletionDecision {
  cd_candidate_id : CompletionCandidateId;
  cd_generation_id : TaskGenerationId;
  cd_workspace_state : WorkspaceState;
  cd_satisfied : list AcceptanceSatisfaction;
}.
#[global] Instance CompletionDecision_eq_dec : EqDecision CompletionDecision.
Proof. solve_decision. Defined.

Definition AcceptanceSatisfaction_check (s : AcceptanceSatisfaction) : result string unit :=
  require_id "acceptance id" (satisfaction_acceptance_id s) ;;
  match s with
  | SatisfiedByHost _ receipt_id => require_id "Host acceptance receipt id" receipt_id
  | SatisfiedByEvidence _ receipt_id => require_id "evidence receipt id" receipt_id
  end.

Definition CompletionDecision_validate (d : CompletionDecision) : result string unit :=
  require_id "completion candidate id" (cd_candidate_id d) ;;
  require_id "task generation id" (cd_generation_id d) ;;
  WorkspaceState_validate (cd_workspace_state d) ;;
  fail_if (cd_satisfied d ==? []) "completion decision must satisfy at least one criterion" ;;
  for_each_unique AcceptanceSatisfaction_check satisfaction_acceptance_id
    (λ s, "completion decision satisfies acceptance '" ++ satisfaction_acceptance_id s ++
          "' more than once") [] (cd_satisfied d).

Inductive EvidenceSealRejection :=
| VerifierObservationMissing
| VerifierSpecMismatch
| VerifierWorkspaceUnstable
| VerifierArtifactUnavailable
| VerifierFailedCause
| VerifierIncomplete
| VerifierOutcomeInconsistent
| EvidenceLineageUnavailable
| EvidenceReceiptInvalid.
#[global] Instance EvidenceSealRejection_eq_dec : EqDecision EvidenceSealRejection.
Proof. solve_decision. Defined.

Inductive CompletionRequiredTransition :=
| EffectiveWorkspaceMutation
| EvidenceLineageRepair
| HostVerifierContractRepair
| HostVerifierExecutionRepair.
#[global] Instance CompletionRequiredTransition_eq_dec : EqDecision CompletionRequiredTransition.
Proof. solve_decision. Defined.

Definition required_transition (c : EvidenceSealRejection) : CompletionRequiredTransition :=
  match c with
  | VerifierFailedCause => EffectiveWorkspaceMutation
  | VerifierSpecMismatch => HostVerifierContractRepair
  | EvidenceLineageUnavailable => EvidenceLineageRepair
  | VerifierObservationMissing | VerifierWorkspaceUnstable | VerifierArtifactUnavailable
  | VerifierIncomplete | VerifierOutcomeInconsistent | EvidenceReceiptInvalid =>
    HostVerifierExecutionRepair
  end.

Record CompletionRejection := mkCompletionRejection {
  cr_candidate_id : CompletionCandidateId;
  cr_generation_id : TaskGenerationId;
  cr_unmet_acceptance_ids : list AcceptanceId;
  cr_cause : EvidenceSealRejection;
  cr_required_transition : CompletionRequiredTransition;
  cr_reason : string;
}.
#[global] Instance CompletionRejection_eq_dec : EqDecision CompletionRejection.
Proof. solve_decision. Defined.

Definition CompletionRejection_validate (r : CompletionRejection) : result string unit :=
  require_id "completion candidate id" (cr_candidate_id r) ;;
  require_id "task generation id" (cr_generation_id r) ;;
  fail_if (cr_unmet_acceptance_ids r ==? [])
    "completion rejection must identify unmet acceptance" ;;
  validate_ids "unmet acceptance id" (cr_unmet_acceptance_ids r) ;;
  fail_if (cr_required_transition r !=? required_transition (cr_cause r))
    "completion rejection transition does not match its typed cause" ;;
  require_text "completion rejection reason" (cr_reason r).

(** ** What the validators establish *)

Lemma require_id_Ok kind value u : require_id kind value = Ok u ↔ trim_is_empty value = false.
Proof. unfold require_id. destruct u, (trim_is_empty value); naive_solver. Qed.

Lemma validate_ids_Ok kind values u :
  validate_ids kind values = Ok u ↔
  Forall (λ v, trim_is_empty v = false) values ∧ NoDup values.
Proof.
  unfold validate_ids. rewrite for_each_unique_nil, list_fmap_id.
  by setoid_rewrite require_id_Ok.
Qed.

(** An accepted contract has at least one acceptance, no two with the same identity, and at
    most one verifier. *)
Lemma TaskDefinition_validate_Ok d u :
  TaskDefinition_validate d = Ok u →
  def_acceptance d ≠ [] ∧ NoDup (acceptance_id <$> def_acceptance d) ∧
  (length (List.filter is_verifier_acceptance (def_acceptance d)) ≤ 1)%nat ∧
  Forall (λ a, TaskAcceptance_validate a = Ok tt) (def_acceptance d).
Proof.
  unfold TaskDefinition_validate. intros H. inv_ok. bprop.
  match goal with H : for_each_unique _ _ _ _ _ = _ |- _ =>
    apply for_each_unique_nil in H as [? ?] end.
  match goal with H : Nat.ltb _ _ = false |- _ => apply Nat.ltb_ge in H end.
  done.
Qed.

Lemma acceptance_id_inj d u a b :
  TaskDefinition_validate d = Ok u → a ∈ def_acceptance d → b ∈ def_acceptance d →
  acceptance_id a = acceptance_id b → a = b.
Proof.
  intros (_ & Hnd & _)%TaskDefinition_validate_Ok Ha Hb Hab.
  apply list_elem_of_lookup in Ha as [i Hi], Hb as [j Hj].
  assert (i = j) as <-; [|congruence].
  eapply NoDup_lookup; [exact Hnd| |]; rewrite list_lookup_fmap;
    [by rewrite Hi|by rewrite Hj, Hab].
Qed.

(** A valid temporal receipt orders failure, effective change and final pass strictly by the
    workspace epoch, ends at the content of the change, and that content is not the one that
    failed. *)
Lemma failed_write_pass_ordered failure mutation final u :
  EvidenceLineage_validate (FailedWritePass failure mutation) final = Ok u →
  ws_generation (fve_workspace_state failure) ≤ ws_generation (wme_before mutation) ∧
  ws_generation (wme_after mutation) = ws_generation (wme_before mutation) + 1 ∧
  ws_generation (wme_after mutation) < ws_generation final ∧
  ws_revision final = ws_revision (wme_after mutation) ∧
  ws_revision (wme_before mutation) ≠ ws_revision (wme_after mutation) ∧
  ws_revision (fve_workspace_state failure) ≠ ws_revision final.
Proof.
  unfold EvidenceLineage_validate, lineage_mutation_validate, WorkspaceMutationEvidence_validate.
  intros H. inv_ok. bprop.
  match goal with H : checked_add _ _ _ = Some _ |- _ => apply checked_add_Some in H as [-> _] end.
  split_and!; done.
Qed.
