(* ===== verification/Protocol.v ===== *)
(** The canonical domain protocol of the Agent runtime: the data of
    [crates/protocol/src/agent_runtime.rs].

    Structures are records, enums are inductive types; identifiers are their strings; a
    [Box] is its content.  Fields carry a short prefix that names their structure. *)
From Stdlib Require Import String.
From S2P Require Import Prelude Text Json Task.

Open Scope string_scope.
Open Scope N_scope.

Definition MIN_SUPPORTED_AGENT_RUNTIME_EVENT_SCHEMA_VERSION : N := 23.
Definition AGENT_RUNTIME_EVENT_SCHEMA_VERSION : N := 23.
Definition AGENT_TOOL_NAME : string := "agent".
Definition REQUEST_USER_INPUT_TOOL_NAME : string := "request_user_input".

Definition RunId := string.
Definition AgentTaskId := string.
Definition RuntimeEventId := string.
Definition AttemptId := string.
Definition OperationId := string.
Definition InteractionId := string.
Definition CommandId := string.

Definition RuntimeEventId_run_created : RuntimeEventId := "run_created".
Definition RuntimeEventId_terminal : RuntimeEventId := "terminal".

(** ** Prompts, actors, policies *)

Inductive PromptCacheControl := CacheStable | CacheVolatile.
#[global] Instance PromptCacheControl_eq_dec : EqDecision PromptCacheControl.
Proof. solve_decision. Defined.

Record SystemPromptBlock := mkSystemPromptBlock {
  spb_text : string;
  spb_cache_control : PromptCacheControl;
}.
#[global] Instance SystemPromptBlock_eq_dec : EqDecision SystemPromptBlock.
Proof. solve_decision. Defined.

Record SystemPrompt := mkSystemPrompt { sp_blocks : list SystemPromptBlock }.
#[global] Instance SystemPrompt_eq_dec : EqDecision SystemPrompt.
Proof. solve_decision. Defined.

Definition SystemPrompt_from_text (text : string) : SystemPrompt :=
  mkSystemPrompt [mkSystemPromptBlock text CacheStable].
Definition SystemPrompt_default : SystemPrompt := mkSystemPrompt [].

Inductive ReasoningEffort := EffortOff | EffortLow | EffortMedium | EffortHigh | EffortMax.
#[global] Instance ReasoningEffort_eq_dec : EqDecision ReasoningEffort.
Proof. solve_decision. Defined.

Inductive ModelRouteProfile := RouteExplicit | RouteFixedActor.
#[global] Instance ModelRouteProfile_eq_dec : EqDecision ModelRouteProfile.
Proof. solve_decision. Defined.

Record ModelRouteAudit := mkModelRouteAudit {
  route_profile : ModelRouteProfile;
  route_policy_version : string;
  route_reason_code : string;
}.
#[global] Instance ModelRouteAudit_eq_dec : EqDecision ModelRouteAudit.
Proof. solve_decision. Defined.

Inductive AgentActorKind := ActorRoot | ActorChild.
#[global] Instance AgentActorKind_eq_dec : EqDecision AgentActorKind.
Proof. solve_decision. Defined.

Inductive WriteExecutionMode := WriteRoot | WriteIsolatedWriter.
#[global] Instance WriteExecutionMode_eq_dec : EqDecision WriteExecutionMode.
Proof. solve_decision. Defined.

Inductive ApiSurface := StandardChat | StrictChat.
#[global] Instance ApiSurface_eq_dec : EqDecision ApiSurface.
Proof. solve_decision. Defined.

(** [actor_depth] is a [u8]. *)
Record AgentActor := mkAgentActor { actor_kind : AgentActorKind; actor_depth : N }.
#[global] Instance AgentActor_eq_dec : EqDecision AgentActor.
Proof. solve_decision. Defined.

Record ToolDefinition := mkToolDefinition {
  td_name : string;
  td_description : string;
  td_input_schema : Value;
}.
#[global] Instance ToolDefinition_eq_dec : EqDecision ToolDefinition.
Proof. solve_decision. Defined.

Record ToolPolicy := mkToolPolicy {
  tp_enabled : bool;
  tp_allowed : option (list string);
  tp_denied : list string;
}.
#[global] Instance ToolPolicy_eq_dec : EqDecision ToolPolicy.
Proof. solve_decision. Defined.

Definition ToolPolicy_permits (p : ToolPolicy) (name : string) : bool :=
  tp_enabled p
  && negb (existsb (λ denied, denied ==? name) (tp_denied p))
  && is_none_or (tp_allowed p) (existsb (λ candidate, candidate ==? name)).

Record RunLimits := mkRunLimits {
  lim_max_turns : N;
  lim_max_model_requests : N;
  lim_max_model_retries : N;
  lim_max_tool_calls : N;
  lim_max_depth : N;
  lim_max_concurrent_children : N;
  lim_model_event_idle_ms : option N;
  lim_wall_time_ms : option N;
}.
#[global] Instance RunLimits_eq_dec : EqDecision RunLimits.
Proof. solve_decision. Defined.

Definition RunLimits_default : RunLimits := mkRunLimits 64 64 2 256 4 64 (Some 900000) None.

Inductive AgentWorkspaceAccess := AccessReadOnly | AccessIsolatedWrite.
#[global] Instance AgentWorkspaceAccess_eq_dec : EqDecision AgentWorkspaceAccess.
Proof. solve_decision. Defined.

Record AgentWorkspaceAssignment := mkAgentWorkspaceAssignment {
  awa_access : AgentWorkspaceAccess;
  awa_root_workspace : string;
  awa_base_commit : string;
  awa_worktree_path : option string;
  awa_root_branch : option string;
  awa_branch : option string;
  awa_allowed_paths : list string;
  awa_owner_token : option string;
}.
#[global] Instance AgentWorkspaceAssignment_eq_dec : EqDecision AgentWorkspaceAssignment.
Proof. solve_decision. Defined.

Definition execution_workspace (a : AgentWorkspaceAssignment) : string :=
  default (awa_root_workspace a) (awa_worktree_path a).

Record ContextPolicy := mkContextPolicy { hard_input_tokens : N }.
#[global] Instance ContextPolicy_eq_dec : EqDecision ContextPolicy.
Proof. solve_decision. Defined.

Record AgentTask := mkAgentTask {
  at_task_id : AgentTaskId;
  at_root_run_id : RunId;
  at_parent_run_id : RunId;
  at_child_run_id : RunId;
  at_call_id : string;
  at_role : string;
  at_task_contract : TaskContract;
  at_workspace : AgentWorkspaceAssignment;
  at_model : string;
  at_reasoning_effort : ReasoningEffort;
  at_max_output_tokens : option N;
  at_context_policy : ContextPolicy;
  at_route : ModelRouteAudit;
  at_tool_policy : ToolPolicy;
  at_limits : RunLimits;
  at_deadline_unix_ms : option N;
  at_expected_artifact : string;
}.
#[global] Instance AgentTask_eq_dec : EqDecision AgentTask.
Proof. solve_decision. Defined.

Inductive RunPermissionMode := PermissionAsk | PermissionAgent | PermissionFullAccess.
#[global] Instance RunPermissionMode_eq_dec : EqDecision RunPermissionMode.
Proof. solve_decision. Defined.

Record RunEnvironment := mkRunEnvironment {
  env_workspace : string;
  env_provider : string;
  env_tool_catalog_sha256 : option string;
  env_execution_fingerprint_sha256 : option string;
  env_write_execution_mode : WriteExecutionMode;
  env_permission_mode : RunPermissionMode;
  env_interactive : bool;
}.
#[global] Instance RunEnvironment_eq_dec : EqDecision RunEnvironment.
Proof. solve_decision. Defined.

(** ** Model requests and outputs *)

Record ToolArguments := mkToolArguments { ta_raw : string; ta_parsed : option Value }.
#[global] Instance ToolArguments_eq_dec : EqDecision ToolArguments.
Proof. solve_decision. Defined.

Definition ToolArguments_from_value `{JsonLib} (v : Value) : ToolArguments :=
  mkToolArguments (value_to_string v) (Some v).

Record ModelToolCall := mkModelToolCall {
  mtc_id : string;
  mtc_name : string;
  mtc_arguments : ToolArguments;
}.
#[global] Instance ModelToolCall_eq_dec : EqDecision ModelToolCall.
Proof. solve_decision. Defined.

Inductive ModelMessage :=
| MsgUser (content : string)
| MsgAssistant (content : option string) (reasoning_content : option string)
    (tool_calls : list ModelToolCall)
| MsgTool (call_id name content : string).
#[global] Instance ModelMessage_eq_dec : EqDecision ModelMessage.
Proof. solve_decision. Defined.

Record ContextProjection := mkContextProjection {
  cp_source_entry_count : N;
  cp_source_projection_sha256 : string;
  cp_selected_entry_indices : list N;
  cp_messages : list ModelMessage;
}.
#[global] Instance ContextProjection_eq_dec : EqDecision ContextProjection.
Proof. solve_decision. Defined.

Record ModelRequest := mkModelRequest {
  mr_run_id : RunId;
  mr_parent_run_id : option RunId;
  mr_actor : AgentActor;
  mr_model : string;
  mr_system_prompt : SystemPrompt;
  mr_messages : list ModelMessage;
  mr_tools : list ToolDefinition;
  mr_reasoning_effort : ReasoningEffort;
  mr_max_output_tokens : option N;
  mr_streaming : bool;
  mr_request_number : N;
  mr_attempt : N;
}.
#[global] Instance ModelRequest_eq_dec : EqDecision ModelRequest.
Proof. solve_decision. Defined.
#[global] Instance ModelRequest_settable : Settable ModelRequest := λ r,
  mkModelRequest (mr_run_id r) (mr_parent_run_id r) (mr_actor r) (mr_model r)
    (mr_system_prompt r) (mr_messages r) (mr_tools r) (mr_reasoning_effort r)
    (mr_max_output_tokens r) (mr_streaming r) (mr_request_number r) (mr_attempt r).

Inductive ModelFinishReason :=
| FinishStop | FinishToolCalls | FinishLength | FinishContentFilter
| FinishInsufficientSystemResource.
#[global] Instance ModelFinishReason_eq_dec : EqDecision ModelFinishReason.
Proof. solve_decision. Defined.

Record Usage := mkUsage {
  us_input_tokens : N;
  us_output_tokens : N;
  us_cache_hit_tokens : N;
  us_cache_miss_tokens : N;
  us_cache_write_tokens : N;
  us_reasoning_tokens : N;
  us_reasoning_replay_tokens : N;
}.
#[global] Instance Usage_eq_dec : EqDecision Usage.
Proof. solve_decision. Defined.

Definition Usage_default : Usage := mkUsage 0 0 0 0 0 0 0.
Definition Usage_total_tokens (u : Usage) : N :=
  sat_add64 (us_input_tokens u) (us_output_tokens u).
Definition Usage_add (u other : Usage) : Usage :=
  mkUsage (sat_add64 (us_input_tokens u) (us_input_tokens other))
    (sat_add64 (us_output_tokens u) (us_output_tokens other))
    (sat_add64 (us_cache_hit_tokens u) (us_cache_hit_tokens other))
    (sat_add64 (us_cache_miss_tokens u) (us_cache_miss_tokens other))
    (sat_add64 (us_cache_write_tokens u) (us_cache_write_tokens other))
    (sat_add64 (us_reasoning_tokens u) (us_reasoning_tokens other))
    (sat_add64 (us_reasoning_replay_tokens u) (us_reasoning_replay_tokens other)).

Record ModelOutput := mkModelOutput {
  mo_content : string;
  mo_reasoning_content : option string;
  mo_tool_calls : list ModelToolCall;
  mo_finish_reason : ModelFinishReason;
  mo_usage : Usage;
}.
#[global] Instance ModelOutput_eq_dec : EqDecision ModelOutput.
Proof. solve_decision. Defined.

Record ModelResponseEvidence := mkModelResponseEvidence {
  mre_response_headers_received : bool;
  mre_content_observed : bool;
  mre_reasoning_observed : bool;
  mre_tool_call_observed : bool;
  mre_tool_call_id_observed : bool;
  mre_tool_call_name_observed : bool;
  mre_tool_call_arguments_observed : bool;
  mre_finish_reason_observed : bool;
  mre_finish_reason_trusted : bool;
  mre_usage_received : bool;
  mre_stream_done_received : bool;
}.
#[global] Instance ModelResponseEvidence_eq_dec : EqDecision ModelResponseEvidence.
Proof. solve_decision. Defined.

Definition ModelResponseEvidence_default : ModelResponseEvidence :=
  mkModelResponseEvidence false false false false false false false false false false false.

Definition ModelResponseEvidence_merge (a b : ModelResponseEvidence) : ModelResponseEvidence :=
  mkModelResponseEvidence
    (mre_response_headers_received a || mre_response_headers_received b)
    (mre_content_observed a || mre_content_observed b)
    (mre_reasoning_observed a || mre_reasoning_observed b)
    (mre_tool_call_observed a || mre_tool_call_observed b)
    (mre_tool_call_id_observed a || mre_tool_call_id_observed b)
    (mre_tool_call_name_observed a || mre_tool_call_name_observed b)
    (mre_tool_call_arguments_observed a || mre_tool_call_arguments_observed b)
    (mre_finish_reason_observed a || mre_finish_reason_observed b)
    (mre_finish_reason_trusted a || mre_finish_reason_trusted b)
    (mre_usage_received a || mre_usage_received b)
    (mre_stream_done_received a || mre_stream_done_received b).

Definition evidence_actionable_output (e : ModelResponseEvidence) : bool :=
  mre_content_observed e || mre_reasoning_observed e || mre_tool_call_observed e.
Definition evidence_replay_safe (e : ModelResponseEvidence) : bool :=
  negb (evidence_actionable_output e) && negb (mre_finish_reason_observed e)
  && negb (mre_stream_done_received e).

(** ** Tool invocations and outcomes *)

Record ToolInvocation := mkToolInvocation {
  ti_run_id : RunId;
  ti_call_id : string;
  ti_name : string;
  ti_arguments : ToolArguments;
}.
#[global] Instance ToolInvocation_eq_dec : EqDecision ToolInvocation.
Proof. solve_decision. Defined.

Definition format_prefixed_sha256 `{JsonLib} (bytes : string) : string :=
  "sha256:" ++ sha256_hex bytes.
Definition arguments_sha256 `{JsonLib} (i : ToolInvocation) : string :=
  format_prefixed_sha256 (ta_raw (ti_arguments i)).

Inductive ToolInvocationStatus := InvocationAccepted | InvocationRejectedStatus.
#[global] Instance ToolInvocationStatus_eq_dec : EqDecision ToolInvocationStatus.
Proof. solve_decision. Defined.

Inductive ToolTransportStatus :=
| TransportNotStarted | TransportSucceeded | TransportFailedStatus | TransportIndeterminate.
#[global] Instance ToolTransportStatus_eq_dec : EqDecision ToolTransportStatus.
Proof. solve_decision. Defined.

Inductive ToolOperationStatus :=
| OperationNotStarted | OperationSucceeded | OperationFailedStatus | OperationCancelled
| OperationIndeterminate.
#[global] Instance ToolOperationStatus_eq_dec : EqDecision ToolOperationStatus.
Proof. solve_decision. Defined.

Inductive ToolSideEffectStatus :=
| SideEffectNotApplicable | SideEffectNotApplied | SideEffectApplied | SideEffectIndeterminate.
#[global] Instance ToolSideEffectStatus_eq_dec : EqDecision ToolSideEffectStatus.
Proof. solve_decision. Defined.

Inductive ToolRetryDisposition :=
| RetryNotNeeded | RetryAfterCorrection | RetrySafe | RetryUnsafe | RetryNotRetryable.
#[global] Instance ToolRetryDisposition_eq_dec : EqDecision ToolRetryDisposition.
Proof. solve_decision. Defined.

Inductive ToolFailureCode :=
| MalformedArguments | SchemaValidation | InvocationRejected | AuthorizationStale
| UnknownTool | MissingField | InvalidField | WorkspacePrecondition | StaleRead
| AmbiguousEdit | PatchParse | OperationFailed | TransportFailed | SideEffectAmbiguous
| VerifierFailed.
#[global] Instance ToolFailureCode_eq_dec : EqDecision ToolFailureCode.
Proof. solve_decision. Defined.

Definition ToolFailureCode_as_str (c : ToolFailureCode) : string :=
  match c with
  | MalformedArguments => "malformed_arguments"
  | SchemaValidation => "schema_validation"
  | InvocationRejected => "invocation_rejected"
  | AuthorizationStale => "authorization_stale"
  | UnknownTool => "unknown_tool"
  | MissingField => "missing_field"
  | InvalidField => "invalid_field"
  | WorkspacePrecondition => "workspace_precondition"
  | StaleRead => "stale_read"
  | AmbiguousEdit => "ambiguous_edit"
  | PatchParse => "patch_parse"
  | OperationFailed => "operation_failed"
  | TransportFailed => "transport_failed"
  | SideEffectAmbiguous => "side_effect_ambiguous"
  | VerifierFailed => "verifier_failed"
  end.

Definition tool_operation_status_name (s : ToolOperationStatus) : string :=
  match s with
  | OperationNotStarted => "not_started"
  | OperationSucceeded => "succeeded"
  | OperationFailedStatus => "failed"
  | OperationCancelled => "cancelled"
  | OperationIndeterminate => "indeterminate"
  end.
Definition tool_side_effect_status_name (s : ToolSideEffectStatus) : string :=
  match s with
  | SideEffectNotApplicable => "not_applicable"
  | SideEffectNotApplied => "not_applied"
  | SideEffectApplied => "applied"
  | SideEffectIndeterminate => "indeterminate"
  end.
Definition tool_retry_disposition_name (r : ToolRetryDisposition) : string :=
  match r with
  | RetryNotNeeded => "not_needed"
  | RetryAfterCorrection => "after_correction"
  | RetrySafe => "safe"
  | RetryUnsafe => "unsafe"
  | RetryNotRetryable => "not_retryable"
  end.

Inductive ToolEvidenceStatus :=
| EvidenceNotApplicable | EvidenceMissing | EvidenceProduced | EvidenceRejected | EvidenceStale.
#[global] Instance ToolEvidenceStatus_eq_dec : EqDecision ToolEvidenceStatus.
Proof. solve_decision. Defined.

Record ToolEvidence := mkToolEvidence {
  te_status : ToolEvidenceStatus;
  te_references : list string;
}.
#[global] Instance ToolEvidence_eq_dec : EqDecision ToolEvidence.
Proof. solve_decision. Defined.
Definition ToolEvidence_default : ToolEvidence := mkToolEvidence EvidenceNotApplicable [].

Inductive ToolArtifactStatus :=
| ArtifactNotApplicable | ArtifactAvailable | ArtifactMissing | ArtifactCorrupt.
#[global] Instance ToolArtifactStatus_eq_dec : EqDecision ToolArtifactStatus.
Proof. solve_decision. Defined.

Record ToolArtifact := mkToolArtifact {
  tf_id : string;
  tf_status : ToolArtifactStatus;
  tf_sha256 : option string;
  tf_media_type : option string;
  tf_byte_len : option N;
  tf_inline_content : option Value;
}.
#[global] Instance ToolArtifact_eq_dec : EqDecision ToolArtifact.
Proof. solve_decision. Defined.
#[global] Instance ToolArtifact_settable : Settable ToolArtifact := λ r,
  mkToolArtifact (tf_id r) (tf_status r) (tf_sha256 r) (tf_media_type r) (tf_byte_len r)
    (tf_inline_content r).

Record VerificationArtifactPayload := mkVerificationArtifactPayload {
  vap_summary : string;
  vap_verifier : VerifierSpec;
  vap_verdict : VerifierVerdict;
  vap_workspace_revision : WorkspaceRevision;
}.
#[global] Instance VerificationArtifactPayload_eq_dec : EqDecision VerificationArtifactPayload.
Proof. solve_decision. Defined.

Record ToolOutcome := mkToolOutcome {
  to_failure_code : option ToolFailureCode;
  to_invocation : ToolInvocationStatus;
  to_transport : ToolTransportStatus;
  to_operation : ToolOperationStatus;
  to_side_effect : ToolSideEffectStatus;
  to_retry : ToolRetryDisposition;
  to_evidence : ToolEvidence;
  to_artifacts : list ToolArtifact;
  to_workspace_revision : option string;
  to_verifier_observation : option VerifierObservation;
  to_content : string;
  to_metadata : option Value;
}.
#[global] Instance ToolOutcome_eq_dec : EqDecision ToolOutcome.
Proof. solve_decision. Defined.
#[global] Instance ToolOutcome_settable : Settable ToolOutcome := λ r,
  mkToolOutcome (to_failure_code r) (to_invocation r) (to_transport r) (to_operation r)
    (to_side_effect r) (to_retry r) (to_evidence r) (to_artifacts r)
    (to_workspace_revision r) (to_verifier_observation r) (to_content r) (to_metadata r).

Inductive WorkspaceAccess := WorkspaceReadOnly | WorkspaceMayWrite.
#[global] Instance WorkspaceAccess_eq_dec : EqDecision WorkspaceAccess.
Proof. solve_decision. Defined.

Definition ToolOutcome_success (content : string) : ToolOutcome :=
  mkToolOutcome None InvocationAccepted TransportSucceeded OperationSucceeded
    SideEffectNotApplicable RetryNotNeeded ToolEvidence_default [] None None content None.
Definition ToolOutcome_error (content : string) : ToolOutcome :=
  mkToolOutcome (Some OperationFailed) InvocationAccepted TransportSucceeded
    OperationFailedStatus SideEffectIndeterminate RetryNotRetryable ToolEvidence_default []
    None None content None.
Definition ToolOutcome_rejected (content : string) (retry : ToolRetryDisposition) : ToolOutcome :=
  mkToolOutcome (Some InvocationRejected) InvocationRejectedStatus TransportNotStarted
    OperationNotStarted SideEffectNotApplied retry ToolEvidence_default [] None None content
    None.
Definition ToolOutcome_transport_failure (content : string) : ToolOutcome :=
  mkToolOutcome (Some TransportFailed) InvocationAccepted TransportFailedStatus
    OperationIndeterminate SideEffectIndeterminate RetryUnsafe ToolEvidence_default [] None
    None content None.
Definition ToolOutcome_recovery_ambiguous (content : string) : ToolOutcome :=
  mkToolOutcome (Some SideEffectAmbiguous) InvocationAccepted TransportIndeterminate
    OperationIndeterminate SideEffectIndeterminate RetryUnsafe ToolEvidence_default [] None
    None content None.

Definition ToolOutcome_is_success (o : ToolOutcome) : bool :=
  (to_invocation o ==? InvocationAccepted) && (to_transport o ==? TransportSucceeded)
  && (to_operation o ==? OperationSucceeded).

Definition with_workspace_access_guarantee (o : ToolOutcome) (access : WorkspaceAccess)
    : ToolOutcome :=
  if (access ==? WorkspaceReadOnly) && negb (ToolOutcome_is_success o) then
    let o := if to_side_effect o ==? SideEffectIndeterminate
             then o <| to_side_effect := SideEffectNotApplicable |> else o in
    let o := if to_retry o ==? RetryUnsafe then o <| to_retry := RetrySafe |> else o in
    if to_failure_code o ==? Some SideEffectAmbiguous
    then o <| to_failure_code := Some OperationFailed |> else o
  else o.

Definition model_recovery (code : ToolFailureCode) (retry : ToolRetryDisposition) : string :=
  match code with
  | MalformedArguments | SchemaValidation | MissingField | InvalidField | PatchParse =>
    "修正参数后再调用；不要原样重复。"
  | InvocationRejected =>
    match retry with
    | RetryAfterCorrection => "根据 Host 拒绝原因修正调用后再试。"
    | _ => "当前 Host 不接受该调用；不要原样重复。"
    end
  | AuthorizationStale => "工作区在授权后发生变化；先读取最新状态，再重新提出调用。"
  | WorkspacePrecondition | StaleRead =>
    "先重新读取相关文件或工作区状态，再根据最新内容修正调用。"
  | AmbiguousEdit => "先读取更多上下文，再使用唯一且更精确的编辑范围。"
  | UnknownTool => "只使用当前请求实际提供的工具名。"
  | TransportFailed =>
    match retry with
    | RetrySafe => "传输失败，但已确认没有工作区副作用，可以安全重新调用。"
    | RetryAfterCorrection => "修正传输参数或环境后再调用。"
    | _ => "不要自动重放；先确认副作用状态或等待 Host recovery。"
    end
  | SideEffectAmbiguous => "副作用状态无法安全确认；不要自动重放，等待 Host recovery 或人工处理。"
  | VerifierFailed => "根据确定性 verifier 结果修改工作区后重新验证。"
  | OperationFailed =>
    match retry with
    | RetryAfterCorrection => "根据错误详情修正操作后再调用。"
    | RetrySafe => "已确认没有副作用，可以安全重试。"
    | _ => "不要盲目重试；先根据错误详情选择修正或停止。"
    end
  end.

Definition ToolOutcome_model_content (o : ToolOutcome) : string :=
  match to_failure_code o with
  | None => to_content o
  | Some code =>
    "工具失败：code=" ++ ToolFailureCode_as_str code ++
    "; operation=" ++ tool_operation_status_name (to_operation o) ++
    "; side_effect=" ++ tool_side_effect_status_name (to_side_effect o) ++
    "; retry=" ++ tool_retry_disposition_name (to_retry o) ++
    "。" ++ newline ++ "恢复建议：" ++ model_recovery code (to_retry o) ++
    newline ++ to_content o
  end.

Definition has_stable_verifier_revision (o : ToolOutcome) (before after : WorkspaceRevision)
    : bool :=
  match to_verifier_observation o with
  | None => false
  | Some observation =>
    (to_side_effect o !=? SideEffectApplied)
    && match before, after, obs_workspace_revision observation, to_workspace_revision o with
       | Known before, Known after, Known observed, Some outcome =>
         (before ==? after) && (after ==? observed) && (observed ==? outcome)
       | _, _, _, _ => false
       end
  end.

(** ** Durable evidence projections *)

Record HostVerificationFailure := mkHostVerificationFailure {
  hvf_outcome : ToolOutcome;
  hvf_workspace_state : WorkspaceState;
  hvf_rejection : CompletionRejection;
}.
#[global] Instance HostVerificationFailure_eq_dec : EqDecision HostVerificationFailure.
Proof. solve_decision. Defined.

Record TemporalEvidenceProgress := mkTemporalEvidenceProgress {
  tep_acceptance_id : AcceptanceId;
  tep_verifier : VerifierSpec;
  tep_failure : FailedVerifierEvidence;
  tep_mutation : option WorkspaceMutationEvidence;
}.
#[global] Instance TemporalEvidenceProgress_eq_dec : EqDecision TemporalEvidenceProgress.
Proof. solve_decision. Defined.
#[global] Instance TemporalEvidenceProgress_settable : Settable TemporalEvidenceProgress := λ r,
  mkTemporalEvidenceProgress (tep_acceptance_id r) (tep_verifier r) (tep_failure r)
    (tep_mutation r).

Record InheritedRunFacts := mkInheritedRunFacts {
  irf_workspace_state : WorkspaceState;
  irf_last_completion_rejection : option CompletionRejection;
  irf_last_host_verification_failure : option HostVerificationFailure;
}.
#[global] Instance InheritedRunFacts_eq_dec : EqDecision InheritedRunFacts.
Proof. solve_decision. Defined.

(** ** Writer integration and cleanup *)

Record AgentCheck := mkAgentCheck {
  ac_check_id : string;
  ac_verifier : VerifierSpec;
  ac_workspace_state : WorkspaceState;
  ac_outcome : ToolOutcome;
}.
#[global] Instance AgentCheck_eq_dec : EqDecision AgentCheck.
Proof. solve_decision. Defined.

Inductive WriterIntegrationStatus :=
| IntegrationNotApplicable
| IntegrationAwaitingHost
| IntegrationRejected (reason : string)
| IntegrationConflict (reason : string)
| IntegrationRecoveryRequired (reason : string)
| IntegrationIntegrated (integration_id : OperationId) (writer_commit : string)
    (root_workspace_state : WorkspaceState).
#[global] Instance WriterIntegrationStatus_eq_dec : EqDecision WriterIntegrationStatus.
Proof. solve_decision. Defined.

Inductive WriterCleanupPhase :=
| PhaseBinding | PhaseChild | PhaseSeal | PhaseIntegration | PhasePostIntegration.
#[global] Instance WriterCleanupPhase_eq_dec : EqDecision WriterCleanupPhase.
Proof. solve_decision. Defined.

Inductive WriterArtifactState :=
| KnownUnsealed
| KnownHostSealed (final_commit diff_sha256 : string)
| ArtifactStateUnknown.
#[global] Instance WriterArtifactState_eq_dec : EqDecision WriterArtifactState.
Proof. solve_decision. Defined.

Inductive WriterCleanupScope :=
| ScopeKnown (workspace_revision : WorkspaceRevision)
    (changed_count in_scope_count out_of_scope_count : N) (path_set_sha256 : string)
| ScopeUnknown (uncertainty_code : string).
#[global] Instance WriterCleanupScope_eq_dec : EqDecision WriterCleanupScope.
Proof. solve_decision. Defined.

Inductive WriterCleanupOwnership :=
| OwnershipKnown (identity_sha256 : string)
| OwnershipUnknown (uncertainty_code : string).
#[global] Instance WriterCleanupOwnership_eq_dec : EqDecision WriterCleanupOwnership.
Proof. solve_decision. Defined.

Inductive WriterCleanupMode :=
| RemoveExact (expected_branch_commit : string)
| RetainForRecovery (uncertainty_code : string).
#[global] Instance WriterCleanupMode_eq_dec : EqDecision WriterCleanupMode.
Proof. solve_decision. Defined.

Record WriterCleanupPlan := mkWriterCleanupPlan {
  wcp_phase : WriterCleanupPhase;
  wcp_reason_code : string;
  wcp_ownership : WriterCleanupOwnership;
  wcp_artifact_state : WriterArtifactState;
  wcp_scope : WriterCleanupScope;
  wcp_mode : WriterCleanupMode;
}.
#[global] Instance WriterCleanupPlan_eq_dec : EqDecision WriterCleanupPlan.
Proof. solve_decision. Defined.

Inductive WriterRemovalState := RemovalRemoved | RemovalAlreadyAbsent.
#[global] Instance WriterRemovalState_eq_dec : EqDecision WriterRemovalState.
Proof. solve_decision. Defined.

Inductive WriterResourceState :=
| ResourceRemoved | ResourceAlreadyAbsent | ResourceRetained | ResourceUnknown.
#[global] Instance WriterResourceState_eq_dec : EqDecision WriterResourceState.
Proof. solve_decision. Defined.

Inductive WriterCleanupMetadataState := MetadataClear | MetadataUncertain.
#[global] Instance WriterCleanupMetadataState_eq_dec : EqDecision WriterCleanupMetadataState.
Proof. solve_decision. Defined.

Inductive WriterCleanupResult :=
| CleanupRemoved (worktree branch : WriterRemovalState)
| CleanupAlreadyAbsent
| CleanupRetained (worktree branch : WriterResourceState)
    (metadata : WriterCleanupMetadataState) (uncertainty_code : string).
#[global] Instance WriterCleanupResult_eq_dec : EqDecision WriterCleanupResult.
Proof. solve_decision. Defined.

Definition retained_for_recovery (r : WriterCleanupResult) : bool :=
  match r with CleanupRetained _ _ _ _ => true | _ => false end.

Record AgentResultDetails := mkAgentResultDetails {
  ard_summary : string;
  ard_completion_candidate : option CompletionCandidate;
  ard_evidence : list EvidenceReceipt;
  ard_host_acceptance_receipts : list HostAcceptanceReceipt;
  ard_changed_files : list string;
  ard_checks : list AgentCheck;
  ard_unresolved : list string;
  ard_artifacts : list ToolArtifact;
  ard_workspace : option AgentWorkspaceAssignment;
  ard_workspace_state : option WorkspaceState;
  ard_base_commit : option string;
  ard_final_commit : option string;
  ard_diff_sha256 : option string;
  ard_integration : WriterIntegrationStatus;
}.
#[global] Instance AgentResultDetails_eq_dec : EqDecision AgentResultDetails.
Proof. solve_decision. Defined.
#[global] Instance AgentResultDetails_settable : Settable AgentResultDetails := λ r,
  mkAgentResultDetails (ard_summary r) (ard_completion_candidate r) (ard_evidence r)
    (ard_host_acceptance_receipts r) (ard_changed_files r) (ard_checks r) (ard_unresolved r)
    (ard_artifacts r) (ard_workspace r) (ard_workspace_state r) (ard_base_commit r)
    (ard_final_commit r) (ard_diff_sha256 r) (ard_integration r).

(** ** Model accounting *)

Record ActorRequestAccounting := mkActorRequestAccounting {
  ara_started : N;
  ara_completed : N;
  ara_in_flight : N;
}.
#[global] Instance ActorRequestAccounting_eq_dec : EqDecision ActorRequestAccounting.
Proof. solve_decision. Defined.

Record SurfaceUsage := mkSurfaceUsage {
  su_surface : ApiSurface;
  su_model : string;
  su_response_count : N;
  su_usage_response_count : N;
  su_usage : Usage;
  su_cost_nanousd : N;
  su_cost_nanocny : N;
}.
#[global] Instance SurfaceUsage_eq_dec : EqDecision SurfaceUsage.
Proof. solve_decision. Defined.

Record ModelAccounting := mkModelAccounting {
  ma_hard_request_limit : option N;
  ma_root : ActorRequestAccounting;
  ma_child : ActorRequestAccounting;
  ma_runtime_retries : N;
  ma_sealed_denied : N;
  ma_exhausted_denied : N;
  ma_budget_exhausted : bool;
  ma_sealed : bool;
  ma_complete : bool;
  ma_usage_complete : bool;
  ma_usage_missing : bool;
  ma_usage_incomplete : bool;
  ma_billing_unknown : bool;
  ma_unpriced : bool;
  ma_usage_responses : N;
  ma_usage_missing_responses : N;
  ma_incomplete_responses : N;
  ma_billing_unknown_attempts : N;
  ma_unpriced_usage_responses : N;
  ma_records_after_seal : N;
  ma_usage : Usage;
  ma_surface_usage : list SurfaceUsage;
  ma_cost_nanousd : N;
  ma_cost_nanocny : N;
}.
#[global] Instance ModelAccounting_eq_dec : EqDecision ModelAccounting.
Proof. solve_decision. Defined.

Definition ActorRequestAccounting_default := mkActorRequestAccounting 0 0 0.
Definition ModelAccounting_default : ModelAccounting :=
  mkModelAccounting None ActorRequestAccounting_default ActorRequestAccounting_default
    0 0 0 false false false false false false false false 0 0 0 0 0 0 Usage_default [] 0 0.

(** ** Failures and terminal states *)

Inductive ModelErrorCategory :=
| CategoryTransport | CategoryTimeout | CategoryStreamStall | CategoryRateLimit
| CategoryAuthentication | CategoryProtocol | CategoryService | CategoryCancelled
| CategoryUnknown.
#[global] Instance ModelErrorCategory_eq_dec : EqDecision ModelErrorCategory.
Proof. solve_decision. Defined.

Inductive RuntimeTimeoutPhase := TimeoutModel | TimeoutTool | TimeoutRun.
#[global] Instance RuntimeTimeoutPhase_eq_dec : EqDecision RuntimeTimeoutPhase.
Proof. solve_decision. Defined.

Inductive RecoveryAmbiguityPhase :=
| AmbiguityModelRequest | AmbiguityToolExecution | AmbiguityHostVerification
| AmbiguityChildRun.
#[global] Instance RecoveryAmbiguityPhase_eq_dec : EqDecision RecoveryAmbiguityPhase.
Proof. solve_decision. Defined.

Record RecoveryAmbiguity := mkRecoveryAmbiguity {
  ra_phase : RecoveryAmbiguityPhase;
  ra_action_id : string;
  ra_message : string;
}.
#[global] Instance RecoveryAmbiguity_eq_dec : EqDecision RecoveryAmbiguity.
Proof. solve_decision. Defined.

Inductive RuntimeFailure :=
| EmptyModelOutput
| IncompleteModelStream
| OutputLimit
| ContentFiltered
| InsufficientSystemResource
| ModelRequestBudgetExceeded (limit : N)
| ApiRequestBudgetExceeded (limit : N)
| TurnBudgetExceeded (limit : N)
| ToolBudgetExceeded (limit : N)
| DepthLimit (limit : N)
| Timeout_ (phase : RuntimeTimeoutPhase) (timeout_ms : N)
| InvalidModelOutput (message : string)
| AccountingIncomplete (message : string)
| ContextLimitExceeded (estimated_tokens hard_input_tokens : N)
| ModelFailure (code : string) (category : ModelErrorCategory) (message : string)
    (retryable : bool)
| StoreFailure (message : string)
| JoinFailure (message : string).
#[global] Instance RuntimeFailure_eq_dec : EqDecision RuntimeFailure.
Proof. solve_decision. Defined.

Inductive TerminalState :=
| AwaitingHostAcceptance (candidate : CompletionCandidate)
| Completed (message : string) (decision : CompletionDecision)
| Blocked (reason : string)
| Failed (failure : RuntimeFailure)
| Cancelled
| Interrupted
| RecoveryRequired (ambiguity : RecoveryAmbiguity).
#[global] Instance TerminalState_eq_dec : EqDecision TerminalState.
Proof. solve_decision. Defined.

Definition is_completed (t : TerminalState) : bool :=
  match t with Completed _ _ => true | _ => false end.
Definition is_recovery_required (t : TerminalState) : bool :=
  match t with RecoveryRequired _ => true | _ => false end.
Definition is_awaiting_host (t : TerminalState) : bool :=
  match t with AwaitingHostAcceptance _ => true | _ => false end.

Record AgentOutcome := mkAgentOutcome {
  ao_run_id : RunId;
  ao_parent_run_id : option RunId;
  ao_terminal : TerminalState;
  ao_accounting : ModelAccounting;
  ao_runtime_model_requests : N;
  ao_runtime_retries : N;
  ao_tool_calls : N;
  ao_details : AgentResultDetails;
}.
#[global] Instance AgentOutcome_eq_dec : EqDecision AgentOutcome.
Proof. solve_decision. Defined.
#[global] Instance AgentOutcome_settable : Settable AgentOutcome := λ r,
  mkAgentOutcome (ao_run_id r) (ao_parent_run_id r) (ao_terminal r) (ao_accounting r)
    (ao_runtime_model_requests r) (ao_runtime_retries r) (ao_tool_calls r) (ao_details r).

(** ** Transcript *)

Inductive TranscriptEntry :=
| EntrySystem (prompt : SystemPrompt)
| EntryUser (content : string)
| EntryAssistant (content reasoning_content : option string) (tool_calls : list ModelToolCall)
| EntryTool (call_id name : string) (outcome : ToolOutcome)
| EntryChildOutcome (call_id : string) (child_run_id : RunId) (outcome : AgentOutcome)
    (handoff_content : string).
#[global] Instance TranscriptEntry_eq_dec : EqDecision TranscriptEntry.
Proof. solve_decision. Defined.

(** [CanonicalTranscript] has the one field [entries]. *)
Definition CanonicalTranscript := list TranscriptEntry.
#[global] Instance CanonicalTranscript_eq_dec : EqDecision CanonicalTranscript.
Proof. unfold CanonicalTranscript. apply _. Defined.

(** ** Run requests *)

Record RunRequest := mkRunRequest {
  rr_run_id : option RunId;
  rr_parent_run_id : option RunId;
  rr_continued_from_run_id : option RunId;
  rr_model : string;
  rr_route : ModelRouteAudit;
  rr_task_contract : option TaskContract;
  rr_system_prompt : SystemPrompt;
  rr_transcript : CanonicalTranscript;
  rr_reasoning_effort : ReasoningEffort;
  rr_max_output_tokens : option N;
  rr_streaming : bool;
  rr_actor : AgentActor;
  rr_agent_task : option AgentTask;
  rr_deadline_unix_ms : option N;
  rr_tool_policy : ToolPolicy;
  rr_limits : RunLimits;
  rr_environment : RunEnvironment;
  rr_context_policy : ContextPolicy;
  rr_context_projection : option ContextProjection;
  rr_inherited_facts : option InheritedRunFacts;
  rr_accounting_baseline : ModelAccounting;
}.
#[global] Instance RunRequest_eq_dec : EqDecision RunRequest.
Proof. solve_decision. Defined.
#[global] Instance RunRequest_settable : Settable RunRequest := λ r,
  mkRunRequest (rr_run_id r) (rr_parent_run_id r) (rr_continued_from_run_id r) (rr_model r)
    (rr_route r) (rr_task_contract r) (rr_system_prompt r) (rr_transcript r)
    (rr_reasoning_effort r) (rr_max_output_tokens r) (rr_streaming r) (rr_actor r)
    (rr_agent_task r) (rr_deadline_unix_ms r) (rr_tool_policy r) (rr_limits r)
    (rr_environment r) (rr_context_policy r) (rr_context_projection r)
    (rr_inherited_facts r) (rr_accounting_baseline r).

Definition ToolPolicy_default : ToolPolicy := mkToolPolicy true None [].
Definition AgentActor_default : AgentActor := mkAgentActor ActorRoot 0.
Definition RunEnvironment_default : RunEnvironment :=
  mkRunEnvironment "" "" None None WriteRoot PermissionAsk false.
Definition ContextPolicy_default : ContextPolicy := mkContextPolicy 0.

Definition RunRequest_new (task_contract : TaskContract) (system_prompt : SystemPrompt)
    : RunRequest :=
  mkRunRequest (Some (contract_generation_id task_contract)) None None "deepseek-v4-flash"
    (mkModelRouteAudit RouteExplicit "runtime_explicit_v1" "explicit_model")
    (Some task_contract) system_prompt [] EffortHigh None true AgentActor_default None None
    ToolPolicy_default RunLimits_default RunEnvironment_default ContextPolicy_default None None
    ModelAccounting_default.

(** ** Authorization and user interaction *)

Inductive ApprovalRisk := RiskRoutine | RiskElevated | RiskCritical.
#[global] Instance ApprovalRisk_eq_dec : EqDecision ApprovalRisk.
Proof. solve_decision. Defined.

Record ToolApprovalPrompt := mkToolApprovalPrompt {
  tap_title : string;
  tap_description : string;
  tap_risk : ApprovalRisk;
}.
#[global] Instance ToolApprovalPrompt_eq_dec : EqDecision ToolApprovalPrompt.
Proof. solve_decision. Defined.

Inductive ToolAuthorizationDisposition := DispositionAllow | DispositionAsk | DispositionDeny.
#[global] Instance ToolAuthorizationDisposition_eq_dec : EqDecision ToolAuthorizationDisposition.
Proof. solve_decision. Defined.

Inductive ToolExecutionGrant :=
| GrantOrdinary
| GrantTaskContractVerifier (acceptance_id : AcceptanceId) (verifier_sha256 : string).
#[global] Instance ToolExecutionGrant_eq_dec : EqDecision ToolExecutionGrant.
Proof. solve_decision. Defined.

Record ToolAuthorizationDecision := mkToolAuthorizationDecision {
  tad_mode : RunPermissionMode;
  tad_execution_grant : ToolExecutionGrant;
  tad_tool_name : string;
  tad_arguments_sha256 : string;
  tad_workspace_state : WorkspaceState;
  tad_disposition : ToolAuthorizationDisposition;
  tad_risk : ApprovalRisk;
  tad_matched_rule : option string;
  tad_reason : string;
  tad_prompt : option ToolApprovalPrompt;
}.
#[global] Instance ToolAuthorizationDecision_eq_dec : EqDecision ToolAuthorizationDecision.
Proof. solve_decision. Defined.

Record UserInputOption := mkUserInputOption { uio_label : string; uio_description : string }.
#[global] Instance UserInputOption_eq_dec : EqDecision UserInputOption.
Proof. solve_decision. Defined.

Record UserInputQuestion := mkUserInputQuestion {
  uiq_header : string;
  uiq_id : string;
  uiq_question : string;
  uiq_options : list UserInputOption;
  uiq_allow_free_text : bool;
  uiq_multi_select : bool;
}.
#[global] Instance UserInputQuestion_eq_dec : EqDecision UserInputQuestion.
Proof. solve_decision. Defined.

Record UserInputRequest := mkUserInputRequest { uir_questions : list UserInputQuestion }.
#[global] Instance UserInputRequest_eq_dec : EqDecision UserInputRequest.
Proof. solve_decision. Defined.

Record UserInputAnswer := mkUserInputAnswer {
  uia_id : string;
  uia_label : string;
  uia_value : string;
}.
#[global] Instance UserInputAnswer_eq_dec : EqDecision UserInputAnswer.
Proof. solve_decision. Defined.

Inductive UserInteractionPrompt :=
| PromptApproval (prompt : ToolApprovalPrompt) (arguments : Value)
| PromptUserInput (request : UserInputRequest).
#[global] Instance UserInteractionPrompt_eq_dec : EqDecision UserInteractionPrompt.
Proof. solve_decision. Defined.

Inductive UserInteractionResponse :=
| ResponseApproved
| ResponseDenied (reason : option string)
| ResponseAnswered (answers : list UserInputAnswer)
| ResponseCancelled.
#[global] Instance UserInteractionResponse_eq_dec : EqDecision UserInteractionResponse.
Proof. solve_decision. Defined.

Record UserInteractionRequest := mkUserInteractionRequest {
  uireq_interaction_id : InteractionId;
  uireq_operation_id : OperationId;
  uireq_call_id : string;
  uireq_tool_name : string;
  uireq_prompt : UserInteractionPrompt;
}.
#[global] Instance UserInteractionRequest_eq_dec : EqDecision UserInteractionRequest.
Proof. solve_decision. Defined.

Inductive DurableControlAction := ControlInterrupt | ControlCancel.
#[global] Instance DurableControlAction_eq_dec : EqDecision DurableControlAction.
Proof. solve_decision. Defined.

(** ** Model retry *)

Record ModelAttemptFailure := mkModelAttemptFailure {
  maf_code : string;
  maf_category : ModelErrorCategory;
  maf_message : string;
  maf_retryable : bool;
  maf_retry_after_ms : option N;
  maf_retry_safe : bool;
  maf_actionable_output : bool;
  maf_response : ModelResponseEvidence;
}.
#[global] Instance ModelAttemptFailure_eq_dec : EqDecision ModelAttemptFailure.
Proof. solve_decision. Defined.

Inductive ModelRetryStopReason :=
| StopActionableOutput | StopUnsafeReplay | StopNotRetryable | StopFailureChanged
| StopRetryLimitReached | StopModelRequestBudgetExceeded.
#[global] Instance ModelRetryStopReason_eq_dec : EqDecision ModelRetryStopReason.
Proof. solve_decision. Defined.

Record PreparedModelRetry := mkPreparedModelRetry {
  pmr_attempt_id : AttemptId;
  pmr_request : ModelRequest;
  pmr_decision_unix_ms : N;
  pmr_backoff_ms : N;
  pmr_not_before_unix_ms : N;
  pmr_max_retries : N;
}.
#[global] Instance PreparedModelRetry_eq_dec : EqDecision PreparedModelRetry.
Proof. solve_decision. Defined.

Inductive ModelRetryDecision :=
| RetryStop (reason : ModelRetryStopReason)
| RetryPrepared (prepared : PreparedModelRetry).
#[global] Instance ModelRetryDecision_eq_dec : EqDecision ModelRetryDecision.
Proof. solve_decision. Defined.

(** ** Runtime events *)

Inductive RuntimeEventKind :=
| RunCreated (request : RunRequest)
| ContextCompactionCommitted (projection : ContextProjection) (tools : list ToolDefinition)
    (accounting : ModelAccounting) (before_tokens after_tokens : N)
| ModelRequestPrepared (attempt_id : AttemptId) (request : ModelRequest)
| ModelRequestInFlight (attempt_id : AttemptId)
| ModelRequestFailed (attempt_id : AttemptId) (failure : ModelAttemptFailure)
    (accounting : ModelAccounting) (retry : ModelRetryDecision)
| ModelResponseCommitted (attempt_id : AttemptId) (output : ModelOutput)
    (accounting : ModelAccounting)
| ContentDelta (attempt_id : AttemptId) (index : N) (delta : string)
| ReasoningDelta (attempt_id : AttemptId) (index : N) (delta : string)
| ToolPrepared (operation_id : OperationId) (invocation : ToolInvocation)
    (workspace_access : WorkspaceAccess)
| ToolAuthorizationCommitted (operation_id : OperationId) (decision : ToolAuthorizationDecision)
| ToolExecutionStarted (operation_id : OperationId)
| InteractionRequested (request : UserInteractionRequest)
| InteractionResolved (command_id : CommandId) (interaction_id : InteractionId)
    (response : UserInteractionResponse)
| ToolOutcomeCommitted (operation_id : OperationId) (call_id name : string)
    (outcome : ToolOutcome) (workspace_state : option WorkspaceState)
| WorkspaceObserved (workspace_state : WorkspaceState)
| CompletionProposed (candidate : CompletionCandidate)
| HostCompletionAccepted (command_id : CommandId) (receipt : HostAcceptanceReceipt)
| HostVerificationPrepared (verification_id : VerificationId)
    (candidate : CompletionCandidate) (acceptance_id : AcceptanceId)
    (verifier : VerifierSpec) (workspace_state_before : WorkspaceState)
| HostVerificationStarted (verification_id : VerificationId)
| HostVerificationCommitted (verification_id : VerificationId) (outcome : ToolOutcome)
    (receipt : option EvidenceReceipt) (workspace_state_after : WorkspaceState)
| CompletionRejected (rejection : CompletionRejection)
| AgentTaskPrepared (task : AgentTask)
| AgentWorkspaceCreated (task_id : AgentTaskId) (assignment : AgentWorkspaceAssignment)
    (writer_workspace_state : WorkspaceState)
| AgentSealPrepared (task_id : AgentTaskId) (base_commit : string)
    (writer_workspace_state_before : WorkspaceState)
| AgentSealCommitted (task_id : AgentTaskId) (final_commit diff_sha256 : string)
    (changed_files : list string) (writer_workspace_state_after : WorkspaceState)
| ChildStarted (task_id : AgentTaskId) (call_id : string) (child_run_id : RunId) (depth : N)
| AgentResultCollected (task_id : AgentTaskId) (outcome : AgentOutcome)
| AgentIntegrationPrepared (task_id : AgentTaskId) (integration_id : OperationId)
    (base_commit writer_commit diff_sha256 : string)
    (expected_root_workspace_state : WorkspaceState)
| AgentIntegrationStarted (task_id : AgentTaskId) (integration_id : OperationId)
| AgentIntegrationFailed (task_id : AgentTaskId) (integration_id : OperationId)
    (status : WriterIntegrationStatus) (root_workspace_state : WorkspaceState)
| AgentIntegrationCommitted (task_id : AgentTaskId) (integration_id : OperationId)
    (root_head_commit : string) (root_workspace_state_after : WorkspaceState)
| AgentCleanupPrepared (task_id : AgentTaskId) (plan : WriterCleanupPlan)
| AgentCleanupCommitted (task_id : AgentTaskId) (result : WriterCleanupResult)
| ChildFinished (call_id : string) (outcome : AgentOutcome) (accounting : ModelAccounting)
    (handoff_content : string)
| SteerQueued (command_id : CommandId) (content : string)
| SteerApplied (command_id : CommandId) (content : string)
| ControlRequested (command_id : CommandId) (action : DurableControlAction)
| Terminal (outcome : AgentOutcome).
#[global] Instance RuntimeEventKind_eq_dec : EqDecision RuntimeEventKind.
Proof. solve_decision. Defined.

Definition is_terminal (e : RuntimeEventKind) : bool :=
  match e with Terminal _ => true | _ => false end.

Record PendingRuntimeEvent := mkPendingRuntimeEvent {
  pre_event_id : RuntimeEventId;
  pre_event : RuntimeEventKind;
}.
Definition PendingRuntimeEvent_terminal (outcome : AgentOutcome) : PendingRuntimeEvent :=
  mkPendingRuntimeEvent RuntimeEventId_terminal (Terminal outcome).

Record StoredRuntimeEvent := mkStoredRuntimeEvent {
  sre_schema_version : N;
  sre_run_id : RunId;
  sre_parent_run_id : option RunId;
  sre_event_id : RuntimeEventId;
  sre_sequence : N;
  sre_occurred_at_unix_ms : N;
  sre_event : RuntimeEventKind;
}.
#[global] Instance StoredRuntimeEvent_eq_dec : EqDecision StoredRuntimeEvent.
Proof. solve_decision. Defined.
