(* ===== verification/RunApi.v ===== *)
(** The commands of the Run API ([crates/protocol/src/run_api.rs]); the run stores keep the
    launching ones as recoverable creation intents. *)
From Stdlib Require Import String.
From S2P Require Import Prelude Text Json Task Protocol.

Open Scope N_scope.

Record RunProductControls := mkRunProductControls {
  rpc_write_execution_mode : WriteExecutionMode;
  rpc_permission_mode : RunPermissionMode;
  rpc_interactive : bool;
}.

Record StartRunCommand := mkStartRunCommand {
  src_task : TaskDefinition;
  src_workspace : string;
  src_model : option string;
  src_reasoning_effort : ReasoningEffort;
  src_max_output_tokens : option N;
  src_max_api_requests : option N;
  src_streaming : bool;
  src_tool_policy : ToolPolicy;
  src_limits : RunLimits;
  src_controls : RunProductControls;
}.

Record ContinueRunCommand := mkContinueRunCommand {
  crc_run_id : RunId;
  crc_task : TaskDefinition;
  crc_expected_workspace : option string;
}.

Inductive RunCommand :=
| Start (command : StartRunCommand)
| Continue (command : ContinueRunCommand)
| ListRoots (workspace : string) (limit : N)
| ListPendingCreations (workspace : string) (limit : N)
| RecoverCreation (creation_request_id : string)
| Get (run_id : RunId)
| Events (run_id : RunId) (after_sequence : N)
| Resume (run_id : RunId) (expected_workspace : option string)
| Steer (run_id : RunId) (content : string)
| Interrupt (run_id : RunId)
| Cancel (run_id : RunId)
| ResolveInteraction (run_id : RunId) (interaction_id : InteractionId)
    (response : UserInteractionResponse)
| AcceptCompletion (run_id : RunId) (acceptance : HostCompletionAcceptance).
