(* ===== verification/Validate.v ===== *)
(** The validators of [crates/protocol/src/agent_runtime.rs]: what makes one protocol fact
    well formed on its own.  Cross-event order and identity belong to the reducer. *)
From Stdlib Require Import String.
From stdpp Require Import sorting.
From S2P Require Import Prelude Text Json Task Protocol.

Open Scope string_scope.
Open Scope N_scope.

(** Derived [serde] code of the protocol types: decoding a JSON value into a payload or a
    user-input request, encoding a payload, and the bytes of a list of strings. *)
Class ProtocolCodec := {
  decode_verification_payload : Value → result string VerificationArtifactPayload;
  encode_verification_payload : VerificationArtifactPayload → Value;
  decode_user_input_request : Value → result string UserInputRequest;
  string_list_to_vec : list string → string;
}.

(** ** Text *)

Definition require_agent_text (label value : string) : result string unit :=
  fail_if (trim_is_empty value) (label ++ " must not be empty") ;;
  fail_if (contains_nul value) (label ++ " must not contain NUL").

Definition validate_reason_code (label value : string) : result string unit :=
  require_agent_text label value ;;
  fail_if ((96 <? str_len value)
           || negb (all_bytes (λ b, is_ascii_lowercase b || is_ascii_digit b || (byte_val b =? 95))
                      value))
    (label ++ " must be at most 96 lowercase ASCII letters, digits, or underscores").

Definition validate_git_object_id (label value : string) : result string unit :=
  require_agent_text label value ;;
  fail_if (negb ((str_len value =? 40) || (str_len value =? 64))
           || negb (all_bytes is_ascii_hexdigit value))
    (label ++ " must be a 40- or 64-character Git object id").

Definition validate_sha256 (label value : string) : result string unit :=
  require_agent_text label value ;;
  fail_if (negb (str_len value =? 64) || negb (all_bytes is_ascii_hexdigit value))
    (label ++ " must be a 64-character hexadecimal digest").

Definition validate_unique_non_empty_text (label : string) (values : list string)
    : result string unit :=
  for_each_unique (require_agent_text label) id
    (λ value, label ++ " '" ++ value ++ "' appears more than once") [] values.

Definition validate_relative_path_list (label : string) (values : list string)
    : result string unit :=
  validate_unique_non_empty_text label values ;;
  for_each (λ value,
    fail_if (path_is_absolute value || path_has_parent_dir value)
      (label ++ " '" ++ value ++ "' must stay relative to its workspace")) values ;;
  fail_if (negb (windows2_all str_lt values))
    (label ++ " values must be sorted in canonical order").

Definition require_known_agent_workspace_state (label : string) (state : WorkspaceState)
    : result string unit :=
  WorkspaceState_validate state ;;
  fail_if (is_unknown_revision (ws_revision state))
    (label ++ " requires a known workspace revision").

(** ** Routes, workspaces, tasks *)

Definition ModelRouteAudit_validate (r : ModelRouteAudit) : result string unit :=
  validate_reason_code "model route policy version" (route_policy_version r) ;;
  validate_reason_code "model route reason code" (route_reason_code r).

Definition AgentWorkspaceAssignment_validate (a : AgentWorkspaceAssignment)
    : result string unit :=
  require_agent_text "root workspace" (awa_root_workspace a) ;;
  validate_git_object_id "base commit" (awa_base_commit a) ;;
  validate_relative_path_list "allowed path" (awa_allowed_paths a) ;;
  match awa_access a with
  | AccessReadOnly =>
    fail_if (is_some (awa_worktree_path a) || is_some (awa_root_branch a)
             || is_some (awa_branch a) || negb (awa_allowed_paths a ==? [])
             || is_some (awa_owner_token a))
      "read-only Agent workspace cannot own a worktree, root branch, writer branch, allowed write paths, or owner token"
  | AccessIsolatedWrite =>
    worktree ← ok_or (awa_worktree_path a) "isolated writer workspace requires a worktree path";
    require_agent_text "worktree path" worktree ;;
    fail_if (worktree ==? awa_root_workspace a)
      "isolated writer worktree must differ from the root workspace" ;;
    root_branch ← ok_or (awa_root_branch a)
      "isolated writer workspace requires the exact root branch";
    require_agent_text "root worktree branch" root_branch ;;
    branch ← ok_or (awa_branch a) "isolated writer workspace requires a branch";
    require_agent_text "worktree branch" branch ;;
    owner_token ← ok_or (awa_owner_token a) "isolated writer workspace requires an owner token";
    require_agent_text "worktree owner token" owner_token ;;
    fail_if (awa_allowed_paths a ==? [])
      "isolated writer workspace requires at least one allowed path"
  end.

Definition AgentTask_validate (t : AgentTask) : result string unit :=
  require_agent_text "Agent task id" (at_task_id t) ;;
  require_agent_text "root run id" (at_root_run_id t) ;;
  require_agent_text "parent run id" (at_parent_run_id t) ;;
  require_agent_text "child run id" (at_child_run_id t) ;;
  require_agent_text "Agent call id" (at_call_id t) ;;
  require_agent_text "Agent role" (at_role t) ;;
  require_agent_text "expected artifact" (at_expected_artifact t) ;;
  require_agent_text "Agent task model" (at_model t) ;;
  ModelRouteAudit_validate (at_route t) ;;
  fail_if ((at_child_run_id t ==? at_root_run_id t) || (at_child_run_id t ==? at_parent_run_id t))
    "child run id must differ from root and parent run ids" ;;
  TaskContract_validate (at_task_contract t) ;;
  fail_if (contract_generation_id (at_task_contract t) !=? at_child_run_id t)
    "Agent task generation id must equal the child run id" ;;
  AgentWorkspaceAssignment_validate (at_workspace t) ;;
  fail_if ((lim_max_turns (at_limits t) =? 0) || (lim_max_model_requests (at_limits t) =? 0)
           || (lim_max_tool_calls (at_limits t) =? 0))
    "Agent task limits must admit turns, model requests, and tools" ;;
  fail_if (at_deadline_unix_ms t ==? Some 0)
    "Agent task deadline must be a positive Unix timestamp".

Definition validate_agent_task_binding (r : RunRequest) : result string unit :=
  require_agent_text "RunRequest model" (rr_model r) ;;
  ModelRouteAudit_validate (rr_route r) ;;
  match actor_kind (rr_actor r) with
  | ActorRoot =>
    fail_if (is_some (rr_parent_run_id r) || is_some (rr_agent_task r))
      "root Agent run cannot carry a parent run or AgentTask"
  | ActorChild =>
    task ← ok_or (rr_agent_task r) "child Agent run requires an AgentTask";
    AgentTask_validate task ;;
    fail_if ((rr_run_id r !=? Some (at_child_run_id task))
             || (rr_parent_run_id r !=? Some (at_parent_run_id task))
             || (rr_task_contract r !=? Some (at_task_contract task))
             || (rr_model r !=? at_model task)
             || (rr_reasoning_effort r !=? at_reasoning_effort task)
             || (rr_max_output_tokens r !=? at_max_output_tokens task)
             || (rr_context_policy r !=? at_context_policy task)
             || (rr_route r !=? at_route task)
             || (rr_tool_policy r !=? at_tool_policy task)
             || (rr_limits r !=? at_limits task)
             || (rr_deadline_unix_ms r !=? at_deadline_unix_ms task)
             || (env_workspace (rr_environment r) !=? execution_workspace (at_workspace task)))
      "child RunRequest does not exactly match its frozen AgentTask"
  end.

(** ** Verification artifacts and tool outcomes *)

Definition VERIFICATION_ID_PREFIX : string := "verification-evidence:".
Definition VERIFICATION_MEDIA_TYPE : string := "application/vnd.dse.verification+json".

Definition VerificationArtifactPayload_validate (p : VerificationArtifactPayload)
    : result string unit :=
  require_agent_text "verification artifact summary" (vap_summary p) ;;
  VerifierSpec_validate (vap_verifier p) ;;
  WorkspaceRevision_validate (vap_workspace_revision p).

Section artifacts.
Context `{JsonLib, ProtocolCodec}.

Definition canonical_verification_artifact_bytes (content : Value) : result string string :=
  value_to_vec (canonical_json content).

(** The source panics when the payload is invalid or cannot be encoded; [None] here. *)
Definition inline_verification (payload : VerificationArtifactPayload) : option ToolArtifact :=
  match VerificationArtifactPayload_validate payload with
  | Err _ => None
  | Ok _ =>
    let content := canonical_json (encode_verification_payload payload) in
    match canonical_verification_artifact_bytes content with
    | Err _ => None
    | Ok bytes =>
      let sha256 := format_prefixed_sha256 bytes in
      Some (mkToolArtifact (VERIFICATION_ID_PREFIX ++ sha256) ArtifactAvailable (Some sha256)
        (Some VERIFICATION_MEDIA_TYPE) (Some (str_len bytes)) (Some content))
    end
  end.

Definition validate_inline_verification (a : ToolArtifact)
    : result string VerificationArtifactPayload :=
  content ← ok_or (tf_inline_content a) "verification artifact is missing its inline payload";
  bytes ← map_err (λ error, "verification artifact cannot be encoded: " ++ error)
            (canonical_verification_artifact_bytes content);
  let sha256 := format_prefixed_sha256 bytes in
  fail_if ((tf_status a !=? ArtifactAvailable)
           || (tf_sha256 a !=? Some sha256)
           || (tf_id a !=? VERIFICATION_ID_PREFIX ++ sha256)
           || (tf_media_type a !=? Some VERIFICATION_MEDIA_TYPE)
           || (tf_byte_len a !=? Some (str_len bytes)))
    "verification artifact metadata does not match its inline payload" ;;
  payload ← map_err (λ error, "verification artifact payload is invalid: " ++ error)
              (decode_verification_payload content);
  VerificationArtifactPayload_validate payload ;;
  Ok payload.

Definition is_preflight_code (c : ToolFailureCode) : bool :=
  match c with
  | MalformedArguments | SchemaValidation | InvocationRejected | AuthorizationStale
  | UnknownTool | MissingField | PatchParse => true
  | _ => false
  end.
Definition is_observed_failure_code (c : ToolFailureCode) : bool :=
  match c with
  | WorkspacePrecondition | StaleRead | AmbiguousEdit | VerifierFailed => true
  | _ => false
  end.

Definition validate_artifact (label : string) (a : ToolArtifact) : result string unit :=
  fail_if ((tf_status a ==? ArtifactAvailable) && is_none (tf_sha256 a)) label ;;
  if is_some (tf_inline_content a) then validate_inline_verification a ;; Ok tt else Ok tt.

Definition ToolOutcome_validate (o : ToolOutcome) : result string unit :=
  fail_if (ToolOutcome_is_success o && is_some (to_failure_code o))
    "a successful tool outcome cannot carry a failure code" ;;
  fail_if (negb (ToolOutcome_is_success o) && is_none (to_failure_code o))
    "an unsuccessful tool outcome requires a failure code" ;;
  fail_if (is_some_and (to_failure_code o) is_preflight_code
           && (to_invocation o !=? InvocationRejectedStatus))
    "a preflight failure code requires a rejected invocation" ;;
  fail_if (is_some_and (to_failure_code o) is_observed_failure_code
           && ((to_invocation o !=? InvocationAccepted)
               || (to_transport o !=? TransportSucceeded)
               || (to_operation o !=? OperationFailedStatus)))
    "an observed tool-operation failure code requires accepted/failed lifecycle facts" ;;
  fail_if ((to_failure_code o ==? Some TransportFailed)
           && ((to_invocation o !=? InvocationAccepted)
               || (to_transport o !=? TransportFailedStatus)
               || (to_operation o !=? OperationIndeterminate)))
    "a transport failure code requires accepted/failed/indeterminate lifecycle facts" ;;
  fail_if ((to_failure_code o ==? Some SideEffectAmbiguous)
           && ((to_side_effect o !=? SideEffectIndeterminate) || (to_retry o !=? RetryUnsafe)))
    "a side-effect ambiguity requires indeterminate effects and unsafe retry" ;;
  fail_if ((to_invocation o ==? InvocationRejectedStatus)
           && ((to_transport o !=? TransportNotStarted)
               || (to_operation o !=? OperationNotStarted)
               || (to_side_effect o !=? SideEffectNotApplied)))
    "a rejected invocation must not start transport, operation, or side effects" ;;
  fail_if ((to_transport o !=? TransportSucceeded) && (to_operation o ==? OperationSucceeded))
    "an operation cannot succeed when tool transport did not succeed" ;;
  fail_if ((to_operation o ==? OperationSucceeded) && (to_retry o !=? RetryNotNeeded))
    "a successful operation cannot request a retry" ;;
  fail_if ((to_retry o ==? RetrySafe)
           && negb ((to_side_effect o ==? SideEffectNotApplicable)
                    || (to_side_effect o ==? SideEffectNotApplied)))
    "safe retry requires proof that no side effect was applied" ;;
  for_each (λ a, validate_artifact
    ("available artifact '" ++ tf_id a ++ "' must carry a sha256 digest") a)
    (to_artifacts o) ;;
  match to_verifier_observation o with
  | Some observation => VerifierObservation_validate observation
  | None => Ok tt
  end.

Definition TemporalEvidenceProgress_validate (p : TemporalEvidenceProgress)
    : result string unit :=
  require_agent_text "temporal evidence acceptance id" (tep_acceptance_id p) ;;
  VerifierSpec_validate (tep_verifier p) ;;
  FailedVerifierEvidence_validate (tep_failure p) ;;
  match tep_mutation p with
  | None => Ok tt
  | Some mutation =>
    WorkspaceMutationEvidence_validate mutation ;;
    fail_if (ws_generation (wme_before mutation)
             <? ws_generation (fve_workspace_state (tep_failure p)))
      "temporal verifier failure must precede its mutation"
  end.

Definition AgentCheck_validate (c : AgentCheck) : result string unit :=
  require_agent_text "Agent check id" (ac_check_id c) ;;
  VerifierSpec_validate (ac_verifier c) ;;
  WorkspaceState_validate (ac_workspace_state c) ;;
  ToolOutcome_validate (ac_outcome c) ;;
  match to_verifier_observation (ac_outcome c) with
  | None => Ok tt
  | Some observation =>
    fail_if (obs_spec observation !=? ac_verifier c)
      "Agent check verifier does not match its observation" ;;
    fail_if (obs_workspace_revision observation !=? ws_revision (ac_workspace_state c))
      "Agent check workspace does not match its verifier observation"
  end.
End artifacts.

(** ** Writer integration and cleanup *)

Definition WriterIntegrationStatus_validate (s : WriterIntegrationStatus) : result string unit :=
  match s with
  | IntegrationNotApplicable | IntegrationAwaitingHost => Ok tt
  | IntegrationRejected reason | IntegrationConflict reason
  | IntegrationRecoveryRequired reason => require_agent_text "writer integration reason" reason
  | IntegrationIntegrated integration_id writer_commit root_workspace_state =>
    require_agent_text "writer integration id" integration_id ;;
    validate_git_object_id "writer commit" writer_commit ;;
    require_known_agent_workspace_state "integrated root workspace" root_workspace_state
  end.

Definition WriterCleanupPlan_validate (p : WriterCleanupPlan) : result string unit :=
  validate_reason_code "writer cleanup reason code" (wcp_reason_code p) ;;
  match wcp_ownership p with
  | OwnershipKnown identity_sha256 =>
    validate_sha256 "writer cleanup owner identity" identity_sha256
  | OwnershipUnknown uncertainty_code =>
    validate_reason_code "writer cleanup owner uncertainty" uncertainty_code
  end ;;
  match wcp_artifact_state p with
  | KnownUnsealed | ArtifactStateUnknown => Ok tt
  | KnownHostSealed final_commit diff_sha256 =>
    validate_git_object_id "cleanup sealed commit" final_commit ;;
    validate_sha256 "cleanup sealed diff sha256" diff_sha256
  end ;;
  match wcp_scope p with
  | ScopeKnown workspace_revision changed_count in_scope_count out_of_scope_count
      path_set_sha256 =>
    match workspace_revision with
    | Unknown _ => Err "known writer cleanup scope requires a known revision"
    | Known sha256 =>
      validate_sha256 "writer cleanup workspace revision" sha256 ;;
      fail_if (checked_add32 in_scope_count out_of_scope_count !=? Some changed_count)
        "writer cleanup scope counts must cover every changed path" ;;
      validate_sha256 "writer cleanup path set sha256" path_set_sha256
    end
  | ScopeUnknown uncertainty_code =>
    validate_reason_code "writer cleanup scope uncertainty" uncertainty_code
  end ;;
  match wcp_mode p with
  | RemoveExact expected_branch_commit =>
    validate_git_object_id "cleanup expected branch commit" expected_branch_commit ;;
    fail_if (match wcp_ownership p with OwnershipUnknown _ => true | _ => false end
             || match wcp_artifact_state p with ArtifactStateUnknown => true | _ => false end
             || match wcp_scope p with ScopeUnknown _ => true | _ => false end)
      "destructive cleanup requires known artifact and scope facts"
  | RetainForRecovery uncertainty_code =>
    validate_reason_code "writer cleanup retention uncertainty" uncertainty_code ;;
    match wcp_ownership p with
    | OwnershipUnknown owner_code =>
      fail_if (owner_code !=? uncertainty_code)
        "writer cleanup owner and retention codes disagree"
    | OwnershipKnown _ => Ok tt
    end
  end.

(** [paths.sort(); paths.dedup()], then the digest of the canonical list. *)
Fixpoint dedup (l : list string) : list string :=
  match l with
  | x :: ((y :: _) as l') => if x ==? y then dedup l' else x :: dedup l'
  | _ => l
  end.
Definition writer_path_set_sha256 `{JsonLib, ProtocolCodec} (paths : list string)
    : result string string :=
  let canonical := dedup (merge_sort String.le paths) in
  validate_relative_path_list "writer cleanup path" canonical ;;
  Ok (sha256_hex (string_list_to_vec canonical)).

Definition resource_left (r : WriterResourceState) : bool :=
  match r with ResourceRetained | ResourceUnknown => true | _ => false end.

Definition WriterCleanupResult_validate (r : WriterCleanupResult) : result string unit :=
  match r with
  | CleanupRemoved RemovalAlreadyAbsent RemovalAlreadyAbsent =>
    Err "writer cleanup with no removed resource must use already_absent"
  | CleanupRemoved _ _ | CleanupAlreadyAbsent => Ok tt
  | CleanupRetained worktree branch metadata uncertainty_code =>
    validate_reason_code "writer cleanup result uncertainty" uncertainty_code ;;
    fail_if (negb (resource_left worktree) && negb (resource_left branch)
             && (metadata ==? MetadataClear))
      "retained writer cleanup requires a retained resource or uncertain cleanup metadata"
  end.

(** ** Agent results *)

Section results.
Context `{JsonLib, ProtocolCodec}.

Definition validate_opt {A} (f : A → result string unit) (o : option A) : result string unit :=
  match o with Some a => f a | None => Ok tt end.

(** The consistency of [workspace] with [integration] and with the writer-only facts. *)
Definition AgentResultDetails_validate_workspace (d : AgentResultDetails)
    : result string unit :=
  let workspace_access := awa_access <$> ard_workspace d in
  match workspace_access, ard_integration d with
  | (Some AccessReadOnly | None),
    (IntegrationAwaitingHost | IntegrationRejected _ | IntegrationConflict _
     | IntegrationRecoveryRequired _ | IntegrationIntegrated _ _ _) =>
    Err "only an isolated writer workspace may carry writer integration state"
  | Some AccessIsolatedWrite, IntegrationNotApplicable =>
    Err "isolated writer result must report an explicit integration state"
  | _, _ => Ok tt
  end ;;
  match ard_workspace d with
  | Some workspace =>
    match awa_access workspace with
    | AccessIsolatedWrite =>
      workspace_state ← ok_or (ard_workspace_state d)
        "isolated writer result requires its sealed workspace state";
      require_known_agent_workspace_state "sealed writer workspace" workspace_state ;;
      base_commit ← ok_or (ard_base_commit d)
        "isolated writer result requires its base commit";
      final_commit ← ok_or (ard_final_commit d)
        "isolated writer result requires its sealed final commit";
      diff_sha256 ← ok_or (ard_diff_sha256 d)
        "isolated writer result requires its sealed diff digest";
      validate_git_object_id "writer result base commit" base_commit ;;
      validate_git_object_id "writer result final commit" final_commit ;;
      validate_sha256 "writer result diff sha256" diff_sha256 ;;
      fail_if (awa_base_commit workspace !=? base_commit)
        "writer result base commit must match its workspace assignment" ;;
      fail_if (base_commit ==? final_commit)
        "writer result final commit must differ from its base commit"
    | AccessReadOnly =>
      fail_if (is_some (ard_base_commit d) || is_some (ard_final_commit d)
               || is_some (ard_diff_sha256 d))
        "non-writer Agent result cannot carry writer commit or diff fields"
    end
  | None =>
    fail_if (is_some (ard_base_commit d) || is_some (ard_final_commit d)
             || is_some (ard_diff_sha256 d))
      "non-writer Agent result cannot carry writer commit or diff fields"
  end.

Definition AgentResultDetails_validate (d : AgentResultDetails) : result string unit :=
  validate_opt CompletionCandidate_validate (ard_completion_candidate d) ;;
  validate_relative_path_list "changed file" (ard_changed_files d) ;;
  validate_unique_non_empty_text "unresolved item" (ard_unresolved d) ;;
  validate_unique_non_empty_text "evidence receipt id" (er_id <$> ard_evidence d) ;;
  for_each EvidenceReceipt_validate (ard_evidence d) ;;
  validate_unique_non_empty_text "Host acceptance receipt id"
    (har_id <$> ard_host_acceptance_receipts d) ;;
  for_each HostAcceptanceReceipt_validate (ard_host_acceptance_receipts d) ;;
  validate_unique_non_empty_text "Agent check id" (ac_check_id <$> ard_checks d) ;;
  for_each AgentCheck_validate (ard_checks d) ;;
  validate_unique_non_empty_text "Agent artifact id" (tf_id <$> ard_artifacts d) ;;
  for_each (λ a,
    require_agent_text "Agent artifact id" (tf_id a) ;;
    validate_artifact
      ("available Agent artifact '" ++ tf_id a ++ "' requires a sha256 digest") a)
    (ard_artifacts d) ;;
  validate_opt AgentWorkspaceAssignment_validate (ard_workspace d) ;;
  validate_opt WorkspaceState_validate (ard_workspace_state d) ;;
  WriterIntegrationStatus_validate (ard_integration d) ;;
  AgentResultDetails_validate_workspace d.

Definition AgentOutcome_validate (o : AgentOutcome) : result string unit :=
  require_agent_text "Agent outcome run id" (ao_run_id o) ;;
  fail_if (is_some_and (ao_parent_run_id o) (λ parent, parent ==? ao_run_id o))
    "Agent outcome cannot be its own parent" ;;
  match ao_terminal o with
  | AwaitingHostAcceptance candidate => CompletionCandidate_validate candidate
  | Completed message decision =>
    require_agent_text "completed Agent message" message ;;
    CompletionDecision_validate decision
  | Blocked reason => require_agent_text "blocked Agent reason" reason
  | Failed _ | Cancelled | Interrupted | RecoveryRequired _ => Ok tt
  end ;;
  AgentResultDetails_validate (ao_details o).
End results.

(** ** Transcript *)

Definition tool_call_check (call : ModelToolCall) : result string unit :=
  fail_if (trim_is_empty (mtc_id call)) "tool call id must not be empty" ;;
  fail_if (trim_is_empty (mtc_name call))
    ("tool call '" ++ mtc_id call ++ "' has an empty name").

Definition validate_model_tool_calls (calls : list ModelToolCall) : result string unit :=
  for_each_unique tool_call_check mtc_id
    (λ call, "duplicate tool call id '" ++ mtc_id call ++ "'") [] calls.

(** One transcript entry of [validate_complete_tool_history]: [pending] are the calls of the
    latest assistant turn that have no result yet. *)
Definition tool_history_step `{JsonLib, ProtocolCodec}
    (st : N * list ModelToolCall) (entry : TranscriptEntry)
    : result string (N * list ModelToolCall) :=
  let '(entry_index, pending) := st in
  pending' ← match entry with
  | EntryAssistant _ _ tool_calls =>
    fail_if (negb (pending ==? []))
      ("assistant transcript entry " ++ show_N entry_index ++ " begins before " ++
       show_N (N.of_nat (length pending)) ++ " tool result(s) are settled") ;;
    validate_model_tool_calls tool_calls ;;
    Ok tool_calls
  | EntryTool call_id name outcome =>
    ToolOutcome_validate outcome ;;
    pos ← ok_or (position (λ call, mtc_id call ==? call_id) pending)
      ("tool transcript entry " ++ show_N entry_index ++ " has orphan or duplicate call id '"
       ++ call_id ++ "'");
    let named := from_option mtc_name "" (pending !! pos) in
    fail_if (named !=? name)
      ("tool transcript entry " ++ show_N entry_index ++ " names '" ++ name ++
       "' instead of '" ++ named ++ "' for call id '" ++ call_id ++ "'") ;;
    Ok (delete pos pending)
  | EntrySystem _ | EntryUser _ | EntryChildOutcome _ _ _ _ => Ok pending
  end;
  Ok (entry_index + 1, pending').

Definition validate_complete_tool_history `{JsonLib, ProtocolCodec} (t : CanonicalTranscript)
    : result string unit :=
  '(_, pending) ← fold_result tool_history_step (0, []) t;
  fail_if (negb (pending ==? []))
    ("settled transcript ends with " ++ show_N (N.of_nat (length pending)) ++
     " unresolved tool call(s)").

Definition project_entry (entry : TranscriptEntry) : option ModelMessage :=
  match entry with
  | EntrySystem _ => None
  | EntryUser content => Some (MsgUser content)
  | EntryAssistant content reasoning_content tool_calls =>
    Some (MsgAssistant content reasoning_content tool_calls)
  | EntryTool call_id name outcome =>
    Some (MsgTool call_id name (ToolOutcome_model_content outcome))
  | EntryChildOutcome _ _ _ handoff_content => Some (MsgUser handoff_content)
  end.

Definition project_messages (t : CanonicalTranscript) : list ModelMessage := omap project_entry t.

(** ** Authorization *)

Definition ToolExecutionGrant_validate (g : ToolExecutionGrant) : result string unit :=
  match g with
  | GrantOrdinary => Ok tt
  | GrantTaskContractVerifier acceptance_id verifier_sha256 =>
    require_agent_text "verifier execution grant acceptance id" acceptance_id ;;
    hex ← ok_or (strip_prefix "sha256:" verifier_sha256)
      "verifier execution grant digest must use the sha256: prefix";
    validate_sha256 "verifier execution grant digest" hex
  end.

Definition validate_for `{JsonLib} (d : ToolAuthorizationDecision)
    (execution_grant : ToolExecutionGrant) (invocation : ToolInvocation)
    (workspace_state : WorkspaceState) : result string unit :=
  require_agent_text "authorization tool name" (tad_tool_name d) ;;
  require_agent_text "authorization reason" (tad_reason d) ;;
  ToolExecutionGrant_validate (tad_execution_grant d) ;;
  WorkspaceState_validate (tad_workspace_state d) ;;
  fail_if ((tad_execution_grant d !=? execution_grant)
           || (tad_tool_name d !=? ti_name invocation)
           || (tad_arguments_sha256 d !=? arguments_sha256 invocation)
           || (tad_workspace_state d !=? workspace_state))
    "tool authorization does not bind the exact invocation and workspace revision" ;;
  match tad_disposition d, tad_prompt d with
  | DispositionAsk, Some _ | (DispositionAllow | DispositionDeny), None => Ok tt
  | DispositionAsk, None => Err "ask authorization requires a durable approval prompt"
  | (DispositionAllow | DispositionDeny), Some _ =>
    Err "non-ask authorization cannot carry an approval prompt"
  end.

(** ** User input *)

Definition question_check (q : UserInputQuestion) : result string unit :=
  fail_if (trim_is_empty (uiq_header q) || trim_is_empty (uiq_id q)
           || trim_is_empty (uiq_question q))
    "question header, id, and text must not be empty".

Definition question_options_check (q : UserInputQuestion) : result string unit :=
  fail_if (negb ((Nat.leb 2 (length (uiq_options q))) && (Nat.leb (length (uiq_options q)) 4)))
    "each question must contain 2 to 4 options" ;;
  fail_if (existsb (λ o, trim_is_empty (uio_label o) || trim_is_empty (uio_description o))
             (uiq_options q))
    "option label and description must not be empty" ;;
  for_each_unique (λ _, Ok tt) uio_label
    (λ o, "question '" ++ uiq_id q ++ "' contains duplicate option label '" ++ uio_label o ++ "'")
    [] (uiq_options q).

(** The question loop: header check, identity check, option checks, in this order. *)
Fixpoint questions_loop (seen : list string) (qs : list UserInputQuestion)
    : result string unit :=
  match qs with
  | [] => Ok tt
  | q :: qs' =>
    question_check q ;;
    fail_if (bool_decide (uiq_id q ∈ seen)) ("duplicate question id '" ++ uiq_id q ++ "'") ;;
    question_options_check q ;;
    questions_loop (uiq_id q :: seen) qs'
  end.

Definition UserInputRequest_validate (r : UserInputRequest) : result string unit :=
  fail_if ((uir_questions r ==? []) || Nat.ltb 3 (length (uir_questions r)))
    "questions must contain 1 to 3 items" ;;
  questions_loop [] (uir_questions r).

Fixpoint answers_loop (questions : list UserInputQuestion) (seen : list (string * string))
    (answers : list UserInputAnswer) : result string unit :=
  match answers with
  | [] => Ok tt
  | answer :: answers' =>
    question ← ok_or (find_first (λ q, uiq_id q ==? uia_id answer) questions)
      ("answer references unknown question id '" ++ uia_id answer ++ "'");
    fail_if (trim_is_empty (uia_value answer) || trim_is_empty (uia_label answer))
      ("answer for question '" ++ uia_id answer ++ "' must contain a label and value") ;;
    fail_if (bool_decide ((uia_id answer, uia_label answer) ∈ seen))
      ("question '" ++ uia_id answer ++ "' contains duplicate answer '" ++ uia_label answer
       ++ "'") ;;
    match find_first (λ o, uio_label o ==? uia_label answer) (uiq_options question) with
    | Some option =>
      fail_if (uia_value answer !=? uio_label option)
        ("answer '" ++ uia_label answer ++ "' for question '" ++ uia_id answer ++
         "' changed the selected option value")
    | None =>
      fail_if (negb (uiq_allow_free_text question))
        ("question '" ++ uia_id answer ++ "' does not allow a free-text answer")
    end ;;
    answers_loop questions ((uia_id answer, uia_label answer) :: seen) answers'
  end.

Definition validate_user_input_answers (request : UserInputRequest)
    (answers : list UserInputAnswer) : result string unit :=
  UserInputRequest_validate request ;;
  answers_loop (uir_questions request) [] answers ;;
  for_each (λ question,
    let count := length (List.filter (λ a, uia_id a ==? uiq_id question) answers) in
    fail_if (Nat.eqb count 0) ("question '" ++ uiq_id question ++ "' has no answer") ;;
    fail_if (negb (uiq_multi_select question) && Nat.ltb 1 count)
      ("question '" ++ uiq_id question ++ "' does not allow multiple answers"))
    (uir_questions request).

Definition validate_response (r : UserInteractionRequest) (response : UserInteractionResponse)
    : result string unit :=
  match uireq_prompt r, response with
  | PromptApproval _ _, (ResponseApproved | ResponseDenied _ | ResponseCancelled)
  | PromptUserInput _, ResponseCancelled => Ok tt
  | PromptUserInput request, ResponseAnswered answers =>
    validate_user_input_answers request answers
  | PromptApproval _ _, ResponseAnswered _ =>
    Err "approval interaction cannot be resolved with user-input answers"
  | PromptUserInput _, (ResponseApproved | ResponseDenied _) =>
    Err "user-input interaction requires answers or cancellation"
  end.

(** ** Lifecycle payloads of events *)

Definition validate_agent_lifecycle_payload `{JsonLib, ProtocolCodec} (e : RuntimeEventKind)
    : result string unit :=
  match e with
  | AgentTaskPrepared task => AgentTask_validate task
  | AgentWorkspaceCreated task_id assignment writer_workspace_state =>
    require_agent_text "Agent task id" task_id ;;
    AgentWorkspaceAssignment_validate assignment ;;
    fail_if (awa_access assignment !=? AccessIsolatedWrite)
      "Agent workspace creation requires an isolated writer assignment" ;;
    require_known_agent_workspace_state "created writer workspace" writer_workspace_state
  | AgentSealPrepared task_id base_commit writer_workspace_state_before =>
    require_agent_text "Agent task id" task_id ;;
    validate_git_object_id "writer base commit" base_commit ;;
    require_known_agent_workspace_state "writer workspace before seal"
      writer_workspace_state_before
  | AgentSealCommitted task_id final_commit diff_sha256 changed_files
      writer_workspace_state_after =>
    require_agent_text "Agent task id" task_id ;;
    validate_git_object_id "writer final commit" final_commit ;;
    validate_sha256 "writer diff sha256" diff_sha256 ;;
    validate_relative_path_list "changed file" changed_files ;;
    fail_if (changed_files ==? []) "writer seal requires at least one changed file" ;;
    require_known_agent_workspace_state "writer workspace after seal"
      writer_workspace_state_after
  | ChildStarted task_id call_id child_run_id depth =>
    require_agent_text "Agent task id" task_id ;;
    require_agent_text "Agent call id" call_id ;;
    require_agent_text "child run id" child_run_id ;;
    fail_if (depth =? 0) "child Agent depth must be greater than zero"
  | AgentResultCollected task_id outcome =>
    require_agent_text "Agent task id" task_id ;;
    AgentOutcome_validate outcome
  | AgentIntegrationPrepared task_id integration_id base_commit writer_commit diff_sha256
      expected_root_workspace_state =>
    require_agent_text "Agent task id" task_id ;;
    require_agent_text "writer integration id" integration_id ;;
    validate_git_object_id "integration base commit" base_commit ;;
    validate_git_object_id "integration writer commit" writer_commit ;;
    fail_if (base_commit ==? writer_commit)
      "writer integration commit must differ from its base commit" ;;
    validate_sha256 "integration diff sha256" diff_sha256 ;;
    require_known_agent_workspace_state "expected root workspace" expected_root_workspace_state
  | AgentIntegrationStarted task_id integration_id =>
    require_agent_text "Agent task id" task_id ;;
    require_agent_text "writer integration id" integration_id
  | AgentIntegrationFailed task_id integration_id status root_workspace_state =>
    require_agent_text "Agent task id" task_id ;;
    require_agent_text "writer integration id" integration_id ;;
    match status with
    | IntegrationRejected _ | IntegrationConflict _ | IntegrationRecoveryRequired _ =>
      WriterIntegrationStatus_validate status
    | IntegrationNotApplicable | IntegrationAwaitingHost | IntegrationIntegrated _ _ _ =>
      Err "failed writer integration requires rejected, conflict, or recovery-required status"
    end ;;
    require_known_agent_workspace_state "root workspace after failed integration"
      root_workspace_state
  | AgentIntegrationCommitted task_id integration_id root_head_commit
      root_workspace_state_after =>
    require_agent_text "Agent task id" task_id ;;
    require_agent_text "writer integration id" integration_id ;;
    validate_git_object_id "integrated root commit" root_head_commit ;;
    require_known_agent_workspace_state "root workspace after integration"
      root_workspace_state_after
  | AgentCleanupPrepared task_id plan =>
    require_agent_text "Agent task id" task_id ;;
    WriterCleanupPlan_validate plan
  | AgentCleanupCommitted task_id result =>
    require_agent_text "Agent task id" task_id ;;
    WriterCleanupResult_validate result
  | ChildFinished _ outcome _ _ | Terminal outcome => AgentOutcome_validate outcome
  | _ => Ok tt
  end.
