(* ===== verification/Accounting.v ===== *)
(** Model accounting: [ModelAccounting] of [crates/protocol/src/agent_runtime.rs].

    Counters saturate at [u64::MAX]; flags accumulate; usage is kept per API surface and
    model. *)
From Stdlib Require Import String.
From S2P Require Import Prelude Text Json Task Protocol.

Open Scope N_scope.

#[global] Instance ModelAccounting_settable : Settable ModelAccounting := λ a,
  mkModelAccounting (ma_hard_request_limit a) (ma_root a) (ma_child a) (ma_runtime_retries a)
    (ma_sealed_denied a) (ma_exhausted_denied a) (ma_budget_exhausted a) (ma_sealed a)
    (ma_complete a) (ma_usage_complete a) (ma_usage_missing a) (ma_usage_incomplete a)
    (ma_billing_unknown a) (ma_unpriced a) (ma_usage_responses a)
    (ma_usage_missing_responses a) (ma_incomplete_responses a)
    (ma_billing_unknown_attempts a) (ma_unpriced_usage_responses a)
    (ma_records_after_seal a) (ma_usage a) (ma_surface_usage a) (ma_cost_nanousd a)
    (ma_cost_nanocny a).

Definition total_started (a : ModelAccounting) : N :=
  sat_add64 (ara_started (ma_root a)) (ara_started (ma_child a)).
Definition total_completed (a : ModelAccounting) : N :=
  sat_add64 (ara_completed (ma_root a)) (ara_completed (ma_child a)).
Definition total_in_flight (a : ModelAccounting) : N :=
  sat_add64 (ara_in_flight (ma_root a)) (ara_in_flight (ma_child a)).

Definition add_actor_accounting (target other : ActorRequestAccounting)
    : ActorRequestAccounting :=
  mkActorRequestAccounting (sat_add64 (ara_started target) (ara_started other))
    (sat_add64 (ara_completed target) (ara_completed other))
    (sat_add64 (ara_in_flight target) (ara_in_flight other)).

Definition same_surface (a b : SurfaceUsage) : bool :=
  (su_surface a ==? su_surface b) && (su_model a ==? su_model b).

Definition merge_surface (existing surface : SurfaceUsage) : SurfaceUsage :=
  mkSurfaceUsage (su_surface existing) (su_model existing)
    (sat_add64 (su_response_count existing) (su_response_count surface))
    (sat_add64 (su_usage_response_count existing) (su_usage_response_count surface))
    (Usage_add (su_usage existing) (su_usage surface))
    (sat_add64 (su_cost_nanousd existing) (su_cost_nanousd surface))
    (sat_add64 (su_cost_nanocny existing) (su_cost_nanocny surface)).

(** Merge into the first entry with the same surface and model, or append. *)
Fixpoint add_surface (l : list SurfaceUsage) (surface : SurfaceUsage) : list SurfaceUsage :=
  match l with
  | [] => [surface]
  | existing :: l' =>
    if same_surface existing surface then merge_surface existing surface :: l'
    else existing :: add_surface l' surface
  end.

Definition accounting_is_fresh (a : ModelAccounting) : bool :=
  (total_started a =? 0) && (ma_usage a ==? Usage_default) && (ma_surface_usage a ==? [])
  && (ma_cost_nanousd a =? 0) && (ma_cost_nanocny a =? 0).

Definition ModelAccounting_add (a other : ModelAccounting) : ModelAccounting :=
  if accounting_is_fresh a then other
  else
    mkModelAccounting
      (match ma_hard_request_limit a with Some l => Some l | None => ma_hard_request_limit other end)
      (add_actor_accounting (ma_root a) (ma_root other))
      (add_actor_accounting (ma_child a) (ma_child other))
      (sat_add64 (ma_runtime_retries a) (ma_runtime_retries other))
      (sat_add64 (ma_sealed_denied a) (ma_sealed_denied other))
      (sat_add64 (ma_exhausted_denied a) (ma_exhausted_denied other))
      (ma_budget_exhausted a || ma_budget_exhausted other)
      (ma_sealed a || ma_sealed other)
      (ma_complete a && ma_complete other)
      (ma_usage_complete a && ma_usage_complete other)
      (ma_usage_missing a || ma_usage_missing other)
      (ma_usage_incomplete a || ma_usage_incomplete other)
      (ma_billing_unknown a || ma_billing_unknown other)
      (ma_unpriced a || ma_unpriced other)
      (sat_add64 (ma_usage_responses a) (ma_usage_responses other))
      (sat_add64 (ma_usage_missing_responses a) (ma_usage_missing_responses other))
      (sat_add64 (ma_incomplete_responses a) (ma_incomplete_responses other))
      (sat_add64 (ma_billing_unknown_attempts a) (ma_billing_unknown_attempts other))
      (sat_add64 (ma_unpriced_usage_responses a) (ma_unpriced_usage_responses other))
      (sat_add64 (ma_records_after_seal a) (ma_records_after_seal other))
      (Usage_add (ma_usage a) (ma_usage other))
      (foldl add_surface (ma_surface_usage a) (ma_surface_usage other))
      (sat_add64 (ma_cost_nanousd a) (ma_cost_nanousd other))
      (sat_add64 (ma_cost_nanocny a) (ma_cost_nanocny other)).
