(* ===== verification/Context.v ===== *)
(** The deterministic context broker: [crates/context/src/compaction.rs].

    A pure projector from the canonical transcript and the durable Host facts to the
    model-visible request, and the planner of local compactions.  A [BTreeSet<usize>] is a
    [gset nat] read in increasing order by [bt_iter]. *)
From Stdlib Require Import Ascii String.
From stdpp Require Import sorting.
From S2P Require Import Prelude Text Json Task Protocol Validate.

Open Scope string_scope.
Open Scope N_scope.

Definition TOOL_RESULT_PRUNE_CHARS : N := 16 * 1024.
Definition TOOL_RESULT_RETAIN_CHARS : N := 2 * 1024.
Definition HOST_FACTS_HEADER : string := "## 当前 Host 事实".
Definition LIMIT_TARGET_NUMERATOR : N := 3.
Definition LIMIT_TARGET_DENOMINATOR : N := 4.

Record ContextInput := mkContextInput {
  ci_transcript : CanonicalTranscript;
  ci_projection : option ContextProjection;
  ci_task_contract : option TaskContract;
  ci_workspace_state : WorkspaceState;
  ci_evidence_receipts : list EvidenceReceipt;
  ci_last_completion_rejection : option CompletionRejection;
  ci_last_verifier_failure : option ToolOutcome;
  ci_last_verifier_failure_workspace : option WorkspaceState;
  ci_tools : list ToolDefinition;
}.
#[global] Instance ContextInput_settable : Settable ContextInput := λ r,
  mkContextInput (ci_transcript r) (ci_projection r) (ci_task_contract r)
    (ci_workspace_state r) (ci_evidence_receipts r) (ci_last_completion_rejection r)
    (ci_last_verifier_failure r) (ci_last_verifier_failure_workspace r) (ci_tools r).

Record EffectiveContext := mkEffectiveContext {
  ec_system_prompt : SystemPrompt;
  ec_messages : list ModelMessage;
  ec_source_entry_indices : list N;
  ec_source_entry_count : N;
  ec_sha256 : string;
  ec_estimated_tokens : N;
}.

Inductive ContextCompactionPreparation :=
| CompactionNotNeeded (estimated_tokens : N)
| CompactionLocal (projection : ContextProjection) (before_tokens after_tokens : N)
| CompactionLimitExceeded (estimated_tokens hard_input_tokens : N).

Inductive ContextProjectionError :=
| BoundaryAhead (boundary entries : N)
| InvalidSourceIndices
| SourceMessageMismatch
| DigestError (message : string)
| InvalidPolicy (message : string).

(** [Display] of the error ([thiserror]). *)
Definition ContextProjectionError_to_string (e : ContextProjectionError) : string :=
  match e with
  | BoundaryAhead boundary entries =>
    "context projection boundary " ++ show_N boundary ++
    " is beyond canonical transcript length " ++ show_N entries
  | InvalidSourceIndices => "context projection source indices are invalid"
  | SourceMessageMismatch => "context projection messages do not match their canonical sources"
  | DigestError m => "failed to serialize context facts for a stable digest: " ++ m
  | InvalidPolicy m => "invalid context policy: " ++ m
  end.

(** Derived [serde] encoders used by the projector. *)
Class ContextCodec := {
  receipt_to_string : EvidenceReceipt → result string string;
  rejection_to_string : CompletionRejection → result string string;
  outcome_to_string : ToolOutcome → result string string;
  workspace_to_string : WorkspaceState → result string string;
  projection_to_vec : SystemPrompt → list ModelMessage → list N → N → list ToolDefinition →
    result string string;
}.

(** ** Token estimate *)

(** The longest prefix whose elements satisfy [p], and the rest. *)
Fixpoint span {A} (p : A → bool) (l : list A) : list A * list A :=
  match l with
  | [] => ([], [])
  | a :: l' => if p a then let '(run, rest) := span p l' in (a :: run, rest) else ([], l)
  end.

Definition alnum_run_tokens (run : list ascii) : N :=
  let len := N.of_nat (length run) in
  let distinct_count := length (remove_dups run) in
  let has_alpha := existsb is_ascii_alphabetic run in
  let has_digit := existsb is_ascii_digit run in
  if has_digit && negb has_alpha then div_ceil len 2
  else if Nat.eqb distinct_count 1 && (16 <=? len) then div_ceil len 6
  else if 32 <=? len then div_ceil (sat_mul64 len 2) 3
  else div_ceil len 4.

Definition symbol_run_tokens (run : list ascii) : N :=
  let len := N.of_nat (length run) in
  match run with
  | [] => 0
  | first :: _ => if forallb (λ c, c ==? first) run then div_ceil len 2 else len
  end.

Definition is_symbol (a : ascii) : bool :=
  is_ascii a && negb (is_ascii_whitespace a) && negb (is_ascii_alphanumeric a).

(** One iteration of the scan: the tokens of the next run and the bytes after it. *)
Definition estimate_step (first : ascii) (tail : list ascii) : N * list ascii :=
  if negb (is_ascii first) then
    let '(cont, rest) := span is_continuation tail in
    (div_ceil (N.of_nat (S (length cont))) 3, rest)
  else if is_ascii_whitespace first then
    let '(run, rest) := span is_ascii_whitespace (first :: tail) in
    (div_ceil (N.of_nat (length run)) 4, rest)
  else if is_ascii_alphanumeric first then
    let '(run, rest) := span is_ascii_alphanumeric (first :: tail) in
    (alnum_run_tokens run, rest)
  else
    let '(run, rest) := span is_symbol (first :: tail) in
    (symbol_run_tokens run, rest).

(** The scan with fuel; [None] when the fuel runs out before the text ends. *)
Fixpoint estimate_loop (fuel : nat) (l : list ascii) (tokens : N) : option N :=
  match l with
  | [] => Some tokens
  | first :: tail =>
    match fuel with
    | O => None
    | S fuel' =>
      let '(run_tokens, rest) := estimate_step first tail in
      estimate_loop fuel' rest (sat_add64 tokens run_tokens)
    end
  end.

Definition estimate_text_tokens (value : string) : N :=
  default 0 (estimate_loop (length (bytes value)) (bytes value) 0).

Definition sum_tokens {A} (f : A → N) (l : list A) : N := foldr (λ a acc, f a + acc) 0 l.
Definition opt_tokens (o : option string) : N := from_option estimate_text_tokens 0 o.

Definition message_tokens (m : ModelMessage) : N :=
  match m with
  | MsgUser content => estimate_text_tokens content
  | MsgAssistant content reasoning_content tool_calls =>
    sat_add64 (sat_add64 (opt_tokens content) (opt_tokens reasoning_content))
      (sum_tokens (λ call,
         sat_add64 (sat_add64 (estimate_text_tokens (mtc_id call))
                      (estimate_text_tokens (mtc_name call)))
           (estimate_text_tokens (ta_raw (mtc_arguments call)))) tool_calls)
  | MsgTool call_id name content =>
    sat_add64 (sat_add64 (estimate_text_tokens call_id) (estimate_text_tokens name))
      (estimate_text_tokens content)
  end.

Section broker.
Context `{JsonLib, ProtocolCodec, ContextCodec}.

Definition tool_tokens (tool : ToolDefinition) : N :=
  sat_add64 (sat_add64 (estimate_text_tokens (td_name tool))
               (estimate_text_tokens (td_description tool)))
    (estimate_text_tokens (value_to_string (td_input_schema tool))).

Definition estimate_context_tokens (system_prompt : SystemPrompt)
    (messages : list ModelMessage) (tools : list ToolDefinition) : N :=
  let system_tokens := sum_tokens (λ b, estimate_text_tokens (spb_text b))
                         (sp_blocks system_prompt) in
  let message_tokens := sum_tokens message_tokens messages in
  let tool_tokens := sum_tokens tool_tokens tools in
  let lexical_tokens := sat_add64 (sat_add64 system_tokens message_tokens) tool_tokens in
  sat_add64
    (sat_add64 lexical_tokens
       (sat_mul64 (sat_add64 (N.of_nat (length messages)) (N.of_nat (length tools))) 12))
    48.

(** ** Projecting the transcript *)

Definition take_chars (value : string) (count : N) : string :=
  of_chars (take (N.to_nat count) (chars value)).
Definition take_tail_chars (value : string) (count : N) : string :=
  let total := chars_count value in
  of_chars (drop (N.to_nat (total - count)) (chars value)).

Definition compact_tool_result (message : ModelMessage) : ModelMessage :=
  match message with
  | MsgTool call_id name content =>
    if chars_count content <=? TOOL_RESULT_PRUNE_CHARS then message
    else
      let original := chars_count content in
      let head := take_chars content TOOL_RESULT_RETAIN_CHARS in
      let tail := take_tail_chars content TOOL_RESULT_RETAIN_CHARS in
      MsgTool call_id name
        ("[" ++ name ++ " 的旧工具结果已在请求投影中压缩，canonical 记录保留 " ++
         show_N original ++ " 字符]" ++ newline ++ head ++ newline ++ "…" ++ newline ++ tail)
  | _ => message
  end.

Definition bt_iter (s : gset nat) : list nat := merge_sort le (elements s).

Definition project_indices (transcript : CanonicalTranscript) (compact_tools : bool)
    (indices : list nat) : list (ModelMessage * N) :=
  omap (λ index,
    entry ← transcript !! index;
    message ← project_entry entry;
    Some (if compact_tools then compact_tool_result message else message, N.of_nat index))
    indices.

Definition project_selected (transcript : CanonicalTranscript) (selected : gset nat)
    (boundary : nat) (compact_tools : bool) : list ModelMessage * list N :=
  let picked := project_indices transcript compact_tools
                  (List.filter (λ index, Nat.ltb index boundary) (bt_iter selected)) in
  (picked.*1, picked.*2).

Definition project_range (transcript : CanonicalTranscript) (start stop : nat)
    (compact_tools : bool) : list ModelMessage * list N :=
  let picked := project_indices transcript compact_tools (seq start (stop - start)) in
  (picked.*1, picked.*2).

Definition projected_history (transcript : CanonicalTranscript)
    (projection : ContextProjection)
    : result ContextProjectionError (list ModelMessage * list N) :=
  let boundary := cp_source_entry_count projection in
  let entries := N.of_nat (length transcript) in
  fail_if (entries <? boundary) (BoundaryAhead boundary entries) ;;
  fail_if (negb (Nat.eqb (length (cp_selected_entry_indices projection))
                   (length (cp_messages projection)))
           || negb (windows2_all N.ltb (cp_selected_entry_indices projection))
           || existsb (λ index, cp_source_entry_count projection <=? index)
                (cp_selected_entry_indices projection))
    InvalidSourceIndices ;;
  let selected : gset nat :=
    list_to_set (N.to_nat <$> cp_selected_entry_indices projection) in
  let '(expected, expected_indices) :=
    project_selected transcript selected (N.to_nat boundary) true in
  fail_if ((expected !=? cp_messages projection)
           || (expected_indices !=? cp_selected_entry_indices projection))
    SourceMessageMismatch ;;
  let '(suffix, suffix_indices) :=
    project_range transcript (N.to_nat boundary) (length transcript) false in
  Ok ((cp_messages projection ++ suffix)%list,
      (cp_selected_entry_indices projection ++ suffix_indices)%list).

(** ** Host facts *)

Definition receipt_satisfies (contract : TaskContract) (receipt : EvidenceReceipt) : bool :=
  existsb (λ acceptance,
    match acceptance with
    | AcceptVerifier id _ evidence_policy verifier =>
      (id ==? er_acceptance_id receipt) && (verifier ==? er_verifier receipt)
      && lineage_satisfies (er_lineage receipt) evidence_policy
    | AcceptHost _ _ => false
    end) (def_acceptance (contract_definition contract)).

Definition latest_valid_receipt (input : ContextInput) : option EvidenceReceipt :=
  contract ← ci_task_contract input;
  find_first (λ receipt,
    (er_generation_id receipt ==? contract_generation_id contract)
    && (er_workspace_state receipt ==? ci_workspace_state input)
    && receipt_satisfies contract receipt)
    (reverse (ci_evidence_receipts input)).

Definition unresolved_rejection (input : ContextInput) : option CompletionRejection :=
  rejection ← ci_last_completion_rejection input;
  contract ← ci_task_contract input;
  if cr_generation_id rejection !=? contract_generation_id contract then None
  else
    let resolved := forallb (λ acceptance_id,
      existsb (λ receipt,
        (er_generation_id receipt ==? contract_generation_id contract)
        && (er_acceptance_id receipt ==? acceptance_id)
        && (er_workspace_state receipt ==? ci_workspace_state input)
        && existsb (λ acceptance,
             match acceptance with
             | AcceptVerifier id _ evidence_policy verifier =>
               (id ==? acceptance_id) && (verifier ==? er_verifier receipt)
               && lineage_satisfies (er_lineage receipt) evidence_policy
             | AcceptHost _ _ => false
             end) (def_acceptance (contract_definition contract)))
        (ci_evidence_receipts input)) (cr_unmet_acceptance_ids rejection) in
    if negb resolved then Some rejection else None.

Definition digest_error (m : result string string) : result ContextProjectionError string :=
  map_err DigestError m.

(** The verifier failure as rendered: inline payloads dropped, long output compacted. *)
Definition compact_verifier_failure (outcome : ToolOutcome) : ToolOutcome :=
  let outcome := outcome <| to_artifacts :=
    (λ a, a <| tf_inline_content := None |>) <$> to_artifacts outcome |> in
  if TOOL_RESULT_PRUNE_CHARS <? chars_count (to_content outcome) then
    let original := chars_count (to_content outcome) in
    outcome <| to_content :=
      "[verifier 输出已确定性压缩，canonical 记录保留 " ++ show_N original ++ " 字符]" ++
      newline ++ take_chars (to_content outcome) (TOOL_RESULT_RETAIN_CHARS * 3) ++ newline ++
      "…" ++ newline ++ take_tail_chars (to_content outcome) TOOL_RESULT_RETAIN_CHARS |>
  else outcome.

Definition contract_facts (input : ContextInput) (history : list ModelMessage)
    : list string :=
  match ci_task_contract input with
  | None => []
  | Some contract =>
    let rendered := model_message (contract_definition contract) in
    let already_present := existsb (λ m,
      match m with MsgUser content => content ==? rendered | _ => false end) history in
    let acceptance_ids :=
      str_join "," (acceptance_id <$> def_acceptance (contract_definition contract)) in
    let identity := "- task_generation: `" ++ contract_generation_id contract ++ "`" ++
      newline ++ "- acceptance_ids: `" ++ acceptance_ids ++ "`" in
    ((if already_present then [] else ["### 冻结任务契约"; rendered]) ++ [identity])%list
  end.

Definition workspace_facts (input : ContextInput) : string :=
  let revision := match ws_revision (ci_workspace_state input) with
                  | Known sha256 => "known:" ++ sha256
                  | Unknown reason => "unknown:" ++ reason
                  end in
  "- workspace_generation: `" ++ show_N (ws_generation (ci_workspace_state input)) ++ "`" ++
  newline ++ "- workspace_revision: `" ++ revision ++ "`".

Definition receipt_facts (input : ContextInput) : result ContextProjectionError string :=
  match latest_valid_receipt input with
  | Some receipt =>
    encoded ← digest_error (receipt_to_string receipt);
    Ok ("### 当前有效 EvidenceReceipt" ++ newline ++ "`" ++ encoded ++ "`")
  | None => Ok "- current_evidence_receipt: `none`"
  end.

Definition rejection_facts (input : ContextInput)
    : result ContextProjectionError (list string) :=
  match unresolved_rejection input with
  | None => Ok []
  | Some rejection =>
    encoded ← digest_error (rejection_to_string rejection);
    failure ← match ci_last_verifier_failure input with
      | None => Ok []
      | Some outcome =>
        encoded ← digest_error (outcome_to_string (compact_verifier_failure outcome));
        Ok ["### 最近一次 verifier 失败" ++ newline ++ "`" ++ encoded ++ "`"]
      end;
    workspace ← match ci_last_verifier_failure_workspace input with
      | None => Ok []
      | Some workspace =>
        encoded ← digest_error (workspace_to_string workspace);
        Ok ["- verifier_failure_workspace: `" ++ encoded ++ "`"]
      end;
    let line := "### 未解决的完成拒绝" ++ newline ++ "`" ++ encoded ++ "`" in
    Ok ([line] ++ failure ++ workspace)%list
  end.

(** The source returns [Ok(Some(text))] on every path that succeeds. *)
Definition render_host_facts (input : ContextInput) (history : list ModelMessage)
    : result ContextProjectionError (option string) :=
  receipt ← receipt_facts input;
  rejection ← rejection_facts input;
  Ok (Some (str_join newline
    ([HOST_FACTS_HEADER] ++ contract_facts input history ++ [workspace_facts input; receipt]
     ++ rejection)%list)).

(** ** The effective context *)

Definition format_sha256 (bytes : string) : string := "sha256:" ++ sha256_hex bytes.

Definition projection_digest (system_prompt : SystemPrompt) (messages : list ModelMessage)
    (source_entry_indices : list N) (source_entry_count : N) (tools : list ToolDefinition)
    : result ContextProjectionError string :=
  bytes ← digest_error (projection_to_vec system_prompt messages source_entry_indices
                          source_entry_count tools);
  Ok (format_sha256 bytes).

Definition entry_system_prompt (entry : TranscriptEntry) : option SystemPrompt :=
  match entry with EntrySystem prompt => Some prompt | _ => None end.

Definition context_system_prompt (transcript : CanonicalTranscript) : SystemPrompt :=
  default SystemPrompt_default (find_map entry_system_prompt transcript).

Definition context_history (input : ContextInput)
    : result ContextProjectionError (list ModelMessage * list N) :=
  match ci_projection input with
  | Some projection => projected_history (ci_transcript input) projection
  | None => Ok (project_range (ci_transcript input) 0 (length (ci_transcript input)) false)
  end.

Definition effective_context (input : ContextInput)
    : result ContextProjectionError EffectiveContext :=
  let system_prompt := context_system_prompt (ci_transcript input) in
  '(history, source_entry_indices) ← context_history input;
  host_facts ← render_host_facts input history;
  let messages := match host_facts with
                  | Some host_facts => (history ++ [MsgUser host_facts])%list
                  | None => history
                  end in
  let source_entry_count := N.of_nat (length (ci_transcript input)) in
  sha256 ← projection_digest system_prompt messages source_entry_indices source_entry_count
             (ci_tools input);
  Ok (mkEffectiveContext system_prompt messages source_entry_indices source_entry_count sha256
        (estimate_context_tokens system_prompt messages (ci_tools input))).

(** ** Planning a local compaction *)

Definition validate_policy (policy : ContextPolicy) : result ContextProjectionError unit :=
  fail_if (hard_input_tokens policy =? 0)
    (InvalidPolicy "hard_input_tokens must be greater than zero").

Definition estimate_projection_tokens (input : ContextInput) (projection : ContextProjection)
    : result ContextProjectionError N :=
  effective ← effective_context (input <| ci_projection := Some projection |>);
  Ok (ec_estimated_tokens effective).

Definition projection_from_indices (source : EffectiveContext)
    (transcript : CanonicalTranscript) (selected : gset nat) : ContextProjection :=
  let boundary := length transcript in
  let '(messages, selected_entry_indices) := project_selected transcript selected boundary true in
  mkContextProjection (N.of_nat boundary) (ec_sha256 source) selected_entry_indices messages.

(** [entries.iter().enumerate().skip(start)] and [entries.iter().rposition(p)]. *)
Definition enumerate_from {A} (start : nat) (l : list A) : list (nat * A) :=
  zip (seq start (length l - start)) (drop start l).
Definition rposition {A} (p : A → bool) (l : list A) : option nat :=
  find_map (λ '(index, entry), if p entry then Some index else None)
    (reverse (enumerate_from 0 l)).

Definition is_user_text (rendered : string) (entry : TranscriptEntry) : bool :=
  match entry with EntryUser content => content ==? rendered | _ => false end.
Definition is_user_or_child (entry : TranscriptEntry) : bool :=
  match entry with EntryUser _ | EntryChildOutcome _ _ _ _ => true | _ => false end.
Definition is_mutation (entry : TranscriptEntry) : bool :=
  match entry with
  | EntryTool _ _ outcome =>
    (to_side_effect outcome ==? SideEffectApplied) || is_some (to_workspace_revision outcome)
  | _ => false
  end.
Definition is_tool_named (name : string) (entry : TranscriptEntry) : bool :=
  match entry with EntryTool _ tool _ => tool ==? name | _ => false end.

Definition indices_where {A} (p : A → bool) (l : list (nat * A)) : list nat :=
  (List.filter (λ '(_, entry), p entry) l).*1.

Definition mandatory_entry_indices (input : ContextInput) : gset nat :=
  let entries := ci_transcript input in
  let task_index :=
    contract ← ci_task_contract input;
    rposition (is_user_text (model_message (contract_definition contract))) entries in
  let task_start := default O task_index in
  let selected : gset nat := match task_index with Some index => {[ index ]} | None => ∅ end in
  let selected := selected ∪
    list_to_set (indices_where is_user_or_child (enumerate_from task_start entries)) in
  let mutations := indices_where is_mutation (enumerate_from task_start entries) in
  let selected := selected ∪ list_to_set mutations in
  let latest_mutation := last mutations in
  foldl (λ selected name,
    match rposition (is_tool_named name) entries with
    | Some index =>
      if is_none_or latest_mutation (λ mutation, Nat.ltb mutation index)
      then {[ index ]} ∪ selected else selected
    | None => selected
    end) selected ["git_diff"; "git_status"].

(** The results of one assistant turn: the run of tool and child entries after it, of which
    the group takes the tool results that answer its calls. *)
Fixpoint tool_group_tail (call_ids : list string) (next : nat) (l : CanonicalTranscript)
    : list nat * nat * CanonicalTranscript :=
  match l with
  | EntryTool call_id _ _ :: l' =>
    let '(group, stop, rest) := tool_group_tail call_ids (S next) l' in
    (if existsb (λ id, id ==? call_id) call_ids then next :: group else group, stop, rest)
  | EntryChildOutcome _ _ _ _ :: l' => tool_group_tail call_ids (S next) l'
  | _ => ([], next, l)
  end.

(** The [while] loop over the entries from [cursor] on; every iteration consumes at least
    one entry, so [length entries] units of fuel are enough. *)
Fixpoint history_groups_loop (fuel : nat) (cursor : nat) (l : CanonicalTranscript)
    : option (list (list nat)) :=
  match l with
  | [] => Some []
  | entry :: l' =>
    match fuel with
    | O => None
    | S fuel' =>
      match entry with
      | EntrySystem _ | EntryTool _ _ _ => history_groups_loop fuel' (S cursor) l'
      | EntryAssistant _ _ ((_ :: _) as tool_calls) =>
        let '(group, next, rest) := tool_group_tail (mtc_id <$> tool_calls) (S cursor) l' in
        groups ← history_groups_loop fuel' next rest;
        Some ((cursor :: group) :: groups)
      | EntryUser _ | EntryAssistant _ _ [] | EntryChildOutcome _ _ _ _ =>
        groups ← history_groups_loop fuel' (S cursor) l';
        Some ([cursor] :: groups)
      end
    end
  end.

Definition atomic_history_groups (transcript : CanonicalTranscript) : list (list nat) :=
  default [] (history_groups_loop (length transcript) 0 transcript).

(** One pass of the [for] loop of [expand_selected_groups]. *)
Definition expand_pass (selected : gset nat) (groups : list (list nat)) : gset nat :=
  foldl (λ selected group,
    if existsb (λ index, bool_decide (index ∈ selected)) group
    then selected ∪ list_to_set group else selected) selected groups.

(** [changed] is true exactly when a pass inserts an index that was not selected. *)
Fixpoint expand_loop (fuel : nat) (selected : gset nat) (groups : list (list nat))
    : option (gset nat) :=
  match fuel with
  | O => None
  | S fuel' =>
    let selected' := expand_pass selected groups in
    if selected' ==? selected then Some selected' else expand_loop fuel' selected' groups
  end.

Definition expand_selected_groups (selected : gset nat) (groups : list (list nat))
    : gset nat :=
  default selected (expand_loop (S (length (mjoin groups))) selected groups).

(** The state of the greedy loop: the selected entries, their projection, its tokens. *)
Definition select_group (input : ContextInput) (effective : EffectiveContext)
    (selection_target : N) (st : gset nat * ContextProjection * N) (group : list nat)
    : result ContextProjectionError (gset nat * ContextProjection * N) :=
  let '(selected, candidate, after_tokens) := st in
  if forallb (λ index, bool_decide (index ∈ selected)) group then Ok st
  else
    let trial := selected ∪ list_to_set group in
    let trial_projection := projection_from_indices effective (ci_transcript input) trial in
    trial_tokens ← estimate_projection_tokens input trial_projection;
    if trial_tokens <=? selection_target then Ok (trial, trial_projection, trial_tokens)
    else Ok st.

Definition prepare_compaction (input : ContextInput) (policy : ContextPolicy)
    : result ContextProjectionError ContextCompactionPreparation :=
  validate_policy policy ;;
  effective ← effective_context input;
  let hard := hard_input_tokens policy in
  if ec_estimated_tokens effective <=? hard
  then Ok (CompactionNotNeeded (ec_estimated_tokens effective))
  else
    let groups := atomic_history_groups (ci_transcript input) in
    let selected := expand_selected_groups (mandatory_entry_indices input) groups in
    let candidate := projection_from_indices effective (ci_transcript input) selected in
    after_tokens ← estimate_projection_tokens input candidate;
    if hard <? after_tokens then Ok (CompactionLimitExceeded after_tokens hard)
    else
      let selection_target :=
        N.max (N.min hard (sat_mul64 (ec_estimated_tokens effective) LIMIT_TARGET_NUMERATOR
                           / LIMIT_TARGET_DENOMINATOR)) after_tokens in
      '(_, candidate, after_tokens) ←
        fold_result (select_group input effective selection_target)
          (selected, candidate, after_tokens) (reverse groups);
      if ec_estimated_tokens effective <=? after_tokens
      then Ok (CompactionLimitExceeded (ec_estimated_tokens effective) hard)
      else Ok (CompactionLocal candidate (ec_estimated_tokens effective) after_tokens).
End broker.
