(* ===== verification/Snapshot.v ===== *)
(** The durable run view of [crates/runtime/src/store.rs]: pending actions, the child and
    writer lifecycle, the snapshot the reducer maintains, and the errors of the store
    ([crates/runtime/src/lib.rs]); the continuation check, the named-verifier resolution and
    the retry backoff. *)
From Stdlib Require Import String.
From S2P Require Import Prelude Text Json Task Protocol Validate.

Open Scope string_scope.
Open Scope N_scope.

(** ** Errors *)

Inductive ContinuationError :=
| SourceNotTerminal | SourceIsChild | ContinuationRecoveryRequired | NewRunIsNotRoot
| WorkspaceMismatch | TranscriptMismatch | ContextProjectionMismatch | InheritedFactsMismatch
| LineageCorrupt.
#[global] Instance ContinuationError_eq_dec : EqDecision ContinuationError.
Proof. solve_decision. Defined.

Inductive RunStoreError :=
| AlreadyExists (run_id : RunId)
| NotFound (run_id : RunId)
| AlreadyRunning (run_id : RunId)
| AlreadyTerminal (run_id : RunId)
| InvalidContinuation (source_run_id : RunId) (reason : ContinuationError)
| StaleLease (run_id : RunId) (epoch : N)
| EventConflict (run_id : RunId) (event_id : RuntimeEventId)
| CreationConflict (command_id : CommandId)
| Corrupt (run_id : RunId) (message : string)
| UnsupportedSchema (found minimum_supported maximum_supported : N)
| Backend (message : string).
#[global] Instance RunStoreError_eq_dec : EqDecision RunStoreError.
Proof. solve_decision. Defined.

Definition corrupt (run_id : RunId) (message : string) : RunStoreError := Corrupt run_id message.

(** [guard run_id c m]: [if c { return Err(corrupt(run_id, m)) }]. *)
Definition guard_corrupt (run_id : RunId) (c : bool) (message : string)
    : result RunStoreError unit := fail_if c (corrupt run_id message).
(** [r.map_err(|message| corrupt(run_id, message))?] *)
Definition or_corrupt {A} (run_id : RunId) (r : result string A) : result RunStoreError A :=
  map_err (corrupt run_id) r.
(** [o.ok_or_else(|| corrupt(run_id, message))?] *)
Definition some_or_corrupt {A} (run_id : RunId) (o : option A) (message : string)
    : result RunStoreError A := ok_or o (corrupt run_id message).

(** ** Pending actions *)

Inductive DurableActionState := Prepared | InFlight.
#[global] Instance DurableActionState_eq_dec : EqDecision DurableActionState.
Proof. solve_decision. Defined.

Record PreparedModelRetrySchedule := mkPreparedModelRetrySchedule {
  prs_decision_unix_ms : N;
  prs_backoff_ms : N;
  prs_not_before_unix_ms : N;
  prs_max_retries : N;
}.
#[global] Instance PreparedModelRetrySchedule_eq_dec : EqDecision PreparedModelRetrySchedule.
Proof. solve_decision. Defined.

Record PendingModelAction := mkPendingModelAction {
  pma_attempt_id : AttemptId;
  pma_request : ModelRequest;
  pma_primary_failure : option ModelAttemptFailure;
  pma_retry_schedule : option PreparedModelRetrySchedule;
  pma_state : DurableActionState;
}.
#[global] Instance PendingModelAction_eq_dec : EqDecision PendingModelAction.
Proof. solve_decision. Defined.
#[global] Instance PendingModelAction_settable : Settable PendingModelAction := λ r,
  mkPendingModelAction (pma_attempt_id r) (pma_request r) (pma_primary_failure r)
    (pma_retry_schedule r) (pma_state r).

Record StoppedModelFailure := mkStoppedModelFailure {
  smf_failure : ModelAttemptFailure;
  smf_reason : ModelRetryStopReason;
}.
#[global] Instance StoppedModelFailure_eq_dec : EqDecision StoppedModelFailure.
Proof. solve_decision. Defined.

Record CommittedContextCompaction := mkCommittedContextCompaction {
  ccc_source_projection_sha256 : string;
  ccc_before_tokens : N;
  ccc_after_tokens : N;
  ccc_sequence : N;
}.
#[global] Instance CommittedContextCompaction_eq_dec : EqDecision CommittedContextCompaction.
Proof. solve_decision. Defined.

Record PendingUserInteraction := mkPendingUserInteraction {
  pui_request : UserInteractionRequest;
  pui_response : option UserInteractionResponse;
}.
#[global] Instance PendingUserInteraction_eq_dec : EqDecision PendingUserInteraction.
Proof. solve_decision. Defined.
#[global] Instance PendingUserInteraction_settable : Settable PendingUserInteraction := λ r,
  mkPendingUserInteraction (pui_request r) (pui_response r).

Record PendingToolAction := mkPendingToolAction {
  pta_operation_id : OperationId;
  pta_invocation : ToolInvocation;
  pta_workspace_access : WorkspaceAccess;
  pta_authorization : option ToolAuthorizationDecision;
  pta_state : DurableActionState;
  pta_interaction : option PendingUserInteraction;
}.
#[global] Instance PendingToolAction_eq_dec : EqDecision PendingToolAction.
Proof. solve_decision. Defined.
#[global] Instance PendingToolAction_settable : Settable PendingToolAction := λ r,
  mkPendingToolAction (pta_operation_id r) (pta_invocation r) (pta_workspace_access r)
    (pta_authorization r) (pta_state r) (pta_interaction r).

Record PendingHostVerification := mkPendingHostVerification {
  phv_verification_id : VerificationId;
  phv_candidate : CompletionCandidate;
  phv_acceptance_id : AcceptanceId;
  phv_verifier : VerifierSpec;
  phv_workspace_state_before : WorkspaceState;
  phv_state : DurableActionState;
}.
#[global] Instance PendingHostVerification_eq_dec : EqDecision PendingHostVerification.
Proof. solve_decision. Defined.
#[global] Instance PendingHostVerification_settable : Settable PendingHostVerification := λ r,
  mkPendingHostVerification (phv_verification_id r) (phv_candidate r) (phv_acceptance_id r)
    (phv_verifier r) (phv_workspace_state_before r) (phv_state r).

Record PendingSteer := mkPendingSteer { ps_command_id : CommandId; ps_content : string }.
#[global] Instance PendingSteer_eq_dec : EqDecision PendingSteer.
Proof. solve_decision. Defined.

Record PendingControl := mkPendingControl {
  pc_command_id : CommandId;
  pc_action : DurableControlAction;
}.
#[global] Instance PendingControl_eq_dec : EqDecision PendingControl.
Proof. solve_decision. Defined.

Inductive DurableCommand :=
| CommandSteer (content : string)
| CommandStop (action : DurableControlAction)
| CommandResolveInteraction (interaction_id : InteractionId) (response : UserInteractionResponse)
| CommandAcceptCompletion (acceptance : HostCompletionAcceptance).
#[global] Instance DurableCommand_eq_dec : EqDecision DurableCommand.
Proof. solve_decision. Defined.

Record CommandReceipt := mkCommandReceipt {
  cmd_command_id : CommandId;
  cmd_sequence : N;
  cmd_command : DurableCommand;
}.
#[global] Instance CommandReceipt_eq_dec : EqDecision CommandReceipt.
Proof. solve_decision. Defined.

(** ** Child and writer lifecycle *)

Record AgentWorkspaceCreatedFact := mkAgentWorkspaceCreatedFact {
  awc_assignment : AgentWorkspaceAssignment;
  awc_writer_workspace_state : WorkspaceState;
}.
#[global] Instance AgentWorkspaceCreatedFact_eq_dec : EqDecision AgentWorkspaceCreatedFact.
Proof. solve_decision. Defined.

Record AgentChildStartedFact := mkAgentChildStartedFact {
  acs_call_id : string;
  acs_child_run_id : RunId;
  acs_depth : N;
}.
#[global] Instance AgentChildStartedFact_eq_dec : EqDecision AgentChildStartedFact.
Proof. solve_decision. Defined.

Record AgentSealCommittedFact := mkAgentSealCommittedFact {
  asc_final_commit : string;
  asc_diff_sha256 : string;
  asc_changed_files : list string;
  asc_writer_workspace_state_after : WorkspaceState;
}.
#[global] Instance AgentSealCommittedFact_eq_dec : EqDecision AgentSealCommittedFact.
Proof. solve_decision. Defined.

Record AgentSealLifecycle := mkAgentSealLifecycle {
  asl_base_commit : string;
  asl_writer_workspace_state_before : WorkspaceState;
  asl_committed : option AgentSealCommittedFact;
}.
#[global] Instance AgentSealLifecycle_eq_dec : EqDecision AgentSealLifecycle.
Proof. solve_decision. Defined.
#[global] Instance AgentSealLifecycle_settable : Settable AgentSealLifecycle := λ r,
  mkAgentSealLifecycle (asl_base_commit r) (asl_writer_workspace_state_before r)
    (asl_committed r).

Record AgentIntegrationCommittedFact := mkAgentIntegrationCommittedFact {
  aic_root_head_commit : string;
  aic_root_workspace_state_after : WorkspaceState;
}.
#[global] Instance AgentIntegrationCommittedFact_eq_dec
  : EqDecision AgentIntegrationCommittedFact.
Proof. solve_decision. Defined.

Record AgentIntegrationFailureFact := mkAgentIntegrationFailureFact {
  aif_status : WriterIntegrationStatus;
  aif_root_workspace_state : WorkspaceState;
}.
#[global] Instance AgentIntegrationFailureFact_eq_dec : EqDecision AgentIntegrationFailureFact.
Proof. solve_decision. Defined.

Record AgentIntegrationLifecycle := mkAgentIntegrationLifecycle {
  ail_integration_id : OperationId;
  ail_base_commit : string;
  ail_writer_commit : string;
  ail_diff_sha256 : string;
  ail_expected_root_workspace_state : WorkspaceState;
  ail_started : bool;
  ail_committed : option AgentIntegrationCommittedFact;
  ail_failure : option AgentIntegrationFailureFact;
}.
#[global] Instance AgentIntegrationLifecycle_eq_dec : EqDecision AgentIntegrationLifecycle.
Proof. solve_decision. Defined.
#[global] Instance AgentIntegrationLifecycle_settable
  : Settable AgentIntegrationLifecycle := λ r,
  mkAgentIntegrationLifecycle (ail_integration_id r) (ail_base_commit r) (ail_writer_commit r)
    (ail_diff_sha256 r) (ail_expected_root_workspace_state r) (ail_started r)
    (ail_committed r) (ail_failure r).

Record AgentCleanupLifecycle := mkAgentCleanupLifecycle {
  acl_plan : WriterCleanupPlan;
  acl_committed : option WriterCleanupResult;
}.
#[global] Instance AgentCleanupLifecycle_eq_dec : EqDecision AgentCleanupLifecycle.
Proof. solve_decision. Defined.
#[global] Instance AgentCleanupLifecycle_settable : Settable AgentCleanupLifecycle := λ r,
  mkAgentCleanupLifecycle (acl_plan r) (acl_committed r).

Record AgentChildFinishedFact := mkAgentChildFinishedFact {
  acf_call_id : string;
  acf_outcome : AgentOutcome;
  acf_accounting : ModelAccounting;
  acf_handoff_content : string;
}.
#[global] Instance AgentChildFinishedFact_eq_dec : EqDecision AgentChildFinishedFact.
Proof. solve_decision. Defined.

Record AgentTaskLifecycle := mkAgentTaskLifecycle {
  atl_task : AgentTask;
  atl_workspace_created : option AgentWorkspaceCreatedFact;
  atl_child_started : option AgentChildStartedFact;
  atl_seal : option AgentSealLifecycle;
  atl_result : option AgentOutcome;
  atl_integration : option AgentIntegrationLifecycle;
  atl_cleanup : option AgentCleanupLifecycle;
  atl_finished : option AgentChildFinishedFact;
}.
#[global] Instance AgentTaskLifecycle_eq_dec : EqDecision AgentTaskLifecycle.
Proof. solve_decision. Defined.
#[global] Instance AgentTaskLifecycle_settable : Settable AgentTaskLifecycle := λ r,
  mkAgentTaskLifecycle (atl_task r) (atl_workspace_created r) (atl_child_started r)
    (atl_seal r) (atl_result r) (atl_integration r) (atl_cleanup r) (atl_finished r).

Definition is_writer (l : AgentTaskLifecycle) : bool :=
  awa_access (at_workspace (atl_task l)) ==? AccessIsolatedWrite.

Definition is_unintegrated_writer_recovery (lifecycle : AgentTaskLifecycle) : bool :=
  is_writer lifecycle
  && is_none_or (atl_integration lifecycle) (λ integration, is_none (ail_committed integration))
  && is_some_and (atl_finished lifecycle)
       (λ finished, is_recovery_required (ao_terminal (acf_outcome finished))).

(** ** The snapshot *)

Record RunSnapshot := mkRunSnapshot {
  sn_request : RunRequest;
  sn_transcript : CanonicalTranscript;
  sn_context_projection : option ContextProjection;
  sn_usage : Usage;
  sn_accounting : ModelAccounting;
  sn_terminal : option AgentOutcome;
  sn_workspace_state : WorkspaceState;
  sn_evidence_receipts : list EvidenceReceipt;
  sn_host_acceptance_receipts : list HostAcceptanceReceipt;
  sn_pending_completion : option CompletionCandidate;
  sn_pending_host_verification : option PendingHostVerification;
  sn_last_completion_rejection : option CompletionRejection;
  sn_last_host_verification_failure : option HostVerificationFailure;
  sn_temporal_evidence_progress : option TemporalEvidenceProgress;
  sn_runtime_model_requests : N;
  sn_runtime_retries : N;
  sn_tool_calls : N;
  sn_local_turns : N;
  sn_last_sequence : N;
  sn_last_model_output : option ModelOutput;
  sn_last_model_advertised_tool_names : list string;
  sn_last_model_response_sequence : option N;
  sn_last_model_activity_sequence : option N;
  sn_last_model_failure : option StoppedModelFailure;
  sn_last_context_compaction : option CommittedContextCompaction;
  sn_pending_model : option PendingModelAction;
  sn_pending_tool : option PendingToolAction;
  sn_agent_tasks : list AgentTaskLifecycle;
  sn_pending_steers : list PendingSteer;
  sn_pending_control : option PendingControl;
  sn_command_receipts : list CommandReceipt;
}.
#[global] Instance RunSnapshot_eq_dec : EqDecision RunSnapshot.
Proof. solve_decision. Defined.
#[global] Instance RunSnapshot_settable : Settable RunSnapshot := λ r,
  mkRunSnapshot (sn_request r) (sn_transcript r) (sn_context_projection r) (sn_usage r)
    (sn_accounting r) (sn_terminal r) (sn_workspace_state r) (sn_evidence_receipts r)
    (sn_host_acceptance_receipts r) (sn_pending_completion r)
    (sn_pending_host_verification r) (sn_last_completion_rejection r)
    (sn_last_host_verification_failure r) (sn_temporal_evidence_progress r)
    (sn_runtime_model_requests r) (sn_runtime_retries r) (sn_tool_calls r) (sn_local_turns r)
    (sn_last_sequence r) (sn_last_model_output r) (sn_last_model_advertised_tool_names r)
    (sn_last_model_response_sequence r) (sn_last_model_activity_sequence r)
    (sn_last_model_failure r) (sn_last_context_compaction r) (sn_pending_model r)
    (sn_pending_tool r) (sn_agent_tasks r) (sn_pending_steers r) (sn_pending_control r)
    (sn_command_receipts r).

Definition pending_child_run_ids (s : RunSnapshot) : list RunId :=
  (λ l, at_child_run_id (atl_task l)) <$>
  List.filter (λ l, is_none (atl_finished l)) (sn_agent_tasks s).

Record RunReplay := mkRunReplay {
  replay_snapshot : RunSnapshot;
  replay_events : list StoredRuntimeEvent;
}.

(** ** Continuations *)

Definition continuation_transcript (source : CanonicalTranscript) (prompt : SystemPrompt)
    : CanonicalTranscript :=
  match source with
  | EntrySystem _ :: rest => EntrySystem prompt :: rest
  | _ => EntrySystem prompt :: source
  end.

Definition not_root (parent : option RunId) (actor : AgentActor) : bool :=
  is_some parent || (actor_kind actor !=? ActorRoot) || negb (actor_depth actor =? 0).

Definition validate_continuation_request (source : RunSnapshot) (request : RunRequest)
    : result RunStoreError unit :=
  let source_run_id := default "" (rr_run_id (sn_request source)) in
  let invalid := InvalidContinuation source_run_id in
  fail_if (not_root (rr_parent_run_id (sn_request source)) (rr_actor (sn_request source)))
    (invalid SourceIsChild) ;;
  outcome ← ok_or (sn_terminal source) (invalid SourceNotTerminal);
  fail_if (is_recovery_required (ao_terminal outcome))
    (invalid ContinuationRecoveryRequired) ;;
  fail_if (not_root (rr_parent_run_id request) (rr_actor request)
           || (rr_continued_from_run_id request !=? Some source_run_id))
    (invalid NewRunIsNotRoot) ;;
  fail_if (env_workspace (rr_environment request) !=?
           env_workspace (rr_environment (sn_request source)))
    (invalid WorkspaceMismatch) ;;
  fail_if (rr_transcript request !=?
           continuation_transcript (sn_transcript source) (rr_system_prompt request))
    (invalid TranscriptMismatch) ;;
  fail_if (rr_context_projection request !=? sn_context_projection source)
    (invalid ContextProjectionMismatch) ;;
  fail_if (rr_inherited_facts request !=?
           Some (mkInheritedRunFacts (sn_workspace_state source)
                   (sn_last_completion_rejection source)
                   (sn_last_host_verification_failure source)))
    (invalid InheritedFactsMismatch).

(** ** Named verifiers *)

Definition named_verifier_acceptance (task : TaskDefinition)
    : option (AcceptanceId * VerifierSpec) :=
  find_map (λ acceptance,
    match acceptance with
    | AcceptVerifier id _ _ verifier => Some (id, verifier)
    | AcceptHost _ _ => None
    end) (def_acceptance task).

Record ResolvedToolExecution := mkResolvedToolExecution {
  rte_invocation : result string ToolInvocation;
  rte_grant : ToolExecutionGrant;
}.

Definition resolve_tool_execution `{JsonLib, TaskCodec} (contract : option TaskContract)
    (invocation : ToolInvocation) : ResolvedToolExecution :=
  match (contract_definition <$> contract) ≫= named_verifier_acceptance with
  | None => mkResolvedToolExecution (Ok invocation) GrantOrdinary
  | Some (acceptance_id, verifier) =>
    if ti_name invocation !=? spec_verifier_id verifier
    then mkResolvedToolExecution (Ok invocation) GrantOrdinary
    else
      match ta_parsed (ti_arguments invocation) ≫= as_object with
      | None =>
        mkResolvedToolExecution (Err "冻结 verifier 只接受包含 verifier_id 的 JSON 对象")
          GrantOrdinary
      | Some arguments =>
        if negb (Nat.eqb (length arguments) 1)
           || ((object_get "verifier_id" arguments ≫= as_str) !=? Some acceptance_id)
        then mkResolvedToolExecution
               (Err ("只接受冻结 verifier ID '" ++ acceptance_id ++
                     "'，不得提交或覆盖完整 verifier 参数")) GrantOrdinary
        else mkResolvedToolExecution
               (Ok (mkToolInvocation (ti_run_id invocation) (ti_call_id invocation)
                      (spec_verifier_id verifier)
                      (ToolArguments_from_value (spec_parameters verifier))))
               (GrantTaskContractVerifier acceptance_id (VerifierSpec_sha256 verifier))
      end
  end.

(** ** Retry backoff *)

Definition INITIAL_BACKOFF_MS : N := 1000.
Definition MAX_BACKOFF_MS : N := 60000.

(** [u64::checked_shl]: bits shifted out of the width are lost. *)
Definition checked_shl64 (a e : N) : option N :=
  if e <? 64 then Some (N.shiftl a e mod 2 ^ 64) else None.

Definition model_retry_backoff_ms (attempt : N) (retry_after_ms : option N) : N :=
  let exponent := N.min (attempt - 1) 31 in
  let policy_backoff :=
    N.min (default U64_MAX (checked_shl64 INITIAL_BACKOFF_MS exponent)) MAX_BACKOFF_MS in
  N.max policy_backoff (default 0 retry_after_ms).
