(* ===== verification/Evidence.v ===== *)
(** Evidence, retry and boundary checks of the reducer: the helper functions of
    [crates/runtime/src/store.rs] that read a snapshot and never change it. *)
From Stdlib Require Import String.
From S2P Require Import Prelude Text Json Task Protocol Validate Context Snapshot.

Open Scope string_scope.
Open Scope N_scope.

(** ** Event headers and the first transcript *)

Definition validate_event_header (event : StoredRuntimeEvent) (expected_sequence : N)
    (run_id : RunId) : result RunStoreError unit :=
  fail_if (negb ((MIN_SUPPORTED_AGENT_RUNTIME_EVENT_SCHEMA_VERSION <=? sre_schema_version event)
                 && (sre_schema_version event <=? AGENT_RUNTIME_EVENT_SCHEMA_VERSION)))
    (UnsupportedSchema (sre_schema_version event)
       MIN_SUPPORTED_AGENT_RUNTIME_EVENT_SCHEMA_VERSION AGENT_RUNTIME_EVENT_SCHEMA_VERSION) ;;
  guard_corrupt run_id (sre_run_id event !=? run_id) "event log mixes run ids" ;;
  guard_corrupt run_id (sre_sequence event !=? expected_sequence)
    ("event sequence is not contiguous: expected " ++ show_N expected_sequence ++ ", found " ++
     show_N (sre_sequence event)).

Definition initial_transcript (request : RunRequest) : CanonicalTranscript :=
  let transcript := match rr_transcript request with
                    | (EntrySystem _ :: _) as entries => entries
                    | entries => EntrySystem (rr_system_prompt request) :: entries
                    end in
  match rr_task_contract request with
  | Some contract => (transcript ++ [EntryUser (model_message (contract_definition contract))])%list
  | None => transcript
  end.

(** ** Completion decisions *)

Section evidence.
Context `{JsonLib, ProtocolCodec}.

(** The evidence receipt [receipt] proves the verifier acceptance [id] now. *)
Definition receipt_proves (snapshot : RunSnapshot) (contract : TaskContract)
    (id : AcceptanceId) (policy : VerifierEvidencePolicy) (verifier : VerifierSpec)
    (receipt : EvidenceReceipt) : bool :=
  (er_generation_id receipt ==? contract_generation_id contract)
  && (er_acceptance_id receipt ==? id)
  && (er_verifier receipt ==? verifier)
  && lineage_satisfies (er_lineage receipt) policy
  && (er_workspace_state receipt ==? sn_workspace_state snapshot).

Definition find_satisfaction (decision : CompletionDecision) (id : AcceptanceId)
    : option AcceptanceSatisfaction :=
  find_first (λ item, satisfaction_acceptance_id item ==? id) (cd_satisfied decision).

Definition has_current_verifier_satisfaction (snapshot : RunSnapshot)
    (contract : TaskContract) (decision : CompletionDecision) : bool :=
  existsb (λ acceptance,
    match acceptance with
    | AcceptHost _ _ => false
    | AcceptVerifier id _ evidence_policy verifier =>
      match find_satisfaction decision id with
      | Some (SatisfiedByEvidence _ receipt_id) =>
        existsb (λ receipt, (er_id receipt ==? receipt_id)
                  && receipt_proves snapshot contract id evidence_policy verifier receipt)
          (sn_evidence_receipts snapshot)
      | _ => false
      end
    end) (def_acceptance (contract_definition contract)).

Definition check_acceptance (snapshot : RunSnapshot) (run_id : RunId)
    (candidate : CompletionCandidate) (contract : TaskContract)
    (decision : CompletionDecision) (acceptance : TaskAcceptance)
    : result RunStoreError unit :=
  satisfaction ← some_or_corrupt run_id
    (find_satisfaction decision (acceptance_id acceptance))
    ("acceptance '" ++ acceptance_id acceptance ++ "' is not satisfied");
  match acceptance, satisfaction with
  | AcceptHost _ _, SatisfiedByHost _ receipt_id =>
    receipt ← some_or_corrupt run_id
      (find_first (λ receipt, har_id receipt ==? receipt_id)
         (sn_host_acceptance_receipts snapshot))
      "completion references an unknown Host acceptance receipt";
    let exact_current_workspace :=
      har_workspace_state receipt ==? sn_workspace_state snapshot in
    let verifier_advanced_same_revision :=
      has_current_verifier_satisfaction snapshot contract decision
      && (har_workspace_state receipt ==? cc_workspace_state candidate)
      && (checked_add64 (ws_generation (har_workspace_state receipt)) 1 ==?
          Some (ws_generation (sn_workspace_state snapshot)))
      && (ws_revision (har_workspace_state receipt) ==?
          ws_revision (sn_workspace_state snapshot)) in
    guard_corrupt run_id
      ((har_candidate_id receipt !=? cd_candidate_id decision)
       || (har_generation_id receipt !=? contract_generation_id contract)
       || negb (exact_current_workspace || verifier_advanced_same_revision))
      "Host acceptance receipt does not match the current candidate, generation, or workspace"
  | AcceptVerifier id _ evidence_policy verifier, SatisfiedByEvidence _ receipt_id =>
    receipt ← some_or_corrupt run_id
      (find_first (λ receipt, er_id receipt ==? receipt_id) (sn_evidence_receipts snapshot))
      "completion references an unknown receipt";
    guard_corrupt run_id
      (negb (receipt_proves snapshot contract id evidence_policy verifier receipt))
      "completion receipt does not match the current contract or workspace"
  | _, _ => Err (corrupt run_id "completion satisfaction kind does not match task acceptance")
  end.

Definition validate_completion_decision (snapshot : RunSnapshot) (run_id : RunId)
    (decision : CompletionDecision) : result RunStoreError unit :=
  or_corrupt run_id (CompletionDecision_validate decision) ;;
  candidate ← some_or_corrupt run_id (sn_pending_completion snapshot)
    "completed terminal has no completion candidate";
  contract ← some_or_corrupt run_id (rr_task_contract (sn_request snapshot))
    "completed Agent has no task contract";
  guard_corrupt run_id
    ((cd_candidate_id decision !=? cc_id candidate)
     || (cd_generation_id decision !=? contract_generation_id contract)
     || (cd_workspace_state decision !=? sn_workspace_state snapshot))
    "completion decision does not match the current candidate, generation, or workspace" ;;
  guard_corrupt run_id
    (negb (Nat.eqb (length (cd_satisfied decision))
             (length (def_acceptance (contract_definition contract)))))
    "completion decision does not satisfy the whole task contract" ;;
  for_each (check_acceptance snapshot run_id candidate contract decision)
    (def_acceptance (contract_definition contract)).

(** ** Verifier evidence *)

Definition verifier_artifacts_are_available (outcome : ToolOutcome)
    (observation : VerifierObservation) : bool :=
  negb (obs_artifact_ids observation ==? [])
  && (te_status (to_evidence outcome) ==? EvidenceProduced)
  && (te_references (to_evidence outcome) ==? obs_artifact_ids observation)
  && forallb (λ artifact_id,
       existsb (λ artifact,
         (tf_id artifact ==? artifact_id)
         && is_ok_and (validate_inline_verification artifact) (λ payload,
              (vap_verifier payload ==? obs_spec observation)
              && (vap_verdict payload ==? obs_verdict observation)
              && (vap_workspace_revision payload ==? obs_workspace_revision observation)))
         (to_artifacts outcome)) (obs_artifact_ids observation)
  && match obs_workspace_revision observation, to_workspace_revision outcome with
     | Known sha256, Some outcome_revision => sha256 ==? outcome_revision
     | _, _ => false
     end.

Definition workspace_revision_changed (before after : WorkspaceState) : bool :=
  match ws_revision before, ws_revision after with
  | Known before, Known after => before !=? after
  | _, _ => false
  end.

Definition failed_temporal_progress (snapshot : RunSnapshot) (outcome : ToolOutcome)
    (source : FailedVerifierSource) (workspace_state : WorkspaceState)
    (expected_acceptance : option (AcceptanceId * VerifierSpec))
    : option TemporalEvidenceProgress :=
  observation ← to_verifier_observation outcome;
  if (to_invocation outcome !=? InvocationAccepted)
     || (to_transport outcome !=? TransportSucceeded)
     || (to_operation outcome !=? OperationFailedStatus)
     || (to_side_effect outcome ==? SideEffectApplied)
     || (obs_verdict observation !=? VerdictFailed)
     || negb (verifier_artifacts_are_available outcome observation)
     || (obs_workspace_revision observation !=? ws_revision workspace_state)
  then None
  else
    contract ← rr_task_contract (sn_request snapshot);
    '(acceptance_id, verifier) ← find_map (λ acceptance,
      match acceptance with
      | AcceptVerifier id _ FailedWritePassPolicy verifier =>
        if (verifier ==? obs_spec observation)
           && is_none_or expected_acceptance (λ '(expected_id, expected_verifier),
                (id ==? expected_id) && (verifier ==? expected_verifier))
        then Some (id, verifier) else None
      | _ => None
      end) (def_acceptance (contract_definition contract));
    let failure := mkFailedVerifierEvidence source workspace_state
                     (obs_artifact_ids observation) in
    if negb (is_ok (FailedVerifierEvidence_validate failure)) then None
    else
      let progress := mkTemporalEvidenceProgress acceptance_id verifier failure None in
      if negb (is_ok (TemporalEvidenceProgress_validate progress)) then None
      else Some progress.

(** The temporal evidence a committed writer integration delegates to its child's receipt. *)
Definition delegated_lineage (snapshot : RunSnapshot) (acceptance_id : AcceptanceId)
    (verifier : VerifierSpec) (lifecycle : AgentTaskLifecycle) : option EvidenceLineage :=
  integration ← atl_integration lifecycle;
  committed ← ail_committed integration;
  if negb (is_writer lifecycle)
     || (aic_root_workspace_state_after committed !=? sn_workspace_state snapshot)
  then None
  else
    result ← atl_result lifecycle;
    child_receipt ← find_first (λ receipt,
      (er_acceptance_id receipt ==? acceptance_id)
      && (er_verifier receipt ==? verifier)
      && is_failed_write_pass (er_lineage receipt)) (ard_evidence (ao_details result));
    let integration_evidence :=
      mkWorkspaceMutationEvidence (ail_integration_id integration)
        (ail_expected_root_workspace_state integration)
        (aic_root_workspace_state_after committed) in
    if negb (is_ok (WorkspaceMutationEvidence_validate integration_evidence)) then None
    else Some (DelegatedFailedWritePass (at_child_run_id (atl_task lifecycle))
                 (er_id child_receipt) integration_evidence).

Definition expected_evidence_lineage (snapshot : RunSnapshot) (acceptance_id : AcceptanceId)
    (verifier : VerifierSpec) (policy : VerifierEvidencePolicy) : option EvidenceLineage :=
  match policy with
  | LatestPassPolicy => Some LatestPass
  | FailedWritePassPolicy =>
    match sn_temporal_evidence_progress snapshot with
    | Some progress =>
      mutation ← tep_mutation progress;
      if (tep_acceptance_id progress !=? acceptance_id)
         || (tep_verifier progress !=? verifier)
         || (ws_revision (fve_workspace_state (tep_failure progress)) ==?
             ws_revision (sn_workspace_state snapshot))
         || (ws_generation (sn_workspace_state snapshot) <?
             ws_generation (wme_after mutation))
         || (ws_revision (wme_after mutation) !=? ws_revision (sn_workspace_state snapshot))
      then None
      else Some (FailedWritePass (tep_failure progress) mutation)
    | None =>
      find_map (delegated_lineage snapshot acceptance_id verifier)
        (reverse (sn_agent_tasks snapshot))
    end
  end.

Definition check_verdict (observation : VerifierObservation) (outcome : ToolOutcome)
    : result EvidenceSealRejection unit :=
  match obs_verdict observation with
  | VerdictPassed =>
    if ToolOutcome_is_success outcome then Ok tt else Err VerifierOutcomeInconsistent
  | VerdictFailed =>
    if (to_invocation outcome ==? InvocationAccepted)
       && (to_transport outcome ==? TransportSucceeded)
       && (to_operation outcome ==? OperationFailedStatus)
    then Err VerifierFailedCause else Err VerifierOutcomeInconsistent
  | VerdictPartial => Err VerifierIncomplete
  end.

Definition receipt_id_of (verification_id : VerificationId) : EvidenceReceiptId :=
  "receipt:" ++ verification_id.

Definition seal_evidence_receipt (snapshot : RunSnapshot) (verification_id : VerificationId)
    (acceptance_id : AcceptanceId) (evidence_policy : VerifierEvidencePolicy)
    (verifier : VerifierSpec) (outcome : ToolOutcome) (workspace_state : WorkspaceState)
    : result EvidenceSealRejection EvidenceReceipt :=
  observation ← ok_or (to_verifier_observation outcome) VerifierObservationMissing;
  fail_if (obs_spec observation !=? verifier) VerifierSpecMismatch ;;
  fail_if (negb (has_stable_verifier_revision outcome
                   (ws_revision (sn_workspace_state snapshot)) (ws_revision workspace_state)))
    VerifierWorkspaceUnstable ;;
  fail_if (negb (verifier_artifacts_are_available outcome observation))
    VerifierArtifactUnavailable ;;
  check_verdict observation outcome ;;
  contract ← ok_or (rr_task_contract (sn_request snapshot)) EvidenceReceiptInvalid;
  lineage ← ok_or (expected_evidence_lineage snapshot acceptance_id verifier evidence_policy)
    EvidenceLineageUnavailable;
  let receipt := mkEvidenceReceipt (receipt_id_of verification_id)
    (contract_generation_id contract) acceptance_id verification_id verifier workspace_state
    (obs_artifact_ids observation) lineage in
  map_err (λ _, EvidenceReceiptInvalid) (EvidenceReceipt_validate receipt) ;;
  Ok receipt.
End evidence.

Definition completion_rejection_reason (verifier_id : string) (cause : EvidenceSealRejection)
    : string :=
  "Host verifier '" ++ verifier_id ++
  match cause with
  | VerifierFailedCause =>
    "' 确定性失败；必须先有效修改工作区，再在新 revision 提出完成"
  | VerifierSpecMismatch =>
    "' 的实际执行规格与冻结 TaskContract 不一致；这是 Host 契约问题，禁止重复验证"
  | VerifierWorkspaceUnstable =>
    "' 执行期间工作区 revision 不稳定；需要 Host 修复执行环境"
  | VerifierArtifactUnavailable =>
    "' 没有产生完整、可校验的证据 artifact；需要 Host 修复执行链"
  | VerifierObservationMissing =>
    "' 没有产生 typed verifier observation；需要 Host 修复执行链"
  | VerifierIncomplete => "' 只得到不完整结果；需要 Host 修复执行环境"
  | VerifierOutcomeInconsistent => "' 的 verdict 与工具结果不一致；需要 Host 修复执行链"
  | EvidenceLineageUnavailable =>
    "' 已通过，但缺少 TaskContract 要求的有序失败—修改—通过证据；禁止伪造完成"
  | EvidenceReceiptInvalid =>
    "' 的 EvidenceReceipt 无法通过 canonical 校验；需要 Host 修复验收链"
  end.

Definition completion_rejection (candidate_id : CompletionCandidateId)
    (generation_id : TaskGenerationId) (acceptance_id : AcceptanceId) (verifier_id : string)
    (cause : EvidenceSealRejection) : CompletionRejection :=
  mkCompletionRejection candidate_id generation_id [acceptance_id] cause
    (required_transition cause) (completion_rejection_reason verifier_id cause).

(** ** Model retry *)

Definition retry_policy_stop_reason (pending : PendingModelAction)
    (failure primary_failure : ModelAttemptFailure) (max_model_retries : N)
    : option ModelRetryStopReason :=
  if maf_actionable_output failure then Some StopActionableOutput
  else if negb (maf_retry_safe failure) then Some StopUnsafeReplay
  else if negb (maf_retryable failure) then Some StopNotRetryable
  else if (maf_code failure !=? maf_code primary_failure)
          || (maf_category failure !=? maf_category primary_failure)
  then Some StopFailureChanged
  else if max_model_retries <=? mr_attempt (pma_request pending)
  then Some StopRetryLimitReached else None.

Definition validate_model_failure_evidence (run_id : RunId) (failure : ModelAttemptFailure)
    : result RunStoreError unit :=
  let response := maf_response failure in
  guard_corrupt run_id
    (negb (Bool.eqb (maf_actionable_output failure) (evidence_actionable_output response))
     || negb (Bool.eqb (maf_retry_safe failure) (evidence_replay_safe response)))
    "persisted model failure summary disagrees with response evidence" ;;
  guard_corrupt run_id
    ((mre_tool_call_id_observed response || mre_tool_call_name_observed response
      || mre_tool_call_arguments_observed response) && negb (mre_tool_call_observed response))
    "persisted model failure has tool fragments without a tool call" ;;
  guard_corrupt run_id
    (mre_finish_reason_trusted response
     && (negb (mre_finish_reason_observed response) || negb (mre_stream_done_received response)))
    "persisted model failure trusts a finish reason without [DONE]" ;;
  guard_corrupt run_id
    ((evidence_actionable_output response || mre_finish_reason_observed response
      || mre_usage_received response || mre_stream_done_received response)
     && negb (mre_response_headers_received response))
    "persisted model response evidence exists before response headers" ;;
  guard_corrupt run_id
    (is_some (maf_retry_after_ms failure)
     && negb ((maf_category failure ==? CategoryRateLimit)
              || (maf_category failure ==? CategoryService)))
    "persisted retry-after hint is only valid for a retryable HTTP response" ;;
  guard_corrupt run_id
    (is_some (maf_retry_after_ms failure) && negb (mre_response_headers_received response))
    "persisted retry-after hint requires observed response headers".

Definition validate_retry_stop (run_id : RunId) (pending : PendingModelAction)
    (failure primary_failure : ModelAttemptFailure) (reason : ModelRetryStopReason)
    (max_model_retries : N) : result RunStoreError unit :=
  let valid := match retry_policy_stop_reason pending failure primary_failure max_model_retries
               with
               | Some expected => reason ==? expected
               | None => reason ==? StopModelRequestBudgetExceeded
               end in
  guard_corrupt run_id (negb valid)
    "persisted model retry stop reason disagrees with the retry policy".

Definition validate_prepared_retry (run_id : RunId) (pending : PendingModelAction)
    (failure primary_failure : ModelAttemptFailure) (prepared : PreparedModelRetry)
    (max_model_retries : N) : result RunStoreError unit :=
  guard_corrupt run_id
    (is_some (retry_policy_stop_reason pending failure primary_failure max_model_retries))
    "model retry was prepared even though the retry policy required stopping" ;;
  guard_corrupt run_id (pmr_attempt_id prepared ==? pma_attempt_id pending)
    "model retry reused the failed attempt id" ;;
  let expected_request := pma_request pending
    <| mr_attempt := sat_add32 (mr_attempt (pma_request pending)) 1 |> in
  guard_corrupt run_id (pmr_request prepared !=? expected_request)
    "prepared model retry changed fields other than the attempt number" ;;
  guard_corrupt run_id (pmr_max_retries prepared !=? max_model_retries)
    "prepared model retry changed the frozen retry limit" ;;
  let expected_backoff :=
    model_retry_backoff_ms (mr_attempt (pmr_request prepared)) (maf_retry_after_ms failure) in
  guard_corrupt run_id
    ((pmr_backoff_ms prepared !=? expected_backoff)
     || (pmr_not_before_unix_ms prepared !=?
         sat_add64 (pmr_decision_unix_ms prepared) (pmr_backoff_ms prepared)))
    "prepared model retry schedule disagrees with the retry policy".

(** ** Action boundaries *)

Definition has_unfinished_agent (snapshot : RunSnapshot) : bool :=
  existsb (λ lifecycle, is_none (atl_finished lifecycle)) (sn_agent_tasks snapshot).

Definition validate_compaction_safe_boundary (snapshot : RunSnapshot) (run_id : RunId)
    : result RunStoreError unit :=
  guard_corrupt run_id
    (is_some (sn_pending_model snapshot) || is_some (sn_pending_tool snapshot)
     || is_some (sn_pending_completion snapshot)
     || is_some (sn_pending_host_verification snapshot)
     || has_unfinished_agent snapshot
     || negb (sn_pending_steers snapshot ==? [])
     || is_some (sn_pending_control snapshot)
     || is_some (sn_last_model_failure snapshot))
    "context compaction must begin at a durable action boundary".

Definition validate_model_request_safe_boundary (snapshot : RunSnapshot) (run_id : RunId)
    : result RunStoreError unit :=
  guard_corrupt run_id
    (is_some (sn_pending_tool snapshot)
     || is_some (sn_pending_completion snapshot)
     || is_some (sn_pending_host_verification snapshot)
     || has_unfinished_agent snapshot
     || negb (sn_pending_steers snapshot ==? [])
     || is_some (sn_pending_control snapshot))
    "model request must begin at a settled durable action boundary".

Definition context_input (snapshot : RunSnapshot) (tools : list ToolDefinition) : ContextInput :=
  mkContextInput (sn_transcript snapshot) (sn_context_projection snapshot)
    (rr_task_contract (sn_request snapshot)) (sn_workspace_state snapshot)
    (sn_evidence_receipts snapshot) (sn_last_completion_rejection snapshot)
    (hvf_outcome <$> sn_last_host_verification_failure snapshot)
    (hvf_workspace_state <$> sn_last_host_verification_failure snapshot) tools.

Definition is_assistant (entry : TranscriptEntry) : bool :=
  match entry with EntryAssistant _ _ _ => true | _ => false end.
Definition entry_tool_calls (entry : TranscriptEntry) : list ModelToolCall :=
  match entry with EntryAssistant _ _ tool_calls => tool_calls | _ => [] end.
Definition is_result_of (call_id : string) (entry : TranscriptEntry) : bool :=
  match entry with EntryTool id _ _ => id ==? call_id | _ => false end.

Definition validate_tool_preparation_binding (snapshot : RunSnapshot) (run_id : RunId)
    (invocation : ToolInvocation) : result RunStoreError unit :=
  guard_corrupt run_id (ti_run_id invocation !=? run_id)
    "prepared tool invocation run id does not match its canonical run" ;;
  assistant_index ← some_or_corrupt run_id (rposition is_assistant (sn_transcript snapshot))
    "prepared tool invocation has no assistant turn";
  let tool_calls := from_option entry_tool_calls [] (sn_transcript snapshot !! assistant_index) in
  match List.filter (λ call, mtc_id call ==? ti_call_id invocation) tool_calls with
  | [call] =>
    guard_corrupt run_id
      ((mtc_name call !=? ti_name invocation) || (mtc_arguments call !=? ti_arguments invocation))
      "prepared tool invocation changed the latest assistant call identity or arguments"
  | _ => Err (corrupt run_id
      "prepared tool invocation does not bind one unique call in the latest assistant turn")
  end ;;
  guard_corrupt run_id
    (existsb (is_result_of (ti_call_id invocation))
       (drop (S assistant_index) (sn_transcript snapshot)))
    "prepared tool invocation repeats an already settled call in the latest assistant turn".

(** [pending_model_mut] and [pending_tool_mut]: the pending action an event addresses. *)
Definition pending_model_mut (snapshot : RunSnapshot) (run_id : RunId) (attempt_id : AttemptId)
    : result RunStoreError PendingModelAction :=
  pending ← some_or_corrupt run_id (sn_pending_model snapshot)
    "model event has no prepared request";
  guard_corrupt run_id (pma_attempt_id pending !=? attempt_id)
    "model event attempt id does not match pending request" ;;
  Ok pending.

Definition pending_tool_mut (snapshot : RunSnapshot) (run_id : RunId)
    (operation_id : OperationId) : result RunStoreError PendingToolAction :=
  pending ← some_or_corrupt run_id (sn_pending_tool snapshot)
    "tool event has no prepared invocation";
  guard_corrupt run_id (pta_operation_id pending !=? operation_id)
    "tool event operation id does not match pending call" ;;
  Ok pending.

Definition record_command (snapshot : RunSnapshot) (run_id : RunId) (command_id : CommandId)
    (sequence : N) (command : DurableCommand) : result RunStoreError RunSnapshot :=
  guard_corrupt run_id
    (existsb (λ receipt, cmd_command_id receipt ==? command_id) (sn_command_receipts snapshot))
    "command id was committed more than once" ;;
  Ok (snapshot <| sn_command_receipts :=
        (sn_command_receipts snapshot ++ [mkCommandReceipt command_id sequence command])%list |>).
