(* ===== verification/RunEvents.v ===== *)
(** The reducer's handlers for model, tool, interaction, verification, completion and
    command events: the arms of [apply_event] in [crates/runtime/src/store.rs] that concern
    the run's own turn loop.

    A handler takes the snapshot before the event and returns the snapshot after it, or the
    error the source returns.  The source mutates the snapshot in place and may leave it half
    updated when it fails; no caller reads it again (both stores drop the candidate), so the
    error alone is the result here. *)
From Stdlib Require Import String.
From S2P Require Import Prelude Text Json Task Protocol Validate Context Snapshot Evidence.

Open Scope string_scope.
Open Scope N_scope.

(** [Option::expect]: a panic of the source is an error of its own. *)
Definition panicked (message : string) : RunStoreError := Backend ("panicked: " ++ message).
Definition expect_contract (snapshot : RunSnapshot) : result RunStoreError TaskContract :=
  ok_or (rr_task_contract (sn_request snapshot))
    (panicked "Agent contract validated at run creation").

Definition push_entry (snapshot : RunSnapshot) (entry : TranscriptEntry) : RunSnapshot :=
  snapshot <| sn_transcript := (sn_transcript snapshot ++ [entry])%list |>.

(** ** Model requests *)

Section model_events.
Context `{JsonLib, ProtocolCodec, ContextCodec}.

Definition map_context_error {A} (run_id : RunId) (r : result ContextProjectionError A)
    : result RunStoreError A :=
  map_err (λ e, corrupt run_id (ContextProjectionError_to_string e)) r.

Definition on_context_compaction_committed (snapshot : RunSnapshot) (run_id : RunId)
    (sequence : N) (projection : ContextProjection) (tools : list ToolDefinition)
    (accounting : ModelAccounting) (before_tokens after_tokens : N)
    : result RunStoreError RunSnapshot :=
  validate_compaction_safe_boundary snapshot run_id ;;
  let input := context_input snapshot tools in
  current ← map_context_error run_id (effective_context input);
  guard_corrupt run_id
    ((cp_source_entry_count projection !=? ec_source_entry_count current)
     || (cp_source_projection_sha256 projection !=? ec_sha256 current))
    "context compaction projection does not describe the current effective context" ;;
  guard_corrupt run_id (accounting !=? sn_accounting snapshot)
    "deterministic context compaction changed model accounting" ;;
  preparation ← map_context_error run_id
    (prepare_compaction input (rr_context_policy (sn_request snapshot)));
  guard_corrupt run_id
    (negb match preparation with
          | CompactionLocal expected_projection expected_before expected_after =>
            (expected_projection ==? projection) && (expected_before =? before_tokens)
            && (expected_after =? after_tokens)
          | _ => false
          end)
    "context compaction commit does not match the deterministic broker" ;;
  expected_after ← map_context_error run_id (estimate_projection_tokens input projection);
  guard_corrupt run_id
    (negb (expected_after =? after_tokens)
     || negb (before_tokens =? ec_estimated_tokens current))
    "context compaction token estimates do not match the committed projection" ;;
  guard_corrupt run_id
    ((before_tokens <=? after_tokens)
     || (hard_input_tokens (rr_context_policy (sn_request snapshot)) <? after_tokens))
    "context compaction must reduce input below the configured hard limit" ;;
  Ok (snapshot
      <| sn_context_projection := Some projection |>
      <| sn_accounting := accounting |>
      <| sn_last_context_compaction :=
           Some (mkCommittedContextCompaction (cp_source_projection_sha256 projection)
                   before_tokens after_tokens sequence) |>).

Definition on_model_request_prepared (snapshot : RunSnapshot) (run_id : RunId)
    (sequence : N) (attempt_id : AttemptId) (request : ModelRequest)
    : result RunStoreError RunSnapshot :=
  guard_corrupt run_id (is_some (sn_pending_model snapshot))
    "model request prepared while another model request is pending" ;;
  guard_corrupt run_id (mr_run_id request !=? run_id)
    "prepared model request belongs to another run" ;;
  guard_corrupt run_id (negb (mr_attempt request =? 0))
    "standalone model request prepared event must start at attempt zero" ;;
  validate_model_request_safe_boundary snapshot run_id ;;
  effective ← map_context_error run_id
    (effective_context (context_input snapshot (mr_tools request)));
  let run := sn_request snapshot in
  guard_corrupt run_id
    ((mr_parent_run_id request !=? rr_parent_run_id run)
     || (mr_actor request !=? rr_actor run)
     || (mr_model request !=? rr_model run)
     || (mr_system_prompt request !=? ec_system_prompt effective)
     || (mr_messages request !=? ec_messages effective)
     || (mr_reasoning_effort request !=? rr_reasoning_effort run)
     || (mr_max_output_tokens request !=? rr_max_output_tokens run)
     || negb (Bool.eqb (mr_streaming request) (rr_streaming run))
     || negb (mr_request_number request =? sat_add32 (sn_local_turns snapshot) 1))
    "ordinary model request does not match the canonical run projection" ;;
  Ok (snapshot
      <| sn_local_turns := N.max (sn_local_turns snapshot) (mr_request_number request) |>
      <| sn_runtime_model_requests := sat_add32 (sn_runtime_model_requests snapshot) 1 |>
      <| sn_last_model_activity_sequence := Some sequence |>
      <| sn_last_model_failure := None |>
      <| sn_pending_model :=
           Some (mkPendingModelAction attempt_id request None None Prepared) |>).

Definition on_model_request_in_flight (snapshot : RunSnapshot) (run_id : RunId)
    (attempt_id : AttemptId) : result RunStoreError RunSnapshot :=
  pending ← pending_model_mut snapshot run_id attempt_id;
  guard_corrupt run_id (pma_state pending !=? Prepared)
    "model request entered in_flight twice" ;;
  Ok (snapshot <| sn_pending_model := Some (pending <| pma_state := InFlight |>) |>).

Definition on_model_request_failed (snapshot : RunSnapshot) (run_id : RunId) (sequence : N)
    (attempt_id : AttemptId) (failure : ModelAttemptFailure) (accounting : ModelAccounting)
    (retry : ModelRetryDecision) : result RunStoreError RunSnapshot :=
  pending ← pending_model_mut snapshot run_id attempt_id;
  guard_corrupt run_id (pma_state pending !=? InFlight)
    "model request failed before transport began" ;;
  validate_model_failure_evidence run_id failure ;;
  let primary_failure := default failure (pma_primary_failure pending) in
  let max_model_retries := lim_max_model_retries (rr_limits (sn_request snapshot)) in
  match retry with
  | RetryStop reason =>
    validate_retry_stop run_id pending failure primary_failure reason max_model_retries
  | RetryPrepared prepared =>
    validate_prepared_retry run_id pending failure primary_failure prepared max_model_retries
  end ;;
  let snapshot := snapshot
    <| sn_pending_model := None |>
    <| sn_accounting := accounting |>
    <| sn_last_model_activity_sequence := Some sequence |> in
  Ok match retry with
     | RetryStop reason =>
       snapshot <| sn_last_model_failure :=
         Some (mkStoppedModelFailure primary_failure reason) |>
     | RetryPrepared prepared =>
       snapshot
       <| sn_runtime_model_requests := sat_add32 (sn_runtime_model_requests snapshot) 1 |>
       <| sn_runtime_retries := sat_add32 (sn_runtime_retries snapshot) 1 |>
       <| sn_last_model_failure := None |>
       <| sn_pending_model :=
            Some (mkPendingModelAction (pmr_attempt_id prepared) (pmr_request prepared)
                    (Some primary_failure)
                    (Some (mkPreparedModelRetrySchedule (pmr_decision_unix_ms prepared)
                             (pmr_backoff_ms prepared) (pmr_not_before_unix_ms prepared)
                             (pmr_max_retries prepared))) Prepared) |>
     end.

Definition on_model_response_committed (snapshot : RunSnapshot) (run_id : RunId)
    (sequence : N) (attempt_id : AttemptId) (output : ModelOutput)
    (accounting : ModelAccounting) : result RunStoreError RunSnapshot :=
  pending ← pending_model_mut snapshot run_id attempt_id;
  guard_corrupt run_id (pma_state pending !=? InFlight)
    "model response committed before transport began" ;;
  let snapshot := snapshot
    <| sn_pending_model := None |>
    <| sn_usage := Usage_add (sn_usage snapshot) (mo_usage output) |>
    <| sn_accounting := accounting |>
    <| sn_last_model_output := Some output |>
    <| sn_last_model_advertised_tool_names := td_name <$> mr_tools (pma_request pending) |>
    <| sn_last_model_response_sequence := Some sequence |>
    <| sn_last_model_activity_sequence := Some sequence |>
    <| sn_last_model_failure := None |> in
  Ok (push_entry snapshot
        (EntryAssistant (if is_empty_str (mo_content output) then None
                         else Some (mo_content output))
           (mo_reasoning_content output) (mo_tool_calls output))).

Definition on_model_delta (snapshot : RunSnapshot) (run_id : RunId) (attempt_id : AttemptId)
    : result RunStoreError RunSnapshot :=
  pending ← pending_model_mut snapshot run_id attempt_id;
  guard_corrupt run_id (pma_state pending !=? InFlight)
    "model delta appeared before transport began" ;;
  Ok snapshot.
End model_events.

(** ** Tool calls and interactions *)

Section tool_events.
Context `{JsonLib, TaskCodec, ProtocolCodec}.

Definition on_tool_prepared (snapshot : RunSnapshot) (run_id : RunId)
    (operation_id : OperationId) (invocation : ToolInvocation)
    (workspace_access : WorkspaceAccess) : result RunStoreError RunSnapshot :=
  guard_corrupt run_id (is_some (sn_pending_tool snapshot))
    "tool prepared while another durable action is pending" ;;
  validate_tool_preparation_binding snapshot run_id invocation ;;
  Ok (snapshot
      <| sn_tool_calls := sat_add32 (sn_tool_calls snapshot) 1 |>
      <| sn_pending_tool :=
           Some (mkPendingToolAction operation_id invocation workspace_access None Prepared
                   None) |>).

Definition on_tool_authorization_committed (snapshot : RunSnapshot) (run_id : RunId)
    (operation_id : OperationId) (decision : ToolAuthorizationDecision)
    : result RunStoreError RunSnapshot :=
  pending ← some_or_corrupt run_id (sn_pending_tool snapshot)
    "tool authorization committed without a prepared invocation";
  let resolved_execution :=
    resolve_tool_execution (rr_task_contract (sn_request snapshot)) (pta_invocation pending) in
  execution_invocation ← or_corrupt run_id (rte_invocation resolved_execution);
  pending ← pending_tool_mut snapshot run_id operation_id;
  guard_corrupt run_id (pta_state pending !=? Prepared)
    "tool authorization committed after execution began" ;;
  guard_corrupt run_id (is_some (pta_authorization pending))
    "tool authorization committed more than once" ;;
  or_corrupt run_id
    (validate_for decision (rte_grant resolved_execution) execution_invocation
       (sn_workspace_state snapshot)) ;;
  guard_corrupt run_id
    (tad_mode decision !=? env_permission_mode (rr_environment (sn_request snapshot)))
    "tool authorization mode differs from the frozen Run permission" ;;
  Ok (snapshot <| sn_pending_tool :=
        Some (pending <| pta_authorization := Some decision |>) |>).

Definition check_interaction_prompt (snapshot : RunSnapshot) (run_id : RunId)
    (pending : PendingToolAction) (request : UserInteractionRequest)
    : result RunStoreError unit :=
  let interactive_root :=
    (actor_kind (rr_actor (sn_request snapshot)) ==? ActorRoot)
    && env_interactive (rr_environment (sn_request snapshot)) in
  match uireq_prompt request with
  | PromptApproval prompt arguments =>
    guard_corrupt run_id (uireq_tool_name request ==? REQUEST_USER_INPUT_TOOL_NAME)
      "request_user_input requires a user-input interaction" ;;
    guard_corrupt run_id
      (ta_parsed (ti_arguments (pta_invocation pending)) !=? Some arguments)
      "approval arguments do not match the prepared tool invocation" ;;
    authorization ← some_or_corrupt run_id (pta_authorization pending)
      "approval interaction has no committed tool authorization";
    guard_corrupt run_id
      ((tad_disposition authorization !=? DispositionAsk)
       || (tad_prompt authorization !=? Some prompt))
      "approval interaction differs from committed authorization"
  | PromptUserInput user_input =>
    guard_corrupt run_id
      ((uireq_tool_name request !=? REQUEST_USER_INPUT_TOOL_NAME) || negb interactive_root)
      "user-input interaction is only valid for an interactive root request_user_input call" ;;
    or_corrupt run_id (UserInputRequest_validate user_input) ;;
    arguments ← some_or_corrupt run_id (ta_parsed (ti_arguments (pta_invocation pending)))
      "request_user_input requires parsed tool arguments";
    decoded ← map_err (λ error, corrupt run_id
        ("request_user_input arguments are not a valid request: " ++ error))
      (decode_user_input_request arguments);
    guard_corrupt run_id (decoded !=? user_input)
      "user-input request does not match the prepared tool invocation"
  end.

Definition on_interaction_requested (snapshot : RunSnapshot) (run_id : RunId)
    (request : UserInteractionRequest) : result RunStoreError RunSnapshot :=
  pending ← pending_tool_mut snapshot run_id (uireq_operation_id request);
  guard_corrupt run_id
    ((ti_call_id (pta_invocation pending) !=? uireq_call_id request)
     || (ti_name (pta_invocation pending) !=? uireq_tool_name request))
    "interaction request identity does not match the prepared tool" ;;
  guard_corrupt run_id (pta_state pending !=? Prepared)
    "interaction requested after tool execution began" ;;
  guard_corrupt run_id (is_some (pta_interaction pending))
    "tool requested more than one interaction" ;;
  check_interaction_prompt snapshot run_id pending request ;;
  Ok (snapshot <| sn_pending_tool :=
        Some (pending <| pta_interaction := Some (mkPendingUserInteraction request None) |>) |>).

Definition on_interaction_resolved (snapshot : RunSnapshot) (run_id : RunId) (sequence : N)
    (command_id : CommandId) (interaction_id : InteractionId)
    (response : UserInteractionResponse) : result RunStoreError RunSnapshot :=
  pending ← some_or_corrupt run_id (sn_pending_tool snapshot)
    "interaction resolved without a pending tool";
  interaction ← some_or_corrupt run_id (pta_interaction pending)
    "interaction resolved before it was requested";
  guard_corrupt run_id (uireq_interaction_id (pui_request interaction) !=? interaction_id)
    "interaction resolution id does not match the pending request" ;;
  guard_corrupt run_id (is_some (pui_response interaction))
    "interaction was resolved more than once" ;;
  or_corrupt run_id (validate_response (pui_request interaction) response) ;;
  snapshot ← record_command snapshot run_id command_id sequence
    (CommandResolveInteraction interaction_id response);
  Ok (snapshot <| sn_pending_tool :=
        Some (pending <| pta_interaction :=
                Some (interaction <| pui_response := Some response |>) |>) |>).

Definition is_approved_approval (interaction : PendingUserInteraction) : bool :=
  match uireq_prompt (pui_request interaction), pui_response interaction with
  | PromptApproval _ _, Some ResponseApproved => true
  | _, _ => false
  end.

Definition is_host_tool (name : string) : bool :=
  (name ==? AGENT_TOOL_NAME) || (name ==? REQUEST_USER_INPUT_TOOL_NAME).

Definition on_tool_execution_started (snapshot : RunSnapshot) (run_id : RunId)
    (operation_id : OperationId) : result RunStoreError RunSnapshot :=
  pending ← pending_tool_mut snapshot run_id operation_id;
  guard_corrupt run_id (pta_state pending !=? Prepared)
    "tool execution entered in_flight twice" ;;
  guard_corrupt run_id
    (is_some_and (pta_interaction pending) (λ i, negb (is_approved_approval i)))
    "tool execution began without an approved interaction" ;;
  (if is_host_tool (ti_name (pta_invocation pending)) then Ok tt
   else
     authorization ← some_or_corrupt run_id (pta_authorization pending)
       "executable tool started without committed authorization";
     match tad_disposition authorization with
     | DispositionAllow =>
       guard_corrupt run_id (is_some (pta_interaction pending))
         "allowed tool unexpectedly carried an approval interaction"
     | DispositionAsk =>
       guard_corrupt run_id
         (negb (is_some_and (pta_interaction pending)
                  (λ i, pui_response i ==? Some ResponseApproved)))
         "ask-authorized tool started without exact approval"
     | DispositionDeny =>
       Err (corrupt run_id "denied tool authorization reached execution start")
     end) ;;
  Ok (snapshot <| sn_pending_tool := Some (pending <| pta_state := InFlight |>) |>).

(** ** Tool outcomes *)

Definition check_tool_outcome_lifecycle (run_id : RunId) (pending : PendingToolAction)
    (outcome : ToolOutcome) : result RunStoreError unit :=
  guard_corrupt run_id
    ((pta_state pending ==? InFlight)
     && ((to_invocation outcome ==? InvocationRejectedStatus)
         || (to_transport outcome ==? TransportNotStarted)
         || (to_operation outcome ==? OperationNotStarted)))
    "an in-flight tool cannot commit a preflight rejection lifecycle" ;;
  guard_corrupt run_id
    ((pta_state pending ==? Prepared) && is_none (pta_interaction pending)
     && (to_invocation outcome !=? InvocationRejectedStatus))
    "an unstarted tool can only commit a preflight rejection" ;;
  match pta_interaction pending with
  | None => Ok tt
  | Some interaction =>
    match uireq_prompt (pui_request interaction), pui_response interaction, pta_state pending
    with
    | _, None, _ =>
      guard_corrupt run_id (to_operation outcome !=? OperationCancelled)
        "tool interaction was bypassed without cancellation"
    | PromptApproval _ _, Some ResponseApproved, Prepared =>
      guard_corrupt run_id (to_failure_code outcome !=? Some AuthorizationStale)
        "approved tool committed an outcome before execution began"
    | PromptApproval _ _, Some (ResponseDenied _ | ResponseCancelled), _ =>
      guard_corrupt run_id (to_invocation outcome !=? InvocationRejectedStatus)
        "denied or cancelled approval must commit a rejected tool outcome"
    | _, _, _ => Ok tt
    end
  end ;;
  guard_corrupt run_id
    ((pta_workspace_access pending ==? WorkspaceReadOnly)
     && negb (is_host_tool (ti_name (pta_invocation pending)))
     && ((to_side_effect outcome ==? SideEffectApplied)
         || (to_side_effect outcome ==? SideEffectIndeterminate)))
    "read-only executable tool outcome cannot claim an applied or indeterminate workspace side effect".

Definition settles_agent_call (pending : PendingToolAction) : bool :=
  ti_name (pta_invocation pending) ==? AGENT_TOOL_NAME.

Definition settled_agent_lifecycle (snapshot : RunSnapshot) (pending : PendingToolAction)
    : option AgentTaskLifecycle :=
  if settles_agent_call pending
  then find_first (λ lifecycle, at_call_id (atl_task lifecycle) ==?
                     ti_call_id (pta_invocation pending)) (sn_agent_tasks snapshot)
  else None.

Definition rejected_without_effect (outcome : ToolOutcome) : bool :=
  (to_operation outcome !=? OperationSucceeded)
  && (to_side_effect outcome ==? SideEffectNotApplied).

Definition check_agent_call_settlement (snapshot : RunSnapshot) (run_id : RunId)
    (pending : PendingToolAction) (outcome : ToolOutcome) : result RunStoreError unit :=
  if negb (settles_agent_call pending) then Ok tt
  else
    match settled_agent_lifecycle snapshot pending with
    | None =>
      guard_corrupt run_id (negb (rejected_without_effect outcome))
        "agent tool outcome without a lifecycle must prove preflight rejection without side effects"
    | Some lifecycle =>
      match awa_access (at_workspace (atl_task lifecycle)) with
      | AccessReadOnly =>
        guard_corrupt run_id
          (is_none (atl_child_started lifecycle) && is_none (atl_finished lifecycle))
          "read-only agent launch outcome committed before child start"
      | AccessIsolatedWrite =>
        guard_corrupt run_id (is_none (atl_finished lifecycle))
          "writer agent tool outcome committed before its canonical child lifecycle finished"
      end
    end.

(** A mutating tool may leave the workspace state alone only in these cases. *)
Definition may_omit_workspace_state (snapshot : RunSnapshot) (pending : PendingToolAction)
    (outcome : ToolOutcome) : bool :=
  let lifecycle := settled_agent_lifecycle snapshot pending in
  let rejected_before_lifecycle :=
    settles_agent_call pending && is_none lifecycle && rejected_without_effect outcome in
  let failed_writer_without_integration := is_some_and lifecycle (λ l,
    is_writer l && is_none (atl_integration l)
    && is_some_and (atl_result l) (λ result, negb (is_completed (ao_terminal result)))) in
  let writer_integration_failed := is_some_and lifecycle (λ l,
    is_writer l && is_some_and (atl_integration l) (λ i, is_some (ail_failure i))) in
  let unintegrated_writer_recovery :=
    is_some_and lifecycle is_unintegrated_writer_recovery in
  ((failed_writer_without_integration || writer_integration_failed
    || rejected_before_lifecycle) && (to_side_effect outcome ==? SideEffectNotApplied))
  || ((pta_state pending ==? Prepared) && (to_side_effect outcome ==? SideEffectNotApplied))
  || (unintegrated_writer_recovery
      && (pta_state pending ==? InFlight)
      && (to_invocation outcome ==? InvocationAccepted)
      && (to_transport outcome ==? TransportIndeterminate)
      && (to_operation outcome ==? OperationCancelled)
      && (to_side_effect outcome ==? SideEffectIndeterminate)
      && (to_retry outcome ==? RetryUnsafe)
      && is_none (to_workspace_revision outcome)).

(** The workspace state after the outcome. *)
Definition settle_workspace (snapshot : RunSnapshot) (run_id : RunId)
    (pending : PendingToolAction) (outcome : ToolOutcome)
    (workspace_state : option WorkspaceState) : result RunStoreError WorkspaceState :=
  let lifecycle := settled_agent_lifecycle snapshot pending in
  let is_writer_call := is_some_and lifecycle is_writer in
  let integrated_writer_state :=
    l ← lifecycle;
    if is_writer l then
      integration ← atl_integration l;
      committed ← ail_committed integration;
      Some (aic_root_workspace_state_after committed)
    else None in
  match pta_workspace_access pending, workspace_state with
  | WorkspaceReadOnly, None => Ok (sn_workspace_state snapshot)
  | WorkspaceReadOnly, Some _ =>
    Err (corrupt run_id "read-only tool outcome cannot advance workspace state")
  | WorkspaceMayWrite, None =>
    if may_omit_workspace_state snapshot pending outcome then Ok (sn_workspace_state snapshot)
    else Err (corrupt run_id "workspace-mutating tool outcome must settle workspace state")
  | WorkspaceMayWrite, Some state =>
    guard_corrupt run_id (pta_state pending !=? InFlight)
      "unstarted workspace-mutating tool cannot settle workspace state" ;;
    guard_corrupt run_id
      (settles_agent_call pending
       && is_some_and integrated_writer_state (λ integrated, integrated !=? state))
      "writer agent tool outcome does not settle the integrated root state" ;;
    guard_corrupt run_id
      (settles_agent_call pending && is_writer_call && is_none integrated_writer_state)
      "unintegrated writer agent tool outcome cannot advance the root workspace" ;;
    or_corrupt run_id (WorkspaceState_validate state) ;;
    guard_corrupt run_id
      (negb (ws_generation state =?
             sat_add64 (ws_generation (sn_workspace_state snapshot)) 1))
      "workspace-mutating tool outcome did not advance one generation" ;;
    Ok state
  end.

(** The failure/mutation progress after the workspace moved from [before] to the state of
    [snapshot]. *)
Definition advance_temporal_progress (snapshot : RunSnapshot) (run_id : RunId)
    (pending : PendingToolAction) (operation_id : OperationId) (name : string)
    (outcome : ToolOutcome) (before : WorkspaceState) : result RunStoreError RunSnapshot :=
  let revision_changed := workspace_revision_changed before (sn_workspace_state snapshot) in
  guard_corrupt run_id
    (revision_changed && (to_side_effect outcome ==? SideEffectNotApplied))
    "tool reporting no side effect cannot settle a changed workspace revision" ;;
  let is_temporal_verifier := is_some_and (sn_temporal_evidence_progress snapshot)
    (λ progress, name ==? spec_verifier_id (tep_verifier progress)) in
  let effective_mutation :=
    (pta_workspace_access pending ==? WorkspaceMayWrite)
    && (pta_state pending ==? InFlight)
    && (to_invocation outcome ==? InvocationAccepted)
    && (to_transport outcome ==? TransportSucceeded)
    && (to_side_effect outcome ==? SideEffectApplied)
    && negb is_temporal_verifier && revision_changed in
  if revision_changed && negb effective_mutation
  then Ok (snapshot <| sn_temporal_evidence_progress := None |>)
  else if effective_mutation then
    match sn_temporal_evidence_progress snapshot with
    | None => Ok snapshot
    | Some progress =>
      let mutation := mkWorkspaceMutationEvidence operation_id before
                        (sn_workspace_state snapshot) in
      or_corrupt run_id (WorkspaceMutationEvidence_validate mutation) ;;
      if ws_generation (fve_workspace_state (tep_failure progress)) <=?
         ws_generation (wme_before mutation)
      then
        let progress := progress <| tep_mutation := Some mutation |> in
        or_corrupt run_id (TemporalEvidenceProgress_validate progress) ;;
        Ok (snapshot <| sn_temporal_evidence_progress := Some progress |>)
      else Ok snapshot
    end
  else Ok snapshot.

Definition authorized_verifier_observation (snapshot : RunSnapshot)
    (pending : PendingToolAction) (name : string) (outcome : ToolOutcome)
    (before : WorkspaceState) : bool :=
  is_none_or (to_verifier_observation outcome) (λ observation,
    (pta_state pending ==? InFlight)
    && (name ==? spec_verifier_id (obs_spec observation))
    && (to_invocation outcome ==? InvocationAccepted)
    && (to_transport outcome ==? TransportSucceeded)
    && has_stable_verifier_revision outcome (ws_revision before)
         (ws_revision (sn_workspace_state snapshot))
    && verifier_artifacts_are_available outcome observation
    && match obs_verdict observation, to_operation outcome with
       | VerdictPassed, OperationSucceeded | VerdictFailed, OperationFailedStatus => true
       | _, _ => false
       end).

Definition on_tool_outcome_committed (snapshot : RunSnapshot) (run_id : RunId)
    (operation_id : OperationId) (call_id name : string) (outcome : ToolOutcome)
    (workspace_state : option WorkspaceState) : result RunStoreError RunSnapshot :=
  let before := sn_workspace_state snapshot in
  or_corrupt run_id (ToolOutcome_validate outcome) ;;
  pending ← pending_tool_mut snapshot run_id operation_id;
  guard_corrupt run_id
    ((ti_call_id (pta_invocation pending) !=? call_id)
     || (ti_name (pta_invocation pending) !=? name))
    "tool outcome identity does not match prepared call" ;;
  check_tool_outcome_lifecycle run_id pending outcome ;;
  check_agent_call_settlement snapshot run_id pending outcome ;;
  after ← settle_workspace snapshot run_id pending outcome workspace_state;
  let snapshot := snapshot <| sn_workspace_state := after |> in
  snapshot ← advance_temporal_progress snapshot run_id pending operation_id name outcome before;
  guard_corrupt run_id
    (negb (authorized_verifier_observation snapshot pending name outcome before))
    "tool verifier observation does not match an exact deterministic execution" ;;
  let deterministic_verifier_failure :=
    (pta_workspace_access pending ==? WorkspaceMayWrite)
    && (pta_state pending ==? InFlight)
    && is_some_and (to_verifier_observation outcome)
         (λ observation, name ==? spec_verifier_id (obs_spec observation)) in
  let snapshot :=
    if deterministic_verifier_failure then
      match failed_temporal_progress snapshot outcome (SourceTool operation_id)
              (sn_workspace_state snapshot) None with
      | Some progress => snapshot <| sn_temporal_evidence_progress := Some progress |>
      | None => snapshot
      end
    else snapshot in
  Ok (push_entry (snapshot <| sn_pending_tool := None |>) (EntryTool call_id name outcome)).

Definition on_workspace_observed (snapshot : RunSnapshot) (run_id : RunId)
    (workspace_state : WorkspaceState) : result RunStoreError RunSnapshot :=
  or_corrupt run_id (WorkspaceState_validate workspace_state) ;;
  let current := sn_workspace_state snapshot in
  let next := sat_add64 (ws_generation current) 1 in
  let expected_generation :=
    match ws_revision current, ws_revision workspace_state with
    | Known previous, Known observed =>
      if previous ==? observed then ws_generation current else next
    | _, _ => next
    end in
  guard_corrupt run_id (negb (ws_generation workspace_state =? expected_generation))
    "workspace observation carries an invalid generation" ;;
  let snapshot := if ws_revision current !=? ws_revision workspace_state
                  then snapshot <| sn_temporal_evidence_progress := None |> else snapshot in
  Ok (snapshot <| sn_workspace_state := workspace_state |>).
End tool_events.

(** ** Completion and Host verification *)

Section completion_events.
Context `{JsonLib, ProtocolCodec}.

Definition candidate_id_of (model_response_sequence : N) : CompletionCandidateId :=
  "completion-" ++ show_N model_response_sequence.

Definition on_completion_proposed (snapshot : RunSnapshot) (run_id : RunId)
    (candidate : CompletionCandidate) : result RunStoreError RunSnapshot :=
  or_corrupt run_id (CompletionCandidate_validate candidate) ;;
  model_response_sequence ← some_or_corrupt run_id (sn_last_model_response_sequence snapshot)
    "completion proposal has no committed model response origin";
  model_output ← some_or_corrupt run_id (sn_last_model_output snapshot)
    "completion proposal has no committed model output origin";
  guard_corrupt run_id
    ((sn_last_model_activity_sequence snapshot !=? Some model_response_sequence)
     || is_some (sn_pending_model snapshot)
     || is_some (sn_pending_tool snapshot)
     || negb (sn_pending_steers snapshot ==? [])
     || is_some (sn_pending_control snapshot)
     || negb (pending_child_run_ids snapshot ==? [])
     || (mo_finish_reason model_output !=? FinishStop)
     || negb (mo_tool_calls model_output ==? [])
     || trim_is_empty (mo_content model_output)
     || (cc_id candidate !=? candidate_id_of model_response_sequence)
     || (cc_message candidate !=? mo_content model_output)
     || is_some_and (sn_last_completion_rejection snapshot) (λ rejection,
          (cr_candidate_id rejection ==? cc_id candidate)
          && (cr_generation_id rejection ==? cc_generation_id candidate)))
    "completion proposal does not match the current actionable model Stop" ;;
  contract ← expect_contract snapshot;
  guard_corrupt run_id (cc_generation_id candidate !=? contract_generation_id contract)
    "completion candidate belongs to another task generation" ;;
  guard_corrupt run_id (cc_workspace_state candidate !=? sn_workspace_state snapshot)
    "completion candidate does not bind the current workspace state" ;;
  guard_corrupt run_id (is_some (sn_pending_completion snapshot))
    "completion proposal cannot replace an existing pending candidate" ;;
  Ok (snapshot <| sn_pending_completion := Some candidate |>).

Definition host_receipt_id_of (command_id : CommandId) : HostAcceptanceReceiptId :=
  "host-acceptance:" ++ command_id.

Definition on_host_completion_accepted (snapshot : RunSnapshot) (run_id : RunId)
    (sequence : N) (command_id : CommandId) (receipt : HostAcceptanceReceipt)
    : result RunStoreError RunSnapshot :=
  or_corrupt run_id (HostAcceptanceReceipt_validate receipt) ;;
  candidate ← some_or_corrupt run_id (sn_pending_completion snapshot)
    "Host completion acceptance has no pending candidate";
  contract ← expect_contract snapshot;
  guard_corrupt run_id
    ((har_id receipt !=? host_receipt_id_of command_id)
     || (har_candidate_id receipt !=? cc_id candidate)
     || (har_generation_id receipt !=? contract_generation_id contract)
     || (har_workspace_state receipt !=? cc_workspace_state candidate)
     || (har_workspace_state receipt !=? sn_workspace_state snapshot)
     || negb (existsb is_host_acceptance (def_acceptance (contract_definition contract))))
    "Host completion acceptance does not match the current candidate, generation, workspace, or contract" ;;
  snapshot ← record_command snapshot run_id command_id sequence
    (CommandAcceptCompletion
       (mkHostCompletionAcceptance (har_candidate_id receipt) (har_generation_id receipt)
          (har_workspace_state receipt)));
  guard_corrupt run_id
    (existsb (λ existing, har_id existing ==? har_id receipt)
       (sn_host_acceptance_receipts snapshot))
    "Host completion acceptance receipt appears more than once" ;;
  Ok (snapshot <| sn_host_acceptance_receipts :=
        (sn_host_acceptance_receipts snapshot ++ [receipt])%list |>).

Definition acceptance_matches (acceptance_id : AcceptanceId) (verifier : VerifierSpec)
    (acceptance : TaskAcceptance) : option VerifierEvidencePolicy :=
  match acceptance with
  | AcceptVerifier id _ evidence_policy expected =>
    if (id ==? acceptance_id) && (expected ==? verifier) then Some evidence_policy else None
  | AcceptHost _ _ => None
  end.

Definition on_host_verification_prepared (snapshot : RunSnapshot) (run_id : RunId)
    (verification_id : VerificationId) (candidate : CompletionCandidate)
    (acceptance_id : AcceptanceId) (verifier : VerifierSpec)
    (workspace_state_before : WorkspaceState) : result RunStoreError RunSnapshot :=
  guard_corrupt run_id (is_some (sn_pending_host_verification snapshot))
    "Host verification prepared twice" ;;
  guard_corrupt run_id (sn_pending_completion snapshot !=? Some candidate)
    "Host verification does not match the pending completion candidate" ;;
  contract ← expect_contract snapshot;
  let matches_acceptance :=
    existsb (λ acceptance, is_some (acceptance_matches acceptance_id verifier acceptance))
      (def_acceptance (contract_definition contract)) in
  guard_corrupt run_id
    (negb matches_acceptance || (workspace_state_before !=? sn_workspace_state snapshot))
    "Host verification does not match the contract or current workspace" ;;
  guard_corrupt run_id (cc_workspace_state candidate !=? workspace_state_before)
    "Host verification candidate is stale for the prepared workspace" ;;
  Ok (snapshot <| sn_pending_host_verification :=
        Some (mkPendingHostVerification verification_id candidate acceptance_id verifier
                workspace_state_before Prepared) |>).

Definition on_host_verification_started (snapshot : RunSnapshot) (run_id : RunId)
    (verification_id : VerificationId) : result RunStoreError RunSnapshot :=
  pending ← some_or_corrupt run_id (sn_pending_host_verification snapshot)
    "Host verification started before preparation";
  guard_corrupt run_id
    ((phv_verification_id pending !=? verification_id)
     || (phv_state pending !=? Prepared)
     || (phv_workspace_state_before pending !=? sn_workspace_state snapshot))
    "Host verification start does not match the prepared action" ;;
  Ok (snapshot <| sn_pending_host_verification :=
        Some (pending <| phv_state := InFlight |>) |>).

(** The outcome of sealing against the receipt the event carries. *)
Definition settle_verification (snapshot : RunSnapshot) (run_id : RunId)
    (verification_id : VerificationId) (outcome : ToolOutcome)
    (receipt : option EvidenceReceipt) (workspace_state_after : WorkspaceState)
    (pending : PendingHostVerification) (generation_id : TaskGenerationId)
    (evidence_policy : VerifierEvidencePolicy) : result RunStoreError RunSnapshot :=
  match seal_evidence_receipt snapshot verification_id (phv_acceptance_id pending)
          evidence_policy (phv_verifier pending) outcome workspace_state_after, receipt with
  | Ok expected, Some receipt =>
    guard_corrupt run_id (expected !=? receipt)
      "Host verification receipt does not equal the canonical seal result" ;;
    guard_corrupt run_id
      (existsb (λ existing, er_id existing ==? er_id receipt) (sn_evidence_receipts snapshot))
      "evidence receipt id was committed twice" ;;
    Ok (snapshot
        <| sn_evidence_receipts := (sn_evidence_receipts snapshot ++ [receipt])%list |>
        <| sn_last_completion_rejection := None |>
        <| sn_last_host_verification_failure := None |>
        <| sn_temporal_evidence_progress := None |>)
  | Ok _, None =>
    Err (corrupt run_id "Host verification omitted a receipt that canonical sealing accepted")
  | Err _, Some _ =>
    Err (corrupt run_id "Host verification carried a receipt that canonical sealing rejected")
  | Err cause, None =>
    let snapshot :=
      if ws_revision (sn_workspace_state snapshot) !=? ws_revision workspace_state_after
      then snapshot <| sn_temporal_evidence_progress := None |> else snapshot in
    let rejection := completion_rejection (cc_id (phv_candidate pending)) generation_id
      (phv_acceptance_id pending) (spec_verifier_id (phv_verifier pending)) cause in
    let snapshot := snapshot <| sn_last_host_verification_failure :=
      Some (mkHostVerificationFailure outcome workspace_state_after rejection) |> in
    Ok match failed_temporal_progress snapshot outcome (SourceHost verification_id)
               workspace_state_after
               (Some (phv_acceptance_id pending, phv_verifier pending)) with
       | Some progress => snapshot <| sn_temporal_evidence_progress := Some progress |>
       | None => snapshot
       end
  end.

Definition on_host_verification_committed (snapshot : RunSnapshot) (run_id : RunId)
    (verification_id : VerificationId) (outcome : ToolOutcome)
    (receipt : option EvidenceReceipt) (workspace_state_after : WorkspaceState)
    : result RunStoreError RunSnapshot :=
  or_corrupt run_id (ToolOutcome_validate outcome) ;;
  pending ← some_or_corrupt run_id (sn_pending_host_verification snapshot)
    "Host verification committed before preparation";
  guard_corrupt run_id
    ((phv_verification_id pending !=? verification_id) || (phv_state pending !=? InFlight))
    "Host verification outcome does not match the in-flight action" ;;
  guard_corrupt run_id (phv_workspace_state_before pending !=? sn_workspace_state snapshot)
    "Host verification workspace changed after its exact action was prepared" ;;
  guard_corrupt run_id
    (negb (ws_generation workspace_state_after =?
           sat_add64 (ws_generation (phv_workspace_state_before pending)) 1))
    "Host verification did not advance the workspace generation" ;;
  or_corrupt run_id (WorkspaceState_validate workspace_state_after) ;;
  contract ← expect_contract snapshot;
  evidence_policy ← some_or_corrupt run_id
    (find_map (acceptance_matches (phv_acceptance_id pending) (phv_verifier pending))
       (def_acceptance (contract_definition contract)))
    "Host verification lost its verifier acceptance";
  snapshot ← settle_verification snapshot run_id verification_id outcome receipt
    workspace_state_after pending (contract_generation_id contract) evidence_policy;
  Ok (snapshot
      <| sn_workspace_state := workspace_state_after |>
      <| sn_pending_host_verification := None |>).
End completion_events.
