(* ===== verification/AgentEvents.v ===== *)
(** The reducer's handlers for the child Agent and isolated-writer lifecycle, the completion
    rejection, steering, control and terminal events: the remaining arms of [apply_event] in
    [crates/runtime/src/store.rs] with the helpers they call. *)
From Stdlib Require Import String.
From S2P Require Import Prelude Text Json Task Protocol Validate Context Snapshot Evidence.
From S2P Require Import RunEvents.

Open Scope string_scope.
Open Scope N_scope.

(** [agent_task_mut]: the position and value of the first task with the identity; the source
    returns a mutable borrow, written back here with [put_task]. *)
Definition agent_task_mut (snapshot : RunSnapshot) (run_id : RunId) (task_id : AgentTaskId)
    : result RunStoreError (nat * AgentTaskLifecycle) :=
  some_or_corrupt run_id
    (i ← position (λ lifecycle, at_task_id (atl_task lifecycle) ==? task_id)
           (sn_agent_tasks snapshot);
     lifecycle ← sn_agent_tasks snapshot !! i;
     Some (i, lifecycle))
    "Agent lifecycle event has no prepared task".

Definition put_task (snapshot : RunSnapshot) (i : nat) (lifecycle : AgentTaskLifecycle)
    : RunSnapshot :=
  snapshot <| sn_agent_tasks := <[i := lifecycle]> (sn_agent_tasks snapshot) |>.

Definition paths_stay_within (changed_files allowed_paths : list string) : bool :=
  forallb (λ changed,
    existsb (λ allowed,
      (changed ==? allowed)
      || is_some_and (strip_prefix allowed changed) (λ suffix, starts_with "/" suffix))
      allowed_paths) changed_files.

Definition store_cleanup_uncertainty_code (result : WriterCleanupResult) : option string :=
  match result with
  | CleanupRetained _ _ _ uncertainty_code => Some uncertainty_code
  | CleanupRemoved _ _ | CleanupAlreadyAbsent => None
  end.

Definition committed_seal (lifecycle : AgentTaskLifecycle) : option AgentSealCommittedFact :=
  seal ← atl_seal lifecycle; asl_committed seal.
Definition committed_cleanup (lifecycle : AgentTaskLifecycle) : option WriterCleanupResult :=
  cleanup ← atl_cleanup lifecycle; acl_committed cleanup.
Definition integration_committed (lifecycle : AgentTaskLifecycle) : bool :=
  is_some_and (atl_integration lifecycle) (λ i, is_some (ail_committed i)).
Definition integration_failed (lifecycle : AgentTaskLifecycle) : bool :=
  is_some_and (atl_integration lifecycle) (λ i, is_some (ail_failure i)).

(** ** Cleanup plans *)

Definition expected_cleanup_phase (run_id : RunId) (lifecycle : AgentTaskLifecycle)
    (successful : bool) : result RunStoreError WriterCleanupPhase :=
  if successful then
    if integration_committed lifecycle then Ok PhasePostIntegration
    else if integration_failed lifecycle then Ok PhaseIntegration
    else Err (corrupt run_id "successful writer cleanup requires a settled integration")
  else if is_none (atl_child_started lifecycle) then Ok PhaseBinding
  else if is_some (atl_seal lifecycle) then Ok PhaseSeal
  else Ok PhaseChild.

Definition expected_cleanup_reason (lifecycle : AgentTaskLifecycle) (result : AgentOutcome)
    (phase : WriterCleanupPhase) : option string :=
  match phase with
  | PhasePostIntegration => Some "writer_integrated"
  | PhaseIntegration =>
    integration ← atl_integration lifecycle;
    failure ← ail_failure integration;
    Some match aif_status failure with
         | IntegrationRejected _ => "writer_integration_rejected"
         | IntegrationConflict _ => "writer_integration_conflict"
         | IntegrationRecoveryRequired _ => "writer_integration_recovery_required"
         | IntegrationNotApplicable | IntegrationAwaitingHost | IntegrationIntegrated _ _ _ =>
           "writer_integration_invalid"
         end
  | PhaseBinding => Some "writer_binding_failed"
  | PhaseSeal => Some "writer_seal_failed"
  | PhaseChild =>
    Some match ao_terminal result with
         | Blocked _ => "writer_child_blocked"
         | Cancelled => "writer_child_cancelled"
         | Interrupted => "writer_child_interrupted"
         | RecoveryRequired _ => "writer_child_recovery_required"
         | AwaitingHostAcceptance _ | Failed _ | Completed _ _ => "writer_child_failed"
         end
  end.

Definition cleanup_artifact_matches (plan : WriterCleanupPlan)
    (seal : option AgentSealCommittedFact) : bool :=
  match wcp_artifact_state plan, seal with
  | KnownHostSealed final_commit diff_sha256, Some seal =>
    (final_commit ==? asc_final_commit seal) && (diff_sha256 ==? asc_diff_sha256 seal)
  | KnownUnsealed, None => true
  | ArtifactStateUnknown, _ =>
    match wcp_mode plan with RetainForRecovery _ => true | RemoveExact _ => false end
  | _, _ => false
  end.

Definition validate_writer_cleanup_plan (run_id : RunId) (lifecycle : AgentTaskLifecycle)
    (plan : WriterCleanupPlan) : result RunStoreError unit :=
  map_err (λ message, corrupt run_id ("invalid writer cleanup plan: " ++ message))
    (WriterCleanupPlan_validate plan) ;;
  result ← some_or_corrupt run_id (atl_result lifecycle)
    "writer cleanup plan has no collected result";
  expected_phase ← expected_cleanup_phase run_id lifecycle (is_completed (ao_terminal result));
  guard_corrupt run_id (wcp_phase plan !=? expected_phase)
    "writer cleanup phase does not match the durable lifecycle" ;;
  guard_corrupt run_id
    (expected_cleanup_reason lifecycle result (wcp_phase plan) !=? Some (wcp_reason_code plan))
    "writer cleanup reason code does not match the durable failure disposition" ;;
  let seal := committed_seal lifecycle in
  guard_corrupt run_id (negb (cleanup_artifact_matches plan seal))
    "writer cleanup artifact state does not match the durable seal" ;;
  let expected_branch_commit :=
    from_option asc_final_commit (awa_base_commit (at_workspace (atl_task lifecycle))) seal in
  match wcp_mode plan with
  | RemoveExact actual =>
    guard_corrupt run_id (actual !=? expected_branch_commit)
      "writer cleanup expected branch commit is not Host-frozen"
  | RetainForRecovery uncertainty_code =>
    match wcp_scope plan with
    | ScopeUnknown scope_code =>
      guard_corrupt run_id (scope_code !=? uncertainty_code)
        "writer cleanup retention codes disagree"
    | ScopeKnown _ _ _ _ _ => Ok tt
    end
  end.

(** ** Child results *)

Definition check_child_acceptance (task : AgentTask) (outcome : AgentOutcome)
    (candidate : CompletionCandidate) (decision : CompletionDecision)
    (acceptance : TaskAcceptance) : result string unit :=
  let contract := at_task_contract task in
  satisfaction ← ok_or (find_satisfaction decision (acceptance_id acceptance))
    "successful Agent omitted a frozen acceptance satisfaction";
  match acceptance, satisfaction with
  | AcceptHost _ _, SatisfiedByHost _ receipt_id =>
    receipt ← ok_or (find_first (λ receipt, har_id receipt ==? receipt_id)
                       (ard_host_acceptance_receipts (ao_details outcome)))
      "successful read-only Agent references an unknown Host acceptance receipt";
    let expected_receipt_id := "host-acceptance:parent-host-accept:" ++
      at_parent_run_id task ++ ":" ++ at_task_id task ++ ":" ++ cc_id candidate in
    fail_if ((har_id receipt !=? expected_receipt_id)
             || (har_candidate_id receipt !=? cc_id candidate)
             || (har_generation_id receipt !=? contract_generation_id contract)
             || (har_workspace_state receipt !=? cc_workspace_state candidate))
      "successful read-only Agent Host receipt does not match its exact candidate"
  | AcceptVerifier id _ evidence_policy verifier, SatisfiedByEvidence _ receipt_id =>
    let expected_verification_id :=
      "host-verification:" ++ cc_id candidate ++ ":" ++ id in
    let expected_receipt_id := "receipt:" ++ expected_verification_id in
    let exact := existsb (λ receipt,
      (er_id receipt ==? expected_receipt_id)
      && (er_id receipt ==? receipt_id)
      && (er_generation_id receipt ==? contract_generation_id contract)
      && (er_acceptance_id receipt ==? id)
      && (er_verification_id receipt ==? expected_verification_id)
      && (er_verifier receipt ==? verifier)
      && lineage_satisfies (er_lineage receipt) evidence_policy
      && (er_workspace_state receipt ==? cd_workspace_state decision))
      (ard_evidence (ao_details outcome)) in
    fail_if (negb exact)
      "successful read-only Agent evidence does not match its exact canonical verifier acceptance"
  | _, _ => Err "successful Agent satisfaction kind does not match its frozen contract"
  end.

Definition validate_child_completion_facts (task : AgentTask) (outcome : AgentOutcome)
    : result string unit :=
  match ao_terminal outcome with
  | Completed message decision =>
    let contract := at_task_contract task in
    let acceptance := def_acceptance (contract_definition contract) in
    candidate ← ok_or (ard_completion_candidate (ao_details outcome))
      "successful read-only Agent omitted its completion candidate";
    fail_if ((cc_id candidate !=? cd_candidate_id decision)
             || (cc_generation_id candidate !=? contract_generation_id contract)
             || (cc_message candidate !=? message)
             || (cd_generation_id decision !=? contract_generation_id contract)
             || (ard_summary (ao_details outcome) !=? message)
             || negb (Nat.eqb (length (cd_satisfied decision)) (length acceptance)))
      "successful Agent completion does not match its candidate or frozen contract" ;;
    let has_host_acceptance := existsb is_host_acceptance acceptance in
    let verifier_acceptance := find_first is_verifier_acceptance acceptance in
    let candidate_workspace_is_current :=
      if is_some verifier_acceptance then
        (checked_add64 (ws_generation (cc_workspace_state candidate)) 1 ==?
         Some (ws_generation (cd_workspace_state decision)))
        && (ws_revision (cc_workspace_state candidate) ==?
            ws_revision (cd_workspace_state decision))
      else cc_workspace_state candidate ==? cd_workspace_state decision in
    fail_if (negb candidate_workspace_is_current)
      "successful Agent candidate is stale for its exact completion decision" ;;
    for_each (check_child_acceptance task outcome candidate decision) acceptance ;;
    fail_if (negb (Nat.eqb (length (ard_host_acceptance_receipts (ao_details outcome)))
                     (if has_host_acceptance then 1 else 0))
             || negb (Nat.eqb (length (ard_evidence (ao_details outcome)))
                        (if is_some verifier_acceptance then 1 else 0)))
      "successful Agent carries receipts outside its frozen acceptance contract"
  | _ => Ok tt
  end.

Definition validate_readonly_child_completion (run_id : RunId) (lifecycle : AgentTaskLifecycle)
    (outcome : AgentOutcome) : result RunStoreError unit :=
  match ao_terminal outcome with
  | Completed _ decision =>
    or_corrupt run_id (validate_child_completion_facts (atl_task lifecycle) outcome) ;;
    guard_corrupt run_id
      (ard_workspace_state (ao_details outcome) !=? Some (cd_workspace_state decision))
      "successful read-only Agent completion does not match its candidate, contract, or workspace"
  | _ => Ok tt
  end.

Definition verifier_acceptance_of (acceptance : TaskAcceptance)
    : option (AcceptanceId * VerifierEvidencePolicy * VerifierSpec) :=
  match acceptance with
  | AcceptVerifier id _ evidence_policy verifier => Some (id, evidence_policy, verifier)
  | AcceptHost _ _ => None
  end.

(** A successful writer: its one receipt and its decision bind the workspace before the
    seal. *)
Definition validate_writer_success (run_id : RunId) (lifecycle : AgentTaskLifecycle)
    (seal : AgentSealLifecycle) (outcome : AgentOutcome) (decision : CompletionDecision)
    : result RunStoreError unit :=
  let contract := at_task_contract (atl_task lifecycle) in
  or_corrupt run_id (validate_child_completion_facts (atl_task lifecycle) outcome) ;;
  '(id, policy, verifier) ← some_or_corrupt run_id
    (find_map verifier_acceptance_of (def_acceptance (contract_definition contract)))
    "successful writer task has no exact verifier acceptance";
  match ard_evidence (ao_details outcome) with
  | [receipt] =>
    guard_corrupt run_id
      ((er_acceptance_id receipt !=? id)
       || negb (lineage_satisfies (er_lineage receipt) policy)
       || ((policy ==? FailedWritePassPolicy) && negb (is_failed_write_pass (er_lineage receipt)))
       || (er_verifier receipt !=? verifier)
       || (er_workspace_state receipt !=? asl_writer_workspace_state_before seal))
      "successful writer receipt does not verify the exact pre-seal child workspace" ;;
    guard_corrupt run_id
      ((cd_generation_id decision !=? contract_generation_id contract)
       || (cd_workspace_state decision !=? asl_writer_workspace_state_before seal)
       || (cd_satisfied decision !=?
           [SatisfiedByEvidence (er_acceptance_id receipt) (er_id receipt)]))
      "successful writer completion decision is not backed by its exact pre-seal receipt"
  | _ => Err (corrupt run_id
      "successful writer receipt does not verify the exact pre-seal child workspace")
  end.

Definition validate_writer_result (run_id : RunId) (lifecycle : AgentTaskLifecycle)
    (outcome : AgentOutcome) : result RunStoreError unit :=
  let successful := is_completed (ao_terminal outcome) in
  let details := ao_details outcome in
  guard_corrupt run_id (successful && is_none (committed_seal lifecycle))
    "successful writer result was collected before its seal committed" ;;
  match atl_seal lifecycle with
  | Some (mkAgentSealLifecycle _ _ (Some committed) as seal) =>
    guard_corrupt run_id
      ((ard_workspace details !=? Some (at_workspace (atl_task lifecycle)))
       || (ard_workspace_state details !=? Some (asc_writer_workspace_state_after committed))
       || (ard_base_commit details !=? Some (awa_base_commit (at_workspace (atl_task lifecycle))))
       || (ard_final_commit details !=? Some (asc_final_commit committed))
       || (ard_diff_sha256 details !=? Some (asc_diff_sha256 committed))
       || (ard_changed_files details !=? asc_changed_files committed))
      "writer result does not exactly match its sealed Host facts" ;;
    match ao_terminal outcome with
    | Completed _ decision => validate_writer_success run_id lifecycle seal outcome decision
    | _ => Ok tt
    end ;;
    let valid_integration_state :=
      match successful, ard_integration details with
      | true, IntegrationAwaitingHost => true
      | false, (IntegrationRejected _ | IntegrationConflict _) => true
      | _, _ => false
      end in
    guard_corrupt run_id (negb valid_integration_state)
      "writer result has an invalid pre-integration disposition"
  | _ =>
    guard_corrupt run_id
      (is_some (ard_workspace details) || is_some (ard_workspace_state details)
       || is_some (ard_base_commit details) || is_some (ard_final_commit details)
       || is_some (ard_diff_sha256 details) || negb (ard_changed_files details ==? [])
       || (ard_integration details !=? IntegrationNotApplicable))
      "unsealed failed writer result claims Host seal facts"
  end.

Definition has_writer_facts (lifecycle : AgentTaskLifecycle) : bool :=
  is_some (atl_workspace_created lifecycle) || is_some (atl_seal lifecycle)
  || is_some (atl_integration lifecycle) || is_some (atl_cleanup lifecycle).

Definition validate_collected_agent_result (run_id : RunId) (lifecycle : AgentTaskLifecycle)
    (outcome : AgentOutcome) : result RunStoreError unit :=
  let task := atl_task lifecycle in
  let generation_id := contract_generation_id (at_task_contract task) in
  guard_corrupt run_id
    ((ao_run_id outcome !=? at_child_run_id task)
     || (ao_parent_run_id outcome !=? Some (at_parent_run_id task)))
    "collected Agent result does not match its child and parent identity" ;;
  guard_corrupt run_id
    (existsb (λ receipt, er_generation_id receipt !=? generation_id)
       (ard_evidence (ao_details outcome)))
    "collected Agent evidence belongs to another task generation" ;;
  guard_corrupt run_id
    (existsb (λ receipt, har_generation_id receipt !=? generation_id)
       (ard_host_acceptance_receipts (ao_details outcome)))
    "collected Agent Host acceptance belongs to another task generation" ;;
  match awa_access (at_workspace task) with
  | AccessReadOnly =>
    guard_corrupt run_id
      (has_writer_facts lifecycle
       || (ard_workspace (ao_details outcome) !=? Some (at_workspace task))
       || (ard_integration (ao_details outcome) !=? IntegrationNotApplicable))
      "read-only Agent result carries writer lifecycle facts or a different workspace" ;;
    validate_readonly_child_completion run_id lifecycle outcome
  | AccessIsolatedWrite => validate_writer_result run_id lifecycle outcome
  end.

(** ** The outcome a finished child must report *)

Definition with_integration (outcome : AgentOutcome) (status : WriterIntegrationStatus)
    : AgentOutcome :=
  outcome <| ao_details := ao_details outcome <| ard_integration := status |> |>.

Definition integrated_outcome (run_id : RunId) (expected : AgentOutcome)
    (integration : AgentIntegrationLifecycle) : result RunStoreError AgentOutcome :=
  match ail_committed integration, ail_failure integration with
  | Some committed, None =>
    Ok (with_integration expected
          (IntegrationIntegrated (ail_integration_id integration)
             (ail_writer_commit integration) (aic_root_workspace_state_after committed)))
  | None, Some failure =>
    let expected := with_integration expected (aif_status failure) in
    match aif_status failure with
    | IntegrationRejected reason | IntegrationConflict reason =>
      Ok (expected <| ao_terminal := Blocked reason |>)
    | IntegrationRecoveryRequired reason =>
      Ok (expected <| ao_terminal := RecoveryRequired
            (mkRecoveryAmbiguity AmbiguityChildRun
               ("agent-integration:" ++ ail_integration_id integration) reason) |>)
    | IntegrationNotApplicable | IntegrationAwaitingHost | IntegrationIntegrated _ _ _ =>
      Err (corrupt run_id "writer integration failure has a non-failure status")
    end
  | Some _, Some _ => Err (corrupt run_id "writer integration cannot both commit and fail")
  | None, None =>
    Err (corrupt run_id "successful writer integration did not reach a durable outcome")
  end.

Definition cleanup_action_id (lifecycle : AgentTaskLifecycle) : string :=
  "agent-cleanup:" ++ at_task_id (atl_task lifecycle).
Definition cleanup_message (cleanup : WriterCleanupResult) : string :=
  default "writer_cleanup_uncertain" (store_cleanup_uncertainty_code cleanup).

Definition expected_finished_outcome (run_id : RunId) (lifecycle : AgentTaskLifecycle)
    : result RunStoreError AgentOutcome :=
  expected ← some_or_corrupt run_id (atl_result lifecycle)
    "child finished before its result was collected";
  match awa_access (at_workspace (atl_task lifecycle)) with
  | AccessReadOnly =>
    guard_corrupt run_id (has_writer_facts lifecycle)
      "read-only child acquired a writer lifecycle" ;;
    Ok expected
  | AccessIsolatedWrite =>
    let cleanup_must_precede_finish :=
      negb (is_completed (ao_terminal expected)) || negb (integration_committed lifecycle) in
    guard_corrupt run_id
      (cleanup_must_precede_finish && is_none (committed_cleanup lifecycle))
      "writer child finished before owned workspace cleanup settled" ;;
    expected ←
      (if is_completed (ao_terminal expected) then
         integration ← some_or_corrupt run_id (atl_integration lifecycle)
           "successful writer was not integrated";
         integrated_outcome run_id expected integration
       else
         guard_corrupt run_id (is_some (atl_integration lifecycle))
           "unsuccessful writer cannot carry an integration action" ;;
         Ok expected);
    Ok match committed_cleanup lifecycle with
       | Some cleanup =>
         if retained_for_recovery cleanup then
           expected <| ao_terminal := RecoveryRequired
             (mkRecoveryAmbiguity AmbiguityChildRun (cleanup_action_id lifecycle)
                (cleanup_message cleanup)) |>
         else expected
       | None => expected
       end
  end.

Definition check_writer_cleanup (run_id : RunId) (terminal : TerminalState)
    (lifecycle : AgentTaskLifecycle) : result RunStoreError unit :=
  cleanup ← some_or_corrupt run_id (committed_cleanup lifecycle)
    (if integration_committed lifecycle
     then "root terminal requires every integrated writer cleanup to commit"
     else "root terminal requires every isolated writer cleanup to commit");
  if retained_for_recovery cleanup then
    let exact_recovery := match terminal with
      | RecoveryRequired ambiguity =>
        (ra_phase ambiguity ==? AmbiguityChildRun)
        && (ra_action_id ambiguity ==? cleanup_action_id lifecycle)
        && (ra_message ambiguity ==? cleanup_message cleanup)
      | _ => false
      end in
    guard_corrupt run_id (negb (is_recovery_required terminal) || negb exact_recovery)
      "retained writer cleanup requires its exact recovery-required root terminal"
  else Ok tt.

Definition validate_terminal_agent_cleanup (snapshot : RunSnapshot) (run_id : RunId)
    (terminal : TerminalState) : result RunStoreError unit :=
  for_each (check_writer_cleanup run_id terminal)
    (List.filter is_writer (sn_agent_tasks snapshot)).

(** ** Handlers *)

Section agent_events.
Context `{JsonLib, ProtocolCodec}.

Definition on_completion_rejected (snapshot : RunSnapshot) (run_id : RunId)
    (rejection : CompletionRejection) : result RunStoreError RunSnapshot :=
  or_corrupt run_id (CompletionRejection_validate rejection) ;;
  guard_corrupt run_id
    (is_none_or (sn_pending_completion snapshot)
       (λ candidate, cc_id candidate !=? cr_candidate_id rejection))
    "completion rejection does not match the pending candidate" ;;
  contract ← expect_contract snapshot;
  guard_corrupt run_id (cr_generation_id rejection !=? contract_generation_id contract)
    "completion rejection belongs to another task generation" ;;
  guard_corrupt run_id
    (is_none_or (sn_last_host_verification_failure snapshot)
       (λ failure, hvf_rejection failure !=? rejection))
    "completion rejection does not match the canonical Host verification failure" ;;
  Ok (snapshot
      <| sn_last_completion_rejection := Some rejection |>
      <| sn_pending_completion := None |>).

Definition expect_agent_task (snapshot : RunSnapshot) : result RunStoreError AgentTask :=
  ok_or (rr_agent_task (sn_request snapshot))
    (panicked "child RunRequest binding validated at creation").

Definition expected_root (snapshot : RunSnapshot) (run_id : RunId)
    : result RunStoreError (RunId * string) :=
  match actor_kind (rr_actor (sn_request snapshot)) with
  | ActorRoot => Ok (run_id, env_workspace (rr_environment (sn_request snapshot)))
  | ActorChild =>
    task ← expect_agent_task snapshot;
    Ok (at_root_run_id task, awa_root_workspace (at_workspace task))
  end.

Definition on_agent_task_prepared (snapshot : RunSnapshot) (run_id : RunId)
    (task : AgentTask) : result RunStoreError RunSnapshot :=
  pending ← some_or_corrupt run_id (sn_pending_tool snapshot)
    "Agent task prepared without an in-flight agent tool";
  let access := awa_access (at_workspace task) in
  let expected_access := match access with
                         | AccessReadOnly => WorkspaceReadOnly
                         | AccessIsolatedWrite => WorkspaceMayWrite
                         end in
  guard_corrupt run_id
    ((access ==? AccessIsolatedWrite)
     && (env_write_execution_mode (rr_environment (sn_request snapshot)) !=?
         WriteIsolatedWriter))
    "isolated writer task was prepared without explicit Writer admission" ;;
  guard_corrupt run_id
    ((pta_state pending !=? InFlight)
     || (ti_name (pta_invocation pending) !=? AGENT_TOOL_NAME)
     || (ti_call_id (pta_invocation pending) !=? at_call_id task)
     || (pta_workspace_access pending !=? expected_access))
    "Agent task does not match the in-flight agent tool authority" ;;
  '(expected_root_run_id, expected_root_workspace) ← expected_root snapshot run_id;
  guard_corrupt run_id
    ((at_parent_run_id task !=? run_id)
     || (at_root_run_id task !=? expected_root_run_id)
     || (awa_root_workspace (at_workspace task) !=? expected_root_workspace))
    "Agent task parent, root, or root workspace does not match this run" ;;
  guard_corrupt run_id
    (existsb (λ existing,
       (at_task_id (atl_task existing) ==? at_task_id task)
       || (at_child_run_id (atl_task existing) ==? at_child_run_id task)
       || (at_call_id (atl_task existing) ==? at_call_id task)) (sn_agent_tasks snapshot))
    "Agent task reused a task, child run, or tool call identity" ;;
  guard_corrupt run_id
    ((access ==? AccessIsolatedWrite) && existsb is_writer (sn_agent_tasks snapshot))
    "M6-A admits only one isolated writer task per root run" ;;
  Ok (snapshot <| sn_agent_tasks :=
        (sn_agent_tasks snapshot ++
         [mkAgentTaskLifecycle task None None None None None None None])%list |>).

Definition on_agent_workspace_created (snapshot : RunSnapshot) (run_id : RunId)
    (task_id : AgentTaskId) (assignment : AgentWorkspaceAssignment)
    (writer_workspace_state : WorkspaceState) : result RunStoreError RunSnapshot :=
  '(i, lifecycle) ← agent_task_mut snapshot run_id task_id;
  guard_corrupt run_id
    (negb (is_writer lifecycle)
     || (at_workspace (atl_task lifecycle) !=? assignment)
     || is_some (atl_workspace_created lifecycle)
     || is_some (atl_child_started lifecycle))
    "writer workspace creation does not match the prepared Agent task" ;;
  Ok (put_task snapshot i (lifecycle <| atl_workspace_created :=
        Some (mkAgentWorkspaceCreatedFact assignment writer_workspace_state) |>)).

Definition on_child_started (snapshot : RunSnapshot) (run_id : RunId)
    (task_id : AgentTaskId) (call_id : string) (child_run_id : RunId) (depth : N)
    : result RunStoreError RunSnapshot :=
  let expected_depth := sat_add8 (actor_depth (rr_actor (sn_request snapshot))) 1 in
  guard_corrupt run_id
    (existsb (λ lifecycle,
       is_some (atl_child_started lifecycle) && is_none (atl_finished lifecycle)
       && (at_child_run_id (atl_task lifecycle) ==? child_run_id)) (sn_agent_tasks snapshot))
    "child run started twice" ;;
  '(i, lifecycle) ← agent_task_mut snapshot run_id task_id;
  let workspace_ready :=
    match awa_access (at_workspace (atl_task lifecycle)) with
    | AccessReadOnly => is_none (atl_workspace_created lifecycle)
    | AccessIsolatedWrite => is_some (atl_workspace_created lifecycle)
    end in
  guard_corrupt run_id
    (negb workspace_ready
     || is_some (atl_child_started lifecycle)
     || (at_call_id (atl_task lifecycle) !=? call_id)
     || (at_child_run_id (atl_task lifecycle) !=? child_run_id)
     || negb (depth =? expected_depth))
    "child start does not match its prepared task and workspace boundary" ;;
  Ok (put_task snapshot i (lifecycle <| atl_child_started :=
        Some (mkAgentChildStartedFact call_id child_run_id depth) |>)).

Definition on_agent_seal_prepared (snapshot : RunSnapshot) (run_id : RunId)
    (task_id : AgentTaskId) (base_commit : string)
    (writer_workspace_state_before : WorkspaceState) : result RunStoreError RunSnapshot :=
  '(i, lifecycle) ← agent_task_mut snapshot run_id task_id;
  created ← some_or_corrupt run_id (atl_workspace_created lifecycle)
    "writer seal prepared before workspace creation";
  guard_corrupt run_id
    (negb (is_writer lifecycle)
     || is_none (atl_child_started lifecycle)
     || is_some (atl_seal lifecycle)
     || is_some (atl_result lifecycle)
     || (base_commit !=? awa_base_commit (at_workspace (atl_task lifecycle)))
     || (ws_generation writer_workspace_state_before <?
         ws_generation (awc_writer_workspace_state created)))
    "writer seal preparation does not match its started task" ;;
  Ok (put_task snapshot i (lifecycle <| atl_seal :=
        Some (mkAgentSealLifecycle base_commit writer_workspace_state_before None) |>)).

Definition on_agent_seal_committed (snapshot : RunSnapshot) (run_id : RunId)
    (task_id : AgentTaskId) (final_commit diff_sha256 : string) (changed_files : list string)
    (writer_workspace_state_after : WorkspaceState) : result RunStoreError RunSnapshot :=
  '(i, lifecycle) ← agent_task_mut snapshot run_id task_id;
  seal ← some_or_corrupt run_id (atl_seal lifecycle)
    "writer seal committed before it was prepared";
  guard_corrupt run_id
    (is_some (asl_committed seal)
     || is_some (atl_result lifecycle)
     || (final_commit ==? asl_base_commit seal)
     || negb (ws_generation writer_workspace_state_after =?
              sat_add64 (ws_generation (asl_writer_workspace_state_before seal)) 1)
     || negb (paths_stay_within changed_files
                (awa_allowed_paths (at_workspace (atl_task lifecycle)))))
    "writer seal commit changed identity, scope, or generation" ;;
  Ok (put_task snapshot i (lifecycle <| atl_seal :=
        Some (seal <| asl_committed :=
          Some (mkAgentSealCommittedFact final_commit diff_sha256 changed_files
                  writer_workspace_state_after) |>) |>)).

Definition on_agent_result_collected (snapshot : RunSnapshot) (run_id : RunId)
    (task_id : AgentTaskId) (outcome : AgentOutcome) : result RunStoreError RunSnapshot :=
  '(i, lifecycle) ← agent_task_mut snapshot run_id task_id;
  guard_corrupt run_id
    (is_some (atl_result lifecycle)
     || (is_none (atl_child_started lifecycle) && is_completed (ao_terminal outcome)))
    "Agent result was collected more than once or claimed success before child start" ;;
  validate_collected_agent_result run_id lifecycle outcome ;;
  Ok (put_task snapshot i (lifecycle <| atl_result := Some outcome |>)).

Definition on_agent_integration_prepared (snapshot : RunSnapshot) (run_id : RunId)
    (task_id : AgentTaskId) (integration_id : OperationId)
    (base_commit writer_commit diff_sha256 : string)
    (expected_root_workspace_state : WorkspaceState) : result RunStoreError RunSnapshot :=
  guard_corrupt run_id (expected_root_workspace_state !=? sn_workspace_state snapshot)
    "writer integration expected state is not the current root workspace" ;;
  '(i, lifecycle) ← agent_task_mut snapshot run_id task_id;
  seal ← some_or_corrupt run_id (committed_seal lifecycle)
    "writer integration prepared before sealing";
  result ← some_or_corrupt run_id (atl_result lifecycle)
    "writer integration prepared before result";
  guard_corrupt run_id
    (is_some (atl_integration lifecycle)
     || negb (is_completed (ao_terminal result))
     || (ard_integration (ao_details result) !=? IntegrationAwaitingHost)
     || (base_commit !=? awa_base_commit (at_workspace (atl_task lifecycle)))
     || (writer_commit !=? asc_final_commit seal)
     || (diff_sha256 !=? asc_diff_sha256 seal))
    "writer integration preparation does not match the sealed successful result" ;;
  Ok (put_task snapshot i (lifecycle <| atl_integration :=
        Some (mkAgentIntegrationLifecycle integration_id base_commit writer_commit
                diff_sha256 expected_root_workspace_state false None None) |>)).

Definition on_agent_integration_started (snapshot : RunSnapshot) (run_id : RunId)
    (task_id : AgentTaskId) (integration_id : OperationId)
    : result RunStoreError RunSnapshot :=
  '(i, lifecycle) ← agent_task_mut snapshot run_id task_id;
  integration ← some_or_corrupt run_id (atl_integration lifecycle)
    "writer integration started before preparation";
  guard_corrupt run_id
    ((ail_integration_id integration !=? integration_id)
     || ail_started integration
     || is_some (ail_committed integration)
     || is_some (ail_failure integration)
     || (ail_expected_root_workspace_state integration !=? sn_workspace_state snapshot))
    "writer integration start does not match its prepared root state" ;;
  Ok (put_task snapshot i (lifecycle <| atl_integration :=
        Some (integration <| ail_started := true |>) |>)).

Definition on_agent_integration_failed (snapshot : RunSnapshot) (run_id : RunId)
    (task_id : AgentTaskId) (integration_id : OperationId)
    (status : WriterIntegrationStatus) (root_workspace_state : WorkspaceState)
    : result RunStoreError RunSnapshot :=
  '(i, lifecycle) ← agent_task_mut snapshot run_id task_id;
  integration ← some_or_corrupt run_id (atl_integration lifecycle)
    "writer integration failed before preparation";
  guard_corrupt run_id
    ((ail_integration_id integration !=? integration_id)
     || negb (ail_started integration)
     || is_some (ail_committed integration)
     || is_some (ail_failure integration)
     || (ail_expected_root_workspace_state integration !=? sn_workspace_state snapshot)
     || (ail_expected_root_workspace_state integration !=? root_workspace_state))
    "writer integration failure does not match the in-flight expected root state" ;;
  Ok (put_task snapshot i (lifecycle <| atl_integration :=
        Some (integration <| ail_failure :=
          Some (mkAgentIntegrationFailureFact status root_workspace_state) |>) |>)).

Definition on_agent_integration_committed (snapshot : RunSnapshot) (run_id : RunId)
    (task_id : AgentTaskId) (integration_id : OperationId) (root_head_commit : string)
    (root_workspace_state_after : WorkspaceState) : result RunStoreError RunSnapshot :=
  '(i, lifecycle) ← agent_task_mut snapshot run_id task_id;
  integration ← some_or_corrupt run_id (atl_integration lifecycle)
    "writer integration committed before preparation";
  guard_corrupt run_id
    ((ail_integration_id integration !=? integration_id)
     || negb (ail_started integration)
     || is_some (ail_committed integration)
     || is_some (ail_failure integration)
     || (ail_expected_root_workspace_state integration !=? sn_workspace_state snapshot)
     || (root_head_commit !=? ail_writer_commit integration))
    "writer integration commit does not match the in-flight action" ;;
  guard_corrupt run_id
    (negb (ws_generation root_workspace_state_after =?
           sat_add64 (ws_generation (ail_expected_root_workspace_state integration)) 1))
    "writer integration must advance exactly one generation" ;;
  Ok (put_task snapshot i (lifecycle <| atl_integration :=
        Some (integration <| ail_committed :=
          Some (mkAgentIntegrationCommittedFact root_head_commit
                  root_workspace_state_after) |>) |>)).

Definition on_agent_cleanup_prepared (snapshot : RunSnapshot) (run_id : RunId)
    (task_id : AgentTaskId) (plan : WriterCleanupPlan) : result RunStoreError RunSnapshot :=
  let tool_action_settled := is_none (sn_pending_tool snapshot) in
  '(i, lifecycle) ← agent_task_mut snapshot run_id task_id;
  result ← some_or_corrupt run_id (atl_result lifecycle)
    "writer cleanup prepared before result";
  let successful := is_completed (ao_terminal result) in
  let committed := integration_committed lifecycle in
  let integration_settled := xorb committed (integration_failed lifecycle) in
  let cleanup_order_is_valid :=
    if successful && committed
    then is_some (atl_finished lifecycle) && tool_action_settled
    else is_none (atl_finished lifecycle) in
  guard_corrupt run_id
    (negb (is_writer lifecycle)
     || (is_none (atl_workspace_created lifecycle) && (wcp_phase plan !=? PhaseBinding))
     || is_some (atl_cleanup lifecycle)
     || (successful && negb integration_settled)
     || (negb successful && is_some (atl_integration lifecycle))
     || negb cleanup_order_is_valid)
    "writer cleanup preparation does not match its owned completed path" ;;
  validate_writer_cleanup_plan run_id lifecycle plan ;;
  Ok (put_task snapshot i (lifecycle <| atl_cleanup :=
        Some (mkAgentCleanupLifecycle plan None) |>)).

Definition on_agent_cleanup_committed (snapshot : RunSnapshot) (run_id : RunId)
    (task_id : AgentTaskId) (cleanup_result : WriterCleanupResult)
    : result RunStoreError RunSnapshot :=
  '(i, lifecycle) ← agent_task_mut snapshot run_id task_id;
  cleanup ← some_or_corrupt run_id (atl_cleanup lifecycle)
    "writer cleanup committed before preparation";
  guard_corrupt run_id (is_some (acl_committed cleanup))
    "writer cleanup commit does not match the prepared owned resources" ;;
  match wcp_mode (acl_plan cleanup) with
  | RetainForRecovery uncertainty_code =>
    guard_corrupt run_id
      (negb match cleanup_result with
            | CleanupRetained _ _ _ result_code => result_code ==? uncertainty_code
            | _ => false
            end)
      "writer cleanup retention plan requires its exact uncertain result"
  | RemoveExact _ => Ok tt
  end ;;
  Ok (put_task snapshot i (lifecycle <| atl_cleanup :=
        Some (cleanup <| acl_committed := Some cleanup_result |>) |>)).

Definition on_child_finished (snapshot : RunSnapshot) (run_id : RunId) (call_id : string)
    (outcome : AgentOutcome) (accounting : ModelAccounting) (handoff_content : string)
    : result RunStoreError RunSnapshot :=
  '(i, lifecycle) ← some_or_corrupt run_id
    (i ← position (λ lifecycle, at_child_run_id (atl_task lifecycle) ==? ao_run_id outcome)
           (sn_agent_tasks snapshot);
     lifecycle ← sn_agent_tasks snapshot !! i;
     Some (i, lifecycle))
    "child finished without a prepared Agent task";
  expected_outcome ← expected_finished_outcome run_id lifecycle;
  guard_corrupt run_id
    ((at_call_id (atl_task lifecycle) !=? call_id)
     || (expected_outcome !=? outcome)
     || is_some (atl_finished lifecycle))
    "child finish does not match its collected and integrated result" ;;
  let snapshot := put_task snapshot i (lifecycle <| atl_finished :=
    Some (mkAgentChildFinishedFact call_id outcome accounting handoff_content) |>) in
  let snapshot := snapshot
    <| sn_runtime_model_requests :=
         sat_add32 (sn_runtime_model_requests snapshot) (ao_runtime_model_requests outcome) |>
    <| sn_runtime_retries :=
         sat_add32 (sn_runtime_retries snapshot) (ao_runtime_retries outcome) |>
    <| sn_tool_calls := sat_add32 (sn_tool_calls snapshot) (ao_tool_calls outcome) |>
    <| sn_accounting := accounting |> in
  Ok (push_entry snapshot
        (EntryChildOutcome call_id (ao_run_id outcome) outcome handoff_content)).

Definition on_steer_queued (snapshot : RunSnapshot) (run_id : RunId) (sequence : N)
    (command_id : CommandId) (content : string) : result RunStoreError RunSnapshot :=
  snapshot ← record_command snapshot run_id command_id sequence (CommandSteer content);
  Ok (snapshot <| sn_pending_steers :=
        (sn_pending_steers snapshot ++ [mkPendingSteer command_id content])%list |>).

Definition on_steer_applied (snapshot : RunSnapshot) (run_id : RunId) (sequence : N)
    (command_id : CommandId) (content : string) : result RunStoreError RunSnapshot :=
  match sn_pending_steers snapshot with
  | [] => Err (corrupt run_id "steer applied without a queued command")
  | pending :: rest =>
    guard_corrupt run_id
      ((ps_command_id pending !=? command_id) || (ps_content pending !=? content))
      "steers must be applied in queued order with unchanged content" ;;
    Ok (push_entry (snapshot <| sn_pending_steers := rest |>) (EntryUser content)
        <| sn_last_model_activity_sequence := Some sequence |>)
  end.

Definition on_control_requested (snapshot : RunSnapshot) (run_id : RunId) (sequence : N)
    (command_id : CommandId) (action : DurableControlAction)
    : result RunStoreError RunSnapshot :=
  guard_corrupt run_id (is_some (sn_pending_control snapshot))
    "more than one terminal control was requested" ;;
  snapshot ← record_command snapshot run_id command_id sequence (CommandStop action);
  Ok (snapshot <| sn_pending_control := Some (mkPendingControl command_id action) |>).

(** ** The terminal event *)

Definition exact_read_only_recovery (snapshot : RunSnapshot) (terminal : TerminalState)
    (unsettled : list AgentTaskLifecycle) : bool :=
  let all_unsettled_are_read_only :=
    negb (unsettled ==? []) && forallb (λ lifecycle, negb (is_writer lifecycle)) unsettled in
  match terminal with
  | RecoveryRequired ambiguity =>
    all_unsettled_are_read_only &&
    match ra_phase ambiguity with
    | AmbiguityChildRun =>
      existsb (λ lifecycle, at_child_run_id (atl_task lifecycle) ==? ra_action_id ambiguity)
        unsettled
    | AmbiguityToolExecution =>
      is_some_and (sn_pending_tool snapshot) (λ pending,
        (pta_state pending ==? InFlight)
        && (ti_name (pta_invocation pending) ==? AGENT_TOOL_NAME)
        && (pta_operation_id pending ==? ra_action_id ambiguity)
        && existsb (λ lifecycle,
             (at_call_id (atl_task lifecycle) ==? ti_call_id (pta_invocation pending))
             && is_some (atl_child_started lifecycle)) unsettled)
    | AmbiguityModelRequest | AmbiguityHostVerification => false
    end
  | _ => false
  end.

Definition matches_control (action : DurableControlAction) (terminal : TerminalState) : bool :=
  match action, terminal with
  | ControlInterrupt, (Interrupted | RecoveryRequired _) => true
  | ControlCancel, (Cancelled | RecoveryRequired _) => true
  | _, _ => false
  end.

Definition on_terminal (snapshot : RunSnapshot) (run_id : RunId) (outcome : AgentOutcome)
    : result RunStoreError RunSnapshot :=
  guard_corrupt run_id (ao_run_id outcome !=? run_id)
    "terminal outcome belongs to another run" ;;
  guard_corrupt run_id (ao_parent_run_id outcome !=? rr_parent_run_id (sn_request snapshot))
    "terminal outcome parent does not match the run" ;;
  let unsettled := List.filter (λ lifecycle, is_none (atl_finished lifecycle))
                     (sn_agent_tasks snapshot) in
  guard_corrupt run_id
    (negb (unsettled ==? [])
     && negb (exact_read_only_recovery snapshot (ao_terminal outcome) unsettled))
    "run reached terminal with an unsettled AgentTask lifecycle" ;;
  guard_corrupt run_id
    (is_some_and (sn_pending_control snapshot)
       (λ control, negb (matches_control (pc_action control) (ao_terminal outcome))))
    "terminal state does not match the durable control request" ;;
  guard_corrupt run_id (is_awaiting_host (ao_terminal outcome))
    "awaiting Host acceptance cannot be persisted as a terminal event" ;;
  validate_terminal_agent_cleanup snapshot run_id (ao_terminal outcome) ;;
  match ao_terminal outcome with
  | Completed message decision =>
    candidate ← some_or_corrupt run_id (sn_pending_completion snapshot)
      "completed Agent has no completion candidate";
    guard_corrupt run_id (message !=? cc_message candidate)
      "completed Agent message does not match the accepted completion candidate" ;;
    validate_completion_decision snapshot run_id decision
  | _ => Ok tt
  end ;;
  Ok (snapshot
      <| sn_accounting := ao_accounting outcome |>
      <| sn_terminal := Some outcome |>).
End agent_events.
