(* ===== verification/Reducer.v ===== *)
(** The run reducer: [apply_event] and [reduce_events] of [crates/runtime/src/store.rs], and
    the principles every proof about it uses. *)
From Stdlib Require Import String.
From S2P Require Import Prelude Text Json Task Protocol Validate Context Snapshot Evidence.
From S2P Require Import RunEvents AgentEvents.

Open Scope string_scope.
Open Scope N_scope.

(** All third-party code the reducer depends on. *)
Class Codecs := {
  codecs_json :: JsonLib;
  codecs_task :: TaskCodec;
  codecs_protocol :: ProtocolCodec;
  codecs_context :: ContextCodec;
}.

(** The events that may still follow a durable control request. *)
Definition is_settlement (e : RuntimeEventKind) : bool :=
  match e with
  | ToolOutcomeCommitted _ _ _ _ _ | AgentWorkspaceCreated _ _ _ | AgentSealCommitted _ _ _ _ _
  | AgentResultCollected _ _ | AgentIntegrationFailed _ _ _ _
  | AgentIntegrationCommitted _ _ _ _ | AgentCleanupPrepared _ _ | AgentCleanupCommitted _ _
  | ChildFinished _ _ _ _ | Terminal _ => true
  | _ => false
  end.

Section reducer.
Context `{Codecs}.

(** The checks before the event is interpreted; the run identity they establish. *)
Definition admit_event (snapshot : RunSnapshot) (stored : StoredRuntimeEvent)
    : result RunStoreError RunId :=
  run_id ← ok_or (rr_run_id (sn_request snapshot)) (Backend "run snapshot has no run id");
  validate_event_header stored (sat_add64 (sn_last_sequence snapshot) 1) run_id ;;
  guard_corrupt run_id (is_some (sn_terminal snapshot)) "event appears after terminal" ;;
  or_corrupt run_id (validate_agent_lifecycle_payload (sre_event stored)) ;;
  guard_corrupt run_id
    (is_some (sn_pending_control snapshot) && negb (is_settlement (sre_event stored)))
    "only settlement events may follow a durable terminal control request" ;;
  guard_corrupt run_id
    (is_some (sn_last_model_failure snapshot) && negb (is_terminal (sre_event stored)))
    "event appears after the persisted model retry decision stopped the run" ;;
  Ok run_id.

(** The [match] on the event kind. *)
Definition dispatch (snapshot : RunSnapshot) (run_id : RunId) (sequence : N)
    (event : RuntimeEventKind) : result RunStoreError RunSnapshot :=
  match event with
  | RunCreated _ => Err (corrupt run_id "duplicate run_created event")
  | ContextCompactionCommitted projection tools accounting before_tokens after_tokens =>
    on_context_compaction_committed snapshot run_id sequence projection tools accounting
      before_tokens after_tokens
  | ModelRequestPrepared attempt_id request =>
    on_model_request_prepared snapshot run_id sequence attempt_id request
  | ModelRequestInFlight attempt_id => on_model_request_in_flight snapshot run_id attempt_id
  | ModelRequestFailed attempt_id failure accounting retry =>
    on_model_request_failed snapshot run_id sequence attempt_id failure accounting retry
  | ModelResponseCommitted attempt_id output accounting =>
    on_model_response_committed snapshot run_id sequence attempt_id output accounting
  | ContentDelta attempt_id _ _ | ReasoningDelta attempt_id _ _ =>
    on_model_delta snapshot run_id attempt_id
  | ToolPrepared operation_id invocation workspace_access =>
    on_tool_prepared snapshot run_id operation_id invocation workspace_access
  | ToolAuthorizationCommitted operation_id decision =>
    on_tool_authorization_committed snapshot run_id operation_id decision
  | InteractionRequested request => on_interaction_requested snapshot run_id request
  | InteractionResolved command_id interaction_id response =>
    on_interaction_resolved snapshot run_id sequence command_id interaction_id response
  | ToolExecutionStarted operation_id =>
    on_tool_execution_started snapshot run_id operation_id
  | ToolOutcomeCommitted operation_id call_id name outcome workspace_state =>
    on_tool_outcome_committed snapshot run_id operation_id call_id name outcome workspace_state
  | WorkspaceObserved workspace_state => on_workspace_observed snapshot run_id workspace_state
  | CompletionProposed candidate => on_completion_proposed snapshot run_id candidate
  | HostCompletionAccepted command_id receipt =>
    on_host_completion_accepted snapshot run_id sequence command_id receipt
  | HostVerificationPrepared verification_id candidate acceptance_id verifier
      workspace_state_before =>
    on_host_verification_prepared snapshot run_id verification_id candidate acceptance_id
      verifier workspace_state_before
  | HostVerificationStarted verification_id =>
    on_host_verification_started snapshot run_id verification_id
  | HostVerificationCommitted verification_id outcome receipt workspace_state_after =>
    on_host_verification_committed snapshot run_id verification_id outcome receipt
      workspace_state_after
  | CompletionRejected rejection => on_completion_rejected snapshot run_id rejection
  | AgentTaskPrepared task => on_agent_task_prepared snapshot run_id task
  | AgentWorkspaceCreated task_id assignment writer_workspace_state =>
    on_agent_workspace_created snapshot run_id task_id assignment writer_workspace_state
  | ChildStarted task_id call_id child_run_id depth =>
    on_child_started snapshot run_id task_id call_id child_run_id depth
  | AgentSealPrepared task_id base_commit writer_workspace_state_before =>
    on_agent_seal_prepared snapshot run_id task_id base_commit writer_workspace_state_before
  | AgentSealCommitted task_id final_commit diff_sha256 changed_files
      writer_workspace_state_after =>
    on_agent_seal_committed snapshot run_id task_id final_commit diff_sha256 changed_files
      writer_workspace_state_after
  | AgentResultCollected task_id outcome =>
    on_agent_result_collected snapshot run_id task_id outcome
  | AgentIntegrationPrepared task_id integration_id base_commit writer_commit diff_sha256
      expected_root_workspace_state =>
    on_agent_integration_prepared snapshot run_id task_id integration_id base_commit
      writer_commit diff_sha256 expected_root_workspace_state
  | AgentIntegrationStarted task_id integration_id =>
    on_agent_integration_started snapshot run_id task_id integration_id
  | AgentIntegrationFailed task_id integration_id status root_workspace_state =>
    on_agent_integration_failed snapshot run_id task_id integration_id status
      root_workspace_state
  | AgentIntegrationCommitted task_id integration_id root_head_commit
      root_workspace_state_after =>
    on_agent_integration_committed snapshot run_id task_id integration_id root_head_commit
      root_workspace_state_after
  | AgentCleanupPrepared task_id plan => on_agent_cleanup_prepared snapshot run_id task_id plan
  | AgentCleanupCommitted task_id cleanup =>
    on_agent_cleanup_committed snapshot run_id task_id cleanup
  | ChildFinished call_id outcome accounting handoff_content =>
    on_child_finished snapshot run_id call_id outcome accounting handoff_content
  | SteerQueued command_id content =>
    on_steer_queued snapshot run_id sequence command_id content
  | SteerApplied command_id content =>
    on_steer_applied snapshot run_id sequence command_id content
  | ControlRequested command_id action =>
    on_control_requested snapshot run_id sequence command_id action
  | Terminal outcome => on_terminal snapshot run_id outcome
  end.

Definition apply_event (snapshot : RunSnapshot) (stored : StoredRuntimeEvent)
    : result RunStoreError RunSnapshot :=
  run_id ← admit_event snapshot stored;
  snapshot ← dispatch snapshot run_id (sre_sequence stored) (sre_event stored);
  Ok (snapshot <| sn_last_sequence := sre_sequence stored |>).

(** The snapshot of the first event. *)
Definition initial_workspace_state (inherited_facts : option InheritedRunFacts)
    : WorkspaceState :=
  match inherited_facts with
  | Some facts => irf_workspace_state facts
  | None => mkWorkspaceState 0 (Unknown "workspace has not been observed")
  end.

Definition initial_snapshot (request : RunRequest) : RunSnapshot :=
  let inherited_facts := rr_inherited_facts request in
  mkRunSnapshot request (initial_transcript request) (rr_context_projection request)
    Usage_default (rr_accounting_baseline request) None
    (initial_workspace_state inherited_facts) [] [] None None
    (facts ← inherited_facts; irf_last_completion_rejection facts)
    (facts ← inherited_facts; irf_last_host_verification_failure facts)
    None 0 0 0 0 1 None [] None None None None None None [] [] None [].

Definition validate_run_created (first : StoredRuntimeEvent) : result RunStoreError RunRequest :=
  let run_id := sre_run_id first in
  validate_event_header first 1 run_id ;;
  request ← match sre_event first with
            | RunCreated request => Ok request
            | _ => Err (corrupt run_id "first event is not run_created")
            end;
  guard_corrupt run_id (rr_run_id request !=? Some run_id)
    "run_created request id does not match event run id" ;;
  guard_corrupt run_id (rr_parent_run_id request !=? sre_parent_run_id first)
    "run_created parent id does not match event parent id" ;;
  guard_corrupt run_id
    (is_some (rr_parent_run_id request) && is_some (rr_continued_from_run_id request))
    "run cannot be both a child Agent and a root continuation" ;;
  or_corrupt run_id (validate_agent_task_binding request) ;;
  or_corrupt run_id (validate_complete_tool_history (rr_transcript request)) ;;
  guard_corrupt run_id
    (is_none (rr_continued_from_run_id request) && is_some (rr_inherited_facts request))
    "only a root continuation may inherit prior run facts" ;;
  contract ← some_or_corrupt run_id (rr_task_contract request)
    "Agent run has no frozen task contract";
  or_corrupt run_id (TaskContract_validate contract) ;;
  guard_corrupt run_id (contract_generation_id contract !=? run_id)
    "task generation id does not match the run id" ;;
  Ok request.

Definition reduce_events (events : list StoredRuntimeEvent) : result RunStoreError RunSnapshot :=
  match events with
  | [] => Err (Backend "cannot reduce an empty run event log")
  | first :: rest =>
    request ← validate_run_created first;
    fold_result apply_event (initial_snapshot request) rest
  end.

(** ** Reachable snapshots

    [run_step s e s']: the reducer accepts the stored event [e] in [s].  A snapshot is
    reachable when some log reduces to it. *)

Definition run_step (s : RunSnapshot) (e : StoredRuntimeEvent) (s' : RunSnapshot) : Prop :=
  apply_event s e = Ok s'.

Inductive reachable : list StoredRuntimeEvent → RunSnapshot → Prop :=
| reachable_created first request :
  validate_run_created first = Ok request →
  reachable [first] (initial_snapshot request)
| reachable_step events s e s' :
  reachable events s → run_step s e s' → reachable (events ++ [e])%list s'.

Lemma reduce_events_snoc events e :
  events ≠ [] →
  reduce_events (events ++ [e]) = (s ← reduce_events events; apply_event s e).
Proof.
  destruct events as [|first rest]; [done|]. intros _. cbn [app reduce_events].
  destruct (validate_run_created first) as [request|err]; [|done]. cbn.
  rewrite fold_result_app. destruct (fold_result _ _ rest) as [s|]; [|done]. cbn.
  by destruct (apply_event s e).
Qed.

Lemma reachable_nonempty events s : reachable events s → events ≠ [].
Proof. destruct 1; [done|]. by destruct events. Qed.

Lemma reachable_reduce events s : reachable events s ↔ reduce_events events = Ok s.
Proof.
  split.
  - induction 1 as [first request Hv|events s e s' Hr IH Hs].
    + cbn. by rewrite Hv.
    + rewrite reduce_events_snoc by eauto using reachable_nonempty. by rewrite IH.
  - revert s. induction events as [|e events IH] using rev_ind; [done|]. intros s Hs.
    destruct events as [|first rest].
    + cbn in Hs. inv_ok. subst. by constructor.
    + rewrite reduce_events_snoc in Hs by done.
      apply bind_Ok in Hs as (s0 & Hs0 & Hs). eapply reachable_step; [by apply IH|done].
Qed.

(** Rule induction: a property that holds of every initial snapshot and is kept by every
    accepted event holds of every reduced log. *)
Lemma reduce_events_ind (P : list StoredRuntimeEvent → RunSnapshot → Prop) :
  (∀ first request, validate_run_created first = Ok request →
     P [first] (initial_snapshot request)) →
  (∀ events s e s', reachable events s → P events s → run_step s e s' →
     P (events ++ [e])%list s') →
  ∀ events s, reduce_events events = Ok s → P events s.
Proof.
  intros Hinit Hstep events s Hs%reachable_reduce.
  induction Hs; eauto.
Qed.
End reducer.
