(* ===== verification/Steps.v ===== *)
(** Inversion of the reducer: what an accepted event says about the snapshot before it and
    the snapshot after it.  The handlers that branch widely are summarised once by a shape
    lemma; [step_cases] then reduces a claim about a step to one goal per event kind. *)
From Stdlib Require Import String.
From S2P Require Import Prelude Text Json Task Protocol Validate Context Snapshot Evidence.
From S2P Require Import RunEvents AgentEvents Reducer.

Open Scope string_scope.
Open Scope N_scope.

(** [inv_run]: [inv_ok] extended with the error wrappers of the reducer. *)
Ltac inv_run_step :=
  match goal with
  | H : guard_corrupt _ _ _ = Ok _ |- _ => apply fail_if_Ok in H
  | H : or_corrupt _ _ = Ok _ |- _ => apply map_err_Ok in H
  | H : some_or_corrupt _ _ _ = Ok _ |- _ => apply ok_or_Ok in H
  | H : map_context_error _ _ = Ok _ |- _ => apply map_err_Ok in H
  | H : expect_contract _ = Ok _ |- _ => apply ok_or_Ok in H
  | H : for_each _ _ = Ok _ |- _ => apply for_each_Ok in H
  | _ => inv_ok_step
  end.
Ltac inv_run := repeat inv_run_step.

Section steps.
Context `{Codecs}.

(** ** Shapes *)

Lemma record_command_shape s run_id c n cmd s' :
  record_command s run_id c n cmd = Ok s' ↔
  c ∉ (cmd_command_id <$> sn_command_receipts s) ∧
  s' = s <| sn_command_receipts :=
         (sn_command_receipts s ++ [mkCommandReceipt c n cmd])%list |>.
Proof.
  unfold record_command. rewrite bind_Ok. split.
  - intros ([] & Hg & Hs). apply fail_if_Ok in Hg. injection Hs as <-. split; [|done].
    rewrite list_elem_of_fmap. intros (r & -> & Hr).
    rewrite existsb_false_elem_of in Hg. specialize (Hg _ Hr). by apply bool_decide_eq_false in Hg.
  - intros [Hc ->]. exists tt. split; [|done]. apply fail_if_Ok, existsb_false_elem_of.
    intros r Hr. apply bool_decide_eq_false. intros <-. apply Hc, list_elem_of_fmap. eauto.
Qed.

Lemma agent_task_mut_shape s run_id task_id i l :
  agent_task_mut s run_id task_id = Ok (i, l) →
  sn_agent_tasks s !! i = Some l ∧ at_task_id (atl_task l) = task_id.
Proof.
  unfold agent_task_mut. intros Hm. inv_run.
  destruct (position _ _) as [j|] eqn:Hp; cbn in Hm; [|done].
  destruct (sn_agent_tasks s !! j) as [l'|] eqn:Hj; cbn in Hm; [|done].
  injection Hm as -> ->. apply position_Some in Hp as (x & Hx & Hid).
  rewrite Hj in Hx. injection Hx as <-. by apply bool_decide_eq_true in Hid.
Qed.

Lemma advance_temporal_progress_shape s run_id pending op name o before s' :
  advance_temporal_progress s run_id pending op name o before = Ok s' →
  ∃ p, s' = s <| sn_temporal_evidence_progress := p |>.
Proof.
  unfold advance_temporal_progress. intros Hs. inv_run; subst;
    try (eexists; reflexivity);
    exists (sn_temporal_evidence_progress s'); by destruct s'.
Qed.

Lemma settle_workspace_shape s run_id pending o ws after :
  settle_workspace s run_id pending o ws = Ok after →
  (after = sn_workspace_state s ∧ ws = None) ∨
  (pta_workspace_access pending = WorkspaceMayWrite ∧ pta_state pending = InFlight ∧
   ws = Some after ∧
   ws_generation after = sat_add64 (ws_generation (sn_workspace_state s)) 1).
Proof.
  unfold settle_workspace. intros Hs. inv_run; subst; try by left.
  right. bprop. done.
Qed.

(** An accepted tool outcome: the pending tool it settles, the workspace it leaves, and the
    only fields it changes. *)
Lemma on_tool_outcome_committed_shape s run_id op call name o ws s' :
  on_tool_outcome_committed s run_id op call name o ws = Ok s' →
  ∃ pending after progress,
    sn_pending_tool s = Some pending ∧ pta_operation_id pending = op ∧
    ti_call_id (pta_invocation pending) = call ∧ ti_name (pta_invocation pending) = name ∧
    ToolOutcome_validate o = Ok tt ∧
    check_tool_outcome_lifecycle run_id pending o = Ok tt ∧
    check_agent_call_settlement s run_id pending o = Ok tt ∧
    settle_workspace s run_id pending o ws = Ok after ∧
    s' = push_entry (s <| sn_workspace_state := after |>
                       <| sn_temporal_evidence_progress := progress |>
                       <| sn_pending_tool := None |>) (EntryTool call name o).
Proof.
  unfold on_tool_outcome_committed, pending_tool_mut. intros Hs.
  repeat (apply bind_Ok in Hs; destruct Hs as (? & ? & Hs)). inv_run. subst. bprop.
  match goal with Ha : advance_temporal_progress _ _ _ _ _ _ _ = Ok _ |- _ =>
    apply advance_temporal_progress_shape in Ha as [p ->] end.
  repeat case_match; eexists _, _, _; split_and!; try eassumption; done.
Qed.

(** Settling a verification: either the canonical seal is recorded, or the failure is. *)
Lemma settle_verification_shape s run_id vid o receipt after pending gen policy s' :
  settle_verification s run_id vid o receipt after pending gen policy = Ok s' →
  (∃ r, receipt = Some r ∧
     seal_evidence_receipt s vid (phv_acceptance_id pending) policy (phv_verifier pending) o
       after = Ok r ∧
     er_id r ∉ (er_id <$> sn_evidence_receipts s) ∧
     s' = s <| sn_evidence_receipts := (sn_evidence_receipts s ++ [r])%list |>
            <| sn_last_completion_rejection := None |>
            <| sn_last_host_verification_failure := None |>
            <| sn_temporal_evidence_progress := None |>) ∨
  (∃ cause progress, receipt = None ∧
     seal_evidence_receipt s vid (phv_acceptance_id pending) policy (phv_verifier pending) o
       after = Err cause ∧
     s' = s <| sn_last_host_verification_failure :=
                Some (mkHostVerificationFailure o after
                  (completion_rejection (cc_id (phv_candidate pending)) gen
                     (phv_acceptance_id pending) (spec_verifier_id (phv_verifier pending))
                     cause)) |>
            <| sn_temporal_evidence_progress := progress |>).
Proof.
  unfold settle_verification. intros Hs.
  destruct (seal_evidence_receipt _ _ _ _ _ _ _) as [r|cause] eqn:Hseal,
    receipt as [r'|]; try discriminate Hs.
  - left. inv_run. bprop. subst. exists r'. split_and!; try done.
    rewrite list_elem_of_fmap. intros (x & Hx & Hin).
    match goal with Hg : existsb _ _ = false |- _ =>
      rewrite existsb_false_elem_of in Hg; specialize (Hg _ Hin);
      apply bool_decide_eq_false in Hg; congruence end.
  - right. injection Hs as <-. exists cause.
    destruct (_ !=? _); destruct (failed_temporal_progress _ _ _ _ _) as [p|];
      first [by exists (Some p) | by exists None
            |eexists; split_and!; [done|done|by destruct s]].
Qed.

Lemma on_host_verification_committed_shape s run_id vid o receipt after s' :
  on_host_verification_committed s run_id vid o receipt after = Ok s' →
  ∃ pending contract policy s1,
    ToolOutcome_validate o = Ok tt ∧
    sn_pending_host_verification s = Some pending ∧
    phv_verification_id pending = vid ∧ phv_state pending = InFlight ∧
    phv_workspace_state_before pending = sn_workspace_state s ∧
    ws_generation after = sat_add64 (ws_generation (sn_workspace_state s)) 1 ∧
    rr_task_contract (sn_request s) = Some contract ∧
    find_map (acceptance_matches (phv_acceptance_id pending) (phv_verifier pending))
      (def_acceptance (contract_definition contract)) = Some policy ∧
    settle_verification s run_id vid o receipt after pending
      (contract_generation_id contract) policy = Ok s1 ∧
    s' = s1 <| sn_workspace_state := after |> <| sn_pending_host_verification := None |>.
Proof.
  unfold on_host_verification_committed. intros Hs.
  repeat (apply bind_Ok in Hs; destruct Hs as (? & ? & Hs)). inv_run. bprop. subst.
  match goal with Hb : phv_workspace_state_before _ = _ |- _ => rewrite Hb in * end.
  eexists _, _, _, _. by split_and!.
Qed.

(** ** Admission *)

Lemma admit_event_Ok s e run_id :
  admit_event s e = Ok run_id →
  rr_run_id (sn_request s) = Some run_id ∧ sre_run_id e = run_id ∧
  sre_schema_version e = AGENT_RUNTIME_EVENT_SCHEMA_VERSION ∧
  sre_sequence e = sat_add64 (sn_last_sequence s) 1 ∧ sn_terminal s = None ∧
  validate_agent_lifecycle_payload (sre_event e) = Ok tt ∧
  (is_some (sn_pending_control s) = true → is_settlement (sre_event e) = true) ∧
  (is_some (sn_last_model_failure s) = true → is_terminal (sre_event e) = true).
Proof.
  unfold admit_event, validate_event_header. intros Ha. inv_run. subst.
  bprop. split_and!; try done.
  - unfold MIN_SUPPORTED_AGENT_RUNTIME_EVENT_SCHEMA_VERSION,
      AGENT_RUNTIME_EVENT_SCHEMA_VERSION in *. lia.
  - intros Hc. by destruct (is_some (sn_pending_control s)), (is_settlement (sre_event e)).
  - intros Hc. by destruct (is_some (sn_last_model_failure s)), (is_terminal (sre_event e)).
Qed.

Lemma run_step_inv s e s' :
  run_step s e s' →
  ∃ run_id s1, admit_event s e = Ok run_id ∧
    dispatch s run_id (sre_sequence e) (sre_event e) = Ok s1 ∧
    s' = s1 <| sn_last_sequence := sre_sequence e |>.
Proof. unfold run_step, apply_event. intros Hs. inv_ok. eauto. Qed.
End steps.

(** [step_cases Hd]: one goal per event kind and successful path, from the equation [Hd] of
    [dispatch]; the result snapshot is substituted. *)
Ltac split_shapes :=
  repeat match goal with
  | H : record_command _ _ _ _ _ = Ok _ |- _ =>
    apply record_command_shape in H; destruct H as [? H]
  | H : agent_task_mut _ _ _ = Ok (_, _) |- _ =>
    apply agent_task_mut_shape in H; destruct H as [? ?]
  | H : pending_tool_mut _ _ _ = Ok _ |- _ => unfold pending_tool_mut in H
  | H : pending_model_mut _ _ _ = Ok _ |- _ => unfold pending_model_mut in H
  | H : settle_verification _ _ _ _ _ _ _ _ _ = Ok _ |- _ =>
    apply settle_verification_shape in H;
    destruct H as [(? & ? & ? & ? & ?)|(? & ? & ? & ? & ?)]
  end.

Ltac unfold_handlers Hd :=
  unfold on_context_compaction_committed, on_model_request_prepared,
    on_model_request_in_flight, on_model_request_failed, on_model_response_committed,
    on_model_delta, on_tool_prepared, on_tool_authorization_committed,
    on_interaction_requested, on_interaction_resolved, on_tool_execution_started,
    on_workspace_observed, on_completion_proposed, on_host_completion_accepted,
    on_host_verification_prepared, on_host_verification_started, on_completion_rejected,
    on_agent_task_prepared, on_agent_workspace_created, on_child_started,
    on_agent_seal_prepared, on_agent_seal_committed, on_agent_result_collected,
    on_agent_integration_prepared, on_agent_integration_started, on_agent_integration_failed,
    on_agent_integration_committed, on_agent_cleanup_prepared, on_agent_cleanup_committed,
    on_child_finished, on_steer_queued, on_steer_applied, on_control_requested, on_terminal
    in Hd.

Ltac expand_binds Hd :=
  lazymatch type of Hd with
  | on_tool_outcome_committed _ _ _ _ _ _ _ = Ok _ =>
    apply on_tool_outcome_committed_shape in Hd;
    destruct Hd as (? & ? & ? & ? & ? & ? & ? & ? & ? & ? & ? & Hd)
  | on_host_verification_committed _ _ _ _ _ _ = Ok _ =>
    apply on_host_verification_committed_shape in Hd;
    destruct Hd as (? & ? & ? & ? & ? & ? & ? & ? & ? & ? & ? & ? & ? & Hd)
  | _ =>
    unfold_handlers Hd;
    repeat match type of Hd with
    | (_ ≫= _) = Ok _ => apply bind_Ok in Hd; destruct Hd as (? & ? & Hd)
    | (let '(_, _) := ?x in _) = Ok _ => destruct x
    | (match ?x with _ => _ end) = Ok _ => destruct x eqn:?; try discriminate Hd
    end;
    try (injection Hd as Hd)
  end.

Ltac step_cases event Hd :=
  destruct event; cbn [dispatch] in Hd; try discriminate Hd;
  expand_binds Hd; split_shapes; subst.
