(* ===== verification/LogFacts.v ===== *)
(** Facts of every accepted log: contiguous sequence numbers, the terminal event, append-only
    projections, the workspace epoch, commands, steers and control. *)
From Stdlib Require Import String.
From S2P Require Import Prelude Text Json Task Protocol Validate Context Snapshot Evidence.
From S2P Require Import RunEvents AgentEvents Reducer Steps.

Open Scope string_scope.
Open Scope N_scope.

(** Closing the goals in which an event leaves the field of interest alone. *)
Ltac same_field := first [reflexivity | repeat case_match; reflexivity].

Section log_facts.
Context `{Codecs}.
Implicit Types (s : RunSnapshot) (e : StoredRuntimeEvent) (events : list StoredRuntimeEvent).

(** ** Frozen request, sequence numbers *)

Lemma dispatch_request s run_id n ev s' :
  dispatch s run_id n ev = Ok s' → sn_request s' = sn_request s.
Proof. intros Hd. step_cases ev Hd; same_field. Qed.

Lemma step_request s e s' : run_step s e s' → sn_request s' = sn_request s.
Proof. intros (r & s1 & _ & Hd & ->)%run_step_inv. cbn. by eapply dispatch_request. Qed.

Lemma validate_run_created_Ok first request :
  validate_run_created first = Ok request →
  sre_event first = RunCreated request ∧ sre_sequence first = 1 ∧
  sre_schema_version first = AGENT_RUNTIME_EVENT_SCHEMA_VERSION ∧
  rr_run_id request = Some (sre_run_id first) ∧
  rr_parent_run_id request = sre_parent_run_id first ∧
  validate_agent_task_binding request = Ok tt ∧
  ∃ contract, rr_task_contract request = Some contract ∧
    TaskContract_validate contract = Ok tt ∧
    contract_generation_id contract = sre_run_id first.
Proof.
  unfold validate_run_created, validate_event_header. intros Hv. inv_run. subst. bprop.
  split_and!; try done.
  - unfold MIN_SUPPORTED_AGENT_RUNTIME_EVENT_SCHEMA_VERSION,
      AGENT_RUNTIME_EVENT_SCHEMA_VERSION in *. lia.
  - eexists; split_and!; done.
Qed.

(** The request a log starts with is the one its snapshot keeps. *)
Lemma reachable_request events s :
  reachable events s →
  ∃ first rest, events = first :: rest ∧ validate_run_created first = Ok (sn_request s).
Proof.
  induction 1 as [first request Hv|events s e s' Hr IH Hs].
  - exists first, []. by split.
  - destruct IH as (first & rest & -> & Hv). exists first, (rest ++ [e])%list. split; [done|].
    by rewrite (step_request _ _ _ Hs).
Qed.

Lemma reachable_contract events s :
  reachable events s →
  ∃ contract run_id, rr_task_contract (sn_request s) = Some contract ∧
    rr_run_id (sn_request s) = Some run_id ∧ contract_generation_id contract = run_id ∧
    TaskContract_validate contract = Ok tt.
Proof.
  intros (first & rest & _ & Hv)%reachable_request.
  apply validate_run_created_Ok in Hv as (_ & _ & _ & Hid & _ & _ & contract & ? & ? & ?).
  eauto 6.
Qed.

(** Sequence numbers count the events, one run owns them all. *)
Definition log_numbered events (run_id : RunId) : Prop :=
  ∀ i e, events !! i = Some e →
    sre_sequence e = N.of_nat i + 1 ∧ sre_run_id e = run_id ∧
    sre_schema_version e = AGENT_RUNTIME_EVENT_SCHEMA_VERSION.

Lemma reachable_numbered events s :
  reachable events s → N.of_nat (length events) ≤ U64_MAX →
  sn_last_sequence s = N.of_nat (length events) ∧
  ∃ run_id, rr_run_id (sn_request s) = Some run_id ∧ log_numbered events run_id.
Proof.
  induction 1 as [first request Hv|events s e s' Hr IH Hs]; intros Hlen.
  - apply validate_run_created_Ok in Hv as (Hev & Hseq & Hver & Hid & _). split; [done|].
    exists (sre_run_id first). split; [done|]. intros [|i] e; cbn; [|done].
    intros [= <-]. by rewrite Hseq.
  - rewrite length_app in Hlen |- *. cbn in Hlen |- *.
    destruct IH as (Hlast & run_id & Hid & Hnum); [lia|].
    pose proof Hs as (r & s1 & Ha & Hd & ->)%run_step_inv.
    apply admit_event_Ok in Ha as (Hr' & Hrun & Hver & Hseq & _).
    rewrite Hlast in Hseq. unfold saturating_add in Hseq. cbn.
    split; [lia|]. exists run_id. rewrite (dispatch_request _ _ _ _ _ Hd).
    split; [done|]. intros i x. rewrite lookup_app_Some. intros [Hx|[Hi Hx]]; [by apply Hnum|].
    apply list_lookup_singleton_Some in Hx as [Hi0 <-].
    split_and!; [lia|congruence|done].
Qed.

(** Every accepted log belongs to one run: its events carry the run id of the frozen
    request, the one supported schema version, and the sequence numbers 1, 2, 3, ... without
    a gap; the snapshot's [last_sequence] is the length of the log.  (Sequence numbers
    saturate at [u64::MAX], so the log is shorter than 2^64.) *)
Theorem accepted_log_is_contiguous events s :
  reduce_events events = Ok s → N.of_nat (length events) ≤ U64_MAX →
  sn_last_sequence s = N.of_nat (length events) ∧
  ∃ run_id, rr_run_id (sn_request s) = Some run_id ∧ log_numbered events run_id.
Proof. intros Hs%reachable_reduce. by apply reachable_numbered. Qed.

(** ** The terminal event *)

Lemma dispatch_terminal s run_id n ev s' :
  dispatch s run_id n ev = Ok s' →
  sn_terminal s' = match ev with Terminal o => Some o | _ => sn_terminal s end.
Proof. intros Hd. step_cases ev Hd; same_field. Qed.

Lemma step_terminal s e s' :
  run_step s e s' →
  sn_terminal s = None ∧
  sn_terminal s' = match sre_event e with Terminal o => Some o | _ => None end.
Proof.
  intros (r & s1 & Ha & Hd & ->)%run_step_inv. cbn.
  apply admit_event_Ok in Ha as (_ & _ & _ & _ & Ht & _). split; [done|].
  rewrite (dispatch_terminal _ _ _ _ _ Hd). by destruct (sre_event e).
Qed.

(** The terminal event is unique and last: a log is terminal exactly when its last event
    is [Terminal], no earlier event is one, and no event whatsoever is accepted after it. *)
Theorem terminal_is_final events s :
  reduce_events events = Ok s →
  (∀ o, sn_terminal s = Some o ↔ ∃ e, last events = Some e ∧ sre_event e = Terminal o) ∧
  (∀ i e, events !! i = Some e → is_terminal (sre_event e) = true →
     S i = length events) ∧
  (is_Some (sn_terminal s) → ∀ e s', reduce_events (events ++ [e]) ≠ Ok s').
Proof.
  intros Hs. split_and!.
  - apply reachable_reduce in Hs. inversion Hs as [first request Hv|evs s0 e s' Hr Hstep]; subst.
    + apply validate_run_created_Ok in Hv as (Hev & _). cbn. intros o. split; [done|].
      intros (e & [= <-] & Ht). congruence.
    + apply step_terminal in Hstep as [_ ->]. intros o. rewrite last_snoc. split.
      * intros Ho. exists e. split; [done|]. by destruct (sre_event e); simplify_eq.
      * intros (e' & [= <-] & ->). done.
  - apply reachable_reduce in Hs. induction Hs as [first request Hv|evs s0 e0 s' Hr IH Hstep].
    + intros [|i] e; cbn; [done|done].
    + intros i e. rewrite lookup_app_Some, length_app. cbn. intros [Hi|[Hle Hi]] Ht.
      * pose proof (IH i e Hi Ht) as Hlen. exfalso.
        apply step_terminal in Hstep as [Hnone _].
        apply reachable_reduce in Hr as Hred.
        inversion Hr as [first request Hv|evs' s1 e1 s2 Hr' Hstep']; subst.
        -- apply validate_run_created_Ok in Hv as (Hev & _).
           destruct i; cbn in Hi; [|done]. injection Hi as <-. by rewrite Hev in Ht.
        -- apply step_terminal in Hstep' as [_ Hterm].
           rewrite length_app in Hlen. cbn in Hlen.
           rewrite lookup_app_r in Hi by lia.
           replace (i - length evs')%nat with 0%nat in Hi by lia. injection Hi as <-.
           rewrite Hnone in Hterm. by destruct (sre_event e1).
      * apply list_lookup_singleton_Some in Hi as [? _]. lia.
  - intros [o Ho] e s' Hs'. rewrite reduce_events_snoc in Hs'.
    + rewrite Hs in Hs'. cbn in Hs'. apply step_terminal in Hs' as [? _]. congruence.
    + intros ->. done.
Qed.

(** ** Append-only projections *)

(** The parts of a snapshot that only ever grow. *)
Record extends (s s' : RunSnapshot) : Prop := {
  extends_request : sn_request s' = sn_request s;
  extends_transcript : sn_transcript s `prefix_of` sn_transcript s';
  extends_evidence : sn_evidence_receipts s `prefix_of` sn_evidence_receipts s';
  extends_host : sn_host_acceptance_receipts s `prefix_of` sn_host_acceptance_receipts s';
  extends_commands : sn_command_receipts s `prefix_of` sn_command_receipts s';
  extends_tasks : (atl_task <$> sn_agent_tasks s) `prefix_of` (atl_task <$> sn_agent_tasks s');
}.
#[global] Instance extends_preorder : PreOrder extends.
Proof.
  split.
  - by intros s.
  - intros s1 s2 s3 [] []. split; [congruence|..]; by etrans.
Qed.

Ltac grows := first [by eexists | exists []; repeat case_match; cbn; by rewrite app_nil_r].

Lemma dispatch_transcript s run_id n ev s' :
  dispatch s run_id n ev = Ok s' → sn_transcript s `prefix_of` sn_transcript s'.
Proof. intros Hd. step_cases ev Hd; grows. Qed.
Lemma dispatch_evidence s run_id n ev s' :
  dispatch s run_id n ev = Ok s' → sn_evidence_receipts s `prefix_of` sn_evidence_receipts s'.
Proof. intros Hd. step_cases ev Hd; grows. Qed.
Lemma dispatch_host s run_id n ev s' :
  dispatch s run_id n ev = Ok s' →
  sn_host_acceptance_receipts s `prefix_of` sn_host_acceptance_receipts s'.
Proof. intros Hd. step_cases ev Hd; grows. Qed.
Lemma dispatch_commands s run_id n ev s' :
  dispatch s run_id n ev = Ok s' → sn_command_receipts s `prefix_of` sn_command_receipts s'.
Proof. intros Hd. step_cases ev Hd; grows. Qed.

Lemma put_task_tasks s i l l' :
  sn_agent_tasks s !! i = Some l → atl_task l' = atl_task l →
  (atl_task <$> sn_agent_tasks (put_task s i l')) = (atl_task <$> sn_agent_tasks s).
Proof.
  intros Hi Ht. cbn. rewrite list_fmap_insert. apply list_insert_id.
  by rewrite list_lookup_fmap, Hi, Ht.
Qed.

Lemma position_lookup_Some s p (x : nat * AgentTaskLifecycle) :
  (i ← position p (sn_agent_tasks s); l ← sn_agent_tasks s !! i; Some (i, l)) = Some x →
  sn_agent_tasks s !! x.1 = Some x.2.
Proof.
  destruct (position _ _) as [i|]; cbn; [|done].
  destruct (sn_agent_tasks s !! i) as [l|] eqn:Hi; cbn; [|done]. by intros [= <-].
Qed.

(** The frozen task of a lifecycle never changes, and a new one comes from its event. *)
Lemma dispatch_frozen_tasks s run_id n ev s' :
  dispatch s run_id n ev = Ok s' →
  (atl_task <$> sn_agent_tasks s') = (atl_task <$> sn_agent_tasks s) ∨
  ∃ task, ev = AgentTaskPrepared task ∧
    (atl_task <$> sn_agent_tasks s') = ((atl_task <$> sn_agent_tasks s) ++ [task])%list.
Proof.
  intros Hd. step_cases ev Hd; try solve [left; repeat case_match; done].
  all: try solve [right; eexists; split; [done|]; cbn; by rewrite fmap_app].
  all: left; first [by erewrite put_task_tasks by done | idtac].
  inv_run. match goal with Hp : _ = Some _ |- _ => apply position_lookup_Some in Hp end.
  cbn in *. rewrite list_fmap_insert, list_insert_id; [done|].
  by rewrite list_lookup_fmap; match goal with Hp : _ !! _ = Some _ |- _ => rewrite Hp end.
Qed.
Lemma dispatch_tasks s run_id n ev s' :
  dispatch s run_id n ev = Ok s' →
  (atl_task <$> sn_agent_tasks s) `prefix_of` (atl_task <$> sn_agent_tasks s').
Proof.
  intros [->|(task & _ & ->)]%dispatch_frozen_tasks; [done|by eexists].
Qed.

(** Every prepared task passed its validation. *)
Lemma reachable_tasks_valid events s :
  reachable events s → Forall (λ task, AgentTask_validate task = Ok tt)
                         (atl_task <$> sn_agent_tasks s).
Proof.
  induction 1 as [first request Hv|events s e s' Hr IH Hs]; [constructor|].
  apply run_step_inv in Hs as (r & s1 & Ha & Hd & ->).
  apply admit_event_Ok in Ha as (_ & _ & _ & _ & _ & Hp & _). cbn.
  destruct (dispatch_frozen_tasks _ _ _ _ _ Hd) as [->|(task & He & ->)]; [done|].
  apply Forall_app. split; [done|]. constructor; [|constructor]. by rewrite He in Hp.
Qed.

Lemma step_extends s e s' : run_step s e s' → extends s s'.
Proof.
  intros (r & s1 & _ & Hd & ->)%run_step_inv. split; cbn;
    eauto using dispatch_request, dispatch_transcript, dispatch_evidence, dispatch_host,
      dispatch_commands, dispatch_tasks.
Qed.

Lemma fold_extends events s s' : fold_result apply_event s events = Ok s' → extends s s'.
Proof.
  revert s. induction events as [|e events IH]; intros s Hs; cbn in Hs; inv_ok; [by subst|].
  etrans; [by eapply step_extends|eauto].
Qed.

Lemma reduce_events_app_inv events more s' :
  events ≠ [] → reduce_events (events ++ more) = Ok s' →
  ∃ s, reduce_events events = Ok s ∧ fold_result apply_event s more = Ok s'.
Proof.
  destruct events as [|first rest]; [done|]. intros _. cbn.
  destruct (validate_run_created first) as [request|]; cbn; [|done].
  rewrite fold_result_app. intros Hs. by apply bind_Ok in Hs.
Qed.

(** History is append-only.  When a log is extended by events the reducer accepts, the
    frozen request is unchanged and the transcript, the evidence receipts, the Host
    acceptance receipts, the command receipts and the sequence of prepared Agent tasks of
    the shorter log are prefixes of those of the longer one: nothing recorded is ever
    rewritten, reordered or dropped. *)
Theorem history_is_append_only events more s s' :
  reduce_events events = Ok s → reduce_events (events ++ more) = Ok s' → extends s s'.
Proof.
  intros Hs Hs'. assert (events ≠ []) as Hne by (by intros ->).
  apply reduce_events_app_inv in Hs' as (s0 & Hs0 & Hf); [|done].
  rewrite Hs in Hs0. injection Hs0 as <-. by eapply fold_extends.
Qed.

(** ** The workspace epoch *)

Lemma dispatch_workspace s run_id n ev s' :
  dispatch s run_id n ev = Ok s' →
  sn_workspace_state s' = sn_workspace_state s ∨
  ws_generation (sn_workspace_state s') =
    sat_add64 (ws_generation (sn_workspace_state s)) 1.
Proof.
  intros Hd. step_cases ev Hd; try (left; same_field).
  - match goal with Hw : settle_workspace _ _ _ _ _ = Ok _ |- _ =>
      apply settle_workspace_shape in Hw as [[-> _]|(_ & _ & _ & Hg)] end; [by left|by right].
  - inv_run. bprop. cbn.
    destruct (sn_workspace_state s) as [g1 [r1|r1]], workspace_state as [g2 [r2|r2]];
      cbn in *; try case_bool_decide; subst; auto.
  - by right.
  - by right.
Qed.

(** The workspace epoch is exact: one accepted event either leaves the workspace state
    untouched or advances its generation by exactly one; so two snapshots of a run with the
    same generation hold the same workspace state (no content change hides behind an equal
    epoch).  At [u64::MAX] the generation saturates, hence the bound. *)
Theorem workspace_epoch_exact s e s' :
  run_step s e s' → ws_generation (sn_workspace_state s) < U64_MAX →
  sn_workspace_state s' = sn_workspace_state s ∨
  ws_generation (sn_workspace_state s') = ws_generation (sn_workspace_state s) + 1.
Proof.
  intros (r & s1 & _ & Hd & ->)%run_step_inv Hlt. cbn.
  apply dispatch_workspace in Hd as [->| ->]; [by left|right]. unfold saturating_add. lia.
Qed.

(** ** Commands *)

Lemma dispatch_command_receipts s run_id n ev s' :
  dispatch s run_id n ev = Ok s' →
  sn_command_receipts s' = sn_command_receipts s ∨
  ∃ c cmd, c ∉ (cmd_command_id <$> sn_command_receipts s) ∧
    sn_command_receipts s' = (sn_command_receipts s ++ [mkCommandReceipt c n cmd])%list.
Proof.
  intros Hd. step_cases ev Hd; try (left; same_field); right; eexists _, _; by split.
Qed.

Definition commands_ordered s : Prop :=
  NoDup (cmd_command_id <$> sn_command_receipts s) ∧
  (∀ i j r r', sn_command_receipts s !! i = Some r → sn_command_receipts s !! j = Some r' →
     (i < j)%nat → cmd_sequence r < cmd_sequence r') ∧
  Forall (λ r, cmd_sequence r ≤ sn_last_sequence s) (sn_command_receipts s).

Lemma step_commands_ordered s e s' :
  run_step s e s' → sn_last_sequence s < U64_MAX → commands_ordered s → commands_ordered s'.
Proof.
  intros (r & s1 & Ha & Hd & ->)%run_step_inv Hlt (Hnd & Hord & Hle).
  apply admit_event_Ok in Ha as (_ & _ & _ & Hseq & _).
  assert (sre_sequence e = sn_last_sequence s + 1) as Hnext
    by (rewrite Hseq; unfold saturating_add; lia).
  unfold commands_ordered. cbn.
  apply dispatch_command_receipts in Hd as [->|(c & cmd & Hc & ->)].
  - split_and!; [done|done|]. eapply Forall_impl; [done|]. cbn. lia.
  - rewrite fmap_app, NoDup_app. split_and!.
    + done.
    + intros x Hx Hin. cbn in Hin. apply list_elem_of_singleton in Hin as ->. done.
    + cbn. apply NoDup_singleton.
    + intros i j r1 r2. rewrite !lookup_app_Some. intros [Hi|[Hi1 Hi]] [Hj|[Hj1 Hj]] Hij.
      * eauto.
      * apply list_lookup_singleton_Some in Hj as [_ <-]. cbn.
        rewrite Forall_lookup in Hle. specialize (Hle _ _ Hi). cbn in Hle. lia.
      * apply lookup_lt_Some in Hj. lia.
      * apply list_lookup_singleton_Some in Hi as [? _], Hj as [? _]. lia.
    + apply Forall_app. split; [eapply Forall_impl; [done|]; cbn; lia|].
      constructor; [cbn; lia|constructor].
Qed.

(** Commands are exactly-once and ordered: in every accepted log no command id has two
    receipts, receipts are recorded in strictly increasing sequence order and none is ahead
    of the log. *)
Theorem commands_exactly_once events s :
  reduce_events events = Ok s → N.of_nat (length events) ≤ U64_MAX → commands_ordered s.
Proof.
  intros Hs%reachable_reduce. induction Hs as [first request Hv|events s e s' Hr IH Hs].
  - intros _. split_and!; cbn; [constructor| |constructor]. done.
  - rewrite length_app. cbn. intros Hlen.
    destruct (reachable_numbered _ _ Hr) as [Hlast _]; [lia|].
    eapply step_commands_ordered; [done|lia|]. apply IH. lia.
Qed.

(** ** Steers *)

Definition queued_steer e : list PendingSteer :=
  match sre_event e with SteerQueued c content => [mkPendingSteer c content] | _ => [] end.
Definition applied_steer e : list PendingSteer :=
  match sre_event e with SteerApplied c content => [mkPendingSteer c content] | _ => [] end.

Lemma step_steers s e s' :
  run_step s e s' →
  (sn_pending_steers s ++ queued_steer e = applied_steer e ++ sn_pending_steers s')%list.
Proof.
  intros (r & s1 & _ & Hd & ->)%run_step_inv. unfold queued_steer, applied_steer. cbn.
  destruct (sre_event e); cbn [dispatch] in Hd; try discriminate Hd;
    expand_binds Hd; split_shapes; subst; rewrite ?app_nil_r; try same_field.
  inv_run. bprop. subst. cbn. f_equal. by destruct p.
Qed.

(** Steering is a FIFO queue: the steers queued by a log are the steers it has applied,
    in the same order and with unchanged content, followed by those still pending. *)
Theorem steers_are_fifo events s :
  reduce_events events = Ok s →
  (events ≫= queued_steer = (events ≫= applied_steer) ++ sn_pending_steers s)%list.
Proof.
  intros Hs%reachable_reduce. induction Hs as [first request Hv|events s e s' Hr IH Hs].
  - apply validate_run_created_Ok in Hv as (Hev & _).
    cbn. unfold queued_steer, applied_steer. by rewrite Hev.
  - apply step_steers in Hs. rewrite !bind_app, IH. cbn. rewrite !app_nil_r, <- !app_assoc.
    by rewrite Hs.
Qed.

(** ** Control *)

Lemma dispatch_control s run_id n ev s' :
  dispatch s run_id n ev = Ok s' →
  sn_pending_control s' =
    match ev with
    | ControlRequested c action => Some (mkPendingControl c action)
    | _ => sn_pending_control s
    end.
Proof. intros Hd. step_cases ev Hd; same_field. Qed.

Lemma on_terminal_control s run_id o s' c :
  on_terminal s run_id o = Ok s' → sn_pending_control s = Some c →
  matches_control (pc_action c) (ao_terminal o) = true.
Proof.
  unfold on_terminal. intros Ht Hc.
  do 3 (apply bind_Ok in Ht; destruct Ht as (? & ? & Ht)).
  apply bind_Ok in Ht as ([] & Hg & _). apply fail_if_Ok in Hg. rewrite Hc in Hg.
  cbn in Hg. by bprop.
Qed.

(** The control request of a log, once made, is the pending control of every later
    snapshot. *)
Lemma reachable_control events s i e c action :
  reachable events s → events !! i = Some e → sre_event e = ControlRequested c action →
  sn_pending_control s = Some (mkPendingControl c action) ∧
  (∀ j e', (i < j)%nat → events !! j = Some e' → is_settlement (sre_event e') = true) ∧
  (∀ o, sn_terminal s = Some o → matches_control action (ao_terminal o) = true).
Proof.
  induction 1 as [first request Hv|events s e0 s' Hr IH Hs]; intros Hi Hev.
  - apply validate_run_created_Ok in Hv as (Hc & _).
    destruct i; cbn in Hi; [|done]. injection Hi as <-. congruence.
  - pose proof Hs as Hst. apply step_terminal in Hst as [_ Hterm].
    pose proof Hs as (r & s1 & Ha & Hd & ->)%run_step_inv. cbn in *.
    apply admit_event_Ok in Ha as (_ & _ & _ & _ & _ & _ & Hctl & _).
    rewrite (dispatch_control _ _ _ _ _ Hd).
    apply lookup_app_Some in Hi as [Hi|[Hle Hi]].
    + destruct (IH Hi Hev) as (Hpc & Hset & _). rewrite Hpc in Hctl.
      specialize (Hctl eq_refl). split_and!.
      * by destruct (sre_event e0).
      * intros j e' Hj. rewrite lookup_app_Some. intros [?|[? Hx]]; [by eapply Hset|].
        apply list_lookup_singleton_Some in Hx as [_ <-]. done.
      * intros o Ho. rewrite Hterm in Ho. destruct (sre_event e0) eqn:He; try discriminate Ho.
        injection Ho as ->. cbn in Hd. exact (on_terminal_control _ _ _ _ _ Hd Hpc).
    + apply list_lookup_singleton_Some in Hi as [Hi0 <-]. rewrite Hev in *.
      split_and!; [done| |by intros o; rewrite Hterm].
      intros j e' Hj Hj'. apply lookup_lt_Some in Hj'. rewrite length_app in Hj'.
      cbn in Hj'. lia.
Qed.

(** A durable control request is honoured: after [ControlRequested] every accepted event
    is a settlement event, the request stays pending, and the run can only end in the
    terminal state the request asked for (interrupted or cancelled) or in an explicit
    recovery-required state. *)
Theorem control_request_is_honoured events s i e c action :
  reduce_events events = Ok s → events !! i = Some e →
  sre_event e = ControlRequested c action →
  sn_pending_control s = Some (mkPendingControl c action) ∧
  (∀ j e', (i < j)%nat → events !! j = Some e' → is_settlement (sre_event e') = true) ∧
  (∀ o, sn_terminal s = Some o → matches_control action (ao_terminal o) = true).
Proof. intros Hs%reachable_reduce. by eapply reachable_control. Qed.
End log_facts.
