(* ===== verification/ToolFacts.v ===== *)
(** Tool execution: an executable tool starts only with a committed authorization that permits
    it, and the workspace changes only through an authorized mutating tool, a Host
    verification or an explicit observation. *)
From Stdlib Require Import String.
From S2P Require Import Prelude Text Json Task Protocol Validate Context Snapshot Evidence.
From S2P Require Import RunEvents AgentEvents Reducer Steps LogFacts.

Open Scope string_scope.
Open Scope N_scope.

Section tool_facts.
Context `{Codecs}.
Implicit Types (s : RunSnapshot) (e : StoredRuntimeEvent) (events : list StoredRuntimeEvent).

(** [logged events k p]: the log holds an event that satisfies [p], at index [k]. *)
Definition logged events (k : nat) (p : RuntimeEventKind → Prop) : Prop :=
  ∃ e, events !! k = Some e ∧ p (sre_event e).

Lemma logged_app events more k p : logged events k p → logged (events ++ more) k p.
Proof. intros (e & He & Hp). exists e. by rewrite lookup_app_l by eauto using lookup_lt_Some. Qed.
Lemma logged_last events e (p : RuntimeEventKind → Prop) :
  p (sre_event e) → logged (events ++ [e]) (length events) p.
Proof. intros Hp. exists e. by rewrite lookup_app_r, Nat.sub_diag by lia. Qed.
#[local] Hint Resolve logged_app logged_last : dse.
Lemma logged_lt events k p : logged events k p → (k < length events)%nat.
Proof. intros (e & He & _). by eapply lookup_lt_Some. Qed.
Lemma logged_take events i k p : logged (take i events) k p → (k < i)%nat ∧ logged events k p.
Proof.
  intros (e & He & Hp). pose proof He as Hl%lookup_lt_Some. rewrite length_take in Hl.
  split; [lia|]. exists e. by rewrite lookup_take_lt in He by lia.
Qed.

(** Every event of an accepted log but the first was accepted by the snapshot of the events
    before it. *)
Lemma reachable_at events s i e :
  reachable events s → events !! i = Some e → i ≠ 0%nat →
  ∃ s0 s1, reachable (take i events) s0 ∧ run_step s0 e s1.
Proof.
  induction 1 as [first request Hv|events s e0 s' Hr IH Hs]; intros Hi Hne.
  - by destruct i.
  - apply lookup_app_Some in Hi as [Hi|[Hle Hi]].
    + destruct (IH Hi Hne) as (s0 & s1 & Hr0 & Hs0).
      pose proof Hi as Hl%lookup_lt_Some.
      rewrite take_app_le by lia. eauto.
    + apply list_lookup_singleton_Some in Hi as [Hz <-].
      replace i with (length events) by lia. rewrite take_app_length. eauto.
Qed.

(** ** The provenance of a pending tool *)

Definition permits (d : ToolAuthorizationDecision) (approved : Prop) : Prop :=
  match tad_disposition d with
  | DispositionAllow => True
  | DispositionAsk => approved
  | DispositionDeny => False
  end.

(** The decision binds the invocation the Host resolved from the model's call. *)
Definition binds_invocation s (invocation : ToolInvocation) (d : ToolAuthorizationDecision)
    : Prop :=
  ∃ execution,
    rte_invocation (resolve_tool_execution (rr_task_contract (sn_request s)) invocation)
      = Ok execution ∧
    tad_execution_grant d =
      rte_grant (resolve_tool_execution (rr_task_contract (sn_request s)) invocation) ∧
    tad_tool_name d = ti_name execution ∧
    tad_arguments_sha256 d = arguments_sha256 execution ∧
    tad_mode d = env_permission_mode (rr_environment (sn_request s)).

Record tool_logged s events (p : PendingToolAction) : Prop := {
  tl_prepared : ∃ j, logged events j
    (λ ev, ev = ToolPrepared (pta_operation_id p) (pta_invocation p) (pta_workspace_access p));
  tl_authorized : ∀ d, pta_authorization p = Some d →
    binds_invocation s (pta_invocation p) d ∧
    ∃ k, logged events k (λ ev, ev = ToolAuthorizationCommitted (pta_operation_id p) d);
  tl_response : ∀ i r, pta_interaction p = Some i → pui_response i = Some r →
    ∃ m, logged events m (λ ev, ∃ c,
      ev = InteractionResolved c (uireq_interaction_id (pui_request i)) r);
  tl_started : pta_state p = InFlight → is_host_tool (ti_name (pta_invocation p)) = false →
    ∃ d, pta_authorization p = Some d ∧
      permits d (∃ i, pta_interaction p = Some i ∧ pui_response i = Some ResponseApproved);
}.

Lemma tool_logged_app s s' events more p :
  sn_request s' = sn_request s → tool_logged s events p → tool_logged s' (events ++ more) p.
Proof.
  intros Hreq [[j Hj] Ha Hr Hs]. split.
  - exists j. by auto with dse.
  - intros d Hd. destruct (Ha d Hd) as [Hb [k Hk]]. unfold binds_invocation. rewrite Hreq.
    split; [done|]. exists k. by auto with dse.
  - intros i r Hi Hr'. destruct (Hr i r Hi Hr') as [m Hm]. exists m. by auto with dse.
  - done.
Qed.

Lemma validate_for_Ok d grant invocation ws u :
  validate_for d grant invocation ws = Ok u →
  tad_execution_grant d = grant ∧ tad_tool_name d = ti_name invocation ∧
  tad_arguments_sha256 d = arguments_sha256 invocation ∧ tad_workspace_state d = ws.
Proof.
  unfold validate_for. intros Hv.
  do 4 (apply bind_Ok in Hv as (? & _ & Hv)). apply bind_Ok in Hv as (? & Hg & _).
  apply fail_if_Ok in Hg. by bprop.
Qed.

Definition pending_tool_ok s events : Prop :=
  ∀ p, sn_pending_tool s = Some p → tool_logged s events p.

Lemma prepared_tool_logged s s' events e run_id op invocation access :
  sre_event e = ToolPrepared op invocation access →
  on_tool_prepared s run_id op invocation access = Ok s' →
  pending_tool_ok s' (events ++ [e]).
Proof.
  intros He Hd p Hp. unfold on_tool_prepared in Hd. inv_run. subst. cbn in Hp. simplify_eq.
  split; try done. exists (length events). by auto with dse.
Qed.

Lemma authorized_tool_logged s s' events e run_id op d :
  pending_tool_ok s events → sre_event e = ToolAuthorizationCommitted op d →
  on_tool_authorization_committed s run_id op d = Ok s' →
  pending_tool_ok s' (events ++ [e]).
Proof.
  intros Hok He Hd p Hp. unfold on_tool_authorization_committed, pending_tool_mut in Hd.
  repeat (apply bind_Ok in Hd; destruct Hd as (? & ? & Hd)). inv_run. bprop. simplify_eq.
  cbn in Hp. simplify_eq.
  match goal with Hp : sn_pending_tool s = Some _ |- _ => apply Hok in Hp as Hl end.
  apply (tool_logged_app _ s _ [e]) in Hl as [Hpr Ha Hr Hs]; [|done].
  split; cbn in *; try done.
  - intros d' [= ->].
    match goal with Hv : validate_for _ _ _ _ = _ |- _ =>
      apply validate_for_Ok in Hv as (? & ? & ? & _) end.
    split; [by eexists; split_and!|]. exists (length events). by auto with dse.
  - intros Hst. congruence.
Qed.

Lemma interaction_requested_logged s s' events e run_id request :
  pending_tool_ok s events → on_interaction_requested s run_id request = Ok s' →
  pending_tool_ok s' (events ++ [e]).
Proof.
  intros Hok Hd p Hp. unfold on_interaction_requested, pending_tool_mut in Hd.
  repeat (apply bind_Ok in Hd; destruct Hd as (? & ? & Hd)). inv_run. bprop. simplify_eq.
  cbn in Hp. simplify_eq.
  match goal with Hp : sn_pending_tool s = Some _ |- _ => apply Hok in Hp as Hl end.
  apply (tool_logged_app _ s _ [e]) in Hl as [Hpr Ha Hr Hs]; [|done].
  split; cbn in *; try done.
  - by intros i r [= <-].
  - intros Hst. congruence.
Qed.

Lemma interaction_resolved_logged s s' events e run_id n c iid response :
  pending_tool_ok s events → sre_event e = InteractionResolved c iid response →
  on_interaction_resolved s run_id n c iid response = Ok s' →
  pending_tool_ok s' (events ++ [e]).
Proof.
  intros Hok He Hd p Hp. unfold on_interaction_resolved in Hd.
  repeat (apply bind_Ok in Hd; destruct Hd as (? & ? & Hd)). split_shapes. inv_run. bprop.
  simplify_eq. cbn in Hp. simplify_eq.
  match goal with Hp : sn_pending_tool s = Some _ |- _ => apply Hok in Hp as Hl end.
  apply (tool_logged_app _ s _ [e]) in Hl as [Hpr Ha Hr Hs]; [|done].
  split; cbn in *; try done.
  - intros i r [= <-]. cbn. intros [= <-]. exists (length events). apply logged_last. eauto.
  - intros Hst Hn. destruct (Hs Hst Hn) as (d & Hd & Hper). exists d. split; [done|].
    unfold permits in *. destruct (tad_disposition d); try done.
    destruct Hper as (i & Hi & Hresp). simplify_eq.
Qed.

Lemma on_tool_execution_started_inv s run_id op s' :
  on_tool_execution_started s run_id op = Ok s' →
  ∃ p, sn_pending_tool s = Some p ∧ pta_operation_id p = op ∧
    s' = s <| sn_pending_tool := Some (p <| pta_state := InFlight |>) |> ∧
    (is_host_tool (ti_name (pta_invocation p)) = false →
     ∃ d, pta_authorization p = Some d ∧
       permits d (∃ i, pta_interaction p = Some i ∧ pui_response i = Some ResponseApproved)).
Proof.
  unfold on_tool_execution_started, pending_tool_mut. intros Hd.
  repeat (apply bind_Ok in Hd; destruct Hd as (? & ? & Hd)). inv_run; subst; bprop;
    eexists; (split_and!; [eassumption|done|done|]); intros Hn; try congruence;
    eexists; (split; [eassumption|]); unfold permits;
    match goal with Hdis : tad_disposition _ = _ |- _ => rewrite Hdis end; [done|].
  unfold is_some_and in *. case_match; [|done]. bprop. eauto.
Qed.

Lemma execution_started_logged s s' events e run_id op :
  pending_tool_ok s events → on_tool_execution_started s run_id op = Ok s' →
  pending_tool_ok s' (events ++ [e]).
Proof.
  intros Hok (p & Hp & Hop & -> & Hper)%on_tool_execution_started_inv p' [= <-].
  apply Hok in Hp as Hl.
  apply (tool_logged_app _ s _ [e]) in Hl as [Hpr Ha Hr Hs]; [|done]. by split.
Qed.

Lemma dispatch_pending_tool s run_id n ev s' :
  dispatch s run_id n ev = Ok s' →
  match ev with
  | ToolPrepared _ _ _ | ToolAuthorizationCommitted _ _ | InteractionRequested _
  | InteractionResolved _ _ _ | ToolExecutionStarted _ => True
  | ToolOutcomeCommitted _ _ _ _ _ => sn_pending_tool s' = None
  | _ => sn_pending_tool s' = sn_pending_tool s
  end.
Proof. intros Hd. step_cases ev Hd; try done; same_field. Qed.

Lemma step_pending_tool_ok s e s' events :
  run_step s e s' → pending_tool_ok s events → pending_tool_ok s' (events ++ [e]).
Proof.
  intros (r & s1 & _ & Hd & ->)%run_step_inv Hok.
  assert (pending_tool_ok s1 (events ++ [e])) as Hok'.
  { pose proof (dispatch_pending_tool _ _ _ _ _ Hd) as Hpt.
    pose proof (dispatch_request _ _ _ _ _ Hd) as Hreq.
    destruct (sre_event e) eqn:He; cbn [dispatch] in Hd; cbn in Hpt;
      try solve [intros p Hp; rewrite Hpt in Hp; try discriminate Hp; apply Hok in Hp;
                 by eapply tool_logged_app];
      eauto using prepared_tool_logged, authorized_tool_logged, interaction_requested_logged,
        interaction_resolved_logged, execution_started_logged. }
  intros p Hp. destruct (Hok' p Hp). by split.
Qed.

Lemma reachable_pending_tool events s : reachable events s → pending_tool_ok s events.
Proof.
  induction 1 as [first request Hv|events s e s' Hr IH Hs]; [by intros p|].
  eauto using step_pending_tool_ok.
Qed.


(** ** What may change the workspace *)

Lemma dispatch_workspace_cause s run_id n ev s' :
  dispatch s run_id n ev = Ok s' → sn_workspace_state s' ≠ sn_workspace_state s →
  match ev with
  | WorkspaceObserved ws | HostVerificationCommitted _ _ _ ws => sn_workspace_state s' = ws
  | ToolOutcomeCommitted op _ _ _ (Some ws) =>
    sn_workspace_state s' = ws ∧ ∃ p, sn_pending_tool s = Some p ∧ pta_operation_id p = op ∧
      pta_workspace_access p = WorkspaceMayWrite ∧ pta_state p = InFlight
  | _ => False
  end.
Proof.
  intros Hd. step_cases ev Hd; intros Hne; try done;
    try (exfalso; apply Hne; same_field).
  match goal with Hw : settle_workspace _ _ _ _ _ = Ok _ |- _ =>
    apply settle_workspace_shape in Hw as [[-> _]|(? & ? & -> & _)] end; [done|].
  split; [done|]. eauto.
Qed.

(** The workspace state of a run changes only through (a) an explicit workspace
    observation, (b) the commit of a Host verification, or (c) the outcome of a tool that was
    declared mutating, was actually in flight, and - unless it is a Host-handled tool - holds
    an authorization that permits it.  Every other accepted event, in particular every
    outcome of a read-only tool, leaves it untouched. *)
Theorem workspace_changes_are_authorized events s e s' :
  reduce_events events = Ok s → run_step s e s' →
  sn_workspace_state s' ≠ sn_workspace_state s →
  sre_event e = WorkspaceObserved (sn_workspace_state s') ∨
  (∃ vid o r, sre_event e = HostVerificationCommitted vid o r (sn_workspace_state s')) ∨
  (∃ op call name o p,
     sre_event e = ToolOutcomeCommitted op call name o (Some (sn_workspace_state s')) ∧
     sn_pending_tool s = Some p ∧ pta_operation_id p = op ∧
     pta_workspace_access p = WorkspaceMayWrite ∧ pta_state p = InFlight ∧
     (is_host_tool (ti_name (pta_invocation p)) = true ∨
      ∃ d, pta_authorization p = Some d ∧ binds_invocation s (pta_invocation p) d ∧
        permits d (∃ i, pta_interaction p = Some i ∧ pui_response i = Some ResponseApproved))).
Proof.
  intros Hs%reachable_reduce (r & s1 & _ & Hd & ->)%run_step_inv Hne. cbn in *.
  pose proof (dispatch_workspace_cause _ _ _ _ _ Hd Hne) as Hc.
  destruct (sre_event e); try done; subst; [|by left|right; left; eauto].
  destruct workspace_state as [ws|]; [|done]. destruct Hc as (-> & p & Hp & <- & Hacc & Hst).
  right; right. eexists _, _, _, _, p. split_and!; try done.
  destruct (is_host_tool _) eqn:Hhost; [by left|right].
  destruct (reachable_pending_tool _ _ Hs p Hp) as [_ Ha _ Hstart].
  destruct (Hstart Hst Hhost) as (d & Hd' & Hper). exists d. split_and!; [done| |done].
  by destruct (Ha d Hd').
Qed.
End tool_facts.

#[export] Hint Resolve logged_app logged_last : dse.
