(* ===== verification/EvidenceFacts.v ===== *)
(** Evidence and completion: where every receipt comes from, the order of a
    failed-write-pass lineage, and what a completed run proves. *)
From Stdlib Require Import String.
From S2P Require Import Prelude Text Json Task Protocol Validate Context Snapshot Evidence.
From S2P Require Import RunEvents AgentEvents Reducer Steps LogFacts ToolFacts.

Open Scope string_scope.
Open Scope N_scope.

Section evidence_facts.
Context `{Codecs}.
Implicit Types (s : RunSnapshot) (e : StoredRuntimeEvent) (events : list StoredRuntimeEvent).

(** ** What a sealed receipt and a recorded failure say *)

(** [o] is the passing run of the receipt's verifier on the receipt's workspace content. *)
Definition verified_pass (o : ToolOutcome) (r : EvidenceReceipt) : Prop :=
  ∃ obs sha256, to_verifier_observation o = Some obs ∧ obs_spec obs = er_verifier r ∧
    obs_verdict obs = VerdictPassed ∧ ToolOutcome_is_success o = true ∧
    to_side_effect o ≠ SideEffectApplied ∧
    ws_revision (er_workspace_state r) = Known sha256 ∧
    obs_workspace_revision obs = Known sha256 ∧ er_artifact_ids r = obs_artifact_ids obs ∧
    verifier_artifacts_are_available o obs = true.

(** [o] is a deterministic failure of [verifier] recorded as [f]. *)
Definition verified_failure (o : ToolOutcome) (verifier : VerifierSpec)
    (f : FailedVerifierEvidence) : Prop :=
  ∃ obs, to_verifier_observation o = Some obs ∧ obs_spec obs = verifier ∧
    obs_verdict obs = VerdictFailed ∧ to_operation o = OperationFailedStatus ∧
    to_side_effect o ≠ SideEffectApplied ∧
    obs_workspace_revision obs = ws_revision (fve_workspace_state f) ∧
    obs_artifact_ids obs = fve_artifact_ids f.

Lemma has_stable_verifier_revision_true o before after obs :
  has_stable_verifier_revision o before after = true →
  to_verifier_observation o = Some obs →
  ∃ sha256, before = Known sha256 ∧ after = Known sha256 ∧
    obs_workspace_revision obs = Known sha256 ∧ to_side_effect o ≠ SideEffectApplied.
Proof.
  unfold has_stable_verifier_revision. intros Hh Ho. rewrite Ho in Hh. bprop.
  destruct before, after, (obs_workspace_revision obs), (to_workspace_revision o);
    try done; bprop; subst; eauto.
Qed.

Lemma seal_evidence_receipt_sound s vid aid policy verifier o after r :
  seal_evidence_receipt s vid aid policy verifier o after = Ok r →
  verified_pass o r ∧ EvidenceReceipt_validate r = Ok tt ∧
  er_id r = receipt_id_of vid ∧ er_verification_id r = vid ∧ er_acceptance_id r = aid ∧
  er_verifier r = verifier ∧ er_workspace_state r = after ∧
  ws_revision after = ws_revision (sn_workspace_state s) ∧
  (∃ contract, rr_task_contract (sn_request s) = Some contract ∧
     er_generation_id r = contract_generation_id contract) ∧
  expected_evidence_lineage s aid verifier policy = Some (er_lineage r).
Proof.
  unfold seal_evidence_receipt, check_verdict. intros Hs. inv_run; subst; bprop; try done.
  match goal with Hh : has_stable_verifier_revision _ _ _ = true,
      Ho : to_verifier_observation o = Some _ |- _ =>
    destruct (has_stable_verifier_revision_true _ _ _ _ Hh Ho) as (sha & Hb & Ha & Hr & ?) end.
  cbn. split_and!; try done; [|by rewrite Ha, Hb|by eexists].
  eexists _, _. by split_and!.
Qed.

Lemma failed_temporal_progress_Some s o source ws expected p :
  failed_temporal_progress s o source ws expected = Some p →
  tep_mutation p = None ∧ fve_source (tep_failure p) = source ∧
  fve_workspace_state (tep_failure p) = ws ∧
  verified_failure o (tep_verifier p) (tep_failure p).
Proof.
  unfold failed_temporal_progress.
  destruct (to_verifier_observation o) as [obs|] eqn:Hobs; cbn; [|done].
  destruct (_ || _) eqn:Hg; [done|]. bprop.
  destruct (rr_task_contract (sn_request s)) as [contract|]; cbn; [|done].
  destruct (find_map _ _) as [[aid verifier]|] eqn:Hf; cbn; [|done].
  repeat (destruct (negb _); [done|]). intros [= <-]. cbn. split_and!; try done.
  apply find_map_Some in Hf as (a & _ & Ha). destruct a as [|id d [] v]; try done.
  destruct (_ && _) eqn:Hc; [|done]. injection Ha as -> ->. bprop.
  exists obs. by split_and!.
Qed.

(** ** The progress of a failed-write-pass lineage *)

Definition progress_failure_event (p : TemporalEvidenceProgress) (ev : RuntimeEventKind)
    : Prop :=
  match ev with
  | ToolOutcomeCommitted op _ _ o _ =>
    fve_source (tep_failure p) = SourceTool op ∧
    verified_failure o (tep_verifier p) (tep_failure p)
  | HostVerificationCommitted vid o None after =>
    fve_source (tep_failure p) = SourceHost vid ∧
    fve_workspace_state (tep_failure p) = after ∧
    verified_failure o (tep_verifier p) (tep_failure p)
  | _ => False
  end.

(** The event that recorded the mutation: an executed, applied change by another tool than
    the verifier. *)
Definition mutation_event (verifier : VerifierSpec) (m : WorkspaceMutationEvidence)
    (ev : RuntimeEventKind) : Prop :=
  ∃ call name o,
    ev = ToolOutcomeCommitted (wme_operation_id m) call name o (Some (wme_after m)) ∧
    to_side_effect o = SideEffectApplied ∧ name ≠ spec_verifier_id verifier ∧
    WorkspaceMutationEvidence_validate m = Ok tt.

Lemma advance_temporal_progress_cases s run_id pending op name o before s' :
  advance_temporal_progress s run_id pending op name o before = Ok s' →
  sn_workspace_state s' = sn_workspace_state s ∧
  (sn_temporal_evidence_progress s' = sn_temporal_evidence_progress s ∨
   sn_temporal_evidence_progress s' = None ∨
   ∃ q, let m := mkWorkspaceMutationEvidence op before (sn_workspace_state s) in
     sn_temporal_evidence_progress s = Some q ∧
     sn_temporal_evidence_progress s' = Some (q <| tep_mutation := Some m |>) ∧
     to_side_effect o = SideEffectApplied ∧ name ≠ spec_verifier_id (tep_verifier q) ∧
     WorkspaceMutationEvidence_validate m = Ok tt).
Proof.
  unfold advance_temporal_progress. intros Hs. inv_run; subst; cbn; auto.
  split; [done|]. right; right. eexists. bprop. split_and!; try done.
  unfold is_some_and in *. by bprop.
Qed.

(** The progress after a tool outcome: kept, dropped, extended with the outcome's mutation,
    or started by the outcome's own verifier failure. *)
Lemma on_tool_outcome_progress s run_id op call name o ws s' p :
  on_tool_outcome_committed s run_id op call name o ws = Ok s' →
  sn_temporal_evidence_progress s' = Some p →
  (tep_mutation p = None ∧ fve_source (tep_failure p) = SourceTool op ∧
   verified_failure o (tep_verifier p) (tep_failure p)) ∨
  sn_temporal_evidence_progress s = Some p ∨
  (∃ q m, sn_temporal_evidence_progress s = Some q ∧ p = q <| tep_mutation := Some m |> ∧
     mutation_event (tep_verifier q) m (ToolOutcomeCommitted op call name o ws)).
Proof.
  unfold on_tool_outcome_committed. intros Hs Hp.
  do 5 (apply bind_Ok in Hs; destruct Hs as (? & ? & Hs)).
  apply bind_Ok in Hs as (after & Hset & Hs). apply bind_Ok in Hs as (s1 & Hadv & Hs).
  apply bind_Ok in Hs as ([] & _ & Hs). injection Hs as <-. cbn in Hp.
  set (det := _ && _ && is_some_and _ _) in Hp.
  assert (sn_temporal_evidence_progress s1 = Some p ∨
          failed_temporal_progress s1 o (SourceTool op) (sn_workspace_state s1) None = Some p)
    as [Hp1|Hp1].
  { destruct det; [|by left].
    destruct (failed_temporal_progress _ _ _ _ _) as [q|]; [|by left].
    right. exact Hp. }
  - right. apply advance_temporal_progress_cases in Hadv as [_ [Ha|[Ha|(q & Hq & Ha & He & Hn & Hv)]]].
    + left. rewrite Ha in Hp1. exact Hp1.
    + congruence.
    + right. rewrite Ha in Hp1. injection Hp1 as <-. cbn in Hq, Hv.
      exists q. eexists. split_and!; [done|done|]. exists call, name, o.
      apply settle_workspace_shape in Hset as [[-> ->]|(_ & _ & -> & _)]; [|done].
      exfalso. unfold WorkspaceMutationEvidence_validate in Hv. inv_ok. cbn in *. by bprop.
  - left. apply failed_temporal_progress_Some in Hp1 as (? & ? & _ & ?). done.
Qed.

Definition progress_ok s events : Prop :=
  ∀ p, sn_temporal_evidence_progress s = Some p →
    ∃ i, logged events i (progress_failure_event p) ∧
      ∀ m, tep_mutation p = Some m →
        ∃ j, (i < j)%nat ∧ logged events j (mutation_event (tep_verifier p) m).

Lemma progress_ok_mono s s' events e p :
  progress_ok s events → sn_temporal_evidence_progress s = Some p →
  sn_temporal_evidence_progress s' = Some p →
  ∃ i, logged (events ++ [e]) i (progress_failure_event p) ∧
    ∀ m, tep_mutation p = Some m →
      ∃ j, (i < j)%nat ∧ logged (events ++ [e]) j (mutation_event (tep_verifier p) m).
Proof.
  intros Hok Hp _. destruct (Hok p Hp) as (i & Hi & Hm). exists i.
  split; [by auto with dse|]. intros m Hm'. destruct (Hm m Hm') as (j & Hij & Hj).
  exists j. split; [done|by auto with dse].
Qed.

Lemma dispatch_progress s run_id n ev s' :
  dispatch s run_id n ev = Ok s' →
  match ev with
  | ToolOutcomeCommitted _ _ _ _ _ | HostVerificationCommitted _ _ _ _ => True
  | WorkspaceObserved _ => sn_temporal_evidence_progress s' = sn_temporal_evidence_progress s ∨
      sn_temporal_evidence_progress s' = None
  | _ => sn_temporal_evidence_progress s' = sn_temporal_evidence_progress s
  end.
Proof. intros Hd. step_cases ev Hd; try done; try same_field; repeat case_match; auto. Qed.

Lemma on_host_verification_progress s run_id vid o receipt after s' p :
  on_host_verification_committed s run_id vid o receipt after = Ok s' →
  sn_temporal_evidence_progress s' = Some p →
  sn_temporal_evidence_progress s = Some p ∨
  (tep_mutation p = None ∧
   progress_failure_event p (HostVerificationCommitted vid o receipt after)).
Proof.
  intros (pending & contract & policy & s1 & _ & _ & _ & _ & _ & _ & _ & _ & Hs & ->)
    %on_host_verification_committed_shape.
  cbn. unfold settle_verification in Hs. intros Hp.
  destruct (seal_evidence_receipt _ _ _ _ _ _ _), receipt; inv_run; subst; try done.
  destruct (failed_temporal_progress _ _ _ _ _) as [q|] eqn:Hf.
  - cbn in Hp. injection Hp as ->. right.
    apply failed_temporal_progress_Some in Hf as (? & ? & ? & ?). by split_and!.
  - left. revert Hp. case_match; cbn; [done|auto].
Qed.

Lemma step_progress_ok s e s' events :
  run_step s e s' → progress_ok s events → progress_ok s' (events ++ [e]).
Proof.
  intros (r & s1 & _ & Hd & ->)%run_step_inv Hok p Hp. cbn in Hp.
  pose proof (dispatch_progress _ _ _ _ _ Hd) as Hpr.
  destruct (sre_event e) eqn:He; cbn in Hpr;
    try solve [rewrite Hpr in Hp; by eapply (progress_ok_mono s)].
  - cbn in Hd. eapply on_tool_outcome_progress in Hd as [(Hm & Hsrc & Hf)|[Hq|(q & m & Hq & -> & Hm)]];
      [|by eapply (progress_ok_mono s)| |done].
    + exists (length events). split; [apply logged_last; by rewrite He|]. congruence.
    + destruct (Hok q Hq) as (i & Hi & _). exists i. split; [by auto with dse|].
      cbn. intros m' [= <-]. exists (length events). split; [by eapply logged_lt|].
      apply logged_last. by rewrite He.
  - destruct Hpr as [Hpr|Hpr]; rewrite Hpr in Hp; [by eapply (progress_ok_mono s)|done].
  - cbn in Hd. eapply on_host_verification_progress in Hd as [Hq|[Hm Hf]];
      [by eapply (progress_ok_mono s)| |done].
    exists (length events). split; [apply logged_last; by rewrite He|]. congruence.
Qed.

Lemma reachable_progress events s : reachable events s → progress_ok s events.
Proof.
  induction 1; [by intros p|]. eauto using step_progress_ok.
Qed.

(** ** Where receipts come from *)

Definition receipt_event (r : EvidenceReceipt) (ev : RuntimeEventKind) : Prop :=
  ∃ o, ev = HostVerificationCommitted (er_verification_id r) o (Some r) (er_workspace_state r) ∧
    verified_pass o r.

Record receipt_logged s events (r : EvidenceReceipt) : Prop := {
  rl_valid : EvidenceReceipt_validate r = Ok tt;
  rl_id : er_id r = receipt_id_of (er_verification_id r);
  rl_generation : ∃ contract, rr_task_contract (sn_request s) = Some contract ∧
    er_generation_id r = contract_generation_id contract;
  rl_event : ∃ k, logged events k (receipt_event r) ∧
    ∀ f m, er_lineage r = FailedWritePass f m →
      ∃ i j, (i < j < k)%nat ∧
        logged events i (progress_failure_event
          (mkTemporalEvidenceProgress (er_acceptance_id r) (er_verifier r) f (Some m))) ∧
        logged events j (mutation_event (er_verifier r) m);
}.

Definition receipts_ok s events : Prop :=
  NoDup (er_id <$> sn_evidence_receipts s) ∧
  ∀ r, r ∈ sn_evidence_receipts s → receipt_logged s events r.

Lemma receipt_logged_app s s' events e r :
  sn_request s' = sn_request s → receipt_logged s events r → receipt_logged s' (events ++ [e]) r.
Proof.
  intros Hreq [Hv Hid Hg (k & Hk & Hl)]. split; [done|done|by rewrite Hreq|].
  exists k. split; [by auto with dse|]. intros f m Hfm.
  destruct (Hl f m Hfm) as (i & j & Hij & Hi & Hj). exists i, j.
  split_and!; [lia|lia|by auto with dse|by auto with dse].
Qed.

Lemma dispatch_evidence_same s run_id n ev s' :
  dispatch s run_id n ev = Ok s' →
  match ev with
  | HostVerificationCommitted _ _ _ _ => True
  | _ => sn_evidence_receipts s' = sn_evidence_receipts s
  end.
Proof. intros Hd. step_cases ev Hd; try done; same_field. Qed.

Lemma delegated_lineage_Some s aid verifier l x :
  delegated_lineage s aid verifier l = Some x →
  ∃ child receipt m, x = DelegatedFailedWritePass child receipt m.
Proof.
  unfold delegated_lineage.
  destruct (atl_integration l) as [i|]; cbn; [|done].
  destruct (ail_committed i) as [c|]; cbn; [|done].
  destruct (_ || _); [done|]. destruct (atl_result l) as [r|]; cbn; [|done].
  destruct (find_first _ _); cbn; [|done]. destruct (negb _); [done|]. intros [= <-]. eauto.
Qed.

Lemma expected_lineage_failed_write_pass s aid verifier policy f m :
  expected_evidence_lineage s aid verifier policy = Some (FailedWritePass f m) →
  sn_temporal_evidence_progress s = Some (mkTemporalEvidenceProgress aid verifier f (Some m)).
Proof.
  unfold expected_evidence_lineage. destruct policy; [done|].
  destruct (sn_temporal_evidence_progress s) as [[a v f' [m'|]]|]; cbn; [|done|].
  - destruct (_ || _) eqn:Hg; [done|]. intros [= <- <-]. bprop. by subst.
  - intros (l & _ & Hl)%find_map_Some.
    apply delegated_lineage_Some in Hl as (? & ? & ? & ?). done.
Qed.

Lemma verification_receipts_ok s run_id vid o receipt after s' events e :
  reachable events s → receipts_ok s events →
  sre_event e = HostVerificationCommitted vid o receipt after →
  on_host_verification_committed s run_id vid o receipt after = Ok s' →
  receipts_ok s' (events ++ [e]).
Proof.
  intros Hr [Hnd Hok] He
    (pending & contract & policy & s1 & _ & _ & _ & _ & _ & _ & _ & _ & Hs & ->)
    %on_host_verification_committed_shape.
  apply settle_verification_shape in Hs
    as [(r & -> & Hseal & Hfresh & ->)|(cause & progress & -> & _ & ->)]; cbn.
  - pose proof (seal_evidence_receipt_sound _ _ _ _ _ _ _ _ Hseal)
      as (Hpass & Hval & Hid & Hvid & Haid & Hver & Haft & Hrev & Hgen & Hlin).
    split.
    + cbn. rewrite fmap_app, NoDup_app. split_and!; [done| |apply NoDup_singleton].
      intros x Hx Hin. cbn in Hin. apply list_elem_of_singleton in Hin as ->. done.
    + intros r' [Hr'|Hr']%elem_of_app; [by eapply receipt_logged_app, Hok|].
      apply list_elem_of_singleton in Hr' as ->. split; [done|by rewrite Hvid|done|].
      exists (length events). split.
      * apply logged_last. exists o. by rewrite He, Hvid, Haft.
      * intros f m Hfm. rewrite Hfm in Hlin. apply expected_lineage_failed_write_pass in Hlin.
        destruct (reachable_progress _ _ Hr _ Hlin) as (i & Hi & Hm).
        destruct (Hm m eq_refl) as (j & Hij & Hj). cbn in Hj. rewrite Haid, Hver.
        exists i, j. split_and!; [done|by eapply logged_lt|by auto with dse|by auto with dse].
  - split; [done|]. intros r' Hr'. by eapply receipt_logged_app, Hok.
Qed.

Lemma reachable_receipts events s : reachable events s → receipts_ok s events.
Proof.
  induction 1 as [first request Hv|events s e s' Hr IH Hs].
  - split; cbn; [constructor|]. intros r Hin. by apply elem_of_nil in Hin.
  - pose proof (step_request _ _ _ Hs) as Hreq.
    apply run_step_inv in Hs as (r & s1 & _ & Hd & ->).
    assert (receipts_ok s1 (events ++ [e])) as [Hnd Hok].
    { pose proof (dispatch_evidence_same _ _ _ _ _ Hd) as Hev.
      destruct (sre_event e) eqn:He; cbn in Hev; cbn [dispatch] in Hd;
        try solve [destruct IH as [Hnd Hok]; split; rewrite Hev; [done|];
                   intros r' Hr'; by eapply receipt_logged_app, Hok].
      eapply verification_receipts_ok; eauto. }
    split; [done|]. intros r' Hr'. destruct (Hok r' Hr'). by split.
Qed.


(** A [failed_write_pass] receipt rests on three events of the log in that order: a
    deterministic failure of the same verifier, then an executed and applied workspace
    change by another tool, then the passing Host verification that sealed the receipt; the
    workspace epochs grow strictly from the failure to the change to the pass, the change is
    a real content change and the final content is the changed one, not the failed one. *)
Theorem failed_write_pass_is_ordered events s r f m :
  reduce_events events = Ok s → r ∈ sn_evidence_receipts s →
  er_lineage r = FailedWritePass f m →
  (∃ i j k, (i < j < k)%nat ∧
     logged events i (progress_failure_event
       (mkTemporalEvidenceProgress (er_acceptance_id r) (er_verifier r) f (Some m))) ∧
     logged events j (mutation_event (er_verifier r) m) ∧
     logged events k (receipt_event r)) ∧
  ws_generation (fve_workspace_state f) ≤ ws_generation (wme_before m) ∧
  ws_generation (wme_after m) = ws_generation (wme_before m) + 1 ∧
  ws_generation (wme_after m) < ws_generation (er_workspace_state r) ∧
  ws_revision (er_workspace_state r) = ws_revision (wme_after m) ∧
  ws_revision (wme_before m) ≠ ws_revision (wme_after m) ∧
  ws_revision (fve_workspace_state f) ≠ ws_revision (er_workspace_state r).
Proof.
  intros Hs%reachable_reduce Hr Hl. destruct (reachable_receipts _ _ Hs) as [_ Hok].
  destruct (Hok r Hr) as [Hval _ _ (k & Hk & Hlin)].
  destruct (Hlin f m Hl) as (i & j & Hijk & Hi & Hj). split; [by exists i, j, k|].
  unfold EvidenceReceipt_validate in Hval.
  do 9 (apply bind_Ok in Hval; destruct Hval as (? & ? & Hval)).
  rewrite Hl in Hval. by eapply failed_write_pass_ordered.
Qed.
End evidence_facts.
