(* ===== verification/CompletionFacts.v ===== *)
(** What a completed run proves: the chain from the model's final answer through Host
    acceptance and Host verification to the terminal event. *)
From Stdlib Require Import String.
From S2P Require Import Prelude Text Json Task Protocol Validate Context Snapshot Evidence.
From S2P Require Import RunEvents AgentEvents Reducer Steps LogFacts ToolFacts EvidenceFacts.

Open Scope string_scope.
Open Scope N_scope.

Section completion_facts.
Context `{Codecs}.
Implicit Types (s : RunSnapshot) (e : StoredRuntimeEvent) (events : list StoredRuntimeEvent).

(** ** The candidate *)

Definition output_ok s events : Prop :=
  ∀ n out, sn_last_model_response_sequence s = Some n → sn_last_model_output s = Some out →
    ∃ k e attempt acc, events !! k = Some e ∧
      sre_event e = ModelResponseCommitted attempt out acc ∧ sre_sequence e = n.

Lemma dispatch_output s run_id n ev s' :
  dispatch s run_id n ev = Ok s' →
  match ev with
  | ModelResponseCommitted _ out _ =>
    sn_last_model_response_sequence s' = Some n ∧ sn_last_model_output s' = Some out
  | _ => sn_last_model_response_sequence s' = sn_last_model_response_sequence s ∧
         sn_last_model_output s' = sn_last_model_output s
  end.
Proof. intros Hd. step_cases ev Hd; split; same_field. Qed.

Lemma step_output_ok s e s' events :
  run_step s e s' → output_ok s events → output_ok s' (events ++ [e]).
Proof.
  intros (r & s1 & _ & Hd & ->)%run_step_inv Hok n out Hn Hout. cbn in Hn, Hout.
  pose proof (dispatch_output _ _ _ _ _ Hd) as Ho.
  destruct (sre_event e) eqn:He; destruct Ho as [Ho1 Ho2]; rewrite Ho1 in Hn;
    rewrite Ho2 in Hout;
    try solve [destruct (Hok n out Hn Hout) as (k & e' & at' & acc & Hk & ? & ?);
               exists k, e', at', acc; by rewrite lookup_app_l by eauto using lookup_lt_Some].
  simplify_eq. exists (length events), e. eexists _, _.
  rewrite lookup_app_r, Nat.sub_diag by lia. by split_and!.
Qed.

(** The model turn a completion candidate repeats word for word. *)
Definition candidate_origin events (c : CompletionCandidate) : Prop :=
  ∃ j e attempt out acc, events !! j = Some e ∧
    sre_event e = ModelResponseCommitted attempt out acc ∧
    cc_id c = candidate_id_of (sre_sequence e) ∧ cc_message c = mo_content out ∧
    mo_finish_reason out = FinishStop ∧ mo_tool_calls out = [] ∧
    trim_is_empty (mo_content out) = false.

Definition candidate_ok s events : Prop :=
  ∀ c, sn_pending_completion s = Some c →
    candidate_origin events c ∧ ∃ k, logged events k (λ ev, ev = CompletionProposed c).

Lemma dispatch_candidate s run_id n ev s' c :
  dispatch s run_id n ev = Ok s' → sn_pending_completion s' = Some c →
  match ev with
  | CompletionProposed c' => c' = c
  | _ => sn_pending_completion s = Some c
  end.
Proof.
  intros Hd. step_cases ev Hd; intros Hc;
    first [exact Hc | discriminate Hc | (repeat case_match; exact Hc) | by injection Hc].
Qed.

Lemma on_completion_proposed_origin s run_id c s' events :
  output_ok s events → on_completion_proposed s run_id c = Ok s' → candidate_origin events c.
Proof.
  intros Hok Hd. unfold on_completion_proposed in Hd. inv_run. bprop.
  match goal with Hn : sn_last_model_response_sequence s = Some _,
      Ho : sn_last_model_output s = Some _ |- _ =>
    destruct (Hok _ _ Hn Ho) as (k & e & attempt & acc & Hk & He & <-) end.
  exists k, e, attempt. eexists _, acc. by split_and!.
Qed.

Lemma candidate_origin_app events more c :
  candidate_origin events c → candidate_origin (events ++ more) c.
Proof.
  intros (j & e & a & out & acc & Hj & Hr). exists j, e, a, out, acc.
  by rewrite lookup_app_l by eauto using lookup_lt_Some.
Qed.

Lemma step_candidate_ok s e s' events :
  run_step s e s' → output_ok s events → candidate_ok s events →
  candidate_ok s' (events ++ [e]).
Proof.
  intros (r & s1 & _ & Hd & ->)%run_step_inv Hout Hok c Hc. cbn in Hc.
  pose proof (dispatch_candidate _ _ _ _ _ _ Hd Hc) as Hp.
  destruct (sre_event e) eqn:He; cbn in Hp;
    try solve [destruct (Hok c Hp) as [? [k ?]];
               split; [by apply candidate_origin_app|exists k; by auto with dse]].
  subst. split.
  - apply candidate_origin_app. by eapply on_completion_proposed_origin.
  - exists (length events). by auto with dse.
Qed.

Lemma reachable_candidate events s :
  reachable events s → output_ok s events ∧ candidate_ok s events.
Proof.
  induction 1 as [first request Hv|events s e s' Hr [IH1 IH2] Hs].
  - split; [by intros n out|by intros c].
  - split; eauto using step_output_ok, step_candidate_ok.
Qed.

(** ** Host acceptance receipts *)

Definition host_receipt_event (r : HostAcceptanceReceipt) (ev : RuntimeEventKind) : Prop :=
  ∃ c, ev = HostCompletionAccepted c r ∧ har_id r = host_receipt_id_of c.

Definition host_receipts_ok s events : Prop :=
  NoDup (har_id <$> sn_host_acceptance_receipts s) ∧
  ∀ r, r ∈ sn_host_acceptance_receipts s →
    ∃ k, logged events k (host_receipt_event r).

Lemma dispatch_host_receipts s run_id n ev s' :
  dispatch s run_id n ev = Ok s' →
  match ev with
  | HostCompletionAccepted c r =>
    har_id r = host_receipt_id_of c ∧ har_id r ∉ (har_id <$> sn_host_acceptance_receipts s) ∧
    sn_host_acceptance_receipts s' = (sn_host_acceptance_receipts s ++ [r])%list
  | _ => sn_host_acceptance_receipts s' = sn_host_acceptance_receipts s
  end.
Proof.
  intros Hd. step_cases ev Hd; try same_field. inv_run. bprop. split_and!; try done.
  rewrite list_elem_of_fmap. intros (y & Hy & Hin).
  match goal with Hg : existsb _ _ = false |- _ =>
    rewrite existsb_false_elem_of in Hg; specialize (Hg _ Hin);
    apply bool_decide_eq_false in Hg; by apply Hg end.
Qed.

Lemma reachable_host_receipts events s : reachable events s → host_receipts_ok s events.
Proof.
  induction 1 as [first request Hv|events s e s' Hr [Hnd IH] Hs].
  - split; cbn; [constructor|]. intros r Hin. by apply elem_of_nil in Hin.
  - apply run_step_inv in Hs as (r & s1 & _ & Hd & ->).
    pose proof (dispatch_host_receipts _ _ _ _ _ Hd) as Hev. unfold host_receipts_ok. cbn.
    destruct (sre_event e) eqn:He; cbn in Hev;
      try solve [rewrite Hev; split; [done|]; intros r' Hr'; destruct (IH r' Hr') as [k ?];
                 exists k; by auto with dse].
    destruct Hev as (Hid & Hfresh & ->). split.
    + rewrite fmap_app, NoDup_app. split_and!; [done| |apply NoDup_singleton].
      intros x Hx Hin. cbn in Hin. apply list_elem_of_singleton in Hin as ->. done.
    + intros r' [Hr'|Hr']%elem_of_app.
      * destruct (IH r' Hr') as [k ?]. exists k. by auto with dse.
      * apply list_elem_of_singleton in Hr' as ->. exists (length events).
        apply logged_last. rewrite He. by eexists.
Qed.

(** ** The decision *)

(** [a] is met in the final snapshot [s] for the candidate [c]. *)
Definition acceptance_met events s (c : CompletionCandidate) (a : TaskAcceptance) : Prop :=
  match a with
  | AcceptVerifier id _ policy verifier =>
    ∃ r k, r ∈ sn_evidence_receipts s ∧ logged events k (receipt_event r) ∧
      er_acceptance_id r = id ∧ er_verifier r = verifier ∧
      er_workspace_state r = sn_workspace_state s ∧
      lineage_satisfies (er_lineage r) policy = true
  | AcceptHost _ _ =>
    ∃ r k, r ∈ sn_host_acceptance_receipts s ∧ logged events k (host_receipt_event r) ∧
      har_candidate_id r = cc_id c ∧
      ws_revision (har_workspace_state r) = ws_revision (sn_workspace_state s) ∧
      ws_generation (har_workspace_state r) ≤ ws_generation (sn_workspace_state s) ∧
      ws_generation (sn_workspace_state s) ≤ ws_generation (har_workspace_state r) + 1
  end.

Lemma check_acceptance_met events s run_id c contract decision a :
  receipts_ok s events → host_receipts_ok s events → cd_candidate_id decision = cc_id c →
  check_acceptance s run_id c contract decision a = Ok tt → acceptance_met events s c a.
Proof.
  intros [_ Her] [_ Hhr] Hid. unfold check_acceptance, acceptance_met. intros Hc.
  apply bind_Ok in Hc as (sat & _ & Hc). destruct a as [id d|id d policy v], sat; try done.
  - apply bind_Ok in Hc as (r & Hr & Hc). apply ok_or_Ok in Hr.
    apply find_first_Some in Hr as [Hr _]. destruct (Hhr r Hr) as [k Hk].
    apply fail_if_Ok in Hc. bprop. exists r, k.
    match goal with Ho : (_ || _)%bool = true |- _ => apply orb_true_iff in Ho as [Ho|Ho] end;
      bprop.
    + match goal with Hw : har_workspace_state r = _ |- _ => rewrite Hw end.
      split_and!; try done; [congruence|lia].
    + match goal with Hw : checked_add _ _ _ = Some _ |- _ => apply checked_add_Some in Hw as [Hw _] end.
      split_and!; try done; [congruence|lia|lia].
  - apply bind_Ok in Hc as (r & Hr & Hc). apply ok_or_Ok in Hr.
    apply find_first_Some in Hr as [Hr _].
    destruct (Her r Hr) as [_ _ _ (k & Hk & _)].
    apply fail_if_Ok, negb_false_iff in Hc. unfold receipt_proves in Hc. bprop.
    exists r, k. by split_and!.
Qed.

Lemma on_terminal_completed s run_id o s' message decision :
  on_terminal s run_id o = Ok s' → ao_terminal o = Completed message decision →
  s' = s <| sn_accounting := ao_accounting o |> <| sn_terminal := Some o |> ∧
  ∃ c contract, sn_pending_completion s = Some c ∧ message = cc_message c ∧
    rr_task_contract (sn_request s) = Some contract ∧
    cd_candidate_id decision = cc_id c ∧
    cd_generation_id decision = contract_generation_id contract ∧
    cd_workspace_state decision = sn_workspace_state s ∧
    Forall (λ a, check_acceptance s run_id c contract decision a = Ok tt)
      (def_acceptance (contract_definition contract)).
Proof.
  unfold on_terminal. intros Ht Ho. rewrite Ho in Ht.
  do 6 (apply bind_Ok in Ht; destruct Ht as (? & _ & Ht)).
  apply bind_Ok in Ht as ([] & Hc & Ht). injection Ht as <-. split; [done|].
  unfold validate_completion_decision in Hc. inv_run. simplify_eq. bprop.
  eexists _, _. by split_and!.
Qed.

(** C1: A completed run is proven complete.  When an accepted log ends in the terminal state
    [Completed], its message is word for word the content of a model turn of the log that
    stopped normally without tool calls and was proposed as the completion candidate; and
    every acceptance criterion of the frozen task contract is met: a verifier criterion by an
    evidence receipt that a passing Host verification of exactly this verifier, recorded in
    the log, sealed for exactly the final workspace state and with the evidence lineage the
    criterion demands; a Host criterion by an explicit Host acceptance of this candidate,
    recorded in the log, on the final workspace content (at most one verification epoch
    earlier). *)
Theorem completed_run_is_proven events s o message decision :
  reduce_events events = Ok s → sn_terminal s = Some o →
  ao_terminal o = Completed message decision →
  ∃ c contract,
    rr_task_contract (sn_request s) = Some contract ∧ message = cc_message c ∧
    candidate_origin events c ∧ (∃ k, logged events k (λ ev, ev = CompletionProposed c)) ∧
    cd_candidate_id decision = cc_id c ∧
    cd_workspace_state decision = sn_workspace_state s ∧
    ∀ a, a ∈ def_acceptance (contract_definition contract) → acceptance_met events s c a.
Proof.
  intros Hs%reachable_reduce Ho Hc.
  pose proof (reachable_receipts _ _ Hs) as Her.
  pose proof (reachable_host_receipts _ _ Hs) as Hhr.
  pose proof (reachable_candidate _ _ Hs) as [_ Hcand].
  inversion Hs as [first request Hv|evs s0 e s' Hr Hstep]; subst; [done|].
  pose proof (step_terminal _ _ _ Hstep) as [_ Ht]. rewrite Ho in Ht.
  destruct (sre_event e) eqn:He; try done. injection Ht as <-.
  apply run_step_inv in Hstep as (r & s1 & _ & Hd & ->). rewrite He in Hd. cbn in Hd.
  eapply on_terminal_completed in Hd as (-> & c & contract & Hp & Hm & Hcon & Hid & _ & Hws & Hall);
    [|done].
  exists c, contract. cbn in *. destruct (Hcand c Hp) as [Horig Hprop].
  split_and!; try done. intros a Ha. rewrite Forall_forall in Hall. specialize (Hall a Ha).
  eapply check_acceptance_met; [exact Her|exact Hhr|exact Hid|exact Hall].
Qed.
End completion_facts.
