(* ===== verification/AgentFacts.v ===== *)
(** The child and isolated-writer lifecycle: identities, the single writer, and the order of
    the facts of one task. *)
From Stdlib Require Import String.
From S2P Require Import Prelude Text Json Task Protocol Validate Context Snapshot Evidence.
From S2P Require Import RunEvents AgentEvents Reducer Steps LogFacts.

Open Scope string_scope.
Open Scope N_scope.

Section agent_facts.
Context `{Codecs}.
Implicit Types (s : RunSnapshot) (l : AgentTaskLifecycle).

(** ** One task *)

Definition seal_ok l (seal : AgentSealLifecycle) : Prop :=
  is_Some (atl_workspace_created l) ∧ is_Some (atl_child_started l) ∧
  asl_base_commit seal = awa_base_commit (at_workspace (atl_task l)) ∧
  ∀ c, asl_committed seal = Some c →
    asc_final_commit c ≠ asl_base_commit seal ∧
    paths_stay_within (asc_changed_files c) (awa_allowed_paths (at_workspace (atl_task l)))
      = true.

Definition integration_ok l (i : AgentIntegrationLifecycle) : Prop :=
  (∃ seal r, committed_seal l = Some seal ∧ atl_result l = Some r ∧
     is_completed (ao_terminal r) = true ∧ ail_writer_commit i = asc_final_commit seal ∧
     ail_diff_sha256 i = asc_diff_sha256 seal) ∧
  (is_some (ail_committed i) || is_some (ail_failure i) = true → ail_started i = true) ∧
  is_some (ail_committed i) && is_some (ail_failure i) = false ∧
  (∀ c, ail_committed i = Some c → aic_root_head_commit c = ail_writer_commit i).

Definition result_ok l (r : AgentOutcome) : Prop :=
  ao_run_id r = at_child_run_id (atl_task l) ∧
  ao_parent_run_id r = Some (at_parent_run_id (atl_task l)) ∧
  (is_completed (ao_terminal r) = true →
     is_Some (atl_child_started l) ∧ (is_writer l = true → is_Some (committed_seal l))).

Definition finished_ok l (f : AgentChildFinishedFact) : Prop :=
  acf_call_id f = at_call_id (atl_task l) ∧
  ao_run_id (acf_outcome f) = at_child_run_id (atl_task l) ∧
  (∃ r, atl_result l = Some r ∧
     (is_writer l = true →
      (is_completed (ao_terminal r) = true ∧ integration_committed l = true) ∨
      is_Some (committed_cleanup l)) ∧
     (is_completed (ao_terminal (acf_outcome f)) = true →
      is_completed (ao_terminal r) = true ∧
      (is_writer l = true → integration_committed l = true))).

Record lifecycle_ok l : Prop := {
  lo_writer : has_writer_facts l = true → is_writer l = true;
  lo_created : ∀ f, atl_workspace_created l = Some f →
    awc_assignment f = at_workspace (atl_task l);
  lo_started : ∀ f, atl_child_started l = Some f →
    acs_call_id f = at_call_id (atl_task l) ∧
    acs_child_run_id f = at_child_run_id (atl_task l) ∧
    (is_writer l = true → is_Some (atl_workspace_created l));
  lo_seal : ∀ seal, atl_seal l = Some seal → seal_ok l seal;
  lo_result : ∀ r, atl_result l = Some r → result_ok l r;
  lo_integration : ∀ i, atl_integration l = Some i → integration_ok l i;
  lo_cleanup : ∀ c, atl_cleanup l = Some c →
    is_Some (atl_result l) ∧ WriterCleanupPlan_validate (acl_plan c) = Ok tt;
  lo_finished : ∀ f, atl_finished l = Some f → finished_ok l f;
}.

Lemma lifecycle_ok_new task :
  lifecycle_ok (mkAgentTaskLifecycle task None None None None None None None).
Proof. by split. Qed.

(** ** All tasks of a run *)

Record tasks_ok s : Prop := {
  to_task_ids : NoDup ((at_task_id ∘ atl_task) <$> sn_agent_tasks s);
  to_child_ids : NoDup ((at_child_run_id ∘ atl_task) <$> sn_agent_tasks s);
  to_call_ids : NoDup ((at_call_id ∘ atl_task) <$> sn_agent_tasks s);
  to_one_writer : ∀ i j l l', sn_agent_tasks s !! i = Some l → sn_agent_tasks s !! j = Some l' →
    is_writer l = true → is_writer l' = true → i = j;
  to_lifecycles : Forall lifecycle_ok (sn_agent_tasks s);
}.

Lemma tasks_ok_same s s' : sn_agent_tasks s' = sn_agent_tasks s → tasks_ok s → tasks_ok s'.
Proof. intros Heq []. split; by rewrite Heq. Qed.

Lemma fmap_insert_same {B} (f : AgentTaskLifecycle → B) (ls : list AgentTaskLifecycle) i l l' :
  ls !! i = Some l → f l' = f l → f <$> <[i:=l']> ls = f <$> ls.
Proof.
  intros Hi Hf. rewrite list_fmap_insert, Hf. apply list_insert_id.
  by rewrite list_lookup_fmap, Hi.
Qed.

Lemma put_task_ok s i l l' :
  sn_agent_tasks s !! i = Some l → atl_task l' = atl_task l →
  (lifecycle_ok l → lifecycle_ok l') → tasks_ok s → tasks_ok (put_task s i l').
Proof.
  intros Hi Ht Hl' [Hti Hch Hca Hw Hl].
  pose proof (Forall_lookup_1 _ _ _ _ Hl Hi) as Hli.
  assert (is_writer l' = is_writer l) as Hwr by (unfold is_writer; by rewrite Ht).
  split; cbn.
  - by rewrite (fmap_insert_same _ _ _ _ _ Hi) by (cbn; by rewrite Ht).
  - by rewrite (fmap_insert_same _ _ _ _ _ Hi) by (cbn; by rewrite Ht).
  - by rewrite (fmap_insert_same _ _ _ _ _ Hi) by (cbn; by rewrite Ht).
  - intros a b x y. rewrite !list_lookup_insert_Some.
    intros [(-> & <- & _)|[_ Ha]] [(-> & <- & _)|[_ Hb]] Hx Hy; rewrite ?Hwr in *; eauto.
  - apply Forall_insert; auto.
Qed.

(** ** Handlers *)

Ltac lifecycle_step :=
  intros Hd Hok;
  repeat match type of Hd with
  | (_ ≫= _) = Ok _ => apply bind_Ok in Hd; destruct Hd as (? & ? & Hd)
  | (let '(_, _) := ?x in _) = Ok _ => destruct x as [? l]
  end; split_shapes; inv_run; bprop; simplify_eq;
  eapply put_task_ok; [eassumption|reflexivity| |exact Hok].

Lemma on_agent_workspace_created_ok s run_id task_id a w s' :
  on_agent_workspace_created s run_id task_id a w = Ok s' → tasks_ok s → tasks_ok s'.
Proof.
  unfold on_agent_workspace_created. lifecycle_step.
  intros [Hw Hc Hst Hse Hr Hi Hcl Hf]. split; try done; cbn.
  - intros f [= <-]. done.
  - intros f Hs. congruence.
  - intros seal Hs. destruct (Hse _ Hs) as (? & [] & _). congruence.
Qed.

Lemma on_child_started_ok s run_id task_id call child depth s' :
  on_child_started s run_id task_id call child depth = Ok s' → tasks_ok s → tasks_ok s'.
Proof.
  unfold on_child_started. lifecycle_step.
  intros [Hw Hc Hst Hse Hr Hi Hcl Hf]. split; try done; cbn.
  - intros f [= <-]. cbn. split_and!; [done|done|]. unfold is_writer. cbn. intros Hwr.
    apply bool_decide_eq_true in Hwr. rewrite Hwr in *. bprop. eauto.
  - intros seal Hs. destruct (Hse _ Hs) as (? & [] & _). congruence.
  - intros r Hs. destruct (Hr _ Hs) as (? & ? & Hcomp). split_and!; [done|done|].
    intros Hc'. destruct (Hcomp Hc') as [[] _]. congruence.
Qed.

Lemma on_agent_seal_prepared_ok s run_id task_id base before s' :
  on_agent_seal_prepared s run_id task_id base before = Ok s' → tasks_ok s → tasks_ok s'.
Proof.
  unfold on_agent_seal_prepared. lifecycle_step.
  intros [Hw Hc Hst Hse Hr Hi Hcl Hf]. split; try done; cbn.
  - intros seal [= <-]. split_and!; [by eexists|by eexists|done|done].
  - intros r Hs. congruence.
  - intros i Hs. destruct (Hi _ Hs) as ((? & ? & ? & ? & _) & _). congruence.
Qed.

Lemma on_agent_seal_committed_ok s run_id task_id final diff files after s' :
  on_agent_seal_committed s run_id task_id final diff files after = Ok s' →
  tasks_ok s → tasks_ok s'.
Proof.
  unfold on_agent_seal_committed. lifecycle_step.
  intros [Hw Hc Hst Hse Hr Hi Hcl Hf].
  match goal with Hs : atl_seal _ = Some _ |- _ =>
    pose proof (Hse _ Hs) as (Hse1 & Hse2 & Hse3 & Hse4) end.
  split; try done; cbn.
  - intros _. apply Hw. unfold has_writer_facts. destruct Hse1 as [? ->]. done.
  - intros seal [= <-]. split_and!; try done. cbn. by intros c [= <-].
  - intros r Hs. congruence.
  - intros i Hs. destruct (Hi _ Hs) as ((? & ? & ? & ? & _) & _). congruence.
Qed.

Lemma validate_collected_Ok run_id l o :
  validate_collected_agent_result run_id l o = Ok tt →
  ao_run_id o = at_child_run_id (atl_task l) ∧
  ao_parent_run_id o = Some (at_parent_run_id (atl_task l)) ∧
  (is_completed (ao_terminal o) = true → is_writer l = true → is_Some (committed_seal l)).
Proof.
  unfold validate_collected_agent_result. intros Hv.
  apply bind_Ok in Hv as ([] & Hid & Hv). do 2 (apply bind_Ok in Hv as ([] & _ & Hv)).
  apply fail_if_Ok in Hid. bprop. split_and!; [done..|].
  intros Hc Hw. unfold is_writer in Hw. apply bool_decide_eq_true in Hw. rewrite Hw in Hv.
  unfold validate_writer_result in Hv. apply bind_Ok in Hv as ([] & Hs & _).
  apply fail_if_Ok in Hs. rewrite Hc in Hs. cbn in Hs. bprop. eauto.
Qed.

Lemma on_agent_result_collected_ok s run_id task_id o s' :
  on_agent_result_collected s run_id task_id o = Ok s' → tasks_ok s → tasks_ok s'.
Proof.
  unfold on_agent_result_collected. lifecycle_step.
  match goal with Hv : validate_collected_agent_result _ _ _ = _ |- _ =>
    apply validate_collected_Ok in Hv as (? & ? & Hseal) end.
  intros [Hw Hc Hst Hse Hr Hi Hcl Hf]. split; try done; cbn.
  - intros r [= <-]. split_and!; [done|done|]. intros Hcomp. cbn. split; [|by auto].
    destruct (atl_child_started _); [by eexists|]. cbn in *. congruence.
  - intros i Hs. destruct (Hi _ Hs) as ((? & ? & ? & ? & _) & _). congruence.
  - intros c Hs. destruct (Hcl _ Hs) as [_ ?]. split; [by eexists|done].
  - intros f Hs. destruct (Hf _ Hs) as (_ & _ & ? & ? & _). congruence.
Qed.

Lemma on_agent_integration_prepared_ok s run_id task_id iid base writer diff expected s' :
  on_agent_integration_prepared s run_id task_id iid base writer diff expected = Ok s' →
  tasks_ok s → tasks_ok s'.
Proof.
  unfold on_agent_integration_prepared. lifecycle_step.
  intros [Hw Hc Hst Hse Hr Hi Hcl Hf].
  assert (is_Some (atl_seal l)) as [seal Hseal].
  { match goal with Hs : committed_seal _ = Some _ |- _ => unfold committed_seal in Hs end.
    destruct (atl_seal l); [by eexists|done]. }
  pose proof (Hse _ Hseal) as ([? Hcr] & _).
  split; try done; cbn.
  - intros _. apply Hw. unfold has_writer_facts. by rewrite Hcr.
  - intros i [= <-]. split_and!; cbn; try done. eexists _, _. by split_and!.
  - intros f Hs. destruct (Hf _ Hs) as (? & ? & r & Hr' & Hx & Hy).
    split_and!; [done|done|]. exists r. unfold integration_committed in *.
    match goal with Hn : atl_integration _ = None |- _ => rewrite Hn in * end. cbn in *.
    split_and!; [done|..].
    + intros Hwr. destruct (Hx Hwr) as [[_ ?]|?]; [done|by right].
    + intros Hco. destruct (Hy Hco) as [? Hz]. split; [done|]. intros Hwr. by specialize (Hz Hwr).
Qed.

(** Changes of the integration that keep what was already settled. *)
Lemma set_integration_ok l i i' :
  lifecycle_ok l → atl_integration l = Some i → integration_ok l i' →
  (is_some (ail_committed i) = true → is_some (ail_committed i') = true) →
  lifecycle_ok (l <| atl_integration := Some i' |>).
Proof.
  intros [Hw Hc Hst Hse Hr Hi Hcl Hf] Hli Hi' Hmono. split; try done; cbn.
  - intros _. apply Hw. unfold has_writer_facts. rewrite Hli. by rewrite !orb_true_r.
  - by intros ? [= <-].
  - intros f Hs. destruct (Hf _ Hs) as (? & ? & r & Hr' & Hx & Hy).
    split_and!; [done|done|]. exists r. unfold integration_committed in *. cbn in *.
    rewrite Hli in *. cbn in *. split_and!; [done|..].
    + intros Hwr. destruct (Hx Hwr) as [[? ?]|?]; [left; auto|by right].
    + intros Hco. destruct (Hy Hco) as [? Hz]. auto.
Qed.

Lemma on_agent_integration_started_ok s run_id task_id iid s' :
  on_agent_integration_started s run_id task_id iid = Ok s' → tasks_ok s → tasks_ok s'.
Proof.
  unfold on_agent_integration_started. lifecycle_step. intros Hl.
  match goal with Hi : atl_integration _ = Some _ |- _ =>
    pose proof (lo_integration _ Hl _ Hi) as (? & ? & ? & ?);
    eapply set_integration_ok; [done|exact Hi| |done] end. by split_and!.
Qed.

Lemma on_agent_integration_failed_ok s run_id task_id iid status root s' :
  on_agent_integration_failed s run_id task_id iid status root = Ok s' →
  tasks_ok s → tasks_ok s'.
Proof.
  unfold on_agent_integration_failed. lifecycle_step. intros Hl.
  match goal with Hi : atl_integration _ = Some _ |- _ =>
    pose proof (lo_integration _ Hl _ Hi) as (? & ? & ? & ?);
    eapply set_integration_ok; [done|exact Hi| |done] end.
  split_and!; try done. cbn. by match goal with Hn : ail_committed _ = None |- _ => rewrite Hn end.
Qed.

Lemma on_agent_integration_committed_ok s run_id task_id iid root after s' :
  on_agent_integration_committed s run_id task_id iid root after = Ok s' →
  tasks_ok s → tasks_ok s'.
Proof.
  unfold on_agent_integration_committed. lifecycle_step. intros Hl.
  match goal with Hi : atl_integration _ = Some _ |- _ =>
    pose proof (lo_integration _ Hl _ Hi) as (? & ? & ? & ?);
    eapply set_integration_ok; [done|exact Hi| |done] end.
  split_and!; try done; cbn.
  - by match goal with Hn : ail_failure _ = None |- _ => rewrite Hn end.
  - by intros c [= <-].
Qed.

Lemma set_cleanup_ok l c :
  lifecycle_ok l → is_writer l = true → is_Some (atl_result l) →
  WriterCleanupPlan_validate (acl_plan c) = Ok tt →
  (is_Some (committed_cleanup l) → is_Some (acl_committed c)) →
  lifecycle_ok (l <| atl_cleanup := Some c |>).
Proof.
  intros [Hw Hc Hst Hse Hr Hi Hcl Hf] Hwr Hres Hv Hmono. split; try done; cbn.
  - by intros ? [= <-].
  - intros f Hs. destruct (Hf _ Hs) as (? & ? & r & Hr' & Hx & Hy).
    split_and!; [done|done|]. exists r. split_and!; [done| |done].
    intros Hwr'. destruct (Hx Hwr') as [?|Hcc]; [by left|right]. by apply Hmono.
Qed.

Lemma on_agent_cleanup_prepared_ok s run_id task_id plan s' :
  on_agent_cleanup_prepared s run_id task_id plan = Ok s' → tasks_ok s → tasks_ok s'.
Proof.
  unfold on_agent_cleanup_prepared. lifecycle_step. intros Hl.
  match goal with Hv : validate_writer_cleanup_plan _ _ _ = _ |- _ =>
    unfold validate_writer_cleanup_plan in Hv; apply bind_Ok in Hv as ([] & Hv & _);
    apply map_err_Ok in Hv end.
  apply set_cleanup_ok; [done|done|by eexists|done|].
  unfold committed_cleanup.
  match goal with Hn : atl_cleanup _ = None |- _ => rewrite Hn end. by intros [].
Qed.

Lemma on_agent_cleanup_committed_ok s run_id task_id c s' :
  on_agent_cleanup_committed s run_id task_id c = Ok s' → tasks_ok s → tasks_ok s'.
Proof.
  unfold on_agent_cleanup_committed. intros Hd Hok.
  apply bind_Ok in Hd as ([i l] & Ht & Hd). apply agent_task_mut_shape in Ht as [Hi _].
  apply bind_Ok in Hd as (cl & Hcl & Hd). apply ok_or_Ok in Hcl.
  do 2 (apply bind_Ok in Hd as ([] & _ & Hd)). injection Hd as <-.
  eapply put_task_ok; [exact Hi|reflexivity| |exact Hok]. intros Hl.
  destruct (lo_cleanup _ Hl _ Hcl) as [Hres Hv].
  apply set_cleanup_ok; [done| |done|done|by eexists].
  apply (lo_writer _ Hl). unfold has_writer_facts. rewrite Hcl. by rewrite !orb_true_r.
Qed.

Lemma integrated_outcome_Ok run_id o i o' :
  integrated_outcome run_id o i = Ok o' →
  ao_run_id o' = ao_run_id o ∧
  (is_completed (ao_terminal o') = true → is_some (ail_committed i) = true).
Proof. unfold integrated_outcome. intros Ho. inv_run; subst; split; done. Qed.

Lemma expected_finished_outcome_Ok run_id l o :
  expected_finished_outcome run_id l = Ok o →
  ∃ r, atl_result l = Some r ∧ ao_run_id o = ao_run_id r ∧
    (is_writer l = true →
     (is_completed (ao_terminal r) = true ∧ integration_committed l = true) ∨
     is_Some (committed_cleanup l)) ∧
    (is_completed (ao_terminal o) = true →
     is_completed (ao_terminal r) = true ∧
     (is_writer l = true → integration_committed l = true)).
Proof.
  unfold expected_finished_outcome. intros Ho. apply bind_Ok in Ho as (r & Hr & Ho).
  apply ok_or_Ok in Hr. exists r. split; [done|]. unfold is_writer.
  destruct (awa_access _) eqn:Hacc.
  - inv_run. subst. by split_and!.
  - apply bind_Ok in Ho as ([] & Hg & Ho). apply fail_if_Ok in Hg.
    apply bind_Ok in Ho as (o1 & Ho1 & Ho). injection Ho as <-.
    assert (ao_run_id o1 = ao_run_id r ∧
            (is_completed (ao_terminal o1) = true →
             is_completed (ao_terminal r) = true ∧ integration_committed l = true)) as [Hid Hc].
    { destruct (is_completed (ao_terminal r)) eqn:Hcr.
      - apply bind_Ok in Ho1 as (i & Hi & Ho1). apply ok_or_Ok in Hi.
        apply integrated_outcome_Ok in Ho1 as [? Hx]. split; [done|].
        intros ?. unfold integration_committed. rewrite Hi. auto.
      - inv_run. subst. split; [done|congruence]. }
    split_and!.
    + repeat case_match; done.
    + intros _. destruct (committed_cleanup l); [right; by eexists|left].
      destruct (is_completed (ao_terminal r)), (integration_committed l); done.
    + revert Hc. repeat case_match; cbn; naive_solver.
Qed.

Lemma on_child_finished_ok s run_id call o acc handoff s' :
  on_child_finished s run_id call o acc handoff = Ok s' → tasks_ok s → tasks_ok s'.
Proof.
  unfold on_child_finished. intros Hd Hok.
  apply bind_Ok in Hd as ([i l] & Hp & Hd). apply ok_or_Ok, position_lookup_Some in Hp.
  apply bind_Ok in Hd as (o1 & Ho & Hd). apply bind_Ok in Hd as ([] & Hg & Hd).
  apply fail_if_Ok in Hg. bprop. subst o1. injection Hd as <-.
  apply expected_finished_outcome_Ok in Ho as (r & Hr & Hid & Hw & Hc).
  eapply tasks_ok_same; [|eapply (put_task_ok s i l); [exact Hp| | |exact Hok]];
    [reflexivity|reflexivity|].
  intros [Hw' Hc' Hst Hse Hr' Hi Hcl Hf]. split; try done; cbn.
  intros f [= <-]. split_and!; cbn; [done| |by exists r].
  rewrite Hid. by destruct (Hr' _ Hr).
Qed.

Lemma on_agent_task_prepared_ok s run_id task s' :
  on_agent_task_prepared s run_id task = Ok s' → tasks_ok s → tasks_ok s'.
Proof.
  unfold on_agent_task_prepared. intros Hd [Hti Hch Hca Hw Hl].
  apply bind_Ok in Hd as (p & _ & Hd). do 2 (apply bind_Ok in Hd as ([] & _ & Hd)).
  apply bind_Ok in Hd as ([rid rws] & _ & Hd). apply bind_Ok in Hd as ([] & _ & Hd).
  apply bind_Ok in Hd as ([] & Hid & Hd). apply bind_Ok in Hd as ([] & Hone & Hd).
  apply fail_if_Ok in Hid, Hone. rewrite existsb_false_elem_of in Hid. injection Hd as <-.
  assert (∀ (f : AgentTask → string),
    (∀ l, l ∈ sn_agent_tasks s → f (atl_task l) ≠ f task) →
    NoDup ((f ∘ atl_task) <$> sn_agent_tasks s) →
    NoDup ((f ∘ atl_task) <$> (sn_agent_tasks s ++
      [mkAgentTaskLifecycle task None None None None None None None]))%list) as Hnd.
  { intros f Hf Hn. rewrite fmap_app, NoDup_app. split_and!; [done| |apply NoDup_singleton].
    intros x (l & -> & Hin)%list_elem_of_fmap Hx. cbn in Hx.
    apply list_elem_of_singleton in Hx. by eapply Hf. }
  split; cbn.
  - apply Hnd; [|done]. intros l Hin. specialize (Hid l Hin). by bprop.
  - apply Hnd; [|done]. intros l Hin. specialize (Hid l Hin). by bprop.
  - apply Hnd; [|done]. intros l Hin. specialize (Hid l Hin). by bprop.
  - assert (∀ i l x, sn_agent_tasks s !! i = Some l → is_writer l = true →
      x = mkAgentTaskLifecycle task None None None None None None None →
      is_writer x = true → False) as Hno.
    { intros i l x Hi Hwl -> Hwx. unfold is_writer in Hwx. cbn in Hwx. rewrite Hwx in Hone.
      cbn in Hone. rewrite existsb_false_elem_of in Hone.
      rewrite (Hone l) in Hwl; [done|]. by eapply list_elem_of_lookup_2. }
    intros i j l l'. rewrite !lookup_app_Some.
    intros [Hi|[Hi1 Hi]] [Hj|[Hj1 Hj]] Hwl Hwl'; [eauto|..].
    + apply list_lookup_singleton_Some in Hj as [_ <-]. by destruct (Hno _ _ _ Hi Hwl eq_refl).
    + apply list_lookup_singleton_Some in Hi as [_ <-]. by destruct (Hno _ _ _ Hj Hwl' eq_refl).
    + apply list_lookup_singleton_Some in Hi as [? _], Hj as [? _]. lia.
  - apply Forall_app. split; [done|]. constructor; [apply lifecycle_ok_new|constructor].
Qed.

Lemma dispatch_tasks_ok s run_id n ev s' :
  dispatch s run_id n ev = Ok s' → tasks_ok s → tasks_ok s'.
Proof.
  intros Hd Hok. destruct ev;
    try (cbn [dispatch] in Hd; eauto using on_agent_task_prepared_ok,
      on_agent_workspace_created_ok, on_child_started_ok, on_agent_seal_prepared_ok,
      on_agent_seal_committed_ok, on_agent_result_collected_ok,
      on_agent_integration_prepared_ok, on_agent_integration_started_ok,
      on_agent_integration_failed_ok, on_agent_integration_committed_ok,
      on_agent_cleanup_prepared_ok, on_agent_cleanup_committed_ok, on_child_finished_ok; fail);
    eapply tasks_ok_same; try exact Hok;
    cbn [dispatch] in Hd; try discriminate Hd; expand_binds Hd; split_shapes; subst; same_field.
Qed.

Lemma reachable_tasks events s : reachable events s → tasks_ok s.
Proof.
  induction 1 as [first request Hv|events s e s' Hr IH Hs].
  - split; cbn; try constructor. done.
  - apply run_step_inv in Hs as (r & s1 & _ & Hd & ->).
    eapply (tasks_ok_same s1); [done|]. by eapply dispatch_tasks_ok.
Qed.

(** ** The facts of a task are well formed

    What the payload checks of the events establish, kept by the handlers. *)

Definition seal_ids_valid l : Prop := ∀ c, committed_seal l = Some c →
  validate_git_object_id "writer final commit" (asc_final_commit c) = Ok tt ∧
  validate_sha256 "writer diff sha256" (asc_diff_sha256 c) = Ok tt ∧
  validate_relative_path_list "changed file" (asc_changed_files c) = Ok tt ∧
  require_known_agent_workspace_state "writer workspace after seal"
    (asc_writer_workspace_state_after c) = Ok tt.

Definition integration_valid (g : AgentIntegrationLifecycle) : Prop :=
  require_agent_text "writer integration id" (ail_integration_id g) = Ok tt ∧
  validate_git_object_id "integration writer commit" (ail_writer_commit g) = Ok tt ∧
  require_known_agent_workspace_state "expected root workspace"
    (ail_expected_root_workspace_state g) = Ok tt ∧
  (∀ c, ail_committed g = Some c →
     require_known_agent_workspace_state "root workspace after integration"
       (aic_root_workspace_state_after c) = Ok tt) ∧
  (∀ f, ail_failure g = Some f → WriterIntegrationStatus_validate (aif_status f) = Ok tt).

Record lifecycle_valid l : Prop := {
  lv_seal : seal_ids_valid l;
  lv_result : ∀ r, atl_result l = Some r → AgentOutcome_validate r = Ok tt;
  lv_integration : ∀ g, atl_integration l = Some g → integration_valid g;
}.

Lemma lifecycle_valid_same l l' :
  atl_seal l' = atl_seal l → atl_result l' = atl_result l →
  atl_integration l' = atl_integration l → lifecycle_valid l → lifecycle_valid l'.
Proof.
  intros Hs Hr Hi [Hvs Hvr Hvi]. split; [|by rewrite Hr|by rewrite Hi].
  unfold seal_ids_valid, committed_seal in *. by rewrite Hs.
Qed.

Ltac valid_step :=
  apply Forall_insert; [assumption|];
  match goal with Ha : Forall _ _, Hi : _ !! _ = Some ?l |- _ =>
    pose proof (Forall_lookup_1 _ _ _ _ Ha Hi) as Hl; cbn in Hl end.

Lemma dispatch_lifecycles_valid s run_id n ev s' :
  validate_agent_lifecycle_payload ev = Ok tt → dispatch s run_id n ev = Ok s' →
  Forall lifecycle_valid (sn_agent_tasks s) → Forall lifecycle_valid (sn_agent_tasks s').
Proof.
  intros Hp Hd Hall. step_cases ev Hd; try solve [repeat case_match; exact Hall].
  all: cbn; try solve [valid_step; by refine (lifecycle_valid_same _ _ _ _ _ Hl)].
  - apply Forall_app. split; [done|]. constructor; [by split|constructor].
  - valid_step. destruct Hl. split; [|done|done]. intros c Hc. cbn in Hc. discriminate Hc.
  - valid_step. destruct Hl. split; [|done|done]. intros c [= <-]. cbn in Hp. inv_ok. by split_and!.
  - valid_step. destruct Hl. split; [done| |done]. cbn in Hp. intros r [= <-]. inv_ok. done.
  - valid_step. destruct Hl. split; [done|done|]. intros g [= <-]. cbn in Hp. inv_ok. by split_and!.
  - valid_step. destruct Hl as [Hvs Hvr Hvi]. split; [done|done|]. intros g [= <-]. inv_run.
    match goal with Hg : atl_integration _ = Some _ |- _ => by apply (Hvi _ Hg) end.
  - valid_step. destruct Hl as [Hvs Hvr Hvi]. split; [done|done|]. intros g [= <-]. inv_run.
    match goal with Hg : atl_integration _ = Some _ |- _ => destruct (Hvi _ Hg) as (?&?&?&?&?) end.
    split_and!; try done; cbn; intros ? [= <-]; cbn; cbn in Hp; by inv_ok.
  - valid_step. destruct Hl as [Hvs Hvr Hvi]. split; [done|done|]. intros g [= <-]. inv_run.
    match goal with Hg : atl_integration _ = Some _ |- _ => destruct (Hvi _ Hg) as (?&?&?&?&?) end.
    split_and!; try done; cbn; intros ? [= <-]; cbn; cbn in Hp; by inv_ok.
  - inv_run. match goal with Hp : _ = Some (_, _) |- _ => apply position_lookup_Some in Hp end.
    cbn in *. valid_step. by refine (lifecycle_valid_same _ _ _ _ _ Hl).
Qed.

Lemma reachable_lifecycles_valid events s :
  reachable events s → Forall lifecycle_valid (sn_agent_tasks s).
Proof.
  induction 1 as [first request Hv|events s e s' Hr IH Hs]; [constructor|].
  apply run_step_inv in Hs as (r & s1 & Ha & Hd & ->).
  apply admit_event_Ok in Ha as (_ & _ & _ & _ & _ & Hp & _). exact (dispatch_lifecycles_valid _ _ _ _ _ Hp Hd IH).
Qed.

(** What settles a task comes in order: a completed writer awaits the Host, its cleanup follows
    the settled integration, and a failed integration names its failure. *)
Record lifecycle_settled l : Prop := {
  ls_awaiting : ∀ r, atl_result l = Some r → is_writer l = true →
    is_completed (ao_terminal r) = true → ard_integration (ao_details r) = IntegrationAwaitingHost;
  ls_cleanup : ∀ c r, atl_cleanup l = Some c → atl_result l = Some r →
    is_completed (ao_terminal r) = true →
    integration_failed l = true ∨ (integration_committed l = true ∧ is_Some (atl_finished l));
  ls_failure : ∀ g f, atl_integration l = Some g → ail_failure g = Some f →
    match aif_status f with
    | IntegrationRejected _ | IntegrationConflict _ | IntegrationRecoveryRequired _ => True
    | IntegrationNotApplicable | IntegrationAwaitingHost | IntegrationIntegrated _ _ _ => False
    end;
}.

Lemma lifecycle_settled_same l l' :
  atl_task l' = atl_task l → atl_result l' = atl_result l → atl_integration l' = atl_integration l →
  atl_cleanup l' = atl_cleanup l →
  (is_Some (atl_finished l) → is_Some (atl_finished l')) →
  lifecycle_settled l → lifecycle_settled l'.
Proof.
  intros Ht Hr Hi Hc Hf [Ha Hcl Hfa].
  split; unfold is_writer, integration_failed, integration_committed in *;
    rewrite ?Ht, ?Hr, ?Hi, ?Hc.
  - exact Ha.
  - intros c r Hc' Hr' Hco. destruct (Hcl c r Hc' Hr' Hco) as [?|[? ?]]; auto.
  - exact Hfa.
Qed.

Lemma validate_collected_awaiting run_id l o :
  validate_collected_agent_result run_id l o = Ok tt → is_writer l = true →
  is_completed (ao_terminal o) = true → ard_integration (ao_details o) = IntegrationAwaitingHost.
Proof.
  unfold validate_collected_agent_result. intros Hv Hw Hc.
  do 3 (apply bind_Ok in Hv as ([] & _ & Hv)).
  unfold is_writer in Hw. apply bool_decide_eq_true in Hw. rewrite Hw in Hv.
  unfold validate_writer_result in Hv. apply bind_Ok in Hv as ([] & Hs & Hv).
  apply fail_if_Ok in Hs. rewrite Hc in Hs, Hv. cbn in Hs. unfold committed_seal in Hs.
  destruct (atl_seal l) as [[base before [c|]]|]; cbn in Hs; try discriminate Hs.
  apply bind_Ok in Hv as ([] & _ & Hv). apply bind_Ok in Hv as ([] & _ & Hv).
  apply fail_if_Ok in Hv. by destruct (ard_integration (ao_details o)).
Qed.

Ltac settled_step :=
  apply Forall_insert; [assumption|];
  match goal with Ha : Forall lifecycle_settled _, Hk : Forall lifecycle_ok _, Hi : _ !! _ = Some ?l |- _ =>
    pose proof (Forall_lookup_1 _ _ _ _ Ha Hi) as [Haw Hcl Hfa];
    pose proof (Forall_lookup_1 _ _ _ _ Hk Hi) as Hlk; cbn in Haw, Hcl, Hfa, Hlk end.

Ltac no_cleanup_yet Hcl :=
  let Hx := fresh in intros c r Hc Hr Hco; destruct (Hcl _ _ Hc Hr Hco) as [Hx|[Hx _]];
  unfold integration_failed, integration_committed in Hx;
  match goal with Hi : atl_integration _ = _ |- _ => rewrite Hi in Hx end; cbn in Hx;
  repeat match goal with Hn : _ = None |- _ => rewrite Hn in Hx; clear Hn end; discriminate Hx.

Lemma dispatch_settled s run_id n ev s' :
  tasks_ok s → validate_agent_lifecycle_payload ev = Ok tt → dispatch s run_id n ev = Ok s' →
  Forall lifecycle_settled (sn_agent_tasks s) → Forall lifecycle_settled (sn_agent_tasks s').
Proof.
  intros Hok%to_lifecycles Hp Hd Hall. step_cases ev Hd; try solve [repeat case_match; exact Hall].
  all: cbn; try solve [valid_step; by refine (lifecycle_settled_same _ _ _ _ _ _ _ Hl)].
  - apply Forall_app. split; [done|]. constructor; [split; cbn; discriminate|constructor].

  - settled_step. inv_run. bprop. split; [| |exact Hfa].
    + intros r [= <-]. by eapply validate_collected_awaiting.
    + intros c r Hc. destruct (lo_cleanup _ Hlk _ Hc) as [[] _]. congruence.
  - settled_step. inv_run. bprop. split; [exact Haw|no_cleanup_yet Hcl|by intros g f [= <-]].
  - settled_step. inv_run. bprop. split; [exact Haw|no_cleanup_yet Hcl|]. intros g f [= <-]. cbn. congruence.
  - settled_step. inv_run. bprop. split; [exact Haw|no_cleanup_yet Hcl|]. intros g f [= <-]. intros [= <-].
    cbn in Hp |- *. do 2 (apply bind_Ok in Hp as ([] & _ & Hp)). by destruct status.
  - settled_step. inv_run. bprop. split; [exact Haw|no_cleanup_yet Hcl|]. intros g f [= <-]. cbn. congruence.
  - settled_step. inv_run. split; [exact Haw| |exact Hfa]. intros c r _ Hr Hco.
    match goal with H1 : atl_result _ = Some ?x, Hg : _ || _ = false |- _ => match type of Hg with context [ao_terminal x] => assert (r = x) as -> by (cbn in Hr; congruence) end end.
    change (integration_failed a = true ∨ integration_committed a = true ∧ is_Some (atl_finished a)).
    match goal with Hg : _ || _ = false |- _ => rewrite Hco in Hg; cbn in Hg end.
    destruct (integration_committed a), (integration_failed a); auto; cbn in *; rewrite ?orb_true_r in *; bprop; try done.
    right. split; [done|]. by destruct (atl_finished a).
  - settled_step. inv_run; (split; [exact Haw|intros c r _ Hr Hco; by eapply Hcl|exact Hfa]).
  - inv_run. match goal with Hp : _ = Some (_, _) |- _ => apply position_lookup_Some in Hp end.
    cbn in *. settled_step. split; [exact Haw| |exact Hfa]. intros c r Hc Hr Hco.
    destruct (Hcl _ _ Hc Hr Hco) as [?|[? _]]; [by left|right]. split; [done|by eexists].
Qed.

Lemma reachable_settled events s :
  reachable events s → Forall lifecycle_settled (sn_agent_tasks s).
Proof.
  induction 1 as [first request Hv|events s e s' Hr IH Hs]; [constructor|].
  apply run_step_inv in Hs as (r & s1 & Ha & Hd & ->).
  apply admit_event_Ok in Ha as (_ & _ & _ & _ & _ & Hp & _).
  exact (dispatch_settled _ _ _ _ _ (reachable_tasks _ _ Hr) Hp Hd IH).
Qed.

(** Agent tasks have unique task, child-run and tool-call identities, and a run has at
    most one isolated writer, in every accepted log. *)
Theorem agent_identities_unique events s :
  reduce_events events = Ok s →
  NoDup ((at_task_id ∘ atl_task) <$> sn_agent_tasks s) ∧
  NoDup ((at_child_run_id ∘ atl_task) <$> sn_agent_tasks s) ∧
  NoDup ((at_call_id ∘ atl_task) <$> sn_agent_tasks s) ∧
  (∀ i j l l', sn_agent_tasks s !! i = Some l → sn_agent_tasks s !! j = Some l' →
     is_writer l = true → is_writer l' = true → i = j).
Proof. intros Hs%reachable_reduce. by destruct (reachable_tasks _ _ Hs). Qed.

(** C30: The durable facts of every Agent task of an accepted log respect the lifecycle: only
    an isolated writer has a worktree, a seal, an integration or a cleanup; a seal needs the
    created worktree and the started child, keeps the frozen base commit, and a committed
    seal differs from it and stays within the allowed paths; a successful result needs a
    started child and, for a writer, a committed seal; an integration exists only for a
    successful sealed result and carries exactly the sealed commit and diff, it cannot be
    settled before it started, nor both commit and fail, and it commits exactly the writer's
    commit; a cleanup has a valid plan and follows the result; and a finished child reports
    the collected run, a writer having been integrated or cleaned up before, and succeeding
    only if integrated. *)
Theorem agent_lifecycle_is_ordered events s l :
  reduce_events events = Ok s → l ∈ sn_agent_tasks s → lifecycle_ok l.
Proof.
  intros Hs%reachable_reduce Hl. destruct (reachable_tasks _ _ Hs) as [_ _ _ _ Hall].
  rewrite Forall_forall in Hall. auto.
Qed.
End agent_facts.
