(* ===== verification/ModelFacts.v ===== *)
(** Model requests: what may be pending, how a failed attempt is retried, and the backoff the
    retry must wait for. *)
From Stdlib Require Import String.
From S2P Require Import Prelude Text Json Task Protocol Validate Context Snapshot Evidence.
From S2P Require Import RunEvents AgentEvents Reducer Steps LogFacts ToolFacts.

Open Scope string_scope.
Open Scope N_scope.

(** ** The backoff *)

(** The exact policy: one second doubled per attempt, capped at one minute, and never less
    than the server asked for. *)
Definition retry_backoff_policy (attempt : N) (retry_after_ms : option N) : N :=
  N.max (N.min (1000 * 2 ^ (attempt - 1)) 60000) (default 0 retry_after_ms).

Lemma shifted_backoff n :
  N.min (default U64_MAX (checked_shl64 INITIAL_BACKOFF_MS (N.min n 31))) MAX_BACKOFF_MS =
  N.min (1000 * 2 ^ n) 60000.
Proof.
  unfold INITIAL_BACKOFF_MS, MAX_BACKOFF_MS, checked_shl64.
  destruct (N.ltb_spec (N.min n 31) 64); [|lia]. cbn [default from_option].
  assert (2 ^ N.min n 31 ≤ 2 ^ 31) by (apply N.pow_le_mono_r; lia).
  change (2 ^ 31) with 2147483648 in *. change (2 ^ 64) with 18446744073709551616.
  rewrite N.shiftl_mul_pow2, N.mod_small by lia.
  destruct (N.le_gt_cases n 31) as [Hn|Hn].
  - by rewrite (N.min_l n) by done.
  - rewrite (N.min_r n) by lia.
    assert (2 ^ 31 ≤ 2 ^ n) by (apply N.pow_le_mono_r; lia).
    change (2 ^ 31) with 2147483648 in *. revert select (2147483648 ≤ 2 ^ n).
    generalize (2 ^ n). clear. unfold id. lia.
Qed.

(** The retry backoff computed with shifts at 64-bit width is the exact policy for every
    attempt number: one second doubled with each attempt, at most one minute, raised to the
    server's retry-after hint; no attempt number overflows it. *)
Theorem retry_backoff_is_policy attempt retry_after_ms :
  model_retry_backoff_ms attempt retry_after_ms = retry_backoff_policy attempt retry_after_ms.
Proof. unfold model_retry_backoff_ms, retry_backoff_policy. by rewrite shifted_backoff. Qed.

Section model_facts.
Context `{Codecs}.
Implicit Types (s : RunSnapshot) (e : StoredRuntimeEvent) (events : list StoredRuntimeEvent).

(** ** The pending request *)

(** [first] is the request of the first attempt, as it was logged. *)
Record retry_of s (p : PendingModelAction) (first : ModelRequest) : Prop := {
  ro_first_attempt : mr_attempt first = 0;
  ro_same_request : pma_request p = first <| mr_attempt := mr_attempt (pma_request p) |>;
  ro_limit : mr_attempt (pma_request p) ≤ lim_max_model_retries (rr_limits (sn_request s));
  ro_fresh : mr_attempt (pma_request p) = 0 →
    pma_primary_failure p = None ∧ pma_retry_schedule p = None;
  ro_schedule : mr_attempt (pma_request p) ≠ 0 →
    ∃ primary schedule retry_after, pma_primary_failure p = Some primary ∧
      pma_retry_schedule p = Some schedule ∧
      prs_backoff_ms schedule =
        model_retry_backoff_ms (mr_attempt (pma_request p)) retry_after ∧
      prs_not_before_unix_ms schedule =
        sat_add64 (prs_decision_unix_ms schedule) (prs_backoff_ms schedule) ∧
      prs_max_retries schedule = lim_max_model_retries (rr_limits (sn_request s));
}.

Definition model_ok events s : Prop :=
  (∀ p, sn_pending_model s = Some p → sn_last_model_failure s = None ∧
     ∃ first k a, logged events k (λ ev, ev = ModelRequestPrepared a first) ∧
       retry_of s p first).

Lemma dispatch_model_frame s run_id n ev s' :
  dispatch s run_id n ev = Ok s' →
  match ev with
  | ModelRequestPrepared _ _ | ModelRequestInFlight _ | ModelRequestFailed _ _ _ _
  | ModelResponseCommitted _ _ _ => True
  | _ => sn_pending_model s' = sn_pending_model s ∧
         sn_last_model_failure s' = sn_last_model_failure s
  end.
Proof. intros Hd. step_cases ev Hd; try exact I; split; same_field. Qed.

Lemma retry_of_request s s' p first :
  sn_request s' = sn_request s → retry_of s p first → retry_of s' p first.
Proof. intros Hr [? ? ? ? ?]. split; rewrite ?Hr; done. Qed.

Lemma retry_of_prepared s a req :
  mr_attempt req = 0 → retry_of s (mkPendingModelAction a req None None Prepared) req.
Proof.
  intros Ha. split; cbn; rewrite ?Ha; try done; [|lia].
  rewrite <- Ha. by destruct req.
Qed.

Lemma retry_policy_None pending failure primary max :
  retry_policy_stop_reason pending failure primary max = None →
  maf_actionable_output failure = false ∧ maf_retry_safe failure = true ∧
  maf_retryable failure = true ∧ maf_code failure = maf_code primary ∧
  maf_category failure = maf_category primary ∧ mr_attempt (pma_request pending) < max.
Proof.
  unfold retry_policy_stop_reason. intros Hn.
  repeat (match type of Hn with (if ?b then _ else _) = None => destruct b eqn:? end;
          [discriminate Hn|]). bprop. split_and!; done.
Qed.

(** The retry of a request whose attempts the run allows. *)
Lemma retry_of_retried s p first failure primary prepared run_id :
  lim_max_model_retries (rr_limits (sn_request s)) ≤ U32_MAX →
  retry_of s p first →
  validate_prepared_retry run_id p failure primary prepared
    (lim_max_model_retries (rr_limits (sn_request s))) = Ok tt →
  retry_of s (mkPendingModelAction (pmr_attempt_id prepared) (pmr_request prepared)
    (Some primary) (Some (mkPreparedModelRetrySchedule (pmr_decision_unix_ms prepared)
      (pmr_backoff_ms prepared) (pmr_not_before_unix_ms prepared) (pmr_max_retries prepared)))
    Prepared) first.
Proof.
  intros Hmax [H0 Hsame Hlim _ _] Hv. unfold validate_prepared_retry in Hv. inv_run. bprop.
  match goal with Hn : retry_policy_stop_reason _ _ _ _ = None |- _ =>
    apply retry_policy_None in Hn as (_ & _ & _ & _ & _ & Hlt) end.
  match goal with Hr : pmr_request prepared = _ |- _ => rename Hr into Hreq end.
  assert (mr_attempt (pmr_request prepared) = mr_attempt (pma_request p) + 1) as Hatt.
  { rewrite Hreq. cbn. unfold saturating_add. lia. }
  split; cbn; [done| |lia|lia|].
  - rewrite Hreq, Hsame. by destruct first.
  - intros _. eauto 10.
Qed.

Lemma step_model_ok events s e s' :
  lim_max_model_retries (rr_limits (sn_request s)) ≤ U32_MAX →
  model_ok events s → run_step s e s' → model_ok (events ++ [e]) s'.
Proof.
  intros Hmax Hok Hs. pose proof (step_request _ _ _ Hs) as Hreq.
  pose proof Hs as (r & s1 & Ha & Hd & Hs')%run_step_inv.
  assert (∀ k p, logged events k p → logged (events ++ [e])%list k p) as Hlog
    by (intros; by auto with dse).
  assert (sn_pending_model s' = sn_pending_model s →
          sn_last_model_failure s' = sn_last_model_failure s → model_ok (events ++ [e]) s')
    as Hsame.
  { intros Hp Hf p Hp'. rewrite Hp in Hp'. rewrite Hf. destruct (Hok _ Hp') as (? & first & k & a & ? & ?).
    split; [done|]. exists first, k, a. split; [by apply Hlog|by eapply retry_of_request]. }
  pose proof (dispatch_model_frame _ _ _ _ _ Hd) as Hframe.
  destruct (sre_event e) eqn:Hev; subst s'; try (by apply Hsame; apply Hframe);
    clear Hframe Hsame; cbn [dispatch] in Hd; expand_binds Hd; split_shapes; inv_run; subst;
    bprop; intros p; cbn; try done.
  - intros [= <-]. split; [done|]. eexists _, (length events), _. split.
    + apply logged_last. by rewrite Hev.
    + by apply retry_of_prepared.
  - intros [= <-].
    match goal with Hp : sn_pending_model s = Some ?x |- _ =>
      destruct (Hok _ Hp) as (Hf & first & k & a & ? & [? ? ? ? ?]) end.
    split; [done|]. exists first, k, a. split; [by apply Hlog|]. by split.
  - intros [= <-]. split; [done|].
    match goal with Hp : sn_pending_model s = Some ?x |- _ =>
      destruct (Hok _ Hp) as (_ & first & k & a & ? & Hretry) end.
    exists first, k, a. split; [by apply Hlog|].
    eapply retry_of_request; [done|]. by eapply retry_of_retried.
Qed.

Lemma reachable_model_ok events s :
  reachable events s → lim_max_model_retries (rr_limits (sn_request s)) ≤ U32_MAX →
  model_ok events s.
Proof.
  induction 1 as [first request Hv|events s e s' Hr IH Hs]; [by intros _ p|].
  rewrite (step_request _ _ _ Hs). intros Hmax. by eapply step_model_ok; eauto.
Qed.

(** While an attempt is pending no stopped failure is recorded. *)
Lemma reachable_pending_model events s :
  reachable events s → is_Some (sn_pending_model s) → sn_last_model_failure s = None.
Proof.
  induction 1 as [first request Hv|events s e s' Hr IH Hs]; [done|].
  pose proof Hs as (r & s1 & Ha & Hd & ->)%run_step_inv.
  pose proof (dispatch_model_frame _ _ _ _ _ Hd) as Hframe. cbn.
  destruct (sre_event e); try (by rewrite (proj1 Hframe), (proj2 Hframe));
    cbn [dispatch] in Hd; expand_binds Hd; split_shapes; inv_run; subst; cbn; try done;
    intros; apply IH; by eexists.
Qed.

(** A streamed delta of the attempt in flight changes nothing but the sequence. *)
Lemma delta_step events s e a p :
  reachable events s →
  sn_pending_model s = Some p → pma_attempt_id p = a → pma_state p = InFlight →
  sn_terminal s = None → sn_pending_control s = None →
  rr_run_id (sn_request s) = Some (sre_run_id e) →
  sre_schema_version e = AGENT_RUNTIME_EVENT_SCHEMA_VERSION →
  sre_sequence e = sat_add64 (sn_last_sequence s) 1 →
  ((∃ i d, sre_event e = ContentDelta a i d) ∨ (∃ i d, sre_event e = ReasoningDelta a i d)) →
  run_step s e (s <| sn_last_sequence := sre_sequence e |>).
Proof.
  intros Hr Hp Ha Hst Ht Hc Hid Hver Hseq Hev.
  pose proof (reachable_pending_model _ _ Hr (ex_intro _ _ Hp)) as Hf.
  unfold run_step, apply_event, admit_event, validate_event_header.
  rewrite Hid. cbn. rewrite Hver, Hseq, Ht, Hc, Hf. cbn. rewrite !bool_decide_true by done.
  destruct Hev as [(i & d & ->)|(i & d & ->)]; cbn;
    unfold on_model_delta, pending_model_mut; rewrite Hp; cbn;
    (rewrite (bool_decide_true (pma_attempt_id p = a)) by done); cbn;
    by rewrite (bool_decide_true (pma_state p = InFlight)) by done.
Qed.

(** A model request is only ever retried as it was: whenever a model attempt is pending,
    the log holds the request of its first attempt and the pending request equals it in
    every field but the attempt number; the attempt number never exceeds the frozen retry
    limit; a retry carries the failure that caused it and a schedule whose backoff is the
    policy's and whose start time is the decision time plus the backoff.  No stopped failure
    is recorded while an attempt is pending.  (The retry limit is a [u32].) *)
Theorem model_retries_replay_the_first_attempt events s p :
  reduce_events events = Ok s →
  lim_max_model_retries (rr_limits (sn_request s)) ≤ U32_MAX →
  sn_pending_model s = Some p →
  sn_last_model_failure s = None ∧
  ∃ first k a, logged events k (λ ev, ev = ModelRequestPrepared a first) ∧ retry_of s p first.
Proof. intros Hs%reachable_reduce Hmax. by apply reachable_model_ok. Qed.

(** A failed model attempt either ends the run or is retried, as the retry policy says.
    If a retry is accepted, nothing the model produced was actionable, the persisted response
    evidence proves the replay safe, the failure is retryable and of the same code and
    category as the first one, and the attempt limit is not reached; the retry has a new
    attempt id.  If the decision is to stop, the failure is recorded, no attempt is pending,
    and the only event the run still accepts is its terminal one. *)
Theorem failed_attempt_retries_or_stops s e s' a failure accounting retry :
  run_step s e s' → sre_event e = ModelRequestFailed a failure accounting retry →
  ∃ pending, sn_pending_model s = Some pending ∧ pma_attempt_id pending = a ∧
    pma_state pending = InFlight ∧
    let primary := default failure (pma_primary_failure pending) in
    match retry with
    | RetryPrepared prepared =>
      evidence_actionable_output (maf_response failure) = false ∧
      evidence_replay_safe (maf_response failure) = true ∧
      maf_retryable failure = true ∧
      maf_code failure = maf_code primary ∧ maf_category failure = maf_category primary ∧
      mr_attempt (pma_request pending) <
        lim_max_model_retries (rr_limits (sn_request s)) ∧
      pmr_attempt_id prepared ≠ a ∧
      sn_pending_model s' = Some (mkPendingModelAction (pmr_attempt_id prepared)
        (pmr_request prepared) (Some primary)
        (Some (mkPreparedModelRetrySchedule (pmr_decision_unix_ms prepared)
           (pmr_backoff_ms prepared) (pmr_not_before_unix_ms prepared)
           (pmr_max_retries prepared))) Prepared)
    | RetryStop reason =>
      sn_last_model_failure s' = Some (mkStoppedModelFailure primary reason) ∧
      sn_pending_model s' = None ∧
      ∀ e' s'', run_step s' e' s'' → is_terminal (sre_event e') = true
    end.
Proof.
  intros (r & s1 & Ha & Hd & ->)%run_step_inv Hev. rewrite Hev in Hd. cbn [dispatch] in Hd.
  unfold on_model_request_failed, pending_model_mut, validate_model_failure_evidence in Hd.
  destruct retry as [reason|prepared]; inv_run; bprop; subst;
    match goal with Hp : sn_pending_model s = Some ?x |- _ => exists x end;
    do 3 (split; [done|]); cbn.
  - split_and!; try done. intros e' s'' (r' & s2 & Ha' & _)%run_step_inv.
    apply admit_event_Ok in Ha' as (_ & _ & _ & _ & _ & _ & _ & Hstop). by apply Hstop.
  - unfold validate_prepared_retry in *. inv_run. bprop.
    match goal with Hn : retry_policy_stop_reason _ _ _ _ = None |- _ =>
      apply retry_policy_None in Hn as (Hact & Hsafe & ? & ? & ? & ?) end.
    repeat match goal with Hb : Bool.eqb _ _ = true |- _ => apply eqb_prop in Hb end.
    split_and!; try done; congruence.
Qed.
End model_facts.
