(* ===== verification/ContextFacts.v ===== *)
(** The context broker: its scans end, a planned compaction fits the limit, keeps what must be
    kept and never splits a tool turn, the projection it commits stays valid while the
    transcript grows, and the reducer accepts exactly the broker's plan. *)
From Stdlib Require Import Ascii String.
From stdpp Require Import sorting.
From S2P Require Import Prelude Text Json Task Protocol Validate Context Snapshot Evidence.
From S2P Require Import RunEvents Steps.

Open Scope string_scope.
Open Scope N_scope.

(** ** The token scan *)

Lemma span_app {A} (p : A → bool) l : ((span p l).1 ++ (span p l).2)%list = l.
Proof.
  induction l as [|a l IH]; cbn; [done|]. destruct (p a); [|done].
  destruct (span p l) as [run rest]. cbn in *. by rewrite IH.
Qed.

Lemma span_rest {A} (p : A → bool) l : (length (span p l).2 ≤ length l)%nat.
Proof. pose proof (f_equal length (span_app p l)) as Hl. rewrite length_app in Hl. lia. Qed.

Lemma span_rest_lt {A} (p : A → bool) a l :
  p a = true → (length (span p (a :: l)).2 ≤ length l)%nat.
Proof.
  intros Ha. cbn. rewrite Ha. pose proof (span_rest p l). by destruct (span p l).
Qed.

Lemma estimate_step_rest first tail :
  (length (estimate_step first tail).2 ≤ length tail)%nat.
Proof.
  unfold estimate_step. destruct (is_ascii first) eqn:Ha; cbn [negb].
  - destruct (is_ascii_whitespace first) eqn:Hw.
    { pose proof (span_rest_lt is_ascii_whitespace first tail Hw). by destruct (span _ _). }
    destruct (is_ascii_alphanumeric first) eqn:Hn.
    { pose proof (span_rest_lt is_ascii_alphanumeric first tail Hn). by destruct (span _ _). }
    assert (is_symbol first = true) as Hs by (unfold is_symbol; by rewrite Ha, Hw, Hn).
    pose proof (span_rest_lt is_symbol first tail Hs). by destruct (span _ _).
  - pose proof (span_rest is_continuation tail). by destruct (span _ _).
Qed.

Lemma estimate_loop_fuel fuel l tokens :
  (length l ≤ fuel)%nat → is_Some (estimate_loop fuel l tokens).
Proof.
  revert l tokens. induction fuel as [|fuel IH]; intros [|first tail] tokens Hf; cbn in *;
    [by eexists|lia|by eexists|].
  pose proof (estimate_step_rest first tail). destruct (estimate_step first tail) as [n rest].
  apply IH. cbn in *. lia.
Qed.

(** ** Groups *)

Lemma size_list_to_set_le (l : list nat) : (size (list_to_set l : gset nat) ≤ length l)%nat.
Proof.
  induction l as [|x l IH]; cbn; [by rewrite size_empty|]. rewrite size_union_alt, size_singleton.
  assert (size (list_to_set l ∖ {[x]} : gset nat) ≤ size (list_to_set l : gset nat))%nat
    by (apply subseteq_size; set_solver). lia.
Qed.

Section groups.
Context `{JsonLib, ProtocolCodec, ContextCodec}.

(** The group of a turn: increasing indices of the run it consumed. *)
Lemma tool_group_tail_bounds ids next l :
  let '(group, stop, rest) := tool_group_tail ids next l in
  (next ≤ stop)%nat ∧ (length rest ≤ length l)%nat ∧ NoDup group ∧
  ∀ i, i ∈ group → (next ≤ i < stop)%nat.
Proof.
  revert next. induction l as [|entry l IH]; intros next; cbn.
  { split_and!; [done|done|constructor|]. intros i Hi. by apply elem_of_nil in Hi. }
  destruct entry; try (split_and!; [done|cbn; lia|constructor|];
    intros i Hi; by apply elem_of_nil in Hi).
  - specialize (IH (S next)). destruct (tool_group_tail ids (S next) l) as [[group stop] rest].
    destruct IH as (Hle & Hlen & Hnd & Hin). destruct (existsb _ ids);
      (split_and!; [lia|lia| |]).
    + constructor; [|done]. intros Hi. specialize (Hin _ Hi). lia.
    + intros i [->|Hi]%elem_of_cons; [lia|]. specialize (Hin _ Hi). lia.
    + done.
    + intros i Hi. specialize (Hin _ Hi). lia.
  - specialize (IH (S next)). destruct (tool_group_tail ids (S next) l) as [[group stop] rest].
    destruct IH as (Hle & Hlen & Hnd & Hin). split_and!; [lia|lia|done|].
    intros i Hi. specialize (Hin _ Hi). lia.
Qed.

Lemma history_groups_loop_fuel fuel cursor l :
  (length l ≤ fuel)%nat →
  ∃ groups, history_groups_loop fuel cursor l = Some groups ∧
    NoDup (mjoin groups) ∧ ∀ i, i ∈ mjoin groups → (cursor ≤ i)%nat.
Proof.
  revert cursor l. induction fuel as [|fuel IH]; intros cursor [|entry l] Hf; cbn in *;
    [|lia| |]; try (exists []; split_and!; [done|constructor|];
                    intros i Hi; by apply elem_of_nil in Hi).
  assert (∀ groups, NoDup (mjoin groups) → (∀ i, i ∈ mjoin groups → (S cursor ≤ i)%nat) →
    NoDup (mjoin ([cursor] :: groups)) ∧ ∀ i, i ∈ mjoin ([cursor] :: groups) → (cursor ≤ i)%nat)
    as Hsingle.
  { intros groups Hnd Hin. cbn. split.
    - constructor; [|done]. intros Hi. specialize (Hin _ Hi). lia.
    - intros i [->|Hi]%elem_of_cons; [done|]. specialize (Hin _ Hi). lia. }
  destruct (IH (S cursor) l) as (groups & Hg & Hnd & Hin); [lia|].
  destruct entry as [prompt|content|content reasoning [|call calls]|call name outcome|? ? ? ?];
    rewrite ?Hg; cbn; try (eexists; split; [done|]; by apply Hsingle);
    try (exists groups; split_and!; [done|done|intros i Hi; specialize (Hin _ Hi); lia]).
  pose proof (tool_group_tail_bounds (mtc_id <$> call :: calls) (S cursor) l) as Hb. cbn in Hb.
  destruct (tool_group_tail _ (S cursor) l) as [[group stop] rest].
  destruct Hb as (Hle & Hlen & Hgnd & Hgin).
  destruct (IH stop rest) as (groups' & -> & Hnd' & Hin'); [lia|]. cbn.
  eexists. split; [done|]. cbn. split.
  - apply NoDup_cons. split.
    + rewrite elem_of_app. intros [Hi|Hi]; [specialize (Hgin _ Hi)|specialize (Hin' _ Hi)]; lia.
    + apply NoDup_app. split_and!; [done| |done].
      intros i Hi Hi'. specialize (Hgin _ Hi). specialize (Hin' _ Hi'). lia.
  - intros i [->|[Hi|Hi]%elem_of_app]%elem_of_cons; [done|specialize (Hgin _ Hi)|specialize (Hin' _ Hi)]; lia.
Qed.

Lemma atomic_history_groups_NoDup transcript : NoDup (mjoin (atomic_history_groups transcript)).
Proof.
  unfold atomic_history_groups.
  by destruct (history_groups_loop_fuel (length transcript) 0 transcript) as (g & -> & ? & _).
Qed.

Lemma disjoint_groups (groups : list (list nat)) g g' i :
  NoDup (mjoin groups) → g ∈ groups → g' ∈ groups → i ∈ g → i ∈ g' → g = g'.
Proof.
  induction groups as [|g0 groups IH]; cbn; intros Hnd Hg Hg' Hi Hi'; [by apply elem_of_nil in Hg|].
  apply NoDup_app in Hnd as (_ & Hdisj & Hnd).
  apply elem_of_cons in Hg as [->|Hg], Hg' as [->|Hg']; [done| | |by eapply IH].
  - destruct (Hdisj i); [done|]. apply list_elem_of_join. eauto.
  - destruct (Hdisj i); [done|]. apply list_elem_of_join. eauto.
Qed.

(** ** Expansion to whole groups *)

(** A selection that splits no group. *)
Definition closed (groups : list (list nat)) (selected : gset nat) : Prop :=
  ∀ g, g ∈ groups → (∃ i, i ∈ g ∧ i ∈ selected) → ∀ i, i ∈ g → i ∈ selected.

Lemma expand_pass_bounds selected groups :
  selected ⊆ expand_pass selected groups ∧
  expand_pass selected groups ⊆ selected ∪ list_to_set (mjoin groups).
Proof.
  unfold expand_pass. revert selected. induction groups as [|g groups IH]; intros selected; cbn.
  { set_solver. }
  rewrite list_to_set_app_L. destruct (existsb _ g); destruct (IH (selected ∪ list_to_set g));
    destruct (IH selected); set_solver.
Qed.

Lemma expand_pass_fixed selected groups :
  expand_pass selected groups = selected → closed groups selected.
Proof.
  revert selected. induction groups as [|g groups IH]; intros selected Hfix; [intros ? Hn; by apply elem_of_nil in Hn|].
  pose proof (expand_pass_bounds selected groups) as [Hsub _].
  pose proof (expand_pass_bounds (selected ∪ list_to_set g) groups) as [Hsub' _].
  unfold expand_pass in *. cbn in Hfix. destruct (existsb _ g) eqn:He.
  - rewrite Hfix in Hsub'. assert (selected ∪ list_to_set g = selected) as Hg by set_solver.
    rewrite Hg in Hfix. specialize (IH _ Hfix).
    intros g' [->|Hg']%elem_of_cons Hex i Hi; [|by eapply IH]. set_solver.
  - specialize (IH _ Hfix). intros g' [->|Hg']%elem_of_cons [j [Hj Hs]] i Hi; [|eapply IH; eauto].
    rewrite existsb_false_elem_of in He. specialize (He _ Hj). by apply bool_decide_eq_false in He.
Qed.

Lemma expand_loop_fuel fuel selected groups (universe : gset nat) :
  list_to_set (mjoin groups) ⊆ universe → (size (universe ∖ selected) < fuel)%nat →
  ∃ result, expand_loop fuel selected groups = Some result ∧ selected ⊆ result ∧
    closed groups result.
Proof.
  intros Huni. revert selected. induction fuel as [|fuel IH]; intros selected Hf; [lia|]. cbn.
  pose proof (expand_pass_bounds selected groups) as [Hsub Hup].
  case_bool_decide as Heq.
  - eexists. split; [done|]. split; [done|]. rewrite Heq. by apply expand_pass_fixed.
  - destruct (IH (expand_pass selected groups)) as (result & Hr & Hs & Hc).
    + assert (universe ∖ expand_pass selected groups ⊂ universe ∖ selected) as Hlt.
      { split; [clear -Hsub; set_solver|]. intros Hback. apply Heq, set_eq. intros x.
        split; [|apply Hsub]. intros Hx. destruct (decide (x ∈ selected)) as [|Hn]; [done|].
        specialize (Hup x Hx). specialize (Huni x). specialize (Hback x).
        rewrite elem_of_union in Hup. rewrite !elem_of_difference in Hback. naive_solver. }
      apply subset_size in Hlt. lia.
    + exists result. split; [done|]. split; [by etrans|done].
Qed.

Lemma expand_selected_groups_spec selected groups :
  (∃ result, expand_loop (S (length (mjoin groups))) selected groups = Some result ∧
     expand_selected_groups selected groups = result) ∧
  selected ⊆ expand_selected_groups selected groups ∧
  closed groups (expand_selected_groups selected groups).
Proof.
  destruct (expand_loop_fuel (S (length (mjoin groups))) selected groups (list_to_set (mjoin groups)))
    as (result & Hr & Hs & Hc); [done| |].
  - apply Nat.lt_succ_r. etrans; [apply subseteq_size|apply size_list_to_set_le].
    clear. set_solver.
  - unfold expand_selected_groups. rewrite Hr. cbn. eauto.
Qed.

(** The broker's loops end within the fuel they are given, on every input: the token scan
    consumes a byte per iteration, the grouping of the history an entry per iteration, and
    the expansion of a selection to whole groups reaches a fixed point after at most one pass
    per grouped entry - a selection that contains the original one and splits no group. *)
Theorem broker_loops_terminate (text : list ascii) tokens transcript selected groups :
  is_Some (estimate_loop (length text) text tokens) ∧
  is_Some (history_groups_loop (length transcript) 0 transcript) ∧
  ∃ result, expand_loop (S (length (mjoin groups))) selected groups = Some result ∧
    selected ⊆ result ∧ closed groups result.
Proof.
  split_and!.
  - by apply estimate_loop_fuel.
  - destruct (history_groups_loop_fuel (length transcript) 0 transcript) as (g & -> & _); eauto.
  - destruct (expand_selected_groups_spec selected groups) as ((result & Hr & <-) & ? & ?). eauto.
Qed.

(** ** Planning *)

Lemma closed_union groups selected g :
  NoDup (mjoin groups) → g ∈ groups → closed groups selected →
  closed groups (selected ∪ list_to_set g).
Proof.
  intros Hnd Hg Hc g' Hg' (i & Hi & Hin) j Hj. apply elem_of_union.
  apply elem_of_union in Hin as [Hin|Hin].
  - left. eapply Hc; eauto.
  - right. apply elem_of_list_to_set in Hin. apply elem_of_list_to_set.
    by rewrite (disjoint_groups groups g g' i Hnd Hg Hg' Hin Hi).
Qed.

(** What the greedy loop maintains. *)
Definition plan_ok (input : ContextInput) (effective : EffectiveContext) (target : N)
    (st : gset nat * ContextProjection * N) : Prop :=
  let '(selected, candidate, after) := st in
  candidate = projection_from_indices effective (ci_transcript input) selected ∧
  estimate_projection_tokens input candidate = Ok after ∧ after ≤ target ∧
  mandatory_entry_indices input ⊆ selected ∧
  closed (atomic_history_groups (ci_transcript input)) selected.

Lemma select_group_ok input effective target st g st' :
  g ∈ atomic_history_groups (ci_transcript input) → plan_ok input effective target st →
  select_group input effective target st g = Ok st' → plan_ok input effective target st'.
Proof.
  destruct st as [[selected candidate] after]. intros Hg (Hc & He & Hle & Hm & Hcl) Hs.
  unfold select_group in Hs. destruct (forallb _ g); [by simplify_eq|].
  apply bind_Ok in Hs as (n & Hn & Hs). destruct (N.leb_spec n target) as [Ht|Ht]; simplify_eq.
  - split_and!; [done|done|done|set_solver|].
    apply closed_union; [apply atomic_history_groups_NoDup|done|done].
  - done.
Qed.

Lemma select_groups_ok input effective target groups st st' :
  (∀ g, g ∈ groups → g ∈ atomic_history_groups (ci_transcript input)) →
  plan_ok input effective target st →
  fold_result (select_group input effective target) st groups = Ok st' →
  plan_ok input effective target st'.
Proof.
  revert st. induction groups as [|g groups IH]; intros st Hin Hok Hs; cbn in Hs;
    [by simplify_eq|]. apply bind_Ok in Hs as (st1 & Hst1 & Hs).
  eapply IH; [..|exact Hs].
  - intros g' Hg'. apply Hin. by right.
  - eapply select_group_ok; [|done|done]. apply Hin. by left.
Qed.

(** The plan a successful preparation returns. *)
Lemma prepared_plan input policy projection before after :
  prepare_compaction input policy = Ok (CompactionLocal projection before after) →
  ∃ effective selected target,
    effective_context input = Ok effective ∧ before = ec_estimated_tokens effective ∧
    hard_input_tokens policy < before ∧ target ≤ hard_input_tokens policy ∧ after < before ∧
    plan_ok input effective target (selected, projection, after).
Proof.
  unfold prepare_compaction. intros Hp. apply bind_Ok in Hp as ([] & _ & Hp).
  apply bind_Ok in Hp as (effective & Heff & Hp).
  destruct (N.leb_spec (ec_estimated_tokens effective) (hard_input_tokens policy)) as [|Hhard];
    [done|].
  set (groups := atomic_history_groups (ci_transcript input)) in *.
  set (selected := expand_selected_groups (mandatory_entry_indices input) groups) in *.
  apply bind_Ok in Hp as (after0 & Hafter0 & Hp).
  destruct (N.ltb_spec (hard_input_tokens policy) after0) as [|Hfit]; [done|].
  set (target := N.max _ after0) in *.
  apply bind_Ok in Hp as ([[sel cand] n] & Hfold & Hp).
  destruct (N.leb_spec (ec_estimated_tokens effective) n) as [|Hlt]; [done|].
  injection Hp as <- <- <-.
  destruct (expand_selected_groups_spec (mandatory_entry_indices input) groups)
    as (_ & Hmand & Hcl).
  exists effective, sel, target. split_and!; try done; [unfold target; lia|].
  eapply select_groups_ok; [| |exact Hfold].
  - intros g Hg. by rewrite elem_of_reverse in Hg.
  - split_and!; [done|done|unfold target; lia|done|done].
Qed.


Lemma projection_matches_source input effective selected projection :
  effective_context input = Ok effective →
  projection = projection_from_indices effective (ci_transcript input) selected →
  cp_source_entry_count projection = ec_source_entry_count effective ∧
  cp_source_projection_sha256 projection = ec_sha256 effective.
Proof.
  intros He ->. unfold projection_from_indices. destruct (project_selected _ _ _ _). cbn.
  split; [|done]. unfold effective_context in He.
  repeat (apply bind_Ok in He; destruct He as (? & ? & He); try destruct_and?).
  match type of He with (let '(_, _) := ?x in _) = _ => destruct x end.
  repeat (apply bind_Ok in He; destruct He as (? & ? & He)). by injection He as <-.
Qed.

(** The reducer is no second broker: it commits a compaction exactly when the run is at a
    safe boundary, the accounting is unchanged and the event carries the projection and the
    estimates the deterministic broker computes from the run's own durable facts; the new
    snapshot differs from the old one only in the projection and its receipt. *)
Theorem compaction_commit_iff_broker_plan s run_id n projection tools accounting before after
    s' :
  on_context_compaction_committed s run_id n projection tools accounting before after = Ok s' ↔
  validate_compaction_safe_boundary s run_id = Ok tt ∧ accounting = sn_accounting s ∧
  prepare_compaction (context_input s tools) (rr_context_policy (sn_request s)) =
    Ok (CompactionLocal projection before after) ∧
  s' = s <| sn_context_projection := Some projection |>
         <| sn_last_context_compaction :=
              Some (mkCommittedContextCompaction (cp_source_projection_sha256 projection)
                      before after n) |>.
Proof.
  split.
  - unfold on_context_compaction_committed. intros Hc. inv_run.
    repeat match goal with Hn : negb _ = false |- _ => apply negb_false_iff in Hn end.
    match goal with Hm : match ?p with _ => _ end = true |- _ => destruct p eqn:Hprep; try done end.
    bprop. subst. split_and!; try done.
  - intros (Hb & -> & Hp & ->).
    destruct (prepared_plan _ _ _ _ _ Hp) as
      (effective & selected & target & Heff & -> & _ & Hhard & Hlt & Hc & Hest & Hle & _).
    destruct (projection_matches_source _ _ _ _ Heff Hc) as [Hcount Hsha].
    unfold on_context_compaction_committed. rewrite Hb, Heff, Hp, Hest. cbn.
    rewrite Hcount, Hsha, !N.eqb_refl, !bool_decide_true by done. cbn.
    destruct (N.leb_spec (ec_estimated_tokens effective) after); [lia|].
    destruct (N.ltb_spec (hard_input_tokens (rr_context_policy (sn_request s))) after); [lia|].
    cbn. by destruct s.
Qed.

(** ** Growing transcripts *)

Lemma project_indices_app t compact xs ys :
  project_indices t compact (xs ++ ys) =
  (project_indices t compact xs ++ project_indices t compact ys)%list.
Proof. apply omap_app. Qed.

(** Projecting indices inside a prefix only reads the prefix. *)
Lemma project_indices_prefix (t more : CanonicalTranscript) compact (xs : list nat) :
  Forall (λ i, i < length t)%nat xs →
  project_indices (t ++ more)%list compact xs = project_indices t compact xs.
Proof.
  unfold project_indices. induction 1 as [|x xs Hx _ IH]; [done|].
  pose proof (lookup_app_l t more x Hx) as Hl. unfold CanonicalTranscript in *.
  cbn [omap list_omap]. by rewrite Hl, IH.
Qed.

(** A committed projection survives the growth of the transcript: appending entries
    never invalidates it, and the history it yields is the old history followed by the plain
    projection of the appended entries, with their own source indices.  So a compaction
    once accepted is never re-interpreted by later events. *)
Theorem projection_survives_growth (t more : CanonicalTranscript) projection history indices :
  projected_history t projection = Ok (history, indices) →
  projected_history (t ++ more)%list projection =
    Ok ((history ++ (project_range (t ++ more)%list (length t)
                       (length (t ++ more)%list) false).1)%list,
        (indices ++ (project_range (t ++ more)%list (length t)
                       (length (t ++ more)%list) false).2)%list).
Proof.
  unfold projected_history. intros Hp. apply bind_Ok in Hp as ([] & Hb & Hp).
  apply fail_if_Ok, N.ltb_ge in Hb. apply bind_Ok in Hp as ([] & Hi & Hp). apply fail_if_Ok in Hi.
  set (boundary := N.to_nat (cp_source_entry_count projection)) in *.
  assert (boundary ≤ length t)%nat as Hle by (unfold boundary; lia).
  assert (project_selected (t ++ more)%list
      (list_to_set (N.to_nat <$> cp_selected_entry_indices projection)) boundary true =
    project_selected t
      (list_to_set (N.to_nat <$> cp_selected_entry_indices projection)) boundary true) as Hsel.
  { unfold project_selected. rewrite project_indices_prefix; [done|].
    apply Forall_forall. intros i Hin. apply list_elem_of_In, filter_In in Hin as [_ Hlt].
    apply Nat.ltb_lt in Hlt. lia. }
  destruct (project_selected t _ boundary true) as [expected expected_indices] eqn:Hs.
  apply bind_Ok in Hp as ([] & Hmatch & Hp).
  destruct (project_range t boundary (length t) false) as [suffix suffix_indices] eqn:Hr.
  injection Hp as <- <-.
  assert (project_range (t ++ more)%list boundary (length (t ++ more)%list) false =
    ((suffix ++ (project_range (t ++ more)%list (length t) (length (t ++ more)%list) false).1)%list,
     (suffix_indices ++
       (project_range (t ++ more)%list (length t) (length (t ++ more)%list) false).2)%list)) as Hrange.
  { unfold project_range in *. injection Hr as <- <-. rewrite length_app.
    replace (length t + length more - boundary)%nat
      with ((length t - boundary) + (length t + length more - length t))%nat by lia.
    rewrite seq_app, project_indices_app, !fmap_app.
    replace (boundary + (length t - boundary))%nat with (length t) by lia.
    rewrite (project_indices_prefix _ _ _ (seq boundary _)); [done|].
    apply Forall_forall. intros i Hin%elem_of_seq. lia. }
  rewrite (proj2 (N.ltb_ge _ _)) by (rewrite length_app; lia). rewrite Hi.
  cbn [fail_if mbind result_bind]. fold boundary. rewrite Hsel, Hmatch. cbn [mbind result_bind]. rewrite Hrange.
  by rewrite !app_assoc.
Qed.
End groups.
