(* ===== verification/ErrorFacts.v ===== *)
(** Errors and outcomes: the consistency of the status axes of a tool outcome and what
    [ToolOutcome::with_workspace_access_guarantee] does to them; and the reducer reports a bad log
    as corrupt - it never panics and never fails in any other way, whatever event it is given. *)
From Stdlib Require Import String.
From S2P Require Import Prelude.
From S2P Require Import Text.
From S2P Require Import Json.
From S2P Require Import Task.
From S2P Require Import Protocol.
From S2P Require Import Validate.
From S2P Require Import Context.
From S2P Require Import Snapshot.
From S2P Require Import Evidence.
From S2P Require Import RunEvents.
From S2P Require Import AgentEvents.
From S2P Require Import Reducer.
From S2P Require Import Steps.
From S2P Require Import LogFacts.

Open Scope string_scope.

Section outcome_facts.
Context `{JsonLib, ProtocolCodec, TaskCodec}.
Implicit Types o : ToolOutcome.

(** The checks of [ToolOutcome::validate] on the failure code and the five status axes. *)
Definition axes_ok (code : option ToolFailureCode) (i : ToolInvocationStatus)
    (t : ToolTransportStatus) (op : ToolOperationStatus) (se : ToolSideEffectStatus)
    (r : ToolRetryDisposition) : bool :=
  let success := (i ==? InvocationAccepted) && (t ==? TransportSucceeded)
                 && (op ==? OperationSucceeded) in
  negb (success && is_some code) && negb (negb success && is_none code)
  && negb (is_some_and code is_preflight_code && (i !=? InvocationRejectedStatus))
  && negb (is_some_and code is_observed_failure_code
           && ((i !=? InvocationAccepted) || (t !=? TransportSucceeded)
               || (op !=? OperationFailedStatus)))
  && negb ((code ==? Some TransportFailed)
           && ((i !=? InvocationAccepted) || (t !=? TransportFailedStatus)
               || (op !=? OperationIndeterminate)))
  && negb ((code ==? Some SideEffectAmbiguous)
           && ((se !=? SideEffectIndeterminate) || (r !=? RetryUnsafe)))
  && negb ((i ==? InvocationRejectedStatus)
           && ((t !=? TransportNotStarted) || (op !=? OperationNotStarted)
               || (se !=? SideEffectNotApplied)))
  && negb ((t !=? TransportSucceeded) && (op ==? OperationSucceeded))
  && negb ((op ==? OperationSucceeded) && (r !=? RetryNotNeeded))
  && negb ((r ==? RetrySafe)
           && negb ((se ==? SideEffectNotApplicable) || (se ==? SideEffectNotApplied))).

Definition outcome_axes o : bool :=
  axes_ok (to_failure_code o) (to_invocation o) (to_transport o) (to_operation o)
    (to_side_effect o) (to_retry o).

(** The checks on the artifacts and the verifier observation. *)
Definition payload_ok o : Prop :=
  for_each (λ a, validate_artifact
    ("available artifact '" ++ tf_id a ++ "' must carry a sha256 digest") a)
    (to_artifacts o) = Ok tt ∧
  match to_verifier_observation o with
  | Some observation => VerifierObservation_validate observation
  | None => Ok tt
  end = Ok tt.

Lemma ToolOutcome_validate_Ok o :
  ToolOutcome_validate o = Ok tt ↔ outcome_axes o = true ∧ payload_ok o.
Proof.
  unfold ToolOutcome_validate, outcome_axes, axes_ok, payload_ok, ToolOutcome_is_success.
  rewrite !andb_true_iff, !negb_true_iff. cbv zeta. split.
  - intros Hv. repeat (apply bind_Ok in Hv as ([] & ? & Hv)).
    repeat match goal with Hf : fail_if _ _ = Ok _ |- _ => apply fail_if_Ok in Hf end.
    repeat split; assumption.
  - intros [Hb [-> ->]]. destruct_and?.
    repeat match goal with Hf : _ = false |- _ => rewrite Hf; clear Hf end. done.
Qed.

(** What the guarantee does to the axes of an unsuccessful read-only outcome. *)
Definition guaranteed_code (code : option ToolFailureCode) : option ToolFailureCode :=
  if code ==? Some SideEffectAmbiguous then Some OperationFailed else code.
Definition guaranteed_side_effect (se : ToolSideEffectStatus) : ToolSideEffectStatus :=
  if se ==? SideEffectIndeterminate then SideEffectNotApplicable else se.
Definition guaranteed_retry (r : ToolRetryDisposition) : ToolRetryDisposition :=
  if r ==? RetryUnsafe then RetrySafe else r.

Lemma guaranteed_fields o :
  ToolOutcome_is_success o = false →
  with_workspace_access_guarantee o WorkspaceReadOnly =
    o <| to_side_effect := guaranteed_side_effect (to_side_effect o) |>
      <| to_retry := guaranteed_retry (to_retry o) |>
      <| to_failure_code := guaranteed_code (to_failure_code o) |>.
Proof.
  unfold with_workspace_access_guarantee, guaranteed_code, guaranteed_side_effect,
    guaranteed_retry. intros ->. cbn [negb andb].
  destruct o as [[[]|] i t op [] [] ev art wr vo c md]; reflexivity.
Qed.

Lemma guaranteed_axes_ok code i t op se r :
  axes_ok code i t op se r = true →
  (i ==? InvocationAccepted) && (t ==? TransportSucceeded) && (op ==? OperationSucceeded)
    = false →
  (se ≠ SideEffectApplied →
   axes_ok (guaranteed_code code) i t op (guaranteed_side_effect se) (guaranteed_retry r)
     = true) ∧
  (se = SideEffectApplied → r = RetryUnsafe →
   axes_ok (guaranteed_code code) i t op (guaranteed_side_effect se) (guaranteed_retry r)
     = false) ∧
  (se = SideEffectApplied → r ≠ RetryUnsafe → guaranteed_code code = code).
Proof.
  intros Hok Hns. destruct code as [[]|], i, t, op; try discriminate Hok; try discriminate Hns;
    destruct se, r; try discriminate Hok; repeat split; intros; congruence || reflexivity.
Qed.

(** The read-only guarantee makes an unsuccessful outcome of a read-only tool consistent
    with that authority.  For a well-formed outcome that does not claim an applied side
    effect the result is well-formed, claims no side effect at all and never asks for an
    unsafe retry.  An outcome that does claim an applied side effect is left as it is for the
    reducer to reject - except that an [Unsafe] retry is still rewritten to [Safe], which
    makes the outcome ill-formed. *)
Theorem read_only_guarantee_is_sound o :
  ToolOutcome_validate o = Ok tt → ToolOutcome_is_success o = false →
  let o' := with_workspace_access_guarantee o WorkspaceReadOnly in
  (to_side_effect o ≠ SideEffectApplied →
     ToolOutcome_validate o' = Ok tt ∧ ToolOutcome_is_success o' = false ∧
     (to_side_effect o' = SideEffectNotApplicable ∨ to_side_effect o' = SideEffectNotApplied) ∧
     to_retry o' ≠ RetryUnsafe) ∧
  (to_side_effect o = SideEffectApplied → to_retry o ≠ RetryUnsafe → o' = o) ∧
  (to_side_effect o = SideEffectApplied → to_retry o = RetryUnsafe →
     ToolOutcome_validate o' ≠ Ok tt).
Proof.
  intros [Ha Hp]%ToolOutcome_validate_Ok Hns. pose proof (guaranteed_axes_ok _ _ _ _ _ _ Ha Hns)
    as (Hsafe & Hbad & Hkeep). cbv zeta. rewrite (guaranteed_fields _ Hns). repeat split.
  - apply ToolOutcome_validate_Ok. split; [by apply Hsafe|exact Hp].
  - exact Hns.
  - cbn. unfold guaranteed_side_effect. destruct (to_side_effect o); naive_solver.
  - cbn. unfold guaranteed_retry. by destruct (to_retry o).
  - intros Hse Hr. destruct o as [code i t op se r ev art wr vo c md]. cbn in *. subst se.
    rewrite Hkeep by done. unfold guaranteed_retry. by destruct r.
  - intros Hse Hr [Hv _]%ToolOutcome_validate_Ok. unfold outcome_axes in Hv. cbn in Hv.
    rewrite Hbad in Hv by done. discriminate.
Qed.
End outcome_facts.

Open Scope N_scope.

(** [corrupt_only run_id m]: if [m] fails, then with a corruption report for this run. *)
Definition corrupt_only {A} (run_id : RunId) (m : result RunStoreError A) : Prop :=
  ∀ e, m = Err e → ∃ message, e = Corrupt run_id message.

Section corrupt_only.
Context {A B : Type} (run_id : RunId).

Lemma corrupt_only_ok (a : A) : corrupt_only run_id (Ok a).
Proof. by intros e. Qed.
Lemma corrupt_only_err message : corrupt_only run_id (A := A) (Err (corrupt run_id message)).
Proof. intros e [= <-]. by eexists. Qed.
Lemma corrupt_only_bind (m : result RunStoreError B) (f : B → result RunStoreError A) :
  corrupt_only run_id m → (∀ b, m = Ok b → corrupt_only run_id (f b)) →
  corrupt_only run_id (m ≫= f).
Proof.
  intros Hm Hf e. destruct m as [b|e'] eqn:Heq; cbn; [by apply Hf|].
  intros [= <-]. by apply Hm.
Qed.
Lemma corrupt_only_guard c message : corrupt_only run_id (guard_corrupt run_id c message).
Proof. intros e. unfold guard_corrupt. destruct c; cbn; [|done]. intros [= <-]. by eexists. Qed.
Lemma corrupt_only_or (r : result string A) : corrupt_only run_id (or_corrupt run_id r).
Proof. intros e. destruct r; cbn; [done|]. intros [= <-]. by eexists. Qed.
Lemma corrupt_only_some (o : option A) message :
  corrupt_only run_id (some_or_corrupt run_id o message).
Proof. intros e. destruct o; cbn; [done|]. intros [= <-]. by eexists. Qed.
Lemma corrupt_only_context (r : result ContextProjectionError A) :
  corrupt_only run_id (map_context_error run_id r).
Proof. intros e. destruct r; cbn; [done|]. intros [= <-]. by eexists. Qed.
Lemma corrupt_only_for_each (f : A → result RunStoreError unit) xs :
  (∀ x, corrupt_only run_id (f x)) → corrupt_only run_id (for_each f xs).
Proof.
  intros Hf. induction xs as [|x xs IH]; cbn; [by intros e|]. intros e.
  destruct (f x) eqn:Hx; cbn; [by apply IH|]. intros [= <-]. by apply (Hf x).
Qed.
End corrupt_only.

Ltac head_of t := lazymatch t with ?f _ => head_of f | _ => t end.

(** One structural step: close a leaf, split a bind or a match, open a definition. *)
Ltac corrupt_only_step :=
  lazymatch goal with
  | |- corrupt_only _ (_ ≫= _) => apply corrupt_only_bind; [|intros ? ?]
  | |- corrupt_only _ (Ok _) => apply corrupt_only_ok
  | |- corrupt_only _ (mret _) => apply corrupt_only_ok
  | |- corrupt_only _ (Err (corrupt _ _)) => apply corrupt_only_err
  | |- corrupt_only _ (guard_corrupt _ _ _) => apply corrupt_only_guard
  | |- corrupt_only _ (or_corrupt _ _) => apply corrupt_only_or
  | |- corrupt_only _ (some_or_corrupt _ _ _) => apply corrupt_only_some
  | |- corrupt_only _ (map_context_error _ _) => apply corrupt_only_context
  | |- corrupt_only _ (for_each _ _) => apply corrupt_only_for_each; intros ?
  | |- corrupt_only _ (expect_contract _) => assumption
  | |- corrupt_only _ (expected_root _ _) => assumption
  | |- corrupt_only _ (match ?x with _ => _ end) => destruct x eqn:?
  | |- corrupt_only _ (let _ := _ in _) => cbv zeta
  | |- corrupt_only _ ?t => let h := head_of t in unfold h
  end.
Ltac solve_corrupt_only := repeat corrupt_only_step.

Section error_facts.
Context `{Codecs}.
Implicit Types (s : RunSnapshot) (e : StoredRuntimeEvent) (events : list StoredRuntimeEvent).

(** A child run carries its task. *)
Lemma reachable_child_task events s :
  reachable events s → actor_kind (rr_actor (sn_request s)) = ActorChild →
  is_Some (rr_agent_task (sn_request s)).
Proof.
  intros (first & rest & _ & Hv)%reachable_request Hc.
  apply validate_run_created_Ok in Hv as (_ & _ & _ & _ & _ & Hb & _).
  unfold validate_agent_task_binding in Hb. rewrite Hc in Hb. inv_ok. by eexists.
Qed.

Lemma expected_root_corrupt_only s run_id :
  (actor_kind (rr_actor (sn_request s)) = ActorChild → is_Some (rr_agent_task (sn_request s))) →
  corrupt_only run_id (expected_root s run_id).
Proof.
  intros Ht. unfold expected_root. destruct (actor_kind _); [apply corrupt_only_ok|].
  destruct (Ht eq_refl) as [task Htask]. unfold expect_agent_task. rewrite Htask. cbn.
  apply corrupt_only_ok.
Qed.

Lemma dispatch_corrupt_only events s run_id n ev :
  reachable events s → corrupt_only run_id (dispatch s run_id n ev).
Proof.
  intros Hr. pose proof (reachable_contract _ _ Hr) as (contract & rid & Hc & _).
  assert (corrupt_only run_id (expect_contract s)) as Hexp
    by (unfold expect_contract; rewrite Hc; apply corrupt_only_ok).
  pose proof (expected_root_corrupt_only s run_id (reachable_child_task _ _ Hr)) as Hroot.
  destruct ev; cbn [dispatch]; solve_corrupt_only.
Qed.

Lemma bind_Err {E A B} (m : result E A) (f : A → result E B) err :
  (m ≫= f) = Err err → m = Err err ∨ ∃ a, m = Ok a ∧ f a = Err err.
Proof. destruct m; cbn; naive_solver. Qed.

Lemma header_errors e expected run_id err :
  validate_event_header e expected run_id = Err err →
  (∃ message, err = Corrupt run_id message) ∨
  (err = UnsupportedSchema (sre_schema_version e)
           MIN_SUPPORTED_AGENT_RUNTIME_EVENT_SCHEMA_VERSION
           AGENT_RUNTIME_EVENT_SCHEMA_VERSION ∧
   sre_schema_version e ≠ AGENT_RUNTIME_EVENT_SCHEMA_VERSION).
Proof.
  unfold validate_event_header. intros Hv. apply bind_Err in Hv as [Hv|([] & _ & Hv)].
  - right. destruct (negb _) eqn:Hver; [|done]. injection Hv as <-. split; [done|].
    intros Heq. by rewrite Heq in Hver.
  - left. revert err Hv. match goal with |- ∀ err, ?m = Err err → _ =>
      change (corrupt_only run_id m) end. solve_corrupt_only.
Qed.

(** Whatever event follows an accepted log, the reducer either accepts it or says why not
    in one of two ways: the event's schema version is outside the supported range, or the
    run - named by its own id - is reported as corrupt.  In particular none of the
    [expect] calls of the reducer can fire (the contract and the child binding they rely on
    were checked when the run was created), and no other kind of error escapes. *)
Theorem reducer_only_reports_corruption events s e err :
  reduce_events events = Ok s → apply_event s e = Err err →
  ∃ run_id, rr_run_id (sn_request s) = Some run_id ∧
    ((∃ message, err = Corrupt run_id message) ∨
     (err = UnsupportedSchema (sre_schema_version e)
              MIN_SUPPORTED_AGENT_RUNTIME_EVENT_SCHEMA_VERSION
              AGENT_RUNTIME_EVENT_SCHEMA_VERSION ∧
      sre_schema_version e ≠ AGENT_RUNTIME_EVENT_SCHEMA_VERSION)).
Proof.
  intros Hr%reachable_reduce Ha.
  pose proof (reachable_contract _ _ Hr) as (_ & run_id & _ & Hid & _).
  exists run_id. split; [done|]. unfold apply_event in Ha.
  apply bind_Err in Ha as [Ha|(rid & Hadm & Ha)].
  - unfold admit_event in Ha. rewrite Hid in Ha. cbn [ok_or] in Ha.
    apply bind_Err in Ha as [Ha|(rid & [= <-] & Ha)]; [done|].
    apply bind_Err in Ha as [Ha|([] & _ & Ha)]; [by eapply header_errors|].
    left. revert err Ha. match goal with |- ∀ err, ?m = Err err → _ =>
      change (corrupt_only run_id m) end. solve_corrupt_only.
  - apply admit_event_Ok in Hadm as (Hid' & _). rewrite Hid in Hid'. injection Hid' as <-.
    apply bind_Err in Ha as [Ha|(s' & _ & Ha)]; [|done].
    left. by eapply dispatch_corrupt_only.
Qed.
End error_facts.
