(* ===== verification/MemStore.v ===== *)
(** The in-memory run store: [InMemoryRunStore] of [crates/runtime/src/store.rs].

    The two mutex-guarded maps are the fields of one state; an operation that holds a lock is
    one atomic transition.  What the environment supplies is an argument: the clock ([now]),
    the fresh owner identity of a lease ([owner_id]) and the process id ([owner_pid]).  An
    operation that fails leaves the store unchanged.  The store never looks into the launch
    command of a reservation, so its type is a parameter. *)
From Stdlib Require Import String.
From stdpp Require Import sorting.
From S2P Require Import Prelude Text Json Task Protocol Validate Context Snapshot Evidence.
From S2P Require Import RunEvents AgentEvents Reducer.

Open Scope string_scope.
Open Scope N_scope.

Record RunLease := mkRunLease {
  rl_run_id : RunId;
  rl_epoch : N;
  rl_owner_id : string;
  rl_owner_pid : N;
}.
#[global] Instance RunLease_eq_dec : EqDecision RunLease.
Proof. solve_decision. Defined.

Record CreatedRun := mkCreatedRun {
  created_lease : RunLease;
  created_event : StoredRuntimeEvent;
  created_replay : RunReplay;
}.

Record AcquiredRun := mkAcquiredRun {
  acquired_lease : option RunLease;
  acquired_replay : RunReplay;
}.

Record RootRunRecord := mkRootRunRecord {
  rrr_run_id : RunId;
  rrr_continued_from_run_id : option RunId;
  rrr_workspace : string;
  rrr_last_sequence : N;
  rrr_terminal : bool;
  rrr_created_at_unix_ms : N;
  rrr_updated_at_unix_ms : N;
}.

Inductive PendingCreationKind := CreationStart | CreationContinue.

Record CreationIntent (RunCommand : Type) := mkCreationIntent {
  ci_kind : PendingCreationKind;
  ci_workspace : string;
  ci_source_run_id : option RunId;
  ci_command : RunCommand;
}.
Arguments mkCreationIntent {_}.
Arguments ci_kind {_}.
Arguments ci_workspace {_}.
Arguments ci_source_run_id {_}.
Arguments ci_command {_}.

Record CreationReservation (RunCommand : Type) := mkCreationReservation {
  cre_command_id : CommandId;
  cre_command_sha256 : string;
  cre_run_id : RunId;
  cre_created_at_unix_ms : N;
  cre_intent : option (CreationIntent RunCommand);
}.
Arguments mkCreationReservation {_}.
Arguments cre_command_id {_}.
Arguments cre_command_sha256 {_}.
Arguments cre_run_id {_}.
Arguments cre_created_at_unix_ms {_}.
Arguments cre_intent {_}.
#[global] Instance CreationReservation_settable C : Settable (CreationReservation C) := λ r,
  mkCreationReservation (cre_command_id r) (cre_command_sha256 r) (cre_run_id r)
    (cre_created_at_unix_ms r) (cre_intent r).

Record ReservedCreation (RunCommand : Type) := mkReservedCreation {
  rc_reservation : CreationReservation RunCommand;
  rc_newly_reserved : bool;
}.
Arguments mkReservedCreation {_}.
Arguments rc_reservation {_}.
Arguments rc_newly_reserved {_}.

Record InMemoryRun := mkInMemoryRun {
  imr_events : list StoredRuntimeEvent;
  imr_snapshot : RunSnapshot;
  imr_lease : option RunLease;
  imr_next_epoch : N;
}.
#[global] Instance InMemoryRun_settable : Settable InMemoryRun := λ r,
  mkInMemoryRun (imr_events r) (imr_snapshot r) (imr_lease r) (imr_next_epoch r).

Record InMemoryRunStore (RunCommand : Type) := mkInMemoryRunStore {
  ims_runs : gmap RunId InMemoryRun;
  ims_creations : gmap CommandId (CreationReservation RunCommand);
}.
Arguments mkInMemoryRunStore {_}.
Arguments ims_runs {_}.
Arguments ims_creations {_}.
#[global] Instance InMemoryRunStore_settable C : Settable (InMemoryRunStore C) := λ r,
  mkInMemoryRunStore (ims_runs r) (ims_creations r).

Definition new_lease (run_id : RunId) (epoch : N) (owner_id : string) (owner_pid : N) : RunLease :=
  mkRunLease run_id epoch owner_id owner_pid.

(** [list.sort_by(right.time.cmp(left.time).then(right.id.cmp(left.id)))]: newest first, ties
    by descending identity. *)
Definition newest_first {A} (time : A → N) (id : A → string) (x y : A) : Prop :=
  time y < time x ∨ (time y = time x ∧ String.le (id y) (id x)).
#[global] Instance newest_first_dec {A} (time : A → N) (id : A → string)
  : RelDecision (newest_first time id).
Proof. intros x y. unfold newest_first. apply _. Defined.

Section mem_store.
Context `{Codecs} {RunCommand : Type}.
Abbreviation store := (InMemoryRunStore RunCommand).

(** ** Replay *)

Definition replay (events : list StoredRuntimeEvent) : result RunStoreError RunReplay :=
  snapshot ← reduce_events events;
  Ok (mkRunReplay snapshot events).

Definition replay_in_memory_run (run : InMemoryRun) : result RunStoreError RunReplay :=
  replayed ← replay (imr_events run);
  guard_corrupt (default "" (rr_run_id (sn_request (imr_snapshot run))))
    (replay_snapshot replayed !=? imr_snapshot run)
    "cached in-memory snapshot diverges from full event replay" ;;
  Ok replayed.

(** ** Creation reservations *)

Definition reserve_creation (st : store) (command_id : CommandId) (command_sha256 : string)
    (proposed_run_id : RunId) (intent : CreationIntent RunCommand) (now : N)
    : result RunStoreError (store * ReservedCreation RunCommand) :=
  match ims_creations st !! command_id with
  | Some existing =>
    fail_if (cre_command_sha256 existing !=? command_sha256) (CreationConflict command_id) ;;
    Ok (st, mkReservedCreation existing false)
  | None =>
    fail_if (existsb (λ '(_, reservation), cre_run_id reservation ==? proposed_run_id)
               (map_to_list (ims_creations st)))
      (Backend ("creation reservation proposed duplicate run id " ++ proposed_run_id)) ;;
    let reservation :=
      mkCreationReservation command_id command_sha256 proposed_run_id now (Some intent) in
    Ok (st <| ims_creations := <[command_id := reservation]> (ims_creations st) |>,
        mkReservedCreation reservation true)
  end.

Definition creation (st : store) (command_id : CommandId)
    : option (CreationReservation RunCommand) := ims_creations st !! command_id.

Definition list_pending_creations (st : store) (workspace : string) (limit : N)
    : list (CreationReservation RunCommand) :=
  let pending := List.filter
    (λ reservation, is_some_and (cre_intent reservation)
                      (λ intent, ci_workspace intent ==? workspace))
    ((map_to_list (ims_creations st)).*2) in
  take (N.to_nat limit)
    (merge_sort (newest_first cre_created_at_unix_ms cre_command_id) pending).

(** The reservation of a run loses its launch intent once the run exists.  Run identities of
    reservations are unique ([creations_ok]), so this is the one [find] selects. *)
Definition clear_intent (run_id : RunId) (creations : gmap CommandId (CreationReservation RunCommand))
    : gmap CommandId (CreationReservation RunCommand) :=
  (λ reservation, if cre_run_id reservation ==? run_id
                  then reservation <| cre_intent := None |> else reservation) <$> creations.

(** ** Continuation lineage *)

(** The walk towards the first run of the lineage; the SQLite store walks the same way over
    its own table.  [lookup] finds and replays a stored run.  A run is visited at most once,
    so one unit of fuel per stored run and one more are enough; [None] is an exhausted
    fuel. *)
Fixpoint lineage_loop (fuel : nat) (lookup : RunId → result RunStoreError (option RunSnapshot))
    (workspace : string) (invalid : RunStoreError) (visited : gset RunId)
    (cursor : option RunId) : option (result RunStoreError unit) :=
  match cursor with
  | None => Some (Ok tt)
  | Some run_id =>
    match fuel with
    | O => None
    | S fuel' =>
      if bool_decide (run_id ∈ visited) then Some (Err invalid)
      else
        match lookup run_id with
        | Err e => Some (Err e)
        | Ok None => Some (Err invalid)
        | Ok (Some snapshot) =>
          if not_root (rr_parent_run_id (sn_request snapshot)) (rr_actor (sn_request snapshot))
             || (env_workspace (rr_environment (sn_request snapshot)) !=? workspace)
             || is_none (sn_terminal snapshot)
          then Some (Err invalid)
          else lineage_loop fuel' lookup workspace invalid ({[ run_id ]} ∪ visited)
                 (rr_continued_from_run_id (sn_request snapshot))
        end
    end
  end.

Definition stored_snapshot (runs : gmap RunId InMemoryRun) (run_id : RunId)
    : result RunStoreError (option RunSnapshot) :=
  match runs !! run_id with
  | None => Ok None
  | Some run => replayed ← replay_in_memory_run run; Ok (Some (replay_snapshot replayed))
  end.

Definition validate_in_memory_continuation_lineage (runs : gmap RunId InMemoryRun)
    (source : RunSnapshot) (workspace : string) : result RunStoreError unit :=
  let source_run_id := default "" (rr_run_id (sn_request source)) in
  let invalid := InvalidContinuation source_run_id LineageCorrupt in
  default (Err invalid)
    (lineage_loop (S (size runs)) (stored_snapshot runs) workspace invalid {[ source_run_id ]}
       (rr_continued_from_run_id (sn_request source))).

(** ** Runs *)

Definition created_stored_event (run_id : RunId) (request : RunRequest) (now : N)
    : StoredRuntimeEvent :=
  mkStoredRuntimeEvent AGENT_RUNTIME_EVENT_SCHEMA_VERSION run_id (rr_parent_run_id request)
    RuntimeEventId_run_created 1 now (RunCreated request).

(** A missing run id is the default, empty one. *)
Definition create (st : store) (request : RunRequest) (now : N) (owner_id : string)
    (owner_pid : N) : result RunStoreError (store * CreatedRun) :=
  let run_id := default "" (rr_run_id request) in
  let request := request <| rr_run_id := Some run_id |> in
  fail_if (is_some (ims_runs st !! run_id)) (AlreadyExists run_id) ;;
  match rr_continued_from_run_id request with
  | None => Ok tt
  | Some source_run_id =>
    source ← ok_or (ims_runs st !! source_run_id) (NotFound source_run_id);
    source ← replay_in_memory_run source;
    validate_continuation_request (replay_snapshot source) request ;;
    validate_in_memory_continuation_lineage (ims_runs st) (replay_snapshot source)
      (env_workspace (rr_environment request))
  end ;;
  let lease := new_lease run_id 1 owner_id owner_pid in
  let created := created_stored_event run_id request now in
  replayed ← replay [created];
  Ok (st <| ims_runs := <[run_id := mkInMemoryRun [created] (replay_snapshot replayed)
                            (Some lease) 2]> (ims_runs st) |>
         <| ims_creations := clear_intent run_id (ims_creations st) |>,
      mkCreatedRun lease created replayed).

Definition acquire (st : store) (run_id : RunId) (owner_id : string) (owner_pid : N)
    : result RunStoreError (store * AcquiredRun) :=
  run ← ok_or (ims_runs st !! run_id) (NotFound run_id);
  replayed ← replay_in_memory_run run;
  if is_some (sn_terminal (replay_snapshot replayed)) then Ok (st, mkAcquiredRun None replayed)
  else
    fail_if (is_some (imr_lease run)) (AlreadyRunning run_id) ;;
    let lease := new_lease run_id (imr_next_epoch run) owner_id owner_pid in
    let run := run <| imr_next_epoch := sat_add64 (imr_next_epoch run) 1 |>
                   <| imr_lease := Some lease |> in
    Ok (st <| ims_runs := <[run_id := run]> (ims_runs st) |>, mkAcquiredRun (Some lease) replayed).

(** The event a lease holder appends, as it is stored.  A created run has at least its first
    event; [None] is the source's panic when it has none. *)
Definition stored_event (run : InMemoryRun) (lease : RunLease) (pending : PendingRuntimeEvent)
    (now : N) : option StoredRuntimeEvent :=
  first ← head (imr_events run);
  Some (mkStoredRuntimeEvent AGENT_RUNTIME_EVENT_SCHEMA_VERSION (rl_run_id lease)
          (sre_parent_run_id first) (pre_event_id pending)
          (sat_add64 (N.of_nat (length (imr_events run))) 1) now (pre_event pending)).

Definition append_run (run : InMemoryRun) (lease : RunLease) (pending : PendingRuntimeEvent)
    (now : N) : result RunStoreError (InMemoryRun * StoredRuntimeEvent) :=
  match find_first (λ event, sre_event_id event ==? pre_event_id pending) (imr_events run) with
  | Some existing =>
    if sre_event existing ==? pre_event pending then Ok (run, existing)
    else Err (EventConflict (rl_run_id lease) (pre_event_id pending))
  | None =>
    fail_if (is_some_and (last (imr_events run)) (λ event, is_terminal (sre_event event)))
      (AlreadyTerminal (rl_run_id lease)) ;;
    fail_if (imr_lease run !=? Some lease) (StaleLease (rl_run_id lease) (rl_epoch lease)) ;;
    stored ← ok_or (stored_event run lease pending now)
      (panicked "created runs have one event");
    candidate_snapshot ← apply_event (imr_snapshot run) stored;
    let run := if is_terminal (sre_event stored) then run <| imr_lease := None |> else run in
    Ok (run <| imr_events := (imr_events run ++ [stored])%list |>
            <| imr_snapshot := candidate_snapshot |>, stored)
  end.

Definition append (st : store) (lease : RunLease) (pending : PendingRuntimeEvent) (now : N)
    : result RunStoreError (store * StoredRuntimeEvent) :=
  run ← ok_or (ims_runs st !! rl_run_id lease) (NotFound (rl_run_id lease));
  '(run, stored) ← append_run run lease pending now;
  Ok (st <| ims_runs := <[rl_run_id lease := run]> (ims_runs st) |>, stored).

Definition load (st : store) (run_id : RunId) : result RunStoreError (option RunReplay) :=
  match ims_runs st !! run_id with
  | None => Ok None
  | Some run => replayed ← replay_in_memory_run run; Ok (Some replayed)
  end.

Definition events_after (st : store) (run_id : RunId) (sequence : N)
    : list StoredRuntimeEvent :=
  match ims_runs st !! run_id with
  | None => []
  | Some run => List.filter (λ event, sequence <? sre_sequence event) (imr_events run)
  end.

Definition release (st : store) (lease : RunLease) : result RunStoreError store :=
  run ← ok_or (ims_runs st !! rl_run_id lease) (NotFound (rl_run_id lease));
  fail_if (imr_lease run !=? Some lease) (StaleLease (rl_run_id lease) (rl_epoch lease)) ;;
  Ok (st <| ims_runs := <[rl_run_id lease := run <| imr_lease := None |>]> (ims_runs st) |>).

(** One run of the listing: [None] when it is a child or of another workspace. *)
Definition root_run_record (workspace : string) (run_id : RunId) (run : InMemoryRun)
    : result RunStoreError (option RootRunRecord) :=
  replayed ← replay_in_memory_run run;
  let snapshot := replay_snapshot replayed in
  let request := sn_request snapshot in
  if is_some (rr_parent_run_id request)
     || (env_workspace (rr_environment request) !=? workspace)
  then Ok None
  else
    first ← some_or_corrupt run_id (head (imr_events run)) "run has no creation event";
    latest ← some_or_corrupt run_id (last (imr_events run)) "run has no events";
    Ok (Some (mkRootRunRecord run_id (rr_continued_from_run_id request)
                (env_workspace (rr_environment request)) (sn_last_sequence snapshot)
                (is_some (sn_terminal snapshot)) (sre_occurred_at_unix_ms first)
                (sre_occurred_at_unix_ms latest))).

Fixpoint collect_root_runs (workspace : string) (runs : list (RunId * InMemoryRun))
    : result RunStoreError (list RootRunRecord) :=
  match runs with
  | [] => Ok []
  | (run_id, run) :: runs' =>
    record ← root_run_record workspace run_id run;
    records ← collect_root_runs workspace runs';
    Ok match record with Some record => record :: records | None => records end
  end.

Definition list_root_runs (st : store) (workspace : string) (limit : N)
    : result RunStoreError (list RootRunRecord) :=
  candidates ← collect_root_runs workspace (map_to_list (ims_runs st));
  Ok (take (N.to_nat limit)
        (merge_sort (newest_first rrr_updated_at_unix_ms rrr_run_id) candidates)).
End mem_store.
