(* ===== verification/RunLog.v ===== *)
(** What a run store promises, independently of how it stores runs: a map from run ids to
    append-only logs that always reduce, each with at most one lease holder whose epoch is
    fresh.  [RunLogStore] and [RunLogLaws] are the interface (the [RunStore] trait of
    [crates/runtime/src/lib.rs] and its contract); the in-memory and the SQLite store
    implement it, and the theorems about every store are proved against it. *)
From Stdlib Require Import String.
From stdpp Require Import relations.
From S2P Require Import Prelude Text Json Task Protocol Validate Context Snapshot Evidence.
From S2P Require Import RunEvents AgentEvents Reducer Steps LogFacts MemStore.

Open Scope string_scope.
Open Scope N_scope.

(** ** The abstract store *)

Record LogRun := mkLogRun {
  lr_log : list StoredRuntimeEvent;
  lr_epoch : N;
  lr_lease : option RunLease;
}.

Section run_log.
Context `{Codecs}.
Implicit Types (m : gmap RunId LogRun) (r : LogRun) (l : RunLease).

(** One step.  The largest epoch is never handed out as fenced: epochs saturate there. *)
Inductive log_step : gmap RunId LogRun → gmap RunId LogRun → Prop :=
| log_stutter m : log_step m m
| log_create m id first s l :
  m !! id = None → reduce_events [first] = Ok s → sre_run_id first = id →
  rl_run_id l = id → rl_epoch l = 1 →
  log_step m (<[id := mkLogRun [first] 1 (Some l)]> m)
| log_acquire m id r s l :
  m !! id = Some r → reduce_events (lr_log r) = Ok s → sn_terminal s = None →
  rl_run_id l = id → lr_epoch r < rl_epoch l → rl_epoch l ≤ U64_MAX →
  log_step m (<[id := mkLogRun (lr_log r) (N.min (rl_epoch l) (U64_MAX - 1)) (Some l)]> m)
| log_append m id r l e s :
  m !! id = Some r → lr_lease r = Some l → rl_run_id l = id →
  sre_event_id e ∉ (sre_event_id <$> lr_log r) →
  reduce_events (lr_log r ++ [e]) = Ok s →
  log_step m (<[id := mkLogRun (lr_log r ++ [e]) (lr_epoch r)
                        (if is_terminal (sre_event e) then None else Some l)]> m)
| log_release m id r l :
  m !! id = Some r → lr_lease r = Some l → rl_run_id l = id →
  log_step m (<[id := mkLogRun (lr_log r) (lr_epoch r) None]> m).

(** ** The interface *)

(** A store: its empty state, its successful state-changing operations, and its [load]. *)
Class RunLogStore (S : Type) := {
  store_empty : S;
  store_op : S → S → Prop;
  store_load : S → RunId → result RunStoreError (option RunReplay);
}.

(** The contract: the store simulates the abstract one, and loading a run returns its whole
    log with the snapshot it reduces to. *)
Class RunLogLaws (S : Type) `{RunLogStore S} := {
  store_rel : S → gmap RunId LogRun → Prop;
  store_rel_empty : store_rel store_empty ∅;
  store_rel_op : ∀ st st' m, store_rel st m → store_op st st' →
    ∃ m', log_step m m' ∧ store_rel st' m';
  store_rel_load : ∀ st m id, store_rel st m →
    match m !! id with
    | None => store_load st id = Ok None
    | Some r => ∃ s, reduce_events (lr_log r) = Ok s ∧
                     store_load st id = Ok (Some (mkRunReplay s (lr_log r)))
    end;
}.

(** ** Facts of the abstract store *)

Record log_run_ok (id : RunId) r : Prop := {
  lro_reduces : ∃ s, reduce_events (lr_log r) = Ok s ∧ rr_run_id (sn_request s) = Some id ∧
    (is_Some (sn_terminal s) → lr_lease r = None);
  lro_ids : NoDup (sre_event_id <$> lr_log r);
  lro_lease : ∀ l, lr_lease r = Some l → rl_run_id l = id;
}.

Lemma log_step_ok m m' :
  log_step m m' → map_Forall log_run_ok m → map_Forall log_run_ok m'.
Proof.
  intros Hs Hok. destruct Hs as [m|m id first s l Hno Hred Hid Hl Hep
    |m id r s l Hr Hred Ht Hl Hlt Hmax|m id r l e s Hr Hl Hlid Hfresh Hred|m id r l Hr Hl Hlid];
    [done|apply map_Forall_insert_2; [|done]..]; try (pose proof (Hok _ _ Hr) as [Hex Hnd Hle]).
  - split; cbn; [|apply NoDup_singleton|by intros ? [= <-]].
    exists s. split; [done|]. apply bind_Ok in Hred as (req & Hv & [= <-]).
    apply validate_run_created_Ok in Hv as (_ & _ & _ & Hrid & _).
    split; [cbn; by rewrite Hrid, Hid|]. by intros [].
  - split; cbn; [|done|by intros ? [= <-]]. destruct Hex as (s0 & Hs0 & Hid & _). exists s.
    rewrite Hred in Hs0. injection Hs0 as <-. split_and!; [done..|]. rewrite Ht. by intros [].
  - destruct Hex as (s0 & Hs0 & Hid & _). split; cbn.
    + exists s. split; [done|]. rewrite reduce_events_snoc, Hs0 in Hred by (by intros Hn; rewrite Hn in Hs0).
      cbn in Hred. split; [by rewrite (step_request _ _ _ Hred)|].
      apply step_terminal in Hred as [_ ->]. by destruct (sre_event e); intros [].
    + rewrite fmap_app, NoDup_app. split_and!; [done| |apply NoDup_singleton].
      intros x Hx Hin%list_elem_of_singleton. by subst.
    + intros l'. by destruct (is_terminal _); [|intros [= <-]].
  - split; cbn; [|done|done]. destruct Hex as (s0 & Hs0 & Hid & _). eauto.
Qed.

(** How a run evolves. *)
Definition log_grows r r' : Prop :=
  lr_log r `prefix_of` lr_log r' ∧ lr_epoch r ≤ lr_epoch r' ∧
  (∀ l, lr_lease r' = Some l → lr_lease r = Some l ∨ lr_epoch r < rl_epoch l).

#[local] Instance log_grows_preorder : PreOrder log_grows.
Proof.
  split; [intros r; split_and!; [done|lia|auto]|].
  intros r1 r2 r3 (Hp & He & Hl) (Hp' & He' & Hl'). split_and!; [by etrans|lia|].
  intros l H3. destruct (Hl' _ H3) as [H2|?]; [|right; lia].
  destruct (Hl _ H2) as [?|?]; [by left|right; lia].
Qed.

Lemma insert_log_grows m id r r' id0 r0 :
  m !! id = Some r → log_grows r r' → m !! id0 = Some r0 →
  ∃ r1, <[id:=r']> m !! id0 = Some r1 ∧ log_grows r0 r1.
Proof.
  intros Hr Hg Hr0. destruct (decide (id = id0)) as [<-|Hne].
  - rewrite lookup_insert_eq. simplify_eq. eauto.
  - rewrite lookup_insert_ne by done. by exists r0.
Qed.

(** Epochs of the abstract store never exceed the largest fenced one. *)
Lemma log_step_grows m m' id r :
  log_step m m' → map_Forall (λ _ r, lr_epoch r < U64_MAX) m → m !! id = Some r →
  ∃ r', m' !! id = Some r' ∧ log_grows r r'.
Proof.
  intros Hs Hep Hr. destruct Hs as [m|m id' first s l Hno Hred Hid Hl He
    |m id' r' s l Hr' Hred Ht Hl Hlt Hmax|m id' r' l e s Hr' Hl Hlid Hfresh Hred
    |m id' r' l Hr' Hl Hlid].
  - by exists r.
  - exists r. rewrite lookup_insert_ne by congruence. by split.
  - eapply insert_log_grows; [done| |done]. specialize (Hep _ _ Hr'). cbn in Hep.
    split_and!; cbn; [done|lia|]. intros l' [= <-]. by right.
  - eapply insert_log_grows; [done| |done]. split_and!; cbn; [by eexists|lia|].
    intros l'. destruct (is_terminal _); [done|]. intros [= <-]. auto.
  - eapply insert_log_grows; [done| |done]. by split_and!; cbn.
Qed.

Lemma log_step_epochs m m' :
  log_step m m' → map_Forall (λ _ r, lr_epoch r < U64_MAX) m →
  map_Forall (λ _ r, lr_epoch r < U64_MAX) m'.
Proof.
  intros Hs Hep. destruct Hs; [done|apply map_Forall_insert_2; [|done]..]; cbn.
  - done.
  - unfold U64_MAX. lia.
  - by eapply Hep.
  - by eapply Hep.
Qed.

Definition log_ok m : Prop :=
  map_Forall log_run_ok m ∧ map_Forall (λ _ r, lr_epoch r < U64_MAX) m.

Lemma log_steps_grow m m' id r :
  rtc log_step m m' → log_ok m → m !! id = Some r →
  ∃ r', m' !! id = Some r' ∧ log_grows r r'.
Proof.
  intros Hs. revert r. induction Hs as [m|m1 m2 m3 Hs _ IH]; intros r [Hok Hep] Hr; [by exists r|].
  destruct (log_step_grows _ _ _ _ Hs Hep Hr) as (r2 & Hr2 & Hg).
  destruct (IH r2) as (r3 & ? & ?); [|done|by exists r3; split; [|etrans]].
  split; eauto using log_step_ok, log_step_epochs.
Qed.

Lemma log_steps_ok m m' : rtc log_step m m' → log_ok m → log_ok m'.
Proof.
  induction 1 as [|m1 m2 m3 Hs _ IH]; [done|]. intros [? ?]. apply IH.
  split; eauto using log_step_ok, log_step_epochs.
Qed.

(** A log that reduced to a terminal snapshot has no longer reducible extension. *)
Lemma terminal_log_closed log log' s s' :
  reduce_events log = Ok s → reduce_events log' = Ok s' → log `prefix_of` log' →
  is_Some (sn_terminal s) → log' = log ∧ s' = s.
Proof.
  intros Hs Hs' [more ->] [o Ho].
  apply reduce_events_app_inv in Hs' as (s0 & Hs0 & Hf); [|by intros ->].
  rewrite Hs in Hs0. injection Hs0 as <-. destruct more as [|e more]; cbn in Hf.
  - rewrite app_nil_r. by simplify_eq.
  - apply bind_Ok in Hf as (s1 & Hstep & _). apply step_terminal in Hstep as [? _]. congruence.
Qed.

Lemma log_empty_ok : log_ok ∅.
Proof. split; apply map_Forall_empty. Qed.
End run_log.

(** ** Every store *)

Section any_store.
Context `{Codecs} {S : Type} `{RunLogLaws S}.
Implicit Types (st : S).

Lemma store_ops_simulated st st' m :
  rtc store_op st st' → store_rel st m → ∃ m', rtc log_step m m' ∧ store_rel st' m'.
Proof.
  intros Hs. revert m. induction Hs as [st|st1 st2 st3 Hs _ IH]; intros m Hrel.
  - by exists m.
  - destruct (store_rel_op _ _ _ Hrel Hs) as (m2 & Hm & Hrel2).
    destruct (IH _ Hrel2) as (m3 & ? & ?). exists m3. split; [by eapply rtc_l|done].
Qed.

Lemma store_reachable_rel st :
  rtc store_op store_empty st → ∃ m, log_ok m ∧ store_rel st m.
Proof.
  intros Hs. destruct (store_ops_simulated _ _ _ Hs store_rel_empty) as (m & Hm & Hrel).
  exists m. split; [|done]. by eapply log_steps_ok; [|apply log_empty_ok].
Qed.

(** A reachable state has the loads of some state the abstract store can reach. *)
Lemma store_refines_log st :
  rtc store_op store_empty st →
  ∃ m, rtc log_step ∅ m ∧ ∀ id,
    match m !! id with
    | None => store_load st id = Ok None
    | Some r => ∃ s, reduce_events (lr_log r) = Ok s ∧
                     store_load st id = Ok (Some (mkRunReplay s (lr_log r)))
    end.
Proof.
  intros Hs. destruct (store_ops_simulated _ _ _ Hs store_rel_empty) as (m & Hm & Hrel).
  exists m. split; [done|]. intros id. by apply store_rel_load.
Qed.

(** Whatever store implements the interface, runs are durable append-only logs.  A run
    that can be loaded once can be loaded after any further operations; its log then extends
    the earlier log and reduces to the loaded snapshot, no event id occurs twice in it, the
    run keeps its identity, and once terminal it never changes again. *)
Theorem every_store_keeps_append_only_logs st st' id replayed :
  rtc store_op store_empty st → store_load st id = Ok (Some replayed) →
  rtc store_op st st' →
  ∃ replayed', store_load st' id = Ok (Some replayed') ∧
    replay_events replayed `prefix_of` replay_events replayed' ∧
    reduce_events (replay_events replayed') = Ok (replay_snapshot replayed') ∧
    NoDup (sre_event_id <$> replay_events replayed') ∧
    rr_run_id (sn_request (replay_snapshot replayed')) = Some id ∧
    (is_Some (sn_terminal (replay_snapshot replayed)) → replayed' = replayed).
Proof.
  intros Hst Hload Hst'. destruct (store_reachable_rel _ Hst) as (m & Hok & Hrel).
  pose proof (store_rel_load _ _ id Hrel) as Hl. destruct (m !! id) as [r|] eqn:Hr;
    [|congruence]. destruct Hl as (s & Hs & Hl). rewrite Hl in Hload. injection Hload as <-.
  destruct (store_ops_simulated _ _ _ Hst' Hrel) as (m' & Hm & Hrel').
  destruct (log_steps_grow _ _ _ _ Hm Hok Hr) as (r' & Hr' & Hpre & _ & _).
  pose proof (store_rel_load _ _ id Hrel') as Hl'. rewrite Hr' in Hl'.
  destruct Hl' as (s' & Hs' & Hl'). exists (mkRunReplay s' (lr_log r')). cbn.
  destruct (log_steps_ok _ _ Hm Hok) as [Hok' _].
  destruct (Hok' _ _ Hr') as [(s0 & Hs0 & Hid & _) Hnd _]. rewrite Hs' in Hs0. simplify_eq.
  split_and!; try done. intros Hterm.
  by destruct (terminal_log_closed _ _ _ _ Hs Hs' Hpre Hterm) as [-> ->].
Qed.
End any_store.
