(* ===== verification/MemStoreFacts.v ===== *)
(** The in-memory store keeps its promises: every cached snapshot is the replay of its log,
    appends are idempotent and fenced by the lease epoch, logs only grow, the lineage walk
    terminates, listings are sorted. *)
From Stdlib Require Import String.
From stdpp Require Import sorting.
From S2P Require Import Prelude Text Json Task Protocol Validate Context Snapshot Evidence.
From S2P Require Import RunEvents AgentEvents Reducer Steps LogFacts MemStore RunLog.

Open Scope string_scope.
Open Scope N_scope.

Section mem_store_facts.
Context `{Codecs} {RunCommand : Type}.
Abbreviation store := (InMemoryRunStore RunCommand).
Implicit Types (st : store) (run : InMemoryRun) (l : RunLease).

(** ** The invariant *)

Record run_ok (run_id : RunId) run : Prop := {
  ro_replay : reduce_events (imr_events run) = Ok (imr_snapshot run);
  ro_id : rr_run_id (sn_request (imr_snapshot run)) = Some run_id;
  ro_event_ids : NoDup (sre_event_id <$> imr_events run);
  ro_lease : ∀ l, imr_lease run = Some l → rl_run_id l = run_id ∧
    (rl_epoch l < imr_next_epoch run ∨ imr_next_epoch run = U64_MAX);
  ro_terminal : is_Some (sn_terminal (imr_snapshot run)) → imr_lease run = None;
  ro_epoch : 1 < imr_next_epoch run ≤ U64_MAX;
}.

Record creations_ok (creations : gmap CommandId (CreationReservation RunCommand)) : Prop := {
  co_key : ∀ c r, creations !! c = Some r → cre_command_id r = c;
  co_unique : ∀ c c' r r', creations !! c = Some r → creations !! c' = Some r' →
    cre_run_id r = cre_run_id r' → c = c';
}.

Definition store_ok st : Prop :=
  map_Forall run_ok (ims_runs st) ∧ creations_ok (ims_creations st).

(** ** Transitions *)

Inductive store_step : store → store → Prop :=
| step_reserve st c sha id intent now st' r :
  reserve_creation st c sha id intent now = Ok (st', r) → store_step st st'
| step_create st request now owner pid st' c :
  create st request now owner pid = Ok (st', c) → store_step st st'
| step_acquire st id owner pid st' a :
  acquire st id owner pid = Ok (st', a) → store_step st st'
| step_append st l pending now st' e :
  append st l pending now = Ok (st', e) → store_step st st'
| step_release st l st' :
  release st l = Ok st' → store_step st st'.

Definition empty_store : store := mkInMemoryRunStore ∅ ∅.

(** ** Preservation *)

Lemma replay_in_memory_run_ok run_id run :
  run_ok run_id run →
  replay_in_memory_run run = Ok (mkRunReplay (imr_snapshot run) (imr_events run)).
Proof.
  intros [Hr _ _ _ _ _]. unfold replay_in_memory_run, replay. rewrite Hr. cbn.
  unfold guard_corrupt. by rewrite bool_decide_true.
Qed.

Lemma find_first_event_None events id :
  find_first (λ event, sre_event_id event ==? id) events = None →
  id ∉ (sre_event_id <$> events).
Proof.
  intros Hn (e & -> & He)%list_elem_of_fmap.
  pose proof (find_first_None _ _ _ Hn He) as Hf. by apply bool_decide_eq_false in Hf.
Qed.

(** An accepted append: the stored event was already there, or the lease is the current one
    and the event extends the log. *)
Lemma append_run_cases run l pending now run' e :
  append_run run l pending now = Ok (run', e) →
  (run' = run ∧ e ∈ imr_events run ∧ sre_event_id e = pre_event_id pending ∧
   sre_event e = pre_event pending ∧
   find_first (λ event, sre_event_id event ==? pre_event_id pending) (imr_events run) = Some e) ∨
  (imr_lease run = Some l ∧ pre_event_id pending ∉ (sre_event_id <$> imr_events run) ∧
   sre_event_id e = pre_event_id pending ∧ sre_event e = pre_event pending ∧
   sre_run_id e = rl_run_id l ∧
   imr_events run' = (imr_events run ++ [e])%list ∧
   apply_event (imr_snapshot run) e = Ok (imr_snapshot run') ∧
   imr_next_epoch run' = imr_next_epoch run ∧
   imr_lease run' = if is_terminal (sre_event e) then None else imr_lease run).
Proof.
  unfold append_run. destruct (find_first _ _) as [existing|] eqn:Hf.
  - case_bool_decide as Hev; [|done]. intros [= <- <-]. left.
    pose proof (find_first_Some _ _ _ Hf) as [Hin Hid]. apply bool_decide_eq_true in Hid.
    by split_and!.
  - intros Ha. inv_run. unfold stored_event in *. bprop. right.
    match goal with Hs : _ = Some _ |- _ =>
      destruct (head (imr_events run)) eqn:Hh; cbn in Hs; [|done]; injection Hs as <- end.
    apply find_first_event_None in Hf. simplify_eq. destruct (is_terminal _); cbn; by split_and!.
Qed.

Lemma append_run_ok run_id run l pending now run' e :
  run_ok run_id run → append_run run l pending now = Ok (run', e) → run_ok run_id run'.
Proof.
  intros Hok Ha. pose proof Hok as [Hr Hid Hnd Hl Ht Hep0].
  apply append_run_cases in Ha as [(-> & _)|(Hlease & Hfresh & Heid & Hev & Hrun & Hevs & Happ & Hep & Hle)];
    [done|].
  pose proof Happ as Hstep. apply step_terminal in Hstep as [Hnone Hterm].
  split.
  - rewrite Hevs, reduce_events_snoc, Hr; [done|]. intros Hnil. by rewrite Hnil in Hr.
  - by rewrite (step_request _ _ _ Happ).
  - rewrite Hevs, fmap_app, NoDup_app. split_and!; [done| |apply NoDup_singleton].
    intros x Hx Hin. cbn in Hin. apply list_elem_of_singleton in Hin as ->. by rewrite Heid in Hx.
  - intros l' Hl'. rewrite Hep. apply Hl. rewrite Hle in Hl'. by destruct (is_terminal _).
  - intros [o Ho]. rewrite Hle. rewrite Hterm in Ho. by destruct (sre_event e).
  - by rewrite Hep.
Qed.

Lemma reserve_creation_ok st c sha id intent now st' r :
  store_ok st → reserve_creation st c sha id intent now = Ok (st', r) → store_ok st'.
Proof.
  intros [Hruns [Hkey Huniq]] Hr. unfold reserve_creation in Hr.
  destruct (ims_creations st !! c) eqn:Hc; inv_ok; subst; [by split|].
  split; [done|]. cbn.
  match goal with He : existsb _ _ = false |- _ => rewrite existsb_false_elem_of in He;
    rename He into Hno end.
  assert (∀ c' r', ims_creations st !! c' = Some r' → cre_run_id r' ≠ id) as Hfresh.
  { intros c' r' Hc' Hid. specialize (Hno (c', r')). cbn in Hno.
    rewrite bool_decide_true in Hno by done. discriminate Hno. by apply elem_of_map_to_list. }
  split.
  - intros c' r'. rewrite lookup_insert_Some. intros [[<- <-]|[? ?]]; [done|by apply Hkey].
  - intros c1 c2 r1 r2. rewrite !lookup_insert_Some.
    intros [[<- <-]|[? H1]] [[<- <-]|[? H2]] Heq; cbn in *; try done.
    + by destruct (Hfresh _ _ H2 (eq_sym Heq)).
    + by destruct (Hfresh _ _ H1 Heq).
    + by eapply Huniq.
Qed.

Lemma clear_intent_ok run_id creations :
  creations_ok creations → creations_ok (clear_intent run_id creations).
Proof.
  intros [Hkey Huniq].
  assert (∀ c r, clear_intent run_id creations !! c = Some r →
    ∃ r0, creations !! c = Some r0 ∧ cre_run_id r = cre_run_id r0 ∧
      cre_command_id r = cre_command_id r0) as Hback.
  { intros c r. unfold clear_intent. rewrite lookup_fmap.
    destruct (creations !! c) as [r0|]; cbn; [|done]. intros [= <-]. exists r0.
    case_match; done. }
  split.
  - intros c r (r0 & Hr0 & _ & ->)%Hback. by apply Hkey.
  - intros c c' r r' (r0 & Hr0 & -> & _)%Hback (r1 & Hr1 & -> & _)%Hback. by apply Huniq.
Qed.

Lemma create_ok st request now owner pid st' c :
  store_ok st → create st request now owner pid = Ok (st', c) → store_ok st'.
Proof.
  intros [Hruns Hcre] Hc. unfold create in Hc.
  apply bind_Ok in Hc as ([] & Hnew & Hc). apply bind_Ok in Hc as ([] & _ & Hc).
  apply bind_Ok in Hc as (rep & Hrep & Hc). injection Hc as <- <-.
  unfold replay in Hrep. apply bind_Ok in Hrep as (snap & Hsnap & Hrep). injection Hrep as <-.
  split; [|by apply clear_intent_ok]. cbn. apply map_Forall_insert_2; [|done].
  pose proof Hsnap as Hred. apply reachable_reduce, reachable_request in Hsnap
    as (first & rest & Hf & Hv). injection Hf as <- <-.
  apply validate_run_created_Ok in Hv as (Hev & _ & _ & Hid & _). cbn in Hev, Hid.
  split; cbn; try done.
  - apply NoDup_singleton.
  - intros l [= <-]. cbn. split; [done|left; lia].
  - unfold reduce_events in Hred. apply bind_Ok in Hred as (r & _ & Hred).
    injection Hred as <-. by intros [].
Qed.

Lemma acquire_ok st id owner pid st' a :
  store_ok st → acquire st id owner pid = Ok (st', a) → store_ok st'.
Proof.
  intros [Hruns Hcre] Ha. unfold acquire in Ha. apply bind_Ok in Ha as (run & Hrun & Ha).
  apply ok_or_Ok in Hrun. pose proof (Hruns _ _ Hrun) as Hok.
  rewrite (replay_in_memory_run_ok _ _ Hok) in Ha. cbn in Ha.
  destruct (is_some _) eqn:Ht; inv_ok; subst; [by split|]. split; [|done]. cbn.
  apply map_Forall_insert_2; [|done]. destruct Hok as [Hr Hid Hnd Hl Htm Hep]. split; cbn; try done.
  - intros l [= <-]. cbn. split; [done|]. unfold saturating_add. lia.
  - intros [o Ho]. rewrite Ho in Ht. done.
  - unfold saturating_add. lia.
Qed.

Lemma append_ok st l pending now st' e :
  store_ok st → append st l pending now = Ok (st', e) → store_ok st'.
Proof.
  intros [Hruns Hcre] Ha. unfold append in Ha. apply bind_Ok in Ha as (run & Hrun & Ha).
  apply ok_or_Ok in Hrun. apply bind_Ok in Ha as ([run' e'] & Ha & Hst).
  injection Hst as <- <-. split; [|done]. cbn. apply map_Forall_insert_2; [|done].
  eapply append_run_ok; [|done]. by apply Hruns.
Qed.

Lemma release_ok st l st' : store_ok st → release st l = Ok st' → store_ok st'.
Proof.
  intros [Hruns Hcre] Ha. unfold release in Ha. inv_ok. subst. split; [|done]. cbn.
  apply map_Forall_insert_2; [|done].
  match goal with Hr : ims_runs st !! _ = Some _ |- _ =>
    destruct (Hruns _ _ Hr) as [? ? ? ? ? ?] end. by split.
Qed.

Lemma store_step_ok st st' : store_step st st' → store_ok st → store_ok st'.
Proof.
  destruct 1; eauto using reserve_creation_ok, create_ok, acquire_ok, append_ok, release_ok.
Qed.

Lemma store_steps_ok st st' : rtc store_step st st' → store_ok st → store_ok st'.
Proof. induction 1; eauto using store_step_ok. Qed.

Lemma empty_store_ok : store_ok empty_store.
Proof. split; [by apply map_Forall_empty|]. split; by intros ? ?. Qed.

(** In every state the in-memory store can reach, each cached snapshot is exactly the
    full replay of its event log: the divergence error of [replay_in_memory_run] cannot
    occur, loading a stored run always succeeds with the whole log and its reduced snapshot,
    the snapshot belongs to the key, and a terminal run holds no lease. *)
Theorem cached_snapshot_is_replay st run_id run :
  rtc store_step empty_store st → ims_runs st !! run_id = Some run →
  reduce_events (imr_events run) = Ok (imr_snapshot run) ∧
  load st run_id = Ok (Some (mkRunReplay (imr_snapshot run) (imr_events run))) ∧
  rr_run_id (sn_request (imr_snapshot run)) = Some run_id ∧
  (is_Some (sn_terminal (imr_snapshot run)) → imr_lease run = None).
Proof.
  intros Hst Hrun. pose proof (store_steps_ok _ _ Hst empty_store_ok) as [Hruns _].
  pose proof (Hruns _ _ Hrun) as Hok. pose proof Hok as [Hr Hid _ _ Ht _].
  split_and!; [done| |done|done].
  unfold load. rewrite Hrun, (replay_in_memory_run_ok _ _ Hok). done.
Qed.

(** ** Idempotent, fenced appends *)

(** Appending is idempotent per event id: once an event has been accepted, appending the
    same pending event again - by any lease of the run, even a stale one, and also after the
    run became terminal - returns the very same stored event and changes nothing, and the
    same event id with different content is refused as a conflict. *)
Theorem append_is_idempotent st l pending now st' e :
  rtc store_step empty_store st → append st l pending now = Ok (st', e) →
  (∀ l' now', rl_run_id l' = rl_run_id l → append st' l' pending now' = Ok (st', e)) ∧
  (∀ l' ev now', rl_run_id l' = rl_run_id l → ev ≠ pre_event pending →
     append st' l' (mkPendingRuntimeEvent (pre_event_id pending) ev) now' =
     Err (EventConflict (rl_run_id l) (pre_event_id pending))).
Proof.
  intros Hst Ha. unfold append in Ha. apply bind_Ok in Ha as (run & Hrun & Ha).
  apply ok_or_Ok in Hrun. apply bind_Ok in Ha as ([run' e'] & Ha & Heq).
  injection Heq as <- <-.
  assert (find_first (λ event, sre_event_id event ==? pre_event_id pending)
            (imr_events run') = Some e' ∧ sre_event e' = pre_event pending) as [Hf Hev].
  { apply append_run_cases in Ha as [(-> & _ & _ & Hev & Hf)|(_ & Hfresh & Hid & Hev & _ & Hevs & _)];
      [done|]. split; [|done]. rewrite Hevs. clear -Hfresh Hid.
    induction (imr_events run) as [|x xs IH]; cbn in *.
    - by rewrite bool_decide_true.
    - rewrite not_elem_of_cons in Hfresh. destruct Hfresh as [Hx Hxs].
      rewrite bool_decide_false by congruence. by apply IH. }
  split.
  - intros l' now' Hid. unfold append. rewrite Hid. cbn. rewrite lookup_insert_eq. cbn.
    unfold append_run. rewrite Hf, bool_decide_true by done. cbn.
    by rewrite insert_insert_eq.
  - intros l' ev now' Hid Hne. unfold append. rewrite Hid. cbn. rewrite lookup_insert_eq. cbn.
    unfold append_run. cbn. rewrite Hf, bool_decide_false by congruence. cbn. by rewrite Hid.
Qed.

(** The runs of a store only grow: no run disappears, logs are extended, epochs do not go
    back, and a lease that is not current stays so unless it is newly granted. *)
Definition run_grows run run' : Prop :=
  imr_events run `prefix_of` imr_events run' ∧
  imr_next_epoch run ≤ imr_next_epoch run' ∧
  (∀ l, imr_lease run' = Some l →
     imr_lease run = Some l ∨ imr_next_epoch run ≤ rl_epoch l).

Lemma run_grows_refl run : run_grows run run.
Proof. split_and!; [done|lia|auto]. Qed.

Lemma append_run_grows run l pending now run' e :
  append_run run l pending now = Ok (run', e) → run_grows run run'.
Proof.
  intros [(-> & _)|(_ & _ & _ & _ & _ & Hevs & _ & Hep & Hle)]%append_run_cases;
    [apply run_grows_refl|]. unfold run_grows. rewrite Hevs, Hep, Hle. split_and!.
  - by eexists.
  - lia.
  - intros l'. destruct (is_terminal _); [done|auto].
Qed.

Lemma lookup_insert_grows (runs : gmap RunId InMemoryRun) k run run0 run1 k' :
  runs !! k = Some run0 → run_grows run0 run1 → runs !! k' = Some run →
  ∃ run', <[k:=run1]> runs !! k' = Some run' ∧ run_grows run run'.
Proof.
  intros Hk Hg Hk'. destruct (decide (k = k')) as [<-|Hne].
  - rewrite lookup_insert_eq. simplify_eq. eauto.
  - rewrite lookup_insert_ne by done. eauto using run_grows_refl.
Qed.

Lemma store_step_grows st st' id run :
  store_step st st' → imr_next_epoch run ≤ U64_MAX → ims_runs st !! id = Some run →
  ∃ run', ims_runs st' !! id = Some run' ∧ run_grows run run'.
Proof.
  intros Hs Hmax Hrun. destruct Hs as
    [st c sha rid intent now st' r Hr|st request now owner pid st' c Hr
    |st rid owner pid st' a Hr|st l pending now st' e Hr|st l st' Hr].
  - unfold reserve_creation in Hr. exists run. split; [|apply run_grows_refl].
    destruct (_ !! c); inv_ok; by subst.
  - unfold create in Hr. apply bind_Ok in Hr as ([] & Hnew & Hr).
    apply bind_Ok in Hr as ([] & _ & Hr). apply bind_Ok in Hr as (rep & _ & Hr).
    injection Hr as <- <-. cbn. exists run. split; [|apply run_grows_refl].
    rewrite lookup_insert_ne; [done|]. intros Heq. subst id.
    apply fail_if_Ok in Hnew. unfold is_some in Hnew. case_match; [done|].
    unfold RunId in *. congruence.
  - unfold acquire in Hr. apply bind_Ok in Hr as (run0 & Hrun0 & Hr). apply ok_or_Ok in Hrun0.
    apply bind_Ok in Hr as (rep & _ & Hr).
    destruct (is_some _); [inv_ok; subst; eauto using run_grows_refl|].
    apply bind_Ok in Hr as ([] & Hl & Hr). apply fail_if_Ok in Hl. injection Hr as <- <-. cbn.
    destruct (decide (rid = id)) as [->|Hne].
    + rewrite lookup_insert_eq. simplify_eq. eexists; split; [done|]. split_and!; cbn.
      * done.
      * unfold saturating_add. lia.
      * intros l [= <-]. right. cbn. lia.
    + rewrite lookup_insert_ne by done. eauto using run_grows_refl.
  - unfold append in Hr. apply bind_Ok in Hr as (run0 & Hrun0 & Hr). apply ok_or_Ok in Hrun0.
    apply bind_Ok in Hr as ([run1 e1] & Ha & Heq). injection Heq as <- <-. cbn.
    eapply lookup_insert_grows; eauto using append_run_grows.
  - unfold release in Hr. inv_ok. subst. cbn. eapply lookup_insert_grows; [done| |done].
    split_and!; cbn; [done|lia|done].
Qed.

Lemma run_grows_trans run1 run2 run3 :
  run_grows run1 run2 → run_grows run2 run3 → run_grows run1 run3.
Proof.
  intros (Hp & He & Hl) (Hp' & He' & Hl'). split_and!; [by etrans|lia|].
  intros l Hl3. destruct (Hl' l Hl3) as [Hl2|?]; [|right; lia].
  destruct (Hl l Hl2) as [?|?]; [by left|right; lia].
Qed.

Lemma store_steps_grow st st' id run :
  rtc store_step st st' → store_ok st → ims_runs st !! id = Some run →
  ∃ run', ims_runs st' !! id = Some run' ∧ run_grows run run'.
Proof.
  intros Hs. revert run. induction Hs as [st|st1 st2 st3 Hs _ IH]; intros run Hok Hrun.
  - eauto using run_grows_refl.
  - pose proof Hok as [Hruns _]. destruct (Hruns _ _ Hrun) as [_ _ _ _ _ [_ Hep]].
    destruct (store_step_grows _ _ _ _ Hs Hep Hrun) as (run2 & Hrun2 & Hg).
    destruct (IH run2) as (run3 & ? & ?); [by eapply store_step_ok|done|].
    eauto using run_grows_trans.
Qed.

(** Leases fence writers.  From any reachable store, once a lease [l] of a run is not the
    current one although its epoch was already handed out (it was released, replaced or ended
    by the terminal event), it never becomes current again, so no later append through it
    can add an event: it either returns an event that is already in the log or fails and
    leaves the store alone.  Meanwhile the run is still there and its log is only extended. *)
Theorem stale_lease_never_writes st st' id run l :
  rtc store_step empty_store st → ims_runs st !! id = Some run →
  imr_lease run ≠ Some l → rl_run_id l = id → rl_epoch l < imr_next_epoch run →
  rtc store_step st st' →
  ∃ run', ims_runs st' !! id = Some run' ∧ imr_events run `prefix_of` imr_events run' ∧
    imr_lease run' ≠ Some l ∧
    ∀ pending now st2 e, append st' l pending now = Ok (st2, e) →
      st2 = st' ∧ e ∈ imr_events run'.
Proof.
  intros Hst Hrun Hl Hid Hep Hst'.
  pose proof (store_steps_ok _ _ Hst empty_store_ok) as Hok.
  destruct (store_steps_grow _ _ _ _ Hst' Hok Hrun) as (run' & Hrun' & Hpre & _ & Hlease).
  assert (imr_lease run' ≠ Some l) as Hl'.
  { intros Hcur. destruct (Hlease _ Hcur) as [?|?]; [done|lia]. }
  exists run'. split_and!; [done..|]. intros pending now st2 e Ha.
  unfold append in Ha. rewrite Hid, Hrun' in Ha. cbn in Ha.
  apply bind_Ok in Ha as ([run2 e2] & Ha & Heq). injection Heq as <- <-.
  apply append_run_cases in Ha as [(-> & Hin & _)|(Hcur & _)]; [|done].
  split; [|done]. destruct st' as [runs cre]. cbn in *. by rewrite insert_id.
Qed.

(** ** The in-memory store implements the run-log interface *)

#[global] Instance mem_run_log : RunLogStore store := {
  store_empty := empty_store;
  store_op := store_step;
  store_load := load;
}.

Definition mem_log_run run : LogRun :=
  mkLogRun (imr_events run) (N.pred (imr_next_epoch run)) (imr_lease run).

Definition mem_rel st (m : gmap RunId LogRun) : Prop :=
  store_ok st ∧ m = mem_log_run <$> ims_runs st.

Lemma mem_lookup st id run :
  ims_runs st !! id = Some run → (mem_log_run <$> ims_runs st) !! id = Some (mem_log_run run).
Proof. intros Hr. by rewrite lookup_fmap, Hr. Qed.

Lemma mem_step_simulated st st' :
  store_step st st' → store_ok st →
  log_step (mem_log_run <$> ims_runs st) (mem_log_run <$> ims_runs st').
Proof.
  intros Hs [Hruns _]. destruct Hs as
    [st c sha rid intent now st' r Hr|st request now owner pid st' c Hr
    |st rid owner pid st' a Hr|st l pending now st' e Hr|st l st' Hr].
  - unfold reserve_creation in Hr. destruct (_ !! c); inv_ok; subst; apply log_stutter.
  - unfold create in Hr. apply bind_Ok in Hr as ([] & Hnew & Hr).
    apply bind_Ok in Hr as ([] & _ & Hr). apply bind_Ok in Hr as (rep & Hrep & Hr).
    injection Hr as <- <-. unfold replay in Hrep. apply bind_Ok in Hrep as (s & Hred & _).
    cbn [ims_runs set_field]. rewrite fmap_insert. eapply log_create; try done.
    apply fail_if_Ok in Hnew. rewrite lookup_fmap.
    match type of Hnew with is_some ?x = _ =>
      change (mem_log_run <$> x = None); by destruct x end.
  - unfold acquire in Hr. apply bind_Ok in Hr as (run & Hrun & Hr). apply ok_or_Ok in Hrun.
    pose proof (Hruns _ _ Hrun) as [Hred Hid Hnd Hle Htm Hep].
    rewrite (replay_in_memory_run_ok _ _ (Hruns _ _ Hrun)) in Hr. cbn in Hr.
    destruct (is_some _) eqn:Ht; inv_ok; subst; [apply log_stutter|]. bprop.
    cbn [ims_runs set_field]. rewrite fmap_insert.
    replace (mem_log_run _) with (mkLogRun (lr_log (mem_log_run run))
      (N.min (rl_epoch (new_lease rid (imr_next_epoch run) owner pid)) (U64_MAX - 1))
      (Some (new_lease rid (imr_next_epoch run) owner pid)))
      by (unfold mem_log_run; cbn; f_equal; unfold saturating_add; lia).
    eapply log_acquire; [by apply mem_lookup|exact Hred| |done|cbn; lia|cbn; lia].
    done.
  - unfold append in Hr. apply bind_Ok in Hr as (run & Hrun & Hr). apply ok_or_Ok in Hrun.
    apply bind_Ok in Hr as ([run' e'] & Ha & Heq). injection Heq as <- <-.
    pose proof (Hruns _ _ Hrun) as Hok.
    pose proof (append_run_ok _ _ _ _ _ _ _ Hok Ha) as [Hred' _ _ _ _ _].
    cbn [ims_runs set_field]. rewrite fmap_insert. apply append_run_cases in Ha
      as [(-> & _)|(Hl & Hfresh & Hid & Hev & _ & Hevs & _ & Hep & Hle)].
    + rewrite insert_id by (by apply mem_lookup). apply log_stutter.
    + unfold mem_log_run at 2. rewrite Hevs, Hep, Hle, Hl.
      eapply (log_append _ _ (mem_log_run run)); [by apply mem_lookup|done|done| |].
      * by rewrite Hid.
      * by rewrite Hevs in Hred'.
  - unfold release in Hr. inv_ok. subst. bprop. cbn [ims_runs set_field].
    rewrite fmap_insert. match goal with Hx : _ !! _ = Some ?x |- _ =>
      eapply (log_release _ _ (mem_log_run x)); [by apply mem_lookup|done|done] end.
Qed.

#[global] Instance mem_run_log_laws : RunLogLaws store.
Proof.
  refine {| store_rel := mem_rel |}.
  - split; [apply empty_store_ok|]. cbn. by rewrite fmap_empty.
  - intros st st' m [Hok ->] Hs. eexists. split; [by apply mem_step_simulated|].
    split; [by eapply store_step_ok|done].
  - intros st m id [[Hruns _] ->]. rewrite lookup_fmap. cbn. unfold load.
    destruct (ims_runs st !! id) as [run|] eqn:Hr; cbn; [|done].
    pose proof (Hruns _ _ Hr) as Hok. exists (imr_snapshot run).
    rewrite (replay_in_memory_run_ok _ _ Hok). split; [by destruct Hok|done].
Qed.

(** C31: The in-memory store refines the abstract run log: whatever operations it has
    executed, there is a state the abstract store can reach such that loading any run id
    returns exactly the abstract log with the snapshot it reduces to, or nothing where the
    abstract store has no run. *)
Theorem mem_store_refines_run_log st :
  rtc store_step empty_store st →
  ∃ m, rtc log_step ∅ m ∧ ∀ id,
    match m !! id with
    | None => load st id = Ok None
    | Some r => ∃ s, reduce_events (lr_log r) = Ok s ∧
                     load st id = Ok (Some (mkRunReplay s (lr_log r)))
    end.
Proof. exact (store_refines_log (S := store) st). Qed.

(** ** Creation reservations *)

(** A launch is reserved once: reserving a command id again with the same payload digest
    returns the first reservation - same run id, same intent, whatever run id and intent the
    retry proposes - and with a different digest is refused; two different commands never
    share a run id. *)
Theorem reservation_is_stable st c sha id intent now st' r :
  rtc store_step empty_store st →
  reserve_creation st c sha id intent now = Ok (st', r) →
  (∀ id' intent' now', reserve_creation st' c sha id' intent' now' =
     Ok (st', mkReservedCreation (rc_reservation r) false)) ∧
  (∀ sha' id' intent' now', sha' ≠ sha →
     reserve_creation st' c sha' id' intent' now' = Err (CreationConflict c)) ∧
  (∀ c1 c2 r1 r2, ims_creations st' !! c1 = Some r1 → ims_creations st' !! c2 = Some r2 →
     cre_run_id r1 = cre_run_id r2 → c1 = c2).
Proof.
  intros Hst Hr. pose proof (store_steps_ok _ _ Hst empty_store_ok) as Hok.
  pose proof (reserve_creation_ok _ _ _ _ _ _ _ _ Hok Hr) as [_ [_ Huniq]].
  assert (ims_creations st' !! c = Some (rc_reservation r) ∧
          cre_command_sha256 (rc_reservation r) = sha) as [Hc Hsha].
  { unfold reserve_creation in Hr. destruct (ims_creations st !! c) eqn:Hc; inv_ok; subst; cbn.
    - bprop. done.
    - by rewrite lookup_insert_eq. }
  split_and!; [..|done].
  - intros id' intent' now'. unfold reserve_creation. rewrite Hc.
    by rewrite bool_decide_true by done.
  - intros sha' id' intent' now' Hne. unfold reserve_creation. rewrite Hc.
    by rewrite bool_decide_false by congruence.
Qed.

(** ** The lineage walk *)

Lemma lineage_loop_fuel fuel lookup (ids : gset RunId) workspace invalid visited cursor :
  (∀ id s, lookup id = Ok (Some s) → id ∈ ids) →
  (size (ids ∖ visited) < fuel)%nat →
  is_Some (lineage_loop fuel lookup workspace invalid visited cursor).
Proof.
  intros Hids. revert visited cursor.
  induction fuel as [|fuel IH]; intros visited cursor Hf; [lia|].
  destruct cursor as [id|]; cbn; [|by eexists].
  case_bool_decide as Hv; [by eexists|].
  destruct (lookup id) as [[snapshot|]|] eqn:Hrun; [|by eexists..].
  destruct (_ || _); [by eexists|]. apply IH.
  assert (id ∈ ids ∖ visited) as Hin by (apply Hids in Hrun; set_solver).
  assert (ids ∖ ({[id]} ∪ visited) ⊂ ids ∖ visited) as Hsub by set_solver.
  apply subset_size in Hsub. lia.
Qed.

(** The ancestors of a run, oldest last: each a terminal root run of the workspace. *)
Inductive lineage (lookup : RunId → result RunStoreError (option RunSnapshot))
    (workspace : string) : option RunId → list RunId → Prop :=
| lineage_end : lineage lookup workspace None []
| lineage_cons id snapshot ids :
  lookup id = Ok (Some snapshot) →
  rr_parent_run_id (sn_request snapshot) = None →
  actor_kind (rr_actor (sn_request snapshot)) = ActorRoot →
  env_workspace (rr_environment (sn_request snapshot)) = workspace →
  is_Some (sn_terminal snapshot) →
  lineage lookup workspace (rr_continued_from_run_id (sn_request snapshot)) ids →
  lineage lookup workspace (Some id) (id :: ids).

Lemma lineage_loop_sound fuel lookup workspace invalid visited cursor :
  lineage_loop fuel lookup workspace invalid visited cursor = Some (Ok tt) →
  ∃ ids, lineage lookup workspace cursor ids ∧ NoDup ids ∧ ∀ id, id ∈ ids → id ∉ visited.
Proof.
  revert visited cursor. induction fuel as [|fuel IH]; intros visited cursor Hl;
    (destruct cursor as [id|]; cbn in Hl;
     [|exists []; split_and!; [constructor|constructor|intros ? Hn; by apply elem_of_nil in Hn]]);
    [done|].
  case_bool_decide as Hv; [done|].
  destruct (lookup id) as [[snapshot|]|] eqn:Hrun; [|done..].
  destruct (_ || _) eqn:Hg; [done|].
  apply IH in Hl as (ids & Hlin & Hnd & Hvis). unfold not_root in Hg. bprop.
  exists (id :: ids). split_and!.
  - by econstructor.
  - constructor; [|done]. intros Hin. specialize (Hvis _ Hin). set_solver.
  - intros x [->|Hx]%elem_of_cons; [done|]. specialize (Hvis _ Hx). set_solver.
Qed.

Lemma stored_snapshot_dom (runs : gmap RunId InMemoryRun) id s :
  stored_snapshot runs id = Ok (Some s) → id ∈ dom runs.
Proof.
  unfold stored_snapshot. destruct (runs !! id) eqn:Hr; [|done]. intros _. by apply elem_of_dom_2 in Hr.
Qed.

(** The continuation lineage check always terminates - one step per stored run and one
    more are enough, whatever the stored continuation links, cycles included - and when it
    accepts, the source really has a finite, acyclic chain of ancestors, all of them stored,
    terminal root runs of the same workspace, none of them the source itself. *)
Theorem lineage_check_terminates_and_is_sound runs source workspace :
  (∀ invalid visited cursor,
     is_Some (lineage_loop (S (size runs)) (stored_snapshot runs) workspace invalid visited cursor)) ∧
  (validate_in_memory_continuation_lineage runs source workspace = Ok tt →
   ∃ ids, lineage (stored_snapshot runs) workspace (rr_continued_from_run_id (sn_request source)) ids ∧
     NoDup ids ∧ default "" (rr_run_id (sn_request source)) ∉ ids).
Proof.
  split.
  - intros invalid visited cursor. eapply lineage_loop_fuel; [apply stored_snapshot_dom|].
    rewrite <- size_dom. apply Nat.lt_succ_r, subseteq_size. set_solver.
  - unfold validate_in_memory_continuation_lineage. intros Hv.
    destruct (lineage_loop _ _ _ _ _ _) as [[[]|]|] eqn:Hl; cbn in Hv; try done.
    apply lineage_loop_sound in Hl as (ids & ? & ? & Hvis). exists ids. split_and!; [done..|].
    intros Hin. specialize (Hvis _ Hin). set_solver.
Qed.

(** ** Listings *)

#[global] Instance newest_first_trans {A} (time : A → N) (id : A → string) :
  Transitive (newest_first time id).
Proof.
  intros x y z. unfold newest_first. intros [?|[? ?]] [?|[? ?]]; [left; lia..|].
  right. split; [lia|by etrans].
Qed.
#[global] Instance newest_first_total {A} (time : A → N) (id : A → string) :
  Total (newest_first time id).
Proof.
  intros x y. unfold newest_first. destruct (N.lt_total (time x) (time y)) as [?|[?|?]]; auto.
  destruct (total String.le (id x) (id y)); auto.
Qed.

Lemma collect_root_runs_ok workspace (runs : list (RunId * InMemoryRun)) :
  Forall (λ kr, run_ok kr.1 kr.2) runs →
  ∃ records, collect_root_runs workspace runs = Ok records ∧
    ∀ rec, rec ∈ records ↔ ∃ id run, (id, run) ∈ runs ∧
      root_run_record workspace id run = Ok (Some rec).
Proof.
  induction 1 as [|[id run] runs Hok _ IH]; cbn.
  { exists []. split; [done|]. intros rec. split; [intros Hn; by apply elem_of_nil in Hn|].
    intros (? & ? & Hn & _). by apply elem_of_nil in Hn. }
  destruct IH as (records & -> & Hrec). cbn in Hok.
  assert (∃ o, root_run_record workspace id run = Ok o) as [o Ho].
  { unfold root_run_record. rewrite (replay_in_memory_run_ok _ _ Hok). cbn.
    destruct (_ || _); [by eexists|]. destruct Hok as [Hr _ _ _ _ _].
    destruct (imr_events run) as [|e es] eqn:Hevs; [done|]. cbn.
    destruct (last (e :: es)) eqn:Hlast; [by eexists|]. by apply last_None in Hlast. }
  rewrite Ho. cbn. destruct o as [r|]; eexists; (split; [done|]); intros rec.
  - rewrite elem_of_cons, Hrec. split.
    + intros [->|(id' & run' & ? & ?)]; [exists id, run; by rewrite elem_of_cons; auto|].
      exists id', run'. rewrite elem_of_cons. auto.
    + intros (id' & run' & [[= -> ->]|?]%elem_of_cons & Hx); [left; congruence|eauto].
  - rewrite Hrec. split.
    + intros (id' & run' & ? & ?). exists id', run'. rewrite elem_of_cons. auto.
    + intros (id' & run' & [[= -> ->]|?]%elem_of_cons & Hx); [congruence|eauto].
Qed.

(** Listing root runs never fails on a reachable store; the listing is sorted newest
    first (ties by descending run id), respects the limit, contains only root runs of the
    requested workspace as their replay describes them, and - when the limit does not cut it
    off - all of them. *)
Theorem root_run_listing_is_correct st workspace limit :
  rtc store_step empty_store st →
  ∃ records, list_root_runs st workspace limit = Ok records ∧
    StronglySorted (newest_first rrr_updated_at_unix_ms rrr_run_id) records ∧
    (length records ≤ N.to_nat limit)%nat ∧
    (∀ rec, rec ∈ records → ∃ id run, ims_runs st !! id = Some run ∧
       root_run_record workspace id run = Ok (Some rec)) ∧
    ((length records < N.to_nat limit)%nat →
     ∀ id run rec, ims_runs st !! id = Some run →
       root_run_record workspace id run = Ok (Some rec) → rec ∈ records).
Proof.
  intros Hst. pose proof (store_steps_ok _ _ Hst empty_store_ok) as [Hruns _].
  destruct (collect_root_runs_ok workspace (map_to_list (ims_runs st)))
    as (records & Hcol & Hrec).
  { rewrite Forall_forall. intros [id run] Hin. apply elem_of_map_to_list in Hin. by apply Hruns. }
  unfold list_root_runs. rewrite Hcol. eexists. split; [done|].
  set (R := newest_first rrr_updated_at_unix_ms rrr_run_id).
  pose proof (StronglySorted_merge_sort R records) as Hsorted.
  pose proof (merge_sort_Permutation R records) as Hperm.
  split_and!.
  - rewrite <- (take_drop (N.to_nat limit) (merge_sort R records)) in Hsorted.
    by eapply StronglySorted_app_1_l.
  - rewrite length_take. lia.
  - intros rec Hin%elem_of_take. destruct Hin as (i & Hi & _).
    apply list_elem_of_lookup_2 in Hi. rewrite Hperm in Hi. apply Hrec in Hi
      as (id & run & Hin & Hr). apply elem_of_map_to_list in Hin. eauto.
  - rewrite length_take. intros Hlt id run rec Hrun Hr.
    rewrite take_ge by lia. rewrite Hperm. apply Hrec. exists id, run. split; [|done].
    by apply elem_of_map_to_list.
Qed.
End mem_store_facts.
