(* ===== verification/SqliteStore.v ===== *)
(** The SQLite run store: [crates/state/src/run_store.rs] over the schema of
    [crates/state/src/lib.rs].

    A database is its four tables, with the columns as they are stored ([INTEGER] columns are
    [Z]); an operation is one transaction, so an [Err] leaves the database unchanged.  The
    declared [CHECK], [UNIQUE] and [PRIMARY KEY] constraints are tested by the statements that
    write.  serde's JSON text is a parameter ([StoreJson]), and so are the clock, the owner of
    a new lease and the liveness probe of an operating-system process. *)
From Stdlib Require Import String.
From stdpp Require Import sorting.
From S2P Require Import Prelude Text Json Task Protocol RunApi Validate Context Snapshot.
From S2P Require Import Evidence RunEvents AgentEvents Reducer MemStore.

Open Scope string_scope.
Open Scope N_scope.

(** ** Third-party code *)

(** [serde_json::to_string] and [serde_json::from_str] at the stored types, their errors as
    text, and the text of a constraint violation reported by SQLite. *)
Class StoreJson := {
  event_to_string : StoredRuntimeEvent → result string string;
  event_from_str : string → result string StoredRuntimeEvent;
  snapshot_to_string : RunSnapshot → result string string;
  snapshot_from_str : string → result string RunSnapshot;
  command_to_string : RunCommand → result string string;
  command_from_str : string → result string RunCommand;
  constraint_failed : string;
}.

(** What the store relies on: text that serde wrote reads back as the same value. *)
Class StoreJsonLaws `{StoreJson} : Prop := {
  event_roundtrip : ∀ e text, event_to_string e = Ok text → event_from_str text = Ok e;
  snapshot_roundtrip : ∀ s text, snapshot_to_string s = Ok text → snapshot_from_str text = Ok s;
}.

(** ** Tables *)

Record RunRow := mkRunRow {
  row_parent_run_id : option RunId;
  row_continued_from_run_id : option RunId;
  row_workspace : string;
  row_last_sequence : Z;
  row_terminal : Z;
  row_execution_epoch : Z;
  row_lease_owner_id : option string;
  row_lease_owner_pid : option Z;
  row_created_at_unix_ms : Z;
  row_updated_at_unix_ms : Z;
  row_pending_model_attempt_id : option string;
  row_pending_model_in_flight : Z;
}.
#[global] Instance RunRow_settable : Settable RunRow := λ r,
  mkRunRow (row_parent_run_id r) (row_continued_from_run_id r) (row_workspace r)
    (row_last_sequence r) (row_terminal r) (row_execution_epoch r) (row_lease_owner_id r)
    (row_lease_owner_pid r) (row_created_at_unix_ms r) (row_updated_at_unix_ms r)
    (row_pending_model_attempt_id r) (row_pending_model_in_flight r).

Record EventRow := mkEventRow {
  evr_sequence : Z;
  evr_event_id : string;
  evr_schema_version : Z;
  evr_occurred_at_unix_ms : Z;
  evr_terminal : Z;
  evr_event_json : string;
}.

Record SnapshotRow := mkSnapshotRow {
  snr_last_sequence : Z;
  snr_snapshot_json : string;
}.

Record CreationRow := mkCreationRow {
  crr_command_sha256 : string;
  crr_run_id : RunId;
  crr_created_at_unix_ms : Z;
  crr_creation_kind : option string;
  crr_workspace : option string;
  crr_source_run_id : option string;
  crr_command_json : option string;
}.
#[global] Instance CreationRow_settable : Settable CreationRow := λ r,
  mkCreationRow (crr_command_sha256 r) (crr_run_id r) (crr_created_at_unix_ms r)
    (crr_creation_kind r) (crr_workspace r) (crr_source_run_id r) (crr_command_json r).

(** The event rows of a run are kept in insertion order. *)
Record Database := mkDatabase {
  db_runs : gmap RunId RunRow;
  db_events : gmap RunId (list EventRow);
  db_snapshots : gmap RunId SnapshotRow;
  db_creations : gmap CommandId CreationRow;
}.
#[global] Instance Database_settable : Settable Database := λ r,
  mkDatabase (db_runs r) (db_events r) (db_snapshots r) (db_creations r).

(** The [CHECK] constraints of [agent_runs]. *)
Definition is_flag (z : Z) : bool := (z =? 0)%Z || (z =? 1)%Z.
Definition run_row_check (row : RunRow) : bool :=
  (1 <=? row_last_sequence row)%Z && is_flag (row_terminal row)
  && (1 <=? row_execution_epoch row)%Z
  && bool_decide (is_none (row_lease_owner_id row) = is_none (row_lease_owner_pid row))
  && is_none_or (row_lease_owner_pid row) (λ pid, (0 <? pid)%Z)
  && ((row_terminal row =? 0)%Z || is_none (row_lease_owner_id row))
  && is_flag (row_pending_model_in_flight row).

(** The constraints of [agent_run_events], for a row added to the rows of its run. *)
Definition event_row_check (rows : list EventRow) (row : EventRow) : bool :=
  (1 <=? evr_sequence row)%Z && is_flag (evr_terminal row)
  && forallb (λ other, (evr_sequence other !=? evr_sequence row)
                       && (evr_event_id other !=? evr_event_id row)
                       && negb ((evr_terminal other =? 1)%Z && (evr_terminal row =? 1)%Z)) rows.

(** ** Column conversions *)

Definition I64_MAX : Z := 9223372036854775807.

Definition to_store_i64 (value : N) (field : string) : result RunStoreError Z :=
  if (Z.of_N value <=? I64_MAX)%Z then Ok (Z.of_N value)
  else Err (Backend (field ++ " exceeds SQLite INTEGER range")).

Definition from_store_u64 (value : Z) (run_id : RunId) (field : string)
    : result RunStoreError N :=
  if (value <? 0)%Z then Err (corrupt run_id (field ++ " is negative")) else Ok (Z.to_N value).

(** [u32::try_from(value).map_err(|_| corrupt(run_id, message))] *)
Definition u32_from_store (value : Z) (run_id : RunId) (message : string)
    : result RunStoreError N :=
  if (0 <=? value)%Z && (value <=? Z.of_N U32_MAX)%Z then Ok (Z.to_N value)
  else Err (corrupt run_id message).

(** [match value { 0 => false, 1 => true, _ => return Err(corrupt(run_id, message)) }] *)
Definition flag_from_store (value : Z) (run_id : RunId) (message : string)
    : result RunStoreError bool :=
  if (value =? 0)%Z then Ok false
  else if (value =? 1)%Z then Ok true
  else Err (corrupt run_id message).

Definition flag_to_store (b : bool) : Z := if b then 1%Z else 0%Z.

(** [Option::map(f).transpose()] *)
Definition map_transpose {E A B} (f : A → result E B) (o : option A) : result E (option B) :=
  match o with
  | None => Ok None
  | Some a => b ← f a; Ok (Some b)
  end.

Record RunProjection := mkRunProjection {
  proj_parent_run_id : option RunId;
  proj_continued_from_run_id : option RunId;
  proj_workspace : string;
  proj_last_sequence : N;
  proj_terminal : bool;
  proj_execution_epoch : N;
  proj_lease_owner_id : option string;
  proj_lease_owner_pid : option N;
  proj_pending_model_attempt_id : option string;
  proj_pending_model_in_flight : bool;
}.
#[global] Instance RunProjection_settable : Settable RunProjection := λ r,
  mkRunProjection (proj_parent_run_id r) (proj_continued_from_run_id r) (proj_workspace r)
    (proj_last_sequence r) (proj_terminal r) (proj_execution_epoch r) (proj_lease_owner_id r)
    (proj_lease_owner_pid r) (proj_pending_model_attempt_id r) (proj_pending_model_in_flight r).

(** Ascending sequence, the order of the event queries. *)
Definition by_sequence (x y : EventRow) : Prop := (evr_sequence x ≤ evr_sequence y)%Z.
#[global] Instance by_sequence_dec : RelDecision by_sequence.
Proof. intros x y. unfold by_sequence. apply _. Defined.

(** [ORDER BY time DESC, key DESC] *)
Definition newest_row {A} (time : string * A → Z) (x y : string * A) : Prop :=
  (time y < time x)%Z ∨ (time y = time x ∧ String.le y.1 x.1).
#[global] Instance newest_row_dec {A} (time : string * A → Z) : RelDecision (newest_row time).
Proof. intros x y. unfold newest_row. apply _. Defined.

Section sqlite_store.
Context `{Codecs, StoreJson}.

(** ** Statements *)

(** [UPDATE agent_runs SET ... WHERE run_id = ?1 AND ...]: the number of changed rows. *)
Definition update_run (db : Database) (run_id : RunId) (where_ : RunRow → bool)
    (set_ : RunRow → RunRow) : result RunStoreError (Database * N) :=
  match db_runs db !! run_id with
  | Some row =>
    if where_ row then
      if run_row_check (set_ row)
      then Ok (db <| db_runs := <[run_id := set_ row]> (db_runs db) |>, 1)
      else Err (Backend constraint_failed)
    else Ok (db, 0)
  | None => Ok (db, 0)
  end.

Definition insert_event (db : Database) (event : StoredRuntimeEvent)
    : result RunStoreError Database :=
  event_json ← map_err Backend (event_to_string event);
  sequence ← to_store_i64 (sre_sequence event) "event sequence";
  occurred_at ← to_store_i64 (sre_occurred_at_unix_ms event) "event timestamp";
  let row := mkEventRow sequence (sre_event_id event) (Z.of_N (sre_schema_version event))
    occurred_at (flag_to_store (is_terminal (sre_event event))) event_json in
  let rows := default [] (db_events db !! sre_run_id event) in
  fail_if (negb (event_row_check rows row)) (Backend constraint_failed) ;;
  Ok (db <| db_events := <[sre_run_id event := (rows ++ [row])%list]> (db_events db) |>).

Definition upsert_snapshot (db : Database) (run_id : RunId) (snapshot : RunSnapshot)
    : result RunStoreError Database :=
  snapshot_json ← map_err Backend (snapshot_to_string snapshot);
  sequence ← to_store_i64 (sn_last_sequence snapshot) "snapshot sequence";
  fail_if (negb (1 <=? sequence)%Z) (Backend constraint_failed) ;;
  Ok (db <| db_snapshots := <[run_id := mkSnapshotRow sequence snapshot_json]>
                              (db_snapshots db) |>).

Definition advance_snapshot_sequence (db : Database) (run_id : RunId)
    (previous_sequence next_sequence : N) : result RunStoreError Database :=
  next ← to_store_i64 next_sequence "snapshot sequence";
  previous ← to_store_i64 previous_sequence "snapshot sequence";
  match db_snapshots db !! run_id with
  | Some row =>
    if (snr_last_sequence row =? previous)%Z then
      fail_if (negb (1 <=? next)%Z) (Backend constraint_failed) ;;
      Ok (db <| db_snapshots := <[run_id := mkSnapshotRow next (snr_snapshot_json row)]>
                                  (db_snapshots db) |>)
    else Err (corrupt run_id "snapshot sequence did not advance atomically")
  | None => Err (corrupt run_id "snapshot sequence did not advance atomically")
  end.

(** ** Reading *)

Definition snapshot_projection_neutral (event : RuntimeEventKind) : bool :=
  match event with
  | ContentDelta _ _ _ | ReasoningDelta _ _ _ => true
  | _ => false
  end.

Definition validate_projection_neutral_event (event : RuntimeEventKind) (run_id : RunId)
    (projection : RunProjection) : result RunStoreError unit :=
  match event with
  | ContentDelta attempt_id _ _ | ReasoningDelta attempt_id _ _ =>
    guard_corrupt run_id
      ((proj_pending_model_attempt_id projection !=? Some attempt_id)
       || negb (proj_pending_model_in_flight projection))
      "model delta does not match an in-flight request"
  | _ => Ok tt
  end.

Definition snapshot_model_projection (snapshot : RunSnapshot) : option string * bool :=
  match sn_pending_model snapshot with
  | None => (None, false)
  | Some pending => (Some (pma_attempt_id pending), pma_state pending ==? InFlight)
  end.

Definition decode_run_row (run_id : RunId) (row : RunRow) : result RunStoreError RunProjection :=
  last_sequence ← from_store_u64 (row_last_sequence row) run_id "last_sequence";
  terminal ← flag_from_store (row_terminal row) run_id "terminal projection is not boolean";
  epoch ← from_store_u64 (row_execution_epoch row) run_id "execution_epoch";
  owner_pid ← map_transpose
    (λ pid, u32_from_store pid run_id "lease_owner_pid is outside u32 range")
    (row_lease_owner_pid row);
  in_flight ← flag_from_store (row_pending_model_in_flight row) run_id
    "pending_model_in_flight is not boolean";
  let projection :=
    mkRunProjection (row_parent_run_id row) (row_continued_from_run_id row)
      (row_workspace row) last_sequence terminal epoch (row_lease_owner_id row) owner_pid
      (row_pending_model_attempt_id row) in_flight in
  guard_corrupt run_id
    (is_some (proj_lease_owner_id projection) !=? is_some (proj_lease_owner_pid projection))
    "lease owner id and pid are not both present" ;;
  guard_corrupt run_id (proj_execution_epoch projection =? 0) "execution_epoch is zero" ;;
  guard_corrupt run_id
    (proj_pending_model_in_flight projection
     && is_none (proj_pending_model_attempt_id projection))
    "in-flight model projection has no attempt id" ;;
  Ok projection.

Definition read_run_projection (db : Database) (run_id : RunId)
    : result RunStoreError (option RunProjection) :=
  map_transpose (decode_run_row run_id) (db_runs db !! run_id).

Definition decode_event_row (run_id : RunId) (row : EventRow)
    : result RunStoreError StoredRuntimeEvent :=
  event ← map_err (λ error, corrupt run_id ("event JSON is invalid: " ++ error))
    (event_from_str (evr_event_json row));
  db_sequence ← from_store_u64 (evr_sequence row) run_id "event sequence";
  db_schema ← u32_from_store (evr_schema_version row) run_id
    "event schema_version is outside u32 range";
  db_occurred ← from_store_u64 (evr_occurred_at_unix_ms row) run_id "event timestamp";
  db_terminal ← flag_from_store (evr_terminal row) run_id
    "event terminal marker is not boolean";
  guard_corrupt run_id
    ((sre_run_id event !=? run_id) || (sre_sequence event !=? db_sequence)
     || (sre_event_id event !=? evr_event_id row)
     || (sre_schema_version event !=? db_schema)
     || (sre_occurred_at_unix_ms event !=? db_occurred)
     || (is_terminal (sre_event event) !=? db_terminal))
    "event columns disagree with canonical event JSON" ;;
  Ok event.

Definition read_event_by_id (db : Database) (run_id : RunId) (event_id : RuntimeEventId)
    : result RunStoreError (option StoredRuntimeEvent) :=
  map_transpose (decode_event_row run_id)
    (find_first (λ row, evr_event_id row ==? event_id) (default [] (db_events db !! run_id))).

Definition read_events_after (db : Database) (run_id : RunId) (sequence : N)
    : result RunStoreError (list StoredRuntimeEvent) :=
  if (I64_MAX <? Z.of_N sequence)%Z then Ok []
  else
    cursor ← to_store_i64 sequence "event cursor";
    map_result (decode_event_row run_id)
      (merge_sort by_sequence
         (List.filter (λ row, (cursor <? evr_sequence row)%Z)
            (default [] (db_events db !! run_id)))).

Definition read_persisted_snapshot (db : Database) (run_id : RunId)
    (projection : RunProjection) : result RunStoreError RunSnapshot :=
  stored_snapshot ← some_or_corrupt run_id (db_snapshots db !! run_id)
    "run snapshot is missing";
  snapshot_sequence ← from_store_u64 (snr_last_sequence stored_snapshot) run_id
    "snapshot sequence";
  persisted ← map_err (λ error, corrupt run_id ("run snapshot JSON is invalid: " ++ error))
    (snapshot_from_str (snr_snapshot_json stored_snapshot));
  let request := sn_request persisted in
  guard_corrupt run_id
    (negb (snapshot_sequence =? proj_last_sequence projection)
     || (snapshot_sequence <? sn_last_sequence persisted)
     || (rr_run_id request !=? Some run_id)
     || (rr_parent_run_id request !=? proj_parent_run_id projection)
     || (rr_continued_from_run_id request !=? proj_continued_from_run_id projection)
     || (env_workspace (rr_environment request) !=? proj_workspace projection)
     || (is_some (sn_terminal persisted) !=? proj_terminal projection)
     || (snapshot_model_projection persisted !=?
         (proj_pending_model_attempt_id projection, proj_pending_model_in_flight projection)))
    "stored snapshot disagrees with run projection" ;;
  Ok (persisted <| sn_last_sequence := snapshot_sequence |>).

Definition replay_from_conn (db : Database) (run_id : RunId) (projection : RunProjection)
    : result RunStoreError RunReplay :=
  events ← read_events_after db run_id 0;
  snapshot ← reduce_events events;
  let request := sn_request snapshot in
  guard_corrupt run_id (negb (sn_last_sequence snapshot =? proj_last_sequence projection))
    "last_sequence projection disagrees with event log" ;;
  guard_corrupt run_id (is_some (sn_terminal snapshot) !=? proj_terminal projection)
    "terminal projection disagrees with event log" ;;
  guard_corrupt run_id (rr_parent_run_id request !=? proj_parent_run_id projection)
    "parent run projection disagrees with event log" ;;
  guard_corrupt run_id
    (rr_continued_from_run_id request !=? proj_continued_from_run_id projection)
    "continuation projection disagrees with event log" ;;
  guard_corrupt run_id (env_workspace (rr_environment request) !=? proj_workspace projection)
    "workspace projection disagrees with event log" ;;
  persisted ← read_persisted_snapshot db run_id projection;
  guard_corrupt run_id (persisted !=? snapshot)
    "stored snapshot disagrees with canonical event replay" ;;
  Ok (mkRunReplay snapshot events).

(** The lookup of the lineage walk. *)
Definition persisted_run (db : Database) (run_id : RunId)
    : result RunStoreError (option RunSnapshot) :=
  projection ← read_run_projection db run_id;
  match projection with
  | None => Ok None
  | Some projection =>
    replayed ← replay_from_conn db run_id projection; Ok (Some (replay_snapshot replayed))
  end.

Definition validate_continuation_lineage (db : Database) (source : RunSnapshot)
    (workspace : string) : result RunStoreError unit :=
  let source_run_id := default "" (rr_run_id (sn_request source)) in
  let invalid := InvalidContinuation source_run_id LineageCorrupt in
  default (Err invalid)
    (lineage_loop (S (size (db_runs db))) (persisted_run db) workspace invalid
       {[ source_run_id ]} (rr_continued_from_run_id (sn_request source))).

(** ** Creation reservations *)

Definition encode_creation_kind (kind : PendingCreationKind) : string :=
  match kind with CreationStart => "start" | CreationContinue => "continue" end.

Definition decode_creation_intent (run_id : RunId) (creation_kind workspace : option string)
    (source_run_id : option RunId) (command_json : option string)
    : result RunStoreError (option (CreationIntent RunCommand)) :=
  match command_json with
  | None => Ok None
  | Some command_json =>
    kind ← (if creation_kind ==? Some "start" then Ok CreationStart
            else if creation_kind ==? Some "continue" then Ok CreationContinue
            else Err (corrupt run_id "pending creation kind is missing or invalid"));
    workspace ← some_or_corrupt run_id workspace "pending creation workspace is missing";
    command ← map_err
      (λ error, corrupt run_id ("pending creation command is invalid: " ++ error))
      (command_from_str command_json);
    let metadata_matches :=
      match kind, command with
      | CreationStart, Start command =>
        is_none source_run_id && (src_workspace command ==? workspace)
      | CreationContinue, Continue command =>
        (source_run_id ==? Some (crc_run_id command))
        && is_none_or (crc_expected_workspace command) (λ expected, expected ==? workspace)
      | _, _ => false
      end in
    guard_corrupt run_id (negb metadata_matches)
      "pending creation metadata disagrees with its canonical command" ;;
    Ok (Some (mkCreationIntent kind workspace source_run_id command))
  end.

Definition decode_creation_row (command_id : CommandId) (row : CreationRow)
    : result RunStoreError (CreationReservation RunCommand) :=
  created_at ← from_store_u64 (crr_created_at_unix_ms row) (crr_run_id row)
    "creation timestamp";
  intent ← decode_creation_intent (crr_run_id row) (crr_creation_kind row)
    (crr_workspace row) (crr_source_run_id row) (crr_command_json row);
  Ok (mkCreationReservation command_id (crr_command_sha256 row) (crr_run_id row) created_at
        intent).

Definition reserve_creation_sync (db : Database) (command_id : CommandId)
    (command_sha256 : string) (proposed_run_id : RunId) (intent : CreationIntent RunCommand)
    (now : N) : result RunStoreError (Database * ReservedCreation RunCommand) :=
  match db_creations db !! command_id with
  | Some existing =>
    fail_if (crr_command_sha256 existing !=? command_sha256) (CreationConflict command_id) ;;
    stored_intent ← decode_creation_intent (crr_run_id existing) (crr_creation_kind existing)
      (crr_workspace existing) (crr_source_run_id existing) (crr_command_json existing);
    created_at ← from_store_u64 (crr_created_at_unix_ms existing) (crr_run_id existing)
      "creation timestamp";
    Ok (db, mkReservedCreation
              (mkCreationReservation command_id (crr_command_sha256 existing)
                 (crr_run_id existing) created_at stored_intent) false)
  | None =>
    command_json ← map_err Backend (command_to_string (ci_command intent));
    created_at ← to_store_i64 now "creation timestamp";
    fail_if (existsb (λ '(_, row), crr_run_id row ==? proposed_run_id)
               (map_to_list (db_creations db)))
      (Backend constraint_failed) ;;
    let row := mkCreationRow command_sha256 proposed_run_id created_at
      (Some (encode_creation_kind (ci_kind intent))) (Some (ci_workspace intent))
      (ci_source_run_id intent) (Some command_json) in
    Ok (db <| db_creations := <[command_id := row]> (db_creations db) |>,
        mkReservedCreation
          (mkCreationReservation command_id command_sha256 proposed_run_id now (Some intent))
          true)
  end.

Definition creation_sync (db : Database) (command_id : CommandId)
    : result RunStoreError (option (CreationReservation RunCommand)) :=
  map_transpose (decode_creation_row command_id) (db_creations db !! command_id).

Definition list_pending_creations_sync (db : Database) (workspace : string) (limit : N)
    : result RunStoreError (list (CreationReservation RunCommand)) :=
  let rows := List.filter
    (λ '(_, row), (crr_workspace row ==? Some workspace) && is_some (crr_command_json row))
    (map_to_list (db_creations db)) in
  map_result (λ '(command_id, row), decode_creation_row command_id row)
    (take (N.to_nat limit)
       (merge_sort (newest_row (λ '(_, row), crr_created_at_unix_ms row)) rows)).

(** ** Runs *)

Definition new_run_row (request : RunRequest) (lease : RunLease) (now : Z) : RunRow :=
  mkRunRow (rr_parent_run_id request) (rr_continued_from_run_id request)
    (env_workspace (rr_environment request)) 1 0 1 (Some (rl_owner_id lease))
    (Some (Z.of_N (rl_owner_pid lease))) now now None 0.

Definition create_run_sync (db : Database) (request : RunRequest) (now : N)
    (owner_id : string) (owner_pid : N) : result RunStoreError (Database * CreatedRun) :=
  let run_id := default "" (rr_run_id request) in
  let request := request <| rr_run_id := Some run_id |> in
  let lease := new_lease run_id 1 owner_id owner_pid in
  let created := created_stored_event run_id request now in
  snapshot ← reduce_events [created];
  fail_if (is_some (db_runs db !! run_id)) (AlreadyExists run_id) ;;
  match rr_continued_from_run_id request with
  | None => Ok tt
  | Some source_run_id =>
    source_projection ← read_run_projection db source_run_id;
    source_projection ← ok_or source_projection (NotFound source_run_id);
    source ← replay_from_conn db source_run_id source_projection;
    validate_continuation_request (replay_snapshot source) request ;;
    validate_continuation_lineage db (replay_snapshot source)
      (env_workspace (rr_environment request))
  end ;;
  timestamp ← to_store_i64 now "run timestamp";
  let row := new_run_row request lease timestamp in
  fail_if (negb (run_row_check row)) (Backend constraint_failed) ;;
  let db := db <| db_runs := <[run_id := row]> (db_runs db) |> in
  db ← insert_event db created;
  db ← upsert_snapshot db run_id snapshot;
  let db := db <| db_creations :=
    (λ row, if crr_run_id row ==? run_id then row <| crr_command_json := None |> else row)
    <$> db_creations db |> in
  Ok (db, mkCreatedRun lease created (mkRunReplay snapshot [created])).

Definition acquire_run_sync (db : Database) (process_is_alive : N → bool) (run_id : RunId)
    (owner_id : string) (owner_pid : N) : result RunStoreError (Database * AcquiredRun) :=
  projection ← read_run_projection db run_id;
  projection ← ok_or projection (NotFound run_id);
  replayed ← replay_from_conn db run_id projection;
  if is_some (sn_terminal (replay_snapshot replayed)) then Ok (db, mkAcquiredRun None replayed)
  else
    fail_if (is_some_and (proj_lease_owner_pid projection) process_is_alive)
      (AlreadyRunning run_id) ;;
    let next_epoch := sat_add64 (proj_execution_epoch projection) 1 in
    let lease := new_lease run_id next_epoch owner_id owner_pid in
    next ← to_store_i64 next_epoch "execution epoch";
    current ← to_store_i64 (proj_execution_epoch projection) "execution epoch";
    '(db, changed) ← update_run db run_id (λ row, row_execution_epoch row =? current)%Z
      (λ row, row <| row_execution_epoch := next |>
                  <| row_lease_owner_id := Some (rl_owner_id lease) |>
                  <| row_lease_owner_pid := Some (Z.of_N (rl_owner_pid lease)) |>);
    fail_if (negb (changed =? 1)) (StaleLease run_id (proj_execution_epoch projection)) ;;
    Ok (db, mkAcquiredRun (Some lease) replayed).

(** The lease columns of a row name exactly this lease. *)
Definition lease_current (projection : RunProjection) (lease : RunLease) : bool :=
  (proj_execution_epoch projection =? rl_epoch lease)
  && (proj_lease_owner_id projection ==? Some (rl_owner_id lease))
  && (proj_lease_owner_pid projection ==? Some (rl_owner_pid lease)).

(** The [WHERE] clause of the statements a lease holder executes. *)
Definition lease_row_matches (epoch : Z) (lease : RunLease) (row : RunRow) : bool :=
  (row_execution_epoch row =? epoch)%Z
  && (row_lease_owner_id row ==? Some (rl_owner_id lease))
  && (row_lease_owner_pid row ==? Some (Z.of_N (rl_owner_pid lease))).

(** The rest of an append, once the event is not a duplicate and the lease is current. *)
Definition append_stored (db : Database) (lease : RunLease) (projection : RunProjection)
    (stored : StoredRuntimeEvent) : result RunStoreError Database :=
  let run_id := rl_run_id lease in
  let stale := StaleLease run_id (rl_epoch lease) in
  let projection_neutral := snapshot_projection_neutral (sre_event stored) in
  (if projection_neutral
   then validate_projection_neutral_event (sre_event stored) run_id projection
   else Ok tt) ;;
  snapshot ← (if projection_neutral then Ok None
              else
                snapshot ← read_persisted_snapshot db run_id projection;
                snapshot ← apply_event snapshot stored;
                Ok (Some snapshot));
  let terminal := is_terminal (sre_event stored) in
  db ← insert_event db stored;
  db ← match snapshot with
       | Some snapshot => upsert_snapshot db run_id snapshot
       | None => advance_snapshot_sequence db run_id (proj_last_sequence projection)
                   (sre_sequence stored)
       end;
  let '(pending_model_attempt_id, pending_model_in_flight) :=
    match snapshot with
    | Some snapshot => snapshot_model_projection snapshot
    | None => (proj_pending_model_attempt_id projection,
               proj_pending_model_in_flight projection)
    end in
  sequence ← to_store_i64 (sre_sequence stored) "event sequence";
  timestamp ← to_store_i64 (sre_occurred_at_unix_ms stored) "event timestamp";
  epoch ← to_store_i64 (rl_epoch lease) "execution epoch";
  '(db, changed) ← update_run db run_id (lease_row_matches epoch lease)
    (λ row, row <| row_last_sequence := sequence |>
                <| row_terminal := flag_to_store terminal |>
                <| row_lease_owner_id := if terminal then None else row_lease_owner_id row |>
                <| row_lease_owner_pid := if terminal then None else row_lease_owner_pid row |>
                <| row_updated_at_unix_ms := timestamp |>
                <| row_pending_model_attempt_id := pending_model_attempt_id |>
                <| row_pending_model_in_flight := flag_to_store pending_model_in_flight |>);
  fail_if (negb (changed =? 1)) stale ;;
  Ok db.

Definition append_run_event_sync (db : Database) (lease : RunLease)
    (pending : PendingRuntimeEvent) (now : N)
    : result RunStoreError (Database * StoredRuntimeEvent) :=
  let run_id := rl_run_id lease in
  existing ← read_event_by_id db run_id (pre_event_id pending);
  match existing with
  | Some existing =>
    if sre_event existing ==? pre_event pending then Ok (db, existing)
    else Err (EventConflict run_id (pre_event_id pending))
  | None =>
    projection ← read_run_projection db run_id;
    projection ← ok_or projection (NotFound run_id);
    fail_if (proj_terminal projection) (AlreadyTerminal run_id) ;;
    fail_if (negb (lease_current projection lease)) (StaleLease run_id (rl_epoch lease)) ;;
    let stored :=
      mkStoredRuntimeEvent AGENT_RUNTIME_EVENT_SCHEMA_VERSION run_id
        (proj_parent_run_id projection) (pre_event_id pending)
        (sat_add64 (proj_last_sequence projection) 1) now (pre_event pending) in
    db ← append_stored db lease projection stored;
    Ok (db, stored)
  end.

Definition load_run_sync (db : Database) (run_id : RunId)
    : result RunStoreError (option RunReplay) :=
  projection ← read_run_projection db run_id;
  match projection with
  | None => Ok None
  | Some projection =>
    replayed ← replay_from_conn db run_id projection; Ok (Some replayed)
  end.

Definition events_after_sync (db : Database) (run_id : RunId) (sequence : N)
    : result RunStoreError (list StoredRuntimeEvent) := read_events_after db run_id sequence.

Definition release_run_sync (db : Database) (lease : RunLease)
    : result RunStoreError Database :=
  let run_id := rl_run_id lease in
  let stale := StaleLease run_id (rl_epoch lease) in
  projection ← read_run_projection db run_id;
  projection ← ok_or projection (NotFound run_id);
  fail_if (negb (lease_current projection lease)) stale ;;
  epoch ← to_store_i64 (rl_epoch lease) "execution epoch";
  '(db, changed) ← update_run db run_id (lease_row_matches epoch lease)
    (λ row, row <| row_lease_owner_id := None |> <| row_lease_owner_pid := None |>);
  fail_if (negb (changed =? 1)) stale ;;
  Ok db.

Definition decode_root_run_row (run_id : RunId) (row : RunRow)
    : result RunStoreError RootRunRecord :=
  last_sequence ← from_store_u64 (row_last_sequence row) run_id "last_sequence";
  terminal ← flag_from_store (row_terminal row) run_id "terminal projection is not boolean";
  created_at ← from_store_u64 (row_created_at_unix_ms row) run_id "created_at_unix_ms";
  updated_at ← from_store_u64 (row_updated_at_unix_ms row) run_id "updated_at_unix_ms";
  Ok (mkRootRunRecord run_id (row_continued_from_run_id row) (row_workspace row)
        last_sequence terminal created_at updated_at).

Definition check_root_run_record (db : Database) (workspace : string) (record : RootRunRecord)
    : result RunStoreError unit :=
  let run_id := rrr_run_id record in
  projection ← read_run_projection db run_id;
  projection ← ok_or projection (NotFound run_id);
  replayed ← replay_from_conn db run_id projection;
  let snapshot := replay_snapshot replayed in
  guard_corrupt run_id (env_workspace (rr_environment (sn_request snapshot)) !=? workspace)
    "workspace projection disagrees with run snapshot" ;;
  guard_corrupt run_id
    (is_some (rr_parent_run_id (sn_request snapshot))
     || (rr_continued_from_run_id (sn_request snapshot)
         !=? rrr_continued_from_run_id record)
     || negb (sn_last_sequence snapshot =? rrr_last_sequence record)
     || (is_some (sn_terminal snapshot) !=? rrr_terminal record))
    "root run query projection disagrees with canonical replay".

Definition list_root_runs_sync (db : Database) (workspace : string) (limit : N)
    : result RunStoreError (list RootRunRecord) :=
  let rows := List.filter
    (λ '(_, row), (row_workspace row ==? workspace) && is_none (row_parent_run_id row))
    (map_to_list (db_runs db)) in
  records ← map_result (λ '(run_id, row), decode_root_run_row run_id row)
    (take (N.to_nat limit)
       (merge_sort (newest_row (λ '(_, row), row_updated_at_unix_ms row)) rows));
  for_each (check_root_run_record db workspace) records ;;
  Ok records.
End sqlite_store.
