(* ===== verification/SqliteFacts.v ===== *)
(** The SQLite store implements the run-log interface: its materialised projections always
    agree with the event log, and its fast path for streamed deltas does what the reducer
    would do - unless a control request is pending. *)
From Stdlib Require Import String.
From stdpp Require Import sorting relations.
From S2P Require Import Prelude Text Json Task Protocol RunApi Validate Context Snapshot.
From S2P Require Import Evidence RunEvents AgentEvents Reducer Steps LogFacts ToolFacts.
From S2P Require Import ModelFacts MemStore RunLog SqliteStore.

Open Scope string_scope.
Open Scope N_scope.

(** ** Column conversions *)

Lemma to_store_i64_Ok v field z :
  to_store_i64 v field = Ok z ↔ z = Z.of_N v ∧ (Z.of_N v ≤ I64_MAX)%Z.
Proof.
  unfold to_store_i64. destruct (Z.leb_spec (Z.of_N v) I64_MAX); split; intros; simplify_eq;
    naive_solver lia.
Qed.
Lemma from_store_u64_of_N v run_id field : from_store_u64 (Z.of_N v) run_id field = Ok v.
Proof.
  unfold from_store_u64. destruct (Z.ltb_spec (Z.of_N v) 0); [lia|]. by rewrite N2Z.id.
Qed.
Lemma from_store_u64_Ok z run_id field v :
  from_store_u64 z run_id field = Ok v → z = Z.of_N v.
Proof.
  unfold from_store_u64. destruct (Z.ltb_spec z 0); [done|]. intros [= <-].
  by rewrite Z2N.id by lia.
Qed.
Lemma u32_from_store_of_N v run_id message :
  v ≤ U32_MAX → u32_from_store (Z.of_N v) run_id message = Ok v.
Proof.
  intros Hv. unfold u32_from_store.
  destruct (Z.leb_spec 0 (Z.of_N v)), (Z.leb_spec (Z.of_N v) (Z.of_N U32_MAX)); cbn; try lia.
  by rewrite N2Z.id.
Qed.
Lemma flag_from_store_to_store b run_id message :
  flag_from_store (flag_to_store b) run_id message = Ok b.
Proof. by destruct b. Qed.

#[export] Hint Rewrite from_store_u64_of_N flag_from_store_to_store : columns.

(** ** Sorting by a key that increases already *)

#[local] Instance by_sequence_trans : Transitive by_sequence.
Proof. intros x y z. unfold by_sequence. lia. Qed.
#[local] Instance by_sequence_total : Total by_sequence.
Proof. intros x y. unfold by_sequence. lia. Qed.

Lemma sorted_key_unique {A} (key : A → Z) (xs ys : list A) :
  StronglySorted (λ x y, key x < key y)%Z xs → StronglySorted (λ x y, key x ≤ key y)%Z ys →
  xs ≡ₚ ys → xs = ys.
Proof.
  intros Hxs. revert ys. induction Hxs as [|x xs Hxs IH Hx]; intros ys Hys Hp.
  - by apply Permutation_nil in Hp.
  - destruct ys as [|y ys]; [by apply Permutation_nil_r in Hp|].
    apply StronglySorted_inv in Hys as [Hys Hy].
    assert (x = y) as <-.
    { assert (x ∈ y :: ys) as Hin by (rewrite <- Hp; constructor).
      assert (y ∈ x :: xs) as Hin' by (rewrite Hp; constructor).
      apply elem_of_cons in Hin as [->|Hin]; [done|]. apply elem_of_cons in Hin' as [->|Hin']; [done|].
      rewrite Forall_forall in Hx, Hy. specialize (Hx _ Hin'). specialize (Hy _ Hin). lia. }
    f_equal. apply IH; [done|]. by apply Permutation_cons_inv in Hp.
Qed.

Lemma merge_sort_sequenced (rows : list EventRow) :
  StronglySorted (λ x y, evr_sequence x < evr_sequence y)%Z rows →
  merge_sort by_sequence rows = rows.
Proof.
  intros Hs. symmetry. apply (sorted_key_unique evr_sequence); [done| |].
  - apply (StronglySorted_merge_sort by_sequence).
  - by rewrite merge_sort_Permutation.
Qed.

Lemma filter_all_true {A} (f : A → bool) xs :
  Forall (λ x, f x = true) xs → List.filter f xs = xs.
Proof. induction 1 as [|x xs Hx _ IH]; cbn; [done|]. by rewrite Hx, IH. Qed.

Section sqlite_facts.
Context `{Codecs, StoreJson} `{!StoreJsonLaws}.
Implicit Types (db : Database) (row : RunRow) (r : LogRun) (l : RunLease) (s : RunSnapshot).

(** ** How a row represents a run *)

Definition lease_columns (lease : option RunLease) : option string * option Z :=
  (rl_owner_id <$> lease, (λ l, Z.of_N (rl_owner_pid l)) <$> lease).

(** The projection columns that repeat facts of the snapshot. *)
Record row_rel (id : RunId) row r s : Prop := {
  rwr_parent : row_parent_run_id row = rr_parent_run_id (sn_request s);
  rwr_continued : row_continued_from_run_id row = rr_continued_from_run_id (sn_request s);
  rwr_workspace : row_workspace row = env_workspace (rr_environment (sn_request s));
  rwr_sequence : row_last_sequence row = Z.of_N (sn_last_sequence s);
  rwr_terminal : row_terminal row = flag_to_store (is_some (sn_terminal s));
  rwr_epoch : row_execution_epoch row = Z.of_N (lr_epoch r);
  rwr_lease : (row_lease_owner_id row, row_lease_owner_pid row) = lease_columns (lr_lease r);
  rwr_model : (row_pending_model_attempt_id row, row_pending_model_in_flight row) =
    ((snapshot_model_projection s).1, flag_to_store (snapshot_model_projection s).2);
}.

(** The lease the columns name, and the bounds of the stored integers. *)
Record lease_rel (id : RunId) r : Prop := {
  ler_epoch : 1 ≤ lr_epoch r ∧ (Z.of_N (lr_epoch r) ≤ I64_MAX)%Z;
  ler_lease : ∀ l, lr_lease r = Some l →
    rl_run_id l = id ∧ rl_epoch l = lr_epoch r ∧ rl_owner_pid l ≤ U32_MAX;
}.

(** The persisted snapshot is the reduced one, up to the sequence it was written at. *)
Definition snapshot_rel (snap : SnapshotRow) s : Prop :=
  snr_last_sequence snap = Z.of_N (sn_last_sequence s) ∧
  ∃ p, snapshot_from_str (snr_snapshot_json snap) = Ok p ∧
    sn_last_sequence p ≤ sn_last_sequence s ∧
    p <| sn_last_sequence := sn_last_sequence s |> = s.

Record run_rel (id : RunId) row (rows : list EventRow) (snap : SnapshotRow) r s : Prop := {
  rep_reduces : reduce_events (lr_log r) = Ok s;
  rep_id : rr_run_id (sn_request s) = Some id;
  rep_events : Forall2 (λ x e, decode_event_row id x = Ok e) rows (lr_log r);
  rep_event_ids : NoDup (sre_event_id <$> lr_log r);
  rep_length : N.of_nat (length (lr_log r)) = sn_last_sequence s ∧
    (Z.of_N (sn_last_sequence s) ≤ I64_MAX)%Z;
  rep_row : row_rel id row r s;
  rep_lease : lease_rel id r;
  rep_released : is_Some (sn_terminal s) → lr_lease r = None;
  rep_snapshot : snapshot_rel snap s;
}.

Definition run_represented db (id : RunId) r : Prop :=
  ∃ row rows snap s, db_runs db !! id = Some row ∧ db_events db !! id = Some rows ∧
    db_snapshots db !! id = Some snap ∧ run_rel id row rows snap r s.

Definition sqlite_rel db (m : gmap RunId LogRun) : Prop :=
  ∀ id, match m !! id with
        | Some r => run_represented db id r
        | None => db_runs db !! id = None ∧ db_events db !! id = None
        end.

(** ** Reading a represented run *)

Lemma decode_event_row_inv id (x : EventRow) e :
  decode_event_row id x = Ok e →
  sre_run_id e = id ∧ evr_sequence x = Z.of_N (sre_sequence e) ∧
  evr_event_id x = sre_event_id e ∧
  evr_terminal x = flag_to_store (is_terminal (sre_event e)).
Proof.
  unfold decode_event_row. intros Hd. inv_run. bprop. subst.
  repeat match goal with Hf : from_store_u64 _ _ _ = Ok _ |- _ => apply from_store_u64_Ok in Hf end.
  split_and!; try congruence.
  match goal with Hf : flag_from_store ?z _ _ = Ok _ |- _ => unfold flag_from_store in Hf;
    destruct (Z.eqb_spec z 0), (Z.eqb_spec z 1); simplify_eq end; simplify_eq/=;
    by destruct (is_terminal _).
Qed.

Lemma rows_sequenced id (rows : list EventRow) log :
  Forall2 (λ x e, decode_event_row id x = Ok e) rows log →
  (∀ i e, log !! i = Some e → sre_sequence e = N.of_nat i + 1) →
  StronglySorted (λ x y, evr_sequence x < evr_sequence y)%Z rows ∧
  Forall (λ x, 0 < evr_sequence x)%Z rows.
Proof.
  intros Hevs Hnum.
  assert (∀ i x, rows !! i = Some x → evr_sequence x = Z.of_nat i + 1)%Z as Hseq.
  { intros i x Hx. destruct (Forall2_lookup_l _ _ _ _ _ Hevs Hx) as (e & He & Hd).
    apply decode_event_row_inv in Hd as (_ & -> & _). rewrite (Hnum _ _ He). lia. }
  split.
  - clear -Hseq. revert Hseq. generalize 1%Z. induction rows as [|x rows IH]; intros n Hseq; constructor.
    + apply (IH (n + 1)%Z). intros i y Hy. specialize (Hseq (S i) y Hy). lia.
    + apply Forall_forall. intros y Hy. apply list_elem_of_lookup_1 in Hy as [i Hi].
      pose proof (Hseq 0%nat x eq_refl). pose proof (Hseq (S i) y Hi). lia.
  - apply Forall_lookup_2. intros i x Hx. rewrite (Hseq _ _ Hx). lia.
Qed.

Lemma read_events_decoded db id rows log :
  db_events db !! id = Some rows →
  Forall2 (λ x e, decode_event_row id x = Ok e) rows log →
  (∀ i e, log !! i = Some e → sre_sequence e = N.of_nat i + 1) →
  read_events_after db id 0 = Ok log.
Proof.
  intros Hrows Hevs Hnum. destruct (rows_sequenced _ _ _ Hevs Hnum) as [Hsorted Hpos].
  unfold read_events_after. cbn. rewrite Hrows. cbn.
  rewrite (filter_all_true (λ x, (0 <? evr_sequence x)%Z)).
  - rewrite merge_sort_sequenced by done. by apply map_result_Ok.
  - eapply Forall_impl; [done|]. intros x Hx. by apply Z.ltb_lt.
Qed.

Lemma run_rel_numbered id row rows snap r s i e :
  run_rel id row rows snap r s → lr_log r !! i = Some e → sre_sequence e = N.of_nat i + 1.
Proof.
  intros [Hred _ _ _ [Hlen Hmax] _ _ _ _]. apply reachable_reduce in Hred.
  destruct (reachable_numbered _ _ Hred) as (_ & run_id & _ & Hnum).
  { unfold I64_MAX, U64_MAX in *. lia. }
  intros He. by destruct (Hnum _ _ He).
Qed.

Lemma read_events_represented db id row rows snap r s :
  db_events db !! id = Some rows → run_rel id row rows snap r s →
  read_events_after db id 0 = Ok (lr_log r).
Proof.
  intros Hrows Hrel. eapply read_events_decoded; [done|by destruct Hrel|].
  intros i e. by eapply run_rel_numbered.
Qed.

Definition projection_of r s : RunProjection :=
  mkRunProjection (rr_parent_run_id (sn_request s)) (rr_continued_from_run_id (sn_request s))
    (env_workspace (rr_environment (sn_request s))) (sn_last_sequence s)
    (is_some (sn_terminal s)) (lr_epoch r) (rl_owner_id <$> lr_lease r)
    (rl_owner_pid <$> lr_lease r) (snapshot_model_projection s).1
    (snapshot_model_projection s).2.

Lemma decode_run_row_rel id row r s :
  row_rel id row r s → lease_rel id r → decode_run_row id row = Ok (projection_of r s).
Proof.
  intros [Hpar Hcon Hws Hseq Hter Hep Hle Hmod] [[Hpos _] Hpid]. unfold decode_run_row.
  injection Hle as Hown Hopid. injection Hmod as Hatt Hfl.
  rewrite Hseq, Hter, Hep, Hopid, Hfl, Hown, Hpar, Hcon, Hws, Hatt.
  autorewrite with columns. cbn [mbind result_bind].
  assert (map_transpose (λ pid, u32_from_store pid id "lease_owner_pid is outside u32 range")
            ((λ l, Z.of_N (rl_owner_pid l)) <$> lr_lease r) = Ok (rl_owner_pid <$> lr_lease r))
    as ->.
  { destruct (lr_lease r) as [l|]; cbn; [|done].
    rewrite u32_from_store_of_N; [done|]. by apply Hpid. }
  cbn. unfold guard_corrupt, fail_if.
  rewrite (bool_decide_true (is_some _ = is_some _)) by (by destruct (lr_lease r)).
  replace (lr_epoch r =? 0) with false by (symmetry; apply N.eqb_neq; lia).
  unfold projection_of, snapshot_model_projection. destruct (sn_pending_model s); cbn; [|done].
  by rewrite andb_false_r.
Qed.

Lemma read_persisted_rel db id snap r s :
  db_snapshots db !! id = Some snap → snapshot_rel snap s →
  rr_run_id (sn_request s) = Some id →
  read_persisted_snapshot db id (projection_of r s) = Ok s.
Proof.
  intros Hsnap (Hseq & p & Hp & Hle & Heq) Hid. unfold read_persisted_snapshot.
  rewrite Hsnap. cbn. rewrite Hseq. autorewrite with columns. cbn. rewrite Hp. cbn.
  assert (∃ p', p' = p <| sn_last_sequence := sn_last_sequence s |> ∧
    sn_request p = sn_request p' ∧ sn_terminal p = sn_terminal p' ∧
    sn_pending_model p = sn_pending_model p') as (p' & Hp' & Hr1 & Ht1 & Hm1) by eauto.
  rewrite Heq in Hp'. subst p'.
  assert (snapshot_model_projection p = snapshot_model_projection s) as Hmp
    by (unfold snapshot_model_projection; by rewrite Hm1).
  rewrite Hr1, Ht1, Hmp, Hid. rewrite <- surjective_pairing.
  rewrite N.eqb_refl. replace (sn_last_sequence s <? sn_last_sequence p) with false
    by (symmetry; by apply N.ltb_ge).
  rewrite !bool_decide_true by done. cbn. by rewrite Heq.
Qed.

Lemma replay_represented db id row rows snap r s :
  db_events db !! id = Some rows → db_snapshots db !! id = Some snap →
  run_rel id row rows snap r s →
  replay_from_conn db id (projection_of r s) = Ok (mkRunReplay s (lr_log r)).
Proof.
  intros Hrows Hsnap Hrel. unfold replay_from_conn.
  rewrite (read_events_represented _ _ _ _ _ _ _ Hrows Hrel). cbn.
  destruct Hrel as [Hred Hid _ _ _ _ _ _ Hs]. rewrite Hred. cbn. rewrite N.eqb_refl.
  rewrite !bool_decide_true by done. cbn.
  rewrite (read_persisted_rel _ _ _ _ _ Hsnap Hs Hid). cbn. by rewrite bool_decide_true.
Qed.

Lemma projection_represented db id row rows snap r s :
  db_runs db !! id = Some row → run_rel id row rows snap r s →
  read_run_projection db id = Ok (Some (projection_of r s)).
Proof.
  intros Hrow [_ _ _ _ _ Hrr Hle _ _]. unfold read_run_projection. rewrite Hrow. cbn.
  by rewrite (decode_run_row_rel _ _ _ _ Hrr Hle).
Qed.

Lemma load_represented db id row rows snap r s :
  db_runs db !! id = Some row → db_events db !! id = Some rows →
  db_snapshots db !! id = Some snap → run_rel id row rows snap r s →
  load_run_sync db id = Ok (Some (mkRunReplay s (lr_log r))).
Proof.
  intros Hrow Hrows Hsnap Hrel. unfold load_run_sync.
  rewrite (projection_represented _ _ _ _ _ _ _ Hrow Hrel). cbn [mbind result_bind].
  by rewrite (replay_represented _ _ _ _ _ _ _ Hrows Hsnap Hrel).
Qed.

(** ** Statements *)

Lemma insert_event_inv db e db' :
  insert_event db e = Ok db' → sre_schema_version e ≤ U32_MAX →
  ∃ x, decode_event_row (sre_run_id e) x = Ok e ∧ (Z.of_N (sre_sequence e) ≤ I64_MAX)%Z ∧
    db' = db <| db_events :=
      <[sre_run_id e := (default [] (db_events db !! sre_run_id e) ++ [x])%list]>
        (db_events db) |>.
Proof.
  unfold insert_event. intros Hi Hver. inv_ok.
  repeat match goal with Hz : to_store_i64 _ _ = Ok _ |- _ =>
    apply to_store_i64_Ok in Hz as [-> ?] end.
  match goal with Ht : event_to_string e = Ok ?t |- _ =>
    apply event_roundtrip in Ht as Hback end.
  eexists. split; [|split; [done|by symmetry]].
  unfold decode_event_row. cbn. rewrite Hback. cbn.
  rewrite u32_from_store_of_N by done. autorewrite with columns. cbn.
  by rewrite !bool_decide_true by done.
Qed.

Lemma upsert_snapshot_inv db id s db' :
  upsert_snapshot db id s = Ok db' →
  ∃ snap, snapshot_rel snap s ∧
    db' = db <| db_snapshots := <[id := snap]> (db_snapshots db) |>.
Proof.
  unfold upsert_snapshot. intros Hu. inv_ok.
  match goal with Hz : to_store_i64 _ _ = Ok _ |- _ => apply to_store_i64_Ok in Hz as [-> ?] end.
  eexists. split; [|by symmetry]. split; [done|]. exists s.
  split_and!; [by apply snapshot_roundtrip|lia|by destruct s].
Qed.

Lemma advance_snapshot_inv db id snap s n db' :
  db_snapshots db !! id = Some snap → snapshot_rel snap s → sn_last_sequence s ≤ n →
  advance_snapshot_sequence db id (sn_last_sequence s) n = Ok db' →
  ∃ snap', snapshot_rel snap' (s <| sn_last_sequence := n |>) ∧
    db' = db <| db_snapshots := <[id := snap']> (db_snapshots db) |>.
Proof.
  intros Hsnap (Hseq & p & Hp & Hle & Heq) Hn Ha. unfold advance_snapshot_sequence in Ha.
  inv_ok. repeat match goal with Hz : to_store_i64 _ _ = Ok _ |- _ =>
    apply to_store_i64_Ok in Hz as [-> ?] end. simplify_eq.
  eexists. split; [|done]. split; [done|]. exists p. cbn.
  split_and!; [done|lia|]. rewrite <- Heq. by destruct p.
Qed.

Lemma update_run_inv db id where_ set_ db' n :
  update_run db id where_ set_ = Ok (db', n) → negb (n =? 1) = false →
  ∃ row, db_runs db !! id = Some row ∧ where_ row = true ∧ run_row_check (set_ row) = true ∧
    db' = db <| db_runs := <[id := set_ row]> (db_runs db) |>.
Proof.
  unfold update_run. intros Hu Hn. destruct (db_runs db !! id) as [row|]; [|by simplify_eq].
  destruct (where_ row) eqn:Hw; [|by simplify_eq].
  destruct (run_row_check (set_ row)) eqn:Hc; [|done]. simplify_eq. eauto.
Qed.

(** An operation that touches the rows of one run only. *)
Definition only_touches (id : RunId) db db' : Prop :=
  ∀ id', id' ≠ id → db_runs db' !! id' = db_runs db !! id' ∧
    db_events db' !! id' = db_events db !! id' ∧
    db_snapshots db' !! id' = db_snapshots db !! id'.

Lemma sqlite_rel_update db db' m id r :
  sqlite_rel db m → only_touches id db db' → run_represented db' id r →
  sqlite_rel db' (<[id := r]> m).
Proof.
  intros Hrel Htouch Hr id'. destruct (decide (id' = id)) as [->|Hne].
  - by rewrite lookup_insert_eq.
  - rewrite lookup_insert_ne by done. specialize (Hrel id'). unfold run_represented in *.
    destruct (Htouch _ Hne) as (-> & -> & ->). done.
Qed.

Lemma sqlite_rel_frame db db' m :
  sqlite_rel db m → db_runs db' = db_runs db → db_events db' = db_events db →
  db_snapshots db' = db_snapshots db → sqlite_rel db' m.
Proof.
  intros Hrel Hr He Hs id. specialize (Hrel id). unfold run_represented in *.
  by rewrite Hr, He, Hs.
Qed.

(** ** Operations *)

Inductive sqlite_op : Database → Database → Prop :=
| op_reserve db c sha id intent now db' res :
  reserve_creation_sync db c sha id intent now = Ok (db', res) → sqlite_op db db'
| op_create db request now owner pid db' c :
  pid ≤ U32_MAX → create_run_sync db request now owner pid = Ok (db', c) → sqlite_op db db'
| op_acquire db alive id owner pid db' a :
  pid ≤ U32_MAX → acquire_run_sync db alive id owner pid = Ok (db', a) → sqlite_op db db'
| op_append db l pending now db' e :
  append_run_event_sync db l pending now = Ok (db', e) →
  (snapshot_projection_neutral (pre_event pending) = true → ∀ replayed,
     load_run_sync db (rl_run_id l) = Ok (Some replayed) →
     sn_pending_control (replay_snapshot replayed) = None) →
  sqlite_op db db'
| op_release db l db' :
  release_run_sync db l = Ok db' → sqlite_op db db'.

Definition empty_database : Database := mkDatabase ∅ ∅ ∅ ∅.

Lemma reserve_simulated db m c sha id intent now db' res :
  sqlite_rel db m → reserve_creation_sync db c sha id intent now = Ok (db', res) →
  sqlite_rel db' m.
Proof.
  intros Hrel Hr. unfold reserve_creation_sync in Hr.
  destruct (db_creations db !! c); inv_run; subst; [done|]. by eapply sqlite_rel_frame.
Qed.

Lemma created_represented request l db db1 db2 db3 s now created :
  let id := rl_run_id l in
  rl_epoch l = 1 → rl_owner_pid l ≤ U32_MAX →
  created = created_stored_event id request now → rr_run_id request = Some id →
  reduce_events [created] = Ok s → db_events db !! id = None →
  db1 = db <| db_runs := <[id := new_run_row request l (Z.of_N now)]> (db_runs db) |> →
  insert_event db1 created = Ok db2 → upsert_snapshot db2 id s = Ok db3 →
  only_touches id db db3 ∧ run_represented db3 id (mkLogRun [created] 1 (Some l)).
Proof.
  intros id Hep Hpid Hcr Hid Hred Hno Hdb1 Hins Hup.
  apply insert_event_inv in Hins as (x & Hx & _ & ->); [|by subst created].
  apply upsert_snapshot_inv in Hup as (snap & Hsnap & ->).
  assert (sre_run_id created = id) as Hcid by (by subst created). rewrite Hcid in *.
  pose proof Hred as Hs. apply bind_Ok in Hs as (request' & Hv & [= <-]).
  apply validate_run_created_Ok in Hv as (Hev & _). subst created. cbn in Hev.
  injection Hev as <-. subst db1. split.
  - intros id' Hne. cbn. by rewrite !lookup_insert_ne by done.
  - eexists _, _, _, _. cbn. rewrite !lookup_insert_eq. do 3 (split; [done|]).
    rewrite Hno. split; cbn; try done.
    + by constructor.
    + apply NoDup_singleton.
    + split; [split; cbn; [lia|done]|]. by intros ? [= <-].
    + by intros [].
Qed.

Lemma create_simulated db m request now owner pid db' c :
  pid ≤ U32_MAX → sqlite_rel db m → create_run_sync db request now owner pid = Ok (db', c) →
  ∃ m', log_step m m' ∧ sqlite_rel db' m'.
Proof.
  intros Hpid Hrel Hc. unfold create_run_sync in Hc.
  set (id := default "" (rr_run_id request)) in *.
  set (req := request <| rr_run_id := Some id |>) in *.
  apply bind_Ok in Hc as (s & Hred & Hc). apply bind_Ok in Hc as ([] & Hnew & Hc).
  apply bind_Ok in Hc as ([] & _ & Hc). apply bind_Ok in Hc as (t & Ht & Hc).
  apply to_store_i64_Ok in Ht as [-> _].
  apply bind_Ok in Hc as ([] & _ & Hc). apply bind_Ok in Hc as (db2 & Hins & Hc).
  apply bind_Ok in Hc as (db3 & Hup & Hc). injection Hc as <- _.
  apply fail_if_Ok in Hnew. pose proof (Hrel id) as Hid.
  match type of Hid with match ?x with _ => _ end => destruct x as [r|] eqn:Hm end.
  { destruct Hid as (row & ? & ? & ? & Hrow & _). unfold RunId in *. by rewrite Hrow in Hnew. }
  destruct Hid as [_ Hnoev].
  destruct (created_represented req (new_lease id 1 owner pid) db _ db2 db3 s now _ eq_refl Hpid
    eq_refl eq_refl Hred Hnoev eq_refl Hins Hup) as [Htouch Hrep].
  eexists. split; [eapply (log_create _ id _ s (new_lease id 1 owner pid)); done|].
  eapply sqlite_rel_frame; [by eapply sqlite_rel_update|done..].
Qed.

(** A run the store knows is one the abstract store knows. *)
Lemma projection_known db m id p :
  sqlite_rel db m → read_run_projection db id = Ok (Some p) →
  ∃ r row rows snap s, m !! id = Some r ∧ db_runs db !! id = Some row ∧
    db_events db !! id = Some rows ∧ db_snapshots db !! id = Some snap ∧
    run_rel id row rows snap r s ∧ p = projection_of r s.
Proof.
  intros Hrel Hp. specialize (Hrel id). destruct (m !! id) as [r|] eqn:Hm.
  - destruct Hrel as (row & rows & snap & s & Hrow & Hrows & Hsnap & Hrr).
    rewrite (projection_represented _ _ _ _ _ _ _ Hrow Hrr) in Hp. injection Hp as <-.
    exists r, row, rows, snap, s. by split_and!.
  - destruct Hrel as [Hno _]. unfold read_run_projection in Hp. by rewrite Hno in Hp.
Qed.

(** The row with the lease columns of [r]. *)
Definition with_lease row r : RunRow :=
  row <| row_execution_epoch := Z.of_N (lr_epoch r) |>
      <| row_lease_owner_id := (lease_columns (lr_lease r)).1 |>
      <| row_lease_owner_pid := (lease_columns (lr_lease r)).2 |>.

(** Only the lease columns of a run change. *)
Lemma lease_change_represented db id row rows snap r s r' :
  db_runs db !! id = Some row → db_events db !! id = Some rows →
  db_snapshots db !! id = Some snap → run_rel id row rows snap r s →
  lr_log r' = lr_log r → lease_rel id r' → (is_Some (sn_terminal s) → lr_lease r' = None) →
  let db' := db <| db_runs := <[id := with_lease row r']> (db_runs db) |> in
  only_touches id db db' ∧ run_represented db' id r'.
Proof.
  intros Hrow Hrows Hsnap [Hred Hid Hevs Hnd Hlen [? ? ? ? ? ? ? ?] _ _ Hs] Hlog Hle Hterm db'.
  split.
  - intros id' Hne. cbn. by rewrite lookup_insert_ne.
  - eexists _, rows, snap, s. cbn. rewrite lookup_insert_eq. do 3 (split; [done|]).
    split; rewrite ?Hlog; try done.
Qed.

Lemma acquire_simulated db m alive id owner pid db' a :
  pid ≤ U32_MAX → sqlite_rel db m → acquire_run_sync db alive id owner pid = Ok (db', a) →
  ∃ m', log_step m m' ∧ sqlite_rel db' m'.
Proof.
  intros Hpid Hrel Ha. unfold acquire_run_sync in Ha.
  apply bind_Ok in Ha as (p & Hp & Ha). apply bind_Ok in Ha as (p' & Hp' & Ha).
  apply ok_or_Ok in Hp' as ->.
  destruct (projection_known _ _ _ _ Hrel Hp) as
    (r & row & rows & snap & s & Hm & Hrow & Hrows & Hsnap & Hrr & ->).
  rewrite (replay_represented _ _ _ _ _ _ _ Hrows Hsnap Hrr) in Ha. cbn in Ha.
  destruct (is_some (sn_terminal s)) eqn:Ht.
  { injection Ha as <- _. exists m. split; [constructor|done]. }
  apply bind_Ok in Ha as ([] & _ & Ha). apply bind_Ok in Ha as (next & Hnext & Ha).
  apply bind_Ok in Ha as (current & _ & Ha). apply bind_Ok in Ha as ([db1 n] & Hu & Ha).
  apply bind_Ok in Ha as ([] & Hn & Ha). apply fail_if_Ok in Hn. injection Ha as <- _.
  apply update_run_inv in Hu as (row' & Hrow' & _ & _ & ->); [|done].
  rewrite Hrow in Hrow'. injection Hrow' as <-. apply to_store_i64_Ok in Hnext as [-> Hmax].
  pose proof Hrr as [Hred _ _ _ _ _ [[Hpos Hepmax] _] _ _].
  assert (sat_add64 (lr_epoch r) 1 = lr_epoch r + 1) as Hnext
    by (apply saturating_add_exact; unfold U64_MAX, I64_MAX in *; lia).
  rewrite Hnext in *. set (l := new_lease id (lr_epoch r + 1) owner pid).
  exists (<[id := mkLogRun (lr_log r) (N.min (rl_epoch l) (U64_MAX - 1)) (Some l)]> m).
  assert (N.min (rl_epoch l) (U64_MAX - 1) = lr_epoch r + 1) as Hmin
    by (cbn; unfold U64_MAX, I64_MAX in *; lia).
  split.
  - eapply log_acquire; [done|done|by destruct (sn_terminal s)|done|cbn; lia|].
    cbn. unfold U64_MAX, I64_MAX in *. lia.
  - rewrite Hmin.
    destruct (lease_change_represented db id row rows snap r s
      (mkLogRun (lr_log r) (lr_epoch r + 1) (Some l)) Hrow Hrows Hsnap Hrr eq_refl)
      as [Htouch Hrep].
    + split; cbn; [lia|]. by intros ? [= <-].
    + destruct (sn_terminal s); [done|]. by intros [].
    + by eapply sqlite_rel_update.
Qed.

(** The lease the columns name is the holder's. *)
Lemma lease_current_holder id r s l :
  lease_rel id r → rl_run_id l = id → lease_current (projection_of r s) l = true →
  lr_lease r = Some l.
Proof.
  intros [_ Hl] Hid Hc. unfold lease_current in Hc. bprop. cbn in *.
  destruct (lr_lease r) as [l'|]; cbn in *; [|done].
  destruct (Hl _ eq_refl) as (? & ? & _). destruct l, l'; cbn in *. simplify_eq. congruence.
Qed.

Lemma release_simulated db m l db' :
  sqlite_rel db m → release_run_sync db l = Ok db' → ∃ m', log_step m m' ∧ sqlite_rel db' m'.
Proof.
  intros Hrel Ha. unfold release_run_sync in Ha.
  apply bind_Ok in Ha as (p & Hp & Ha). apply bind_Ok in Ha as (p' & Hp' & Ha).
  apply ok_or_Ok in Hp' as ->.
  destruct (projection_known _ _ _ _ Hrel Hp) as
    (r & row & rows & snap & s & Hm & Hrow & Hrows & Hsnap & Hrr & ->).
  apply bind_Ok in Ha as ([] & Hcur & Ha). apply fail_if_Ok, negb_false_iff in Hcur.
  apply bind_Ok in Ha as (ep & _ & Ha). apply bind_Ok in Ha as ([db1 n] & Hu & Ha).
  apply bind_Ok in Ha as ([] & Hn & Ha). apply fail_if_Ok in Hn. injection Ha as <-.
  apply update_run_inv in Hu as (row' & Hrow' & _ & _ & ->); [|done].
  rewrite Hrow in Hrow'. injection Hrow' as <-.
  pose proof Hrr as [_ _ _ _ _ [_ _ _ _ _ Hep _ _] Hle _ _].
  apply (lease_current_holder (rl_run_id l)) in Hcur; [|done|done].
  eexists. split; [eapply log_release; [done|exact Hcur|done]|].
  destruct (lease_change_represented db (rl_run_id l) row rows snap r s
    (mkLogRun (lr_log r) (lr_epoch r) None) Hrow Hrows Hsnap Hrr eq_refl) as [Htouch Hrep];
    [by destruct Hle|done|].
  unfold with_lease in Htouch, Hrep. cbn in Htouch, Hrep. rewrite <- Hep in Htouch, Hrep.
  eapply sqlite_rel_update; [done| |]; by destruct row.
Qed.

(** ** Appending *)

Definition appended r (e : StoredRuntimeEvent) : LogRun :=
  mkLogRun (lr_log r ++ [e]) (lr_epoch r)
    (if is_terminal (sre_event e) then None else lr_lease r).

Lemma appended_run_rel id row rows snap r s e s' x row' snap' :
  run_rel id row rows snap r s → run_step s e s' →
  sre_event_id e ∉ (sre_event_id <$> lr_log r) → decode_event_row id x = Ok e →
  (Z.of_N (sre_sequence e) ≤ I64_MAX)%Z → snapshot_rel snap' s' →
  row_rel id row' (appended r e) s' →
  run_rel id row' (rows ++ [x])%list snap' (appended r e) s'.
Proof.
  intros [Hred Hid Hevs Hnd [Hlen Hmax] _ [Hep Hle] _ _] Hstep Hfresh Hx Hseq Hsnap Hrow.
  pose proof Hstep as (rid & s1 & Ha & _ & Hs')%run_step_inv.
  apply admit_event_Ok in Ha as (_ & _ & _ & Hnext & _).
  rewrite saturating_add_exact in Hnext by (unfold U64_MAX, I64_MAX in *; lia).
  assert (sn_last_sequence s' = sn_last_sequence s + 1) as Hlast by (by rewrite Hs', <- Hnext).
  split; cbn.
  - rewrite reduce_events_snoc, Hred; [done|]. intros Hn. by rewrite Hn in Hred.
  - by rewrite (step_request _ _ _ Hstep).
  - by apply Forall2_app; [|constructor].
  - rewrite fmap_app, NoDup_app. split_and!; [done| |apply NoDup_singleton].
    intros y Hy Hin%list_elem_of_singleton. by subst.
  - rewrite length_app, Hlast. cbn. split; [lia|]. rewrite Hnext in Hseq. lia.
  - done.
  - split; cbn; [done|]. intros l. destruct (is_terminal _); [done|apply Hle].
  - apply step_terminal in Hstep as [_ ->]. by destruct (sre_event e); intros [].
  - done.
Qed.

(** The columns written for the new snapshot. *)
Lemma appended_row_rel id row r s e s' l timestamp :
  row_rel id row r s → run_step s e s' → lr_lease r = Some l →
  row_rel id
    (row <| row_last_sequence := Z.of_N (sre_sequence e) |>
         <| row_terminal := flag_to_store (is_terminal (sre_event e)) |>
         <| row_lease_owner_id :=
              if is_terminal (sre_event e) then None else row_lease_owner_id row |>
         <| row_lease_owner_pid :=
              if is_terminal (sre_event e) then None else row_lease_owner_pid row |>
         <| row_updated_at_unix_ms := timestamp |>
         <| row_pending_model_attempt_id := (snapshot_model_projection s').1 |>
         <| row_pending_model_in_flight := flag_to_store (snapshot_model_projection s').2 |>)
    (appended r e) s'.
Proof.
  intros [? ? ? ? ? ? Hle ?] Hstep Hl. pose proof (step_request _ _ _ Hstep) as Hreq.
  pose proof (step_terminal _ _ _ Hstep) as [_ Hterm].
  apply run_step_inv in Hstep as (_ & s1 & _ & _ & Hs').
  split; cbn; rewrite ?Hreq; try done.
  - by rewrite Hs'.
  - rewrite Hterm. by destruct (sre_event e).
  - by destruct (is_terminal (sre_event e)).
Qed.

Lemma neutral_event_inv a e (p : RunProjection) :
  snapshot_projection_neutral (sre_event e) = true →
  validate_projection_neutral_event (sre_event e) a p = Ok tt →
  ∃ attempt, proj_pending_model_attempt_id p = Some attempt ∧
    proj_pending_model_in_flight p = true ∧
    ((∃ i d, sre_event e = ContentDelta attempt i d) ∨
     (∃ i d, sre_event e = ReasoningDelta attempt i d)).
Proof.
  intros Hn Hv. unfold validate_projection_neutral_event in Hv.
  destruct (sre_event e) eqn:Hev; try discriminate Hn; inv_run; bprop; eexists;
    (split; [done|]); eauto.
Qed.

(** What the fast path does to a run without a control request is what the reducer does. *)
Lemma neutral_step events r s id e :
  reachable events s → sn_terminal s = None → sn_pending_control s = None →
  snapshot_projection_neutral (sre_event e) = true →
  validate_projection_neutral_event (sre_event e) id (projection_of r s) = Ok tt →
  rr_run_id (sn_request s) = Some (sre_run_id e) →
  sre_schema_version e = AGENT_RUNTIME_EVENT_SCHEMA_VERSION →
  sre_sequence e = sat_add64 (sn_last_sequence s) 1 →
  run_step s e (s <| sn_last_sequence := sre_sequence e |>).
Proof.
  intros Hr Ht Hc Hn Hv Hid Hver Hseq.
  apply (neutral_event_inv id) in Hv as (attempt & Hatt & Hfl & Hev); [|done].
  cbn in Hatt, Hfl. unfold snapshot_model_projection in Hatt, Hfl.
  destruct (sn_pending_model s) as [p|] eqn:Hp; cbn in *; [|done]. bprop. simplify_eq.
  by eapply delta_step.
Qed.

Lemma store_sequence_grows n : (Z.of_N n ≤ I64_MAX)%Z → n ≤ sat_add64 n 1.
Proof. unfold saturating_add, U64_MAX, I64_MAX. lia. Qed.

(** The snapshot an append leaves behind: the reducer's, on both paths. *)
Lemma append_snapshot_step db id row rows snap r s e db1 db2 sn :
  run_rel id row rows snap r s → db_snapshots db !! id = Some snap →
  db_snapshots db1 = db_snapshots db → sn_terminal s = None →
  sre_run_id e = id → sre_schema_version e = AGENT_RUNTIME_EVENT_SCHEMA_VERSION →
  sre_sequence e = sat_add64 (sn_last_sequence s) 1 →
  (snapshot_projection_neutral (sre_event e) = true → sn_pending_control s = None) →
  (if snapshot_projection_neutral (sre_event e)
   then validate_projection_neutral_event (sre_event e) id (projection_of r s)
   else Ok tt) = Ok tt →
  (if snapshot_projection_neutral (sre_event e) then Ok None
   else
     snapshot ← read_persisted_snapshot db id (projection_of r s);
     snapshot ← apply_event snapshot e;
     Ok (Some snapshot)) = Ok sn →
  match sn with
  | Some snapshot => upsert_snapshot db1 id snapshot
  | None => advance_snapshot_sequence db1 id (sn_last_sequence s) (sre_sequence e)
  end = Ok db2 →
  ∃ s' snap', run_step s e s' ∧ snapshot_rel snap' s' ∧
    db2 = db1 <| db_snapshots := <[id := snap']> (db_snapshots db1) |> ∧
    snapshot_model_projection s' =
      match sn with Some snapshot => snapshot_model_projection snapshot
      | None => snapshot_model_projection s end.
Proof.
  intros Hrel Hsnap Hdb1 Ht Hid Hver Hseq Hc Hval Hsn Hup.
  destruct Hrel as [Hred Hrid _ _ [_ Hmax] _ _ _ Hs]. rewrite <- Hdb1 in Hsnap.
  destruct (snapshot_projection_neutral (sre_event e)) eqn:Hn.
  - injection Hsn as <-. apply advance_snapshot_inv with (snap := snap) in Hup
      as (snap' & Hs' & ->); [|done|done|by rewrite Hseq; apply store_sequence_grows].
    eexists _, snap'. split; [|by split_and!].
    eapply neutral_step; [by apply reachable_reduce|done|by apply Hc|done|done|by rewrite Hid|done..].
  - rewrite (read_persisted_rel _ _ snap) in Hsn by (try done; by rewrite <- Hdb1).
    cbn [mbind result_bind] in Hsn. apply bind_Ok in Hsn as (s' & Hs' & [= <-]).
    apply upsert_snapshot_inv in Hup as (snap' & Hsr & ->). by exists s', snap'.
Qed.

Lemma append_stored_represented db id row rows snap r s l e db' :
  db_runs db !! id = Some row → db_events db !! id = Some rows →
  db_snapshots db !! id = Some snap → run_rel id row rows snap r s →
  lr_lease r = Some l → rl_run_id l = id → sn_terminal s = None →
  sre_event_id e ∉ (sre_event_id <$> lr_log r) →
  sre_run_id e = id → sre_schema_version e = AGENT_RUNTIME_EVENT_SCHEMA_VERSION →
  sre_sequence e = sat_add64 (sn_last_sequence s) 1 →
  (snapshot_projection_neutral (sre_event e) = true → sn_pending_control s = None) →
  append_stored db l (projection_of r s) e = Ok db' →
  ∃ s', run_step s e s' ∧ only_touches id db db' ∧ run_represented db' id (appended r e).
Proof.
  intros Hrow Hrows Hsnap Hrel Hl Hlid Ht Hfresh Hid Hver Hseq Hc Ha.
  unfold append_stored in Ha. rewrite Hlid in Ha.
  apply bind_Ok in Ha as ([] & Hval & Ha). apply bind_Ok in Ha as (sn & Hsn & Ha).
  apply bind_Ok in Ha as (db1 & Hins & Ha). apply bind_Ok in Ha as (db2 & Hup & Ha).
  apply insert_event_inv in Hins as (x & Hx & Hmax & Hdb1); [|by rewrite Hver].
  destruct (append_snapshot_step db id row rows snap r s e db1 db2 sn Hrel Hsnap
    ltac:(by rewrite Hdb1) Ht Hid Hver Hseq Hc Hval Hsn Hup)
    as (s' & snap' & Hstep & Hsr & -> & Hmp). subst db1.
  match type of Ha with (let '(_, _) := ?x in _) = _ =>
    replace x with (snapshot_model_projection s') in Ha
      by (rewrite Hmp; destruct sn; [done|apply surjective_pairing]);
    rewrite (surjective_pairing (snapshot_model_projection s')) in Ha end.
  apply bind_Ok in Ha as (z & Hz & Ha). apply to_store_i64_Ok in Hz as [-> _].
  apply bind_Ok in Ha as (t & _ & Ha). apply bind_Ok in Ha as (ep & _ & Ha).
  apply bind_Ok in Ha as ([db3 n] & Hu & Ha). apply bind_Ok in Ha as ([] & Hn & Ha).
  apply fail_if_Ok in Hn. injection Ha as <-.
  apply update_run_inv in Hu as (row' & Hrow' & _ & _ & ->); [|done].
  cbn in Hrow'. rewrite Hrow in Hrow'. injection Hrow' as <-.
  exists s'. split; [done|]. split.
  - intros id' Hne. cbn. rewrite Hid. by rewrite !lookup_insert_ne by done.
  - eexists _, (rows ++ [x])%list, snap', s'. cbn. rewrite Hid, Hrows, !lookup_insert_eq.
    do 3 (split; [done|]). rewrite Hid in Hx. eapply appended_run_rel; try done.
    destruct Hrel. by eapply appended_row_rel.
Qed.

Lemma read_event_by_id_None db id row rows snap r s event_id :
  db_events db !! id = Some rows → run_rel id row rows snap r s →
  read_event_by_id db id event_id = Ok None → event_id ∉ (sre_event_id <$> lr_log r).
Proof.
  intros Hrows [_ _ Hevs _ _ _ _ _ _] Hr (e & -> & He)%list_elem_of_fmap.
  unfold read_event_by_id in Hr. rewrite Hrows in Hr. cbn in Hr.
  destruct (find_first _ rows) as [x|] eqn:Hf; cbn in Hr.
  { by destruct (decode_event_row id x). }
  apply list_elem_of_lookup_1 in He as [i Hi].
  destruct (Forall2_lookup_r _ _ _ _ _ Hevs Hi) as (x & Hx & Hd).
  apply list_elem_of_lookup_2 in Hx. pose proof (find_first_None _ _ _ Hf Hx) as Hne.
  cbn in Hne. apply bool_decide_eq_false in Hne. apply decode_event_row_inv in Hd as (_ & _ & ? & _).
  done.
Qed.

(** A successful append found the event, or its lease is the current one and the event is
    stored under the next sequence number. *)
Lemma append_cases db m l pending now db' e :
  sqlite_rel db m → append_run_event_sync db l pending now = Ok (db', e) →
  (db' = db ∧ read_event_by_id db (rl_run_id l) (pre_event_id pending) = Ok (Some e) ∧
   sre_event e = pre_event pending) ∨
  (∃ r row rows snap s, m !! rl_run_id l = Some r ∧ db_runs db !! rl_run_id l = Some row ∧
     db_events db !! rl_run_id l = Some rows ∧ db_snapshots db !! rl_run_id l = Some snap ∧
     run_rel (rl_run_id l) row rows snap r s ∧ sn_terminal s = None ∧ lr_lease r = Some l ∧
     sre_event_id e ∉ (sre_event_id <$> lr_log r) ∧
     e = mkStoredRuntimeEvent AGENT_RUNTIME_EVENT_SCHEMA_VERSION (rl_run_id l)
           (rr_parent_run_id (sn_request s)) (pre_event_id pending)
           (sat_add64 (sn_last_sequence s) 1) now (pre_event pending) ∧
     append_stored db l (projection_of r s) e = Ok db').
Proof.
  intros Hrel Ha. unfold append_run_event_sync in Ha.
  apply bind_Ok in Ha as (existing & Hex & Ha). destruct existing as [existing|].
  { case_bool_decide; [|done]. injection Ha as <- <-. by left. }
  right. apply bind_Ok in Ha as (p & Hp & Ha). apply bind_Ok in Ha as (p' & Hp' & Ha).
  apply ok_or_Ok in Hp' as ->.
  destruct (projection_known _ _ _ _ Hrel Hp) as
    (r & row & rows & snap & s & Hm & Hrow & Hrows & Hsnap & Hrr & ->).
  apply bind_Ok in Ha as ([] & Hnt & Ha). apply fail_if_Ok in Hnt. cbn in Hnt.
  apply bind_Ok in Ha as ([] & Hcur & Ha). apply fail_if_Ok, negb_false_iff in Hcur.
  match type of Ha with context [append_stored _ _ _ ?x] => remember x as stored eqn:Hst end.
  apply bind_Ok in Ha as (db1 & Ha & Heq). injection Heq as <- <-.
  pose proof Hrr as [_ _ _ _ _ _ Hle _ _].
  apply (lease_current_holder (rl_run_id l)) in Hcur; [|done|done].
  pose proof (read_event_by_id_None _ _ _ _ _ _ _ _ Hrows Hrr Hex) as Hfresh.
  exists r, row, rows, snap, s. split_and!; try done; [by destruct (sn_terminal s)|by subst stored].
Qed.

Lemma append_simulated db m l pending now db' e :
  sqlite_rel db m → append_run_event_sync db l pending now = Ok (db', e) →
  (snapshot_projection_neutral (pre_event pending) = true → ∀ replayed,
     load_run_sync db (rl_run_id l) = Ok (Some replayed) →
     sn_pending_control (replay_snapshot replayed) = None) →
  ∃ m', log_step m m' ∧ sqlite_rel db' m' ∧
    (db' = db ∨ ∃ r s s', m !! rl_run_id l = Some r ∧ lr_lease r = Some l ∧
       reduce_events (lr_log r) = Ok s ∧ run_step s e s' ∧
       m' = <[rl_run_id l := appended r e]> m).
Proof.
  intros Hrel Ha Hc.
  destruct (append_cases _ _ _ _ _ _ _ Hrel Ha) as [(-> & _)|
    (r & row & rows & snap & s & Hm & Hrow & Hrows & Hsnap & Hrr & Ht & Hl & Hfresh & He & Hst)].
  { exists m. split; [constructor|auto]. }
  edestruct (append_stored_represented db (rl_run_id l) row rows snap r s l e db') as
    (s' & Hstep & Htouch & Hrep); try done; try (by subst e).
  { intros Hn. apply (Hc ltac:(by subst e) (mkRunReplay s (lr_log r))).
    by eapply load_represented. }
  pose proof Hrr as [Hred _ _ _ _ _ _ _ _].
  exists (<[rl_run_id l := appended r e]> m).
  split_and!; [|by eapply sqlite_rel_update|right; eauto 10].
  unfold appended. rewrite Hl. eapply log_append; [done|done|done|by subst e|].
  rewrite reduce_events_snoc, Hred; [done|]. intros Hn. by rewrite Hn in Hred.
Qed.

(** ** The interface *)

Lemma sqlite_simulated db db' m :
  sqlite_rel db m → sqlite_op db db' → ∃ m', log_step m m' ∧ sqlite_rel db' m'.
Proof.
  intros Hrel Hop. destruct Hop as [db ? ? ? ? ? db'| | |db l pending now db' e Ha Hc|];
    eauto using create_simulated, acquire_simulated, release_simulated.
  - exists m. split; [constructor|by eapply reserve_simulated].
  - destruct (append_simulated _ _ _ _ _ _ _ Hrel Ha Hc) as (m' & ? & ? & _). eauto.
Qed.

#[global] Instance sqlite_run_log : RunLogStore Database := {
  store_empty := empty_database;
  store_op := sqlite_op;
  store_load := load_run_sync;
}.
#[global] Instance sqlite_run_log_laws : RunLogLaws Database.
Proof.
  refine {| store_rel := sqlite_rel |}.
  - by intros id.
  - intros db db' m. apply sqlite_simulated.
  - intros db m id Hrel. specialize (Hrel id). destruct (m !! id) as [r|]; cbn.
    + destruct Hrel as (row & rows & snap & s & Hrow & Hrows & Hsnap & Hrr). exists s.
      split; [by destruct Hrr|by eapply load_represented].
    + destruct Hrel as [Hno _]. unfold load_run_sync, read_run_projection. by rewrite Hno.
Qed.


Lemma sqlite_reachable_rel db : rtc sqlite_op empty_database db → ∃ m, sqlite_rel db m.
Proof.
  intros Hdb. assert (sqlite_rel empty_database ∅) as Hempty by (by intros id).
  revert Hempty. generalize (∅ : gmap RunId LogRun).
  induction Hdb as [db|db1 db2 db3 Hop _ IH]; intros m Hrel; [by exists m|].
  destruct (sqlite_simulated _ _ _ Hrel Hop) as (m' & _ & Hrel'). by eapply IH.
Qed.


(** ** A delta after a control request *)

Lemma delta_refused_after_control s e :
  rr_run_id (sn_request s) = Some (sre_run_id e) →
  sre_schema_version e = AGENT_RUNTIME_EVENT_SCHEMA_VERSION →
  sre_sequence e = sat_add64 (sn_last_sequence s) 1 → sn_terminal s = None →
  is_Some (sn_pending_control s) → snapshot_projection_neutral (sre_event e) = true →
  apply_event s e = Err (corrupt (sre_run_id e)
    "only settlement events may follow a durable terminal control request").
Proof.
  intros Hid Hver Hseq Ht [c Hc] Hn. unfold apply_event, admit_event, validate_event_header.
  rewrite Hid. cbn. rewrite Hver, Hseq, Ht, Hc. cbn. rewrite !bool_decide_true by done.
  by destruct (sre_event e).
Qed.

Lemma neutral_appended db id row rows snap r s l e db' :
  db_runs db !! id = Some row → db_events db !! id = Some rows →
  run_rel id row rows snap r s → lr_lease r = Some l → rl_run_id l = id →
  sn_terminal s = None → sre_run_id e = id →
  sre_schema_version e = AGENT_RUNTIME_EVENT_SCHEMA_VERSION →
  snapshot_projection_neutral (sre_event e) = true →
  append_stored db l (projection_of r s) e = Ok db' →
  ∃ x row', decode_event_row id x = Ok e ∧ db_events db' !! id = Some (rows ++ [x])%list ∧
    db_runs db' !! id = Some row' ∧
    row_rel id row' r (s <| sn_last_sequence := sre_sequence e |>).
Proof.
  intros Hrow Hrows Hrel Hl Hlid Ht Hid Hver Hn Ha.
  assert (is_terminal (sre_event e) = false) as Hnt by (by destruct (sre_event e)).
  unfold append_stored in Ha. rewrite Hlid, Hn, Hnt in Ha.
  apply bind_Ok in Ha as ([] & _ & Ha). cbn [mbind result_bind] in Ha.
  apply bind_Ok in Ha as (db1 & Hins & Ha). apply bind_Ok in Ha as (db2 & Hup & Ha).
  apply insert_event_inv in Hins as (x & Hx & _ & ->); [|by rewrite Hver].
  assert (db_runs db2 = db_runs db ∧ db_events db2 = <[id := (rows ++ [x])%list]> (db_events db))
    as [Hruns2 Hevs2].
  { unfold advance_snapshot_sequence in Hup. rewrite Hid, Hrows in Hup. inv_run. by subst db2. }
  apply bind_Ok in Ha as (z & Hz & Ha). apply to_store_i64_Ok in Hz as [-> _].
  apply bind_Ok in Ha as (t & _ & Ha). apply bind_Ok in Ha as (ep & _ & Ha).
  apply bind_Ok in Ha as ([db3 n] & Hu & Ha). apply bind_Ok in Ha as ([] & Hn1 & Ha).
  apply fail_if_Ok in Hn1. injection Ha as <-.
  apply update_run_inv in Hu as (row' & Hrow' & _ & _ & ->); [|done].
  rewrite Hruns2, Hrow in Hrow'. injection Hrow' as <-. rewrite Hid in Hx.
  eexists x, _. cbn. rewrite Hevs2, !lookup_insert_eq. do 3 (split; [done|]).
  destruct Hrel as [_ _ _ _ _ [? ? ? ? ? ? ? ?] _ _ _]. split; cbn; try done.
  by rewrite Ht.
Qed.

(** The one place where the SQLite store does not follow the reducer: a delta of the
    attempt in flight is accepted although a control request is pending, because the fast
    path only consults the projection columns.  [apply_event] refuses such an event, so the
    stored log no longer reduces and every later load of the run fails as corrupt. *)
Theorem delta_after_control_makes_run_unreadable db l pending now db' e replayed :
  rtc sqlite_op empty_database db → append_run_event_sync db l pending now = Ok (db', e) →
  read_event_by_id db (rl_run_id l) (pre_event_id pending) = Ok None →
  snapshot_projection_neutral (pre_event pending) = true →
  load_run_sync db (rl_run_id l) = Ok (Some replayed) →
  is_Some (sn_pending_control (replay_snapshot replayed)) →
  load_run_sync db' (rl_run_id l) = Err (corrupt (rl_run_id l)
    "only settlement events may follow a durable terminal control request").
Proof.
  intros (m & Hrel)%sqlite_reachable_rel Ha Hnew Hn Hload Hctl.
  destruct (append_cases _ _ _ _ _ _ _ Hrel Ha) as [(_ & Hex & _)|
    (r & row & rows & snap & s & Hm & Hrow & Hrows & Hsnap & Hrr & Ht & Hl & _ & He & Hst)];
    [congruence|].
  rewrite (load_represented _ _ _ _ _ _ _ Hrow Hrows Hsnap Hrr) in Hload.
  injection Hload as <-. cbn in Hctl.
  pose proof Hrr as [Hred Hid Hevs _ [Hlen Hmax] _ Hle _ _].
  destruct (neutral_appended db (rl_run_id l) row rows snap r s l e db') as
    (x & row' & Hx & Hrows' & Hrow' & Hrow_rel); try done; try (by subst e).
  unfold load_run_sync, read_run_projection. rewrite Hrow'. cbn [map_transpose].
  rewrite (decode_run_row_rel _ _ _ _ Hrow_rel Hle). cbn [mbind result_bind].
  unfold replay_from_conn.
  rewrite (read_events_decoded _ _ (rows ++ [x]) (lr_log r ++ [e])); [|done|..].
  - cbn [mbind result_bind]. rewrite reduce_events_snoc, Hred by (by intros Hz; rewrite Hz in Hred).
    cbn [mbind result_bind].
    rewrite delta_refused_after_control by (subst e; done). by subst e.
  - by apply Forall2_app; [|constructor].
  - intros i y [Hy|[Hi Hy]]%lookup_app_Some; [by eapply run_rel_numbered|].
    apply list_lookup_singleton_Some in Hy as [Hi0 <-]. subst e. cbn.
    rewrite saturating_add_exact by (clear -Hmax; unfold U64_MAX, I64_MAX in *; lia). lia.
Qed.
End sqlite_facts.
