(* ===== verification/TextOps.v ===== *)
(** Operations of the Rust standard library that several components use: the text operations of
    [str] (trimming, splitting on white space, [str::lines], byte searches), UTF-8 as
    [core::str::from_utf8] checks it and [char::encode_utf8] writes it, and [f64] as IEEE 754
    binary64 with round-to-nearest-even, on the Standard Library's executable [spec_float]. *)
From Stdlib Require Import ZArith.
From Stdlib Require Import SpecFloat.
From Stdlib Require Import Ascii String.
From S2P Require Import Prelude.
From S2P Require Import Text.
From S2P Require Import Json.

Open Scope string_scope.
Open Scope N_scope.

(** ** Characters by their code *)

(** The character is the one-byte code point [b]. *)
Definition is_char (b : N) (c : list ascii) : bool :=
  match c with [a] => byte_val a =? b | _ => false end.
Definition char_in (bs : list N) (c : list ascii) : bool := existsb (λ b, is_char b c) bs.

(** [chars.peek() == Some(&b)] *)
Definition peek_is (b : N) (rest : list (list ascii)) : bool :=
  match rest with c :: _ => is_char b c | [] => false end.

(** ** Trimming *)

Fixpoint drop_while {A} (p : A → bool) (l : list A) : list A :=
  match l with [] => [] | x :: l' => if p x then drop_while p l' else l end.
Definition drop_while_end {A} (p : A → bool) (l : list A) : list A :=
  reverse (drop_while p (reverse l)).

Definition trim_start (s : string) : string := of_chars (drop_while white_space_char (chars s)).
Definition trim_end (s : string) : string := of_chars (drop_while_end white_space_char (chars s)).
Definition trim (s : string) : string :=
  of_chars (drop_while_end white_space_char (drop_while white_space_char (chars s))).

(** ** [str::split_whitespace] *)

Fixpoint words_go (cur : list (list ascii)) (cs : list (list ascii)) : list string :=
  let word := match cur with [] => [] | _ => [of_chars (reverse cur)] end in
  match cs with
  | [] => word
  | c :: cs' => if white_space_char c then (word ++ words_go [] cs')%list else words_go (c :: cur) cs'
  end.
Definition split_whitespace (s : string) : list string := words_go [] (chars s).

(** ** Searching *)

Fixpoint is_prefix (p l : list ascii) : bool :=
  match p, l with
  | [], _ => true
  | a :: p', b :: l' => (a ==? b) && is_prefix p' l'
  | _ :: _, [] => false
  end.

(** [str::match_indices] with a non-empty pattern: the start offsets of its occurrences from the
    left, none overlapping the one before ([skip] bytes of which are still to be passed). *)
Fixpoint match_indices_go (p l : list ascii) (i skip : nat) : list nat :=
  match l with
  | [] => []
  | _ :: l' =>
    match skip with
    | S skip' => match_indices_go p l' (S i) skip'
    | O => if is_prefix p l then i :: match_indices_go p l' (S i) (length p - 1)
           else match_indices_go p l' (S i) 0
    end
  end.
Definition match_indices (p l : list ascii) : list nat := match_indices_go p l 0 0.

(** [&s[i..j]] *)
Definition slice {A} (i j : nat) (l : list A) : list A := take (j - i) (drop i l).

(** ** Lemmas *)

Lemma is_prefix_spec p l : is_prefix p l = true ↔ ∃ t, l = (p ++ t)%list.
Proof.
  revert l; induction p as [|a p IH]; intros l; cbn; [naive_solver|].
  destruct l as [|b l]; [naive_solver|].
  rewrite andb_true_iff, bool_decide_eq_true, IH. naive_solver.
Qed.

Lemma drop_while_suffix {A} (p : A → bool) l : ∃ k, l = (k ++ drop_while p l)%list ∧ Forall p k.
Proof.
  induction l as [|x l (k & Hl & Hk)]; [by exists []|]. cbn.
  destruct (p x) eqn:Hx; [|by exists []].
  exists (x :: k). split; [by rewrite Hl at 1|]. constructor; [by rewrite Hx|done].
Qed.
Lemma drop_while_id {A} (p : A → bool) l : Forall (λ x, p x = false) l → drop_while p l = l.
Proof. destruct 1 as [|x l Hx]; cbn; [done|]. by rewrite Hx. Qed.

Lemma find_map_None {A B} (f : A → option B) l x : find_map f l = None → x ∈ l → f x = None.
Proof.
  induction l as [|y l IH]; cbn; [by intros _ ?%elem_of_nil|].
  destruct (f y) eqn:Hy; [done|]. intros H [->|?]%elem_of_cons; auto.
Qed.

(** ** Numbers *)

Definition digit_value (a : ascii) : option N :=
  if is_ascii_digit a then Some (byte_val a - 48) else None.
Fixpoint digits_go (acc : N) (l : list ascii) : option N :=
  match l with
  | [] => Some acc
  | a :: l' => d ← digit_value a; digits_go (acc * 10 + d) l'
  end.
Definition parse_digits (l : list ascii) : option N :=
  match l with [] => None | _ => digits_go 0 l end.

(** [str::parse] at an unsigned type: an optional plus sign, digits, no overflow. *)
Definition parse_unsigned (max : N) (s : string) : option N :=
  let digits := match bytes s with a :: l => if byte_val a =? 43 then l else a :: l | [] => [] end in
  n ← parse_digits digits; if n <=? max then Some n else None.

(** [Value::as_u64]: a number written as digits that fits. *)
Definition as_u64 (v : Value) : option N :=
  match v with
  | VNumber literal =>
    n ← parse_digits (bytes literal); if n <=? U64_MAX then Some n else None
  | _ => None
  end.

(** ** Lines *)

Definition LF : ascii := ascii_of_N 10.
Definition CR : ascii := ascii_of_N 13.
Definition crlf : string := String CR (String LF "").

(** [str::lines]: the pieces ended by a line feed, each without the feed and without a carriage
    return just before it, and the last piece when it is not empty. [cur] is reversed. *)
Definition strip_cr (cur : list ascii) : list ascii :=
  match cur with a :: cur' => if a ==? CR then reverse cur' else reverse cur | [] => [] end.
Fixpoint lines_go (cur : list ascii) (l : list ascii) : list string :=
  match l with
  | [] => match cur with [] => [] | _ => [of_bytes (reverse cur)] end
  | a :: l' => if a ==? LF then of_bytes (strip_cr cur) :: lines_go [] l' else lines_go (a :: cur) l'
  end.
Definition str_lines (s : string) : list string := lines_go [] (bytes s).

(** [s.contains(t)] *)
Fixpoint contains_bytes (t l : list ascii) : bool :=
  is_prefix t l || match l with [] => false | _ :: l' => contains_bytes t l' end.
Definition contains_str (t s : string) : bool := contains_bytes (bytes t) (bytes s).
Definition ends_with_byte (a : ascii) (s : string) : bool := last (bytes s) ==? Some a.

(** [&line[1..]] *)
Definition tail_str (s : string) : string := match s with String _ s' => s' | EmptyString => "" end.

(** [trim_start_matches(c)] *)
Fixpoint trim_start_matches (c : ascii) (s : string) : string :=
  match s with String a s' => if a ==? c then trim_start_matches c s' else s | EmptyString => s end.

(** [s.split_once(c)]'s first part, or the whole string. *)
Definition before_byte (c : ascii) (s : string) : string :=
  default s (head (split_bytes (λ a, a ==? c) s)).

(** [Vec::push] of a value that is not there yet. *)
Definition push_unique (target : list string) (value : string) : list string :=
  if existsb (λ existing, existing ==? value) target then target else (target ++ [value])%list.

(** ** Blank text *)

(** A byte that begins a character which is not white space. *)
Definition dark_byte (a : ascii) : bool :=
  let b := byte_val a in
  negb (is_continuation a) && negb (((9 <=? b) && (b <=? 13)) || (b =? 32))
  && negb (existsb (N.eqb b) [194; 225; 226; 227]).

Lemma dark_byte_char a l : dark_byte a = true → white_space_char (a :: l) = false.
Proof.
  unfold dark_byte, white_space_char. cbn. rewrite !andb_true_iff, !negb_true_iff, !orb_false_iff.
  intros [[_ [Hw H32]] (H194 & H225 & H226 & H227 & _)]. apply N.eqb_neq in H194, H225, H226, H227.
  assert (Hb : (9 <=? byte_val a) && (byte_val a <=? 13) || (byte_val a =? 32) = false)
    by (by rewrite Hw, H32).
  destruct (byte_val <$> l) as [|b l'] eqn:Hl; repeat (case_match; try done); congruence.
Qed.

Lemma chars_go_current cur a l : ∃ k, a :: k ∈ chars_go (cur ++ [a])%list l.
Proof.
  revert cur; induction l as [|b l IH]; intros cur; cbn.
  - destruct (cur ++ [a])%list as [|x ys] eqn:Hc; [by destruct cur|]. rewrite <- Hc.
    exists (reverse cur). rewrite reverse_app. by left.
  - destruct (is_continuation b); [apply (IH (b :: cur))|].
    destruct (cur ++ [a])%list as [|x ys] eqn:Hc; [by destruct cur|]. rewrite <- Hc.
    exists (reverse cur). rewrite reverse_app. by left.
Qed.
Lemma chars_go_start cur p a l :
  is_continuation a = false → ∃ k, a :: k ∈ chars_go cur (p ++ a :: l)%list.
Proof.
  intros Ha. revert cur; induction p as [|b p IH]; intros cur; cbn.
  - rewrite Ha. destruct (chars_go_current [] a l) as [k Hk]. exists k.
    destruct cur; [done|]. by right.
  - destruct (is_continuation b); [apply IH|]. destruct cur; [apply IH|].
    destruct (IH [b]) as [k Hk]. exists k. by right.
Qed.
Lemma dark_not_blank s : existsb dark_byte (bytes s) = true → trim_is_empty s = false.
Proof.
  intros (a & Ha & Hd)%existsb_exists.
  assert (Hc : is_continuation a = false).
  { unfold dark_byte in Hd. rewrite !andb_true_iff, negb_true_iff in Hd. by destruct Hd as [[]]. }
  apply in_split in Ha as (p & l & Hs). unfold trim_is_empty, chars. rewrite Hs.
  destruct (chars_go_start [] p a l Hc) as [k Hk].
  apply not_true_iff_false. intros Hf. rewrite forallb_elem_of in Hf.
  specialize (Hf _ Hk). by rewrite dark_byte_char in Hf.
Qed.

Lemma all_bytes_not_blank (p : ascii → bool) s :
  (∀ a, p a = true → dark_byte a = true ∧ byte_val a ≠ 0) → all_bytes p s = true →
  s ≠ "" → trim_is_empty s = false ∧ contains_nul s = false.
Proof.
  unfold all_bytes. intros Hp Hall Hne. rewrite forallb_elem_of in Hall. split.
  - apply dark_not_blank, existsb_elem_of. destruct s as [|a s]; [done|]. exists a. cbn.
    split; [by left|]. apply Hp, Hall. by left.
  - apply existsb_false_elem_of. intros a Ha. apply N.eqb_neq. by apply Hp, Hall.
Qed.

(** A stable code: a nonempty text of lower-case letters, digits and underscores. *)
Lemma code_byte_dark a :
  is_ascii_lowercase a || is_ascii_digit a || (byte_val a =? 95) = true →
  dark_byte a = true ∧ byte_val a ≠ 0.
Proof.
  unfold is_ascii_lowercase, is_ascii_digit, in_range. intros Ha.
  assert (48 ≤ byte_val a ≤ 57 ∨ 95 ≤ byte_val a ≤ 122) as Hr.
  { rewrite !orb_true_iff, !andb_true_iff, !N.leb_le, N.eqb_eq in Ha. lia. }
  split; [|lia]. unfold dark_byte, is_continuation, in_range. cbn.
  rewrite !andb_true_iff, !negb_true_iff, !orb_false_iff, !andb_false_iff, !N.leb_gt, !N.eqb_neq.
  lia.
Qed.

(** ** Splitting at a byte *)

Open Scope list_scope.

Lemma split_go_app sep cur l a r :
  Forall (λ b, sep b = false) l → sep a = true →
  split_go sep cur (l ++ a :: r) = (reverse cur ++ l) :: split_go sep [] r.
Proof.
  intros Hl Ha. revert cur; induction Hl as [|b l Hb Hl IH]; intros cur; cbn.
  - by rewrite Ha, app_nil_r.
  - rewrite Hb, IH, reverse_cons, <- app_assoc. done.
Qed.
Lemma split_go_none sep cur l :
  Forall (λ b, sep b = false) l → split_go sep cur l = [reverse cur ++ l].
Proof.
  intros Hl. revert cur; induction Hl as [|b l Hb Hl IH]; intros cur; cbn.
  - by rewrite app_nil_r.
  - rewrite Hb, IH, reverse_cons, <- app_assoc. done.
Qed.

Lemma split_go_pieces sep cur l :
  Forall (λ b, sep b = false) cur →
  Forall (Forall (λ b, sep b = false)) (split_go sep cur l).
Proof.
  revert cur; induction l as [|a l IH]; intros cur Hc; cbn.
  - constructor; [by apply Forall_reverse|constructor].
  - destruct (sep a) eqn:Ha; [constructor; [by apply Forall_reverse|by apply IH]|].
    apply IH. by constructor.
Qed.

Lemma bytes_of_bytes l : bytes (of_bytes l) = l.
Proof. induction l; cbn; congruence. Qed.

Lemma split_bytes_pieces sep s : Forall (λ x, all_bytes (λ b, negb (sep b)) x = true) (split_bytes sep s).
Proof.
  unfold split_bytes, all_bytes. apply Forall_fmap.
  eapply Forall_impl; [by apply split_go_pieces|]. intros x Hx. cbn. rewrite bytes_of_bytes.
  apply forallb_elem_of. rewrite Forall_forall in Hx. intros a Ha. by rewrite Hx.
Qed.

(** Joining pieces without the separator and splitting again. *)
Lemma split_join sep c parts :
  sep c = true → parts ≠ [] → Forall (λ x, all_bytes (λ b, negb (sep b)) x = true) parts →
  split_bytes sep (str_join (String c "") parts) = parts.
Proof.
  intros Hc Hne Hall. unfold split_bytes. induction Hall as [|x parts Hx Hall IH]; [done|].
  assert (Forall (λ b, sep b = false) (bytes x)) as Hxs.
  { unfold all_bytes in Hx. rewrite forallb_elem_of in Hx. rewrite Forall_forall. intros a Ha.
    apply negb_true_iff. auto. }
  destruct parts as [|y parts]; cbn [str_join].
  - rewrite split_go_none by done. cbn. by rewrite of_bytes_bytes.
  - rewrite !bytes_app. cbn [bytes app]. rewrite split_go_app by done. cbn [fmap list_fmap].
    unfold reverse. cbn [rev_append app]. rewrite of_bytes_bytes. f_equal. by apply IH.
Qed.

(** ** Characters of UTF-8 *)

(** [char::from_u32]: no surrogate, at most 10FFFF. *)
Definition char_from_u32 (n : N) : option N :=
  if ((55296 <=? n) && (n <=? 57343)) || (1114111 <? n) then None else Some n.

Definition encode_utf8 (c : N) : list ascii :=
  ascii_of_N <$>
  (if c <? 128 then [c]
   else if c <? 2048 then [192 + c / 64; 128 + c mod 64]
   else if c <? 65536 then [224 + c / 4096; 128 + c / 64 mod 64; 128 + c mod 64]
   else [240 + c / 262144; 128 + c / 4096 mod 64; 128 + c / 64 mod 64; 128 + c mod 64]).

(** ** Validation *)

(** [Utf8Error]: the length of the valid part and of the bad sequence, unless the input ends in it. *)
Record Utf8Error := mkUtf8Error { valid_up_to : nat; error_len : option nat }.

Definition Utf8Error_to_string (e : Utf8Error) : string :=
  match error_len e with
  | Some n => ("invalid utf-8 sequence of " ++ show_N (N.of_nat n) ++ " bytes from index "
               ++ show_N (N.of_nat (valid_up_to e)))%string
  | None => ("incomplete utf-8 byte sequence from index " ++ show_N (N.of_nat (valid_up_to e)))%string
  end.

(** The bytes admitted after a first byte: an interval for the second, then continuation bytes. *)
Definition second_byte (first : ascii) : option (N * N * nat) :=
  let b := byte_val first in
  if in_range 194 223 first then Some (128, 191, 0%nat)
  else if b =? 224 then Some (160, 191, 1%nat)
  else if b =? 237 then Some (128, 159, 1%nat)
  else if in_range 225 239 first then Some (128, 191, 1%nat)
  else if b =? 240 then Some (144, 191, 2%nat)
  else if in_range 241 243 first then Some (128, 191, 2%nat)
  else if b =? 244 then Some (128, 143, 2%nat)
  else None.

(** [run_utf8_validation]: what may come next is an interval for one byte and a number of
    continuation bytes after it; [seen] bytes of the character at [start] are read. *)
Fixpoint utf8_go (start seen : nat) (expect : option (N * N * nat)) (l : list ascii) : option Utf8Error :=
  match l with
  | [] => match expect with None => None | Some _ => Some (mkUtf8Error start None) end
  | a :: l' =>
    match expect with
    | Some (lo, hi, more) =>
      if negb (in_range lo hi a) then Some (mkUtf8Error start (Some seen))
      else match more with
      | O => utf8_go (start + S seen) 0 None l'
      | S more' => utf8_go start (S seen) (Some (128, 191, more')) l'
      end
    | None =>
      if is_ascii a then utf8_go (S start) 0 None l'
      else match second_byte a with
      | Some expect => utf8_go start 1 (Some expect) l'
      | None => Some (mkUtf8Error start (Some 1%nat))
      end
    end
  end.

(** [str::from_utf8] *)
Definition from_utf8 (s : string) : result Utf8Error string :=
  match utf8_go 0 0 None (bytes s) with None => Ok s | Some e => Err e end.

(** ** Floating point *)

Abbreviation f64 := spec_float.

Definition f64_zero : f64 := S754_zero false.
Definition f64_add : f64 → f64 → f64 := SFadd 53 1024.
Definition f64_mul : f64 → f64 → f64 := SFmul 53 1024.
Definition f64_div : f64 → f64 → f64 := SFdiv 53 1024.

(** [n as f64] *)
Definition f64_of_N (n : N) : f64 := binary_normalize 53 1024 (Z.of_N n) 0 false.

(** The decimal literal [n / d], for [n] and [d] below 2^53: the correctly rounded quotient of
    two exact numbers is the nearest [f64] of the decimal. *)
Definition f64_literal (n d : N) : f64 := f64_div (f64_of_N n) (f64_of_N d).

(** [<] on [f64] *)
Definition f64_ltb : f64 → f64 → bool := SFltb.

(** [value.is_finite() && value > 0.0] *)
Definition f64_is_positive_finite (value : f64) : bool :=
  match value with S754_finite false _ _ => true | _ => false end.

(** [value.round().min(u64::MAX as f64) as u64] of a non-negative value: half away from zero,
    then the saturating cast. *)
Definition f64_round_to_u64 (value : f64) : N :=
  match value with
  | S754_finite false m e =>
    let rounded :=
      match e with
      | Zneg k => (Npos m + 2 ^ (Npos k - 1)) / 2 ^ Npos k
      | _ => Npos m * 2 ^ Z.to_N e
      end in
    N.min rounded U64_MAX
  | S754_infinity false => U64_MAX
  | _ => 0
  end.
