(* ===== verification/Patch.v ===== *)
(** Unified diffs ([crates/tools/src/apply_patch.rs]): the parser of [apply_patch], the checks it
    makes before any file is read, and the application of hunks to the lines of one file. *)
From Stdlib Require Import Ascii String.
From S2P Require Import Prelude.
From S2P Require Import Text.
From S2P Require Import TextOps.

Open Scope string_scope.
Open Scope N_scope.

(** ** Errors *)

(** [ToolError] ([crates/tools/src/lib.rs]); paths are the strings they display as. *)
Inductive ToolError :=
| SchemaValidation (message : string)
| InvalidInput (message : string)
| MissingField (field : string)
| PathEscape (path : string)
| ExecutionFailed (message : string)
| TimeoutError (seconds : N)
| NotAvailable (message : string)
| PermissionDenied (message : string)
| WorkspacePrecondition (message : string)
| StaleRead (message : string)
| AmbiguousEdit (message : string)
| PatchParse (message : string).
#[export] Instance ToolError_eq_dec : EqDecision ToolError.
Proof. solve_decision. Defined.

Definition ToolError_to_string (e : ToolError) : string :=
  match e with
  | SchemaValidation m => "工具参数不符合 schema：" ++ m
  | InvalidInput m => "工具参数无效：" ++ m
  | MissingField f => "工具参数无效：缺少必填字段 '" ++ f ++ "'"
  | PathEscape p => "路径解析失败：'" ++ p ++ "' 超出工作区"
  | ExecutionFailed m => "工具执行失败：" ++ m
  | TimeoutError s => "工具执行失败：操作在 " ++ show_N s ++ " 秒后超时"
  | NotAvailable m => "找不到工具：" ++ m
  | PermissionDenied m => "工具执行未获授权：" ++ m
  | WorkspacePrecondition m => "工作区前置条件不满足：" ++ m
  | StaleRead m => "工作区在读取后发生变化：" ++ m
  | AmbiguousEdit m => "编辑目标不唯一：" ++ m
  | PatchParse m => "Patch 参数无效：" ++ m
  end.

(** ** Constants *)

Definition MAX_FUZZ : N := 50.
Definition DEFAULT_FUZZ : N := 3.
Definition HUNK_PREVIEW_LINES : nat := 4.
Definition SNIPPET_RADIUS : nat := 2.
Definition FILE_LIST_LIMIT : nat := 6.

(** ** Data *)

Inductive HunkLine :=
| Context (s : string)
| Add (s : string)
| Remove (s : string).
#[export] Instance HunkLine_eq_dec : EqDecision HunkLine.
Proof. solve_decision. Defined.

Record Hunk := mkHunk {
  old_start : N;
  old_count : N;
  new_start : N;
  new_count : N;
  hunk_lines : list HunkLine;
}.
#[export] Instance Hunk_eq_dec : EqDecision Hunk.
Proof. solve_decision. Defined.

Record FilePatch := mkFilePatch {
  fp_path : string;
  fp_hunks : list Hunk;
  fp_delete_after : bool;
  fp_create_if_missing : bool;
  fp_create_from_null : bool;
}.

Record PatchShape := mkPatchShape {
  has_hunks : bool;
  header_files : list string;
  has_create_header : bool;
  has_delete_header : bool;
}.
Definition PatchShape_default : PatchShape := mkPatchShape false [] false false.
Definition file_count (s : PatchShape) : nat := length (header_files s).

(** ** Line endings *)

Definition reassemble_preserving_newlines (lines : list string) (base_content : string) : string :=
  match lines with
  | [] => ""
  | _ =>
    let terminator := if contains_str crlf base_content then crlf else newline in
    let trailing := is_empty_str base_content || ends_with_byte LF base_content in
    let out := str_join terminator lines in
    if trailing then out ++ terminator else out
  end.

(** ** Hunk headers and bodies *)

Definition TAB : ascii := ascii_of_N 9.

(** [range.split(',')] with its first two parts parsed. *)
Definition parse_range (range : string) : result ToolError (N * N) :=
  let parts := split_bytes (λ a, a ==? ","%char) range in
  let part0 := default "" (head parts) in
  start ← ok_or (parse_unsigned U64_MAX part0)
    (InvalidInput ("Invalid line number `" ++ part0 ++
       "` in hunk header. Use positive integers like `12` or `12,3`."));
  count ← match parts with
          | _ :: part1 :: _ =>
            ok_or (parse_unsigned U64_MAX part1)
              (InvalidInput ("Invalid line count `" ++ part1 ++
                 "` in hunk header. Use positive integers like `3`."))
          | _ => Ok 1
          end;
  mret (start, count).

Record BodyState := mkBodyState {
  old_seen : N;
  new_seen : N;
  body_lines : list HunkLine;
  rest_lines : list string;
}.

(** The loop over the body: it stops once both counts are reached, before a line that begins
    another hunk or file, after a line that overshoots a count, and at the end of the patch. *)
Fixpoint hunk_body (old_count new_count old_seen new_seen : N) (acc : list HunkLine)
    (lines : list string) : BodyState :=
  if negb ((old_seen <? old_count) || (new_seen <? new_count))
  then mkBodyState old_seen new_seen acc lines
  else match lines with
  | [] => mkBodyState old_seen new_seen acc []
  | line :: rest =>
    let next old_seen new_seen acc :=
      if (old_count <? old_seen) || (new_count <? new_seen)
      then mkBodyState old_seen new_seen acc rest
      else hunk_body old_count new_count old_seen new_seen acc rest in
    if starts_with "@@" line || starts_with "diff " line
    then mkBodyState old_seen new_seen acc lines
    else if starts_with "-" line
    then next (old_seen + 1) new_seen (acc ++ [Remove (tail_str line)])%list
    else if starts_with "+" line
    then next old_seen (new_seen + 1) (acc ++ [Add (tail_str line)])%list
    else if starts_with " " line || is_empty_str line
    then next (old_seen + 1) (new_seen + 1) (acc ++ [Context (tail_str line)])%list
    else if starts_with "\" line
    then next old_seen new_seen acc
    else next (old_seen + 1) (new_seen + 1) (acc ++ [Context line])%list
  end.

Definition parse_hunk_header (header : string) (lines : list string)
    : result ToolError (Hunk * list string) :=
  let parts := split_whitespace header in
  match parts with
  | _ :: part1 :: part2 :: _ =>
    '(old_start, old_count) ← parse_range (trim_start_matches "-" part1);
    '(new_start, new_count) ← parse_range (trim_start_matches "+" part2);
    let body := hunk_body old_count new_count 0 0 [] lines in
    fail_if ((old_seen body !=? old_count) || (new_seen body !=? new_count))
      (InvalidInput ("Hunk body count mismatch for `" ++ header ++ "`: declared old/new " ++
         show_N old_count ++ "/" ++ show_N new_count ++ ", observed " ++
         show_N (old_seen body) ++ "/" ++ show_N (new_seen body))) ;;
    mret (mkHunk old_start old_count new_start new_count (body_lines body), rest_lines body)
  | _ =>
    Err (InvalidInput ("Invalid hunk header: " ++ header ++
           ". Expected `@@ -start,count +start,count @@`."))
  end.

(** ** Whole patches

    Each turn of the loops consumes at least the line it looks at, so the number of lines is
    fuel enough. *)

Fixpoint parse_hunks (fuel : nat) (lines : list string) : result ToolError (list Hunk) :=
  match fuel, lines with
  | S fuel, line :: rest =>
    if starts_with "@@" line then
      '(hunk, rest) ← parse_hunk_header line rest;
      hunks ← parse_hunks fuel rest;
      mret (hunk :: hunks)
    else parse_hunks fuel rest
  | _, _ => Ok []
  end.
Definition parse_unified_diff (patch : string) : result ToolError (list Hunk) :=
  let lines := str_lines patch in
  parse_hunks (length lines) (drop_while (λ line, negb (starts_with "@@" line)) lines).

Definition normalize_diff_path (raw : string) : option string :=
  let raw := trim (before_byte TAB raw) in
  if is_empty_str raw then None
  else if (raw ==? "/dev/null") || (raw ==? "dev/null") then None
  else Some (match strip_prefix "a/" raw with
             | Some p => p
             | None => default raw (strip_prefix "b/" raw)
             end).

(** The path, and the flags [delete_after], [create_flag], [create_from_null]. *)
Definition resolve_diff_paths (old_path new_path : option string) (create_if_missing : bool)
    : result ToolError (string * bool * bool * bool) :=
  let old_norm := old_path ≫= normalize_diff_path in
  let new_norm := new_path ≫= normalize_diff_path in
  match old_norm, new_norm with
  | Some old, Some new =>
    fail_if (old !=? new)
      (InvalidInput ("Patch rename `" ++ old ++ "` -> `" ++ new ++
         "` is not supported by apply_patch; use an explicit create/delete operation"))
  | _, _ => Ok tt
  end ;;
  let delete_after := is_none new_norm in
  let create_from_null := is_none old_norm && is_some new_norm in
  let create_flag := create_if_missing || create_from_null in
  path ← ok_or (match new_norm with Some p => Some p | None => old_norm end)
    (InvalidInput "Patch is missing both old and new file paths");
  mret (path, delete_after, create_flag, create_from_null).

Record FilesState := mkFilesState {
  fs_files : list FilePatch;
  fs_current : option FilePatch;
  fs_old_path : option string;
}.
Definition take_current (s : FilesState) : list FilePatch :=
  (fs_files s ++ match fs_current s with Some file => [file] | None => [] end)%list.

Fixpoint parse_files (fuel : nat) (create_if_missing : bool) (s : FilesState)
    (lines : list string) : result ToolError (list FilePatch) :=
  match fuel, lines with
  | S fuel, line :: rest =>
    if starts_with "diff --git " line then
      parse_files fuel create_if_missing (mkFilesState (take_current s) None None) rest
    else match strip_prefix "--- " line with
    | Some stripped =>
      parse_files fuel create_if_missing
        (mkFilesState (fs_files s) (fs_current s) (Some (trim stripped))) rest
    | None =>
    match strip_prefix "+++ " line with
    | Some stripped =>
      '(path, delete_after, create_flag, create_from_null) ←
        resolve_diff_paths (fs_old_path s) (Some (trim stripped)) create_if_missing;
      parse_files fuel create_if_missing
        (mkFilesState (take_current s)
           (Some (mkFilePatch path [] delete_after create_flag create_from_null)) None) rest
    | None =>
    if starts_with "@@" line then
      match fs_current s with
      | None =>
        Err (InvalidInput
          (match fs_old_path s with
           | Some path => "Patch hunk encountered after `--- " ++ path ++
               "` but before a matching `+++` header. Each file section must include both headers."
           | None =>
               "Patch hunk encountered before any file header. Add `---`/`+++` headers or provide `path`."
           end))
      | Some file =>
        '(hunk, rest) ← parse_hunk_header line rest;
        parse_files fuel create_if_missing
          (mkFilesState (fs_files s)
             (Some (mkFilePatch (fp_path file) (fp_hunks file ++ [hunk]) (fp_delete_after file)
                      (fp_create_if_missing file) (fp_create_from_null file)))
             (fs_old_path s)) rest
      end
    else parse_files fuel create_if_missing s rest
    end end
  | _, _ => Ok (take_current s)
  end.
Definition parse_unified_diff_files (patch : string) (create_if_missing : bool)
    : result ToolError (list FilePatch) :=
  let lines := str_lines patch in
  parse_files (length lines) create_if_missing (mkFilesState [] None None) lines.

(** ** The shape of a patch *)

Definition hunk_line_counts_for_shape (header : string) : option (N * N) :=
  match split_whitespace header with
  | _ :: part1 :: part2 :: _ =>
    match parse_range (trim_start_matches "-" part1), parse_range (trim_start_matches "+" part2) with
    | Ok (_, old_count), Ok (_, new_count) => Some (old_count, new_count)
    | _, _ => None
    end
  | _ => None
  end.

Definition advance_hunk_shape_counts (line : string) (old_remaining new_remaining : N) : N * N :=
  if starts_with "\" line then (old_remaining, new_remaining)
  else if starts_with "+" line then (old_remaining, new_remaining - 1)
  else if starts_with "-" line then (old_remaining - 1, new_remaining)
  else (old_remaining - 1, new_remaining - 1).

Record ShapeState := mkShapeState {
  sh_shape : PatchShape;
  sh_old_path : option string;
  sh_saw_old_header : bool;
  sh_old_remaining : N;
  sh_new_remaining : N;
}.

Definition inspect_line (s : ShapeState) (line : string) : ShapeState :=
  let shape := sh_shape s in
  if starts_with "@@" line then
    let shape := mkPatchShape true (header_files shape) (has_create_header shape)
                              (has_delete_header shape) in
    match hunk_line_counts_for_shape line with
    | Some (old_count, new_count) =>
      mkShapeState shape (sh_old_path s) (sh_saw_old_header s) old_count new_count
    | None =>
      mkShapeState shape (sh_old_path s) (sh_saw_old_header s) (sh_old_remaining s)
                   (sh_new_remaining s)
    end
  else if (0 <? sh_old_remaining s) || (0 <? sh_new_remaining s) then
    let '(old_remaining, new_remaining) :=
      advance_hunk_shape_counts line (sh_old_remaining s) (sh_new_remaining s) in
    mkShapeState shape (sh_old_path s) (sh_saw_old_header s) old_remaining new_remaining
  else match strip_prefix "--- " line with
  | Some stripped =>
    mkShapeState shape (normalize_diff_path stripped) true (sh_old_remaining s) (sh_new_remaining s)
  | None =>
  match strip_prefix "+++ " line with
  | Some stripped =>
    let new_path := normalize_diff_path stripped in
    let saw := sh_saw_old_header s in
    let resolved := match new_path with Some p => Some p | None => sh_old_path s end in
    let shape :=
      mkPatchShape (has_hunks shape)
        (match resolved with Some p => push_unique (header_files shape) p | None => header_files shape end)
        (has_create_header shape || (saw && is_none (sh_old_path s) && is_some new_path))
        (has_delete_header shape || (saw && is_some (sh_old_path s) && is_none new_path)) in
    mkShapeState shape None false (sh_old_remaining s) (sh_new_remaining s)
  | None => s
  end end.
Definition inspect_patch_shape (patch : string) : PatchShape :=
  sh_shape (foldl inspect_line (mkShapeState PatchShape_default None false 0 0) (str_lines patch)).

Definition format_file_list (files : list string) : string :=
  match files with
  | [] => "<none>"
  | _ =>
    let shown := take FILE_LIST_LIMIT files in
    let remaining := (length files - length shown)%nat in
    str_join ", "
      (if (0 <? remaining)%nat
       then (shown ++ [("... (+" ++ show_N (N.of_nat remaining) ++ " more)")%string])%list else shown)
  end.

Definition validate_patch_shape (shape : PatchShape) (path_override : option string)
    : result ToolError unit :=
  if negb (has_hunks shape) then
    Err (InvalidInput "Patch must include at least one hunk header (`@@ -start,count +start,count @@`).")
  else match path_override with
  | Some _ =>
    if has_create_header shape || has_delete_header shape then
      Err (InvalidInput "`path` cannot override a patch with `/dev/null` create/delete headers; remove `path` so the header operation remains explicit")
    else if (1 <? file_count shape)%nat then
      Err (InvalidInput ("Patch references multiple files (" ++ format_file_list (header_files shape) ++
             ") but `path` was provided. Remove `path` to apply a multi-file patch, or provide a single-file patch."))
    else Ok tt
  | None =>
    if (file_count shape =? 0)%nat then
      Err (InvalidInput "Patch contains hunks but no file headers (`---`/`+++`). Provide `path` or add headers.")
    else Ok tt
  end.

Definition diff_header_mismatch (path_override : string) (shape : PatchShape) : option string :=
  match header_files shape with
  | [header_path] =>
    let override_norm := default path_override (normalize_diff_path path_override) in
    if override_norm ==? header_path then None
    else Some ("注意：patch header 指向 `" ++ header_path ++ "`，但 `path` 覆盖为 `" ++
               override_norm ++ "`。")
  | _ => None
  end.

(** ** Applying hunks to the lines of a file *)

Inductive ApplyHunkError :=
| NoMatch (expected_line adjusted_line : N) (offset : Z)
| Ambiguous (fuzz : nat) (positions : list nat).

Definition old_side (h : Hunk) : list string :=
  omap (λ l, match l with Context s | Remove s => Some s | Add _ => None end) (hunk_lines h).
Definition new_side (h : Hunk) : list string :=
  omap (λ l, match l with Context s | Add s => Some s | Remove _ => None end) (hunk_lines h).

Definition same_line (file_line expected : string) : bool := trim_end file_line ==? trim_end expected.

Definition matches_at_position (lines old_lines : list string) (pos : nat) : bool :=
  if (length lines <? pos + length old_lines)%nat then false
  else forallb (λ '(i, old_line), is_some_and (lines !! (pos + i)%nat)
                                    (λ file_line, same_line file_line old_line))
               (imap pair old_lines).

(** [base.checked_add_signed(offset)] on [usize] *)
Definition checked_add_signed (base : N) (offset : Z) : option N :=
  let r := (Z.of_N base + offset)%Z in
  if (0 <=? r)%Z && (r <=? Z.of_N U64_MAX)%Z then Some (Z.to_N r) else None.

Definition hunk_start (lines : list string) (hunk : Hunk) (cumulative_offset : Z) : nat :=
  let base_idx := if 0 <? old_start hunk then old_start hunk - 1 else 0 in
  N.to_nat (N.min (default 0 (checked_add_signed base_idx cumulative_offset))
                  (N.of_nat (length lines))).

Definition search_range (lines : list string) (start_idx fuzz : nat) : list nat :=
  match fuzz with
  | O => [start_idx]
  | _ => let min := (start_idx - fuzz)%nat in
         let max := Nat.min (start_idx + fuzz) (length lines) in
         seq min (S max - min)
  end.

(** The [for fuzz in 0..=max_fuzz] loop, from [fuzz] with [n] more values to try. *)
Fixpoint fuzz_loop (n : nat) (lines old_lines : list string) (start_idx fuzz : nat)
    : result ApplyHunkError (option (nat * nat)) :=
  match List.filter (matches_at_position lines old_lines) (search_range lines start_idx fuzz) with
  | (_ :: _ :: _) as positions => Err (Ambiguous fuzz positions)
  | [pos] => Ok (Some (fuzz, pos))
  | [] => match n with O => Ok None | S n => fuzz_loop n lines old_lines start_idx (S fuzz) end
  end.

(** The fuzz used, the new lines and the new cumulative offset. *)
Definition apply_hunk (lines : list string) (hunk : Hunk) (max_fuzz : nat) (cumulative_offset : Z)
    : result ApplyHunkError (nat * list string * Z) :=
  let old_lines := old_side hunk in
  let new_lines := new_side hunk in
  let start_idx := hunk_start lines hunk cumulative_offset in
  found ← fuzz_loop max_fuzz lines old_lines start_idx 0;
  match found with
  | Some (fuzz, pos) =>
    let delta := (Z.of_nat (length new_lines) - Z.of_nat (length old_lines))%Z in
    Ok (fuzz, (take pos lines ++ new_lines ++ drop (pos + length old_lines) lines)%list,
        (cumulative_offset + delta)%Z)
  | None =>
    if (match old_lines with [] => true | _ => false end)
       && (match lines with [] => true | _ => (length lines <=? start_idx)%nat end)
    then Ok (O, (lines ++ new_lines)%list, (cumulative_offset + Z.of_nat (length new_lines))%Z)
    else Err (NoMatch (old_start hunk) (N.of_nat start_idx + 1) cumulative_offset)
  end.

(** *** Messages *)

Definition preview_expected_lines (hunk : Hunk) (limit : nat) : list string :=
  match take limit (omap (λ l, match l with
                               | Context s => Some ("   " ++ s)
                               | Remove s => Some ("  -" ++ s)
                               | Add _ => None
                               end) (hunk_lines hunk)) with
  | [] => ["  <no context lines in hunk>"]
  | preview => preview
  end.

(** [{line_no:>4}] *)
Fixpoint pad_left (n : nat) (s : string) : string :=
  match n with O => s | S n => " " ++ pad_left n s end.
Definition right_align (width : nat) (s : string) : string := pad_left (width - length (bytes s)) s.

Definition snippet_around (lines : list string) (line_1_based radius : nat) : list string :=
  match lines with
  | [] => ["  <empty file>"]
  | _ =>
    let center := Nat.min (line_1_based - 1) (length lines - 1) in
    let start := (center - radius)%nat in
    let stop := Nat.min (center + radius) (length lines - 1) in
    imap (λ idx line, "  " ++ right_align 4 (show_N (N.of_nat (start + idx + 1))) ++ ": " ++ line)
         (slice start (S stop) lines)
  end.

(** [{offset:+}] *)
Definition show_signed (z : Z) : string :=
  if (z <? 0)%Z then "-" ++ show_N (Z.to_N (- z)) else "+" ++ show_N (Z.to_N z).

Definition format_hunk_no_match_error (lines : list string) (hunk : Hunk) (err : ApplyHunkError)
    (max_fuzz : nat) : string :=
  match err with
  | NoMatch expected_line adjusted_line offset =>
    "在第 " ++ show_N expected_line ++ " 行附近找不到匹配上下文（实际搜索第 " ++
    show_N adjusted_line ++ " 行附近，偏移 " ++ show_signed offset ++ "，最大 fuzz=" ++
    show_N (N.of_nat max_fuzz) ++ "）。期望上下文：" ++ newline ++
    str_join newline (preview_expected_lines hunk HUNK_PREVIEW_LINES) ++ newline ++
    "当前文件片段：" ++ newline ++
    str_join newline (snippet_around lines (N.to_nat adjusted_line) SNIPPET_RADIUS)
  | Ambiguous fuzz positions =>
    "在 fuzz=" ++ show_N (N.of_nat fuzz) ++ " 时匹配到多个位置（行号：" ++
    str_join ", " ((λ p, show_N (N.of_nat (p + 1))) <$> positions) ++ "），拒绝猜测目标"
  end.

Record HunkApplyStats := mkHunkApplyStats {
  hs_hunks_applied : N;
  hs_fuzz_used : N;
  hs_hunks_with_fuzz : N;
}.
Definition HunkApplyStats_default := mkHunkApplyStats 0 0 0.

Definition hunk_failure (file_label : string) (idx total : nat) (lines : list string) (hunk : Hunk)
    (err : ApplyHunkError) (fuzz : nat) : ToolError :=
  let message := "无法对 `" ++ file_label ++ "` 应用第 " ++ show_N (N.of_nat (idx + 1)) ++ "/" ++
    show_N (N.of_nat total) ++ " 个 hunk：" ++ format_hunk_no_match_error lines hunk err fuzz in
  match err with
  | NoMatch _ _ _ => WorkspacePrecondition message
  | Ambiguous _ _ => AmbiguousEdit message
  end.

Fixpoint apply_hunks_loop (idx total : nat) (fuzz : nat) (file_label : string)
    (lines : list string) (cumulative_offset : Z) (stats : HunkApplyStats) (hunks : list Hunk)
    : result ToolError (list string * HunkApplyStats) :=
  match hunks with
  | [] => Ok (lines, stats)
  | hunk :: hunks' =>
    match apply_hunk lines hunk fuzz cumulative_offset with
    | Ok (fuzz_used, lines', cumulative_offset') =>
      let stats := mkHunkApplyStats (hs_hunks_applied stats + 1)
        (hs_fuzz_used stats + N.of_nat fuzz_used)
        (hs_hunks_with_fuzz stats + (if (0 <? fuzz_used)%nat then 1 else 0)) in
      apply_hunks_loop (S idx) total fuzz file_label lines' cumulative_offset' stats hunks'
    | Err e => Err (hunk_failure file_label idx total lines hunk e fuzz)
    end
  end.
Definition apply_hunks_to_lines (lines : list string) (hunks : list Hunk) (fuzz : nat)
    (file_label : string) : result ToolError (list string * HunkApplyStats) :=
  apply_hunks_loop 0 (length hunks) fuzz file_label lines 0 HunkApplyStats_default hunks.
