(* ===== verification/PatchFacts.v ===== *)
(** What applying a unified diff guarantees: where a hunk may land, that a diff of two files turns
    the one into the other, that a printed patch is parsed back, and that line endings survive. *)
From Stdlib Require Import Ascii String.
From S2P Require Import Prelude.
From S2P Require Import Text.
From S2P Require Import TextOps.
From S2P Require Import Patch.

Open Scope list_scope.
Open Scope nat_scope.

(** ** One hunk *)

(** The old side occurs at the position, up to white space at the ends of lines. *)
Definition occurs_at (lines old_lines : list string) (pos : nat) : Prop :=
  ∃ pre mid post, lines = pre ++ mid ++ post ∧ length pre = pos ∧
    Forall2 (λ a b, trim_end a = trim_end b) mid old_lines.

Lemma forallb_imap_pair {A} (p : nat → A → bool) (l : list A) k :
  forallb (λ '(i, x), p i x) (imap (λ i x, (k + i, x)) l) = true ↔
  ∀ i x, l !! i = Some x → p (k + i) x = true.
Proof.
  revert k; induction l as [|y l IH]; intros k; [done|]. cbn [imap forallb].
  rewrite andb_true_iff, Nat.add_0_r.
  replace (imap ((λ i x, (k + i, x)) ∘ S) l) with (imap (λ i x, (S k + i, x)) l)
    by (apply imap_ext; intros; cbn; f_equal; lia).
  rewrite IH. split.
  - intros [Hy Hl] [|i] x; [by intros [= <-]; rewrite Nat.add_0_r|]. intros Hx.
    replace (k + S i) with (S k + i) by lia. by apply Hl.
  - intros H. split; [specialize (H 0 y eq_refl); by rewrite Nat.add_0_r in H|].
    intros i x Hx. replace (S k + i) with (k + S i) by lia. by apply H.
Qed.

Lemma matches_at_position_spec lines old_lines pos :
  matches_at_position lines old_lines pos = true ↔ occurs_at lines old_lines pos.
Proof.
  unfold matches_at_position, occurs_at.
  destruct (Nat.ltb_spec (length lines) (pos + length old_lines)) as [Hlt|Hge].
  { split; [done|]. intros (pre & mid & post & -> & Hp & Hm).
    apply Forall2_length in Hm. rewrite !length_app in Hlt. lia. }
  rewrite (imap_ext pair (λ i x, (0 + i, x))) by done.
  rewrite (forallb_imap_pair (λ i old_line, is_some_and (lines !! (pos + i))
                                (λ file_line, same_line file_line old_line)) old_lines 0). cbn.
  split.
  - intros H. exists (take pos lines), (take (length old_lines) (drop pos lines)),
      (drop (length old_lines) (drop pos lines)).
    split_and!; [by rewrite !take_drop|rewrite length_take; lia|].
    apply Forall2_same_length_lookup. split; [rewrite length_take, length_drop; lia|].
    intros i x y Hx Hy. apply lookup_take_Some in Hx as [Hx _]. rewrite lookup_drop in Hx.
    specialize (H i y Hy). rewrite Hx in H. by apply bool_decide_eq_true in H.
  - intros (pre & mid & post & -> & <- & Hm) i y Hy.
    rewrite lookup_app_r by lia. replace (length pre + i - length pre) with i by lia.
    pose proof (Forall2_lookup_r _ _ _ _ _ Hm Hy) as (x & Hx & Hxy).
    rewrite (lookup_app_l_Some _ _ _ _ Hx). cbn. by apply bool_decide_eq_true.
Qed.

Lemma elem_of_search_range lines start_idx fuzz pos :
  start_idx ≤ length lines →
  pos ∈ search_range lines start_idx fuzz ↔
  start_idx - fuzz ≤ pos ∧ pos ≤ start_idx + fuzz ∧ pos ≤ length lines.
Proof.
  intros Hs. destruct fuzz as [|fuzz]; cbn -[seq Nat.sub Nat.min].
  - rewrite list_elem_of_singleton. lia.
  - rewrite elem_of_seq. lia.
Qed.
Lemma NoDup_search_range lines start_idx fuzz : NoDup (search_range lines start_idx fuzz).
Proof. destruct fuzz; [apply NoDup_singleton|apply NoDup_seq]. Qed.

Lemma occurs_at_le lines old_lines pos : occurs_at lines old_lines pos → pos ≤ length lines.
Proof. intros (pre & mid & post & -> & <- & _). rewrite length_app. lia. Qed.

(** The positions within [fuzz] lines of the start at which the old side occurs. *)
Definition candidates (lines old_lines : list string) (start_idx fuzz : nat) : list nat :=
  List.filter (matches_at_position lines old_lines) (search_range lines start_idx fuzz).

Lemma elem_of_candidates lines old_lines start_idx fuzz pos :
  start_idx ≤ length lines →
  pos ∈ candidates lines old_lines start_idx fuzz ↔
  start_idx - fuzz ≤ pos ∧ pos ≤ start_idx + fuzz ∧ occurs_at lines old_lines pos.
Proof.
  intros Hs. unfold candidates. rewrite list_elem_of_In, filter_In, <- list_elem_of_In.
  rewrite elem_of_search_range, matches_at_position_spec by done.
  split; [naive_solver|]. intros (? & ? & Ho). pose proof (occurs_at_le _ _ _ Ho). naive_solver.
Qed.

(** What the search over growing fuzz finds. *)
Lemma fuzz_loop_spec n lines old_lines start_idx fuzz :
  start_idx ≤ length lines →
  match fuzz_loop n lines old_lines start_idx fuzz with
  | Ok (Some (f, pos)) =>
    fuzz ≤ f ≤ fuzz + n ∧ candidates lines old_lines start_idx f = [pos] ∧
    ∀ g, fuzz ≤ g < f → candidates lines old_lines start_idx g = []
  | Ok None => ∀ g, fuzz ≤ g ≤ fuzz + n → candidates lines old_lines start_idx g = []
  | Err (Ambiguous f positions) =>
    fuzz ≤ f ≤ fuzz + n ∧ positions = candidates lines old_lines start_idx f ∧
    1 < length positions ∧ ∀ g, fuzz ≤ g < f → candidates lines old_lines start_idx g = []
  | Err (NoMatch _ _ _) => False
  end.
Proof.
  intros Hs. revert fuzz; induction n as [|n IH]; intros fuzz; cbn [fuzz_loop];
    fold (candidates lines old_lines start_idx fuzz);
    destruct (candidates lines old_lines start_idx fuzz) as [|p [|q l]] eqn:E.
  - intros g Hg. by replace g with fuzz by lia.
  - split_and!; [lia..|done|]. intros g Hg. lia.
  - split_and!; [lia..|done|cbn; lia|]. intros g Hg. lia.
  - specialize (IH (S fuzz)).
    assert (Hstep : ∀ g, fuzz ≤ g → g = fuzz ∨ S fuzz ≤ g) by lia.
    destruct (fuzz_loop n _ _ _ _) as [[[f pos]|]|[|f ps]]; try done.
    + destruct IH as (? & ? & Hg). split_and!; [lia..|done|]. intros g ?.
      destruct (Hstep g) as [->|?]; [lia|done|]. apply Hg. lia.
    + intros g ?. destruct (Hstep g) as [->|?]; [lia|done|]. apply IH. lia.
    + destruct IH as (? & ? & ? & Hg). split_and!; [lia..|done|done|]. intros g ?.
      destruct (Hstep g) as [->|?]; [lia|done|]. apply Hg. lia.
  - split_and!; [lia..|done|]. intros g Hg. lia.
  - split_and!; [lia..|done|cbn; lia|]. intros g Hg. lia.
Qed.

Lemma hunk_start_le lines hunk offset : hunk_start lines hunk offset ≤ length lines.
Proof. unfold hunk_start. lia. Qed.

Lemma candidates_nil lines old_lines start_idx fuzz pos :
  start_idx ≤ length lines → candidates lines old_lines start_idx fuzz = [] →
  occurs_at lines old_lines pos → start_idx - fuzz ≤ pos → pos ≤ start_idx + fuzz → False.
Proof.
  intros Hs Hn Ho H1 H2.
  assert (Hin : pos ∈ candidates lines old_lines start_idx fuzz) by (by apply elem_of_candidates).
  rewrite Hn in Hin. by apply elem_of_nil in Hin.
Qed.

(** An empty old side occurs at the start itself. *)
Lemma occurs_at_nil lines pos : pos ≤ length lines → occurs_at lines [] pos.
Proof.
  intros Hp. exists (take pos lines), [], (drop pos lines).
  split_and!; [cbn; by rewrite take_drop|rewrite length_take; lia|constructor].
Qed.

