(* ===== verification/PatchRoundtrip.v ===== *)
(** Round trips of the patch tool: a printed diff is parsed back, the diff between two texts turns
    the one into the other, and a file keeps its line endings. *)
From Stdlib Require Import Ascii String.
From S2P Require Import Prelude.
From S2P Require Import Text.
From S2P Require Import TextOps.
From S2P Require Import Patch.
From S2P Require Import PatchFacts.

Open Scope string_scope.
Open Scope list_scope.
Open Scope N_scope.

(** ** Decimal numbers *)

Lemma pretty_N_char_digit d :
  d < 10 → digit_value (pretty_N_char d) = Some d ∧ is_ascii_digit (pretty_N_char d) = true.
Proof.
  intros Hd. assert (Hc : d ∈ [0;1;2;3;4;5;6;7;8;9]).
  { rewrite !elem_of_cons. lia. }
  rewrite !elem_of_cons, elem_of_nil in Hc.
  by destruct Hc as [->|[->|[->|[->|[->|[->|[->|[->|[->|[->|[]]]]]]]]]]].
Qed.

Lemma digits_go_pretty_N_go x s : digits_go 0 (bytes (pretty_N_go x s)) = digits_go x (bytes s).
Proof.
  revert s; induction (N.lt_wf_0 x) as [x _ IH]; intros s.
  destruct (decide (0 < x)) as [Hx|Hx].
  - rewrite pretty_N_go_step by done. rewrite IH by (by apply N.div_lt).
    destruct (pretty_N_char_digit (x `mod` 10)) as [Hd _]; [by apply N.mod_lt|].
    cbn [bytes digits_go]. rewrite Hd. cbn. f_equal.
    rewrite N.mul_comm. symmetry. by apply N.div_mod.
  - by replace x with 0 by lia.
Qed.
Lemma pretty_N_go_digits x s :
  Forall (λ a, is_ascii_digit a = true) (bytes s) →
  Forall (λ a, is_ascii_digit a = true) (bytes (pretty_N_go x s)).
Proof.
  revert s; induction (N.lt_wf_0 x) as [x _ IH]; intros s Hs.
  destruct (decide (0 < x)) as [Hx|Hx].
  - rewrite pretty_N_go_step by done. apply IH; [by apply N.div_lt|].
    constructor; [|done]. apply pretty_N_char_digit. by apply N.mod_lt.
  - by replace x with 0 by lia.
Qed.
Lemma show_N_digits n : Forall (λ a, is_ascii_digit a = true) (bytes (show_N n)).
Proof.
  unfold show_N, pretty, pretty_N. case_decide; [by repeat constructor|].
  by apply pretty_N_go_digits.
Qed.
Lemma digits_go_show_N n : digits_go 0 (bytes (show_N n)) = Some n.
Proof.
  unfold show_N, pretty, pretty_N. case_decide; [by subst|]. by rewrite digits_go_pretty_N_go.
Qed.
Lemma show_N_cons n : ∃ a l, bytes (show_N n) = a :: l.
Proof.
  destruct (bytes (show_N n)) as [|a l] eqn:E; [|by exists a, l].
  pose proof (digits_go_show_N n) as H. pose proof (digits_go_show_N (n + 1)) as H'. exfalso.
  assert (Hn : show_N n = "") by (by rewrite <- (of_bytes_bytes (show_N n)), E).
  rewrite E in H. cbn in H. injection H as <-. vm_compute in Hn. done.
Qed.

Lemma digit_not a b : is_ascii_digit a = true → is_ascii_digit b = false → a ≠ b.
Proof. congruence. Qed.

Lemma parse_unsigned_show_N max n : n ≤ max → parse_unsigned max (show_N n) = Some n.
Proof.
  intros Hn. unfold parse_unsigned. destruct (show_N_cons n) as (a & l & E).
  pose proof (show_N_digits n) as Hd. pose proof (digits_go_show_N n) as Hg. rewrite E in *.
  apply Forall_cons in Hd as [Ha _].
  destruct (N.eqb_spec (byte_val a) 43) as [E43|_].
  { unfold is_ascii_digit, in_range in Ha. rewrite E43 in Ha. done. }
  cbn [parse_digits]. rewrite Hg. cbn. by rewrite (proj2 (N.leb_le _ _) Hn).
Qed.

(** ** Hunk ranges *)

Definition range_text (start count : N) : string := (show_N start ++ "," ++ show_N count)%string.

Lemma parse_range_text start count :
  start ≤ U64_MAX → count ≤ U64_MAX → parse_range (range_text start count) = Ok (start, count).
Proof.
  intros Hs Hc. unfold parse_range, range_text, split_bytes.
  assert (Hno : ∀ n, Forall (λ b, (λ a, a ==? ","%char) b = false) (bytes (show_N n))).
  { intros n. eapply Forall_impl; [apply show_N_digits|]. intros a Ha.
    apply bool_decide_eq_false. by apply digit_not. }
  rewrite !bytes_app. cbn [bytes app]. rewrite split_go_app, split_go_none by (done || apply Hno).
  change (reverse []) with (@nil ascii). cbn [app fmap list_fmap].
  rewrite !of_bytes_bytes. cbn -[parse_unsigned]. by rewrite !parse_unsigned_show_N.
Qed.

(** *** ASCII text *)

Definition single (a : ascii) : list ascii := [a].

Lemma ascii_not_continuation a : is_ascii a = true → is_continuation a = false.
Proof.
  unfold is_continuation, in_range, is_ascii. intros Ha%N.leb_le.
  apply andb_false_iff. left. apply N.leb_gt. lia.
Qed.
Lemma chars_go_ascii x l :
  Forall (λ a, is_ascii a = true) l → chars_go [x] l = single x :: (single <$> l).
Proof.
  intros Hl. revert x; induction Hl as [|a l Ha Hl IH]; intros x; [done|]. cbn [chars_go].
  rewrite ascii_not_continuation, IH by done. done.
Qed.
Lemma chars_ascii s : Forall (λ a, is_ascii a = true) (bytes s) → chars s = single <$> bytes s.
Proof.
  unfold chars. destruct (bytes s) as [|a l]; [done|]. intros [Ha Hl]%Forall_cons.
  cbn [chars_go]. rewrite ascii_not_continuation by done. by apply chars_go_ascii.
Qed.
Lemma mjoin_single l : mjoin (single <$> l) = l.
Proof. induction l as [|a l IH]; cbn; [done|]. by f_equal. Qed.

(** Words: ASCII text without white space. *)
Definition word_byte (a : ascii) : bool := is_ascii a && negb (white_space_char [a]).
Definition is_word (l : list ascii) : Prop := l ≠ [] ∧ Forall (λ a, word_byte a = true) l.

Lemma words_go_word cur l :
  Forall (λ a, word_byte a = true) l →
  ∀ rest, words_go (single <$> cur) ((single <$> l) ++ rest) =
          words_go (single <$> (reverse l ++ cur)) rest.
Proof.
  intros Hl. revert cur; induction Hl as [|a l Ha Hl IH]; intros cur rest; [done|].
  unfold word_byte in Ha. apply andb_true_iff in Ha as [_ Ha%negb_true_iff].
  cbn [fmap list_fmap app words_go]. change (single a) with [a] at 1. rewrite Ha.
  change (words_go (single <$> (a :: cur)) ((single <$> l) ++ rest) =
          words_go (single <$> (reverse (a :: l) ++ cur)) rest).
  rewrite IH, reverse_cons, <- app_assoc. done.
Qed.
Lemma words_go_flush l rest :
  is_word l →
  words_go (single <$> reverse l) (single " "%char :: rest) = of_bytes l :: words_go [] rest ∧
  words_go (single <$> reverse l) [] = [of_bytes l].
Proof.
  intros [Hne _]. assert (Hrev : of_chars (reverse (single <$> reverse l)) = of_bytes l).
  { unfold of_chars. rewrite <- fmap_reverse, reverse_involutive, mjoin_single. done. }
  destruct (single <$> reverse l) as [|c cs] eqn:E.
  { destruct Hne. apply fmap_nil_inv in E. by rewrite <- (reverse_involutive l), E. }
  cbn -[reverse]. rewrite Hrev. done.
Qed.

(** A line of words separated by single spaces splits into them. *)
Fixpoint spaced (ws : list (list ascii)) : list ascii :=
  match ws with [] => [] | [w] => w | w :: ws' => w ++ " "%char :: spaced ws' end.

Lemma words_go_spaced ws :
  Forall is_word ws → words_go [] (single <$> spaced ws) = of_bytes <$> ws.
Proof.
  induction 1 as [|w ws Hw Hws IH]; [done|].
  pose proof (words_go_word [] w (proj2 Hw)) as Hgo. cbn [fmap list_fmap] in Hgo.
  destruct ws as [|w2 ws].
  - change (spaced [w]) with w. rewrite <- (app_nil_r (single <$> w)), Hgo, app_nil_r.
    exact (proj2 (words_go_flush w [] Hw)).
  - change (spaced (w :: w2 :: ws)) with (w ++ " "%char :: spaced (w2 :: ws)).
    rewrite fmap_app, Hgo, app_nil_r, fmap_cons.
    rewrite (proj1 (words_go_flush w _ Hw)), IH. done.
Qed.
Lemma is_word_ascii l : is_word l → Forall (λ a, is_ascii a = true) l.
Proof.
  intros [_ Hl]. eapply Forall_impl; [exact Hl|]. intros a Ha.
  by apply andb_true_iff in Ha as [Ha _].
Qed.
Lemma spaced_ascii ws : Forall is_word ws → Forall (λ a, is_ascii a = true) (spaced ws).
Proof.
  induction 1 as [|w ws Hw Hws IH]; [constructor|].
  destruct ws as [|w2 ws]; [by apply is_word_ascii|].
  change (spaced (w :: w2 :: ws)) with (w ++ " "%char :: spaced (w2 :: ws)).
  apply Forall_app. split; [by apply is_word_ascii|]. by constructor.
Qed.
Lemma split_whitespace_spaced s ws :
  Forall is_word ws → bytes s = spaced ws → split_whitespace s = of_bytes <$> ws.
Proof.
  intros Hws Hs. unfold split_whitespace.
  rewrite chars_ascii by (rewrite Hs; by apply spaced_ascii).
  rewrite Hs. by apply words_go_spaced.
Qed.

(** ** Printing hunks *)

Definition header_words (h : Hunk) : list (list ascii) :=
  [bytes "@@"; bytes ("-" ++ range_text (old_start h) (old_count h))%string;
   bytes ("+" ++ range_text (new_start h) (new_count h))%string; bytes "@@"].
(** [@@ -old_start,old_count +new_start,new_count @@] *)
Definition header_text (h : Hunk) : string := of_bytes (spaced (header_words h)).
Definition line_text (l : HunkLine) : string :=
  match l with
  | Context s => String " "%char s
  | Add s => String "+"%char s
  | Remove s => String "-"%char s
  end.
Definition print_hunk (h : Hunk) : list string := header_text h :: (line_text <$> hunk_lines h).
Definition print_hunks (hs : list Hunk) : list string := mjoin (print_hunk <$> hs).

Definition is_old (l : HunkLine) : bool := match l with Add _ => false | _ => true end.
Definition is_new (l : HunkLine) : bool := match l with Remove _ => false | _ => true end.
Definition count_lines (p : HunkLine → bool) (ls : list HunkLine) : N :=
  N.of_nat (length (List.filter p ls)).

(** A hunk whose header counts its lines and fits [usize]. *)
Definition hunk_ok (h : Hunk) : Prop :=
  old_count h = count_lines is_old (hunk_lines h) ∧
  new_count h = count_lines is_new (hunk_lines h) ∧
  old_start h ≤ U64_MAX ∧ old_count h ≤ U64_MAX ∧ new_start h ≤ U64_MAX ∧ new_count h ≤ U64_MAX.

Lemma word_bytes_range start count :
  Forall (λ a, word_byte a = true) (bytes (range_text start count)).
Proof.
  assert (Hw : ∀ n, Forall (λ a, word_byte a = true) (bytes (show_N n))).
  { intros n. eapply Forall_impl; [apply show_N_digits|]. intros a Ha.
    destruct a as [[] [] [] [] [] [] [] []]; vm_compute in Ha |- *; done. }
  unfold range_text. rewrite !bytes_app. apply Forall_app. split; [apply Hw|].
  apply Forall_cons. split; [done|apply Hw].
Qed.
Lemma header_words_ok h : Forall is_word (header_words h).
Proof.
  assert (Hat : is_word (bytes "@@")) by (split; [done|by repeat constructor]).
  constructor; [done|constructor; [|constructor; [|by constructor]]];
    (split; [done|constructor; [done|apply word_bytes_range]]).
Qed.

Lemma header_text_starts h : starts_with "@@" (header_text h) = true.
Proof. done. Qed.

Lemma trim_start_sign c n count :
  is_ascii_digit c = false →
  trim_start_matches c (String c (range_text n count)) = range_text n count.
Proof.
  intros Hc. cbn [trim_start_matches]. rewrite bool_decide_true by done.
  destruct (show_N_cons n) as (a & l & E). pose proof (show_N_digits n) as Hd. rewrite E in Hd.
  apply Forall_cons in Hd as [Ha _]. unfold range_text. rewrite <- (of_bytes_bytes (show_N n)), E.
  cbn [of_bytes]. change (String a (of_bytes l) ++ "," ++ show_N count)%string with
    (String a (of_bytes l ++ "," ++ show_N count)%string).
  cbn [trim_start_matches]. rewrite bool_decide_false; [done|]. by apply digit_not.
Qed.

Lemma parse_header h lines :
  hunk_ok h →
  parse_hunk_header (header_text h) lines =
  (let body := hunk_body (old_count h) (new_count h) 0 0 [] lines in
   fail_if ((old_seen body !=? old_count h) || (new_seen body !=? new_count h))
      (InvalidInput ("Hunk body count mismatch for `" ++ header_text h ++ "`: declared old/new " ++
         show_N (old_count h) ++ "/" ++ show_N (new_count h) ++ ", observed " ++
         show_N (old_seen body) ++ "/" ++ show_N (new_seen body))%string) ;;
   mret (mkHunk (old_start h) (old_count h) (new_start h) (new_count h) (body_lines body),
         rest_lines body)).
Proof.
  intros (_ & _ & H1 & H2 & H3 & H4). unfold parse_hunk_header.
  assert (Hb : bytes (header_text h) = spaced (header_words h)).
  { unfold header_text. generalize (spaced (header_words h)). intros l. induction l; cbn; congruence. }
  rewrite (split_whitespace_spaced _ _ (header_words_ok h) Hb).
  unfold header_words. cbn [fmap list_fmap]. rewrite !of_bytes_bytes.
  change ("-" ++ range_text (old_start h) (old_count h))%string
    with (String "-" (range_text (old_start h) (old_count h))).
  change ("+" ++ range_text (new_start h) (new_count h))%string
    with (String "+" (range_text (new_start h) (new_count h))).
  rewrite !trim_start_sign, !parse_range_text by done. done.
Qed.

Lemma line_text_tests l :
  starts_with "@@" (line_text l) || starts_with "diff " (line_text l) = false ∧
  starts_with "-" (line_text l) = negb (is_new l) ∧
  starts_with "+" (line_text l) = negb (is_old l) ∧
  (starts_with " " (line_text l) || is_empty_str (line_text l)) = is_old l && is_new l ∧
  tail_str (line_text l) = match l with Context s | Add s | Remove s => s end.
Proof. by destruct l. Qed.

(** The body loop reads back the printed lines. *)
Lemma hunk_body_print ls rest oc nc os ns acc :
  os + count_lines is_old ls = oc → ns + count_lines is_new ls = nc →
  hunk_body oc nc os ns acc ((line_text <$> ls) ++ rest) = mkBodyState oc nc (acc ++ ls) rest.
Proof.
  revert os ns acc; induction ls as [|l ls IH]; intros os ns acc Ho Hn.
  - unfold count_lines in *. cbn in Ho, Hn. rewrite N.add_0_r in Ho, Hn. subst.
    cbn [fmap list_fmap app]. rewrite app_nil_r.
    destruct rest; cbn [hunk_body]; by rewrite !N.ltb_irrefl.
  - assert (Hcount : ∀ p, count_lines p (l :: ls) = (if p l then 1 else 0) + count_lines p ls).
    { intros p. unfold count_lines. cbn [List.filter]. destruct (p l); cbn [length]; lia. }
    rewrite Hcount in Ho, Hn.
    change ((line_text <$> l :: ls) ++ rest) with (line_text l :: ((line_text <$> ls) ++ rest)).
    cbn [hunk_body].
    assert (Hgo : negb ((os <? oc) || (ns <? nc)) = false).
    { apply negb_false_iff, orb_true_iff. rewrite !N.ltb_lt. destruct l; cbn in Ho, Hn; lia. }
    rewrite Hgo. destruct (line_text_tests l) as (-> & -> & -> & -> & ->).
    destruct l as [s|s|s]; cbn [is_old is_new negb andb] in *;
      rewrite !(proj2 (N.ltb_ge _ _)) by lia; cbn [orb];
      rewrite IH by lia; by rewrite <- app_assoc.
Qed.

Lemma parse_print_hunk h rest :
  hunk_ok h → parse_hunk_header (header_text h) ((line_text <$> hunk_lines h) ++ rest) = Ok (h, rest).
Proof.
  intros Hok. rewrite parse_header by done. destruct Hok as (Ho & Hn & _).
  rewrite hunk_body_print by (rewrite N.add_0_l; done). cbn -[bool_decide].
  rewrite !bool_decide_true by done. cbn. by destruct h.
Qed.

Lemma parse_print_hunks fuel hs :
  Forall hunk_ok hs → (length hs ≤ fuel)%nat → parse_hunks fuel (print_hunks hs) = Ok hs.
Proof.
  intros Hok. revert fuel; induction Hok as [|h hs Hh Hok IH]; intros [|fuel] Hf; cbn in Hf;
    try done; [lia|].
  change (print_hunks (h :: hs)) with
    (header_text h :: ((line_text <$> hunk_lines h) ++ print_hunks hs)).
  cbn [parse_hunks]. rewrite header_text_starts, parse_print_hunk by done. cbn [mbind result_bind].
  rewrite IH by lia. done.
Qed.

(** ** Lines and line endings *)

Lemma bytes_inj s t : bytes s = bytes t → s = t.
Proof. intros H. by rewrite <- (of_bytes_bytes s), H, of_bytes_bytes. Qed.

(** A line that [str::lines] can return whatever the ending: no line feed, no carriage return at
    its end. *)
Definition clean (s : string) : Prop := LF ∉ bytes s ∧ last (bytes s) ≠ Some CR.

Inductive ending := Unix | Windows.
Definition ending_text (e : ending) : string := match e with Unix => newline | Windows => crlf end.
(** The text of the lines, each ended but perhaps the last. *)
Definition text_of (e : ending) (trailing : bool) (ls : list string) : string :=
  (str_join (ending_text e) ls ++ (if trailing then ending_text e else ""))%string.

Lemma lines_go_line e cur l r :
  LF ∉ l → last (reverse cur ++ l) ≠ Some CR →
  lines_go cur (l ++ bytes (ending_text e) ++ r) = of_bytes (reverse cur ++ l) :: lines_go [] r.
Proof.
  revert cur; induction l as [|a l IH]; intros cur Hl Hcr.
  - rewrite app_nil_r in *. destruct e.
    + change (bytes (ending_text Unix) ++ r) with (LF :: r). cbn [app lines_go].
      rewrite bool_decide_true by done. f_equal. f_equal.
      destruct cur as [|c cur]; [done|]. unfold strip_cr.
      rewrite reverse_cons, last_snoc in Hcr. by rewrite bool_decide_false by congruence.
    + change (bytes (ending_text Windows) ++ r) with (CR :: LF :: r). cbn [app lines_go].
      rewrite bool_decide_false by done. rewrite bool_decide_true by done. f_equal.
  - apply not_elem_of_cons in Hl as [Ha Hl]. cbn [app lines_go].
    rewrite bool_decide_false by congruence. rewrite IH; rewrite ?reverse_cons, <- ?app_assoc; done.
Qed.
Lemma lines_go_last l : LF ∉ l → ∀ cur, (reverse cur ++ l) ≠ [] →
  lines_go cur l = [of_bytes (reverse cur ++ l)].
Proof.
  induction l as [|a l IH]; intros Hl cur Hne.
  - rewrite app_nil_r in *. destruct cur; [done|]. done.
  - apply not_elem_of_cons in Hl as [Ha Hl]. cbn [lines_go].
    rewrite bool_decide_false by congruence.
    rewrite IH; rewrite ?reverse_cons, <- ?app_assoc; try done.
Qed.

Definition last_line_ok (trailing : bool) (ls : list string) : Prop :=
  trailing = false → last ls ≠ Some "".

Lemma text_of_cons e trailing l l2 ls :
  text_of e trailing (l :: l2 :: ls) = (l ++ ending_text e ++ text_of e trailing (l2 :: ls))%string.
Proof.
  unfold text_of. change (str_join (ending_text e) (l :: l2 :: ls)) with
    (l ++ ending_text e ++ str_join (ending_text e) (l2 :: ls))%string.
  apply bytes_inj. rewrite !bytes_app, <- !app_assoc. done.
Qed.

Lemma str_lines_text_of e trailing ls :
  Forall clean ls → ls ≠ [] → last_line_ok trailing ls → str_lines (text_of e trailing ls) = ls.
Proof.
  intros Hc Hne Hlast. unfold str_lines. induction Hc as [|l ls [Hl Hcr] Hc IH]; [done|].
  destruct ls as [|l2 ls].
  - unfold text_of. cbn [str_join]. rewrite bytes_app. destruct trailing.
    + rewrite <- (app_nil_r (bytes (ending_text e))), lines_go_line by done.
      change (reverse []) with (@nil ascii). cbn [app lines_go]. by rewrite of_bytes_bytes.
    + cbn [bytes]. rewrite app_nil_r, lines_go_last; [by change (reverse []) with (@nil ascii);
        cbn [app]; rewrite of_bytes_bytes|done|].
      change (reverse []) with (@nil ascii). cbn [app]. intros E. apply (Hlast eq_refl).
      cbn. f_equal. by apply bytes_inj.
  - rewrite text_of_cons, !bytes_app, lines_go_line by done.
    change (reverse []) with (@nil ascii). cbn [app]. rewrite of_bytes_bytes. f_equal.
    apply IH; [done|]. intros Ht. by apply Hlast in Ht.
Qed.

(** *** What [reassemble_preserving_newlines] reads off the base text *)

Lemma contains_bytes_app_r t l k : contains_bytes t k = true → contains_bytes t (l ++ k) = true.
Proof. induction l as [|a l IH]; [done|]. intros Hk. cbn. by rewrite IH, orb_true_r. Qed.
Lemma contains_bytes_intro t l r : t ≠ [] → contains_bytes t (l ++ t ++ r) = true.
Proof.
  intros Ht. apply contains_bytes_app_r. destruct t as [|a t]; [done|].
  cbn [app contains_bytes]. apply orb_true_iff. left. apply is_prefix_spec. by exists r.
Qed.

Lemma crlf_prefix a l : is_prefix [CR; LF] (a :: l) = true → a = CR ∧ head l = Some LF.
Proof.
  intros [t Ht]%is_prefix_spec. injection Ht as -> ->. done.
Qed.
Lemma no_crlf_without_lf l : LF ∉ l → contains_bytes [CR; LF] l = false.
Proof.
  induction l as [|a l IH]; [done|]. intros [Ha Hl]%not_elem_of_cons. cbn [contains_bytes].
  rewrite IH by done. destruct (is_prefix _ _) eqn:E; [|done].
  apply crlf_prefix in E as [_ E]. destruct l as [|b l]; [done|]. injection E as ->.
  destruct Hl. left.
Qed.
Lemma no_crlf_after_line l r :
  LF ∉ l → last l ≠ Some CR → contains_bytes [CR; LF] (l ++ LF :: r) = contains_bytes [CR; LF] r.
Proof.
  induction l as [|a l IH]; [done|]. intros [Ha Hl]%not_elem_of_cons Hcr. cbn [app contains_bytes].
  rewrite IH; [|done|by destruct l].
  destruct (is_prefix _ _) eqn:E; [|done]. apply crlf_prefix in E as [-> E].
  destruct l as [|b l]; [done|]. injection E as ->. destruct Hl. left.
Qed.

Lemma text_of_unix_no_crlf trailing ls :
  Forall clean ls → contains_str crlf (text_of Unix trailing ls) = false.
Proof.
  intros Hc. unfold contains_str. change (bytes crlf) with [CR; LF].
  induction Hc as [|l ls [Hl Hcr] Hc IH]; [by destruct trailing|].
  destruct ls as [|l2 ls].
  - unfold text_of. cbn [str_join]. rewrite bytes_app. destruct trailing.
    + change (bytes (ending_text Unix)) with [LF]. by rewrite no_crlf_after_line.
    + cbn [bytes]. rewrite app_nil_r. by apply no_crlf_without_lf.
  - rewrite text_of_cons, !bytes_app. change (bytes (ending_text Unix)) with [LF].
    cbn [app]. by rewrite no_crlf_after_line.
Qed.
Lemma text_of_windows_crlf trailing ls :
  ls ≠ [] → (trailing = true ∨ 1 < length ls)%nat →
  contains_str crlf (text_of Windows trailing ls) = true.
Proof.
  intros Hne Hor. unfold contains_str. destruct ls as [|l [|l2 ls]]; [done|..].
  - destruct Hor as [->|?]; [|cbn in *; lia]. unfold text_of. cbn [str_join]. rewrite bytes_app.
    rewrite <- (app_nil_r (bytes (ending_text Windows))). by apply contains_bytes_intro.
  - rewrite text_of_cons, !bytes_app. by apply contains_bytes_intro.
Qed.

Lemma ends_with_lf e trailing ls :
  Forall clean ls → ls ≠ [] → last_line_ok trailing ls →
  ends_with_byte LF (text_of e trailing ls) = trailing.
Proof.
  intros Hc Hne Hlast. unfold ends_with_byte.
  induction Hc as [|l ls [Hl Hcr] Hc IH]; [done|]. destruct ls as [|l2 ls].
  - unfold text_of. cbn [str_join]. rewrite bytes_app. destruct trailing.
    + apply bool_decide_eq_true. destruct e; cbn; by rewrite last_app_cons.
    + cbn [bytes]. rewrite app_nil_r. apply bool_decide_eq_false. intros E.
      by apply last_Some_elem_of in E.
  - rewrite text_of_cons, !bytes_app.
    assert (Hne2 : bytes (text_of e trailing (l2 :: ls)) ≠ []).
    { intros E. assert (Hs : str_lines (text_of e trailing (l2 :: ls)) = []) by (unfold str_lines; by rewrite E).
      rewrite str_lines_text_of in Hs; [done|done|done|]. intros Ht. by apply Hlast in Ht. }
    rewrite app_assoc. destruct (bytes (text_of e trailing (l2 :: ls))) as [|b k] eqn:E; [done|].
    rewrite last_app_cons. apply IH; [done|]. intros Ht. by apply Hlast in Ht.
Qed.

(** A text with one style of line ending: the lines come back from it, and lines put in their
    place get the same endings and the same end of file. *)
Lemma line_endings_preserved e trailing ls new :
  Forall clean ls → ls ≠ [] → new ≠ [] → last_line_ok trailing ls →
  (e = Unix ∨ trailing = true ∨ 1 < length ls)%nat →
  str_lines (text_of e trailing ls) = ls ∧
  reassemble_preserving_newlines new (text_of e trailing ls) = text_of e trailing new.
Proof.
  intros Hc Hne Hnew Hlast Hstyle. split; [by apply str_lines_text_of|].
  unfold reassemble_preserving_newlines. destruct new as [|n new]; [done|].
  rewrite ends_with_lf by done.
  assert (Hempty : is_empty_str (text_of e trailing ls) = false).
  { apply bool_decide_eq_false. intros E.
    assert (Hs : str_lines (text_of e trailing ls) = []) by (by rewrite E).
    by rewrite str_lines_text_of in Hs. }
  rewrite Hempty. cbn [orb].
  assert (Hterm : (if contains_str crlf (text_of e trailing ls) then crlf else newline) = ending_text e).
  { destruct e; [by rewrite text_of_unix_no_crlf|]. rewrite text_of_windows_crlf; try done.
    destruct Hstyle as [|Hstyle]; [done|exact Hstyle]. }
  rewrite Hterm. unfold text_of. destruct trailing; [done|].
  apply bytes_inj. by rewrite bytes_app, app_nil_r.
Qed.

(** ** The diff between two texts

    An edit keeps some lines and then changes some, as the lines of one hunk; after the last
    edit the rest is kept. *)

Definition edit : Type := list string * list HunkLine.
Definition old_of (ls : list HunkLine) : list string :=
  omap (λ l, match l with Context s | Remove s => Some s | Add _ => None end) ls.
Definition new_of (ls : list HunkLine) : list string :=
  omap (λ l, match l with Context s | Add s => Some s | Remove _ => None end) ls.
Fixpoint old_text (edits : list edit) (rest : list string) : list string :=
  match edits with [] => rest | (k, h) :: es => k ++ old_of h ++ old_text es rest end.
Fixpoint new_text (edits : list edit) (rest : list string) : list string :=
  match edits with [] => rest | (k, h) :: es => k ++ new_of h ++ new_text es rest end.

Definition len {A} (l : list A) : N := N.of_nat (length l).

(** The hunks of the unified diff, the texts so far having [op] and [np] lines: a side without
    lines is placed after the line before it, as the format demands. *)
Fixpoint diff_hunks (op np : N) (edits : list edit) : list Hunk :=
  match edits with
  | [] => []
  | (k, h) :: es =>
    let os := op + len k in
    let ns := np + len k in
    let oc := len (old_of h) in
    let nc := len (new_of h) in
    mkHunk (if oc =? 0 then os else os + 1) oc (if nc =? 0 then ns else ns + 1) nc h
    :: diff_hunks (os + oc) (ns + nc) es
  end.

(** Every edit touches an old line, except perhaps an insertion at the very top. *)
Definition anchored (edits : list edit) : Prop :=
  match edits with
  | [] => True
  | (k, h) :: es => (old_of h ≠ [] ∨ k = []) ∧ Forall (λ e, old_of e.2 ≠ []) es
  end.

Lemma len_app {A} (l k : list A) : len (l ++ k) = len l + len k.
Proof. unfold len. rewrite length_app. lia. Qed.

(** A hunk whose old side stands exactly where its header and the offset say. *)
Lemma apply_hunk_exact pre post h max_fuzz offset :
  (Z.of_N (if (0 <? old_start h)%N then old_start h - 1 else 0) + offset = Z.of_nat (length pre))%Z →
  len pre ≤ U64_MAX →
  apply_hunk (pre ++ old_side h ++ post) h max_fuzz offset =
  Ok (O, pre ++ new_side h ++ post,
      (offset + (Z.of_nat (length (new_side h)) - Z.of_nat (length (old_side h))))%Z).
Proof.
  intros Hpos Hmax. set (lines := pre ++ old_side h ++ post).
  assert (Hstart : hunk_start lines h offset = length pre).
  { unfold hunk_start, checked_add_signed. rewrite Hpos. unfold len in Hmax.
    rewrite (proj2 (Z.leb_le _ _)) by lia. rewrite (proj2 (Z.leb_le _ _)) by lia.
    cbn [andb default]. unfold lines, id. rewrite !length_app. lia. }
  unfold apply_hunk. rewrite Hstart.
  assert (Hm : matches_at_position lines (old_side h) (length pre) = true).
  { apply matches_at_position_spec. exists pre, (old_side h), post. split_and!; [done..|].
    by apply Forall_Forall2_diag, Forall_true. }
  destruct max_fuzz; cbn [fuzz_loop search_range List.filter]; rewrite Hm; cbn [mbind result_bind];
    unfold lines; rewrite take_app_length, <- drop_drop, !drop_app_length; done.
Qed.

Lemma diff_hunks_length op np edits : length (diff_hunks op np edits) = length edits.
Proof. revert op np; induction edits as [|[k h] es IH]; intros op np; cbn; [done|]. by rewrite IH. Qed.

(** The hunks of a diff apply in turn, each at the place the edits before it moved it to. *)
Lemma apply_diff_hunks idx total fuzz label done_ op edits rest stats :
  (Forall (λ e, old_of e.2 ≠ []) edits ∨ op = 0 ∧ done_ = [] ∧ anchored edits) →
  op + len (old_text edits rest) ≤ U64_MAX →
  len (done_ ++ new_text edits rest) ≤ U64_MAX →
  apply_hunks_loop idx total fuzz label (done_ ++ old_text edits rest)
    (Z.of_N (len done_) - Z.of_N op) stats (diff_hunks op (len done_) edits) =
  Ok (done_ ++ new_text edits rest,
      mkHunkApplyStats (hs_hunks_applied stats + len edits) (hs_fuzz_used stats)
                       (hs_hunks_with_fuzz stats)).
Proof.
  revert idx done_ op stats; induction edits as [|[k h] es IH];
    intros idx done_ op stats Ha Ho Hn.
  - cbn. rewrite N.add_0_r. by destruct stats.
  - cbn [diff_hunks old_text new_text apply_hunks_loop] in *.
    set (hunk := mkHunk _ _ _ _ h).
    assert (Hold : old_side hunk = old_of h) by done.
    assert (Hnew : new_side hunk = new_of h) by done.
    replace (done_ ++ k ++ old_of h ++ old_text es rest)
      with ((done_ ++ k) ++ old_side hunk ++ old_text es rest) by (by rewrite Hold, <- !app_assoc).
    rewrite !len_app in *.
    rewrite apply_hunk_exact.
    + rewrite Hold, Hnew. change (0 <? 0)%nat with false. cbn match.
      replace ((done_ ++ k) ++ new_of h ++ old_text es rest)
        with ((done_ ++ k ++ new_of h) ++ old_text es rest) by (by rewrite <- !app_assoc).
      replace (len done_ + len k + len (new_of h)) with (len (done_ ++ k ++ new_of h))
        by (rewrite !len_app; lia).
      replace (Z.of_N (len done_) - Z.of_N op + (Z.of_nat (length (new_of h)) - Z.of_nat (length (old_of h))))%Z
        with (Z.of_N (len (done_ ++ k ++ new_of h)) - Z.of_N (op + len k + len (old_of h)))%Z
        by (rewrite !len_app; unfold len; lia).
      rewrite IH; cbn [hs_hunks_applied hs_fuzz_used hs_hunks_with_fuzz].
      * rewrite <- !app_assoc. do 3 f_equal; rewrite ?N.add_0_r; try done. unfold len. cbn [length]. lia.
      * left. destruct Ha as [Ha|(_ & _ & _ & Ha)]; [by inversion Ha|done].
      * lia.
      * rewrite !len_app. lia.
    + subst hunk. cbn [old_start]. rewrite length_app. unfold len in *.
      destruct (N.eqb_spec (N.of_nat (length (old_of h))) 0) as [E|E].
      * destruct Ha as [Ha|(-> & -> & [Ha|Ha] & _)].
        -- inversion Ha as [|? ? Hh _]; subst. cbn in Hh. by destruct (old_of h).
        -- by destruct (old_of h).
        -- subst. cbn. done.
      * destruct (N.ltb_spec 0 (op + N.of_nat (length k) + 1)); lia.
    + rewrite len_app. lia.
Qed.

Lemma clean_header h : clean (header_text h).
Proof.
  assert (Hb : bytes (header_text h) = spaced (header_words h)).
  { unfold header_text. generalize (spaced (header_words h)). intros l. induction l; cbn; congruence. }
  assert (Hall : Forall (λ a, a ≠ LF ∧ a ≠ CR) (spaced (header_words h))).
  { pose proof (header_words_ok h) as Hw. clear Hb. induction Hw as [|w ws [_ Hw] Hws IH]; [constructor|].
    assert (Hw' : Forall (λ a, a ≠ LF ∧ a ≠ CR) w).
    { eapply Forall_impl; [exact Hw|]. intros a Ha. split; intros ->; by vm_compute in Ha. }
    destruct ws as [|w2 ws]; [done|].
    change (spaced (w :: w2 :: ws)) with (w ++ " "%char :: spaced (w2 :: ws)).
    apply Forall_app. split; [done|]. by constructor. }
  unfold clean. rewrite Hb. split.
  - intros Hin. rewrite Forall_forall in Hall. by destruct (Hall _ Hin).
  - intros Hl%last_Some_elem_of. rewrite Forall_forall in Hall. by destruct (Hall _ Hl).
Qed.
Lemma clean_line_text l :
  clean (match l with Context s | Add s | Remove s => s end) → clean (line_text l).
Proof.
  intros [Hl Hcr].
  destruct l as [s|s|s]; (split; cbn [line_text bytes];
    [apply not_elem_of_cons; by split|by destruct (bytes s)]).
Qed.

Definition clean_edits (edits : list edit) : Prop :=
  Forall (λ e, Forall (λ l, clean (match l with Context s | Add s | Remove s => s end)) e.2) edits.

Lemma clean_print_hunks op np edits :
  clean_edits edits → Forall clean (print_hunks (diff_hunks op np edits)).
Proof.
  intros Hc. revert op np; induction Hc as [|[k h] es Hh Hc IH]; intros op np; [constructor|].
  cbn [diff_hunks].
  match goal with |- context [print_hunks (?x :: ?xs)] =>
    change (print_hunks (x :: xs)) with (header_text x :: ((line_text <$> hunk_lines x) ++ print_hunks xs)) end.
  constructor; [apply clean_header|]. apply Forall_app. split; [|apply IH].
  apply Forall_fmap. eapply Forall_impl; [exact Hh|]. intros l Hl. by apply clean_line_text.
Qed.

Lemma count_old ls : count_lines is_old ls = len (old_of ls).
Proof. unfold count_lines, len. f_equal. induction ls as [|[] ls IH]; cbn; [done|..]; first [exact IH|f_equal; exact IH]. Qed.
Lemma count_new ls : count_lines is_new ls = len (new_of ls).
Proof. unfold count_lines, len. f_equal. induction ls as [|[] ls IH]; cbn; [done|..]; first [exact IH|f_equal; exact IH]. Qed.

Lemma diff_hunks_ok op np edits rest :
  op + len (old_text edits rest) < U64_MAX → np + len (new_text edits rest) < U64_MAX →
  Forall hunk_ok (diff_hunks op np edits).
Proof.
  revert op np; induction edits as [|[k h] es IH]; intros op np Ho Hn; cbn [diff_hunks]; [constructor|].
  cbn [old_text new_text] in *. rewrite !len_app in *. constructor.
  - unfold hunk_ok. cbn [old_count new_count old_start new_start hunk_lines].
    rewrite count_old, count_new. repeat case_match; lia.
  - apply IH; lia.
Qed.

(** C25: The patch tool undoes [diff]. Take any edits of a text that touch at least one old line
    each (or insert at the top): the unified diff of the old and new text, printed, is parsed back
    to its hunks; applied to the old lines, at any fuzz limit, they give exactly the new lines,
    every hunk at its stated place; and a file written with one style of line ending is put back
    together in that style, with or without its final line ending as before. *)
Theorem diff_turns_old_into_new edits rest e trailing fuzz label
    (Hne : edits ≠ []) (Ha : anchored edits)
    (Hc : clean_edits edits) (Hco : Forall clean (old_text edits rest))
    (Ho : len (old_text edits rest) < U64_MAX) (Hn : len (new_text edits rest) < U64_MAX) :
  let old := old_text edits rest in
  let new := new_text edits rest in
  let hunks := diff_hunks 0 0 edits in
  parse_unified_diff (text_of Unix true (print_hunks hunks)) = Ok hunks ∧
  apply_hunks_to_lines old hunks fuzz label = Ok (new, mkHunkApplyStats (len edits) 0 0) ∧
  (old ≠ [] → new ≠ [] → last_line_ok trailing old →
   (e = Unix ∨ trailing = true ∨ 1 < length old)%nat →
   str_lines (text_of e trailing old) = old ∧
   reassemble_preserving_newlines new (text_of e trailing old) = text_of e trailing new).
Proof.
  cbn zeta. split_and!.
  - unfold parse_unified_diff.
    assert (Hne' : print_hunks (diff_hunks 0 0 edits) ≠ []) by (by destruct edits as [|[]]).
    rewrite str_lines_text_of by (done || by apply clean_print_hunks).
    assert (Hdrop : drop_while (λ line, negb (starts_with "@@" line)) (print_hunks (diff_hunks 0 0 edits))
                    = print_hunks (diff_hunks 0 0 edits)).
    { destruct edits as [|[k h] es]; [done|]. cbn [diff_hunks].
      match goal with |- context [print_hunks (?x :: ?xs)] =>
        change (print_hunks (x :: xs)) with (header_text x :: ((line_text <$> hunk_lines x) ++ print_hunks xs)) end.
      cbn [drop_while]. by rewrite header_text_starts. }
    rewrite Hdrop. apply parse_print_hunks; [by apply (diff_hunks_ok 0 0 edits rest); rewrite N.add_0_l|].
    clear. generalize (diff_hunks 0 0 edits). intros hs. induction hs as [|h hs IH]; [done|].
    change (print_hunks (h :: hs)) with (header_text h :: ((line_text <$> hunk_lines h) ++ print_hunks hs)).
    cbn [length]. rewrite length_app. lia.
  - pose proof (apply_diff_hunks 0 (length (diff_hunks 0 0 edits)) fuzz label [] 0 edits rest
      HunkApplyStats_default) as H.
    apply H; [by right|rewrite N.add_0_l; lia|cbn [app]; lia].
  - intros. by apply line_endings_preserved.
Qed.

(** A hunk without old lines lands one line early. The format says that such a hunk stands after
    the line its header names; the tool puts it before that line, as if it began there. *)
Theorem zero_context_insertion_lands_early pre line post h max_fuzz :
  old_side h = [] → old_start h = len (pre ++ [line]) → len (pre ++ [line]) ≤ U64_MAX →
  ∃ offset, apply_hunk (pre ++ [line] ++ post) h max_fuzz 0 =
            Ok (O, pre ++ new_side h ++ [line] ++ post, offset).
Proof.
  intros Hold Hstart Hmax. rewrite len_app in *. change (len [line]) with 1 in *.
  pose proof (apply_hunk_exact pre ([line] ++ post) h max_fuzz 0) as H.
  rewrite Hold in H. cbn [app] in *. eexists. apply H; [|lia].
  rewrite Hstart. unfold len in *. destruct (N.ltb_spec 0 (N.of_nat (length pre) + 1)); lia.
Qed.
