(* ===== verification/PatchFiles.v ===== *)
(** Writing a patch to the workspace ([crates/tools/src/apply_patch.rs], [atomic_write.rs]): the
    writes a request plans, the publication of each, and the rollback when one fails.

    The file system is a state: files with their content and permission bits, and directories.
    Paths are absolute and canonical, as lists of components.  Every operating-system call takes
    the next entry of a list of faults, so a theorem about all lists covers every failure.

    Writing a patch is all or nothing, whatever call of the operating system fails. *)
From Stdlib Require Import Ascii String.
From S2P Require Import Prelude.
From S2P Require Import Text.
From S2P Require Import Json.
From S2P Require Import TextOps.
From S2P Require Import Patch.

Open Scope string_scope.
Open Scope N_scope.

(** ** The file system *)

Definition path : Type := list string.
Definition path_display (p : path) : string := "/" ++ str_join "/" p.
(** [Path::parent] *)
Definition path_parent (p : path) : option path :=
  match p with [] => None | _ => Some (removelast p) end.

Record Fs := mkFs {
  files : gmap path (string * N);  (** content and permission bits *)
  dirs : gset path;
}.

(** What the operating system does to a call: let it run, refuse it, or (when a file is
    published) fail after the rename, in the sync of the parent directory. *)
Inductive fault :=
| NoFault
| FailBefore (message : string)
| FailAfter (message : string).

Record World := mkWorld { w_fs : Fs; w_faults : list fault }.

Definition io (E A : Type) : Type := World → World * result E A.
Definition io_bind {E A B} (m : io E A) (f : A → io E B) : io E B := λ w,
  match m w with (w, Ok a) => f a w | (w, Err e) => (w, Err e) end.
Definition io_ret {E A} (a : A) : io E A := λ w, (w, Ok a).
Definition io_lift {E A} (r : result E A) : io E A := λ w, (w, r).
Definition io_map_err {E F A} (f : E → F) (m : io E A) : io F A := λ w,
  match m w with (w, Ok a) => (w, Ok a) | (w, Err e) => (w, Err (f e)) end.

Definition take_fault (w : World) : fault * World :=
  match w_faults w with
  | [] => (NoFault, w)
  | f :: fs => (f, mkWorld (w_fs w) fs)
  end.

(** A call that either fails before it does anything or runs. *)
Definition syscall {A} (run : Fs → Fs * result string A) : io string A := λ w,
  let '(f, w) := take_fault w in
  match f with
  | FailBefore m | FailAfter m => (w, Err m)
  | NoFault => let '(fs, r) := run (w_fs w) in (mkWorld fs (w_faults w), r)
  end.

Definition path_exists (fs : Fs) (p : path) : bool :=
  bool_decide (is_Some (files fs !! p)) || bool_decide (p ∈ dirs fs).

Definition NOT_FOUND : string := "No such file or directory (os error 2)".
Definition ALREADY_EXISTS : string := "File exists (os error 17)".
Definition NOT_EMPTY : string := "Directory not empty (os error 39)".

Definition fs_read (p : path) : io string string := syscall (λ fs,
  (fs, ok_or (fst <$> files fs !! p) NOT_FOUND)).
Definition fs_remove_file (p : path) : io string unit := syscall (λ fs,
  match files fs !! p with
  | Some _ => (mkFs (delete p (files fs)) (dirs fs), Ok tt)
  | None => (fs, Err NOT_FOUND)
  end).
Definition fs_create_dir (p : path) : io string unit := syscall (λ fs,
  if path_exists fs p then (fs, Err ALREADY_EXISTS)
  else if is_some_and (path_parent p) (λ d, bool_decide (d ∈ dirs fs))
  then (mkFs (files fs) ({[p]} ∪ dirs fs), Ok tt)
  else (fs, Err NOT_FOUND)).
Definition has_child (fs : Fs) (p : path) : bool :=
  existsb (λ q, path_parent q ==? Some p) (elements (dom (files fs) ∪ dirs fs)).
Definition fs_remove_dir (p : path) : io string unit := syscall (λ fs,
  if bool_decide (p ∉ dirs fs) then (fs, Err NOT_FOUND)
  else if has_child fs p then (fs, Err NOT_EMPTY)
  else (mkFs (files fs) (dirs fs ∖ {[p]}), Ok tt)).

(** ** Atomic publication ([atomic_write.rs]) *)

Inductive AtomicWriteError :=
| Conflict
| Io (message : string).

(** The permission bits of a new temporary file. *)
Definition TEMPORARY_MODE : N := 384.

Definition write_atomic_inner (p : path) (contents : string) (expected : option (option string))
    (permissions : option N) : io AtomicWriteError unit := λ w,
  match path_parent p with
  | None => (w, Err (Io ("path has no parent directory: " ++ path_display p)))
  | Some parent =>
    let '(f, w) := take_fault w in
    match f with
    | FailBefore m => (w, Err (Io m))
    | _ =>
      let fs := w_fs w in
      if negb (bool_decide (parent ∈ dirs fs)) then (w, Err (Io NOT_FOUND))
      else
        let preserved_permissions :=
          match permissions with Some m => Some m | None => snd <$> files fs !! p end in
        let mode := default TEMPORARY_MODE preserved_permissions in
        let published :=
          (mkWorld (mkFs (<[p := (contents, mode)]> (files fs)) (dirs fs)) (w_faults w),
           match f with FailAfter m => Err (Io m) | _ => Ok tt end) in
        match expected with
        | Some (Some expected) =>
          if (fst <$> files fs !! p) ==? Some expected then published else (w, Err Conflict)
        | Some None => if path_exists fs p then (w, Err Conflict) else published
        | None => if bool_decide (p ∈ dirs fs) then (w, Err (Io ALREADY_EXISTS)) else published
        end
    end
  end.
Definition write_atomic_if_unchanged (p : path) (expected : option string) (contents : string)
    (permissions : option N) : io AtomicWriteError unit :=
  write_atomic_inner p contents (Some expected) permissions.

Definition atomic_write_error (p : path) (e : AtomicWriteError) : ToolError :=
  match e with
  | Conflict => StaleRead ("apply_patch cannot publish " ++ path_display p ++
                           " because it changed after validation")
  | Io m => ExecutionFailed ("Failed to write " ++ path_display p ++ ": " ++ m)
  end.

(** ** Pending writes *)

Record PendingWrite := mkPendingWrite {
  pw_path : path;
  pw_content : option string;
  pw_original : option string;
  pw_original_permissions : option N;
}.

(** The directories that do not exist yet, from the parent of the file upwards. *)
Fixpoint missing_directories (fuel : nat) (fs : Fs) (cursor : path) : list path :=
  match fuel with
  | O => []
  | S fuel =>
    if path_exists fs cursor then []
    else cursor :: match path_parent cursor with
                   | Some next => missing_directories fuel fs next
                   | None => []
                   end
  end.

(** Creates the directories in turn; the list of those created grows even when one fails. *)
Fixpoint create_directories (ds created : list path) (w : World)
    : World * list path * result ToolError unit :=
  match ds with
  | [] => (w, created, Ok tt)
  | d :: ds' =>
    match fs_create_dir d w with
    | (w, Ok _) => create_directories ds' (created ++ [d])%list w
    | (w, Err m) =>
      (w, created, Err (ExecutionFailed ("Failed to create directory " ++ path_display d ++ ": " ++ m)))
    end
  end.
Definition create_missing_parent_directories (p : path) (created : list path) (w : World)
    : World * list path * result ToolError unit :=
  match path_parent p with
  | None => (w, created, Err (ExecutionFailed ("Path " ++ path_display p ++ " has no parent directory")))
  | Some parent =>
    create_directories (reverse (missing_directories (S (length parent)) (w_fs w) parent)) created w
  end.

Definition remove_file_if_unchanged (e : PendingWrite) : io ToolError unit :=
  io_bind (io_lift (ok_or (pw_original e)
    (WorkspacePrecondition ("Cannot delete " ++ path_display (pw_path e) ++
       " because no original content was captured")))) (λ expected,
  io_bind (io_map_err (λ m, StaleRead ("apply_patch cannot delete " ++ path_display (pw_path e) ++
       " because it changed or disappeared: " ++ m)) (fs_read (pw_path e))) (λ current,
  if current !=? expected
  then io_lift (Err (StaleRead ("apply_patch cannot delete " ++ path_display (pw_path e) ++
         " because it changed after validation")))
  else io_map_err (λ m, ExecutionFailed ("Failed to delete " ++ path_display (pw_path e) ++ ": " ++ m))
         (fs_remove_file (pw_path e)))).

(** One entry of the rollback. *)
Definition rollback_entry (e : PendingWrite) : io ToolError unit :=
  match pw_original e with
  | Some content =>
    io_map_err (atomic_write_error (pw_path e))
      (write_atomic_if_unchanged (pw_path e) (pw_content e) content (pw_original_permissions e))
  | None =>
    io_bind (io_lift (ok_or (pw_content e)
      (ExecutionFailed ("Rollback lacks created content for " ++ path_display (pw_path e))))) (λ expected,
    io_bind (io_map_err (λ m, ExecutionFailed ("Rollback cannot inspect created file " ++
         path_display (pw_path e) ++ ": " ++ m)) (fs_read (pw_path e))) (λ current,
    if current !=? expected
    then io_lift (Err (ExecutionFailed ("Rollback refuses to remove changed file " ++
           path_display (pw_path e))))
    else io_map_err (λ m, ExecutionFailed ("Rollback failed to remove " ++ path_display (pw_path e) ++
           ": " ++ m)) (fs_remove_file (pw_path e))))
  end.
Fixpoint io_for_each {A} (f : A → io ToolError unit) (xs : list A) : io ToolError unit :=
  match xs with
  | [] => io_ret tt
  | x :: xs' => io_bind (f x) (λ _, io_for_each f xs')
  end.
Definition rollback_pending_writes (applied : list PendingWrite) : io ToolError unit :=
  io_for_each rollback_entry (reverse applied).
Definition rollback_created_directories (created : list path) : io ToolError unit :=
  io_for_each (λ d, io_map_err (λ m, ExecutionFailed ("Rollback failed to remove directory " ++
                                      path_display d ++ ": " ++ m)) (fs_remove_dir d))
              (reverse created).

(** Publish one entry. *)
Definition publish_entry (e : PendingWrite) (created : list path) (w : World)
    : World * list path * result ToolError unit :=
  match pw_content e with
  | Some content =>
    match create_missing_parent_directories (pw_path e) created w with
    | (w, created, Ok _) =>
      let '(w, r) := io_map_err (atomic_write_error (pw_path e))
        (write_atomic_if_unchanged (pw_path e) (pw_original e) content (pw_original_permissions e)) w in
      (w, created, r)
    | (w, created, Err err) => (w, created, Err err)
    end
  | None => let '(w, r) := remove_file_if_unchanged e w in (w, created, r)
  end.

(** Why the writes failed, and what became of the rollback. *)
Inductive patch_failure :=
| RolledBack (err : ToolError)
| RollbackIncomplete (err rollback : ToolError).

Definition patch_failure_error (f : patch_failure) : ToolError :=
  match f with
  | RolledBack err => err
  | RollbackIncomplete err rollback =>
    ExecutionFailed ("apply_patch failed and rollback is incomplete; original error: " ++
      ToolError_to_string err ++ "; rollback error: " ++ ToolError_to_string rollback)
  end.

Definition rollback (applied : list PendingWrite) (created : list path) : io ToolError unit :=
  io_bind (rollback_pending_writes applied) (λ _, rollback_created_directories created).

Fixpoint publish_all (pending applied : list PendingWrite) (created : list path) (w : World)
    : World * result patch_failure unit :=
  match pending with
  | [] => (w, Ok tt)
  | entry :: pending' =>
    match publish_entry entry created w with
    | (w, created, Ok _) => publish_all pending' (applied ++ [entry])%list created w
    | (w, created, Err err) =>
      match rollback applied created w with
      | (w, Ok _) => (w, Err (RolledBack err))
      | (w, Err rollback) => (w, Err (RollbackIncomplete err rollback))
      end
    end
  end.
Definition apply_pending_writes (pending : list PendingWrite) : io ToolError unit := λ w,
  let '(w, r) := publish_all pending [] [] w in (w, map_err patch_failure_error r).

(** ** Planning the writes *)

(** The context resolves a path of the request to a place it may write, or refuses it. *)
Record ProductionToolContext := mkProductionToolContext {
  resolve_write_path : string → result ToolError path;
}.

Record FileSummary := mkFileSummary {
  fsum_path : string;
  fsum_hunks : N;
  fsum_hunks_applied : N;
  fsum_fuzz_used : N;
  fsum_hunks_with_fuzz : N;
  fsum_created : bool;
  fsum_deleted : bool;
}.
Record PatchStats := mkPatchStats {
  ps_files_applied : N;
  ps_files_total : N;
  ps_hunks_applied : N;
  ps_hunks_total : N;
  ps_fuzz_used : N;
  ps_hunks_with_fuzz : N;
}.
Record PatchStatsExt := mkPatchStatsExt {
  pe_stats : PatchStats;
  pe_touched_files : list string;
  pe_file_summaries : list FileSummary;
  pe_header_path_mismatch : option string;
}.
Definition PatchStats_default : PatchStats := mkPatchStats 0 0 0 0 0 0.
Definition PatchStatsExt_default : PatchStatsExt := mkPatchStatsExt PatchStats_default [] [] None.

Definition read_file_content (p : path) : io ToolError string :=
  io_map_err (λ m, ExecutionFailed ("Failed to read " ++ path_display p ++ ": " ++ m)) (fs_read p).

(** [if resolved.exists() { Some(read_file_content(&resolved)?) } else { None }] *)
Definition read_original (p : path) : io ToolError (option string) := λ w,
  if path_exists (w_fs w) p then io_bind (read_file_content p) (λ c, io_ret (Some c)) w
  else (w, Ok None).
Definition permissions_of (w : World) (p : path) : option N := snd <$> files (w_fs w) !! p.

Definition refuse {A} (e : ToolError) : io ToolError A := io_lift (Err e).
Definition io_fail_if (b : bool) (e : ToolError) : io ToolError unit := io_lift (fail_if b e).

(** One file section of a patch: the write it needs and its statistics. *)
Definition plan_file_patch (context : ProductionToolContext) (fuzz : nat) (resolved_targets : list path)
    (file_patch : FilePatch) : io ToolError (PendingWrite * HunkApplyStats * bool) :=
  io_bind (io_fail_if (match fp_hunks file_patch with [] => true | _ => false end)
    (InvalidInput ("Patch section for `" ++ fp_path file_patch ++ "` has no hunks (`@@ ... @@`)."))) (λ _,
  io_bind (io_lift (resolve_write_path context (fp_path file_patch))) (λ resolved,
  io_bind (io_fail_if (bool_decide (resolved ∈ resolved_targets))
    (InvalidInput ("Patch resolves more than once to `" ++ path_display resolved ++ "`"))) (λ _,
  io_bind (read_original resolved) (λ original,
  io_bind (λ w, (w, Ok (permissions_of w resolved))) (λ original_permissions,
  io_bind (io_fail_if (fp_create_from_null file_patch && is_some original)
    (WorkspacePrecondition ("Patch declares `" ++ fp_path file_patch ++
       "` as a new file, but the target already exists at `" ++ path_display resolved ++ "`"))) (λ _,
  io_bind (io_fail_if (is_none original && negb (fp_create_if_missing file_patch))
    (ExecutionFailed ("File `" ++ fp_path file_patch ++ "` does not exist at `" ++ path_display resolved ++
       "`. Set create_if_missing=true for new files or include headers for file creation."))) (λ _,
  io_bind (io_fail_if (fp_delete_after file_patch && is_none original)
    (ExecutionFailed ("File `" ++ fp_path file_patch ++ "` does not exist at `" ++
       path_display resolved ++ "` to delete."))) (λ _,
  let base_content := default "" original in
  let lines := if is_empty_str base_content then [] else str_lines base_content in
  io_bind (io_lift (apply_hunks_to_lines lines (fp_hunks file_patch) fuzz (fp_path file_patch)))
    (λ '(lines, apply_stats),
  io_bind (io_fail_if (fp_delete_after file_patch && match lines with [] => false | _ => true end)
    (InvalidInput ("Delete patch for `" ++ fp_path file_patch ++ "` leaves " ++
       show_N (N.of_nat (length lines)) ++
       " line(s); a `/dev/null` target must remove the complete file content"))) (λ _,
  if fp_delete_after file_patch then
    io_ret (mkPendingWrite resolved None original original_permissions, apply_stats, is_none original)
  else
    let new_content := reassemble_preserving_newlines lines base_content in
    io_bind (io_fail_if (original ==? Some new_content)
      (InvalidInput ("Patch for `" ++ fp_path file_patch ++ "` would not change the file"))) (λ _,
    io_ret (mkPendingWrite resolved (Some new_content) original original_permissions, apply_stats,
            is_none original))
  )))))))))).

Definition add_file_stats (stats : PatchStatsExt) (file_patch : FilePatch) (a : HunkApplyStats)
    (missing : bool) : PatchStatsExt :=
  let s := pe_stats stats in
  let hunks := N.of_nat (length (fp_hunks file_patch)) in
  mkPatchStatsExt
    (mkPatchStats (ps_files_applied s + 1) (ps_files_total s)
       (ps_hunks_applied s + hs_hunks_applied a) (ps_hunks_total s + hunks)
       (ps_fuzz_used s + hs_fuzz_used a) (ps_hunks_with_fuzz s + hs_hunks_with_fuzz a))
    (push_unique (pe_touched_files stats) (fp_path file_patch))
    (pe_file_summaries stats ++
     [mkFileSummary (fp_path file_patch) hunks (hs_hunks_applied a) (hs_fuzz_used a)
        (hs_hunks_with_fuzz a) (missing && negb (fp_delete_after file_patch))
        (fp_delete_after file_patch)])%list
    (pe_header_path_mismatch stats).

Fixpoint plan_file_patches (context : ProductionToolContext) (fuzz : nat)
    (file_patches : list FilePatch) (pending : list PendingWrite) (stats : PatchStatsExt)
    : io ToolError (list PendingWrite * PatchStatsExt) :=
  match file_patches with
  | [] => io_ret (pending, stats)
  | file_patch :: rest =>
    io_bind (plan_file_patch context fuzz (pw_path <$> pending) file_patch)
      (λ '(write, apply_stats, missing),
    plan_file_patches context fuzz rest (pending ++ [write])%list
      (add_file_stats stats file_patch apply_stats missing))
  end.
Definition build_pending_writes_from_patches (file_patches : list FilePatch)
    (context : ProductionToolContext) (fuzz : nat)
    : io ToolError (list PendingWrite * PatchStatsExt) :=
  plan_file_patches context fuzz file_patches []
    (mkPatchStatsExt (mkPatchStats 0 (N.of_nat (length file_patches)) 0 0 0 0) [] [] None).

(** [Value::get] on an object, [as_array], [as_bool]. *)
Definition value_get (k : string) (v : Value) : option Value := as_object v ≫= object_get k.
Definition as_array (v : Value) : option (list Value) :=
  match v with VArray vs => Some vs | _ => None end.
Definition as_bool (v : Value) : option bool := match v with VBool b => Some b | _ => None end.
(** The fields of a change: its path and its content. *)
Definition change_fields (change : Value) : result ToolError (string * string) :=
  path ← ok_or (value_get "path" change ≫= as_str) (MissingField "changes[].path");
  content ← ok_or (value_get "content" change ≫= as_str) (MissingField "changes[].content");
  mret (path, content).

Definition changes_list (changes_value : Value) : result ToolError (list Value) :=
  changes ← ok_or (as_array changes_value)
    (InvalidInput "`changes` must be an array of objects like {path, content}");
  fail_if (match changes with [] => true | _ => false end)
    (InvalidInput "`changes` cannot be empty") ;;
  mret changes.

Definition plan_change (context : ProductionToolContext) (resolved_targets : list path)
    (change : Value) : io ToolError (PendingWrite * string * bool) :=
  io_bind (io_lift (change_fields change)) (λ '(p, content),
  io_bind (io_lift (resolve_write_path context p)) (λ resolved,
  io_bind (io_fail_if (bool_decide (resolved ∈ resolved_targets))
    (InvalidInput ("`changes` resolves more than once to `" ++ path_display resolved ++ "`"))) (λ _,
  io_bind (read_original resolved) (λ original,
  io_bind (io_fail_if (original ==? Some content)
    (InvalidInput ("`changes` target `" ++ p ++ "` already has the requested content"))) (λ _,
  io_bind (λ w, (w, Ok (permissions_of w resolved))) (λ original_permissions,
  io_ret (mkPendingWrite resolved (Some content) original original_permissions, p,
          is_none original))))))).

Definition add_change_stats (stats : PatchStatsExt) (p : string) (created : bool) : PatchStatsExt :=
  let s := pe_stats stats in
  mkPatchStatsExt
    (mkPatchStats (ps_files_applied s + 1) (ps_files_total s + 1) (ps_hunks_applied s)
       (ps_hunks_total s) (ps_fuzz_used s) (ps_hunks_with_fuzz s))
    (push_unique (pe_touched_files stats) p)
    (pe_file_summaries stats ++ [mkFileSummary p 0 0 0 0 created false])%list
    (pe_header_path_mismatch stats).

Fixpoint plan_changes (context : ProductionToolContext) (changes : list Value)
    (pending : list PendingWrite) (stats : PatchStatsExt)
    : io ToolError (list PendingWrite * PatchStatsExt) :=
  match changes with
  | [] => io_ret (pending, stats)
  | change :: rest =>
    io_bind (plan_change context (pw_path <$> pending) change) (λ '(write, p, created),
    plan_changes context rest (pending ++ [write])%list (add_change_stats stats p created))
  end.
Definition build_pending_writes_from_changes (changes_value : Value)
    (context : ProductionToolContext) : io ToolError (list PendingWrite * PatchStatsExt) :=
  io_bind (io_lift (changes_list changes_value)) (λ changes,
  plan_changes context changes [] PatchStatsExt_default).

(** ** Preflight: what a request means to touch, before anything is read *)

Record ApplyPatchPreflight := mkApplyPatchPreflight {
  ap_touched_files : list string;
  ap_files_total : N;
  ap_hunks_total : N;
  ap_creates : list string;
  ap_deletes : list string;
  ap_path_override : option string;
  ap_header_path_mismatch : option string;
}.
Inductive ApplyPatchPreflightKind :=
| Changes
| PathOverride (path : string) (hunks : list Hunk)
| FilePatches (file_patches : list FilePatch).
Record ApplyPatchPreflightPlan := mkApplyPatchPreflightPlan {
  ap_summary : ApplyPatchPreflight;
  ap_kind : ApplyPatchPreflightKind;
}.

Definition required_str (input : Value) (field : string) : result ToolError string :=
  match value_get field input ≫= as_str with
  | Some s => Ok s
  | None =>
    match default [] (as_object input) with
    | [] => Err (MissingField field)
    | provided => Err (InvalidInput ("缺少必填字段 '" ++ field ++ "'。已提供字段：" ++
                         str_join ", " (fst <$> provided)))
    end
  end.
Definition optional_str (input : Value) (field : string) : option string :=
  value_get field input ≫= as_str.
Definition optional_u64 (input : Value) (field : string) (d : N) : N :=
  default d (value_get field input ≫= as_u64).
Definition optional_bool (input : Value) (field : string) (d : bool) : bool :=
  default d (value_get field input ≫= as_bool).

Fixpoint preflight_change_paths (changes : list Value) (seen : list string)
    : result ToolError (list string) :=
  match changes with
  | [] => Ok seen
  | change :: rest =>
    '(p, _) ← change_fields change;
    fail_if (existsb (λ q, q ==? p) seen)
      (InvalidInput ("`changes` contains duplicate target `" ++ p ++ "`")) ;;
    preflight_change_paths rest (seen ++ [p])%list
  end.
Definition preflight_changes (changes_value : Value) : result ToolError ApplyPatchPreflight :=
  changes ← changes_list changes_value;
  touched_files ← preflight_change_paths changes [];
  mret (mkApplyPatchPreflight touched_files (N.of_nat (length changes)) 0 [] [] None None).

Fixpoint preflight_file_patches (file_patches : list FilePatch) (p : ApplyPatchPreflight)
    : result ToolError ApplyPatchPreflight :=
  match file_patches with
  | [] => Ok p
  | file_patch :: rest =>
    let target := fp_path file_patch in
    fail_if (match fp_hunks file_patch with [] => true | _ => false end)
      (InvalidInput ("Patch section for `" ++ target ++ "` has no hunks (`@@ ... @@`).")) ;;
    fail_if (existsb (λ q, q ==? target) (ap_touched_files p))
      (InvalidInput ("Patch contains multiple sections for the same target `" ++ target ++
         "`. Combine them into one file section.")) ;;
    preflight_file_patches rest (mkApplyPatchPreflight
      (ap_touched_files p ++ [target])%list
      (ap_files_total p)
      (ap_hunks_total p + N.of_nat (length (fp_hunks file_patch)))
      (if fp_create_if_missing file_patch && negb (fp_delete_after file_patch)
       then push_unique (ap_creates p) target else ap_creates p)
      (if fp_delete_after file_patch then push_unique (ap_deletes p) target else ap_deletes p)
      (ap_path_override p) (ap_header_path_mismatch p))
  end.

Definition preflight_apply_patch_plan (input : Value) : result ToolError ApplyPatchPreflightPlan :=
  let create_if_missing := optional_bool input "create_if_missing" false in
  match value_get "changes" input with
  | Some changes_value =>
    (** sorted *)
    let ignored_controls := List.filter (λ field, is_some (value_get field input))
                              ["create_if_missing"; "fuzz"; "patch"; "path"] in
    fail_if (match ignored_controls with [] => false | _ => true end)
      (InvalidInput ("`changes` cannot be combined with patch-only fields: " ++
         str_join ", " ignored_controls)) ;;
    summary ← preflight_changes changes_value;
    mret (mkApplyPatchPreflightPlan summary Changes)
  | None =>
    patch_text ← required_str input "patch";
    let path_override := optional_str input "path" in
    let patch_shape := inspect_patch_shape patch_text in
    validate_patch_shape patch_shape path_override ;;
    let header_path_mismatch := path_override ≫= λ p, diff_header_mismatch p patch_shape in
    match path_override with
    | Some p =>
      hunks ← parse_unified_diff patch_text;
      fail_if (match hunks with [] => true | _ => false end)
        (InvalidInput "Patch did not contain any hunks (`@@ ... @@`). Provide a unified diff hunk.") ;;
      mret (mkApplyPatchPreflightPlan
        (mkApplyPatchPreflight [p] 1 (N.of_nat (length hunks))
           (if create_if_missing then [p] else []) [] (Some p) header_path_mismatch)
        (PathOverride p hunks))
    | None =>
      file_patches ← parse_unified_diff_files patch_text create_if_missing;
      fail_if (match file_patches with [] => true | _ => false end)
        (InvalidInput "No valid file patches found. Ensure the patch includes `---`/`+++` headers or provide `path`.") ;;
      summary ← preflight_file_patches file_patches
        (mkApplyPatchPreflight [] (N.of_nat (length file_patches)) 0 [] [] None header_path_mismatch);
      mret (mkApplyPatchPreflightPlan summary (FilePatches file_patches))
    end
  end.
Definition preflight_apply_patch (input : Value) : result ToolError ApplyPatchPreflight :=
  plan ← preflight_apply_patch_plan input; mret (ap_summary plan).

(** ** The request *)

Definition build_summary_message (stats : PatchStatsExt) : string :=
  let s := pe_stats stats in
  let part1 :=
    if 0 <? ps_hunks_total s then
      "已在 " ++ show_N (ps_files_applied s) ++ " 个文件中应用 " ++ show_N (ps_hunks_applied s) ++ "/" ++
      show_N (ps_hunks_total s) ++ " 个 hunk。"
    else "已应用 " ++ show_N (ps_files_applied s) ++ " 个文件修改。" in
  let part2 :=
    match pe_touched_files stats with
    | [] => [] | fs => ["文件：" ++ format_file_list fs ++ "。"]%string end in
  let part3 :=
    if 0 <? ps_fuzz_used s then
      [show_N (ps_hunks_with_fuzz s) ++ " 个 hunk 使用了 fuzz（总 fuzz=" ++ show_N (ps_fuzz_used s) ++
       "）。"]%string
    else [] in
  let part4 := match pe_header_path_mismatch stats with Some note => [note] | None => [] end in
  str_join " " ([part1] ++ part2 ++ part3 ++ part4)%list.

Record PatchResult := mkPatchResult {
  pr_success : bool;
  pr_stats : PatchStats;
  pr_touched_files : list string;
  pr_file_summaries : list FileSummary;
  pr_message : string;
}.
(** The result record and the preflight it is reported with; their JSON rendering is [serde]'s. *)
Definition patch_outcome (stats : PatchStatsExt) (preflight : ApplyPatchPreflight)
    : PatchResult * ApplyPatchPreflight :=
  (mkPatchResult true (pe_stats stats) (pe_touched_files stats) (pe_file_summaries stats)
                 (build_summary_message stats), preflight).

Definition execute_apply_patch (input : Value) (context : ProductionToolContext)
    : io ToolError (PatchResult * ApplyPatchPreflight) :=
  let fuzz := N.to_nat (N.min (optional_u64 input "fuzz" DEFAULT_FUZZ) MAX_FUZZ) in
  let create_if_missing := optional_bool input "create_if_missing" false in
  io_bind (io_lift (preflight_apply_patch_plan input)) (λ preflight,
  match value_get "changes" input with
  | Some changes_value =>
    io_bind (build_pending_writes_from_changes changes_value context) (λ '(pending, stats),
    io_bind (apply_pending_writes pending) (λ _,
    io_ret (patch_outcome stats (ap_summary preflight))))
  | None =>
    let file_patches :=
      match ap_kind preflight with
      | Changes => []
      | PathOverride p hunks => [mkFilePatch p hunks false create_if_missing false]
      | FilePatches file_patches => file_patches
      end in
    io_bind (build_pending_writes_from_patches file_patches context fuzz) (λ '(pending, stats),
    let stats := mkPatchStatsExt (pe_stats stats) (pe_touched_files stats) (pe_file_summaries stats)
                   (ap_header_path_mismatch (ap_summary preflight)) in
    io_bind (apply_pending_writes pending) (λ _,
    io_ret (patch_outcome stats (ap_summary preflight))))
  end).

Open Scope list_scope.

(** ** The abstract effect of the writes *)

(** What publishing one entry makes of the files. *)
Definition publish_file (m : gmap path (string * N)) (e : PendingWrite) : gmap path (string * N) :=
  match pw_content e with
  | Some c =>
    let mode := match pw_original_permissions e with
                | Some mode => Some mode
                | None => snd <$> m !! pw_path e
                end in
    <[pw_path e := (c, default TEMPORARY_MODE mode)]> m
  | None => delete (pw_path e) m
  end.

(** The entry was planned on these files: it recorded what was there, and it deletes only what
    exists. *)
Definition planned (m : gmap path (string * N)) (e : PendingWrite) : Prop :=
  pw_original e = fst <$> m !! pw_path e ∧
  pw_original_permissions e = snd <$> m !! pw_path e ∧
  (pw_content e = None → is_Some (pw_original e)).

(** Directories made on top of others, each under one that was there before it. *)
Inductive created_on (ds : gset path) : list path → Prop :=
| created_nil : created_on ds []
| created_snoc l d parent :
    created_on ds l → d ∉ ds → d ∉ l → path_parent d = Some parent →
    (parent ∈ ds ∨ parent ∈ l) → created_on ds (l ++ [d]).

(** The file system after some entries were published and some directories made. *)
Record published (fs0 : Fs) (applied : list PendingWrite) (created : list path) (fs : Fs) : Prop := {
  pb_files : files fs = foldl publish_file (files fs0) applied;
  pb_dirs : ∀ d, d ∈ dirs fs ↔ d ∈ dirs fs0 ∨ d ∈ created;
  pb_created : created_on (dirs fs0) created;
}.

Definition no_late_fault (w : World) : Prop :=
  Forall (λ f, match f with FailAfter _ => False | _ => True end) (w_faults w).

Lemma published_start fs : published fs [] [] fs.
Proof. constructor; [done| |constructor]. intros d. rewrite elem_of_nil. naive_solver. Qed.

(** ** System calls *)

Lemma take_fault_fs w f w' : take_fault w = (f, w') → w_fs w' = w_fs w.
Proof. unfold take_fault. destruct (w_faults w); by intros [= <- <-]. Qed.
Lemma take_fault_late w f w' :
  no_late_fault w → take_fault w = (f, w') →
  no_late_fault w' ∧ (∀ m, f ≠ FailAfter m).
Proof.
  unfold no_late_fault, take_fault. destruct (w_faults w) as [|g gs] eqn:E.
  - intros _ [= <- <-]. by rewrite E.
  - intros [Hg Hgs]%Forall_cons [= <- <-]. split; [done|]. by intros m ->.
Qed.

(** A successful call ran; a failed one left no trace beyond what [run] itself did. *)
Lemma syscall_inv {A} (run : Fs → Fs * result string A) w w' r :
  syscall run w = (w', r) →
  (no_late_fault w → no_late_fault w') ∧
  (run (w_fs w) = (w_fs w', r) ∨ w_fs w' = w_fs w ∧ is_ok r = false).
Proof.
  unfold syscall. destruct (take_fault w) as [f w1] eqn:E.
  pose proof (take_fault_fs _ _ _ E) as Hfs. intros H.
  assert (Hl : no_late_fault w → no_late_fault w1).
  { intros Hw. by eapply take_fault_late in Hw as [? _]. }
  destruct f; [destruct (run (w_fs w1)) as [fs r1] eqn:Er|..]; injection H as <- <-;
    (split; [done|]).
  - left. cbn. by rewrite <- Hfs.
  - by right.
  - by right.
Qed.

Lemma fs_create_dir_published fs0 applied created d w w' r :
  published fs0 applied created (w_fs w) → fs_create_dir d w = (w', r) →
  (no_late_fault w → no_late_fault w') ∧
  match r with
  | Ok _ => published fs0 applied (created ++ [d]) (w_fs w')
  | Err _ => published fs0 applied created (w_fs w')
  end.
Proof.
  intros Hp H. apply syscall_inv in H as [Hl [Hr|[-> Hr]]]; (split; [done|]); [|by destruct r].
  destruct (path_exists (w_fs w) d) eqn:E; [by injection Hr as <- <-|].
  destruct (path_parent d) as [parent|] eqn:Ep; cbn in Hr; [|by injection Hr as <- <-].
  case_bool_decide as Hin; [|by injection Hr as <- <-]. injection Hr as <- <-.
  destruct Hp as [Hf Hd Hc]. unfold path_exists in E. apply orb_false_iff in E as [_ E].
  apply bool_decide_eq_false in E. rewrite Hd in E, Hin. constructor; cbn; [done|..].
  - intros q. rewrite elem_of_union, elem_of_singleton, Hd, elem_of_app, list_elem_of_singleton.
    naive_solver.
  - econstructor; [done|naive_solver..].
Qed.

Lemma create_directories_published fs0 applied ds created w w' created' r :
  published fs0 applied created (w_fs w) → create_directories ds created w = (w', created', r) →
  published fs0 applied created' (w_fs w') ∧ (no_late_fault w → no_late_fault w') ∧
  (∀ d, d ∈ created' → d ∈ created ∨ d ∈ ds).
Proof.
  revert created w; induction ds as [|d ds IH]; intros created w Hp H; cbn in H.
  - injection H as <- <- <-. naive_solver.
  - destruct (fs_create_dir d w) as [w1 [[]|m]] eqn:E;
      pose proof (fs_create_dir_published _ _ _ _ _ _ _ Hp E) as [Hl Hp1].
    + apply IH in H as (? & ? & Hin); [|done]. split_and!; [done|naive_solver|].
      intros q [Hq|Hq]%Hin; [|right; by right].
      rewrite elem_of_app, list_elem_of_singleton in Hq. rewrite elem_of_cons. naive_solver.
    + injection H as <- <- <-. naive_solver.
Qed.

Lemma create_missing_published fs0 applied p created w w' created' r :
  published fs0 applied created (w_fs w) →
  create_missing_parent_directories p created w = (w', created', r) →
  published fs0 applied created' (w_fs w') ∧ (no_late_fault w → no_late_fault w').
Proof.
  intros Hp. unfold create_missing_parent_directories. destruct (path_parent p) as [parent|].
  - intros (? & ? & _)%(create_directories_published fs0 applied); done.
  - intros [= <- <- <-]. done.
Qed.

(** A write that succeeds replaced the file; one that fails before the rename changed nothing. *)
Lemma write_atomic_inv p expected contents permissions w w' r :
  write_atomic_if_unchanged p expected contents permissions w = (w', r) →
  (no_late_fault w → no_late_fault w') ∧
  match r with
  | Ok _ =>
    expected = fst <$> files (w_fs w) !! p ∧ is_Some (path_parent p) ∧
    w_fs w' = mkFs (publish_file (files (w_fs w)) (mkPendingWrite p (Some contents) None permissions))
                   (dirs (w_fs w))
  | Err _ => no_late_fault w → w_fs w' = w_fs w
  end.
Proof.
  unfold write_atomic_if_unchanged, write_atomic_inner.
  destruct (path_parent p) as [parent|]; [|by intros [= <- <-]].
  destruct (take_fault w) as [f w1] eqn:E. pose proof (take_fault_fs _ _ _ E) as Hfs.
  assert (Hl : no_late_fault w → no_late_fault w1 ∧ ∀ m, f ≠ FailAfter m).
  { intros Hw. by eapply take_fault_late. }
  destruct f as [|m|m]; [|intros [= <- <-]; naive_solver|].
  - case_bool_decide; cbn [negb]; [|intros [= <- <-]; naive_solver].
    destruct expected as [c|].
    + case_bool_decide as He; intros [= <- <-]; cbn [w_fs]; [|naive_solver].
      rewrite Hfs in *. split_and!; naive_solver.
    + destruct (path_exists (w_fs w1) p) eqn:Ee; intros [= <- <-]; cbn [w_fs]; [naive_solver|].
      rewrite Hfs in *. unfold path_exists in Ee. apply orb_false_iff in Ee as [Ee _].
      apply bool_decide_eq_false, eq_None_not_Some in Ee. rewrite Ee. cbn.
      split_and!; try naive_solver. unfold publish_file. cbn. by rewrite Ee.
  - assert (Hno : no_late_fault w → False) by (intros Hw; by destruct (Hl Hw) as [_ Hm]; apply (Hm m)).
    case_bool_decide; cbn [negb]; [|intros [= <- <-]; naive_solver].
    destruct expected as [c|]; [case_bool_decide|destruct (path_exists _ _)];
      intros [= <- <-]; split; try naive_solver; by intros []%Hno.
Qed.

Lemma fs_read_inv p w w' r :
  fs_read p w = (w', r) →
  (no_late_fault w → no_late_fault w') ∧ w_fs w' = w_fs w ∧
  ∀ c, r = Ok c → fst <$> files (w_fs w) !! p = Some c.
Proof.
  intros H. apply syscall_inv in H as [Hl [Hr|[Hr He]]]; split_and!; try done.
  - by injection Hr.
  - intros c ->. injection Hr as _ Hr. by apply ok_or_Ok in Hr.
  - by intros c ->.
Qed.
Lemma fs_remove_file_inv p w w' r :
  fs_remove_file p w = (w', r) →
  (no_late_fault w → no_late_fault w') ∧
  match r with
  | Ok _ => w_fs w' = mkFs (delete p (files (w_fs w))) (dirs (w_fs w))
  | Err _ => w_fs w' = w_fs w
  end.
Proof.
  intros H. apply syscall_inv in H as [Hl [Hr|[-> Hr]]]; (split; [done|]); [|by destruct r].
  destruct (files (w_fs w) !! p); by injection Hr as <- <-.
Qed.

(** Read a file, compare it and remove it: the shape of a deletion and of undoing a creation. *)
Lemma read_and_remove_inv {E} (f g : string → E) stale p expected w w' (r : result E unit) :
  io_bind (io_map_err f (fs_read p)) (λ current,
    if current !=? expected then io_lift (Err stale) else io_map_err g (fs_remove_file p)) w = (w', r) →
  (no_late_fault w → no_late_fault w') ∧
  match r with
  | Ok _ => fst <$> files (w_fs w) !! p = Some expected ∧
            w_fs w' = mkFs (delete p (files (w_fs w))) (dirs (w_fs w))
  | Err _ => w_fs w' = w_fs w
  end.
Proof.
  unfold io_bind, io_map_err. destruct (fs_read p w) as [w1 [c|m]] eqn:E1;
    apply fs_read_inv in E1 as (Hl1 & Hfs & Hc); [|intros [= <- <-]; naive_solver].
  case_bool_decide as Heq; cbn [negb]; [|intros [= <- <-]; naive_solver]. subst c.
  destruct (fs_remove_file p w1) as [w2 [[]|m]] eqn:E2;
    apply fs_remove_file_inv in E2 as (Hl2 & Hfs2); intros [= <- <-];
    rewrite Hfs in Hfs2; naive_solver.
Qed.

(** ** Publishing and rolling back one entry *)

Lemma publish_entry_inv fs0 applied e created w w' created' r :
  published fs0 applied created (w_fs w) → publish_entry e created w = (w', created', r) →
  (no_late_fault w → no_late_fault w') ∧
  match r with
  | Ok _ => published fs0 (applied ++ [e]) created' (w_fs w')
  | Err _ => no_late_fault w → published fs0 applied created' (w_fs w')
  end.
Proof.
  intros Hp. unfold publish_entry. destruct (pw_content e) as [content|] eqn:Ec.
  - destruct (create_missing_parent_directories (pw_path e) created w) as [[w1 created1] [[]|err]] eqn:E1;
      apply (create_missing_published fs0 applied) in E1 as [Hp1 Hl1]; try done;
      [|intros [= <- <- <-]; naive_solver].
    unfold io_map_err.
    destruct (write_atomic_if_unchanged _ _ _ _ w1) as [w2 [[]|err]] eqn:E2;
      apply write_atomic_inv in E2 as [Hl2 Hw]; intros [= <- <- <-].
    + destruct Hw as (_ & _ & Hw). split; [naive_solver|]. destruct Hp1 as [Hf Hd Hc].
      rewrite Hw. constructor; cbn [files dirs]; [|done..].
      rewrite foldl_app. cbn. rewrite <- Hf. unfold publish_file. cbn. by rewrite Ec.
    + split; [naive_solver|]. intros Hw0. rewrite Hw; auto.
  - unfold remove_file_if_unchanged.
    destruct (pw_original e) as [expected|] eqn:Eo; cbn; [|intros [= <- <- <-]; naive_solver].
    match goal with |- (let '(w, r) := ?x in _) = _ → _ => destruct x as [w1 r1] eqn:E1 end.
    apply read_and_remove_inv in E1 as [Hl1 H1]. intros [= <- <- <-].
    destruct r1 as [[]|err].
    + destruct H1 as [_ Hw]. split; [naive_solver|]. destruct Hp as [Hf Hd Hc].
      rewrite Hw. constructor; cbn [files dirs]; [|done..].
      rewrite foldl_app. cbn. rewrite <- Hf. unfold publish_file. by rewrite Ec.
    + split; [naive_solver|]. by rewrite H1.
Qed.

(** Undoing an entry that was planned on the files: they are back. *)
Lemma rollback_entry_inv m ds e w w' r :
  planned m e → w_fs w = mkFs (publish_file m e) ds → rollback_entry e w = (w', r) →
  is_ok r = true → w_fs w' = mkFs m ds.
Proof.
  intros (Ho & Hperm & Hdel) Hw. unfold rollback_entry, io_map_err.
  destruct (m !! pw_path e) as [[c mode]|] eqn:Em; cbn in Ho, Hperm; rewrite Ho.
  - destruct (write_atomic_if_unchanged _ _ _ _ w) as [w1 [[]|err]] eqn:E;
      apply write_atomic_inv in E as [_ H]; intros [= <- <-]; [|done]. intros _.
    destruct H as (_ & _ & ->). rewrite Hw. cbn [files dirs]. f_equal.
    unfold publish_file. rewrite Hperm. cbn.
    destruct (pw_content e); [rewrite insert_insert_eq|rewrite insert_delete_eq]; by apply insert_id.
  - destruct (pw_content e) as [content|] eqn:Ec; cbn; [|intros [= <- <-]; done].
    intros H Hok. apply read_and_remove_inv in H as [_ H]. destruct r; [|done].
    destruct H as [_ ->]. rewrite Hw. cbn [files dirs]. f_equal. unfold publish_file. rewrite Ec.
    by rewrite delete_insert_id.
Qed.

Lemma publish_file_other m e p : p ≠ pw_path e → publish_file m e !! p = m !! p.
Proof.
  intros Hne. unfold publish_file. destruct (pw_content e); [by rewrite lookup_insert_ne|].
  by rewrite lookup_delete_ne.
Qed.
Lemma foldl_publish_other m es p : p ∉ pw_path <$> es → foldl publish_file m es !! p = m !! p.
Proof.
  induction es as [|e es IH] using rev_ind; [done|]. rewrite fmap_app, not_elem_of_app.
  intros [? Hne]. rewrite foldl_app. cbn. rewrite publish_file_other; [by apply IH|].
  intros ->. apply Hne. left.
Qed.
Lemma planned_ext m m' e : m !! pw_path e = m' !! pw_path e → planned m e → planned m' e.
Proof. unfold planned. by intros ->. Qed.

(** The entries are planned together: on the same files, for distinct paths. *)
Definition plan_ok (fs : Fs) (pending : list PendingWrite) : Prop :=
  Forall (planned (files fs)) pending ∧ NoDup (pw_path <$> pending).

Lemma plan_ok_app fs l k : plan_ok fs (l ++ k) → plan_ok fs l.
Proof. intros [? Hn]. rewrite fmap_app in Hn. apply NoDup_app in Hn. rewrite Forall_app in *. split; naive_solver. Qed.

Lemma rollback_writes_inv fs0 applied ds w w' r :
  plan_ok fs0 applied → w_fs w = mkFs (foldl publish_file (files fs0) applied) ds →
  rollback_pending_writes applied w = (w', r) → is_ok r = true → w_fs w' = mkFs (files fs0) ds.
Proof.
  revert w; induction applied as [|e applied IH] using rev_ind; intros w Hok Hw H Hr.
  - by injection H as <- <-.
  - unfold rollback_pending_writes in H. rewrite reverse_snoc in H. cbn [io_for_each] in H.
    unfold io_bind in H. destruct (rollback_entry e w) as [w1 [[]|err]] eqn:E;
      [|by injection H as <- <-].
    rewrite foldl_app in Hw. cbn in Hw.
    eapply rollback_entry_inv in E; [|eapply planned_ext|done|done].
    + apply (IH w1); [by eapply plan_ok_app|done|done|done].
    + destruct Hok as [_ Hn]. rewrite fmap_app, NoDup_app in Hn. destruct Hn as (_ & Hn & _).
      symmetry. apply foldl_publish_other. intros Hin. apply (Hn _ Hin). left.
    + destruct Hok as [Hok _]. rewrite Forall_app, Forall_singleton in Hok. naive_solver.
Qed.

Lemma rollback_dirs_inv fs0 created w w' r :
  created_on (dirs fs0) created → files (w_fs w) = files fs0 →
  (∀ d, d ∈ dirs (w_fs w) ↔ d ∈ dirs fs0 ∨ d ∈ created) →
  rollback_created_directories created w = (w', r) → is_ok r = true → w_fs w' = fs0.
Proof.
  intros Hc. revert w; induction Hc as [|l d parent Hc IH Hd Hl Hpar Hin]; intros w Hf Hds H Hr.
  - injection H as <- <-. destruct (w_fs w) as [f ds], fs0 as [f0 ds0]; cbn in *. subst.
    f_equal. apply set_eq. intros q. rewrite Hds, elem_of_nil. naive_solver.
  - unfold rollback_created_directories in H. rewrite reverse_snoc in H. cbn [io_for_each] in H.
    unfold io_bind at 1, io_map_err at 1 in H.
    destruct (fs_remove_dir d w) as [w1 [[]|m]] eqn:E; [|by injection H as <- <-].
    apply syscall_inv in E as [_ [E|[_ ?]]]; [|done].
    case_bool_decide; [done|]. destruct (has_child _ _); [done|]. injection E as Hfs.
    apply (IH w1); [by rewrite <- Hfs| |done|done]. intros q. rewrite <- Hfs. cbn.
    rewrite elem_of_difference, elem_of_singleton, Hds, elem_of_app, list_elem_of_singleton.
    split; [naive_solver|]. intros [?|?]; (split; [naive_solver|]); intros ->; done.
Qed.

(** A rollback that reports success has put everything back. *)
Lemma rollback_restores fs0 applied created w w' r :
  plan_ok fs0 applied → published fs0 applied created (w_fs w) →
  rollback applied created w = (w', r) → is_ok r = true → w_fs w' = fs0.
Proof.
  intros Hok [Hf Hd Hc] H Hr. unfold rollback, io_bind in H.
  destruct (rollback_pending_writes applied w) as [w1 [[]|err]] eqn:E; [|by injection H as <- <-].
  eapply rollback_writes_inv in E; [|done| |done].
  - eapply rollback_dirs_inv; [done|by rewrite E| |done|done]. rewrite E. cbn. exact Hd.
  - rewrite <- Hf. by destruct (w_fs w).
Qed.

Lemma publish_all_inv fs0 pending applied created w w' r :
  plan_ok fs0 (applied ++ pending) → published fs0 applied created (w_fs w) → no_late_fault w →
  publish_all pending applied created w = (w', r) →
  match r with
  | Ok _ => files (w_fs w') = foldl publish_file (files fs0) (applied ++ pending)
  | Err (RolledBack _) => w_fs w' = fs0
  | Err (RollbackIncomplete _ _) => True
  end.
Proof.
  revert applied created w; induction pending as [|e pending IH]; intros applied created w Hok Hp Hl H.
  - injection H as <- <-. rewrite app_nil_r. by destruct Hp.
  - cbn [publish_all] in H.
    destruct (publish_entry e created w) as [[w1 created1] [[]|err]] eqn:E;
      apply (publish_entry_inv fs0 applied) in E as [Hl1 Hp1]; try done.
    + replace (applied ++ e :: pending) with ((applied ++ [e]) ++ pending) in * by (by rewrite <- app_assoc).
      apply IH in H; auto.
    + destruct (rollback applied created1 w1) as [w2 [[]|err2]] eqn:E2; injection H as <- <-; [|done].
      eapply rollback_restores; [by eapply plan_ok_app|by apply Hp1|done|done].
Qed.

(** ** Without failing calls the rollback always succeeds *)

Definition calm (w : World) : Prop := Forall (λ f, f = NoFault) (w_faults w).

(** Every file and directory lies in a directory, and no file is one. *)
Definition fs_wf (fs : Fs) : Prop :=
  (∀ p d, is_Some (files fs !! p) → path_parent p = Some d → d ∈ dirs fs) ∧
  (∀ p d, p ∈ dirs fs → path_parent p = Some d → d ∈ dirs fs) ∧
  (∀ p, is_Some (files fs !! p) → p ∉ dirs fs ∧ is_Some (path_parent p)).
(** No file is deleted above a place another entry writes to. *)
Definition no_nesting (pending : list PendingWrite) : Prop :=
  ∀ e e', e ∈ pending → e' ∈ pending → pw_content e = None →
          ¬ pw_path e `prefix_of` removelast (pw_path e').
(** The directories lie above places the entries write to. *)
Definition above (pending : list PendingWrite) (created : list path) : Prop :=
  ∀ d, d ∈ created → ∃ e, e ∈ pending ∧ d `prefix_of` removelast (pw_path e).

Lemma take_fault_calm w f w' : calm w → take_fault w = (f, w') → f = NoFault ∧ calm w'.
Proof.
  unfold calm, take_fault. destruct (w_faults w) eqn:E.
  - intros _ [= <- <-]. by rewrite E.
  - by intros [-> ?]%Forall_cons [= <- <-].
Qed.
Lemma syscall_calm {A} (run : Fs → Fs * result string A) w :
  calm w → ∃ w', syscall run w = (w', (run (w_fs w)).2) ∧ w_fs w' = (run (w_fs w)).1 ∧ calm w'.
Proof.
  intros Hc. unfold syscall. destruct (take_fault w) as [f w1] eqn:E.
  pose proof (take_fault_fs _ _ _ E) as Hfs. apply take_fault_calm in E as [-> Hc1]; [|done].
  rewrite Hfs. destruct (run (w_fs w)) as [fs r]. eexists; split_and!; done.
Qed.
Lemma syscall_keeps_calm {A} (run : Fs → Fs * result string A) w w' r :
  calm w → syscall run w = (w', r) → calm w'.
Proof. intros Hc H. destruct (syscall_calm run w Hc) as (w1 & E & _ & ?). congruence. Qed.

Lemma removelast_prefix (p : path) : removelast p `prefix_of` p.
Proof.
  destruct p as [|x p]; [done|]. exists [List.last (x :: p) ""%string]. by apply app_removelast_last.
Qed.
Lemma missing_directories_prefix fuel fs cursor d :
  d ∈ missing_directories fuel fs cursor → d `prefix_of` cursor.
Proof.
  revert cursor; induction fuel as [|fuel IH]; intros cursor; cbn; [by intros ?%elem_of_nil|].
  destruct (path_exists fs cursor); [by intros ?%elem_of_nil|].
  intros [->|Hd]%elem_of_cons; [done|]. destruct cursor as [|x p]; [by apply elem_of_nil in Hd|].
  cbn [path_parent] in Hd. apply IH in Hd. etrans; [exact Hd|apply removelast_prefix].
Qed.

Lemma create_directories_keeps ds created w w' created' r :
  create_directories ds created w = (w', created', r) →
  (calm w → calm w') ∧ ∀ d, d ∈ created' → d ∈ created ∨ d ∈ ds.
Proof.
  revert created w; induction ds as [|d ds IH]; intros created w H; cbn in H.
  - injection H as <- <- <-. naive_solver.
  - destruct (fs_create_dir d w) as [w1 [[]|m]] eqn:E.
    + apply IH in H as [Hc Hin]. split; [intros Hw; by eapply syscall_keeps_calm in E; auto|].
      intros q [Hq|Hq]%Hin; [|right; by right].
      rewrite elem_of_app, list_elem_of_singleton in Hq. rewrite elem_of_cons. naive_solver.
    + injection H as <- <- <-. split; [intros Hw; by eapply syscall_keeps_calm|naive_solver].
Qed.

Lemma write_atomic_calm p expected contents permissions w w' r :
  calm w → write_atomic_if_unchanged p expected contents permissions w = (w', r) → calm w'.
Proof.
  unfold write_atomic_if_unchanged, write_atomic_inner. intros Hc.
  destruct (path_parent p); [|by intros [= <- <-]].
  destruct (take_fault w) as [f w1] eqn:E. apply take_fault_calm in E as [-> Hc1]; [|done].
  repeat case_match; intros [= <- <-]; done.
Qed.
Lemma read_and_remove_calm {E} (f g : string → E) stale p expected w w' (r : result E unit) :
  calm w →
  io_bind (io_map_err f (fs_read p)) (λ current,
    if current !=? expected then io_lift (Err stale) else io_map_err g (fs_remove_file p)) w = (w', r) →
  calm w'.
Proof.
  unfold io_bind, io_map_err. intros Hc. destruct (fs_read p w) as [w1 [c|m]] eqn:E1;
    apply syscall_keeps_calm in E1; try done; [|by intros [= <- <-]].
  case_match; [by intros [= <- <-]|].
  destruct (fs_remove_file p w1) as [w2 [[]|m]] eqn:E2; apply syscall_keeps_calm in E2; try done;
    by intros [= <- <-].
Qed.

Lemma publish_entry_keeps e created w w' created' r pending :
  e ∈ pending → above pending created → publish_entry e created w = (w', created', r) →
  above pending created' ∧ (calm w → calm w').
Proof.
  intros He Ha. unfold publish_entry. destruct (pw_content e) as [content|] eqn:Ec.
  - destruct (create_missing_parent_directories (pw_path e) created w) as [[w1 created1] r1] eqn:E1.
    assert (H1 : above pending created1 ∧ (calm w → calm w1)).
    { unfold create_missing_parent_directories in E1.
      destruct (path_parent (pw_path e)) as [parent|] eqn:Ep; [|injection E1 as <- <- <-; done].
      apply create_directories_keeps in E1 as [Hc Hin]. split; [|done].
      intros d [Hd|Hd]%Hin; [by apply Ha|]. exists e. split; [done|].
      apply elem_of_reverse, missing_directories_prefix in Hd. unfold path_parent in Ep.
      destruct (pw_path e); [done|]. by injection Ep as <-. }
    destruct H1 as [H1 Hc1]. destruct r1; [|intros [= <- <- <-]; done]. unfold io_map_err.
    destruct (write_atomic_if_unchanged _ _ _ _ w1) as [w2 [[]|err]] eqn:E2; intros [= <- <- <-];
      (split; [done|]); intros Hw; by apply write_atomic_calm in E2; auto.
  - unfold remove_file_if_unchanged. destruct (pw_original e); cbn; [|intros [= <- <- <-]; done].
    match goal with |- (let '(w, r) := ?x in _) = _ → _ => destruct x as [w1 r1] eqn:E1 end.
    intros [= <- <- <-]. split; [done|]. intros Hw. by apply read_and_remove_calm in E1.
Qed.

Lemma write_atomic_succeeds p expected contents permissions w :
  calm w → (∃ parent, path_parent p = Some parent ∧ parent ∈ dirs (w_fs w)) →
  expected = fst <$> files (w_fs w) !! p → (expected = None → p ∉ dirs (w_fs w)) →
  ∃ w', write_atomic_if_unchanged p expected contents permissions w = (w', Ok tt) ∧ calm w'.
Proof.
  intros Hc (parent & Hpar & Hin) He Hd.
  unfold write_atomic_if_unchanged, write_atomic_inner. rewrite Hpar.
  destruct (take_fault w) as [f w1] eqn:E. pose proof (take_fault_fs _ _ _ E) as Hfs.
  apply take_fault_calm in E as [-> Hc1]; [|done]. rewrite Hfs, bool_decide_true by done. cbn [negb].
  destruct expected as [c|].
  - rewrite bool_decide_true by done. by eexists.
  - assert (Hno : path_exists (w_fs w) p = false).
    { unfold path_exists. apply orb_false_iff. rewrite !bool_decide_eq_false. split; [|by apply Hd].
      destruct (files (w_fs w) !! p); [done|]. by intros []. }
    rewrite Hno. by eexists.
Qed.

Lemma read_and_remove_succeeds {E} (f g : string → E) stale p c w :
  calm w → fst <$> files (w_fs w) !! p = Some c →
  ∃ w', io_bind (io_map_err f (fs_read p)) (λ current,
    if current !=? c then io_lift (Err stale) else io_map_err g (fs_remove_file p)) w = (w', Ok tt) ∧
    calm w'.
Proof.
  intros Hc Hp. unfold io_bind, io_map_err.
  destruct (syscall_calm (λ fs, (fs, ok_or (fst <$> files fs !! p) NOT_FOUND)) w Hc)
    as (w1 & E1 & Hfs1 & Hc1).
  unfold fs_read. rewrite E1. cbn in Hfs1 |- *. rewrite Hp. cbn. rewrite bool_decide_true by done. cbn.
  unfold fs_remove_file. match goal with |- context [syscall ?run w1] =>
    destruct (syscall_calm run w1 Hc1) as (w2 & E2 & _ & Hc2) end.
  rewrite E2, Hfs1. destruct (files (w_fs w) !! p); [|done]. cbn. by exists w2.
Qed.

Lemma rollback_entry_succeeds fs0 ds m e w :
  calm w → fs_wf fs0 → m !! pw_path e = files fs0 !! pw_path e → planned m e →
  (∀ d, d ∈ dirs fs0 → d ∈ ds) → (pw_content e = None → pw_path e ∉ ds) →
  w_fs w = mkFs (publish_file m e) ds →
  ∃ w', rollback_entry e w = (w', Ok tt) ∧ calm w'.
Proof.
  intros Hc (Hwf & _ & Hwf3) Hm0 (Ho & Hperm & Hdel) Hds Hnew Hw. unfold rollback_entry, io_map_err.
  rewrite Hm0 in Ho, Hperm.
  destruct (files fs0 !! pw_path e) as [[c mode]|] eqn:Em; cbn in Ho, Hperm; rewrite Ho.
  - destruct (Hwf3 (pw_path e)) as [Hnd [parent Hpar]]; [by rewrite Em|].
    destruct (write_atomic_succeeds (pw_path e) (pw_content e) c (pw_original_permissions e) w)
      as (w1 & -> & Hc1).
    + done.
    + exists parent. split; [done|]. rewrite Hw. cbn. apply Hds. eapply Hwf; [|done]. by rewrite Em.
    + rewrite Hw. cbn. unfold publish_file.
      destruct (pw_content e); [by rewrite lookup_insert_eq|by rewrite lookup_delete_eq].
    + rewrite Hw. by apply Hnew.
    + by exists w1.
  - destruct (pw_content e) as [content|] eqn:Ec; [|destruct (Hdel eq_refl); congruence]. cbn.
    apply read_and_remove_succeeds; [done|]. rewrite Hw. cbn. unfold publish_file. rewrite Ec.
    by rewrite lookup_insert_eq.
Qed.

Lemma rollback_writes_succeeds fs0 applied ds w :
  calm w → fs_wf fs0 → plan_ok fs0 applied → (∀ d, d ∈ dirs fs0 → d ∈ ds) →
  (∀ e, e ∈ applied → pw_content e = None → pw_path e ∉ ds) →
  w_fs w = mkFs (foldl publish_file (files fs0) applied) ds →
  ∃ w', rollback_pending_writes applied w = (w', Ok tt) ∧ calm w'.
Proof.
  intros Hc Hwf Hok Hds. revert w Hc; induction applied as [|e applied IH] using rev_ind;
    intros w Hc Hnew Hw; [by exists w|].
  unfold rollback_pending_writes. rewrite reverse_snoc. cbn [io_for_each].
  rewrite foldl_app in Hw. cbn in Hw.
  assert (Hm : foldl publish_file (files fs0) applied !! pw_path e = files fs0 !! pw_path e).
  { destruct Hok as [_ Hn]. rewrite fmap_app, NoDup_app in Hn. destruct Hn as (_ & Hn & _).
    apply foldl_publish_other. intros Hin. apply (Hn _ Hin). left. }
  assert (Hpl : planned (foldl publish_file (files fs0) applied) e).
  { eapply planned_ext; [by symmetry|]. destruct Hok as [Hok _].
    rewrite Forall_app, Forall_singleton in Hok. naive_solver. }
  destruct (rollback_entry_succeeds fs0 ds (foldl publish_file (files fs0) applied) e w)
    as (w1 & E & Hc1); [done..| |done|].
  { intros Hnone. apply Hnew; [|done]. apply elem_of_app. right. left. }
  unfold io_bind. rewrite E.
  eapply rollback_entry_inv in E; [|done|done|done].
  destruct (IH ltac:(by eapply plan_ok_app) w1) as (w2 & E2 & Hc2); [done| |done|].
  { intros e' He'. apply Hnew. apply elem_of_app. by left. }
  unfold rollback_pending_writes in E2. rewrite E2. by exists w2.
Qed.

Lemma rollback_dirs_succeeds fs0 created w :
  calm w → fs_wf fs0 → created_on (dirs fs0) created → files (w_fs w) = files fs0 →
  (∀ d, d ∈ dirs (w_fs w) ↔ d ∈ dirs fs0 ∨ d ∈ created) →
  ∃ w', rollback_created_directories created w = (w', Ok tt) ∧ calm w'.
Proof.
  intros Hc (Hwf1 & Hwf2 & _) Hcr. revert w Hc.
  induction Hcr as [|l d parent Hcr IH Hd Hl Hpar Hin]; intros w Hc Hf Hds; [by exists w|].
  unfold rollback_created_directories. rewrite reverse_snoc. cbn [io_for_each].
  unfold io_bind at 1, io_map_err at 1. unfold fs_remove_dir at 1.
  match goal with |- context [syscall ?run w] =>
    destruct (syscall_calm run w Hc) as (w1 & E1 & Hfs1 & Hc1) end.
  assert (Hchild : has_child (w_fs w) d = false).
  { apply existsb_false_elem_of. intros q Hq. apply bool_decide_eq_false. intros Hq2.
    rewrite elem_of_elements, elem_of_union, elem_of_dom, Hf in Hq.
    destruct Hq as [Hq|Hq]; [by eapply Hd, Hwf1|].
    rewrite Hds, elem_of_app, list_elem_of_singleton in Hq. destruct Hq as [Hq|[Hq| ->]].
    - by eapply Hd, Hwf2.
    - clear -Hcr Hq Hq2 Hd Hl. induction Hcr as [|l q' parent' Hcr IH _ Hl' Hpar' Hin'].
      + by apply elem_of_nil in Hq.
      + rewrite elem_of_app, list_elem_of_singleton in Hq, Hl. destruct Hq as [Hq| ->]; [naive_solver|].
        rewrite Hpar' in Hq2. injection Hq2 as ->. naive_solver.
    - rewrite Hpar in Hq2. injection Hq2 as ->. naive_solver. }
  rewrite E1. rewrite bool_decide_false in E1 |- * by (rewrite Hds, elem_of_app; intros Hn; apply Hn; right; right; left).
  rewrite bool_decide_false in Hfs1 by (rewrite Hds, elem_of_app; intros Hn; apply Hn; right; right; left).
  rewrite Hchild in *. cbn in Hfs1 |- *.
  destruct (IH w1 Hc1) as (w2 & E2 & Hc2); [by rewrite Hfs1| |].
  { intros q. rewrite Hfs1. cbn.
    rewrite elem_of_difference, elem_of_singleton, Hds, elem_of_app, list_elem_of_singleton.
    split; [naive_solver|]. intros [?|?]; (split; [naive_solver|]); intros ->; done. }
  unfold rollback_created_directories in E2. rewrite E2. by exists w2.
Qed.

Lemma rollback_succeeds fs0 applied created w pending :
  calm w → fs_wf fs0 → plan_ok fs0 applied → published fs0 applied created (w_fs w) →
  no_nesting pending → above pending created → (∀ e, e ∈ applied → e ∈ pending) →
  ∃ w', rollback applied created w = (w', Ok tt).
Proof.
  intros Hc Hwf Hok Hp Hnest Ha Hsub. destruct Hp as [Hf Hd Hcr]. unfold rollback, io_bind.
  assert (Hw : w_fs w = mkFs (foldl publish_file (files fs0) applied) (dirs (w_fs w))).
  { rewrite <- Hf. by destruct (w_fs w). }
  destruct (rollback_writes_succeeds fs0 applied (dirs (w_fs w)) w) as (w1 & E1 & Hc1); try done.
  - intros d Hin. apply Hd. by left.
  - intros e He Hnone. rewrite Hd. intros [Hin|Hin].
    + destruct Hok as [Hpl _]. rewrite Forall_forall in Hpl.
      destruct (Hpl e He) as (Ho & _ & Hdel). destruct (Hdel Hnone) as [c Hcont].
      destruct Hwf as (_ & _ & Hwf3). apply (Hwf3 (pw_path e)); [|done].
      destruct (files fs0 !! pw_path e); [by eexists|]. cbn in Ho. congruence.
    + destruct (Ha _ Hin) as (e' & He' & Hpre). by apply (Hnest e e'); auto.
  - rewrite E1. eapply rollback_writes_inv in E1; [|done|done|done].
    destruct (rollback_dirs_succeeds fs0 created w1) as (w2 & E2 & _); try done; [by rewrite E1..|].
    by exists w2.
Qed.
