(* ===== verification/PatchExecFacts.v ===== *)
(** The whole [apply_patch] request: planning reads the workspace and writes nothing, and what it
    plans is published all or nothing. *)
From Stdlib Require Import Ascii String.
From S2P Require Import Prelude.
From S2P Require Import Text.
From S2P Require Import Json.
From S2P Require Import TextOps.
From S2P Require Import Patch.
From S2P Require Import PatchFiles.

Open Scope string_scope.
Open Scope list_scope.
Open Scope N_scope.

(** ** Rollback leaves nothing behind when no call fails *)

Lemma publish_all_calm fs0 pending applied created w w' r :
  calm w → fs_wf fs0 → plan_ok fs0 (applied ++ pending) → published fs0 applied created (w_fs w) →
  no_nesting (applied ++ pending) → above (applied ++ pending) created →
  publish_all pending applied created w = (w', r) → ∀ err rb, r ≠ Err (RollbackIncomplete err rb).
Proof.
  revert applied created w; induction pending as [|e pending IH];
    intros applied created w Hc Hwf Hok Hp Hnest Ha H err0 rb0; [by injection H as <- <-|].
  cbn [publish_all] in H.
  destruct (publish_entry e created w) as [[w1 created1] r1] eqn:E.
  destruct (publish_entry_keeps _ _ _ _ _ _ (applied ++ e :: pending)
              ltac:(apply elem_of_app; right; left) Ha E) as [Ha1 Hc1].
  pose proof (publish_entry_inv fs0 applied _ _ _ _ _ _ Hp E) as [_ Hp1].
  destruct r1 as [[]|err].
  - replace (applied ++ e :: pending) with ((applied ++ [e]) ++ pending) in * by (by rewrite <- app_assoc).
    by eapply IH in H; eauto.
  - destruct (rollback_succeeds fs0 applied created1 w1 (applied ++ e :: pending)) as [w2 E2]; auto.
    + by eapply plan_ok_app.
    + apply Hp1. unfold no_late_fault. eapply Forall_impl; [exact Hc|]. by intros ? ->.
    + intros e' ?. apply elem_of_app. by left.
    + rewrite E2 in H. by injection H as <- <-.
Qed.

(** ** Planning *)

(** A step of the planning: it leaves the files alone and yields a [P]. *)
Definition plans (fs : Fs) {E A} (P : A → Prop) (m : io E A) : Prop :=
  ∀ w w' r, w_fs w = fs → m w = (w', r) →
    w_fs w' = fs ∧ (no_late_fault w → no_late_fault w') ∧ (calm w → calm w') ∧
    ∀ a, r = Ok a → P a.

Section planning.
Context (fs : Fs).

Lemma plans_bind {E A B} (P : A → Prop) (Q : B → Prop) (m : io E A) f :
  plans fs P m → (∀ a, P a → plans fs Q (f a)) → plans fs Q (io_bind m f).
Proof.
  intros Hm Hf w w' r Hw. unfold io_bind. destruct (m w) as [w1 [a|e]] eqn:E1;
    apply Hm in E1 as (Hw1 & Hl & Hc & Ha); try done.
  - intros E2. eapply Hf in E2 as (? & ? & ? & ?); naive_solver.
  - intros [= <- <-]. naive_solver.
Qed.
Lemma plans_ret {E A} (P : A → Prop) a : P a → plans fs P (io_ret (E:=E) a).
Proof. intros Ha w w' r Hw [= <- <-]. naive_solver. Qed.
Lemma plans_lift {E A} (r : result E A) : plans fs (λ a, r = Ok a) (io_lift r).
Proof. intros w w' r' Hw [= <- <-]. naive_solver. Qed.
Lemma plans_fail_if b e : plans fs (λ _, b = false) (io_fail_if b e).
Proof. intros w w' r Hw [= <- <-]. destruct b; naive_solver. Qed.

Lemma plans_read_original p : plans fs (λ o, o = fst <$> files fs !! p) (read_original p).
Proof.
  intros w w' r Hw. unfold read_original. destruct (path_exists (w_fs w) p) eqn:Ee.
  - unfold io_bind, read_file_content, io_map_err. destruct (fs_read p w) as [w1 [c|m]] eqn:E;
      pose proof (fs_read_inv _ _ _ _ E) as (Hl & Hfs & Hc); intros [= <- <-];
      (split_and!; [congruence|done|by intros ?; eapply syscall_keeps_calm|]); [|done].
    intros a [= <-]. rewrite <- Hw. symmetry. by apply Hc.
  - intros [= <- <-]. split_and!; [done..|]. intros a [= <-]. unfold path_exists in Ee.
    apply orb_false_iff in Ee as [Ee _]. apply bool_decide_eq_false, eq_None_not_Some in Ee.
    rewrite Hw in Ee. by rewrite Ee.
Qed.
Lemma plans_permissions {E} p :
  plans fs (λ o, o = snd <$> files fs !! p) (λ w, (w, Ok (E:=E) (permissions_of w p))).
Proof. intros w w' r Hw [= <- <-]. split_and!; [done..|]. intros a [= <-]. unfold permissions_of. by rewrite Hw. Qed.

(** Where a write may go: the context allows it, and it is not yet taken. *)
Definition fits (context : ProductionToolContext) (taken : list path) (e : PendingWrite) : Prop :=
  planned (files fs) e ∧ pw_path e ∉ taken ∧ ∃ raw, resolve_write_path context raw = Ok (pw_path e).

Lemma plans_file_patch context fuzz taken file_patch :
  plans fs (λ '(e, _, _), fits context taken e) (plan_file_patch context fuzz taken file_patch).
Proof.
  unfold plan_file_patch.
  eapply plans_bind; [apply plans_fail_if|intros _ _].
  eapply plans_bind; [apply plans_lift|intros resolved Hres].
  eapply plans_bind; [apply plans_fail_if|intros ? Hnew%bool_decide_eq_false].
  eapply plans_bind; [apply plans_read_original|intros original Ho].
  eapply plans_bind; [apply plans_permissions|intros perms Hperm].
  eapply plans_bind; [apply plans_fail_if|intros _ _].
  eapply plans_bind; [apply plans_fail_if|intros _ _].
  eapply plans_bind; [apply plans_fail_if|intros ? Hdel].
  eapply plans_bind; [apply plans_lift|intros [lines stats] _].
  eapply plans_bind; [apply plans_fail_if|intros _ _].
  destruct (fp_delete_after file_patch).
  - apply plans_ret. split_and!; [|done|by exists (fp_path file_patch)].
    split_and!; [done..|]. intros _. cbn. destruct original; [by eexists|done].
  - eapply plans_bind; [apply plans_fail_if|intros _ _]. apply plans_ret.
    split_and!; [|done|by exists (fp_path file_patch)]. split_and!; done.
Qed.
Lemma plans_change context taken change :
  plans fs (λ '(e, _, _), fits context taken e) (plan_change context taken change).
Proof.
  unfold plan_change.
  eapply plans_bind; [apply plans_lift|intros [p content] _].
  eapply plans_bind; [apply plans_lift|intros resolved Hres].
  eapply plans_bind; [apply plans_fail_if|intros ? Hnew%bool_decide_eq_false].
  eapply plans_bind; [apply plans_read_original|intros original Ho].
  eapply plans_bind; [apply plans_fail_if|intros _ _].
  eapply plans_bind; [apply plans_permissions|intros perms Hperm].
  apply plans_ret. split_and!; [|done|by exists p]. split_and!; done.
Qed.

(** A whole plan: consistent with the files, and only where the context allows. *)
Definition well_planned (context : ProductionToolContext) (pending : list PendingWrite) : Prop :=
  plan_ok fs pending ∧ Forall (λ e, ∃ raw, resolve_write_path context raw = Ok (pw_path e)) pending.

Lemma well_planned_snoc context pending e :
  well_planned context pending → fits context (pw_path <$> pending) e →
  well_planned context (pending ++ [e]).
Proof.
  intros [[Hpl Hn] Hr] (Hp & Hnew & Hraw). split; [split|].
  - by rewrite Forall_app, Forall_singleton.
  - rewrite fmap_app. apply NoDup_app. split_and!; [done| |apply NoDup_singleton].
    intros x Hx ->%list_elem_of_singleton. done.
  - by rewrite Forall_app, Forall_singleton.
Qed.
Lemma well_planned_nil context : well_planned context [].
Proof. split; [split|]; by constructor. Qed.

Lemma plans_file_patches context fuzz file_patches pending stats :
  well_planned context pending →
  plans fs (λ '(pending, _), well_planned context pending)
        (plan_file_patches context fuzz file_patches pending stats).
Proof.
  revert pending stats; induction file_patches as [|f fp IH]; intros pending stats Hp.
  - by apply plans_ret.
  - cbn. eapply plans_bind; [apply plans_file_patch|]. intros [[e a] m] He.
    by apply IH, well_planned_snoc.
Qed.
Lemma plans_changes context changes pending stats :
  well_planned context pending →
  plans fs (λ '(pending, _), well_planned context pending)
        (plan_changes context changes pending stats).
Proof.
  revert pending stats; induction changes as [|c cs IH]; intros pending stats Hp.
  - by apply plans_ret.
  - cbn. eapply plans_bind; [apply plans_change|]. intros [[e p] m] He.
    by apply IH, well_planned_snoc.
Qed.
End planning.

(** Whatever the input, a request is a plan followed by its publication. *)
Lemma execute_is_plan_then_publish input context w w' r :
  execute_apply_patch input context w = (w', r) →
  (∃ e, r = Err e ∧ w_fs w' = w_fs w) ∨
  ∃ pending w1 published, well_planned (w_fs w) context pending ∧ w_fs w1 = w_fs w ∧
    (no_late_fault w → no_late_fault w1) ∧ (calm w → calm w1) ∧
    publish_all pending [] [] w1 = (w', published) ∧
    match published with
    | Ok _ => is_ok r = true
    | Err f => r = Err (patch_failure_error f)
    end.
Proof.
  assert (Hrun : ∀ (plan : io ToolError (list PendingWrite * PatchStatsExt))
                   (f : PatchStatsExt → PatchStatsExt) p,
    plans (w_fs w) (λ '(pending, _), well_planned (w_fs w) context pending) plan →
    io_bind plan (λ '(pending, stats), io_bind (apply_pending_writes pending) (λ _,
      io_ret (patch_outcome (f stats) p))) w = (w', r) →
    (∃ e, r = Err e ∧ w_fs w' = w_fs w) ∨
    ∃ pending w1 published, well_planned (w_fs w) context pending ∧ w_fs w1 = w_fs w ∧
      (no_late_fault w → no_late_fault w1) ∧ (calm w → calm w1) ∧
      publish_all pending [] [] w1 = (w', published) ∧
      match published with
      | Ok _ => is_ok r = true
      | Err f => r = Err (patch_failure_error f)
      end).
  { intros plan f p Hplan. unfold io_bind, apply_pending_writes.
    destruct (plan w) as [w1 [[pending stats]|e]] eqn:E1; apply Hplan in E1 as (Hw1 & Hl & Hc & Hok); try done.
    - destruct (publish_all pending [] [] w1) as [w2 pub] eqn:E2. intros H. right.
      exists pending, w1, pub. specialize (Hok _ eq_refl).
      destruct pub; injection H as <- <-; by split_and!.
    - intros [= <- <-]. left. eauto. }
  unfold execute_apply_patch. unfold io_bind at 1. cbn [io_lift].
  unfold io_lift. destruct (preflight_apply_patch_plan input) as [preflight|e];
    [|intros [= <- <-]; left; eauto].
  destruct (value_get "changes" input) as [changes_value|].
  - apply (Hrun _ id). eapply plans_bind; [apply plans_lift|intros changes _].
    apply plans_changes, well_planned_nil.
  - apply (Hrun _ (λ stats, mkPatchStatsExt (pe_stats stats) (pe_touched_files stats)
      (pe_file_summaries stats) (ap_header_path_mismatch (ap_summary preflight)))).
    apply plans_file_patches, well_planned_nil.
Qed.

(** The context names no place below a file. *)
Definition under_no_file (context : ProductionToolContext) (fs : Fs) : Prop :=
  ∀ (raw : string) (q p : path), resolve_write_path context raw = Ok q → is_Some (files fs !! p) →
             ¬ p `prefix_of` removelast q.

Lemma well_planned_no_nesting fs context pending :
  well_planned fs context pending → under_no_file context fs → no_nesting pending.
Proof.
  intros [[Hpl _] Hr] Hno e e' He He' Hdel Hpre. rewrite !Forall_forall in *.
  destruct (Hr e' He') as [raw Hraw]. destruct (Hpl e He) as (Ho & _ & Hsome).
  apply (Hno raw _ (pw_path e) Hraw); [|exact Hpre].
  apply (fmap_is_Some fst). rewrite <- Ho. by apply Hsome.
Qed.


(** ** Where a failure leaves changes behind *)

(** Replacing one file when the sync of its directory fails after the rename: the request is
    refused as if nothing had happened, but the file has its new content. *)
Theorem late_sync_failure_keeps_the_write fs p d c mode new m :
  files fs !! p = Some (c, mode) → path_parent p = Some d → d ∈ dirs fs →
  ∃ w', publish_all [mkPendingWrite p (Some new) (Some c) (Some mode)] [] []
          (mkWorld fs [FailAfter m]) =
        (w', Err (RolledBack (ExecutionFailed ("Failed to write " ++ path_display p ++ ": " ++ m)%string))) ∧
        files (w_fs w') !! p = Some (new, mode).
Proof.
  intros Hp Hpar Hd. unfold publish_all, publish_entry. cbn [pw_content pw_path].
  unfold create_missing_parent_directories. rewrite Hpar. cbn [missing_directories w_fs].
  unfold path_exists. rewrite (bool_decide_true (d ∈ dirs fs)) by done. rewrite orb_true_r.
  cbn [reverse rev_append create_directories]. unfold io_map_err, write_atomic_if_unchanged, write_atomic_inner.
  cbn [pw_path pw_original pw_original_permissions]. rewrite Hpar. cbn [take_fault w_faults w_fs].
  rewrite (bool_decide_true (d ∈ dirs fs)) by done. cbn [negb]. rewrite Hp. cbn [fmap option_fmap option_map fst].
  rewrite bool_decide_true by done. cbn. eexists. split; [done|]. cbn. by rewrite lookup_insert_eq.
Qed.

(** Deleting [a], creating [a/b] and meeting a third file that changed after validation: the
    rollback restores [a] before it removes the directory of [a/b], so it cannot, and the old file
    is gone although no call of the operating system was at fault. *)
Definition nested_fs : Fs :=
  mkFs {[ ["a"]%string := ("old", 420); ["c"]%string := ("there", 420) ]} {[ [] ]}.
Definition nested_request : list PendingWrite :=
  [ mkPendingWrite ["a"]%string None (Some "old"%string) (Some 420);
    mkPendingWrite ["a"; "b"]%string (Some "new"%string) None None;
    mkPendingWrite ["c"]%string (Some "mine"%string) (Some "stale"%string) (Some 420) ].

Theorem nested_rollback_is_incomplete :
  ∃ w' err rb, publish_all nested_request [] [] (mkWorld nested_fs []) =
               (w', Err (RollbackIncomplete err rb)) ∧
               files (w_fs w') !! ["a"]%string = None ∧ ["a"]%string ∈ dirs (w_fs w').
Proof.
  eexists _, _, _. split; [vm_compute; reflexivity|]. split; [vm_compute; reflexivity|].
  vm_compute. by apply (bool_decide_unpack _).
Qed.
