(* ===== verification/Ledger.v ===== *)
(** The DeepSeek request ledger ([crates/deepseek/src/accounting.rs], [pricing.rs]) and its
    projection into the run's accounting ([model_port.rs]).

    One ledger is shared, under a mutex, by the root agent and its children.  A physical request
    is admitted as a lease; the lease is settled once, either by the accounting guard it is
    handed to or by its own drop.  Each operation below is the body run under the mutex, so an
    interleaving of threads is a sequence of operations. *)
From Stdlib Require Import Ascii String.
From S2P Require Import Prelude.
From S2P Require Import Text.
From S2P Require Import Json.
From S2P Require Import Task.
From S2P Require Import Protocol.
From S2P Require Import Accounting.
From S2P Require Import TextOps.

Open Scope string_scope.
Open Scope N_scope.

(** ** Pricing *)

Record CostEstimate := mkCostEstimate { usd : f64; cny : f64 }.
Record CurrencyPricing := mkCurrencyPricing {
  cache_hit_per_million : f64;
  cache_miss_per_million : f64;
  output_per_million : f64;
}.
Record ModelPricing := mkModelPricing { mp_usd : CurrencyPricing; mp_cny : CurrencyPricing }.

Definition pricing_for_official_model (model : string) : option ModelPricing :=
  let name := trim model in
  if name ==? "deepseek-v4-pro" then
    Some (mkModelPricing
      (mkCurrencyPricing (f64_literal 3625 1000000) (f64_literal 435 1000) (f64_literal 87 100))
      (mkCurrencyPricing (f64_literal 25 1000) (f64_literal 3 1) (f64_literal 6 1)))
  else if name ==? "deepseek-v4-flash" then
    Some (mkModelPricing
      (mkCurrencyPricing (f64_literal 28 10000) (f64_literal 14 100) (f64_literal 28 100))
      (mkCurrencyPricing (f64_literal 2 100) (f64_literal 1 1) (f64_literal 2 1)))
  else None.

(** The input tokens billed at the cache-miss rate: those reported as misses, those written to
    the cache, and those no class was reported for. *)
Definition billed_cache_miss (usage : Usage) : N :=
  let categorized := sat_add64 (sat_add64 (us_cache_hit_tokens usage) (us_cache_miss_tokens usage))
                               (us_cache_write_tokens usage) in
  let uncategorized := us_input_tokens usage - categorized in
  sat_add64 (sat_add64 (us_cache_miss_tokens usage) (us_cache_write_tokens usage)) uncategorized.

Definition cost_with_pricing (pricing : CurrencyPricing) (usage : Usage) : f64 :=
  let million := f64_of_N 1000000 in
  let cost tokens rate := f64_mul (f64_div (f64_of_N tokens) million) rate in
  f64_add (f64_add (cost (us_cache_hit_tokens usage) (cache_hit_per_million pricing))
                   (cost (billed_cache_miss usage) (cache_miss_per_million pricing)))
          (cost (us_output_tokens usage) (output_per_million pricing)).

Definition calculate_turn_cost_estimate (model : string) (usage : Usage) : option CostEstimate :=
  pricing ← pricing_for_official_model model;
  Some (mkCostEstimate (cost_with_pricing (mp_usd pricing) usage)
                       (cost_with_pricing (mp_cny pricing) usage)).

Definition response_cost (model : string) (usage : option Usage) : option (f64 * f64) :=
  usage ← usage;
  cost ← calculate_turn_cost_estimate model usage;
  Some (usd cost, cny cost).

(** ** Ledger data *)

Inductive ApiRequestActor := ActorRoot | ActorChild.
#[export] Instance ApiRequestActor_eq_dec : EqDecision ApiRequestActor.
Proof. solve_decision. Defined.

Inductive ApiRequestKind := Inference | Control.
#[export] Instance ApiRequestKind_eq_dec : EqDecision ApiRequestKind.
Proof. solve_decision. Defined.

Record ApiRequestActorCounters := mkApiRequestActorCounters {
  rc_started : N;
  rc_in_flight : N;
  rc_completed : N;
}.
Definition ApiRequestActorCounters_default := mkApiRequestActorCounters 0 0 0.

Record ApiUsageBucket := mkApiUsageBucket {
  ub_model : string;
  ub_surface : ApiSurface;
  ub_response_count : N;
  ub_usage_responses : N;
  ub_usage : Usage;
  ub_cost_usd : f64;
  ub_cost_cny : f64;
}.

Record ApiRequestBudgetState := mkApiRequestBudgetState {
  rb_limit : N;
  rb_started : N;
  rb_in_flight : N;
  rb_completed : N;
  rb_exhausted_denied : N;
  rb_sealed_denied : N;
  rb_sealed : bool;
  rb_usage : Usage;
  rb_usage_responses : N;
  rb_standard_chat_responses : N;
  rb_strict_chat_responses : N;
  rb_usage_buckets : list ApiUsageBucket;
  rb_responses_missing_usage : N;
  rb_incomplete_responses : N;
  rb_billing_unknown_attempts : N;
  rb_unpriced_usage_responses : N;
  rb_usage_records_after_seal : N;
  rb_cost_usd : f64;
  rb_cost_cny : f64;
  rb_root : ApiRequestActorCounters;
  rb_child : ApiRequestActorCounters;
}.
#[export] Instance ApiRequestBudgetState_settable : Settable ApiRequestBudgetState := λ s,
  mkApiRequestBudgetState (rb_limit s) (rb_started s) (rb_in_flight s) (rb_completed s)
    (rb_exhausted_denied s) (rb_sealed_denied s) (rb_sealed s) (rb_usage s) (rb_usage_responses s)
    (rb_standard_chat_responses s) (rb_strict_chat_responses s) (rb_usage_buckets s)
    (rb_responses_missing_usage s) (rb_incomplete_responses s) (rb_billing_unknown_attempts s)
    (rb_unpriced_usage_responses s) (rb_usage_records_after_seal s) (rb_cost_usd s)
    (rb_cost_cny s) (rb_root s) (rb_child s).

Inductive ApiRequestBudgetError :=
| Exhausted (limit started : N)
| Sealed (limit started : N).

(** A lease points to the shared ledger, which is the state the operations take. *)
Record ApiRequestLease := mkApiRequestLease {
  rl_actor : ApiRequestActor;
  rl_kind : ApiRequestKind;
  rl_response_received : bool;
  rl_billing_unknown : bool;
  rl_usage_expected : bool;
  rl_settled : bool;
}.
#[export] Instance ApiRequestLease_settable : Settable ApiRequestLease := λ l,
  mkApiRequestLease (rl_actor l) (rl_kind l) (rl_response_received l) (rl_billing_unknown l)
    (rl_usage_expected l) (rl_settled l).

Record ApiResponseAccountingGuard := mkApiResponseAccountingGuard {
  rg_request_lease : option ApiRequestLease;
  rg_model : string;
  rg_surface : ApiSurface;
  rg_observed_usage : option Usage;
  rg_observed_wire_usage : option Value;
  rg_settled : bool;
}.
#[export] Instance ApiResponseAccountingGuard_settable : Settable ApiResponseAccountingGuard := λ g,
  mkApiResponseAccountingGuard (rg_request_lease g) (rg_model g) (rg_surface g)
    (rg_observed_usage g) (rg_observed_wire_usage g) (rg_settled g).

(** ** Counters *)

(** [a += 1] on [u32] without overflow checks. *)
Definition wrapping_incr32 (a : N) : N := (a + 1) mod (U32_MAX + 1).
Abbreviation sat_incr32 a := (sat_add32 a 1).

Definition actor_counters (s : ApiRequestBudgetState) (actor : ApiRequestActor)
    : ApiRequestActorCounters :=
  match actor with ActorRoot => rb_root s | ActorChild => rb_child s end.
Definition actor_counters_mut (s : ApiRequestBudgetState) (actor : ApiRequestActor)
    (f : ApiRequestActorCounters → ApiRequestActorCounters) : ApiRequestBudgetState :=
  match actor with
  | ActorRoot => s <| rb_root := f (rb_root s) |>
  | ActorChild => s <| rb_child := f (rb_child s) |>
  end.

(** What [debug_assert_actor_totals] asserts. *)
Definition actor_totals (s : ApiRequestBudgetState) : bool :=
  (rb_started s =? rc_started (rb_root s) + rc_started (rb_child s))
  && (rb_in_flight s =? rc_in_flight (rb_root s) + rc_in_flight (rb_child s))
  && (rb_completed s =? rc_completed (rb_root s) + rc_completed (rb_child s)).

(** ** Usage *)

Definition usage_contract_complete (usage : Usage) (wire_usage : option Value) : bool :=
  match wire_usage ≫= as_object with
  | None => false
  | Some wire =>
    let integer field := object_get field wire ≫= as_u64 in
    match integer "prompt_tokens", integer "completion_tokens", integer "total_tokens",
          integer "prompt_cache_hit_tokens", integer "prompt_cache_miss_tokens" with
    | Some prompt, Some completion, Some total, Some hit, Some miss =>
      let reasoning :=
        details ← object_get "completion_tokens_details" wire;
        details ← as_object details;
        tokens ← object_get "reasoning_tokens" details;
        as_u64 tokens in
      (checked_add64 prompt completion ==? Some total)
      && (checked_add64 hit miss ==? Some prompt)
      && is_none_or reasoning (λ tokens, tokens <=? completion)
      && (us_input_tokens usage =? prompt)
      && (us_output_tokens usage =? completion)
      && (us_cache_hit_tokens usage =? hit)
      && (us_cache_miss_tokens usage =? miss)
      && (us_reasoning_tokens usage =? default 0 reasoning)
    | _, _, _, _, _ => false
    end
  end.

Definition is_bucket (model : string) (surface : ApiSurface) (bucket : ApiUsageBucket) : bool :=
  (ub_surface bucket ==? surface) && (ub_model bucket ==? model).

(** [f(usage_bucket_mut(state, model, surface))]: the first bucket of the model and surface, or
    a fresh one pushed at the end. *)
Definition update_bucket (buckets : list ApiUsageBucket) (model : string) (surface : ApiSurface)
    (f : ApiUsageBucket → ApiUsageBucket) : list ApiUsageBucket :=
  match position (is_bucket model surface) buckets with
  | Some index => alter f index buckets
  | None =>
    (buckets ++ [f (mkApiUsageBucket model surface 0 0 Usage_default f64_zero f64_zero)])%list
  end.
Definition usage_bucket_mut (s : ApiRequestBudgetState) (model : string) (surface : ApiSurface)
    (f : ApiUsageBucket → ApiUsageBucket) : ApiRequestBudgetState :=
  s <| rb_usage_buckets := update_bucket (rb_usage_buckets s) model surface f |>.

(** What the two recording functions do to the bucket. *)
Definition count_response (b : ApiUsageBucket) : ApiUsageBucket :=
  mkApiUsageBucket (ub_model b) (ub_surface b) (sat_incr32 (ub_response_count b))
    (ub_usage_responses b) (ub_usage b) (ub_cost_usd b) (ub_cost_cny b).
Definition count_usage (usage : Usage) (cost : option (f64 * f64)) (b : ApiUsageBucket)
    : ApiUsageBucket :=
  mkApiUsageBucket (ub_model b) (ub_surface b) (ub_response_count b)
    (sat_incr32 (ub_usage_responses b)) (Usage_add (ub_usage b) usage)
    (match cost with Some (usd, _) => f64_add (ub_cost_usd b) usd | None => ub_cost_usd b end)
    (match cost with Some (_, cny) => f64_add (ub_cost_cny b) cny | None => ub_cost_cny b end).

Definition record_surface_response_locked (s : ApiRequestBudgetState) (model : string)
    (surface : ApiSurface) : ApiRequestBudgetState :=
  let s :=
    match surface with
    | StandardChat => s <| rb_standard_chat_responses := sat_incr32 (rb_standard_chat_responses s) |>
    | StrictChat => s <| rb_strict_chat_responses := sat_incr32 (rb_strict_chat_responses s) |>
    end in
  usage_bucket_mut s model surface count_response.

Definition record_usage_response_locked (s : ApiRequestBudgetState) (model : string)
    (surface : ApiSurface) (usage : option Usage) (wire_usage : option Value)
    (cost : option (f64 * f64)) : ApiRequestBudgetState :=
  match usage with
  | Some usage =>
    let s := s <| rb_usage_responses := sat_incr32 (rb_usage_responses s) |>
               <| rb_usage := Usage_add (rb_usage s) usage |> in
    let s :=
      if negb (usage_contract_complete usage wire_usage)
      then s <| rb_responses_missing_usage := sat_incr32 (rb_responses_missing_usage s) |> else s in
    let s :=
      match cost with
      | Some (usd, cny) => s <| rb_cost_usd := f64_add (rb_cost_usd s) usd |>
                             <| rb_cost_cny := f64_add (rb_cost_cny s) cny |>
      | None => s <| rb_unpriced_usage_responses := sat_incr32 (rb_unpriced_usage_responses s) |>
      end in
    usage_bucket_mut s model surface (count_usage usage cost)
  | None => s <| rb_responses_missing_usage := sat_incr32 (rb_responses_missing_usage s) |>
  end.

(** ** Admission *)

Definition SharedApiRequestBudget_new (limit : N) : ApiRequestBudgetState :=
  mkApiRequestBudgetState limit 0 0 0 0 0 false Usage_default 0 0 0 [] 0 0 0 0 0 f64_zero f64_zero
    ApiRequestActorCounters_default ApiRequestActorCounters_default.
Definition tracking_only : ApiRequestBudgetState := SharedApiRequestBudget_new U32_MAX.

Definition try_reserve_kind (s : ApiRequestBudgetState) (actor : ApiRequestActor)
    (kind : ApiRequestKind)
    : ApiRequestBudgetState * result ApiRequestBudgetError ApiRequestLease :=
  if rb_sealed s then
    (s <| rb_sealed_denied := sat_incr32 (rb_sealed_denied s) |>,
     Err (Sealed (rb_limit s) (rb_started s)))
  else if rb_limit s <=? rb_started s then
    (s <| rb_exhausted_denied := sat_incr32 (rb_exhausted_denied s) |>,
     Err (Exhausted (rb_limit s) (rb_started s)))
  else
    let s := s <| rb_started := wrapping_incr32 (rb_started s) |>
               <| rb_in_flight := wrapping_incr32 (rb_in_flight s) |> in
    let s := actor_counters_mut s actor (λ c,
      mkApiRequestActorCounters (wrapping_incr32 (rc_started c)) (wrapping_incr32 (rc_in_flight c))
                                (rc_completed c)) in
    (s, Ok (mkApiRequestLease actor kind false false false false)).

Definition try_reserve s actor := try_reserve_kind s actor Inference.
Definition try_reserve_control s actor := try_reserve_kind s actor Control.

(** ** Settlement *)

Definition mark_response_received (l : ApiRequestLease) : ApiRequestLease :=
  l <| rl_response_received := true |>.
Definition mark_billing_unknown (l : ApiRequestLease) : ApiRequestLease :=
  l <| rl_billing_unknown := true |>.
Definition mark_usage_expected (l : ApiRequestLease) : ApiRequestLease :=
  if rl_kind l ==? Inference then l <| rl_usage_expected := true |> else l.

Definition settle_request_lease_locked (s : ApiRequestBudgetState) (l : ApiRequestLease)
    : ApiRequestBudgetState :=
  let s := s <| rb_in_flight := rb_in_flight s - 1 |>
             <| rb_completed := sat_incr32 (rb_completed s) |> in
  let s := actor_counters_mut s (rl_actor l) (λ c,
    mkApiRequestActorCounters (rc_started c) (rc_in_flight c - 1) (sat_incr32 (rc_completed c))) in
  if (rl_kind l ==? Inference) && (negb (rl_response_received l) || rl_billing_unknown l)
  then s <| rb_billing_unknown_attempts := sat_incr32 (rb_billing_unknown_attempts s) |> else s.

Definition count_after_seal (s : ApiRequestBudgetState) : ApiRequestBudgetState :=
  s <| rb_usage_records_after_seal := sat_incr32 (rb_usage_records_after_seal s) |>.
Definition count_incomplete (s : ApiRequestBudgetState) : ApiRequestBudgetState :=
  s <| rb_incomplete_responses := sat_incr32 (rb_incomplete_responses s) |>.

(** What an unsealed ledger records of a settled response. *)
Definition record_settled_response (s : ApiRequestBudgetState) (model : string)
    (surface : ApiSurface) (usage : option Usage) (wire_usage : option Value)
    (cost : option (f64 * f64)) (incomplete : bool) : ApiRequestBudgetState :=
  let s := record_surface_response_locked s model surface in
  let s := if is_some usage || negb incomplete
           then record_usage_response_locked s model surface usage wire_usage cost else s in
  if incomplete then count_incomplete s else s.

Definition settle_inference_response (s : ApiRequestBudgetState) (l : ApiRequestLease)
    (model : string) (surface : ApiSurface) (usage : option Usage) (wire_usage : option Value)
    (incomplete : bool) : ApiRequestBudgetState * ApiRequestLease :=
  if rl_settled l then (s, l)
  else
    let cost := response_cost model usage in
    let s := settle_request_lease_locked s l in
    let s :=
      if rb_sealed s then count_after_seal s
      else record_settled_response s model surface usage wire_usage cost incomplete in
    (s, l <| rl_settled := true |>).

Definition ApiRequestLease_drop (s : ApiRequestBudgetState) (l : ApiRequestLease)
    : ApiRequestBudgetState * ApiRequestLease :=
  if rl_settled l then (s, l)
  else
    let s := settle_request_lease_locked s l in
    let s :=
      if rl_usage_expected l then
        if rb_sealed s then count_after_seal s else count_incomplete s
      else s in
    (s, l <| rl_settled := true |>).

(** ** The accounting guard *)

Definition ApiResponseAccountingGuard_new (request_lease : option ApiRequestLease) (model : string)
    (surface : ApiSurface) : ApiResponseAccountingGuard :=
  mkApiResponseAccountingGuard request_lease model surface None None false.

Definition observe (g : ApiResponseAccountingGuard) (usage : Usage) (wire_usage : option Value)
    : ApiResponseAccountingGuard :=
  g <| rg_observed_usage := Some usage |> <| rg_observed_wire_usage := wire_usage |>.
Definition set_model (g : ApiResponseAccountingGuard) (model : string)
    : ApiResponseAccountingGuard := g <| rg_model := model |>.

(** The settlement [complete] and [incomplete] share. *)
Definition settle_guard (s : ApiRequestBudgetState) (g : ApiResponseAccountingGuard)
    (incomplete : bool) : ApiRequestBudgetState * ApiResponseAccountingGuard :=
  match rg_request_lease g with
  | Some lease =>
    let '(s, lease) := settle_inference_response s lease (rg_model g) (rg_surface g)
                         (rg_observed_usage g) (rg_observed_wire_usage g) incomplete in
    (s, g <| rg_request_lease := Some lease |> <| rg_settled := true |>)
  | None => (s, g <| rg_settled := true |>)
  end.

Definition complete (s : ApiRequestBudgetState) (g : ApiResponseAccountingGuard)
    (usage : option Usage) (wire_usage : option Value)
    : ApiRequestBudgetState * ApiResponseAccountingGuard :=
  if rg_settled g then (s, g)
  else
    let g := match usage with Some usage => observe g usage wire_usage | None => g end in
    settle_guard s g false.

Definition incomplete (s : ApiRequestBudgetState) (g : ApiResponseAccountingGuard)
    : ApiRequestBudgetState * ApiResponseAccountingGuard :=
  if rg_settled g then (s, g) else settle_guard s g true.

(** [Drop] of the guard, then of its lease field. *)
Definition ApiResponseAccountingGuard_drop (s : ApiRequestBudgetState)
    (g : ApiResponseAccountingGuard) : ApiRequestBudgetState :=
  let '(s, g) := incomplete s g in
  match rg_request_lease g with Some lease => (ApiRequestLease_drop s lease).1 | None => s end.

(** ** Snapshots *)

Record ApiRequestBudgetSnapshot := mkApiRequestBudgetSnapshot {
  bs_limit : N;
  bs_started : N;
  bs_in_flight : N;
  bs_completed : N;
  bs_exhausted_denied : N;
  bs_sealed_denied : N;
  bs_sealed : bool;
}.
Record ApiRequestActorSnapshot := mkApiRequestActorSnapshot {
  as_root_started : N;
  as_root_in_flight : N;
  as_root_completed : N;
  as_child_started : N;
  as_child_in_flight : N;
  as_child_completed : N;
}.
Record ApiUsageSnapshot := mkApiUsageSnapshot {
  uv_usage : Usage;
  uv_usage_responses : N;
  uv_standard_chat_responses : N;
  uv_strict_chat_responses : N;
  uv_usage_buckets : list ApiUsageBucket;
  uv_responses_missing_usage : N;
  uv_incomplete_responses : N;
  uv_billing_unknown_attempts : N;
  uv_unpriced_usage_responses : N;
  uv_usage_records_after_seal : N;
  uv_cost_usd : f64;
  uv_cost_cny : f64;
}.

Definition snapshot_of (s : ApiRequestBudgetState) : ApiRequestBudgetSnapshot :=
  mkApiRequestBudgetSnapshot (rb_limit s) (rb_started s) (rb_in_flight s) (rb_completed s)
    (rb_exhausted_denied s) (rb_sealed_denied s) (rb_sealed s).
Definition actor_snapshot_of (s : ApiRequestBudgetState) : ApiRequestActorSnapshot :=
  mkApiRequestActorSnapshot (rc_started (rb_root s)) (rc_in_flight (rb_root s))
    (rc_completed (rb_root s)) (rc_started (rb_child s)) (rc_in_flight (rb_child s))
    (rc_completed (rb_child s)).
Definition usage_snapshot_of (s : ApiRequestBudgetState) : ApiUsageSnapshot :=
  mkApiUsageSnapshot (rb_usage s) (rb_usage_responses s) (rb_standard_chat_responses s)
    (rb_strict_chat_responses s) (rb_usage_buckets s) (rb_responses_missing_usage s)
    (rb_incomplete_responses s) (rb_billing_unknown_attempts s) (rb_unpriced_usage_responses s)
    (rb_usage_records_after_seal s) (rb_cost_usd s) (rb_cost_cny s).

Definition usage_complete (u : ApiUsageSnapshot) : bool :=
  (uv_responses_missing_usage u =? 0) && (uv_incomplete_responses u =? 0).
Definition cost_complete (u : ApiUsageSnapshot) : bool :=
  usage_complete u && (uv_billing_unknown_attempts u =? 0) && (uv_unpriced_usage_responses u =? 0).

Definition accounting_snapshot (s : ApiRequestBudgetState)
    : ApiRequestBudgetSnapshot * ApiRequestActorSnapshot * ApiUsageSnapshot :=
  (snapshot_of s, actor_snapshot_of s, usage_snapshot_of s).
Definition seal_and_accounting_snapshot (s : ApiRequestBudgetState)
    : ApiRequestBudgetState * (ApiRequestBudgetSnapshot * ApiRequestActorSnapshot * ApiUsageSnapshot) :=
  let s := s <| rb_sealed := true |> in (s, accounting_snapshot s).

(** ** The run's accounting ([model_port.rs]) *)

Definition to_nano_units (value : f64) : N :=
  if negb (f64_is_positive_finite value) then 0
  else f64_round_to_u64 (f64_mul value (f64_of_N 1000000000)).

Definition surface_usage_of (bucket : ApiUsageBucket) : SurfaceUsage :=
  mkSurfaceUsage (ub_surface bucket) (ub_model bucket) (ub_response_count bucket)
    (ub_usage_responses bucket) (ub_usage bucket) (to_nano_units (ub_cost_usd bucket))
    (to_nano_units (ub_cost_cny bucket)).

Definition runtime_accounting (requests : ApiRequestBudgetSnapshot)
    (actors : ApiRequestActorSnapshot) (usage : ApiUsageSnapshot) : ModelAccounting :=
  let usage_complete := usage_complete usage in
  let cost_complete := cost_complete usage in
  let request_complete :=
    (bs_in_flight requests =? 0) && (bs_started requests =? bs_completed requests) in
  mkModelAccounting
    (if bs_limit requests =? U32_MAX then None else Some (bs_limit requests))
    (mkActorRequestAccounting (as_root_started actors) (as_root_completed actors)
                              (as_root_in_flight actors))
    (mkActorRequestAccounting (as_child_started actors) (as_child_completed actors)
                              (as_child_in_flight actors))
    0
    (bs_sealed_denied requests)
    (bs_exhausted_denied requests)
    (0 <? bs_exhausted_denied requests)
    (bs_sealed requests)
    (request_complete && usage_complete && cost_complete && (uv_usage_records_after_seal usage =? 0))
    usage_complete
    (0 <? uv_responses_missing_usage usage)
    (0 <? uv_incomplete_responses usage)
    (0 <? uv_billing_unknown_attempts usage)
    (0 <? uv_unpriced_usage_responses usage)
    (uv_usage_responses usage)
    (uv_responses_missing_usage usage)
    (uv_incomplete_responses usage)
    (uv_billing_unknown_attempts usage)
    (uv_unpriced_usage_responses usage)
    (uv_usage_records_after_seal usage)
    (uv_usage usage)
    (surface_usage_of <$> uv_usage_buckets usage)
    (to_nano_units (uv_cost_usd usage))
    (to_nano_units (uv_cost_cny usage)).

Definition model_accounting_snapshot (s : ApiRequestBudgetState) : ModelAccounting :=
  let '(requests, actors, usage) := accounting_snapshot s in
  runtime_accounting requests actors usage.

Definition resume_api_request_budget (accounting : ModelAccounting)
    : ApiRequestBudgetState * bool :=
  match ma_hard_request_limit accounting with
  | None => (tracking_only, false)
  | Some limit =>
    let physical_started := N.min (total_started accounting) U32_MAX in
    let remaining := limit - physical_started in
    (if remaining =? 0 then tracking_only else SharedApiRequestBudget_new remaining,
     remaining =? 0)
  end.
