(* ===== verification/LedgerFacts.v ===== *)
(** What the DeepSeek request ledger guarantees, for every interleaving of the requests that
    share it: the counters are exact, and a receipt that calls itself complete hides nothing. *)
From Stdlib Require Import Ascii String.
From S2P Require Import Prelude.
From S2P Require Import Text.
From S2P Require Import Json.
From S2P Require Import Task.
From S2P Require Import Protocol.
From S2P Require Import Accounting.
From S2P Require Import TextOps.
From S2P Require Import Ledger.

Open Scope list_scope.
Open Scope N_scope.

(** ** The ledger with the requests that share it

    Every admitted request is owned by somebody: by the sender as a lease, then by the reader of
    the response as a guard.  [sy_settled] remembers, for the specification only, how each lease
    was settled. *)

Record Response := mkResponse {
  rp_model : string;
  rp_surface : ApiSurface;
  rp_usage : option Usage;
  rp_wire : option Value;
  rp_incomplete : bool;
}.
Record Settlement := mkSettlement {
  st_lease : ApiRequestLease;
  st_sealed : bool;
  st_response : option Response;  (** [None]: the lease was dropped without a response *)
}.

Inductive Owner :=
| OwnsLease (l : ApiRequestLease)
| OwnsGuard (g : ApiResponseAccountingGuard).

Definition owned_lease (o : Owner) : option ApiRequestLease :=
  match o with OwnsLease l => Some l | OwnsGuard g => rg_request_lease g end.
(** The unsettled leases. *)
Definition open_lease (o : option ApiRequestLease) : list ApiRequestLease :=
  match o with Some l => if rl_settled l then [] else [l] | None => [] end.
Definition pending (owners : list Owner) : list ApiRequestLease :=
  mjoin ((λ o, open_lease (owned_lease o)) <$> owners).

Record LedgerSystem := mkLedgerSystem {
  sy_state : ApiRequestBudgetState;
  sy_owners : list Owner;
  sy_settled : list Settlement;
}.

Definition settlements (s : ApiRequestBudgetState) (o : option ApiRequestLease)
    (r : option Response) : list Settlement :=
  (λ l, mkSettlement l (rb_sealed s) r) <$> open_lease o.
Definition guard_response (g : ApiResponseAccountingGuard) (incomplete : bool) : option Response :=
  Some (mkResponse (rg_model g) (rg_surface g) (rg_observed_usage g) (rg_observed_wire_usage g)
                   incomplete).
Definition observe_final (g : ApiResponseAccountingGuard) (usage : option Usage)
    (wire : option Value) : ApiResponseAccountingGuard :=
  match usage with Some u => observe g u wire | None => g end.
Definition lease_mark (f : ApiRequestLease → ApiRequestLease) : Prop :=
  f = mark_response_received ∨ f = mark_billing_unknown ∨ f = mark_usage_expected.

Inductive ledger_step : LedgerSystem → LedgerSystem → Prop :=
| step_reserve s s' actor kind l owners log :
    try_reserve_kind s actor kind = (s', Ok l) →
    ledger_step (mkLedgerSystem s owners log) (mkLedgerSystem s' (owners ++ [OwnsLease l]) log)
| step_denied s s' actor kind e owners log :
    try_reserve_kind s actor kind = (s', Err e) →
    ledger_step (mkLedgerSystem s owners log) (mkLedgerSystem s' owners log)
| step_seal s owners log :
    ledger_step (mkLedgerSystem s owners log)
                (mkLedgerSystem (seal_and_accounting_snapshot s).1 owners log)
| step_mark s pre l post log f :
    lease_mark f →
    ledger_step (mkLedgerSystem s (pre ++ OwnsLease l :: post) log)
                (mkLedgerSystem s (pre ++ OwnsLease (f l) :: post) log)
| step_guard s pre l post log model surface :
    ledger_step (mkLedgerSystem s (pre ++ OwnsLease l :: post) log)
      (mkLedgerSystem s
        (pre ++ OwnsGuard (ApiResponseAccountingGuard_new (Some l) model surface) :: post) log)
| step_observe s pre g post log usage wire :
    ledger_step (mkLedgerSystem s (pre ++ OwnsGuard g :: post) log)
                (mkLedgerSystem s (pre ++ OwnsGuard (observe g usage wire) :: post) log)
| step_set_model s pre g post log model :
    ledger_step (mkLedgerSystem s (pre ++ OwnsGuard g :: post) log)
                (mkLedgerSystem s (pre ++ OwnsGuard (set_model g model) :: post) log)
| step_complete s s' pre g g' post log usage wire :
    complete s g usage wire = (s', g') →
    ledger_step (mkLedgerSystem s (pre ++ OwnsGuard g :: post) log)
      (mkLedgerSystem s' (pre ++ OwnsGuard g' :: post)
        (log ++ settlements s (if rg_settled g then None else rg_request_lease g)
                  (guard_response (observe_final g usage wire) false)))
| step_incomplete s s' pre g g' post log :
    incomplete s g = (s', g') →
    ledger_step (mkLedgerSystem s (pre ++ OwnsGuard g :: post) log)
      (mkLedgerSystem s' (pre ++ OwnsGuard g' :: post)
        (log ++ settlements s (if rg_settled g then None else rg_request_lease g)
                  (guard_response g true)))
| step_drop_lease s pre l post log :
    ledger_step (mkLedgerSystem s (pre ++ OwnsLease l :: post) log)
      (mkLedgerSystem (ApiRequestLease_drop s l).1 (pre ++ post) (log ++ settlements s (Some l) None))
| step_drop_guard s pre g post log :
    ledger_step (mkLedgerSystem s (pre ++ OwnsGuard g :: post) log)
      (mkLedgerSystem (ApiResponseAccountingGuard_drop s g) (pre ++ post)
        (log ++ settlements s (rg_request_lease g) (guard_response g true))).

(** ** What the counters count *)

Fixpoint countb {A} (p : A → bool) (l : list A) : N :=
  match l with [] => 0 | x :: l' => (if p x then 1 else 0) + countb p l' end.

Lemma countb_app {A} (p : A → bool) l k : countb p (l ++ k) = countb p l + countb p k.
Proof. induction l as [|x l IH]; cbn; [done|]. rewrite IH. lia. Qed.
Lemma countb_length {A} (p : A → bool) l : countb p l ≤ N.of_nat (length l).
Proof. induction l as [|x l IH]; cbn; [lia|]. destruct (p x); lia. Qed.
Lemma countb_0 {A} (p : A → bool) l : countb p l = 0 → Forall (λ x, p x = false) l.
Proof.
  induction l as [|x l IH]; cbn; [constructor|]. destruct (p x) eqn:E; [lia|].
  intros H. constructor; [done|]. by apply IH.
Qed.

Definition inference (st : Settlement) : bool := rl_kind (st_lease st) ==? Inference.
(** An inference attempt whose response headers never came, or whose billing is in doubt. *)
Definition is_billing_unknown (st : Settlement) : bool :=
  inference st && (negb (rl_response_received (st_lease st)) || rl_billing_unknown (st_lease st)).
Definition is_late (st : Settlement) : bool :=
  st_sealed st && (is_some (st_response st) || rl_usage_expected (st_lease st)).
Definition on_time (st : Settlement) (p : Response → bool) : bool :=
  negb (st_sealed st) && is_some_and (st_response st) p.
(** A response cut off, or one that was expected and never handed over. *)
Definition is_incomplete (st : Settlement) : bool :=
  negb (st_sealed st) &&
  match st_response st with Some r => rp_incomplete r | None => rl_usage_expected (st_lease st) end.
Definition is_usage_missing (st : Settlement) : bool :=
  on_time st (λ r, match rp_usage r with
                   | Some u => negb (usage_contract_complete u (rp_wire r))
                   | None => negb (rp_incomplete r)
                   end).
Definition is_unpriced (st : Settlement) : bool :=
  on_time st (λ r, is_some (rp_usage r) && is_none (response_cost (rp_model r) (rp_usage r))).
Definition is_response_of (key : option string) (surface : ApiSurface) (st : Settlement) : bool :=
  on_time st (λ r, (surface ==? rp_surface r) && is_none_or key (λ m, m ==? rp_model r)).
Definition is_usage (p : Response → bool) (st : Settlement) : bool :=
  on_time st (λ r, p r && is_some (rp_usage r)).
Definition of_bucket (model : string) (surface : ApiSurface) (r : Response) : bool :=
  (surface ==? rp_surface r) && (model ==? rp_model r).

(** The usage reported by the responses that were recorded in time. *)
Definition reported_usage (p : Response → bool) (log : list Settlement) : Usage :=
  foldl (λ u st, if is_usage p st
                 then Usage_add u (default Usage_default (st_response st ≫= rp_usage)) else u)
        Usage_default log.

Definition fresh_bucket (model : string) (surface : ApiSurface) : ApiUsageBucket :=
  mkApiUsageBucket model surface 0 0 Usage_default f64_zero f64_zero.
Definition bucket_of (s : ApiRequestBudgetState) (model : string) (surface : ApiSurface)
    : ApiUsageBucket :=
  default (fresh_bucket model surface) (find_first (is_bucket model surface) (rb_usage_buckets s)).

Section ledger.
Context (limit : N).

(** The ledger is what its open leases and the settled ones make it: first the attempts, then
    the usage. *)
Record attempts_exact (s : ApiRequestBudgetState) (opened : list ApiRequestLease)
    (log : list Settlement) : Prop := {
  le_limit : rb_limit s = limit ∧ rb_started s ≤ limit ∧ limit ≤ U32_MAX;
  le_in_flight : rb_in_flight s = N.of_nat (length opened);
  le_completed : rb_completed s = N.of_nat (length log);
  le_started : rb_started s = rb_in_flight s + rb_completed s;
  le_actor_in_flight a :
    rc_in_flight (actor_counters s a) = countb (λ l, rl_actor l ==? a) opened;
  le_actor_completed a :
    rc_completed (actor_counters s a) = countb (λ st, rl_actor (st_lease st) ==? a) log;
  le_actor_started a :
    rc_started (actor_counters s a) =
    rc_in_flight (actor_counters s a) + rc_completed (actor_counters s a);
  le_billing_unknown : rb_billing_unknown_attempts s = countb is_billing_unknown log;
}.

Record usage_exact (s : ApiRequestBudgetState) (log : list Settlement) : Prop := {
  le_late : rb_usage_records_after_seal s = countb is_late log;
  le_incomplete : rb_incomplete_responses s = countb is_incomplete log;
  le_missing : rb_responses_missing_usage s = countb is_usage_missing log;
  le_unpriced : rb_unpriced_usage_responses s = countb is_unpriced log;
  le_standard : rb_standard_chat_responses s = countb (is_response_of None StandardChat) log;
  le_strict : rb_strict_chat_responses s = countb (is_response_of None StrictChat) log;
  le_usage_responses : rb_usage_responses s = countb (is_usage (λ _, true)) log;
  le_usage : rb_usage s = reported_usage (λ _, true) log;
  le_bucket_responses m sf :
    ub_response_count (bucket_of s m sf) = countb (is_response_of (Some m) sf) log;
  le_bucket_usage_responses m sf :
    ub_usage_responses (bucket_of s m sf) = countb (is_usage (of_bucket m sf)) log;
  le_bucket_usage m sf :
    ub_usage (bucket_of s m sf) = reported_usage (of_bucket m sf) log;
}.

(** ** Saturation is never reached *)

Definition room (log : list Settlement) : Prop := N.of_nat (length log) < U32_MAX.

Lemma sat_incr_count {A} (p : A → bool) (l : list A) :
  N.of_nat (length l) < U32_MAX → sat_incr32 (countb p l) = countb p l + 1.
Proof. intros H. apply saturating_add_exact. pose proof (countb_length p l). lia. Qed.
Lemma countb_snoc {A} (p : A → bool) l x : countb p (l ++ [x]) = countb p l + (if p x then 1 else 0).
Proof. rewrite countb_app. cbn. lia. Qed.
Lemma reported_usage_snoc p log st :
  reported_usage p (log ++ [st]) =
  if is_usage p st
  then Usage_add (reported_usage p log) (default Usage_default (st_response st ≫= rp_usage))
  else reported_usage p log.
Proof. unfold reported_usage. by rewrite foldl_app. Qed.

Lemma countb_actors {A} (actor : A → ApiRequestActor) l :
  countb (λ x, actor x ==? ActorRoot) l + countb (λ x, actor x ==? ActorChild) l =
  N.of_nat (length l).
Proof.
  induction l as [|x l IH]; [done|]. cbn [countb length].
  destruct (actor x); repeat case_bool_decide; (lia || done).
Qed.
Lemma started_sum_fits a b n : a + b = n → n < U32_MAX → sat_add64 a b = n.
Proof. intros <- H. apply saturating_add_exact. unfold U64_MAX, U32_MAX in *. lia. Qed.

Lemma wrapping_incr32_exact a : a < U32_MAX → wrapping_incr32 a = a + 1.
Proof. intros H. unfold wrapping_incr32. apply N.mod_small. lia. Qed.

(** ** Buckets *)

Lemma is_bucket_true m sf b : is_bucket m sf b = true ↔ ub_model b = m ∧ ub_surface b = sf.
Proof. unfold is_bucket. rewrite andb_true_iff, !bool_decide_eq_true. naive_solver. Qed.

Lemma update_bucket_find bs m sf f m' sf' :
  (∀ b, ub_model (f b) = ub_model b ∧ ub_surface (f b) = ub_surface b) →
  default (fresh_bucket m' sf') (find_first (is_bucket m' sf') (update_bucket bs m sf f)) =
  let b := default (fresh_bucket m' sf') (find_first (is_bucket m' sf') bs) in
  if (sf' ==? sf) && (m' ==? m) then f b else b.
Proof.
  intros Hf. unfold update_bucket.
  assert (Hkey : ∀ b, is_bucket m' sf' (f b) = is_bucket m' sf' b).
  { intros b. unfold is_bucket. by destruct (Hf b) as [-> ->]. }
  induction bs as [|b bs IH]; cbn.
  - fold (fresh_bucket m sf). rewrite Hkey. unfold is_bucket at 1. cbn.
    repeat case_bool_decide; cbn; subst; done.
  - destruct (is_bucket m sf b) eqn:Eb; cbn.
    + rewrite Hkey. apply is_bucket_true in Eb as [<- <-]. unfold is_bucket.
      repeat case_bool_decide; cbn; subst; done.
    + destruct (position (is_bucket m sf) bs) as [i|]; cbn in *; destruct (is_bucket m' sf' b) eqn:E';
        cbn; try done; apply is_bucket_true in E' as [<- <-];
        unfold is_bucket in Eb; repeat case_bool_decide; by subst.
Qed.

(** ** Settling one lease *)

Section settle.
Context (s : ApiRequestBudgetState) (log : list Settlement).

Lemma attempts_room o1 l o2 : attempts_exact s (o1 ++ l :: o2) log → room log.
Proof.
  intros [(? & ? & ?) Hf Hc Hs _ _ _ _]. rewrite length_app in Hf. cbn in Hf. unfold room. lia.
Qed.

Lemma settle_locked_fields l :
  let s' := settle_request_lease_locked s l in
  rb_limit s' = rb_limit s ∧ rb_started s' = rb_started s ∧ rb_in_flight s' = rb_in_flight s - 1 ∧
  rb_completed s' = sat_incr32 (rb_completed s) ∧
  (∀ a, actor_counters s' a =
     let c := actor_counters s a in
     if rl_actor l ==? a then
       mkApiRequestActorCounters (rc_started c) (rc_in_flight c - 1) (sat_incr32 (rc_completed c))
     else c) ∧
  rb_billing_unknown_attempts s' =
    (if is_billing_unknown (mkSettlement l (rb_sealed s) None)
     then sat_incr32 (rb_billing_unknown_attempts s) else rb_billing_unknown_attempts s).
Proof.
  unfold is_billing_unknown, inference, settle_request_lease_locked. cbn [st_lease].
  destruct (_ && _); destruct (rl_actor l); split_and!; try done; by intros [].
Qed.

Lemma settle_locked_attempts o1 l o2 st :
  attempts_exact s (o1 ++ l :: o2) log → st_lease st = l →
  attempts_exact (settle_request_lease_locked s l) (o1 ++ o2) (log ++ [st]).
Proof.
  intros Ha Hst. pose proof (attempts_room _ _ _ Ha) as Hroom. unfold room in Hroom.
  destruct Ha as [Hl Hf Hc Hs Haf Hac Has Hb].
  destruct (settle_locked_fields l) as (El & Es & Ef & Ec & Ea & Eb).
  rewrite length_app in Hf. cbn [length] in Hf.
  assert (Hopen : ∀ a, countb (λ l', rl_actor l' ==? a) (o1 ++ l :: o2) =
    countb (λ l', rl_actor l' ==? a) (o1 ++ o2) + (if rl_actor l ==? a then 1 else 0)).
  { intros a. rewrite !countb_app. cbn [countb]. lia. }
  assert (Hdone : ∀ a, sat_incr32 (rc_completed (actor_counters s a)) =
                       rc_completed (actor_counters s a) + 1).
  { intros a. rewrite Hac. by apply sat_incr_count. }
  constructor; rewrite ?El, ?Es, ?Ef, ?Ec, ?Eb; try (intros a; rewrite Ea; cbn zeta;
    specialize (Haf a); specialize (Hac a); specialize (Has a); specialize (Hdone a);
    rewrite Hopen in Haf; rewrite ?countb_snoc, ?Hst; destruct (rl_actor l ==? a);
    cbn [rc_started rc_in_flight rc_completed]; lia).
  - done.
  - rewrite length_app. lia.
  - rewrite saturating_add_exact, length_app by lia. cbn. lia.
  - rewrite saturating_add_exact by lia. lia.
  - rewrite countb_snoc. unfold is_billing_unknown at 1 3, inference. rewrite Hst. cbn [st_lease].
    destruct (_ && _); rewrite Hb; [by apply sat_incr_count|lia].
Qed.

Lemma settle_locked_usage l :
  usage_exact s log → usage_exact (settle_request_lease_locked s l) log.
Proof.
  intros []; constructor; unfold settle_request_lease_locked; destruct (rl_actor l), (_ && _); done.
Qed.
Lemma settle_locked_sealed l : rb_sealed (settle_request_lease_locked s l) = rb_sealed s.
Proof. unfold settle_request_lease_locked. by destruct (rl_actor l), (_ && _). Qed.

Lemma record_settled_response_attempts opened model sf usage wire cost inc :
  attempts_exact s opened log →
  attempts_exact (record_settled_response s model sf usage wire cost inc) opened log.
Proof.
  intros []; constructor;
    unfold record_settled_response, record_surface_response_locked, record_usage_response_locked;
    destruct sf, usage, inc, cost as [[]|]; cbn [is_some negb orb];
    try destruct (usage_contract_complete _ _); done.
Qed.

(** What recording a response adds to each counter, field by field. *)
Lemma record_settled_response_fields model sf usage wire cost inc :
  let s' := record_settled_response s model sf usage wire cost inc in
  let incr (b : bool) n := if b then sat_incr32 n else n in
  rb_usage_records_after_seal s' = rb_usage_records_after_seal s ∧
  rb_incomplete_responses s' = incr inc (rb_incomplete_responses s) ∧
  rb_responses_missing_usage s' =
    incr (match usage with Some u => negb (usage_contract_complete u wire) | None => negb inc end)
         (rb_responses_missing_usage s) ∧
  rb_unpriced_usage_responses s' =
    incr (is_some usage && is_none cost) (rb_unpriced_usage_responses s) ∧
  rb_standard_chat_responses s' = incr (StandardChat ==? sf) (rb_standard_chat_responses s) ∧
  rb_strict_chat_responses s' = incr (StrictChat ==? sf) (rb_strict_chat_responses s) ∧
  rb_usage_responses s' = incr (is_some usage) (rb_usage_responses s) ∧
  rb_usage s' = match usage with Some u => Usage_add (rb_usage s) u | None => rb_usage s end.
Proof.
  cbn zeta. unfold record_settled_response, record_surface_response_locked,
    record_usage_response_locked.
  destruct usage as [u|], inc, sf; cbn [is_some negb orb];
    try destruct (usage_contract_complete _ _); try destruct cost as [[]|]; split_and!; reflexivity.
Qed.

Lemma record_settled_response_buckets model sf usage wire cost inc :
  let s' := record_settled_response s model sf usage wire cost inc in
  let incr (b : bool) n := if b then sat_incr32 n else n in
  (∀ m sf', let hit := (sf' ==? sf) && (m ==? model) in
     ub_response_count (bucket_of s' m sf') = incr hit (ub_response_count (bucket_of s m sf')) ∧
     ub_usage_responses (bucket_of s' m sf') =
       incr (hit && is_some usage) (ub_usage_responses (bucket_of s m sf')) ∧
     ub_usage (bucket_of s' m sf') =
       match usage with
       | Some u => if hit then Usage_add (ub_usage (bucket_of s m sf')) u
                   else ub_usage (bucket_of s m sf')
       | None => ub_usage (bucket_of s m sf')
       end).
Proof.
  cbn zeta. intros m sf'.
  assert (Hb : rb_usage_buckets (record_settled_response s model sf usage wire cost inc) =
    let bs := update_bucket (rb_usage_buckets s) model sf count_response in
    match usage with Some u => update_bucket bs model sf (count_usage u cost) | None => bs end).
  { unfold record_settled_response, record_surface_response_locked, record_usage_response_locked.
    destruct usage as [u|], inc, sf; cbn [is_some negb orb];
      try destruct (usage_contract_complete _ _); try destruct cost as [[]|]; reflexivity. }
  unfold bucket_of. rewrite Hb. cbn zeta.
  destruct usage as [u|]; rewrite !update_bucket_find by done; cbn zeta; by destruct (_ && _).
Qed.

Lemma record_settled_response_usage l r :
  room log → usage_exact s log →
  usage_exact (record_settled_response s (rp_model r) (rp_surface r) (rp_usage r) (rp_wire r)
                 (response_cost (rp_model r) (rp_usage r)) (rp_incomplete r))
              (log ++ [mkSettlement l false (Some r)]).
Proof.
  intros Hroom [].
  assert (Hsat : ∀ (p : Settlement → bool) (b : bool),
    (if b then sat_incr32 (countb p log) else countb p log) = countb p log + (if b then 1 else 0))
    by (intros p []; [by apply sat_incr_count|lia]).
  destruct (record_settled_response_fields (rp_model r) (rp_surface r) (rp_usage r) (rp_wire r)
    (response_cost (rp_model r) (rp_usage r)) (rp_incomplete r))
    as (E1 & E2 & E3 & E4 & E5 & E6 & E7 & E8).
  pose proof (record_settled_response_buckets (rp_model r) (rp_surface r) (rp_usage r) (rp_wire r)
    (response_cost (rp_model r) (rp_usage r)) (rp_incomplete r)) as Eb.
  constructor; [..|intros m sf; destruct (Eb m sf) as (Eb1 & _)
    |intros m sf; destruct (Eb m sf) as (_ & Eb1 & _)|intros m sf; destruct (Eb m sf) as (_ & _ & Eb1)];
    rewrite ?E1, ?E2, ?E3, ?E4, ?E5, ?E6, ?E7, ?E8, ?Eb1, ?countb_snoc, ?reported_usage_snoc.
  all: repeat match goal with H : _ = countb _ log |- _ => rewrite H
                         | H : _ = reported_usage _ log |- _ => rewrite H
                         | H : ∀ _ _, _ = _ |- _ => rewrite H end; rewrite ?Hsat, ?N.add_0_r.
  all: try (f_equal; unfold is_late, is_response_of, is_usage, of_bucket, on_time; cbn;
            by rewrite ?andb_true_r).
  all: unfold is_usage, of_bucket, on_time; cbn; destruct (rp_usage r); cbn;
    rewrite ?andb_false_r, ?andb_true_r; done.
Qed.
End settle.

(** Close a field that the step leaves alone, whatever its statement unfolded to. *)
Ltac same_field := match goal with H : ∀ _ _, _ = _ |- _ => apply H | H : _ = _ |- _ => apply H end.

Lemma count_late_usage s log st :
  room log → is_late st = true → st_sealed st = true → usage_exact s log →
  usage_exact (count_after_seal s) (log ++ [st]).
Proof.
  intros Hroom Hlate Hst []; constructor; intros; rewrite ?countb_snoc, ?reported_usage_snoc;
    unfold is_incomplete, is_usage_missing, is_unpriced, is_response_of, is_usage, on_time;
    rewrite ?Hlate, ?Hst; cbn [negb andb]; rewrite ?N.add_0_r; try same_field.
  cbn. rewrite le_late0. by apply sat_incr_count.
Qed.
Lemma count_incomplete_usage s log l :
  room log → rl_usage_expected l = true → usage_exact s log →
  usage_exact (count_incomplete s) (log ++ [mkSettlement l false None]).
Proof.
  intros Hroom Hl []; constructor; intros; rewrite ?countb_snoc, ?reported_usage_snoc; cbn;
    unfold is_incomplete; cbn; rewrite ?Hl, ?N.add_0_r; try same_field.
  rewrite le_incomplete0. by apply sat_incr_count.
Qed.
Lemma no_response_usage s log l sealed :
  rl_usage_expected l = false → usage_exact s log →
  usage_exact s (log ++ [mkSettlement l sealed None]).
Proof.
  intros Hl []; constructor; intros; rewrite ?countb_snoc, ?reported_usage_snoc;
    unfold is_late, is_incomplete, is_usage_missing, is_unpriced, is_response_of, is_usage, on_time;
    cbn; rewrite ?Hl, ?andb_false_r; cbn; rewrite ?N.add_0_r; same_field.
Qed.

(** Both ways to settle an open lease: what it leaves is exact for the leases still open and the
    settlement it adds. *)
Lemma settle_inference_response_exact s log o1 l o2 r s' l' :
  rl_settled l = false →
  attempts_exact s (o1 ++ l :: o2) log → usage_exact s log →
  settle_inference_response s l (rp_model r) (rp_surface r) (rp_usage r) (rp_wire r)
    (rp_incomplete r) = (s', l') →
  attempts_exact s' (o1 ++ o2) (log ++ [mkSettlement l (rb_sealed s) (Some r)]) ∧
  usage_exact s' (log ++ [mkSettlement l (rb_sealed s) (Some r)]) ∧ rl_settled l' = true.
Proof.
  intros Hl Ha Hu. pose proof (attempts_room _ _ _ _ _ Ha) as Hroom.
  unfold settle_inference_response. rewrite Hl, settle_locked_sealed. intros [= <- <-].
  set (st := mkSettlement l (rb_sealed s) (Some r)).
  pose proof (settle_locked_attempts _ _ _ _ _ st Ha eq_refl) as Ha'.
  pose proof (settle_locked_usage _ _ l Hu) as Hu'.
  split_and!; [| |done]; unfold st in *; destruct (rb_sealed s) eqn:E.
  - by destruct Ha'.
  - by apply record_settled_response_attempts.
  - by apply count_late_usage.
  - by apply record_settled_response_usage.
Qed.

Lemma ApiRequestLease_drop_exact s log o1 l o2 :
  rl_settled l = false →
  attempts_exact s (o1 ++ l :: o2) log → usage_exact s log →
  let s' := (ApiRequestLease_drop s l).1 in
  attempts_exact s' (o1 ++ o2) (log ++ [mkSettlement l (rb_sealed s) None]) ∧
  usage_exact s' (log ++ [mkSettlement l (rb_sealed s) None]).
Proof.
  intros Hl Ha Hu. pose proof (attempts_room _ _ _ _ _ Ha) as Hroom. cbn zeta.
  unfold ApiRequestLease_drop. rewrite Hl, settle_locked_sealed. cbn [fst].
  set (st := mkSettlement l (rb_sealed s) None).
  pose proof (settle_locked_attempts _ _ _ _ _ st Ha eq_refl) as Ha'.
  pose proof (settle_locked_usage _ _ l Hu) as Hu'. unfold st in *.
  destruct (rl_usage_expected l) eqn:El.
  - destruct (rb_sealed s) eqn:E.
    + split; [by destruct Ha'|]. apply count_late_usage; unfold is_late; cbn; by rewrite ?El.
    + split; [by destruct Ha'|]. by apply count_incomplete_usage.
  - split; [done|]. by apply no_response_usage.
Qed.

(** ** Admission *)

Lemma actor_counters_mut_at s actor f a :
  actor_counters (actor_counters_mut s actor f) a =
  if actor ==? a then f (actor_counters s a) else actor_counters s a.
Proof. by destruct actor, a. Qed.

Lemma try_reserve_kind_exact s opened log actor kind s' l :
  attempts_exact s opened log → usage_exact s log →
  try_reserve_kind s actor kind = (s', Ok l) →
  attempts_exact s' (opened ++ [l]) log ∧ usage_exact s' log ∧ rl_settled l = false ∧
  rb_sealed s = false ∧ rb_started s < rb_limit s.
Proof.
  intros [(Hlim & Hl & Hm) Hf Hc Hs Haf Hac Has Hb] Hu. unfold try_reserve_kind.
  destruct (rb_sealed s); [done|]. destruct (rb_limit s <=? rb_started s) eqn:El; [done|]. bprop.
  assert (Hwi : ∀ n, n ≤ rb_started s → wrapping_incr32 n = n + 1)
    by (intros n Hn; apply wrapping_incr32_exact; lia).
  assert (Hle : ∀ a, rc_started (actor_counters s a) ≤ rb_started s).
  { intros a. rewrite Has, Haf, Hac, Hs, Hf, Hc.
    pose proof (countb_length (λ l, rl_actor l ==? a) opened).
    pose proof (countb_length (λ st, rl_actor (st_lease st) ==? a) log). lia. }
  assert (Hsame : ∀ a x y,
    actor_counters (s <| rb_started := x |> <| rb_in_flight := y |>) a = actor_counters s a)
    by (by intros []).
  intros [= <- <-]. split_and!; try done; [|destruct actor; by destruct Hu].
  constructor.
  - split_and!; [by destruct actor| |done]. destruct actor; cbn; rewrite Hwi; lia.
  - rewrite length_app. destruct actor; cbn; rewrite Hwi; lia.
  - by destruct actor.
  - destruct actor; cbn; rewrite !Hwi; lia.
  - intros a. rewrite countb_app. specialize (Haf a). specialize (Has a). specialize (Hle a).
    rewrite actor_counters_mut_at, Hsame. cbn [countb rl_actor]. case_bool_decide;
      cbn [rc_in_flight]; [rewrite Hwi by lia|]; lia.
  - intros a. specialize (Hac a). by destruct actor, a.
  - intros a. specialize (Has a). specialize (Hle a).
    rewrite actor_counters_mut_at, Hsame.
    case_bool_decide; cbn [rc_started rc_in_flight rc_completed]; [rewrite !Hwi by lia|]; lia.
  - by destruct actor.
Qed.

Lemma try_reserve_kind_denied s opened log actor kind s' e :
  attempts_exact s opened log → usage_exact s log →
  try_reserve_kind s actor kind = (s', Err e) → attempts_exact s' opened log ∧ usage_exact s' log.
Proof.
  intros [] []. unfold try_reserve_kind.
  destruct (rb_sealed s); [|destruct (_ <=? _); [|done]]; by intros [= <- <-].
Qed.

(** ** Every reachable ledger *)

(** A settled guard holds no open lease, and a lease still held as such is open. *)
Definition owner_ok (o : Owner) : Prop :=
  match o with
  | OwnsLease l => rl_settled l = false
  | OwnsGuard g => rg_settled g = true → open_lease (rg_request_lease g) = []
  end.
Definition system_exact (y : LedgerSystem) : Prop :=
  Forall owner_ok (sy_owners y) ∧
  attempts_exact (sy_state y) (pending (sy_owners y)) (sy_settled y) ∧
  usage_exact (sy_state y) (sy_settled y).

Definition ledger_start : LedgerSystem :=
  mkLedgerSystem (SharedApiRequestBudget_new limit) [] [].

Lemma pending_cons pre o post :
  pending (pre ++ o :: post) = pending pre ++ open_lease (owned_lease o) ++ pending post.
Proof. unfold pending. rewrite fmap_app, join_app, fmap_cons. done. Qed.
Lemma pending_app pre post : pending (pre ++ post) = pending pre ++ pending post.
Proof. unfold pending. by rewrite fmap_app, join_app. Qed.

Lemma ledger_start_exact : limit ≤ U32_MAX → system_exact ledger_start.
Proof.
  intros Hl. split_and!; [constructor|..]; constructor; cbn; try done; try lia; by intros [].
Qed.

(** A guard that settles now. *)
Lemma settle_guard_exact s log pre g post inc s' g' :
  attempts_exact s (pre ++ open_lease (rg_request_lease g) ++ post) log → usage_exact s log →
  settle_guard s g inc = (s', g') →
  let log' := log ++ settlements s (rg_request_lease g) (guard_response g inc) in
  attempts_exact s' (pre ++ post) log' ∧ usage_exact s' log' ∧ rg_settled g' = true ∧
  open_lease (rg_request_lease g') = [].
Proof.
  intros Ha Hu. unfold settle_guard, settlements, guard_response. cbn zeta.
  destruct (rg_request_lease g) as [l|] eqn:Eg.
  - destruct (settle_inference_response _ _ _ _ _ _ _) as [s1 l1] eqn:Es. intros [= <- <-].
    cbn [open_lease] in *. destruct (rl_settled l) eqn:El.
    + unfold settle_inference_response in Es. rewrite El in Es. injection Es as <- <-.
      cbn. rewrite app_nil_r, El. done.
    + change (pre ++ [l] ++ post) with (pre ++ l :: post) in Ha.
      eapply (settle_inference_response_exact s log pre l post (mkResponse _ _ _ _ inc)) in Es
        as (? & ? & Hl1); [|done..].
      split_and!; [done..|]. cbn. by rewrite Hl1.
  - intros [= <- <-]. cbn. rewrite Eg. cbn. by rewrite app_nil_r.
Qed.

Lemma lease_mark_settled f l : lease_mark f → rl_settled (f l) = rl_settled l.
Proof. intros [->|[->| ->]]; try done. unfold mark_usage_expected. by case_bool_decide. Qed.
Lemma lease_mark_actor f l : lease_mark f → rl_actor (f l) = rl_actor l.
Proof. intros [->|[->| ->]]; try done. unfold mark_usage_expected. by case_bool_decide. Qed.

(** Only the actors of the open leases are counted. *)
Lemma attempts_exact_actors s o1 o2 log :
  rl_actor <$> o1 = rl_actor <$> o2 → attempts_exact s o1 log → attempts_exact s o2 log.
Proof.
  intros Heq []. assert (Hlen : length o1 = length o2) by (by rewrite <- (length_fmap rl_actor o1), Heq, length_fmap).
  assert (Hc : ∀ a, countb (λ l, rl_actor l ==? a) o1 = countb (λ l, rl_actor l ==? a) o2).
  { intros a. clear -Heq. revert o2 Heq; induction o1 as [|l o1 IH]; intros [|l2 o2]; cbn; try done.
    intros [= -> Ho]. by rewrite (IH o2). }
  constructor; try done; [by rewrite <- Hlen|]. intros a. by rewrite <- Hc.
Qed.

Lemma drop_settled s l : open_lease (Some l) = [] → (ApiRequestLease_drop s l).1 = s.
Proof. unfold ApiRequestLease_drop. cbn. by destruct (rl_settled l). Qed.

Lemma ledger_step_exact y y' : system_exact y → ledger_step y y' → system_exact y'.
Proof.
  intros (Ho & Ha & Hu) Hstep. unfold system_exact.
  destruct Hstep; cbn [sy_state sy_owners sy_settled] in *;
    rewrite ?pending_cons in *; rewrite ?Forall_app, ?Forall_cons in *;
    cbn [owned_lease open_lease] in *.
  - match goal with H : try_reserve_kind _ _ _ = _ |- _ =>
      destruct (try_reserve_kind_exact _ _ _ _ _ _ _ Ha Hu H) as (? & ? & Hl & _) end.
    cbn [open_lease]. rewrite Hl. done.
  - match goal with H : try_reserve_kind _ _ _ = _ |- _ =>
      destruct (try_reserve_kind_denied _ _ _ _ _ _ _ Ha Hu H) end. done.
  - split_and!; [done|by destruct Ha|by destruct Hu].
  - destruct Ho as (? & Hl & ?). cbn in Hl. rewrite lease_mark_settled, Hl in * by done.
    split_and!; try done; [cbn; by rewrite lease_mark_settled|].
    eapply attempts_exact_actors; [|exact Ha]. rewrite !fmap_app. cbn. by rewrite lease_mark_actor.
  - naive_solver.
  - naive_solver.
  - naive_solver.
  - destruct Ho as (? & Hg & ?).
    match goal with H : complete _ _ _ _ = _ |- _ => unfold complete in H; rename H into Hc end.
    destruct (rg_settled g) eqn:Eg.
    { injection Hc as <- <-. unfold settlements. cbn. rewrite app_nil_r. naive_solver. }
    fold (observe_final g usage wire) in Hc.
    replace (rg_request_lease g) with (rg_request_lease (observe_final g usage wire)) in *
      by (by destruct usage).
    destruct (settle_guard_exact _ _ _ _ _ _ _ _ Ha Hu Hc) as (? & ? & ? & Hopen).
    rewrite Hopen. split_and!; try done. by intros _.
  - destruct Ho as (? & Hg & ?).
    match goal with H : incomplete _ _ = _ |- _ => unfold incomplete in H; rename H into Hc end.
    destruct (rg_settled g) eqn:Eg.
    { injection Hc as <- <-. unfold settlements. cbn. rewrite app_nil_r. naive_solver. }
    destruct (settle_guard_exact _ _ _ _ _ _ _ _ Ha Hu Hc) as (? & ? & ? & Hopen).
    rewrite Hopen. split_and!; try done. by intros _.
  - destruct Ho as (? & Hl & ?). cbn in Hl. rewrite pending_app. unfold settlements. cbn.
    rewrite Hl in *. destruct (ApiRequestLease_drop_exact _ _ _ _ _ Hl Ha Hu). split_and!; done.
  - destruct Ho as (? & Hg & ?). cbn in Hg. rewrite pending_app.
    unfold ApiResponseAccountingGuard_drop, incomplete.
    destruct (rg_settled g) eqn:Eg.
    + rewrite Hg in Ha by done. unfold settlements. rewrite Hg by done. cbn. rewrite app_nil_r.
      assert (Hs : match rg_request_lease g with Some l => (ApiRequestLease_drop s l).1 | None => s end = s).
      { destruct (rg_request_lease g) as [l|]; [|done]. apply drop_settled. by apply Hg. }
      rewrite Hs. split_and!; done.
    + destruct (settle_guard s g true) as [s1 g1] eqn:Hc.
      destruct (settle_guard_exact _ _ _ _ _ _ _ _ Ha Hu Hc) as (? & ? & ? & Hopen).
      assert (Hs : match rg_request_lease g1 with Some l => (ApiRequestLease_drop s1 l).1 | None => s1 end = s1).
      { destruct (rg_request_lease g1) as [l|]; [|done]. by apply drop_settled. }
      rewrite Hs. split_and!; done.
Qed.

Lemma ledger_reachable_exact y :
  limit ≤ U32_MAX → rtc ledger_step ledger_start y → system_exact y.
Proof.
  intros Hl. apply (rtc_ind_r system_exact); [by apply ledger_start_exact|].
  intros y1 y2 _ Hstep Hy. by eapply ledger_step_exact.
Qed.
End ledger.


(** ** Receipts *)

(** A settled inference attempt with nothing left in doubt. *)
Definition fully_accounted (st : Settlement) : Prop :=
  rl_response_received (st_lease st) = true ∧ rl_billing_unknown (st_lease st) = false.
Definition usage_accounted (st : Settlement) : Prop :=
  match st_response st with
  | Some r =>
    st_sealed st = false ∧ rp_incomplete r = false ∧
    ∃ u, rp_usage r = Some u ∧ usage_contract_complete u (rp_wire r) = true ∧
         is_Some (response_cost (rp_model r) (Some u))
  | None => rl_usage_expected (st_lease st) = false
  end.

Lemma usage_accounted_intro st :
  is_late st = false → is_incomplete st = false → is_usage_missing st = false →
  is_unpriced st = false → usage_accounted st.
Proof.
  unfold is_late, is_incomplete, is_usage_missing, is_unpriced, on_time, usage_accounted.
  destruct (st_sealed st), (st_response st) as [r|]; cbn; try done.
  intros _ Hi. rewrite Hi. destruct (rp_usage r) as [u|]; cbn -[response_cost]; [|done].
  intros Hc Hp. split_and!; [done..|]. exists u. split_and!; [done|by apply negb_false_iff|].
  unfold is_none in Hp. apply negb_false_iff in Hp.
  by destruct (response_cost (rp_model r) (Some u)) eqn:Ec; rewrite ?Ec in *.
Qed.

(** C29: The receipt of a run is fail-closed. When the accounting projected from the ledger says
    it is complete, no admitted request is still open, every settled inference attempt received
    its response headers with its billing known, and every response was recorded before the seal,
    whole, with a usage that satisfies the provider's own totals, at a known price; no response
    that was expected went missing. *)
Theorem complete_receipt_hides_nothing limit y
    (Hl : limit ≤ U32_MAX) (Hr : rtc ledger_step (ledger_start limit) y)
    (Hc : ma_complete (model_accounting_snapshot (sy_state y)) = true) :
  pending (sy_owners y) = [] ∧
  N.of_nat (length (sy_settled y)) = rb_started (sy_state y) ∧
  Forall (λ st, (inference st = true → fully_accounted st) ∧ usage_accounted st) (sy_settled y).
Proof.
  destruct (ledger_reachable_exact limit y Hl Hr) as (_ & [_ Hf Hcm Hs _ _ _ Hb] & Hu).
  destruct Hu as [Hlate Hinc Hmiss Hunp _ _ _ _ _ _ _].
  unfold model_accounting_snapshot, accounting_snapshot, runtime_accounting, cost_complete,
    usage_complete in Hc. cbn in Hc. bprop.
  repeat match goal with H : _ = countb _ _ |- _ => rewrite H in * end.
  split_and!; [apply length_zero_iff_nil; lia|lia|].
  repeat match goal with H : countb _ _ = 0 |- _ => apply countb_0 in H; rewrite Forall_forall in H end.
  apply Forall_forall. intros st Hst. split; [|apply usage_accounted_intro; auto].
  intros Hi. match goal with H : ∀ x, x ∈ _ → is_billing_unknown x = false |- _ =>
    specialize (H st Hst); unfold is_billing_unknown in H; rewrite Hi in H; cbn in H end.
  bprop. done.
Qed.

(** A run resumed from its persisted accounting gets exactly the physical requests its limit
    has left: together the ledgers never admit more than the original limit, and the run is
    reported exhausted exactly when nothing is left. *)
Theorem resumed_budget_is_what_is_left limit y s' exhausted
    (Hl : limit < U32_MAX) (Hr : rtc ledger_step (ledger_start limit) y)
    (He : resume_api_request_budget (model_accounting_snapshot (sy_state y)) = (s', exhausted)) :
  (exhausted = true ↔ rb_started (sy_state y) = limit) ∧
  (exhausted = false →
   s' = SharedApiRequestBudget_new (limit - rb_started (sy_state y)) ∧
   rb_started (sy_state y) + rb_limit s' = limit).
Proof.
  destruct (ledger_reachable_exact limit y) as (_ & [(Hlim & Hle & _) Hf Hc Hs Haf Hac Has _] & _);
    [lia|done|].
  pose proof (Has ActorRoot) as Hs1. pose proof (Has ActorChild) as Hs2.
  pose proof (countb_actors rl_actor (pending (sy_owners y))) as H1.
  pose proof (countb_actors (λ st, rl_actor (st_lease st)) (sy_settled y)) as H2.
  rewrite <- Haf, <- Haf, <- Hf in H1. rewrite <- Hac, <- Hac, <- Hc in H2.
  cbn [actor_counters] in *.
  assert (Htot : total_started (model_accounting_snapshot (sy_state y)) = rb_started (sy_state y)).
  { unfold total_started. cbn. apply started_sum_fits; lia. }
  unfold resume_api_request_budget in He. rewrite Htot in He.
  cbn [model_accounting_snapshot accounting_snapshot runtime_accounting ma_hard_request_limit
       snapshot_of bs_limit] in He.
  rewrite Hlim, (proj2 (N.eqb_neq limit U32_MAX)), N.min_l in He by lia.
  injection He as <- <-. rewrite N.eqb_eq. split; [lia|]. intros Hne%N.eqb_neq.
  rewrite (proj2 (N.eqb_neq _ _) Hne). split; [done|]. cbn. lia.
Qed.
