(* ===== verification/ExecPolicy.v ===== *)
(** The Shell command policy ([crates/execpolicy/src/lib.rs]): the allow and deny groups of
    [execpolicy.toml] and the matcher that gives a command its explicit disposition.

    [shlex::split] is third-party code: the Section takes it as [shlex_split]. *)
From stdpp Require Import sorting.
From Stdlib Require Import Ascii String.
From S2P Require Import Prelude.
From S2P Require Import Text.
From S2P Require Import TextOps.

Open Scope string_scope.
Open Scope N_scope.

(** ** Data *)

Record ExecPolicyRuleSet := mkExecPolicyRuleSet { allow : list string; deny : list string }.

(** [rules] is a [BTreeMap]: its entries in key order, the order of its iteration. *)
Record ExecPolicy := mkExecPolicy { rules : list (string * ExecPolicyRuleSet) }.

Inductive ExecPolicyDisposition := Allow | Deny.
#[export] Instance ExecPolicyDisposition_eq_dec : EqDecision ExecPolicyDisposition.
Proof. solve_decision. Defined.

Record ExecPolicyMatch := mkExecPolicyMatch {
  disposition : ExecPolicyDisposition;
  group : string;
  pattern : string;
}.

Definition rule_label (m : ExecPolicyMatch) : string :=
  let action := match disposition m with Allow => "allow" | Deny => "deny" end in
  group m ++ ":" ++ action ++ ":" ++ pattern m.

(** ** Shell characters *)

Definition SINGLE_QUOTE : N := 39.
Definition DOUBLE_QUOTE : N := 34.
Definition BACKSLASH : N := 92.
Definition BACKTICK : N := 96.

Inductive Quote := QNone | QSingle | QDouble.
#[export] Instance Quote_eq_dec : EqDecision Quote.
Proof. solve_decision. Defined.

(** A semicolon, ampersand, bar, parenthesis, dollar sign, backtick, quote or white space. *)
Definition shell_boundary (c : list ascii) : bool :=
  white_space_char c || char_in [59; 38; 124; 40; 41; 36; BACKTICK; SINGLE_QUOTE; DOUBLE_QUOTE] c.

(** ** Dynamic composition: command or process substitution outside single quotes *)

Fixpoint has_dynamic_go (quote : Quote) (escaped : bool) (cs : list (list ascii)) : bool :=
  match cs with
  | [] => false
  | character :: cs' =>
    if escaped then has_dynamic_go quote false cs'
    else match quote with
    | QSingle => has_dynamic_go (if is_char SINGLE_QUOTE character then QNone else QSingle) false cs'
    | QDouble =>
      if is_char BACKSLASH character then has_dynamic_go QDouble true cs'
      else if is_char DOUBLE_QUOTE character then has_dynamic_go QNone false cs'
      else if is_char BACKTICK character || (char_in [36; 60; 62] character && peek_is 40 cs') then true
      else has_dynamic_go QDouble false cs'
    | QNone =>
      if is_char BACKSLASH character then has_dynamic_go QNone true cs'
      else if is_char SINGLE_QUOTE character then has_dynamic_go QSingle false cs'
      else if is_char DOUBLE_QUOTE character then has_dynamic_go QDouble false cs'
      else if is_char BACKTICK character then true
      else if char_in [36; 60; 62] character && peek_is 40 cs' then true
      else has_dynamic_go QNone false cs'
    end
  end.
Definition has_dynamic_shell_composition (command : string) : bool :=
  has_dynamic_go QNone false (chars command).

(** ** Wildcards

    The matcher keeps an index in each string and the last [*] passed, with the place in the
    value it was passed at; a mismatch goes back there and lets the [*] take one byte more. *)

Definition STAR : ascii := "*"%char.

Record WildState := mkWildState {
  pattern_index : nat;
  value_index : nat;
  star : option (nat * nat);  (** [star_index] and [star_value_index] *)
}.

(** One turn of the [while] loop: the next state, or the early [return false]. *)
Definition wild_step (p v : list ascii) (s : WildState) : option WildState :=
  if p !! pattern_index s ==? v !! value_index s then
    Some (mkWildState (S (pattern_index s)) (S (value_index s)) (star s))
  else if p !! pattern_index s ==? Some STAR then
    Some (mkWildState (S (pattern_index s)) (value_index s)
                      (Some (pattern_index s, value_index s)))
  else match star s with
  | Some (star_index, star_value_index) =>
    Some (mkWildState (S star_index) (S star_value_index)
                      (Some (star_index, S star_value_index)))
  | None => None
  end.

Fixpoint skip_stars (p : list ascii) : list ascii :=
  match p with a :: p' => if a ==? STAR then skip_stars p' else p | [] => [] end.

Fixpoint wild_loop (fuel : nat) (p v : list ascii) (s : WildState) : option bool :=
  match fuel with
  | O => None
  | S fuel =>
    if (value_index s <? length v)%nat then
      match wild_step p v s with
      | Some s' => wild_loop fuel p v s'
      | None => Some false
      end
    else Some (skip_stars (drop (pattern_index s) p) ==? [])
  end.

Definition wild_fuel (p v : list ascii) : nat := S (S (length v) * S (length p)).
Definition wildcard_matches (pattern value : string) : bool :=
  default false (wild_loop (wild_fuel (bytes pattern) (bytes value)) (bytes pattern) (bytes value)
                           (mkWildState 0 0 None)).

(** [starts.sort_unstable(); starts.dedup()] *)
Fixpoint dedup_consecutive (l : list nat) : list nat :=
  match l with
  | x :: ((y :: _) as l') => if x ==? y then dedup_consecutive l' else x :: dedup_consecutive l'
  | _ => l
  end.
Definition sorted_dedup (l : list nat) : list nat := dedup_consecutive (merge_sort Nat.le l).

(** [char_indices] filtered by [shell_boundary]: the offset of each boundary with its length. *)
Fixpoint boundaries (index : nat) (cs : list (list ascii)) : list (nat * nat) :=
  match cs with
  | [] => []
  | c :: cs' =>
    let rest := boundaries (index + length c) cs' in
    if shell_boundary c then (index, length c) :: rest else rest
  end.

Section exec_policy.
Context (shlex_split : string → option (list string)).

Definition normalize_command (command : string) : string :=
  match shlex_split command with
  | Some tokens => str_join " " tokens
  | None => str_join " " (split_whitespace command)
  end.

(** ** Segments *)

Definition push_segment (segments : list string) (current : list (list ascii)) : list string :=
  let normalized := normalize_command (of_chars current) in
  if is_empty_str normalized then segments else (segments ++ [normalized])%list.

Definition ends_with_char (b : N) (current : list (list ascii)) : bool :=
  match last current with Some c => is_char b c | None => false end.

Fixpoint command_segments_go (segments : list string) (current : list (list ascii)) (quote : Quote)
    (escaped : bool) (cs : list (list ascii)) : list string :=
  match cs with
  | [] => push_segment segments current
  | character :: cs' =>
    let current' := (current ++ [character])%list in
    if escaped then command_segments_go segments current' quote false cs'
    else match quote with
    | QSingle => command_segments_go segments current'
                   (if is_char SINGLE_QUOTE character then QNone else QSingle) false cs'
    | QDouble =>
      if is_char BACKSLASH character then command_segments_go segments current' QDouble true cs'
      else command_segments_go segments current'
             (if is_char DOUBLE_QUOTE character then QNone else QDouble) false cs'
    | QNone =>
      if is_char SINGLE_QUOTE character then command_segments_go segments current' QSingle false cs'
      else if is_char DOUBLE_QUOTE character then command_segments_go segments current' QDouble false cs'
      else if is_char BACKSLASH character then command_segments_go segments current' QNone true cs'
      else if char_in [59; 10] character then
        command_segments_go (push_segment segments current) [] QNone false cs'
      else if is_char 124 character then
        match cs' with
        | next :: cs'' =>
          if is_char 124 next
          then command_segments_go (push_segment segments current) [] QNone false cs''
          else command_segments_go (push_segment segments current) [] QNone false cs'
        | [] => command_segments_go (push_segment segments current) [] QNone false cs'
        end
      else if is_char 38 character then
        match cs' with
        | next :: cs'' =>
          if is_char 38 next
          then command_segments_go (push_segment segments current) [] QNone false cs''
          else if negb (ends_with_char 62 current) && negb (ends_with_char 60 current)
                  && negb (is_char 62 next)
          then command_segments_go (push_segment segments current) [] QNone false cs'
          else command_segments_go segments current' QNone false cs'
        | [] =>
          if negb (ends_with_char 62 current) && negb (ends_with_char 60 current)
          then command_segments_go (push_segment segments current) [] QNone false cs'
          else command_segments_go segments current' QNone false cs'
        end
      else command_segments_go segments current' QNone false cs'
    end
  end.
Definition command_segments (command : string) : list string :=
  command_segments_go [] [] QNone false (chars command).

(** ** Patterns *)

Definition command_pattern_matches (pattern command : string) : bool :=
  let pattern := normalize_command pattern in
  let command := normalize_command command in
  if pattern ==? "*" then true
  else if existsb (λ a, a ==? STAR) (bytes pattern) then wildcard_matches pattern command
  else (command ==? pattern)
       || (starts_with pattern command
           && is_some_and (bytes command !! length (bytes pattern)) is_ascii_whitespace).

Definition deny_pattern_occurs (pattern command : string) : bool :=
  let pattern := normalize_command pattern in
  let p := bytes pattern in
  let c := bytes command in
  if is_empty_str pattern then false
  else if negb (existsb (λ a, a ==? STAR) p) then
    existsb (λ start,
      let stop := (start + length p)%nat in
      let before := last (chars (of_bytes (take start c))) in
      let after := head (chars (of_bytes (drop stop c))) in
      is_none_or before shell_boundary && is_none_or after shell_boundary) (match_indices p c)
  else
    let bs := boundaries 0 (chars command) in
    let starts := sorted_dedup (O :: ((λ b, (b.1 + b.2)%nat) <$> bs)) in
    let ends := sorted_dedup ((fst <$> bs) ++ [length c]) in
    existsb (λ start, existsb (λ stop,
      (start <? stop)%nat &&
      (let candidate := trim (of_bytes (slice start stop c)) in
       negb (is_empty_str candidate)
       && wildcard_matches pattern (normalize_command candidate))) ends) starts.

(** ** The evaluation *)

(** The first rule, in group order and then in list order, whose pattern satisfies the test. *)
Definition first_rule (patterns : ExecPolicyRuleSet → list string) (d : ExecPolicyDisposition)
    (test : string → bool) (policy : ExecPolicy) : option ExecPolicyMatch :=
  find_map (λ '(g, r), find_map (λ p, if test p then Some (mkExecPolicyMatch d g p) else None)
                                (patterns r)) (rules policy).

Definition denies (command : string) (pattern : string) : bool :=
  existsb (command_pattern_matches pattern) (command_segments command)
  || deny_pattern_occurs pattern command.

Definition evaluate (policy : ExecPolicy) (command : string) : option ExecPolicyMatch :=
  match first_rule deny Deny (denies command) policy with
  | Some m => Some m
  | None =>
    let segments := command_segments command in
    if negb (length segments =? 1)%nat || has_dynamic_shell_composition command then None
    else
      let command := default command (head segments) in
      first_rule allow Allow (λ p, command_pattern_matches p command) policy
  end.
End exec_policy.
