(* ===== verification/ExecPolicyFacts.v ===== *)
(** What the Shell command policy guarantees: the wildcard matcher decides the glob language,
    an explicit deny always wins, and an allow never reaches past one command segment. *)
From Stdlib Require Import Ascii String.
From S2P Require Import Prelude.
From S2P Require Import Text.
From S2P Require Import TextOps.
From S2P Require Import ExecPolicy.

Open Scope string_scope.
Open Scope list_scope.
Open Scope nat_scope.

(** ** The glob language *)

Inductive glob : list ascii → list ascii → Prop :=
| glob_nil : glob [] []
| glob_byte a p v : a ≠ STAR → glob p v → glob (a :: p) (a :: v)
| glob_skip p v : glob p v → glob (STAR :: p) v
| glob_take p a v : glob (STAR :: p) v → glob (STAR :: p) (a :: v).
#[export] Hint Constructors glob : dse.

(** How many bytes of a pattern are not stars. *)
Fixpoint literals (p : list ascii) : nat :=
  match p with [] => 0 | a :: p' => (if a ==? STAR then 0 else 1) + literals p' end.

Lemma glob_literals p v : glob p v → literals p ≤ length v.
Proof. induction 1; cbn in *; repeat case_bool_decide; simplify_eq; lia. Qed.
Lemma literals_app p q : literals (p ++ q) = literals p + literals q.
Proof. induction p as [|a p IH]; cbn; [done|]. rewrite IH. lia. Qed.
Lemma literals_all p : STAR ∉ p → literals p = length p.
Proof.
  induction p as [|a p IH]; [done|]. intros [Ha Hp]%not_elem_of_cons. cbn.
  rewrite bool_decide_false by done. by rewrite IH.
Qed.
Lemma literals_0 p : literals p = 0 ↔ skip_stars p = [].
Proof. induction p as [|a p IH]; cbn; [done|]. by case_bool_decide. Qed.

Lemma glob_star_drop p v : glob (STAR :: p) v ↔ ∃ k, glob p (drop k v).
Proof.
  split.
  - remember (STAR :: p) as q eqn:Hq. induction 1 as [|a p' v Ha _ _|p' v Hg _|p' a v _ IH];
      simplify_eq; [by exists 0|]. destruct IH as [k Hk]; [done|]. by exists (S k).
  - intros [k Hk]. revert k Hk. induction v as [|a v IH]; intros k Hk.
    + rewrite drop_nil in Hk. by constructor.
    + destruct k; [by constructor|]. apply glob_take. by apply (IH k).
Qed.
Lemma glob_star_mono p v k : glob (STAR :: p) (drop k v) → glob (STAR :: p) v.
Proof.
  rewrite !glob_star_drop. intros [j Hj]. exists (k + j). by rewrite <- drop_drop.
Qed.
Lemma glob_literal_prefix l p v :
  STAR ∉ l → glob (l ++ p) v → ∃ w, v = l ++ w ∧ glob p w.
Proof.
  revert v; induction l as [|a l IH]; intros v Hl Hg; [by exists v|].
  apply not_elem_of_cons in Hl as [Ha Hl].
  inversion Hg; simplify_eq. destruct (IH v0) as (w & -> & Hw); [done..|]. by exists w.
Qed.
Lemma glob_only_stars p : skip_stars p = [] ↔ glob p [].
Proof.
  split.
  - induction p as [|a p IH]; cbn; [constructor|]. case_bool_decide; [|done].
    subst. intros ?%IH. by constructor.
  - intros H%glob_literals. cbn in H. apply literals_0. lia.
Qed.

(** ** The matcher decides it *)

Section matcher.
Context (p v : list ascii).

Local Abbreviation pi := pattern_index.
Local Abbreviation vi := value_index.

Lemma lookup_eq_below (s : WildState) :
  vi s < length v → p !! pi s = v !! vi s →
  ∃ a, drop (pi s) p = a :: drop (S (pi s)) p ∧ drop (vi s) v = a :: drop (S (vi s)) v
       ∧ v !! vi s = Some a.
Proof.
  intros Hlt Heq. destruct (lookup_lt_is_Some_2 v (vi s)) as [a Ha]; [done|].
  exists a. rewrite Ha in Heq. by rewrite (drop_S p a), (drop_S v a).
Qed.

(** *** Termination *)

Definition wild_progress (s : WildState) : nat :=
  (length v - default 0 (snd <$> star s)) * S (length p) + (length p - pi s).
Definition wild_indices (s : WildState) : Prop :=
  pi s ≤ length p ∧ ∀ i k, star s = Some (i, k) → i < pi s ∧ k ≤ vi s.

Lemma wild_step_progress s s' :
  vi s < length v → wild_indices s → wild_step p v s = Some s' →
  wild_indices s' ∧ wild_progress s' < wild_progress s.
Proof.
  intros Hlt [Hpi Hst]. unfold wild_step.
  case_bool_decide as Heq; [|case_bool_decide as Hstar].
  - destruct (lookup_eq_below s) as (a & Hd & _ & Ha); [done..|].
    rewrite Ha in Heq. apply lookup_lt_Some in Heq.
    intros [= <-]; unfold wild_indices, wild_progress; cbn. split; [split; [lia|]|lia].
    intros i k Hs. apply Hst in Hs. lia.
  - apply lookup_lt_Some in Hstar. intros [= <-]; unfold wild_indices, wild_progress; cbn.
    split; [split; [lia|]; intros i k [= <- <-]; lia|].
    destruct (star s) as [[i k]|] eqn:E; cbn; [destruct (Hst i k) as [_ ?]; [done|]|]; nia.
  - destruct (star s) as [[i k]|] eqn:E; [|done]. destruct (Hst i k) as [? ?]; [done|].
    intros [= <-]; unfold wild_indices, wild_progress; cbn. rewrite E; cbn.
    split; [split; [lia|]; intros i' k' [= <- <-]; lia|]. nia.
Qed.

Lemma wild_loop_terminates fuel s :
  wild_indices s → wild_progress s < fuel → is_Some (wild_loop fuel p v s).
Proof.
  revert s; induction fuel as [|fuel IH]; intros s Hi Hf; [lia|]. cbn [wild_loop].
  destruct (Nat.ltb_spec (vi s) (length v)); [|done].
  destruct (wild_step p v s) as [s'|] eqn:E; [|done].
  apply wild_step_progress in E as [? ?]; [|done..]. apply IH; [done|lia].
Qed.

(** *** Soundness: from every state, a match of what is left is a match of the whole. *)

Definition wild_sound (s : WildState) : Prop :=
  (glob (drop (pi s) p) (drop (vi s) v) → glob p v) ∧
  ∀ i k, star s = Some (i, k) → ∀ j, k ≤ j → glob (drop (S i) p) (drop j v) → glob p v.

Lemma wild_step_sound s s' :
  vi s < length v → wild_sound s → wild_step p v s = Some s' → wild_sound s'.
Proof.
  intros Hlt [Hs Hst]. unfold wild_step.
  case_bool_decide as Heq; [|case_bool_decide as Hstar].
  - destruct (lookup_eq_below s) as (a & Hp & Hv & _); [done..|].
    intros [= <-]. split; cbn; [|done]. intros Hg. apply Hs. rewrite Hp, Hv.
    destruct (decide (a = STAR)) as [->|]; eauto with dse.
  - apply drop_S in Hstar. rewrite Hstar in Hs. intros [= <-]. split; cbn.
    + intros Hg. eauto with dse.
    + intros i k [= <- <-] j Hj Hg. apply Hs, glob_star_drop. exists (j - vi s).
      rewrite drop_drop. by replace (vi s + (j - vi s)) with j by lia.
  - destruct (star s) as [[i k]|] eqn:E; [|done].
    intros [= <-]. split; cbn; [by apply (Hst i k); [|lia]|].
    intros i' k' [= <- <-] j Hj. apply (Hst i k); [done|lia].
Qed.

Lemma wild_loop_sound fuel s : wild_sound s → wild_loop fuel p v s = Some true → glob p v.
Proof.
  revert s; induction fuel as [|fuel IH]; intros s Hs; [done|]. cbn [wild_loop].
  destruct (Nat.ltb_spec (vi s) (length v)) as [Hlt|Hge].
  - destruct (wild_step p v s) as [s'|] eqn:E; [|done].
    apply IH. by apply (wild_step_sound s).
  - intros [= H%bool_decide_eq_true]. apply Hs. rewrite (drop_ge v) by done.
    by apply glob_only_stars.
Qed.

(** *** Completeness, for a value without a star: what is left still matches, where after a
    star [l] is the text matched since and the star may still take more. *)

Definition wild_complete (s : WildState) : Prop :=
  match star s with
  | None => glob (drop (pi s) p) (drop (vi s) v)
  | Some (i, k) => ∃ l, STAR ∉ l ∧ drop (S i) p = l ++ drop (pi s) p ∧
      drop k v = l ++ drop (vi s) v ∧ glob (STAR :: drop (S i) p) (drop k v)
  end.

Lemma glob_star_mismatch l q w :
  STAR ∉ l → head q ≠ head w → head q ≠ Some STAR → w ≠ [] →
  glob (STAR :: l ++ q) (l ++ w) → glob (STAR :: l ++ q) (drop 1 (l ++ w)).
Proof.
  intros Hl Hq1 Hq2 Hw. inversion 1 as [| |q' w' Hg|q' a w' Hg]; simplify_eq.
  - apply glob_literal_prefix in Hg as (z & Hz & Hg); [|done]. apply app_inv_head in Hz as ->.
    inversion Hg; subst; naive_solver.
  - replace (l ++ w) with (a :: w'). done.
Qed.
Lemma glob_star_star l q w : STAR ∉ l → glob (STAR :: l ++ STAR :: q) (l ++ w) → glob (STAR :: q) w.
Proof.
  intros Hl [k Hg]%glob_star_drop. apply glob_literal_prefix in Hg as (z & Hz & Hg); [|done].
  apply (glob_star_mono _ _ k). replace (drop k w) with z; [done|].
  apply (f_equal (drop (length l))) in Hz. rewrite drop_drop, drop_app_length in Hz.
  rewrite <- Hz, (Nat.add_comm k), <- drop_drop, drop_app_length. done.
Qed.

Lemma wild_step_complete s :
  STAR ∉ v → vi s < length v → wild_complete s →
  ∃ s', wild_step p v s = Some s' ∧ wild_complete s'.
Proof.
  intros Hv Hlt Hs. unfold wild_step, wild_complete in *.
  case_bool_decide as Heq; [|case_bool_decide as Hstar].
  - destruct (lookup_eq_below s) as (a & Hp & Hw & Ha); [done..|]. rewrite Hp, Hw in Hs.
    assert (a ≠ STAR) by (intros ->; by apply list_elem_of_lookup_2 in Ha).
    eexists; split; [done|]; cbn. destruct (star s) as [[i k]|].
    + destruct Hs as (l & Hl & H1 & H2 & Hg). exists (l ++ [a]). rewrite <- !app_assoc. cbn.
      split_and!; [|done..]. rewrite elem_of_app, list_elem_of_singleton. naive_solver.
    + by inversion Hs.
  - apply drop_S in Hstar. rewrite Hstar in Hs.
    eexists; split; [done|]; cbn. exists []. split_and!; [apply not_elem_of_nil|done..|].
    destruct (star s) as [[i k]|]; [|done].
    destruct Hs as (l & Hl & H1 & H2 & Hg). rewrite H1, H2 in Hg. by apply glob_star_star in Hg.
  - assert (Hne : drop (vi s) v ≠ []).
    { intros E%(f_equal length). rewrite length_drop in E. cbn in E. lia. }
    assert (Hh : ∀ (l : list ascii) n, head (drop n l) = l !! n).
    { intros l n. by rewrite head_lookup, lookup_drop, Nat.add_0_r. }
    destruct (star s) as [[i k]|].
    + destruct Hs as (l & Hl & H1 & H2 & Hg). eexists; split; [done|]; cbn.
      exists []. split_and!; [apply not_elem_of_nil|done..|].
      replace (drop (S k) v) with (drop 1 (drop k v)) by (rewrite drop_drop; f_equal; lia).
      rewrite H1, H2 in *. by apply glob_star_mismatch; rewrite ?Hh.
    + exfalso. pose proof (Hh p (pi s)) as H1. pose proof (Hh v (vi s)) as H2.
      inversion Hs as [E1 E2|a ? ? ? ? E1 E2|? ? ? E1 E2|? a ? ? E1 E2];
        rewrite <- ?E1, <- ?E2 in *; cbn in *; congruence.
Qed.

Lemma wild_loop_complete fuel s b :
  STAR ∉ v → wild_complete s → wild_loop fuel p v s = Some b → b = true.
Proof.
  intros Hv. revert s; induction fuel as [|fuel IH]; intros s Hs; [done|]. cbn [wild_loop].
  destruct (Nat.ltb_spec (vi s) (length v)) as [Hlt|Hge].
  - destruct (wild_step_complete s) as (s' & -> & Hs'); [done..|]. by apply IH.
  - intros [= <-]. apply bool_decide_eq_true. unfold wild_complete in Hs.
    rewrite (drop_ge v (vi s)) in Hs by done. destruct (star s) as [[i k]|].
    + destruct Hs as (l & Hl & H1 & H2 & Hg). rewrite H1, H2, app_nil_r in Hg.
      apply glob_literals in Hg. apply literals_0.
      change (STAR :: l ++ drop (pi s) p) with ([STAR] ++ (l ++ drop (pi s) p)) in Hg.
      rewrite !literals_app, (literals_all l) in Hg by done. lia.
    + by apply glob_only_stars.
Qed.
End matcher.

(** The wildcard matcher of the Shell policy decides the glob language. It always answers:
    the fuel given to its loop is never used up. Whatever it accepts is a glob match, in which
    every star of the pattern stands for some bytes of the value; and, on a value that holds no
    literal star, it accepts every glob match, although it only ever backtracks to the last star
    it passed. *)
Theorem wildcard_matches_is_glob pattern value :
  is_Some (wild_loop (wild_fuel (bytes pattern) (bytes value)) (bytes pattern) (bytes value)
                     (mkWildState 0 0 None)) ∧
  (wildcard_matches pattern value = true → glob (bytes pattern) (bytes value)) ∧
  (STAR ∉ bytes value → glob (bytes pattern) (bytes value) →
   wildcard_matches pattern value = true).
Proof.
  assert (Hw : is_Some (wild_loop (wild_fuel (bytes pattern) (bytes value)) (bytes pattern)
                                  (bytes value) (mkWildState 0 0 None))).
  { apply wild_loop_terminates; [by split; cbn; [lia|]|].
    unfold wild_progress, wild_fuel. cbn -[Nat.mul Nat.add Nat.sub]. nia. }
  split_and!; [done|..]; unfold wildcard_matches; destruct Hw as [b Hb]; rewrite Hb.
  - cbn. intros ->. eapply wild_loop_sound; [|done]. by split.
  - intros Hv Hg. eapply wild_loop_complete; [done| |done]. done.
Qed.

(** A value with a star of its own escapes: the matcher takes the literal star of the value for
    the star of the pattern and has nothing to go back to. *)
Theorem wildcard_misses_a_literal_star :
  glob (bytes "rm *") (bytes "rm *.txt") ∧ wildcard_matches "rm *" "rm *.txt" = false.
Proof.
  split; [|by vm_compute].
  do 3 (apply glob_byte; [by vm_compute|]). apply glob_star_drop. exists 5. constructor.
Qed.

(** ** Segments *)

(** The quoting state of the shell lexer after the characters. *)
Fixpoint lex (quote : Quote) (escaped : bool) (cs : list (list ascii)) : Quote * bool :=
  match cs with
  | [] => (quote, escaped)
  | c :: cs' =>
    if escaped then lex quote false cs'
    else match quote with
    | QSingle => lex (if is_char SINGLE_QUOTE c then QNone else QSingle) false cs'
    | QDouble =>
      if is_char BACKSLASH c then lex QDouble true cs'
      else lex (if is_char DOUBLE_QUOTE c then QNone else QDouble) false cs'
    | QNone =>
      if is_char BACKSLASH c then lex QNone true cs'
      else lex (if is_char SINGLE_QUOTE c then QSingle
                else if is_char DOUBLE_QUOTE c then QDouble else QNone) false cs'
    end
  end.
Definition lex_state (s : string) : Quote * bool := lex QNone false (chars s).

Lemma lex_app q e cs ds : lex q e (cs ++ ds) = lex (lex q e cs).1 (lex q e cs).2 ds.
Proof. revert q e; induction cs as [|c cs IH]; intros q e; cbn; [done|]. repeat case_match; apply IH. Qed.

Definition space : list ascii := [" "%char].
Definition separators : list string := [";"; newline; "|"; "||"; "&"; "&&"].

(** The string begins at a character boundary, as every [&str] does. *)
Definition char_start (s : string) : Prop :=
  match bytes s with a :: _ => is_continuation a = false | [] => True end.

Lemma is_char_eq b c : is_char b c = true → c = [ascii_of_N b].
Proof.
  destruct c as [|a [|]]; try done. intros H%N.eqb_eq. cbn in H. subst b. unfold byte_val.
  by rewrite ascii_N_embedding.
Qed.

Lemma chars_go_app cur l x r :
  is_continuation x = false → chars_go cur (l ++ x :: r) = chars_go cur l ++ chars_go [x] r.
Proof.
  intros Hx. revert cur; induction l as [|a l IH]; intros cur; cbn.
  - rewrite Hx. by destruct cur.
  - destruct (is_continuation a); [apply IH|]. destruct cur; [apply IH|]. by rewrite IH.
Qed.
Lemma chars_app s t : char_start t → chars (s ++ t) = chars s ++ chars t.
Proof.
  unfold chars, char_start. rewrite bytes_app. destruct (bytes t) as [|x r]; intros Hx.
  - by rewrite !app_nil_r.
  - cbn [chars_go]. rewrite Hx. by apply chars_go_app.
Qed.
Lemma chars_cons a s :
  is_continuation a = false → char_start s → chars (String a s) = [a] :: chars s.
Proof.
  intros Ha Hs. change (String a s) with (String a "" ++ s)%string.
  rewrite chars_app by done. unfold chars at 1. cbn. by rewrite Ha.
Qed.

Lemma str_app_cons a s t : (String a s ++ t = String a (s ++ t))%string.
Proof. done. Qed.
Lemma str_app_nil t : ("" ++ t = t)%string.
Proof. done. Qed.

Section policy_facts.
Context (shlex_split : string → option (list string)).
Local Abbreviation segments_go := (command_segments_go shlex_split).
Local Abbreviation push := (push_segment shlex_split).

Lemma push_segment_app segs segs' cur : push (segs ++ segs') cur = segs ++ push segs' cur.
Proof. unfold push_segment. destruct is_empty_str; [done|]. by rewrite app_assoc. Qed.

Lemma segments_go_app n segs segs' cur q e cs :
  length cs ≤ n →
  segments_go (segs ++ segs') cur q e cs = segs ++ segments_go segs' cur q e cs.
Proof.
  revert segs' cur q e cs; induction n as [|n IH]; intros segs' cur q e [|c cs] Hn; cbn in Hn;
    [apply push_segment_app|lia|apply push_segment_app|].
  cbn [command_segments_go]. rewrite !push_segment_app.
  destruct e; [apply IH; lia|].
  destruct q; repeat case_match; subst; cbn in Hn; apply IH; cbn; lia.
Qed.

(** A prefix that leaves the lexer outside quotes and ends with a space is segmented on its
    own: what follows it only decides how its last segment goes on. *)
Lemma segments_go_prefix n segs cur q e cs :
  length cs ≤ n → lex q e (cs ++ [space]) = (QNone, false) →
  ∃ segs' cur', last cur' = Some space ∧ ∀ rest,
    segments_go segs cur q e (cs ++ space :: rest) = segments_go segs' cur' QNone false rest.
Proof.
  revert segs cur q e cs; induction n as [|n IH]; intros segs cur q e [|c cs] Hn Hlex;
    cbn in Hn; [|lia| |].
  1,2: exists segs, (cur ++ [space]); rewrite last_snoc; split; [done|]; intros rest;
       destruct e, q; done.
  cbn [lex app] in Hlex. cbn [command_segments_go app].
  destruct e; [apply IH; [lia|done]|]. destruct q.
  - destruct (is_char SINGLE_QUOTE c) eqn:E1.
    { apply is_char_eq in E1 as ->. apply IH; [lia|done]. }
    destruct (is_char DOUBLE_QUOTE c) eqn:E2.
    { apply is_char_eq in E2 as ->. apply IH; [lia|done]. }
    destruct (is_char BACKSLASH c) eqn:E3; rewrite ?E1, ?E2 in Hlex; [apply IH; [lia|done]|].
    destruct (char_in [59; 10]%N c); [apply IH; [lia|done]|].
    destruct (is_char 124 c) eqn:E4; [|destruct (is_char 38 c) eqn:E5].
    + destruct cs as [|c2 cs]; cbn [app]; [apply (IH _ _ _ _ []); [cbn; lia|done]|].
      destruct (is_char 124 c2) eqn:E6; [|apply (IH _ _ _ _ (c2 :: cs)); [lia|done]].
      apply is_char_eq in E6 as ->. apply IH; [cbn in Hn; lia|]. by cbn in Hlex.
    + destruct cs as [|c2 cs]; cbn [app].
      { change (is_char 62 space) with false. change (is_char 38 space) with false. cbn iota.
        destruct (negb _ && negb _ && _); apply (IH _ _ _ _ []); (cbn; lia) || done. }
      destruct (is_char 38 c2) eqn:E6.
      { apply is_char_eq in E6 as ->. apply IH; [cbn in Hn; lia|]. by cbn in Hlex. }
      destruct (negb _ && negb _ && _); apply (IH _ _ _ _ (c2 :: cs)); lia || done.
    + apply IH; [lia|done].
  - apply IH; [lia|done].
  - destruct (is_char BACKSLASH c); apply IH; (lia || done).
Qed.

Lemma last_space_not_redirect cur b :
  last cur = Some space → b ≠ 32%N → ends_with_char b cur = false.
Proof. unfold ends_with_char. intros -> Hb. apply N.eqb_neq. by vm_compute in Hb |- *. Qed.

Lemma segments_of_chain a sep b :
  lex_state a = (QNone, false) → sep ∈ separators → char_start b →
  command_segments shlex_split (a ++ " " ++ sep ++ " " ++ b) =
  command_segments shlex_split (a ++ " ") ++ command_segments shlex_split (" " ++ b).
Proof.
  intros Ha Hsep Hb. unfold command_segments.
  assert (Hsp : chars (" " ++ b) = space :: chars b) by (by apply chars_cons).
  assert (Hneutral : lex QNone false (chars a ++ [space]) = (QNone, false)).
  { rewrite lex_app. unfold lex_state in Ha. by rewrite Ha. }
  destruct (segments_go_prefix (length (chars a)) [] [] QNone false (chars a))
    as (segs & cur & Hcur & Hrest); [done..|].
  rewrite (chars_app a " ") by done. change (chars " ") with [space]. rewrite (Hrest []). cbn [command_segments_go].
  assert (Hchain : ∀ rest, chars (a ++ " " ++ sep ++ rest) = chars a ++ space :: chars (sep ++ rest)).
  { intros rest. unfold separators in Hsep. rewrite !elem_of_cons, elem_of_nil in Hsep.
    rewrite chars_app by done. f_equal. apply chars_cons; [done|].
    by destruct Hsep as [->|[->|[->|[->|[->|[->|[]]]]]]]. }
  rewrite (Hchain (" " ++ b)%string), Hrest.
  assert (Hsegs : segments_go segs cur QNone false (chars (sep ++ " " ++ b)) =
                  segments_go (push segs cur ++ []) [] QNone false (chars (" " ++ b))).
  { rewrite app_nil_r. assert (char_start (" " ++ b)) by done.
    pose proof (last_space_not_redirect _ 62 Hcur ltac:(done)) as H62.
    pose proof (last_space_not_redirect _ 60 Hcur ltac:(done)) as H60.
    unfold separators in Hsep. rewrite !elem_of_cons, elem_of_nil in Hsep.
    destruct Hsep as [->|[->|[->|[->|[->|[->|[]]]]]]].
    all: unfold newline; rewrite !str_app_cons, ?str_app_nil, !chars_cons by done;
      cbn -[ends_with_char push_segment command_segments_go chars];
      cbn [command_segments_go]; cbn -[ends_with_char push_segment command_segments_go chars];
      rewrite ?H62, ?H60; done. }
  rewrite Hsegs. by apply (segments_go_app _ _ _ _ _ _ _ (Nat.le_refl _)).
Qed.

(** ** Dynamic composition *)

(** Command substitution and process substitution, by their opening. *)
Definition substitutions : list string := ["$("; "<("; ">("; "`"].

Lemma has_dynamic_app q e cs rest :
  has_dynamic_go (lex q e cs).1 (lex q e cs).2 rest = true → peek_is 40 rest = false →
  has_dynamic_go q e (cs ++ rest) = true.
Proof.
  intros Hr Hp. revert q e Hr; induction cs as [|c cs IH]; intros q e; [done|].
  cbn [lex app has_dynamic_go].
  destruct e; [apply IH|]. destruct q; repeat case_match; try done; try apply IH;
    match goal with H1 : is_char ?b c = true, H2 : is_char ?b' c = _ |- _ =>
      apply is_char_eq in H1; subst c; vm_compute in H2; done end.
Qed.

Lemma substitution_is_dynamic a sub b :
  (lex_state a).1 ≠ QSingle → (lex_state a).2 = false → sub ∈ substitutions → char_start b →
  has_dynamic_shell_composition (a ++ sub ++ b) = true.
Proof.
  intros Hq He Hsub Hb. unfold has_dynamic_shell_composition.
  unfold substitutions in Hsub. rewrite !elem_of_cons, elem_of_nil in Hsub.
  destruct Hsub as [->|[->|[->|[->|[]]]]].
  all: rewrite chars_app by done; apply has_dynamic_app;
    fold (lex_state a); rewrite ?He, ?str_app_cons, ?str_app_nil, ?chars_cons by done;
    destruct (lex_state a) as [[] ?]; done.
Qed.

(** ** The evaluation *)

Definition rule_of (patterns : ExecPolicyRuleSet → list string) (policy : ExecPolicy)
    (g p : string) : Prop :=
  ∃ r, (g, r) ∈ rules policy ∧ p ∈ patterns r.

Lemma first_rule_Some patterns d test policy m :
  first_rule patterns d test policy = Some m →
  disposition m = d ∧ test (pattern m) = true ∧ rule_of patterns policy (group m) (pattern m).
Proof.
  intros ([g r] & Hr & (p & Hp & Hm)%find_map_Some)%find_map_Some. destruct (test p) eqn:E; [|done].
  simplify_eq; cbn. split_and!; [done..|]. by exists r.
Qed.
Lemma first_rule_None patterns d test policy g p :
  first_rule patterns d test policy = None → rule_of patterns policy g p → test p = false.
Proof.
  intros Hn (r & Hr & Hp). pose proof (find_map_None _ _ _ Hn Hr) as Hn'. cbn in Hn'.
  pose proof (find_map_None _ _ _ Hn' Hp) as Ht. cbn in Ht. by destruct (test p).
Qed.

(** Every branch of the evaluation. *)
Lemma evaluate_branches policy command :
  match evaluate shlex_split policy command with
  | Some m =>
    match disposition m with
    | Deny => rule_of deny policy (group m) (pattern m) ∧ denies shlex_split command (pattern m) = true
    | Allow =>
      (∀ g p, rule_of deny policy g p → denies shlex_split command p = false) ∧
      rule_of allow policy (group m) (pattern m) ∧
      has_dynamic_shell_composition command = false ∧
      ∃ segment, command_segments shlex_split command = [segment] ∧
                 command_pattern_matches shlex_split (pattern m) segment = true
    end
  | None => ∀ g p, rule_of deny policy g p → denies shlex_split command p = false
  end.
Proof.
  unfold evaluate. destruct (first_rule deny _ _ _) as [m|] eqn:Ed.
  { apply first_rule_Some in Ed as (-> & ? & ?). done. }
  assert (Hd : ∀ g p, rule_of deny policy g p → denies shlex_split command p = false)
    by (intros g p; by eapply first_rule_None).
  destruct (negb _ || _) eqn:Eg; [done|]. bprop.
  destruct (first_rule allow _ _ _) as [m|] eqn:Ea; [|done].
  apply first_rule_Some in Ea as (-> & Hm & ?). split_and!; try done.
  match goal with H : (_ =? 1)%nat = true |- _ => apply Nat.eqb_eq in H end.
  destruct (command_segments shlex_split command) as [|s [|]]; try done. by exists s.
Qed.

Lemma denied_is_denied policy command g p :
  rule_of deny policy g p → denies shlex_split command p = true →
  ∃ m, evaluate shlex_split policy command = Some m ∧ disposition m = Deny.
Proof.
  intros Hr Hd. pose proof (evaluate_branches policy command) as Hb.
  destruct (evaluate _ _ _) as [m|]; [|by rewrite (Hb g p) in Hd].
  exists m. split; [done|]. destruct (disposition m); [|done].
  destruct Hb as [Hn _]. by rewrite (Hn g p) in Hd.
Qed.

End policy_facts.

(** The escape reaches the policy: a group that denies [rm] with any argument does not deny it
    with an argument that begins with a star. *)
Theorem star_argument_evades_deny :
  let words s := Some (split_whitespace s) in
  let policy := mkExecPolicy [("files", mkExecPolicyRuleSet [] ["rm *"])] in
  (evaluate words policy "rm notes.txt" = Some (mkExecPolicyMatch Deny "files" "rm *")) ∧
  evaluate words policy "rm *.txt" = None.
Proof. split; by vm_compute. Qed.
