(* ===== verification/Paths.v ===== *)
(** The workspace boundary of the production tools ([crates/tools/src/production_context.rs]): the
    resolution of path arguments, the write guard of isolated writers and the record of the file
    contents that were read before an edit.

    A [PathBuf] is the list of its components, which is what Rust compares (a trailing slash is
    not kept); the paths are those of Unix, which have no [Component::Prefix]. The file system is a
    parameter: [exists], [canonicalize] and [read] of the moment of the call. A digest is its hexadecimal text. *)
From Stdlib Require Import Ascii String.
From S2P Require Import Prelude.
From S2P Require Import Text.
From S2P Require Import TextOps.
From S2P Require Import Json.
From S2P Require Import Protocol.
From S2P Require Import RunApi.
From S2P Require Import Patch.

Open Scope string_scope.
Open Scope list_scope.
Open Scope N_scope.

(** ** [std::path] *)

Inductive Component := RootDir | CurDir | ParentDir | Normal (name : string).
#[export] Instance Component_eq_dec : EqDecision Component.
Proof. solve_decision. Defined.
Definition PathBuf : Type := list Component.

(** The components of a path text: [.] counts at the start of a relative path only. *)
Definition segment_components (absolute : bool) (i : nat) (seg : string) : list Component :=
  if is_empty_str seg then []
  else if seg ==? "." then (if absolute || negb (i =? 0)%nat then [] else [CurDir])
  else if seg ==? ".." then [ParentDir]
  else [Normal seg].
Definition components (raw : string) : PathBuf :=
  let absolute := path_is_absolute raw in
  (if absolute then [RootDir] else [])
  ++ mjoin (imap (segment_components absolute) (split_bytes is_slash raw)).

Definition is_absolute (p : PathBuf) : bool := head p ==? Some RootDir.

(** [Path::join]: an absolute path replaces the base. *)
Definition path_join (base p : PathBuf) : PathBuf :=
  if is_absolute p then p
  else match base with [] => p | _ => base ++ filter (λ c, c ≠ CurDir) p end.

(** [Path::starts_with] *)
Fixpoint path_starts_with (p base : PathBuf) : bool :=
  match base, p with
  | [], _ => true
  | c :: base', d :: p' => (c ==? d) && path_starts_with p' base'
  | _ :: _, [] => false
  end.

Definition component_str (c : Component) : string :=
  match c with RootDir => "/" | CurDir => "." | ParentDir => ".." | Normal n => n end.
(** [Path::display] *)
Definition display (p : PathBuf) : string :=
  match p with
  | RootDir :: p' => "/" ++ str_join "/" (component_str <$> p')
  | _ => str_join "/" (component_str <$> p)
  end.

(** [normalize_path]: [stack] is reversed. *)
Fixpoint normalize_go (is_root : bool) (stack : list string) (p : PathBuf) : bool * list string :=
  match p with
  | [] => (is_root, reverse stack)
  | RootDir :: p' => normalize_go true stack p'
  | CurDir :: p' => normalize_go is_root stack p'
  | ParentDir :: p' =>
    match stack with
    | top :: stack' => normalize_go is_root (if top ==? ".." then ".." :: stack else stack') p'
    | [] => normalize_go is_root (if is_root then [] else [".."]) p'
    end
  | Normal part :: p' => normalize_go is_root (part :: stack) p'
  end.
Definition pushed_component (part : string) : Component := if part ==? ".." then ParentDir else Normal part.
Definition normalize_path (p : PathBuf) : PathBuf :=
  let '(is_root, stack) := normalize_go false [] p in
  (if is_root then [RootDir] else []) ++ (pushed_component <$> stack).

(** ** The context *)

Inductive WritePathGuard := GuardOrdinary | GuardIsolatedWriter (worktree : PathBuf).

(** [file_read_tracker] holds the digest of the bytes last read, by path. *)
Record ProductionToolContext := mkProductionToolContext {
  workspace : PathBuf;
  allow_external_paths : bool;
  follow_symlinks : bool;
  permission_mode : RunPermissionMode;
  write_path_guard : WritePathGuard;
  reads : list (PathBuf * string);
}.

Definition new_context (workspace : PathBuf) : ProductionToolContext :=
  mkProductionToolContext workspace false false PermissionAsk GuardOrdinary [].

Definition with_external_path_authority (allow : bool) (c : ProductionToolContext) : ProductionToolContext :=
  mkProductionToolContext (workspace c) allow (follow_symlinks c) (permission_mode c)
                          (write_path_guard c) (reads c).
Definition with_follow_symlinks (follow : bool) (c : ProductionToolContext) : ProductionToolContext :=
  mkProductionToolContext (workspace c) (allow_external_paths c) follow (permission_mode c)
                          (write_path_guard c) (reads c).
Definition with_permission_mode (mode : RunPermissionMode) (c : ProductionToolContext) : ProductionToolContext :=
  mkProductionToolContext (workspace c) (allow_external_paths c) (follow_symlinks c) mode
                          (write_path_guard c) (reads c).

Fixpoint assoc_lookup (p : PathBuf) (l : list (PathBuf * string)) : option string :=
  match l with
  | [] => None
  | (q, d) :: l' => if q ==? p then Some d else assoc_lookup p l'
  end.

(** [HashMap::insert] *)
Definition note_file_read_digest (p : PathBuf) (content_sha256 : string) (c : ProductionToolContext)
    : ProductionToolContext :=
  mkProductionToolContext (workspace c) (allow_external_paths c) (follow_symlinks c)
    (permission_mode c) (write_path_guard c)
    ((p, content_sha256) :: filter (λ r, r.1 ≠ p) (reads c)).

(** A text between double quotes. *)
Definition quoted (s : string) : string :=
  (String (ascii_of_N 34) s ++ String (ascii_of_N 34) "")%string.

Section production_context.
Context `{JsonLib}.
Context (path_exists : PathBuf → bool).
Context (canonicalize : PathBuf → result string PathBuf).
Context (fs_read : PathBuf → result string string).

Definition canonical_or (alt p : PathBuf) : PathBuf :=
  match canonicalize p with Ok q => q | Err _ => alt end.

Definition with_isolated_writer_write_guard (worktree : PathBuf) (c : ProductionToolContext)
    : ProductionToolContext :=
  mkProductionToolContext (workspace c) (allow_external_paths c) (follow_symlinks c)
    (permission_mode c) (GuardIsolatedWriter (canonical_or (normalize_path worktree) worktree)) (reads c).

(** ** Read before edit *)

Definition note_file_read_bytes (p : PathBuf) (content : string) (c : ProductionToolContext)
    : ProductionToolContext :=
  note_file_read_digest p (sha256_hex content) c.

Definition read_fresh_file_bytes (c : ProductionToolContext) (p : PathBuf) (requested_path : string)
    : result ToolError string :=
  match assoc_lookup p (reads c) with
  | None => Err (WorkspacePrecondition ("edit_file 拒绝修改 " ++ display p
                   ++ "：本次运行尚未读取该文件（path=" ++ quoted requested_path ++ "）"))
  | Some prior =>
    match fs_read p with
    | Err error => Err (WorkspacePrecondition ("edit_file 无法确认 " ++ display p
                          ++ " 是否仍为已读取版本（path=" ++ quoted requested_path ++ "）：" ++ error))
    | Ok current =>
      if negb (sha256_hex current ==? prior)
      then Err (StaleRead ("edit_file 拒绝修改 " ++ display p
                  ++ "：文件在最近一次 read_file 后已经变化（path=" ++ quoted requested_path ++ "）"))
      else Ok current
    end
  end.

(** ** Resolution *)

(** The loop [while !existing_ancestor.exists()], on the reversed components: the ancestor it ends
    on (reversed) and the file names passed, innermost first. *)
Fixpoint existing_ancestor (rev_path : list Component) (suffix_parts : list string)
    : list Component * list string :=
  if path_exists (reverse rev_path) then (rev_path, suffix_parts)
  else match rev_path with
  | Normal name :: parent =>
    match parent with
    | [] => (rev_path, suffix_parts ++ [name])
    | _ => existing_ancestor parent (suffix_parts ++ [name])
    end
  | CurDir :: parent | ParentDir :: parent =>
    match parent with
    | [] => (rev_path, suffix_parts)
    | _ => existing_ancestor parent suffix_parts
    end
  | RootDir :: _ | [] => (rev_path, suffix_parts)
  end.

Definition resolve_nonexistent_path (c : ProductionToolContext) (candidate workspace_canonical : PathBuf)
    : result ToolError PathBuf :=
  let workspace_normalized := normalize_path workspace_canonical in
  let workspace_plain := normalize_path (workspace c) in
  let '(rev_ancestor, suffix_parts) := existing_ancestor (reverse candidate) [] in
  let ancestor := reverse rev_ancestor in
  let ancestor_normalized := normalize_path ancestor in
  let canonical_ancestor := if path_exists ancestor then canonical_or ancestor ancestor else ancestor in
  let canonical := normalize_path (canonical_ancestor ++ (Normal <$> reverse suffix_parts)) in
  if follow_symlinks c && (path_starts_with ancestor_normalized workspace_plain
                           || path_starts_with ancestor_normalized workspace_normalized)
  then Ok canonical
  else if negb (path_starts_with canonical workspace_canonical)
          && negb (path_starts_with canonical workspace_normalized)
  then Err (PathEscape (display canonical))
  else Ok canonical.

Definition resolve_candidate (c : ProductionToolContext) (raw : string) : PathBuf :=
  if path_is_absolute raw then components raw else path_join (workspace c) (components raw).

(** The part of [resolve_path] after the symbolic-link branch. *)
Definition resolve_confined (c : ProductionToolContext) (candidate workspace_canonical : PathBuf)
    : result ToolError PathBuf :=
  let candidate_canonical := canonical_or (normalize_path candidate) candidate in
  let workspace_normalized := normalize_path workspace_canonical in
  if negb (path_starts_with candidate_canonical workspace_normalized)
     && negb (path_starts_with (normalize_path candidate) (normalize_path (workspace c)))
  then Err (PathEscape (display candidate_canonical))
  else if path_exists candidate then
    match canonicalize candidate with
    | Err error => Err (ExecutionFailed ("Failed to canonicalize " ++ display candidate ++ ": " ++ error))
    | Ok canonical =>
      if negb (path_starts_with canonical workspace_canonical) then Err (PathEscape (display canonical))
      else Ok canonical
    end
  else resolve_nonexistent_path c candidate workspace_canonical.

Definition resolve_path (c : ProductionToolContext) (raw : string) : result ToolError PathBuf :=
  let candidate := resolve_candidate c raw in
  if allow_external_paths c then Ok (canonical_or candidate candidate)
  else
    let workspace_canonical := canonical_or (workspace c) (workspace c) in
    if follow_symlinks c
       && (path_starts_with (normalize_path candidate) (normalize_path (workspace c))
           || path_starts_with (normalize_path candidate) (normalize_path workspace_canonical))
    then
      if path_exists candidate then Ok (canonical_or candidate candidate)
      else resolve_nonexistent_path c candidate workspace_canonical
    else resolve_confined c candidate workspace_canonical.

Definition path_is_external (c : ProductionToolContext) (raw : string) : bool :=
  let ws := canonical_or (normalize_path (workspace c)) (workspace c) in
  match resolve_path c raw with
  | Ok resolved => negb (path_starts_with (normalize_path resolved) ws)
  | Err _ => true
  end.

(** ** Writes *)

Definition isolated_writer_write_denied (p : string) : ToolError :=
  PermissionDenied ("隔离 Writer 只能修改其 worktree 内的普通文件，拒绝路径 " ++ p).

Definition protected_component (c : Component) : bool :=
  match c with Normal name => bool_decide (name ∈ [".git"; ".dse"; ".deepseek"]) | _ => false end.

Definition resolve_write_path (c : ProductionToolContext) (raw : string) : result ToolError PathBuf :=
  let mapped := match resolve_path c raw with
                | Err (PathEscape p) =>
                  match write_path_guard c with
                  | GuardIsolatedWriter _ => Err (isolated_writer_write_denied raw)
                  | GuardOrdinary => Err (PathEscape p)
                  end
                | r => r
                end in
  resolved ← mapped;
  match write_path_guard c with
  | GuardOrdinary => Ok resolved
  | GuardIsolatedWriter worktree =>
    let resolved := normalize_path resolved in
    if negb (path_starts_with resolved worktree)
    then Err (isolated_writer_write_denied (display resolved))
    else
      let relative := drop (length worktree) resolved in
      if existsb protected_component relative
      then Err (isolated_writer_write_denied (display resolved))
      else Ok resolved
  end.

End production_context.
