(* ===== verification/PathsFacts.v ===== *)
(** The workspace boundary holds: a resolved path lies in the canonical workspace and no symbolic
    link in it is left unresolved, an isolated writer reaches ordinary files of its worktree only,
    and an edit sees exactly the bytes that were read last. *)
From Stdlib Require Import Ascii String.
From S2P Require Import Prelude.
From S2P Require Import Text.
From S2P Require Import TextOps.
From S2P Require Import Json.
From S2P Require Import Protocol.
From S2P Require Import Patch.
From S2P Require Import Paths.

Open Scope string_scope.
Open Scope list_scope.
Open Scope N_scope.

(** ** Well-formed paths *)

(** A component that is neither a root nor the text [..] taken for a name. *)
Definition inner_component (c : Component) : Prop := c ≠ RootDir ∧ c ≠ Normal "..".

(** An absolute path: a root, and no other. *)
Definition absolute_path (p : PathBuf) : Prop := ∃ rest, p = RootDir :: rest ∧ Forall inner_component rest.

(** A canonical path: a root and names, without [.] and [..]. *)
Definition clean (p : PathBuf) : Prop := ∃ names, p = RootDir :: (Normal <$> names) ∧ Forall (λ n, n ≠ "..") names.

Lemma clean_absolute p : clean p → absolute_path p.
Proof.
  intros (names & -> & Hn). exists (Normal <$> names). split; [done|].
  apply Forall_fmap. eapply Forall_impl; [exact Hn|]. intros n Hne. split; congruence.
Qed.

Lemma path_starts_with_spec p base : path_starts_with p base = true ↔ ∃ rest, p = base ++ rest.
Proof.
  revert p. induction base as [|c base IH]; intros p.
  { split; [intros _; by exists p|by destruct p]. }
  destruct p as [|d p]; cbn [path_starts_with]; [naive_solver|].
  rewrite andb_true_iff, bool_decide_eq_true, IH. naive_solver.
Qed.

Lemma normalize_go_names stack names b :
  normalize_go b stack (Normal <$> names) = (b, reverse stack ++ names).
Proof.
  revert stack. induction names as [|n names IH]; intros stack; cbn; [by rewrite app_nil_r|].
  rewrite IH, reverse_cons, <- app_assoc. done.
Qed.

Lemma pushed_names names : Forall (λ n, n ≠ "..") names → pushed_component <$> names = Normal <$> names.
Proof.
  induction 1 as [|n names Hn _ IH]; [done|]. cbn. rewrite IH. unfold pushed_component.
  by rewrite bool_decide_false.
Qed.

Lemma normalize_clean p : clean p → normalize_path p = p.
Proof.
  intros (names & -> & Hn). unfold normalize_path. cbn [normalize_go].
  rewrite normalize_go_names. cbn. by rewrite pushed_names.
Qed.

(** Below a root the stack never holds [..]. *)
Lemma normalize_go_root p stack :
  Forall (λ n, n ≠ "..") stack → Forall (λ c, c ≠ Normal "..") p →
  ∃ names, normalize_go true stack p = (true, names) ∧ Forall (λ n, n ≠ "..") names.
Proof.
  revert stack. induction p as [|c p IH]; intros stack Hs Hp; cbn [normalize_go].
  { exists (reverse stack). split; [done|]. by apply Forall_reverse. }
  inversion_clear Hp as [|?? Hc Hp'].
  destruct c as [| | |part]; [by apply IH|by apply IH| |].
  - destruct stack as [|top stack]; [by apply IH|]. inversion_clear Hs.
    rewrite bool_decide_false by done. by apply IH.
  - apply IH; [|done]. constructor; [congruence|done].
Qed.

Lemma normalize_absolute p :
  head p = Some RootDir → Forall (λ c, c ≠ Normal "..") p → clean (normalize_path p).
Proof.
  destruct p as [|c p]; [done|]. intros [= ->] Hp. inversion_clear Hp.
  unfold normalize_path. cbn [normalize_go].
  destruct (normalize_go_root p []) as (names & -> & Hn); [constructor|done|].
  exists names. cbn. by rewrite pushed_names.
Qed.

(** Normalizing twice is normalizing once, and the normal form of an absolute path has no [.]
    and no [..] left. *)
Lemma normalize_idempotent p :
  absolute_path p → normalize_path (normalize_path p) = normalize_path p ∧ clean (normalize_path p).
Proof.
  intros (rest & -> & Hr). assert (Hc : clean (normalize_path (RootDir :: rest))).
  { apply normalize_absolute; [done|]. constructor; [done|]. eapply Forall_impl; [exact Hr|]. by intros c []. }
  split; [by apply normalize_clean|done].
Qed.

(** ** Path arguments *)

Lemma segment_components_inner b i seg : Forall inner_component (segment_components b i seg).
Proof.
  unfold segment_components. repeat case_match; try constructor; try constructor; try done.
  intros [= ->]. by rewrite bool_decide_true in * by done.
Qed.

Lemma components_shape raw :
  ∃ rest, components raw = (if path_is_absolute raw then [RootDir] else []) ++ rest
          ∧ Forall inner_component rest.
Proof.
  unfold components. eexists. split; [done|]. apply Forall_forall. intros c Hc.
  apply list_elem_of_join in Hc as (cs & Hc & Hcs). apply elem_of_lookup_imap in Hcs as (i & s & -> & _).
  by eapply Forall_forall in Hc; [|apply segment_components_inner].
Qed.

Lemma resolve_candidate_absolute c raw :
  absolute_path (workspace c) → absolute_path (resolve_candidate c raw).
Proof.
  intros (ws & Hws & Hin). unfold resolve_candidate. destruct (components_shape raw) as (rest & -> & Hr).
  destruct (path_is_absolute raw); [by exists rest|]. cbn [app]. unfold path_join.
  assert (Hna : is_absolute rest = false).
  { unfold is_absolute. apply bool_decide_eq_false. destruct rest as [|d rest]; [done|].
    inversion_clear Hr as [|?? [Hd _]]. cbn. congruence. }
  rewrite Hna, Hws. eexists. split; [done|]. apply Forall_app. split; [done|].
  apply Forall_forall. intros d [_ Hd]%list_elem_of_filter. by eapply Forall_forall in Hd.
Qed.

(** ** Resolution *)

Section facts.
Context (path_exists : PathBuf → bool).
Context (canonicalize : PathBuf → result string PathBuf).

(** What the operating system says: the root exists, an existing path can be made canonical, and a
    canonical path is absolute, without [.] and [..]. *)
Context (root_exists : path_exists [RootDir] = true).
Context (exists_canonical : ∀ p, path_exists p = true → ∃ q, canonicalize p = Ok q).
Context (canonical_clean : ∀ p q, canonicalize p = Ok q → clean q).

Notation ancestor_of := (existing_ancestor path_exists).
Notation resolve := (resolve_path path_exists canonicalize).
Notation resolve_nonexistent := (resolve_nonexistent_path path_exists canonicalize).

(** The loop of an absolute path ends on an existing ancestor, with names it has passed. *)
Lemma existing_ancestor_spec rest suffix :
  Forall inner_component rest → Forall (λ n, n ≠ "..") suffix →
  ∃ anc names, ancestor_of (rest ++ [RootDir]) suffix = (reverse anc, names)
    ∧ path_exists anc = true ∧ anc `prefix_of` (RootDir :: reverse rest)
    ∧ Forall (λ n, n ≠ "..") names.
Proof using root_exists.
  revert suffix. induction rest as [|c rest IH]; intros suffix Hr Hs; cbn [app existing_ancestor].
  { change (reverse [RootDir]) with [RootDir]. rewrite root_exists. exists [RootDir], suffix. done. }
  inversion_clear Hr as [|?? Hc Hr'].
  assert (Hrev : reverse (c :: rest ++ [RootDir]) = RootDir :: reverse rest ++ [c]).
  { rewrite reverse_cons, reverse_app. done. }
  rewrite Hrev, reverse_cons.
  destruct (path_exists (RootDir :: reverse rest ++ [c])) eqn:He.
  { exists (RootDir :: reverse rest ++ [c]), suffix. split_and!; try done. by rewrite <- Hrev, reverse_involutive. }
  assert (Hnext : ∀ suffix', Forall (λ n, n ≠ "..") suffix' →
    ∃ anc names, match rest ++ [RootDir] with [] => (c :: rest ++ [RootDir], suffix') | _ => ancestor_of (rest ++ [RootDir]) suffix' end
      = (reverse anc, names)
    ∧ path_exists anc = true ∧ anc `prefix_of` (RootDir :: reverse rest ++ [c])
    ∧ Forall (λ n, n ≠ "..") names).
  { intros suffix' Hs'. destruct (IH suffix' Hr' Hs') as (anc & names & Heq & Hex & Hpre & Hn).
    exists anc, names. split_and!; try done; [by destruct rest|].
    etrans; [exact Hpre|]. by exists [c]. }
  destruct c as [| | |name]; [by destruct Hc|by apply Hnext|by apply Hnext|].
  apply Hnext. apply Forall_app. split; [done|]. constructor; [|done]. destruct Hc. congruence.
Qed.

Lemma clean_names q names : clean q → Forall (λ n, n ≠ "..") names → clean (q ++ (Normal <$> names)).
Proof.
  intros (qn & -> & Hq) Hn. exists (qn ++ names). rewrite fmap_app. split; [done|]. by apply Forall_app.
Qed.

Lemma canonical_or_absolute alt p :
  absolute_path alt → absolute_path (canonical_or canonicalize alt p).
Proof using canonical_clean.
  intros Ha. unfold canonical_or. destruct (canonicalize p) as [q|] eqn:Hq; [|done].
  by apply clean_absolute, (canonical_clean p).
Qed.

(** A path that does not exist resolves to the canonical form of an existing ancestor and names. *)
Lemma resolve_nonexistent_spec c candidate ws p :
  absolute_path candidate → resolve_nonexistent c candidate ws = Ok p →
  ∃ anc q names, path_exists anc = true ∧ anc `prefix_of` candidate ∧ canonicalize anc = Ok q
    ∧ p = q ++ (Normal <$> names) ∧ clean p
    ∧ (follow_symlinks c = false → path_starts_with p ws = true ∨ path_starts_with p (normalize_path ws) = true).
Proof using root_exists exists_canonical canonical_clean.
  intros (rest & -> & Hr). unfold resolve_nonexistent_path.
  rewrite reverse_cons.
  destruct (existing_ancestor_spec (reverse rest) []) as (anc & names & Heq & Hex & Hpre & Hn);
    [by apply Forall_reverse|constructor|].
  rewrite Heq, reverse_involutive, Hex. rewrite reverse_involutive in Hpre.
  destruct (exists_canonical anc Hex) as (q & Hq). unfold canonical_or. rewrite Hq.
  assert (Hc : clean (q ++ (Normal <$> reverse names))).
  { apply clean_names; [by apply (canonical_clean anc)|]. by apply Forall_reverse. }
  rewrite (normalize_clean _ Hc). cbv zeta. intros Hres.
  assert (Hp : p = q ++ (Normal <$> reverse names)).
  { destruct (_ && _); [congruence|]. destruct (negb _ && negb _); congruence. }
  subst p. exists anc, q, (reverse names). split_and!; try done.
  intros Hf. rewrite Hf in Hres. cbn [andb] in Hres.
  destruct (path_starts_with _ ws); [by left|]. cbn [negb andb] in Hres.
  destruct (path_starts_with _ (normalize_path ws)); [by right|done].
Qed.


Lemma resolve_absolute c raw p :
  absolute_path (workspace c) → resolve c raw = Ok p → absolute_path p.
Proof using root_exists exists_canonical canonical_clean.
  intros Habs. pose proof (resolve_candidate_absolute c raw Habs) as Hcand.
  unfold resolve_path. destruct (allow_external_paths c).
  { intros [= <-]. by apply canonical_or_absolute. }
  destruct (_ && _).
  - destruct (path_exists (resolve_candidate c raw)); [intros [= <-]; by apply canonical_or_absolute|].
    intros (?&?&?&?&?&?&?&?&_)%resolve_nonexistent_spec; [by apply clean_absolute|done].
  - unfold resolve_confined. destruct (negb _ && negb _); [done|].
    destruct (path_exists (resolve_candidate c raw)).
    + destruct (canonicalize (resolve_candidate c raw)) as [q|] eqn:Hq; [|done].
      destruct (negb _); [done|]. intros [= <-]. by eapply clean_absolute, canonical_clean.
    + intros (?&?&?&?&?&?&?&?&_)%resolve_nonexistent_spec; [by apply clean_absolute|done].
Qed.

(** The write tools of an isolated writer reach only ordinary files of its worktree, even with
    external paths and symbolic links allowed: a path that resolves lies in the worktree, has no
    [.] or [..], and no component below it is [.git], [.dse] or [.deepseek]; and an argument that
    leaves the workspace is refused as a permission error, never as a path escape. *)
Theorem writer_writes_are_confined c raw worktree :
  absolute_path (workspace c) → write_path_guard c = GuardIsolatedWriter worktree →
  match resolve_write_path path_exists canonicalize c raw with
  | Ok p => clean p ∧ ∃ rest, p = worktree ++ rest
              ∧ ∀ name, Normal name ∈ rest → name ∉ [".git"; ".dse"; ".deepseek"]
  | Err (PathEscape _) => False
  | Err _ => True
  end.
Proof using root_exists exists_canonical canonical_clean.
  intros Habs Hg. unfold resolve_write_path. rewrite Hg.
  destruct (resolve c raw) as [p|e] eqn:Hr; cbn [mbind result_bind].
  2:{ destruct e; exact I. }
  destruct (normalize_idempotent p) as [_ Hc]; [by eapply resolve_absolute|].
  destruct (path_starts_with (normalize_path p) worktree) eqn:Hs; cbn [negb]; [|exact I].
  destruct (existsb protected_component _) eqn:He; [exact I|].
  split; [done|]. apply path_starts_with_spec in Hs as (rest & Heq). exists rest. split; [done|].
  intros name Hin Hbad. rewrite Heq, drop_app_length, existsb_false_elem_of in He.
  specialize (He _ Hin). cbn in He. by rewrite bool_decide_true in He.
Qed.

End facts.

(** ** Read before edit *)

Section freshness.
Context `{JsonLib}.
Context (fs_read : PathBuf → result string string).

(** The reads the tools noted, in order, and the content last read at a path. *)
Definition note_all (notes : list (PathBuf * string)) (c : ProductionToolContext) : ProductionToolContext :=
  foldl (λ c n, note_file_read_bytes n.1 n.2 c) c notes.
Definition last_read (p : PathBuf) (notes : list (PathBuf * string)) : option string :=
  snd <$> find_first (λ n, n.1 ==? p) (reverse notes).

Lemma assoc_lookup_filter p q (l : list (PathBuf * string)) :
  p ≠ q → assoc_lookup p (filter (λ r, r.1 ≠ q) l) = assoc_lookup p l.
Proof.
  intros Hpq. induction l as [|[r d] l IH]; [done|]. rewrite filter_cons. cbn [fst].
  destruct (decide (r = q)) as [->|Hr].
  - rewrite decide_False by tauto. cbn [assoc_lookup]. by rewrite IH, bool_decide_false.
  - rewrite decide_True by done. cbn [assoc_lookup]. by rewrite IH.
Qed.

Lemma assoc_lookup_note p q d c :
  assoc_lookup p (reads (note_file_read_digest q d c)) = if q ==? p then Some d else assoc_lookup p (reads c).
Proof.
  cbn [note_file_read_digest reads assoc_lookup]. destruct (q ==? p) eqn:Hqp; [done|].
  apply bool_decide_eq_false in Hqp. by apply assoc_lookup_filter.
Qed.

Lemma note_all_lookup p notes c :
  assoc_lookup p (reads (note_all notes c)) =
  match last_read p notes with Some content => Some (sha256_hex content) | None => assoc_lookup p (reads c) end.
Proof.
  induction notes as [|[q content] notes IH] using rev_ind; [done|].
  unfold note_all in *. rewrite foldl_app. cbn [foldl fst snd]. unfold note_file_read_bytes in *.
  rewrite assoc_lookup_note, IH. unfold last_read. rewrite reverse_app. cbn [app find_first reverse rev_append fst].
  by destruct (q ==? p).
Qed.

(** An edit works on exactly what the model saw: after any sequence of reads in a fresh
    context, the bytes handed to an edit of a path are the current bytes of the file, and they have
    the digest of the bytes last read there; without a read, or when the file cannot be read, the
    edit is refused for its precondition, and when the content has changed it is a stale read. *)
Theorem edit_sees_last_read ws notes p requested :
  match read_fresh_file_bytes fs_read (note_all notes (new_context ws)) p requested with
  | Ok current => fs_read p = Ok current
      ∧ ∃ seen, last_read p notes = Some seen ∧ sha256_hex current = sha256_hex seen
  | Err (WorkspacePrecondition _) => last_read p notes = None ∨ is_ok (fs_read p) = false
  | Err (StaleRead _) => ∃ seen current, last_read p notes = Some seen ∧ fs_read p = Ok current
      ∧ sha256_hex current ≠ sha256_hex seen
  | Err _ => False
  end.
Proof.
  unfold read_fresh_file_bytes. rewrite note_all_lookup.
  destruct (last_read p notes) as [seen|]; cbn [new_context reads assoc_lookup]; [|by left].
  destruct (fs_read p) as [current|e]; [|by right].
  destruct (sha256_hex current ==? sha256_hex seen) eqn:Hd; cbn [negb].
  - apply bool_decide_eq_true in Hd. eauto.
  - apply bool_decide_eq_false in Hd. eauto 10.
Qed.

End freshness.

(** A missing directory before [..] stays in the resolved path: [file_name] gives nothing for [..],
    so that [nope/../x] resolves to [nope/x], not to [x]. *)
Lemma missing_directory_keeps_its_name :
  let ws := [RootDir; Normal "ws"] in
  let path_exists p := bool_decide (p ∈ [[RootDir]; ws]) in
  let canonicalize p := if path_exists p then Ok p else Err "ENOENT" in
  resolve_path path_exists canonicalize (new_context ws) "nope/../x"
    = Ok [RootDir; Normal "ws"; Normal "nope"; Normal "x"]
  ∧ resolve_path path_exists canonicalize (new_context ws) "x" = Ok [RootDir; Normal "ws"; Normal "x"].
Proof. vm_compute. done. Qed.
