(* ===== verification/CommandSafety.v ===== *)
(** Command safety ([crates/tools/src/command_safety.rs]): the canonical prefix of a command, the
    classification of parallel read-only commands and the analysis the Host runs before a shell
    command, with the network test of [crates/tools/src/shell/exec_shell.rs].

    [shlex::split] is third-party code: the Section takes it as [shlex_split]. [str::to_lowercase]
    is taken as [to_lowercase], since its Unicode tables are not part of the source; no property
    depends on them. *)
From Stdlib Require Import Ascii String.
From S2P Require Import Prelude.
From S2P Require Import Text.
From S2P Require Import TextOps.

Open Scope string_scope.
Open Scope N_scope.

(** ** Operations of [str] *)

Definition ascii_lower (a : ascii) : ascii :=
  if is_ascii_uppercase a then ascii_of_N (byte_val a + 32) else a.
Definition to_ascii_lowercase (s : string) : string := of_bytes (ascii_lower <$> bytes s).
Definition eq_ignore_ascii_case (s t : string) : bool := to_ascii_lowercase s ==? to_ascii_lowercase t.

(** [trim_matches] *)
Definition is_quote_char (c : list ascii) : bool := char_in [34; 39] c.
Definition trim_quotes (s : string) : string :=
  of_chars (drop_while_end is_quote_char (drop_while is_quote_char (chars s))).

(** [str::replace] with a non-empty pattern: [skip] bytes of an occurrence are still to be passed. *)
Fixpoint replace_go (p r : list ascii) (skip : nat) (l : list ascii) : list ascii :=
  match l with
  | [] => []
  | a :: l' =>
    match skip with
    | S skip' => replace_go p r skip' l'
    | O => if is_prefix p l then (r ++ replace_go p r (length p - 1) l')%list
           else a :: replace_go p r 0 l'
    end
  end.
Definition str_replace (p r s : string) : string := of_bytes (replace_go (bytes p) (bytes r) 0 (bytes s)).

Definition is_byte (b : N) (a : ascii) : bool := byte_val a =? b.

(** The part before the first [b], when there is one. *)
Fixpoint split_once_go (b : N) (cur l : list ascii) : option (list ascii) :=
  match l with
  | [] => None
  | a :: l' => if is_byte b a then Some (reverse cur) else split_once_go b (a :: cur) l'
  end.

Fixpoint take_while {A} (p : A → bool) (l : list A) : list A :=
  match l with [] => [] | x :: l' => if p x then x :: take_while p l' else [] end.

Fixpoint windows2_any {A} (p : A → A → bool) (l : list A) : bool :=
  match l with
  | x :: ((y :: _) as l') => p x y || windows2_any p l'
  | _ => false
  end.

(** [rsplit.next()] *)
Definition last_path_segment (s : string) : string := default s (last (split_bytes is_slash_or_backslash s)).

(** ** The arity dictionary *)

Definition COMMAND_ARITY : list (string * nat) := [
    ("git add", 2); ("git am", 2); ("git apply", 2); ("git bisect", 2); ("git blame", 2);
    ("git branch", 2); ("git cat-file", 2); ("git checkout", 2); ("git cherry-pick", 2);
    ("git clean", 2); ("git clone", 2); ("git commit", 2); ("git config", 2);
    ("git describe", 2); ("git diff", 2); ("git fetch", 2); ("git format-patch", 2);
    ("git grep", 2); ("git init", 2); ("git log", 2); ("git ls-files", 2); ("git merge", 2);
    ("git mv", 2); ("git notes", 2); ("git pull", 2); ("git push", 2); ("git rebase", 2);
    ("git reflog", 2); ("git remote", 2); ("git reset", 2); ("git restore", 2);
    ("git revert", 2); ("git rm", 2); ("git show", 2); ("git stash", 2); ("git status", 2);
    ("git submodule", 2); ("git switch", 2); ("git tag", 2); ("git worktree", 2);
    ("npm audit", 2); ("npm build", 2); ("npm cache", 2); ("npm ci", 2); ("npm dedupe", 2);
    ("npm fund", 2); ("npm help", 2); ("npm info", 2); ("npm init", 2); ("npm install", 2);
    ("npm link", 2); ("npm list", 2); ("npm ls", 2); ("npm outdated", 2); ("npm pack", 2);
    ("npm prune", 2); ("npm publish", 2); ("npm rebuild", 2); ("npm run", 3); ("npm start", 2);
    ("npm stop", 2); ("npm test", 2); ("npm uninstall", 2); ("npm update", 2);
    ("npm version", 2); ("npm view", 2); ("yarn add", 2); ("yarn audit", 2); ("yarn build", 2);
    ("yarn install", 2); ("yarn run", 3); ("yarn start", 2); ("yarn test", 2);
    ("yarn upgrade", 2); ("yarn workspace", 3); ("pnpm add", 2); ("pnpm build", 2);
    ("pnpm install", 2); ("pnpm run", 3); ("pnpm start", 2); ("pnpm test", 2);
    ("pnpm update", 2); ("cargo add", 2); ("cargo bench", 2); ("cargo build", 2);
    ("cargo check", 2); ("cargo clean", 2); ("cargo clippy", 2); ("cargo doc", 2);
    ("cargo fix", 2); ("cargo fmt", 2); ("cargo generate", 2); ("cargo install", 2);
    ("cargo metadata", 2); ("cargo package", 2); ("cargo publish", 2); ("cargo remove", 2);
    ("cargo run", 2); ("cargo search", 2); ("cargo test", 2); ("cargo tree", 2);
    ("cargo uninstall", 2); ("cargo update", 2); ("cargo yank", 2); ("docker build", 2);
    ("docker compose", 3); ("docker container", 3); ("docker cp", 2); ("docker exec", 2);
    ("docker image", 3); ("docker images", 2); ("docker inspect", 2); ("docker kill", 2);
    ("docker logs", 2); ("docker network", 3); ("docker ps", 2); ("docker pull", 2);
    ("docker push", 2); ("docker rm", 2); ("docker rmi", 2); ("docker run", 2);
    ("docker start", 2); ("docker stop", 2); ("docker system", 3); ("docker tag", 2);
    ("docker volume", 3); ("kubectl apply", 2); ("kubectl create", 3); ("kubectl delete", 3);
    ("kubectl describe", 3); ("kubectl exec", 2); ("kubectl explain", 2); ("kubectl get", 3);
    ("kubectl label", 2); ("kubectl logs", 2); ("kubectl patch", 2);
    ("kubectl port-forward", 2); ("kubectl rollout", 3); ("kubectl scale", 2);
    ("kubectl set", 2); ("kubectl top", 3); ("go build", 2); ("go clean", 2); ("go env", 2);
    ("go fmt", 2); ("go generate", 2); ("go get", 2); ("go install", 2); ("go list", 2);
    ("go mod", 3); ("go run", 2); ("go test", 2); ("go vet", 2); ("go work", 3);
    ("pip install", 2); ("pip uninstall", 2); ("pip list", 2); ("pip show", 2);
    ("pip freeze", 2); ("pip3 install", 2); ("pip3 uninstall", 2); ("pip3 list", 2);
    ("pip3 show", 2); ("python", 2); ("python3", 2); ("make", 1); ("gh pr", 3); ("gh issue", 3);
    ("gh repo", 3); ("gh release", 3); ("gh workflow", 3); ("gh run", 3); ("gh secret", 3);
    ("rustup default", 2); ("rustup install", 2); ("rustup show", 2); ("rustup target", 3);
    ("rustup toolchain", 3); ("rustup update", 2); ("deno run", 2); ("deno test", 2);
    ("deno fmt", 2); ("deno lint", 2); ("bun add", 2); ("bun build", 2); ("bun install", 2);
    ("bun run", 3); ("bun test", 2); ("npx", 2)
]%nat.

Definition is_flag (t : string) : bool := starts_with "-" t.

(** The tokens that are not flags, in lower case. *)
Definition positional_tokens (tokens : list string) : list string :=
  to_ascii_lowercase <$> filter (λ t, negb (is_flag t)) tokens.

(** [for depth in (1..=max_depth).rev()] *)
Fixpoint classify_go (positional : list string) (depth : nat) : option string :=
  match depth with
  | O => None
  | S depth' =>
    let candidate := str_join " " (take depth positional) in
    match find_first (λ entry, entry.1 ==? candidate) COMMAND_ARITY with
    | Some (_, arity) => Some (str_join " " (take (Nat.min arity (length positional)) positional))
    | None => classify_go positional depth'
    end
  end.
Definition classify_command (tokens : list string) : string :=
  match tokens with
  | [] => ""
  | _ =>
    match positional_tokens tokens with
    | [] => ""
    | (base :: _) as positional => default base (classify_go positional (Nat.min (length positional) 3))
    end
  end.

Definition normalize_words (s : string) : string :=
  str_join " " (split_whitespace (to_ascii_lowercase (trim s))).

Definition prefix_allow_matches (pattern command : string) : bool :=
  let pattern_norm := normalize_words pattern in
  match split_whitespace command with
  | [] => is_empty_str pattern_norm
  | tokens =>
    if classify_command tokens ==? pattern_norm then true
    else
      let command_norm := normalize_words command in
      (command_norm ==? pattern_norm) || starts_with (pattern_norm ++ " ") command_norm
  end.

(** ** Tokens *)

Definition is_name_start (c : list ascii) : bool :=
  match c with [a] => is_byte 95 a || is_ascii_alphabetic a | _ => false end.
Definition is_name_char (c : list ascii) : bool :=
  match c with [a] => is_byte 95 a || is_ascii_alphanumeric a | _ => false end.
Definition is_env_assignment (token : string) : bool :=
  match split_once_go 61 [] (bytes token) with
  | None => false
  | Some name =>
    let name := of_bytes name in
    negb (is_empty_str name)
    && forallb is_name_char (chars name)
    && is_some_and (head (chars name)) is_name_start
  end.

(** [in_env]: the tokens follow the word [env], whose flags and assignments are passed over. *)
Fixpoint primary_token_go (idx : nat) (in_env : bool) (tokens : list string) : option nat :=
  match tokens with
  | [] => None
  | token :: rest =>
    if in_env && (is_flag token || is_env_assignment token) then primary_token_go (S idx) true rest
    else if token ==? "env" then primary_token_go (S idx) true rest
    else if is_env_assignment token then primary_token_go (S idx) false rest
    else Some idx
  end.
Definition primary_token_index (tokens : list string) : option nat := primary_token_go 0 false tokens.

Definition is_dse_readonly_invocation (tokens : list string) : bool :=
  match tokens with
  | [] => false
  | command :: args =>
    if negb (command ==? "dse") then false
    else bool_decide (args ∈ [["--version"]; ["-V"]; ["-v"]; ["--help"]; ["-h"]])
  end.

Definition readonly_shell_wrapper_inner_command (tokens : list string) : option string :=
  match tokens with
  | [] => None
  | shell :: _ =>
    if negb (bool_decide (shell ∈ ["bash"; "sh"; "zsh"])) then None
    else match tokens with
    | [_; flag; inner] => if bool_decide (flag ∈ ["-c"; "-lc"]) then Some inner else None
    | _ => None
    end
  end.

(** ** Segments *)

Definition split_command_segments (command : string) : list string :=
  let normalized := str_replace ";" newline (str_replace "||" newline (str_replace "&&" newline command)) in
  filter (λ segment, negb (is_empty_str segment)) (trim <$> split_bytes (is_byte 10) normalized).

(** ** Deletion targets *)

Definition normalize_target (target : string) : string := str_replace "\" "/" (trim_quotes target).

Definition is_root_delete_target (target : string) : bool :=
  let normalized := normalize_target target in
  (normalized ==? "/") || (normalized ==? "/*") || (normalized ==? "//")
  || starts_with "/*/" normalized || starts_with "/." normalized.

Definition is_home_delete_target (target : string) : bool :=
  let lower := to_ascii_lowercase (normalize_target target) in
  (lower ==? "~") || starts_with "~/" lower || (lower ==? "$home") || starts_with "$home/" lower
  || (lower ==? "${home}") || starts_with "${home}/" lower.

Definition target_contains_parent_escape (target : string) : bool :=
  existsb (λ component, component ==? "..") (split_bytes is_slash (str_replace "\" "/" target)).

(** The flags and targets of [rm]: whether a recursive flag and a force flag were passed, and the
    other arguments. *)
Record RmArgs := mkRmArgs { recursive : bool; force : bool; targets : list string }.

Definition rm_arg (st : RmArgs) (arg : string) : RmArgs :=
  if arg ==? "--" then st
  else if bool_decide (arg ∈ ["--recursive"; "--dir"]) then mkRmArgs true (force st) (targets st)
  else if arg ==? "--force" then mkRmArgs (recursive st) true (targets st)
  else if starts_with "-" arg && negb (starts_with "--" arg) then
    mkRmArgs (recursive st || existsb (char_in [114; 82]) (chars arg))
             (force st || existsb (is_char 102) (chars arg)) (targets st)
  else mkRmArgs (recursive st) (force st) (targets st ++ [arg])%list.

Definition target_reason (target : string) : option string :=
  if is_root_delete_target target
  then Some "Recursive or forced deletion targets the root filesystem"
  else if is_home_delete_target target
  then Some "Recursive or forced deletion targets the home directory"
  else if target_contains_parent_escape target
  then Some "Recursive or forced deletion may escape the workspace"
  else None.

Definition dangerous_rm_reason (args : list string) : option string :=
  let st := foldl rm_arg (mkRmArgs false false []) args in
  if negb (recursive st || force st) then None else find_map target_reason (targets st).

(** ** The analysis *)

Inductive SafetyLevel := Safe | WorkspaceSafe | RequiresApproval | Dangerous.
#[export] Instance SafetyLevel_eq_dec : EqDecision SafetyLevel.
Proof. solve_decision. Defined.

Record SafetyAnalysis := mkSafetyAnalysis {
  level : SafetyLevel;
  reasons : list string;
  suggestions : list string;
}.
Definition safe : SafetyAnalysis := mkSafetyAnalysis Safe ["Command is read-only"] [].
Definition workspace_safe (reason : string) : SafetyAnalysis := mkSafetyAnalysis WorkspaceSafe [reason] [].
Definition requires_approval (reasons : list string) : SafetyAnalysis :=
  mkSafetyAnalysis RequiresApproval reasons [].
Definition dangerous (reasons suggestions : list string) : SafetyAnalysis :=
  mkSafetyAnalysis Dangerous reasons suggestions.

Definition PARALLEL_READONLY_PREFIXES : list string := [
    "git status"; "git log"; "git diff"; "git show"; "git ls-files"; "git blame"; "git grep";
    "ls"; "pwd"; "cat"; "head"; "tail"; "wc"; "which"; "stat"; "file"; "du"; "df"; "grep"; "rg";
    "fd"
].

Definition SAFE_COMMANDS : list string := [
    "ls"; "dir"; "pwd"; "cd"; "cat"; "head"; "tail"; "less"; "more"; "grep"; "rg"; "ag"; "find";
    "fd"; "which"; "whereis"; "type"; "echo"; "printf"; "date"; "cal"; "uptime"; "whoami"; "id";
    "hostname"; "uname"; "env"; "printenv"; "set"; "ps"; "top"; "htop"; "df"; "du"; "free";
    "vmstat"; "wc"; "sort"; "uniq"; "cut"; "tr"; "awk"; "sed"; "diff"; "file"; "stat"; "md5";
    "sha1sum"; "sha256sum"; "git status"; "git log"; "git diff"; "git show"; "git branch";
    "git remote"; "git tag"; "git stash list"; "npm list"; "npm ls"; "npm outdated"; "npm view";
    "cargo check"; "cargo test"; "cargo build"; "cargo doc"; "python --version";
    "node --version"; "rustc --version"; "man"; "help"; "info"
].

Definition WORKSPACE_SAFE_COMMANDS : list string := [
    "mkdir"; "touch"; "cp"; "mv"; "git add"; "git commit"; "git checkout"; "git switch";
    "git restore"; "git merge"; "git rebase"; "git cherry-pick"; "git reset --soft";
    "npm install"; "npm ci"; "npm update"; "cargo build"; "cargo run"; "cargo test";
    "cargo fmt"; "pip install"; "pip uninstall"; "make"; "cmake"; "ninja"
].

Definition DANGEROUS_PATTERNS : list (string * string) := [
    ("rm -rf /", "Attempts to recursively delete root filesystem");
    ("rm -rf /*", "Attempts to recursively delete all root directories");
    ("rm -rf ~", "Attempts to recursively delete home directory");
    ("rm -rf $HOME", "Attempts to recursively delete home directory");
    (":(){ :|:& };:", "Fork bomb — will crash the system")
].

Definition PRIVILEGED_PATTERNS : list string := [
    "sudo"; "su "; "doas"; "pkexec"; "gksudo"; "kdesudo"
].

Definition NETWORK_COMMANDS : list string := [
    "curl"; "wget"; "fetch"; "nc"; "netcat"; "ncat"; "ssh"; "scp"; "sftp"; "rsync"; "ftp";
    "ping"; "traceroute"; "nslookup"; "dig"; "host"; "nmap"; "masscan"; "tcpdump"; "wireshark"
].

Definition KNOWN_SAFE_CHAIN_PREFIXES : list string := [
    "cargo"; "rustc"; "rustup"; "git"; "gh"; "hub"; "npm"; "yarn"; "pnpm"; "node"; "npx"; "zig";
    "go"; "deno"; "bun"; "make"; "cmake"; "ninja"; "meson"; "python"; "python3"; "pip"; "pip3";
    "uv"; "poetry"; "ls"; "pwd"; "cd"; "echo"; "cat"; "head"; "tail"; "grep"; "rg"; "find";
    "fd"; "wc"; "sort"; "uniq"; "which"; "env"; "true"; "false"
].

Definition analyze_find_mutation (args : list string) : option SafetyAnalysis :=
  let has_delete := existsb (λ arg, arg ==? "-delete") args in
  let execs_rm := windows2_any (λ x y, (x ==? "-exec") && (y ==? "rm")) args in
  if negb (has_delete || execs_rm) then None
  else
    let targets := take_while (λ arg, negb (is_flag arg)) args in
    if existsb (λ target, is_root_delete_target target || is_home_delete_target target
                          || target_contains_parent_escape target) targets
    then Some (dangerous ["find mutation targets a broad or external path"]
                         ["Restrict the find root to a workspace-relative path"])
    else Some (requires_approval ["find command may delete files"]).

Definition git_tag_is_mutation (tokens : list string) : bool :=
  let args := drop 2 tokens in
  if (length tokens <? 2)%nat || (args ==? []) then false
  else if existsb (λ arg, bool_decide (arg ∈ ["-d"; "--delete"; "-a"; "--annotate"; "-s"; "--sign";
                                              "-f"; "--force"])) args then true
  else if existsb (λ arg,
      bool_decide (arg ∈ ["-l"; "--list"; "-v"; "--verify"; "--contains"; "--points-at"; "--merged";
                          "--no-merged"; "--sort"; "--format"; "--column"])
      || existsb (λ p, starts_with p arg)
           ["--list="; "--contains="; "--points-at="; "--merged="; "--no-merged="; "--sort=";
            "--format="; "--column="]) args then false
  else existsb (λ arg, negb (is_flag arg)) args.

(** [split_whitespace().find(|tok| !tok.contains('=') && *tok != "env")] *)
Definition find_command_word (words : list string) : option string :=
  find_first (λ tok, negb (contains_byte 61 tok) && negb (tok ==? "env")) words.

Definition all_segments_known_safe (command : string) : bool :=
  match split_command_segments command with
  | [] => false
  | segments =>
    forallb (λ seg,
      let head := default "" (find_command_word (split_whitespace seg)) in
      existsb (eq_ignore_ascii_case head) KNOWN_SAFE_CHAIN_PREFIXES) segments
  end.

Definition extract_primary_command (command : string) : option string :=
  let trimmed := trim command in
  if starts_with "env " trimmed || starts_with "ENV=" trimmed
  then find_command_word (split_whitespace trimmed)
  else head (split_whitespace trimmed).

Definition contains_any (needles : list string) (s : string) : bool :=
  existsb (λ needle, contains_str needle s) needles.

Definition command_likely_needs_network (command : string) : bool :=
  let normalized := to_ascii_lowercase command in
  match extract_primary_command normalized with
  | None => false
  | Some primary =>
    let primary := last_path_segment primary in
    if bool_decide (primary ∈ ["curl"; "wget"; "fetch"; "nc"; "netcat"; "ncat"; "ssh"; "scp"; "sftp";
                               "rsync"; "ftp"; "ping"; "traceroute"; "nslookup"; "dig"; "host";
                               "nmap"; "gh"; "hub"]) then true
    else if primary ==? "git"
    then contains_any [" fetch"; " pull"; " clone"; " ls-remote"; " submodule"; " push"] normalized
    else if primary ==? "cargo"
    then contains_any [" install"; " fetch"; " update"; " publish"; " search"] normalized
    else if bool_decide (primary ∈ ["npm"; "pnpm"; "yarn"])
    then contains_any [" install"; " i"; " add"; " update"; " publish"] normalized
    else if bool_decide (primary ∈ ["pip"; "pip3"; "uv"; "poetry"])
    then contains_any [" install"; " add"; " sync"; " update"] normalized
    else if bool_decide (primary ∈ ["brew"; "apt"; "apt-get"; "yum"; "dnf"; "pacman"]) then true
    else if primary ==? "go" then contains_any [" get"; " install"; " mod download"] normalized
    else false
  end.

Section command_safety.
Context (shlex_split : string → option (list string)).
Context (to_lowercase : string → string).

Definition shell_words (segment : string) : list string :=
  default (trim_quotes <$> split_whitespace segment) (shlex_split segment).

(** The tokens from the primary one on. *)
Definition command_tokens (segment : string) : option (list string) :=
  let tokens := shell_words segment in
  start ← primary_token_index tokens; Some (drop start tokens).

(** *** Parallel read-only commands *)

Definition has_shell_operator (trimmed : string) : bool :=
  contains_str "$(" trimmed || existsb (char_in [10; 13; 59; 38; 124; 62; 60; 96]) (chars trimmed).

Definition follows_tail (canonical : string) (tokens : list string) : bool :=
  (canonical ==? "tail")
  && existsb (λ token, bool_decide (token ∈ ["-f"; "-F"; "--follow"]) || starts_with "--follow=" token)
             (drop 1 tokens).

(** [None]: the fuel is exhausted. *)
Fixpoint parallel_readonly_go (fuel : nat) (command : string) : option bool :=
  match fuel with
  | O => None
  | S fuel =>
    let trimmed := trim command in
    if is_empty_str trimmed then Some false
    else if has_shell_operator trimmed then Some false
    else match command_tokens trimmed with
    | None => Some false
    | Some command_tokens =>
      match readonly_shell_wrapper_inner_command command_tokens with
      | Some inner_command => parallel_readonly_go fuel inner_command
      | None =>
        if is_dse_readonly_invocation command_tokens then Some true
        else
          let canonical := classify_command command_tokens in
          if follows_tail canonical command_tokens then Some false
          else Some (existsb (λ prefix, prefix ==? canonical) PARALLEL_READONLY_PREFIXES)
      end
    end
  end.
Definition is_parallel_readonly_command (command : string) : bool :=
  default false (parallel_readonly_go (S (length (bytes command))) command).

(** *** Destructive patterns *)

Definition primary_token (segment : string) : option string :=
  let tokens := shell_words segment in
  idx ← primary_token_index tokens; tokens !! idx.

Definition primary_shell_command_is (command expected : string) : bool :=
  existsb (λ segment, is_some_and (primary_token segment) (λ token, token ==? expected))
          (split_command_segments command).

Definition pipes_remote_content_to_shell (command : string) : bool :=
  existsb (λ segment,
    let parts := split_bytes (is_byte 124) segment in
    if (length parts <? 2)%nat then false
    else windows2_any (λ left right,
      let left := to_ascii_lowercase left in
      if negb (contains_str "curl" left || contains_str "wget" left) then false
      else is_some_and (primary_token right) (λ token, bool_decide (token ∈ ["sh"; "bash"; "zsh"])))
      parts) (split_command_segments command).

(** One turn of the loop over the segments: the early return. *)
Definition analyze_segment (segment : string) : option SafetyAnalysis :=
  match command_tokens segment with
  | Some (primary :: args) =>
    if primary ==? "rm" then
      reason ← dangerous_rm_reason args;
      Some (dangerous [reason] ["Review the deletion target before retrying"])
    else if primary ==? "find" then analyze_find_mutation args
    else None
  | _ => None
  end.

Definition analyze_destructive_patterns (command : string) : option SafetyAnalysis :=
  if primary_shell_command_is command "eval" then
    Some (dangerous ["Command invokes shell eval"]
                    ["Avoid evaluating dynamically generated shell input"])
  else if pipes_remote_content_to_shell command then
    Some (dangerous ["Piping remote content directly to shell is dangerous"]
                    ["Download the script first and review it before execution"])
  else find_map analyze_segment (split_command_segments command).

Definition is_safe_command (command : string) : bool :=
  let command_lower := to_lowercase command in
  if is_some_and (command_tokens command) is_dse_readonly_invocation then true
  else existsb (λ safe_cmd, starts_with safe_cmd command_lower) SAFE_COMMANDS.

Definition is_workspace_safe_command (command : string) : bool :=
  let command_lower := to_lowercase command in
  existsb (λ ws_cmd, starts_with ws_cmd command_lower) WORKSPACE_SAFE_COMMANDS.

(** [analyze_command] from the legacy patterns on. *)
Definition analyze_simple_command (command : string) : SafetyAnalysis :=
  let command_lower := to_lowercase command in
  let command_trimmed := trim command in
  match find_first (λ '(pattern, _), contains_str (to_lowercase pattern) command_lower) DANGEROUS_PATTERNS with
  | Some (_, reason) => dangerous [reason] ["Review the command carefully before execution"]
  | None =>
  match find_first (λ pattern, starts_with pattern command_trimmed
                               || contains_str (" " ++ pattern ++ " ") command_lower)
                   PRIVILEGED_PATTERNS with
  | Some pattern => requires_approval ["Command uses privileged execution (" ++ trim pattern ++ ")"]
  | None =>
    if contains_any ["curl"; "wget"] command_lower && contains_any ["| sh"; "| bash"; "| zsh"] command_lower
    then dangerous ["Piping remote content directly to shell is dangerous"]
                   ["Download the script first and review it before execution"]
    else
      let first_word := default "" (head (split_whitespace command_trimmed)) in
      if is_safe_command command_trimmed then safe
      else if is_workspace_safe_command command_trimmed
      then workspace_safe "Command modifies files within workspace"
      else if bool_decide (first_word ∈ NETWORK_COMMANDS)
      then requires_approval ["Command may make network requests"]
      else if (first_word ==? "rm") && contains_any ["-r"; "-f"] command_lower then
        if contains_any [".."; "~/"; "$HOME"] command_lower
        then dangerous ["Recursive or forced deletion"; "May delete files outside workspace"]
                       ["Use relative paths within the workspace"]
        else requires_approval ["Recursive or forced deletion"]
      else if contains_str "git push" command_lower then
        if contains_any ["--force"; "-f"] command_lower
        then requires_approval ["Force push can overwrite remote history"]
        else requires_approval ["Push will modify remote repository"]
      else requires_approval ["Unknown command - review before execution"]
  end
  end.

Definition analyze_command (command : string) : SafetyAnalysis :=
  if contains_byte 10 command || contains_byte 13 command then
    dangerous ["Command contains multiple lines"]
              ["Run one command at a time";
               "Write multiline scripts to a file first, then execute the script"]
  else if contains_byte 0 command then
    dangerous ["Command contains a null byte"] ["Strip embedded null bytes before retrying"]
  else match analyze_destructive_patterns command with
  | Some analysis => analysis
  | None =>
    if contains_any ["&&"; "||"; ";"] command then
      if all_segments_known_safe command
      then requires_approval ["Command chains known-safe segments (cargo/git/etc.)"]
      else requires_approval ["Command chaining detected"]
    else if contains_any ["`"; "$("] command
    then requires_approval ["Command substitution detected"]
    else analyze_simple_command command
  end.

(** *** High impact *)

Definition segment_is_high_impact (segment : string) : bool :=
  match command_tokens segment with
  | None => false
  | Some command_tokens =>
    let canonical := classify_command command_tokens in
    if bool_decide (canonical ∈ ["git push"; "npm publish"; "cargo publish"]) then true
    else if canonical ==? "git tag" then git_tag_is_mutation command_tokens
    else match strip_prefix "gh release " canonical with
    | Some action => bool_decide (action ∈ ["create"; "delete"; "delete-asset"; "edit"; "upload"])
    | None => false
    end
  end.

Definition command_is_high_impact (command : string) : bool :=
  if level (analyze_command command) ==? Dangerous then true
  else existsb segment_is_high_impact (split_command_segments command).

End command_safety.
