(* ===== verification/CommandSafetyFacts.v ===== *)
(** What the command analysis guarantees: a destructive segment is found wherever it stands, a
    command that runs without approval has none of the refused shapes, the read-only classifier
    terminates and looks through shell wrappers, and a canonical prefix is the longest entry. *)
From Stdlib Require Import Ascii String.
From S2P Require Import Prelude.
From S2P Require Import Text.
From S2P Require Import TextOps.
From S2P Require Import CommandSafety.

Open Scope string_scope.
Open Scope list_scope.
Open Scope N_scope.

(** ** Arguments of [rm] *)

(** A flag of [rm] that makes a deletion recursive or forced. *)
Definition deleting_flag (arg : string) : bool :=
  bool_decide (arg ∈ ["--recursive"; "--dir"; "--force"])
  || (starts_with "-" arg && negb (starts_with "--" arg) && existsb (char_in [114; 82; 102]) (chars arg)).

(** An argument that is not a flag and names the root, the home or a parent directory. *)
Definition broad_target (arg : string) : bool :=
  negb (starts_with "-" arg)
  && (is_root_delete_target arg || is_home_delete_target arg || target_contains_parent_escape arg).

Lemma char_in_cons b bs c : char_in (b :: bs) c = is_char b c || char_in bs c.
Proof. done. Qed.

Lemma rm_arg_flags st arg :
  (recursive st || force st) || deleting_flag arg = true →
  recursive (rm_arg st arg) || force (rm_arg st arg) = true.
Proof.
  unfold rm_arg, deleting_flag. intros H.
  destruct (arg ==? "--") eqn:E0.
  { apply bool_decide_eq_true in E0 as ->. vm_compute (bool_decide _ || _) in H.
    by rewrite orb_false_r in H. }
  destruct (bool_decide (arg ∈ ["--recursive"; "--dir"])) eqn:E1; [done|].
  destruct (arg ==? "--force") eqn:E2; [apply orb_true_r|].
  assert (Hn : bool_decide (arg ∈ ["--recursive"; "--dir"; "--force"]) = false).
  { apply bool_decide_eq_false in E1, E2. apply bool_decide_eq_false. set_solver. }
  rewrite Hn in H. cbn [orb] in H.
  destruct (starts_with "-" arg && negb (starts_with "--" arg)) eqn:E3; cbn [recursive force andb] in *.
  - assert (Hx : existsb (char_in [114; 82; 102]) (chars arg)
                 = existsb (char_in [114; 82]) (chars arg) || existsb (is_char 102) (chars arg)).
    { clear. induction (chars arg) as [|c cs IH]; [done|]. cbn [existsb]. rewrite IH.
      rewrite !char_in_cons. change (char_in [] c) with false. rewrite !orb_false_r.
      destruct (is_char 114 c), (is_char 82 c), (is_char 102 c);
        rewrite ?orb_true_r; cbn; rewrite ?orb_true_r; done. }
    rewrite Hx in H. destruct (recursive st), (force st); rewrite ?orb_true_r; cbn in *; auto.
  - by rewrite orb_false_r in H.
Qed.

Lemma rm_flags_go args st :
  recursive st || force st = true ∨ existsb deleting_flag args = true →
  let st' := foldl rm_arg st args in recursive st' || force st' = true.
Proof.
  revert st. induction args as [|arg args IH]; intros st; cbn [foldl existsb].
  { by intros [?|?]. }
  intros H. apply IH. destruct H as [H|H].
  - left. apply rm_arg_flags. by rewrite H.
  - apply orb_true_iff in H as [H|H]; [|by right].
    left. apply rm_arg_flags. by rewrite H, orb_true_r.
Qed.

Lemma starts_with_spec p s : starts_with p s = true ↔ ∃ t, s = (p ++ t)%string.
Proof.
  unfold starts_with. split.
  - destruct (strip_prefix p s) as [t|] eqn:E; [|done]. intros _. exists t. by apply strip_prefix_Some.
  - intros [t ->]. by rewrite (proj2 (strip_prefix_Some p (p ++ t)%string t) eq_refl).
Qed.

Lemma rm_arg_targets st arg :
  targets (rm_arg st arg) = if starts_with "-" arg && negb (starts_with "--" arg)
                               || bool_decide (arg ∈ ["--"; "--recursive"; "--dir"; "--force"])
                            then targets st else targets st ++ [arg].
Proof.
  unfold rm_arg.
  destruct (arg ==? "--") eqn:E0; [apply bool_decide_eq_true in E0 as ->; done|].
  destruct (bool_decide (arg ∈ ["--recursive"; "--dir"])) eqn:E1.
  { apply bool_decide_eq_true in E1. rewrite bool_decide_true by set_solver. by rewrite orb_true_r. }
  destruct (arg ==? "--force") eqn:E2; [apply bool_decide_eq_true in E2 as ->; done|].
  rewrite (bool_decide_false (arg ∈ _)).
  2:{ apply bool_decide_eq_false in E0, E1, E2. set_solver. }
  rewrite orb_false_r. by destruct (_ && _).
Qed.

Lemma rm_targets_go args st t :
  (t ∈ targets st ∨ (t ∈ args ∧ starts_with "-" t = false)) → t ∈ targets (foldl rm_arg st args).
Proof.
  revert st. induction args as [|arg args IH]; intros st; cbn [foldl].
  { intros [?|[[]%elem_of_nil _]]; done. }
  intros H. apply IH. rewrite rm_arg_targets.
  destruct H as [H|[[->|H]%elem_of_cons Hf]]; [left; case_match; set_solver| |by right].
  left. rewrite Hf. cbn [andb orb].
  rewrite bool_decide_false; [set_solver|].
  intros Hin. repeat (apply elem_of_cons in Hin as [->|Hin]; [by vm_compute in Hf|]). by apply elem_of_nil in Hin.
Qed.

Lemma find_map_is_Some {A B} (f : A → option B) l x : x ∈ l → is_Some (f x) → is_Some (find_map f l).
Proof.
  intros Hx [b Hb]. destruct (find_map f l) eqn:E; [done|].
  by rewrite (find_map_None f l x E Hx) in Hb.
Qed.

(** A recursive or forced [rm] of a broad target is found whatever its other arguments are. *)
Lemma broad_rm_is_found args :
  existsb deleting_flag args = true → existsb broad_target args = true →
  is_Some (dangerous_rm_reason args).
Proof.
  intros Hf (t & Ht & Hb)%existsb_elem_of. unfold dangerous_rm_reason.
  pose proof (rm_flags_go args (mkRmArgs false false []) (or_intror Hf)) as Hflag. cbv zeta in Hflag.
  rewrite Hflag. cbn [negb].
  unfold broad_target in Hb. apply andb_true_iff in Hb as [Hn Hb]. apply negb_true_iff in Hn.
  apply (find_map_is_Some _ _ t); [apply rm_targets_go; by right|].
  unfold target_reason.
  destruct (is_root_delete_target t); [done|]. destruct (is_home_delete_target t); [done|].
  by destruct (target_contains_parent_escape t).
Qed.

(** ** Text without separators *)

Lemma replace_go_absent p r l : contains_bytes p l = false → replace_go p r 0 l = l.
Proof.
  induction l as [|a l IH]; [done|]. cbn [contains_bytes replace_go]. intros [Hp Hl]%orb_false_iff.
  by rewrite Hp, IH.
Qed.
Lemma str_replace_absent p r s : contains_str p s = false → str_replace p r s = s.
Proof. intros H. unfold str_replace. by rewrite replace_go_absent, of_bytes_bytes. Qed.

Lemma contains_any_false needles s n : contains_any needles s = false → n ∈ needles → contains_str n s = false.
Proof. intros H Hn. unfold contains_any in H. by rewrite existsb_false_elem_of in H; apply H. Qed.

Lemma split_bytes_absent b s : contains_byte b s = false → split_bytes (is_byte b) s = [s].
Proof.
  intros H. unfold split_bytes. rewrite split_go_none.
  { cbn. by rewrite of_bytes_bytes. }
  apply Forall_forall. intros a Ha. unfold contains_byte in H.
  rewrite existsb_false_elem_of in H. by apply H.
Qed.

Lemma single_segment command seg :
  contains_byte 10 command = false → contains_any ["&&"; "||"; ";"] command = false →
  seg ∈ split_command_segments command → seg = trim command.
Proof.
  intros Hn Ho. unfold split_command_segments.
  rewrite !(str_replace_absent _ _ command) by (eapply contains_any_false; [exact Ho|set_solver]).
  rewrite split_bytes_absent by done. cbn. case_decide; set_solver.
Qed.

(** ** The analysis *)

Section analysis.
Context (shlex_split : string → option (list string)) (to_lowercase : string → string).
Notation analyze := (analyze_command shlex_split to_lowercase).
Notation tokens_of := (command_tokens shlex_split).

(** The segment deletes a broad target recursively or by force. *)
Definition destructive_segment (seg : string) : Prop :=
  ∃ args, tokens_of seg = Some ("rm" :: args)
          ∧ existsb deleting_flag args = true ∧ existsb broad_target args = true.

Lemma analyze_segment_destructive seg :
  destructive_segment seg → ∃ a, analyze_segment shlex_split seg = Some a ∧ level a = Dangerous.
Proof.
  intros (args & Ht & Hf & Hb). unfold analyze_segment. rewrite Ht.
  rewrite bool_decide_true by done.
  destruct (broad_rm_is_found args Hf Hb) as [r ->]. by eexists.
Qed.

Lemma analyze_segment_not_find seg a :
  (∀ args, tokens_of seg ≠ Some ("find" :: args)) →
  analyze_segment shlex_split seg = Some a → level a = Dangerous.
Proof.
  unfold analyze_segment. intros Hnf. destruct (tokens_of seg) as [[|primary args]|]; [done| |done].
  destruct (primary ==? "rm").
  { intros (r & _ & [= <-])%bind_Some. done. }
  destruct (primary ==? "find") eqn:Hf; [|done].
  apply bool_decide_eq_true in Hf as ->. by destruct (Hnf args).
Qed.

Lemma find_map_app {A B} (f : A → option B) l k :
  find_map f (l ++ k) = match find_map f l with Some b => Some b | None => find_map f k end.
Proof. induction l as [|x l IH]; cbn; [done|]. by destruct (f x). Qed.

Lemma analyze_destructive_some command a :
  analyze_destructive_patterns shlex_split command = Some a → level a = Dangerous →
  level (analyze command) = Dangerous.
Proof. intros H Ha. unfold analyze_command. rewrite H. by repeat case_match. Qed.

(** A command with a segment that deletes, recursively or by force, the root, the home or a
    parent directory is Dangerous, wherever the segment stands in the chain, whatever flags,
    quotes, environment assignments or further targets it has and whatever else the command
    holds, provided no earlier segment is a [find]. *)
Theorem destructive_segment_is_dangerous command before seg after :
  split_command_segments command = before ++ seg :: after →
  destructive_segment seg →
  (∀ s args, s ∈ before → tokens_of s ≠ Some ("find" :: args)) →
  level (analyze command) = Dangerous.
Proof.
  intros Hs Hd Hb. destruct (analyze_destructive_patterns shlex_split command) as [a|] eqn:Ha.
  - apply (analyze_destructive_some command a Ha). revert Ha. unfold analyze_destructive_patterns.
    destruct (primary_shell_command_is _ _ _); [by intros [= <-]|].
    destruct (pipes_remote_content_to_shell _ _); [by intros [= <-]|].
    rewrite Hs, find_map_app. destruct (find_map (analyze_segment _) before) as [b|] eqn:Hf.
    + intros [= <-]. apply find_map_Some in Hf as (s & Hin & Hs').
      apply (analyze_segment_not_find s); [|done]. intros args. by apply Hb.
    + cbn [find_map]. destruct (analyze_segment_destructive seg Hd) as (b & -> & Hl). by intros [= <-].
  - exfalso. revert Ha. unfold analyze_destructive_patterns. repeat case_match; try done.
    destruct (analyze_segment_destructive seg Hd) as (b & Hb' & _). intros Ha.
    apply (find_map_None _ _ seg) in Ha; [by rewrite Ha in Hb'|]. rewrite Hs. set_solver.
Qed.

(** The segment lets [find] delete what it finds. *)
Definition find_deletes (seg : string) : Prop :=
  ∃ args, tokens_of seg = Some ("find" :: args)
          ∧ (existsb (λ arg, arg ==? "-delete") args = true
             ∨ windows2_any (λ x y, (x ==? "-exec") && (y ==? "rm")) args = true).

Lemma analyze_segment_None seg :
  analyze_segment shlex_split seg = None → ¬ destructive_segment seg ∧ ¬ find_deletes seg.
Proof.
  intros H. split.
  - intros Hd. destruct (analyze_segment_destructive seg Hd) as (b & Hb & _). congruence.
  - intros (args & Ht & Hd). revert H. unfold analyze_segment. rewrite Ht.
    rewrite bool_decide_false, bool_decide_true by done. unfold analyze_find_mutation.
    destruct Hd as [->| ->]; rewrite ?orb_true_r; cbn [orb negb]; by case_match.
Qed.

Lemma analyze_unprompted command :
  level (analyze command) = Safe ∨ level (analyze command) = WorkspaceSafe →
  (contains_byte 10 command = false ∧ contains_byte 13 command = false ∧ contains_byte 0 command = false)
  ∧ analyze_destructive_patterns shlex_split command = None
  ∧ contains_any ["&&"; "||"; ";"] command = false ∧ contains_any ["`"; "$("] command = false
  ∧ analyze command = analyze_simple_command shlex_split to_lowercase command.
Proof.
  unfold analyze_command.
  destruct (contains_byte 10 command), (contains_byte 13 command); cbn [orb]; try (by intros [?|?]).
  destruct (contains_byte 0 command); [by intros [?|?]|].
  destruct (analyze_destructive_patterns shlex_split command) as [a|] eqn:Ha.
  - intros H. exfalso. revert Ha. unfold analyze_destructive_patterns.
    case_match; [intros [= <-]; by destruct H|]. case_match; [intros [= <-]; by destruct H|].
    intros (s & _ & Hs)%find_map_Some. revert Hs. unfold analyze_segment, analyze_find_mutation.
    repeat case_match; try done; [intros (r & _ & [= <-])%bind_Some| intros [= <-]..]; by destruct H.
  - destruct (contains_any ["&&"; "||"; ";"] command); [intros H; case_match; by destruct H|].
    destruct (contains_any ["`"; "$("] command); [intros H; by destruct H|]. done.
Qed.

(** A command the analysis lets run without approval (Safe or WorkspaceSafe) is one line
    without NUL, chaining or substitution; it does not run [eval], does not pipe a download to a
    shell, is not a broad recursive deletion nor a deleting [find], and holds none of the
    dangerous literals nor a leading privileged command. *)
Theorem unprompted_command_is_plain command :
  level (analyze command) = Safe ∨ level (analyze command) = WorkspaceSafe →
  (∀ b, b ∈ [10; 13; 0] → contains_byte b command = false)
  ∧ (∀ op, op ∈ ["&&"; "||"; ";"; "`"; "$("]%string → contains_str op command = false)
  ∧ pipes_remote_content_to_shell shlex_split command = false
  ∧ (∀ seg, seg ∈ split_command_segments command →
       seg = trim command
       ∧ primary_token shlex_split seg ≠ Some "eval"%string
       ∧ ¬ destructive_segment seg ∧ ¬ find_deletes seg)
  ∧ (∀ p r, (p, r) ∈ DANGEROUS_PATTERNS → contains_str (to_lowercase p) (to_lowercase command) = false)
  ∧ (∀ p, p ∈ PRIVILEGED_PATTERNS → starts_with p (trim command) = false).
Proof.
  intros H. destruct (analyze_unprompted command H) as ((H10 & H13 & H0) & Hd & Hc & Hs & Heq).
  revert Hd. unfold analyze_destructive_patterns.
  destruct (primary_shell_command_is _ _ _) eqn:He; [done|].
  destruct (pipes_remote_content_to_shell _ _) eqn:Hp; [done|]. intros Hseg.
  rewrite Heq in H. unfold analyze_simple_command in H.
  destruct (find_first _ DANGEROUS_PATTERNS) as [[]|] eqn:Hdp; [by destruct H|].
  destruct (find_first _ PRIVILEGED_PATTERNS) eqn:Hpp; [by destruct H|]. clear H.
  split_and!.
  - intros b Hb. repeat (apply elem_of_cons in Hb as [->|Hb]; [done|]). by apply elem_of_nil in Hb.
  - intros op Hop. destruct (decide (op ∈ ["&&"; "||"; ";"]%string)) as [Hin|Hin].
    + by apply (contains_any_false ["&&"; "||"; ";"]).
    + apply (contains_any_false ["`"; "$("]%string); [done|]. set_solver.
  - done.
  - intros seg Hin. split; [by apply single_segment|]. split.
    + unfold primary_shell_command_is in He. rewrite existsb_false_elem_of in He.
      specialize (He seg Hin). intros Hev. by rewrite Hev in He.
    + by apply analyze_segment_None, (find_map_None _ _ seg Hseg).
  - intros p r Hin. by apply (find_first_None _ _ (p, r) Hdp) in Hin.
  - intros p Hin. apply (find_first_None _ _ p Hpp) in Hin. by apply orb_false_iff in Hin as [? _].
Qed.

End analysis.

(** A workspace [find] earlier in the chain hides a later deletion of the home directory: the loop
    over the segments returns the verdict of the [find]. *)
Lemma find_segment_masks_deletion :
  level (analyze_command (λ s, Some (split_whitespace s)) to_ascii_lowercase
           "find . -delete; rm -rf ~") = RequiresApproval.
Proof. vm_compute. reflexivity. Qed.

(** The list of read-only commands is matched by prefix, so that other programs pass as read-only. *)
Lemma prefix_match_passes_writers :
  Forall (λ c, level (analyze_command (λ s, Some (split_whitespace s)) to_ascii_lowercase c) = Safe)
    ["truncate -s 0 notes.txt"; "env rm -rf src"; "setfacl -b f"; "psql -c drop"; "echo x > f"].
Proof. repeat constructor; vm_compute; reflexivity. Qed.

(** Two spaces defeat the literal pattern, and the token pass does not cover a path below the root. *)
Lemma spacing_defeats_root_pattern :
  level (analyze_command (λ s, Some (split_whitespace s)) to_ascii_lowercase "rm -rf /etc") = Dangerous
  ∧ level (analyze_command (λ s, Some (split_whitespace s)) to_ascii_lowercase "rm  -rf /etc")
    = RequiresApproval.
Proof. split; vm_compute; reflexivity. Qed.

(** ** The canonical prefix *)

Definition arity_of (prefix : string) : option nat :=
  snd <$> find_first (λ entry, entry.1 ==? prefix) COMMAND_ARITY.

Lemma arity_positive prefix n : arity_of prefix = Some n → (1 ≤ n ≤ 3)%nat.
Proof.
  unfold arity_of. intros ([p m] & Hf & [= <-])%fmap_Some. apply find_first_Some in Hf as [Hin _].
  assert (Hall : forallb (λ e, (1 <=? snd e)%nat && (snd e <=? 3)%nat) COMMAND_ARITY = true)
    by (vm_compute; reflexivity).
  rewrite forallb_elem_of in Hall. apply Hall in Hin. cbn [snd] in Hin |- *.
  apply andb_true_iff in Hin as [H1%Nat.leb_le H2%Nat.leb_le]. lia.
Qed.

Lemma classify_go_spec positional depth :
  match classify_go positional depth with
  | Some r => ∃ d n, (1 ≤ d ≤ depth)%nat ∧ arity_of (str_join " " (take d positional)) = Some n
      ∧ (∀ e, (d < e ≤ depth)%nat → arity_of (str_join " " (take e positional)) = None)
      ∧ r = str_join " " (take (Nat.min n (length positional)) positional)
  | None => ∀ e, (1 ≤ e ≤ depth)%nat → arity_of (str_join " " (take e positional)) = None
  end.
Proof.
  induction depth as [|depth IH]; [cbn; lia|]. cbn -[take COMMAND_ARITY].
  destruct (find_first _ COMMAND_ARITY) as [[k n]|] eqn:Hf.
  - exists (S depth), n. split; [lia|]. split; [|split; [lia|done]].
    unfold arity_of. by rewrite Hf.
  - assert (Hs : arity_of (str_join " " (take (S depth) positional)) = None).
    { unfold arity_of. by rewrite Hf. }
    destruct (classify_go positional depth) as [r|].
    + destruct IH as (d & n & Hd & Hn & Hmax & ->). exists d, n. split; [lia|]. split; [done|].
      split; [|done]. intros e He. destruct (decide (e = S depth)) as [->|]; [done|]. apply Hmax. lia.
    + intros e He. destruct (decide (e = S depth)) as [->|]; [done|]. apply IH. lia.
Qed.

(** The canonical prefix of a command is the join of its first [n] words that are not flags, in
    lower case: [n] is the arity of the longest entry of the dictionary (of at most three words)
    that the words start with, or one when there is none; flags never count, and two commands with
    the same words have the same prefix. *)
Theorem classify_is_longest_entry tokens base rest :
  positional_tokens tokens = base :: rest →
  ∃ n, (1 ≤ n ≤ 3)%nat ∧ classify_command tokens = str_join " " (take n (base :: rest))
     ∧ ((∃ d, (1 ≤ d ≤ Nat.min (S (length rest)) 3)%nat
              ∧ arity_of (str_join " " (take d (base :: rest))) = Some n
              ∧ ∀ e, (d < e ≤ Nat.min (S (length rest)) 3)%nat →
                     arity_of (str_join " " (take e (base :: rest))) = None)
        ∨ (n = 1%nat ∧ ∀ e, (1 ≤ e ≤ Nat.min (S (length rest)) 3)%nat →
                            arity_of (str_join " " (take e (base :: rest))) = None)).
Proof.
  intros Hp. unfold classify_command.
  destruct tokens as [|t ts]; [done|]. rewrite Hp.
  pose proof (classify_go_spec (base :: rest) (Nat.min (length (base :: rest)) 3)) as Hs.
  destruct (classify_go _ _) as [r|]; cbn [default].
  - destruct Hs as (d & n & Hd & Hn & Hmax & ->). exists n. pose proof (arity_positive _ _ Hn).
    cbn [length] in Hd, Hmax.
    split; [lia|]. split; [|left; exists d; split; [lia|]; by split].
    f_equal. destruct (decide (n ≤ length (base :: rest))%nat); [by rewrite Nat.min_l|].
    rewrite Nat.min_r by lia. by rewrite !take_ge by lia.
  - exists 1%nat. split; [lia|]. split; [done|]. by right.
Qed.

(** ** Parallel read-only commands *)

Definition len (s : string) : nat := length (bytes s).
Definition total_len (l : list string) : nat := sum_list_with len l.

Lemma len_concat s t : len (s ++ t)%string = (len s + len t)%nat.
Proof. unfold len. by rewrite bytes_app, length_app. Qed.
Lemma len_of_bytes l : len (of_bytes l) = length l.
Proof. unfold len. by rewrite bytes_of_bytes. Qed.

Lemma length_mjoin_suffix {A} (k l : list (list A)) : (length (mjoin l) ≤ length (mjoin (k ++ l)))%nat.
Proof. rewrite join_app, length_app. lia. Qed.

Lemma length_mjoin_reverse {A} (l : list (list A)) : length (mjoin (reverse l)) = length (mjoin l).
Proof.
  induction l as [|x l IH]; [done|]. rewrite reverse_cons, join_app, length_app, IH. cbn.
  by rewrite !length_app, Nat.add_0_r, Nat.add_comm.
Qed.

Lemma length_mjoin_cons {A} (x : list A) l : length (mjoin (x :: l)) = (length x + length (mjoin l))%nat.
Proof. exact (length_app x (mjoin l)). Qed.

Lemma mjoin_drop_while_le {A} (p : list A → bool) l : (length (mjoin (drop_while p l)) ≤ length (mjoin l))%nat.
Proof. destruct (drop_while_suffix p l) as (k & Hl & _). rewrite Hl at 2. apply length_mjoin_suffix. Qed.
Lemma mjoin_drop_while_end_le {A} (p : list A → bool) l :
  (length (mjoin (drop_while_end p l)) ≤ length (mjoin l))%nat.
Proof.
  unfold drop_while_end. rewrite length_mjoin_reverse. etrans; [apply mjoin_drop_while_le|].
  by rewrite length_mjoin_reverse.
Qed.

Lemma trim_both_le p q s : (len (of_chars (drop_while_end p (drop_while q (chars s)))) ≤ len s)%nat.
Proof.
  unfold of_chars. rewrite len_of_bytes. etrans; [apply mjoin_drop_while_end_le|].
  etrans; [apply mjoin_drop_while_le|]. unfold len.
  rewrite <- (of_chars_chars s) at 2. unfold of_chars. by rewrite bytes_of_bytes.
Qed.
Lemma trim_le s : (len (trim s) ≤ len s)%nat.
Proof. apply trim_both_le. Qed.
Lemma trim_quotes_le s : (len (trim_quotes s) ≤ len s)%nat.
Proof. apply trim_both_le. Qed.

Lemma words_go_le cur cs :
  (total_len (words_go cur cs) ≤ length (mjoin cur) + length (mjoin cs))%nat.
Proof.
  revert cur. induction cs as [|c cs IH]; intros cur; cbn [words_go].
  - destruct cur as [|c cur]; [cbn; lia|]. unfold total_len. cbn [sum_list_with].
    unfold of_chars. rewrite len_of_bytes, length_mjoin_reverse. lia.
  - destruct (white_space_char c).
    + unfold total_len. rewrite sum_list_with_app. specialize (IH []). unfold total_len in IH.
      rewrite length_mjoin_cons. change (length (mjoin [])) with 0%nat in IH.
      destruct cur as [|c' cur]; cbn [sum_list_with]; [lia|].
      unfold of_chars. rewrite len_of_bytes, length_mjoin_reverse. lia.
    + etrans; [apply IH|]. rewrite !length_mjoin_cons. lia.
Qed.
Lemma split_whitespace_le s : (total_len (split_whitespace s) ≤ len s)%nat.
Proof.
  etrans; [apply words_go_le|]. cbn. unfold len.
  rewrite <- (of_chars_chars s) at 2. unfold of_chars. by rewrite bytes_of_bytes.
Qed.

Section readonly.
Context (shlex_split : string → option (list string)).

(** [shlex::split] takes the quoting out of the words of its input: together they are no longer
    than it. *)
Context (shlex_shrinks : ∀ s ts, shlex_split s = Some ts → (total_len ts ≤ len s)%nat).

Lemma shell_words_le s : (total_len (shell_words shlex_split s) ≤ len s)%nat.
Proof using shlex_shrinks.
  unfold shell_words. destruct (shlex_split s) as [ts|] eqn:E; cbn [default]; [by apply shlex_shrinks|].
  etrans; [|apply split_whitespace_le]. generalize (split_whitespace s) as l. intros l.
  unfold total_len. induction l as [|w l IH]; cbn; [lia|]. pose proof (trim_quotes_le w). lia.
Qed.

Lemma command_tokens_le s ts : command_tokens shlex_split s = Some ts → (total_len ts ≤ len s)%nat.
Proof using shlex_shrinks.
  intros (start & _ & [= <-])%bind_Some. etrans; [|apply shell_words_le].
  unfold total_len. rewrite <- (take_drop start (shell_words shlex_split s)) at 2.
  rewrite sum_list_with_app. lia.
Qed.

Lemma inner_command_spec ts inner :
  readonly_shell_wrapper_inner_command ts = Some inner ↔
  ∃ shell flag, ts = [shell; flag; inner] ∧ shell ∈ ["bash"; "sh"; "zsh"]%string ∧ flag ∈ ["-c"; "-lc"]%string.
Proof.
  unfold readonly_shell_wrapper_inner_command. split.
  - destruct ts as [|sh ts]; [done|]. case_bool_decide as Hsh; cbn [negb]; [|done].
    destruct ts as [|fl [|i []]]; try done. case_bool_decide as Hfl; [|done]. intros [= ->]. eauto 10.
  - intros (sh & fl & -> & Hsh & Hfl). by rewrite (bool_decide_true (sh ∈ _)), (bool_decide_true (fl ∈ _)).
Qed.

Lemma inner_command_shorter s ts inner :
  command_tokens shlex_split s = Some ts → readonly_shell_wrapper_inner_command ts = Some inner →
  (len inner < len s)%nat.
Proof using shlex_shrinks.
  intros Ht Hi. apply command_tokens_le in Ht.
  apply inner_command_spec in Hi as (sh & fl & -> & Hsh & _). unfold total_len in Ht. cbn in Ht.
  assert (1 ≤ len sh)%nat; [|lia].
  repeat (apply elem_of_cons in Hsh as [->|Hsh]; [cbn; lia|]). by apply elem_of_nil in Hsh.
Qed.

(** No chaining, redirection, substitution or line break. *)
Definition no_operator (s : string) : Prop :=
  contains_str "$(" s = false
  ∧ ∀ c, c ∈ chars s → char_in [10; 13; 59; 38; 124; 62; 60; 96] c = false.
(** The command is no [tail] that follows its file. *)
Definition ends (ts : list string) : Prop :=
  classify_command ts = "tail" →
  ∀ token, token ∈ drop 1 ts → token ∉ ["-f"; "-F"; "--follow"] ∧ starts_with "--follow=" token = false.

Lemma has_shell_operator_false s : has_shell_operator s = false ↔ no_operator s.
Proof. unfold has_shell_operator, no_operator. by rewrite orb_false_iff, existsb_false_elem_of. Qed.
Lemma follows_tail_false ts : follows_tail (classify_command ts) ts = false ↔ ends ts.
Proof.
  unfold follows_tail, ends. rewrite andb_false_iff, existsb_false_elem_of. split.
  - intros [Hne|Hall] Heq token Hin; [by rewrite Heq in Hne|].
    apply Hall, orb_false_iff in Hin as [Hin%bool_decide_eq_false Hs]. done.
  - intros Hends. destruct (decide (classify_command ts = "tail")) as [Heq|Hne];
      [right|left; by apply bool_decide_eq_false].
    intros token Hin. destruct (Hends Heq token Hin) as [Hn ->]. by rewrite bool_decide_false.
Qed.

(** The commands the Host may run in a parallel read-only chunk: no operator, and either the word
    [dse] asked for its version or its help, or a listed prefix (that does not follow a file), or
    a shell asked to run such a command. *)
Inductive readonly : string → Prop :=
| readonly_direct command ts :
    trim command ≠ "" → no_operator (trim command) →
    command_tokens shlex_split (trim command) = Some ts →
    readonly_shell_wrapper_inner_command ts = None →
    is_dse_readonly_invocation ts = true
    ∨ ends ts ∧ classify_command ts ∈ PARALLEL_READONLY_PREFIXES →
    readonly command
| readonly_wrapped command shell flag inner :
    trim command ≠ "" → no_operator (trim command) →
    command_tokens shlex_split (trim command) = Some [shell; flag; inner] →
    shell ∈ ["bash"; "sh"; "zsh"]%string → flag ∈ ["-c"; "-lc"]%string →
    readonly inner →
    readonly command.

Lemma readonly_inv command :
  readonly command →
  trim command ≠ "" ∧ no_operator (trim command)
  ∧ ∃ ts, command_tokens shlex_split (trim command) = Some ts
  ∧ match readonly_shell_wrapper_inner_command ts with
    | Some inner => readonly inner
    | None => is_dse_readonly_invocation ts = true
              ∨ ends ts ∧ classify_command ts ∈ PARALLEL_READONLY_PREFIXES
    end.
Proof.
  destruct 1 as [command ts Hne Hop Ht Hi Hd|command sh fl inner Hne Hop Ht Hsh Hfl Hr].
  - split; [done|]. split; [done|]. exists ts. by rewrite Hi.
  - split; [done|]. split; [done|]. eexists. split; [done|].
    by rewrite (proj2 (inner_command_spec [sh; fl; inner] inner)) by eauto 10.
Qed.

(** With fuel above the length of the command the classifier answers, and says yes exactly on the
    read-only commands. *)
Lemma parallel_readonly_go_decides fuel command :
  (len command < fuel)%nat →
  ∃ b, parallel_readonly_go shlex_split fuel command = Some b ∧ (b = true ↔ readonly command).
Proof using shlex_shrinks.
  revert command. induction fuel as [|fuel IH]; intros command Hlen; [lia|]. cbn [parallel_readonly_go].
  destruct (is_empty_str (trim command)) eqn:He.
  { exists false. split; [done|]. split; [done|]. intros [Hne _]%readonly_inv.
    apply bool_decide_eq_true in He. done. }
  apply bool_decide_eq_false in He.
  destruct (has_shell_operator (trim command)) eqn:Hop.
  { exists false. split; [done|]. split; [done|]. intros (_ & Hf%has_shell_operator_false & _)%readonly_inv. congruence. }
  apply has_shell_operator_false in Hop.
  destruct (command_tokens shlex_split (trim command)) as [ts|] eqn:Ht.
  2:{ exists false. split; [done|]. split; [done|]. intros (_ & _ & ts & Hf & _)%readonly_inv. congruence. }
  destruct (readonly_shell_wrapper_inner_command ts) as [inner|] eqn:Hi.
  { pose proof (inner_command_shorter _ _ _ Ht Hi) as Hlt. pose proof (trim_le command) as Hle.
    destruct (IH inner ltac:(lia)) as (b & -> & Hb). exists b. split; [done|]. rewrite Hb. split.
    - intros Hr. apply inner_command_spec in Hi as (sh & fl & -> & Hsh & Hfl). by econstructor.
    - intros (_ & _ & ts' & Ht' & Hm)%readonly_inv. simplify_eq. by rewrite Hi in Hm. }
  assert (Hiff : readonly command ↔
    is_dse_readonly_invocation ts = true
    ∨ ends ts ∧ classify_command ts ∈ PARALLEL_READONLY_PREFIXES).
  { split; [|by intros; eapply readonly_direct].
    intros (_ & _ & ts' & Ht' & Hm)%readonly_inv. simplify_eq. by rewrite Hi in Hm. }
  destruct (is_dse_readonly_invocation ts); [exists true; rewrite Hiff; tauto|].
  cbv zeta. destruct (follows_tail _ ts) eqn:Hft.
  { exists false. split; [done|]. rewrite Hiff. split; [done|].
    intros [?|[Hf%follows_tail_false _]]; [done|congruence]. }
  apply follows_tail_false in Hft.
  eexists. split; [done|]. rewrite Hiff, existsb_elem_of. split.
  - intros (p & Hp & ->%bool_decide_eq_true). by right.
  - intros [?|[_ Hin]]; [done|]. eexists. split; [done|]. by apply bool_decide_eq_true.
Qed.

(** The classifier of parallel read-only commands terminates, because the command a shell
    wrapper runs is shorter than the wrapper, and it says yes exactly when the command is
    read-only: no chaining, redirection, substitution or line break at any level, and at the
    innermost level a listed prefix or [dse] asked for its version or help. *)
Theorem readonly_classifier_decides command :
  (∃ b, parallel_readonly_go shlex_split (S (length (bytes command))) command = Some b)
  ∧ (is_parallel_readonly_command shlex_split command = true ↔ readonly command).
Proof using shlex_shrinks.
  destruct (parallel_readonly_go_decides (S (length (bytes command))) command) as (b & Hb & Hiff).
  { unfold len. lia. }
  split; [by exists b|]. unfold is_parallel_readonly_command. by rewrite Hb.
Qed.

End readonly.
