(* ===== verification/Sandbox.v ===== *)
(** The sandbox of shell commands ([crates/tools/src/sandbox]): the policies and the paths each may
    write, the worktree metadata Git needs, and the preparation of a command on Linux, by bubblewrap
    or, where a policy allows it, with a marker only.

    The file system and the environment are parameters. *)
From Stdlib Require Import Ascii String.
From S2P Require Import Prelude.
From S2P Require Import Text.
From S2P Require Import TextOps.
From S2P Require Import Paths.
From S2P Require Import CommandSafety.

Open Scope string_scope.
Open Scope list_scope.
Open Scope N_scope.

(** ** Policies *)

Inductive SandboxPolicy :=
| DangerFullAccess
| SandboxReadOnly
| ExternalSandbox (network_access : bool)
| WorkspaceWrite (writable_roots : list PathBuf) (network_access exclude_tmpdir exclude_slash_tmp : bool)
| IsolatedWriter (writer_workspace : PathBuf) (host_loopback_only : bool).

Definition SandboxPolicy_default : SandboxPolicy := WorkspaceWrite [] false false false.
Definition isolated_writer (writer_workspace : PathBuf) : SandboxPolicy := IsolatedWriter writer_workspace false.
Definition workspace_with_network : SandboxPolicy := WorkspaceWrite [] true false false.
Definition workspace_with_roots (roots : list PathBuf) (network : bool) : SandboxPolicy :=
  WorkspaceWrite roots network false false.

Definition has_network_access (p : SandboxPolicy) : bool :=
  match p with
  | DangerFullAccess => true
  | SandboxReadOnly | IsolatedWriter _ _ => false
  | ExternalSandbox network_access | WorkspaceWrite _ network_access _ _ => network_access
  end.
Definition for_host_loopback_probe (p : SandboxPolicy) : option SandboxPolicy :=
  match p with
  | IsolatedWriter ws _ => Some (IsolatedWriter ws true)
  | _ => if has_network_access p then Some p else None
  end.
Definition has_full_disk_write_access (p : SandboxPolicy) : bool :=
  match p with DangerFullAccess | ExternalSandbox _ => true | _ => false end.
Definition has_host_loopback_access (p : SandboxPolicy) : bool :=
  match p with IsolatedWriter _ true => true | _ => false end.
Definition requires_enforced_sandbox (p : SandboxPolicy) : bool :=
  match p with IsolatedWriter _ _ => true | _ => false end.
Definition allows_host_cache_writes (p : SandboxPolicy) : bool :=
  match p with SandboxReadOnly | IsolatedWriter _ _ => false | _ => true end.
Definition should_sandbox (p : SandboxPolicy) : bool :=
  match p with DangerFullAccess | ExternalSandbox _ => false | _ => true end.

(** *** Writable roots *)

Record WritableRoot := mkWritableRoot { root : PathBuf; read_only_subpaths : list PathBuf }.
Definition WritableRoot_new (r : PathBuf) : WritableRoot := mkWritableRoot r [].

Definition is_path_writable (r : WritableRoot) (p : PathBuf) : bool :=
  if negb (path_starts_with p (root r)) then false
  else negb (existsb (λ subpath, path_starts_with p subpath) (read_only_subpaths r)).

Inductive SandboxPolicyBehavior := Sandboxed (p : SandboxPolicy) | BehaviorRequiresApproval | Blocked.
Definition map_safety_level_to_behavior (level : SafetyLevel) (default_policy : SandboxPolicy)
    : SandboxPolicyBehavior :=
  match level with
  | Safe | WorkspaceSafe => Sandboxed default_policy
  | RequiresApproval => BehaviorRequiresApproval
  | Dangerous => Blocked
  end.

Section writable_roots.
Context (canonicalize : PathBuf → result string PathBuf).
Context (is_file is_dir : PathBuf → bool).
Context (read_to_string : PathBuf → result string string).
Context (env_var : string → option string).

Definition canonical_ok (p : PathBuf) : option PathBuf :=
  match canonicalize p with Ok q => Some q | Err _ => None end.
Definition read_ok (p : PathBuf) : option string :=
  match read_to_string p with Ok s => Some s | Err _ => None end.

(** [Path::ancestors]: the path and its parents, innermost first. *)
Fixpoint ancestors_go (rev_path : list Component) : list PathBuf :=
  reverse rev_path :: match rev_path with
                      | [] | [RootDir] => []
                      | _ :: parent => ancestors_go parent
                      end.
Definition ancestors (p : PathBuf) : list PathBuf := ancestors_go (reverse p).

(** A path read from a file: relative to [base] unless absolute. *)
Definition relative_to (base : PathBuf) (value : string) : PathBuf := path_join base (components value).

Record GitDirPointer := mkGitDirPointer { git_dir : PathBuf; git_file : PathBuf }.

(** The pointer in the first ancestor that has a [.git] file: the loop returns there in any case. *)
Definition resolve_gitdir_pointer (r : PathBuf) : option GitDirPointer :=
  let search_root := canonical_or canonicalize r r in
  ancestor ← find_first (λ a, is_file (path_join a [Normal ".git"])) (ancestors search_root);
  let gitf := path_join ancestor [Normal ".git"] in
  contents ← read_ok gitf;
  value ← find_map (strip_prefix "gitdir:") (str_lines contents);
  let value := trim value in
  if is_empty_str value then None
  else
    gitd ← canonical_ok (relative_to ancestor value);
    gitf' ← canonical_ok gitf;
    Some (mkGitDirPointer gitd gitf').

(** The first line of a metadata file, as a canonical path. *)
Definition first_line_path (gitd : PathBuf) (name : string) : option PathBuf :=
  contents ← read_ok (path_join gitd [Normal name]);
  line ← head (str_lines contents);
  let value := trim line in
  if is_empty_str value then None else canonical_ok (relative_to gitd value).
Definition resolve_git_common_dir (gitd : PathBuf) : option PathBuf := first_line_path gitd "commondir".
Definition resolve_gitdir_back_pointer (gitd : PathBuf) : option PathBuf := first_line_path gitd "gitdir".

Definition worktree_metadata_points_back_to_workspace (gitd expected_git_file : PathBuf) : bool :=
  match resolve_gitdir_back_pointer gitd with
  | Some actual => actual ==? expected_git_file
  | None => false
  end.

Definition resolve_git_worktree_writable_roots (r : PathBuf) : list PathBuf :=
  match resolve_gitdir_pointer r with
  | None => []
  | Some pointer =>
    match resolve_git_common_dir (git_dir pointer) with
    | None => []
    | Some common_dir =>
      if negb (path_starts_with (git_dir pointer) (path_join common_dir [Normal "worktrees"])) then []
      else if negb (worktree_metadata_points_back_to_workspace (git_dir pointer) (git_file pointer)) then []
      else [git_dir pointer; common_dir]
    end
  end.

Definition option_list {A} (o : option A) : list A := match o with Some x => [x] | None => [] end.

(** A root that may be written except for its local state directories. *)
Definition protected_root (r : PathBuf) : WritableRoot :=
  let dse_dir := path_join r [Normal ".dse"] in
  let deepseek_dir := path_join r [Normal ".deepseek"] in
  mkWritableRoot r ((if is_dir dse_dir then [dse_dir] else [])
                    ++ (if is_dir deepseek_dir then [deepseek_dir] else [])).

Definition get_writable_roots (p : SandboxPolicy) (cwd : PathBuf) : list WritableRoot :=
  match p with
  | DangerFullAccess | ExternalSandbox _ | SandboxReadOnly => []
  | IsolatedWriter ws _ =>
    let r := canonical_or canonicalize ws ws in
    [mkWritableRoot r (path_join r <$> [[Normal ".git"]; [Normal ".dse"]; [Normal ".deepseek"]])]
  | WorkspaceWrite writable_roots _ exclude_tmpdir exclude_slash_tmp =>
    let roots := writable_roots ++ [canonical_or canonicalize cwd cwd] in
    let roots := roots ++ mjoin (resolve_git_worktree_writable_roots <$> roots) in
    let roots := roots ++ (if exclude_slash_tmp then []
                           else option_list (canonical_ok [RootDir; Normal "tmp"])) in
    let roots := roots ++ (if exclude_tmpdir then []
                           else option_list (tmpdir ← env_var "TMPDIR"; canonical_ok (components tmpdir))) in
    protected_root <$> roots
  end.

(** ** Bubblewrap *)

Definition BWRAP_PATH : string := "/usr/bin/bwrap".

Definition mount_args (flag : string) (p : PathBuf) : list string := [flag; display p; display p].

Definition build_bwrap_command (cwd : PathBuf) (program : string) (args : list string) : list string :=
  [BWRAP_PATH; "--ro-bind"; "/"; "/"] ++ mount_args "--bind" cwd ++ ["--chdir"; display cwd]
  ++ ["--unshare-all"; "--"; program] ++ args.

Definition root_args (r : WritableRoot) : list string :=
  mount_args "--bind" (root r) ++ mjoin (mount_args "--ro-bind" <$> read_only_subpaths r).

Definition build_bwrap_command_for_policy (p : SandboxPolicy) (cwd : PathBuf) (program : string)
    (args : list string) : list string :=
  [BWRAP_PATH; "--ro-bind"; "/"; "/"] ++ mjoin (root_args <$> get_writable_roots p cwd)
  ++ ["--chdir"; display cwd] ++ ["--unshare-all"; "--"; program] ++ args.

(** ** The manager, on Linux *)

Inductive SandboxType := SandboxNone | LinuxLandlock.
#[export] Instance SandboxType_eq_dec : EqDecision SandboxType.
Proof. solve_decision. Defined.

Record CommandSpec := mkCommandSpec {
  cs_program : string;
  cs_args : list string;
  cs_cwd : PathBuf;
  cs_env : list (string * string);
  cs_timeout : N;
  cs_sandbox_policy : SandboxPolicy;
}.

Record ExecEnv := mkExecEnv {
  ee_command : list string;
  ee_cwd : PathBuf;
  ee_env : list (string * string);
  ee_timeout : N;
  ee_sandbox_type : SandboxType;
  ee_policy : SandboxPolicy;
}.
Definition is_sandboxed (e : ExecEnv) : bool := negb (ee_sandbox_type e ==? SandboxNone).

Record SandboxManager := mkSandboxManager { forced_sandbox : option SandboxType; prefer_bwrap : bool }.

(** What the machine offers. *)
Context (bwrap_available landlock_available : bool).

Definition get_platform_sandbox : option SandboxType :=
  if landlock_available then Some LinuxLandlock else None.

Definition select_sandbox (m : SandboxManager) (p : SandboxPolicy) : SandboxType :=
  if negb (should_sandbox p) then SandboxNone
  else match forced_sandbox m with
  | Some forced => forced
  | None =>
    if requires_enforced_sandbox p then (if bwrap_available then LinuxLandlock else SandboxNone)
    else default SandboxNone get_platform_sandbox
  end.

(** [HashMap::insert] *)
Definition env_insert (k v : string) (env : list (string * string)) : list (string * string) :=
  (k, v) :: filter (λ e, e.1 ≠ k) env.

Definition exec_env (spec : CommandSpec) (command : list string) (env : list (string * string))
    (t : SandboxType) : ExecEnv :=
  mkExecEnv command (cs_cwd spec) env (cs_timeout spec) t (cs_sandbox_policy spec).

Definition prepare_unsandboxed (spec : CommandSpec) : ExecEnv :=
  exec_env spec (cs_program spec :: cs_args spec) (cs_env spec) SandboxNone.

Definition prepare_landlock (m : SandboxManager) (spec : CommandSpec) : ExecEnv :=
  let p := cs_sandbox_policy spec in
  if (prefer_bwrap m || requires_enforced_sandbox p) && bwrap_available then
    let command :=
      if requires_enforced_sandbox p
      then build_bwrap_command_for_policy p (cs_cwd spec) (cs_program spec) (cs_args spec)
      else build_bwrap_command (cs_cwd spec) (cs_program spec) (cs_args spec) in
    exec_env spec command (env_insert "DSE_SANDBOX" "bwrap" (cs_env spec)) LinuxLandlock
  else
    exec_env spec (cs_program spec :: cs_args spec) (env_insert "DSE_SANDBOX" "landlock" (cs_env spec))
             LinuxLandlock.

Definition prepare (m : SandboxManager) (spec : CommandSpec) : ExecEnv :=
  match select_sandbox m (cs_sandbox_policy spec) with
  | SandboxNone => prepare_unsandboxed spec
  | LinuxLandlock => prepare_landlock m spec
  end.

End writable_roots.

(** ** Mount points of an isolated writer

    The file system is a state [W] that [create_dir] changes. *)

Inductive FileKind := KindFile | KindDir | KindSymlink | KindOther.
#[export] Instance FileKind_eq_dec : EqDecision FileKind.
Proof. solve_decision. Defined.
Inductive IoErrorKind := NotFound | AlreadyExists | PermissionDeniedKind | OtherIo.
#[export] Instance IoErrorKind_eq_dec : EqDecision IoErrorKind.
Proof. solve_decision. Defined.
Record IoError := mkIoError { io_kind : IoErrorKind; io_message : string }.

Definition ISOLATED_WRITER_PROTECTED_DIRECTORIES : list string := [".dse"; ".deepseek"].

Section protected_paths.
Context {W : Type}.
Context (canonicalize_io : W → PathBuf → result IoError PathBuf).
Context (symlink_metadata : W → PathBuf → result IoError FileKind).
Context (create_dir : W → PathBuf → W * result IoError unit).

(** The first loop: the protected directories that are missing. *)
Fixpoint inspect_protected (w : W) (ws : PathBuf) (names : list string) (missing : list PathBuf)
    : result IoError (list PathBuf) :=
  match names with
  | [] => Ok missing
  | name :: names =>
    let p := path_join ws [Normal name] in
    match symlink_metadata w p with
    | Ok KindDir => inspect_protected w ws names missing
    | Ok _ => Err (mkIoError PermissionDeniedKind
                ("isolated writer protected path " ++ display p ++ " must be a real directory"))
    | Err error =>
      if io_kind error ==? NotFound then inspect_protected w ws names (missing ++ [p])
      else Err (mkIoError (io_kind error)
             ("cannot inspect isolated writer protected path " ++ display p ++ ": " ++ io_message error))
    end
  end.

(** The second loop. *)
Fixpoint create_protected (w : W) (missing : list PathBuf) : W * result IoError unit :=
  match missing with
  | [] => (w, Ok tt)
  | p :: missing =>
    let '(w, created) := create_dir w p in
    let failed := match created with
                  | Ok _ => None
                  | Err e => if io_kind e ==? AlreadyExists then None else Some e
                  end in
    match failed with
    | Some e => (w, Err (mkIoError (io_kind e)
        ("cannot create isolated writer protected directory " ++ display p ++ ": " ++ io_message e)))
    | None =>
      match symlink_metadata w p with
      | Err e => (w, Err (mkIoError (io_kind e)
          ("cannot verify isolated writer protected directory " ++ display p ++ ": " ++ io_message e)))
      | Ok KindDir => create_protected w missing
      | Ok _ => (w, Err (mkIoError PermissionDeniedKind
          ("isolated writer protected path " ++ display p ++ " was replaced while being prepared")))
      end
    end
  end.

Definition prepare_isolated_writer_protected_paths (w : W) (p : SandboxPolicy) : W * result IoError unit :=
  match p with
  | IsolatedWriter writer_workspace _ =>
    match canonicalize_io w writer_workspace with
    | Err e => (w, Err (mkIoError (io_kind e)
        ("cannot canonicalize isolated writer workspace " ++ display writer_workspace ++ ": "
         ++ io_message e)))
    | Ok ws =>
      let git_path := path_join ws [Normal ".git"] in
      match symlink_metadata w git_path with
      | Err e => (w, Err (mkIoError (io_kind e)
          ("isolated writer Git metadata path " ++ display git_path ++ " is unavailable: "
           ++ io_message e)))
      | Ok kind =>
        if negb (bool_decide (kind ∈ [KindFile; KindDir])) then
          (w, Err (mkIoError PermissionDeniedKind
             ("isolated writer Git metadata path " ++ display git_path
              ++ " must be a regular file or directory, not a symlink or special entry")))
        else match inspect_protected w ws ISOLATED_WRITER_PROTECTED_DIRECTORIES [] with
        | Err e => (w, Err e)
        | Ok missing => create_protected w missing
        end
      end
    end
  | _ => (w, Ok tt)
  end.

(** [prepare_enforced] on Linux: [prepare_in] is [prepare] with the files of a state. *)
Definition prepare_enforced (bwrap_available landlock_available : bool)
    (prepare_in : W → SandboxManager → CommandSpec → ExecEnv) (w : W) (m : SandboxManager)
    (spec : CommandSpec) : W * result IoError ExecEnv :=
  let p := cs_sandbox_policy spec in
  let '(w, prepared_paths) :=
    if requires_enforced_sandbox p
       && (select_sandbox bwrap_available landlock_available m p ==? LinuxLandlock) && bwrap_available
    then prepare_isolated_writer_protected_paths w p else (w, Ok tt) in
  match prepared_paths with
  | Err e => (w, Err e)
  | Ok _ =>
    let prepared := prepare_in w m spec in
    if requires_enforced_sandbox p && negb (is_sandboxed prepared)
    then (w, Err (mkIoError PermissionDeniedKind "isolated writer requires an enforcing local sandbox"))
    else (w, Ok prepared)
  end.
End protected_paths.
