(* ===== verification/SandboxFacts.v ===== *)
(** The sandbox keeps its policies: the mounts of bubblewrap give write access only where the policy
    does, exactly there for an isolated writer, which is never run without it. *)
From Stdlib Require Import Ascii String.
From S2P Require Import Prelude.
From S2P Require Import Text.
From S2P Require Import TextOps.
From S2P Require Import Json.
From S2P Require Import Patch.
From S2P Require Import Paths.
From S2P Require Import PathsFacts.
From S2P Require Import CommandSafety.
From S2P Require Import Sandbox.

Open Scope string_scope.
Open Scope list_scope.
Open Scope N_scope.

(** ** What a list of mounts permits

    Bubblewrap makes its mounts in the order of its arguments, and the last one that covers a path
    decides whether it may be written. *)

Inductive Mount := RoBind (p : PathBuf) | Bind (p : PathBuf).
Definition mount_path (m : Mount) : PathBuf := match m with RoBind p | Bind p => p end.
Definition mount_writable (m : Mount) : bool := match m with RoBind _ => false | Bind _ => true end.
Definition mount_tokens (m : Mount) : list string :=
  match m with RoBind p => mount_args "--ro-bind" p | Bind p => mount_args "--bind" p end.

Definition mounts_writable (mounts : list Mount) (p : PathBuf) : bool :=
  match find_first (λ m, path_starts_with p (mount_path m)) (reverse mounts) with
  | Some m => mount_writable m
  | None => false
  end.

Definition root_mounts (r : WritableRoot) : list Mount := Bind (root r) :: (RoBind <$> read_only_subpaths r).
Definition policy_mounts (roots : list WritableRoot) : list Mount :=
  RoBind [RootDir] :: mjoin (root_mounts <$> roots).

Lemma root_args_tokens r : root_args r = mjoin (mount_tokens <$> root_mounts r).
Proof. unfold root_args, root_mounts. cbn. by rewrite <- list_fmap_compose. Qed.

Lemma find_first_app {A} (f : A → bool) l k :
  find_first f (l ++ k) = match find_first f l with Some x => Some x | None => find_first f k end.
Proof. induction l as [|x l IH]; cbn; [done|]. by destruct (f x). Qed.

Lemma find_first_reverse_ro (f : Mount → bool) l k :
  existsb f (RoBind <$> l) = true →
  ∃ q, find_first f (reverse (k ++ (RoBind <$> l))) = Some (RoBind q).
Proof.
  intros (m & Hm & Hf)%existsb_elem_of. rewrite reverse_app, find_first_app.
  destruct (find_first f (reverse (RoBind <$> l))) as [m'|] eqn:Hx.
  - apply find_first_Some in Hx as [Hin _]. apply elem_of_reverse, list_elem_of_fmap in Hin as (q & -> & _).
    by exists q.
  - apply (find_first_None _ _ m) in Hx; [congruence|]. by apply elem_of_reverse.
Qed.

(** The mounts of one root after others: they decide for the paths below the root. *)
Lemma root_mounts_decide r before p :
  path_starts_with p (root r) = true →
  mounts_writable (before ++ root_mounts r) p = is_path_writable r p.
Proof.
  intros Hp. unfold mounts_writable, is_path_writable. rewrite Hp. cbn [negb].
  unfold root_mounts. rewrite cons_middle, app_assoc.
  destruct (existsb (λ subpath, path_starts_with p subpath) (read_only_subpaths r)) eqn:He; cbn [negb].
  - destruct (find_first_reverse_ro (λ m, path_starts_with p (mount_path m)) (read_only_subpaths r)
                (before ++ [Bind (root r)])) as (q & ->); [|done].
    apply existsb_elem_of in He as (s & Hs & Hf). apply existsb_elem_of.
    exists (RoBind s). split; [by apply list_elem_of_fmap; exists s|done].
  - rewrite reverse_app, find_first_app.
    destruct (find_first _ (reverse (RoBind <$> read_only_subpaths r))) as [m|] eqn:Hx.
    + apply find_first_Some in Hx as [Hin Hf].
      apply elem_of_reverse, list_elem_of_fmap in Hin as (q & -> & Hq).
      rewrite existsb_false_elem_of in He. specialize (He _ Hq). cbn in Hf. congruence.
    + rewrite reverse_app. change (reverse [Bind (root r)]) with [Bind (root r)]. cbn [app find_first mount_path].
      by rewrite Hp.
Qed.

(** The protected paths of a root lie below it. *)
Definition rooted (r : WritableRoot) : Prop :=
  ∀ q, q ∈ read_only_subpaths r → path_starts_with q (root r) = true.

Lemma path_starts_with_trans p q r :
  path_starts_with p q = true → path_starts_with q r = true → path_starts_with p r = true.
Proof.
  intros (k & ->)%path_starts_with_spec (l & ->)%path_starts_with_spec.
  apply path_starts_with_spec. exists (l ++ k). by rewrite app_assoc.
Qed.

(** The mounts of a root do not touch what is not below it. *)
Lemma root_mounts_elsewhere r before p :
  rooted r → path_starts_with p (root r) = false →
  mounts_writable (before ++ root_mounts r) p = mounts_writable before p.
Proof.
  intros Hr Hp. unfold mounts_writable. rewrite reverse_app, find_first_app.
  destruct (find_first _ (reverse (root_mounts r))) as [m|] eqn:Hx; [exfalso|done].
  apply find_first_Some in Hx as [Hin Hf]. rewrite elem_of_reverse in Hin.
  unfold root_mounts in Hin. apply elem_of_cons in Hin as [->|Hin]; cbn in Hf; [congruence|].
  apply list_elem_of_fmap in Hin as (q & -> & Hq). specialize (Hr _ Hq). cbn in Hf.
  rewrite (path_starts_with_trans p q (root r)) in Hp; done.
Qed.

(** A path the mounts of several roots let be written is below one of the roots and not protected in
    it. *)
Lemma mounts_writable_sound roots before p :
  Forall rooted roots → mounts_writable before p = false →
  mounts_writable (before ++ mjoin (root_mounts <$> roots)) p = true →
  existsb (λ r, is_path_writable r p) roots = true.
Proof.
  intros Hr Hb. induction roots as [|r roots IH] using rev_ind; intros Hw.
  - cbn in Hw. rewrite app_nil_r in Hw. congruence.
  - apply Forall_app in Hr as [Hr Hlast]. rewrite Forall_singleton in Hlast.
    rewrite fmap_app, join_app, app_assoc in Hw. cbn [fmap list_fmap mjoin list_join] in Hw.
    rewrite app_nil_r in Hw. rewrite existsb_app. cbn [existsb]. rewrite orb_false_r. apply orb_true_iff.
    destruct (path_starts_with p (root r)) eqn:Hp.
    + right. by rewrite <- (root_mounts_decide r (before ++ mjoin (root_mounts <$> roots)) p Hp).
    + left. apply IH; [done|]. rewrite (root_mounts_elsewhere r) in Hw by done. exact Hw.
Qed.

Lemma path_join_below r n : path_starts_with (path_join r [Normal n]) r = true.
Proof. unfold path_join. cbn. destruct r; [done|]. apply path_starts_with_spec. by eexists. Qed.

Section facts.
Context (canonicalize : PathBuf → result string PathBuf).
Context (is_file is_dir : PathBuf → bool).
Context (read_to_string : PathBuf → result string string).
Context (env_var : string → option string).
Notation roots_of := (get_writable_roots canonicalize is_file is_dir read_to_string env_var).
Notation bwrap_command := (build_bwrap_command_for_policy canonicalize is_file is_dir read_to_string env_var).

Lemma writable_roots_rooted p cwd : Forall rooted (roots_of p cwd).
Proof.
  destruct p; cbn [get_writable_roots]; try constructor; try constructor.
  - apply Forall_fmap, Forall_forall. intros r _ q. unfold protected_root. cbn [compose read_only_subpaths root].
    intros Hq. repeat case_match; cbn in Hq; repeat (apply elem_of_cons in Hq as [->|Hq]; [apply path_join_below|]);
      by apply elem_of_nil in Hq.
  - intros q Hq. cbn in Hq |- *. repeat (apply elem_of_cons in Hq as [->|Hq]; [apply path_join_below|]).
    by apply elem_of_nil in Hq.
Qed.

Lemma read_only_root_mount q : mounts_writable [RoBind [RootDir]] q = false.
Proof.
  unfold mounts_writable. change (reverse [RoBind [RootDir]]) with [RoBind [RootDir]].
  cbn [find_first]. by destruct (path_starts_with _ _).
Qed.

(** The mounts of an isolated writer are its policy. *)
Lemma isolated_mounts_exact ws loopback cwd q :
  mounts_writable (policy_mounts (roots_of (IsolatedWriter ws loopback) cwd)) q
  = existsb (λ r, is_path_writable r q) (roots_of (IsolatedWriter ws loopback) cwd).
Proof.
  pose proof (writable_roots_rooted (IsolatedWriter ws loopback) cwd) as Hroot.
  cbn [get_writable_roots existsb] in *. rewrite orb_false_r. unfold policy_mounts.
  cbn [fmap list_fmap mjoin list_join]. rewrite app_nil_r.
  set (r := mkWritableRoot _ _) in *.
  change (RoBind [RootDir] :: root_mounts r) with ([RoBind [RootDir]] ++ root_mounts r).
  destruct (path_starts_with q (root r)) eqn:Hq.
  - by apply root_mounts_decide.
  - rewrite root_mounts_elsewhere, read_only_root_mount; [|by inversion Hroot|done].
    unfold is_path_writable. by rewrite Hq.
Qed.


End facts.

(** ** The write guard and the sandbox *)

Section guard.
Context (path_exists : PathBuf → bool).
Context (canonicalize : PathBuf → result string PathBuf).
Context (is_file is_dir : PathBuf → bool).
Context (read_to_string : PathBuf → result string string).
Context (env_var : string → option string).
Context (root_exists : path_exists [RootDir] = true).
Context (exists_canonical : ∀ p, path_exists p = true → ∃ q, canonicalize p = Ok q).
Context (canonical_clean : ∀ p q, canonicalize p = Ok q → clean q).

(** The in-process write tools of an isolated writer stay within its sandbox: every path they
    may write is one the mounts of the writer's bubblewrap command let be written, so that no file
    is reachable through a tool that the sandbox of the shell protects. *)
Theorem write_guard_refines_sandbox c raw worktree loopback cwd p :
  absolute_path (workspace c) → is_ok (canonicalize worktree) = true →
  resolve_write_path path_exists canonicalize (with_isolated_writer_write_guard canonicalize worktree c) raw
    = Ok p →
  mounts_writable (policy_mounts (get_writable_roots canonicalize is_file is_dir read_to_string env_var
    (IsolatedWriter worktree loopback) cwd)) p = true.
Proof using root_exists exists_canonical canonical_clean.
  intros Habs Hok Hres.
  rewrite isolated_mounts_exact.
  pose proof (writer_writes_are_confined path_exists canonicalize root_exists exists_canonical
    canonical_clean (with_isolated_writer_write_guard canonicalize worktree c) raw _ Habs eq_refl) as Hw.
  rewrite Hres in Hw. destruct Hw as (_ & rest & -> & Hrest).
  cbn [get_writable_roots existsb]. rewrite orb_false_r. unfold is_path_writable. cbn [root read_only_subpaths].
  unfold canonical_or. destruct (canonicalize worktree) as [q|] eqn:Hq; [|done].
  rewrite (proj2 (path_starts_with_spec (q ++ rest) q)) by (by exists rest). cbn [negb].
  apply negb_true_iff, existsb_false_elem_of. intros sub Hsub.
  destruct (path_starts_with (q ++ rest) sub) eqn:Hs; [exfalso|done].
  assert (∃ name, sub = q ++ [Normal name] ∧ name ∈ [".git"; ".dse"; ".deepseek"]) as (name & -> & Hname).
  { destruct (canonical_clean _ _ Hq) as (names & -> & _).
    cbn in Hsub. repeat (apply elem_of_cons in Hsub as [->|Hsub]; [eexists; split; [reflexivity|set_solver]|]).
    by apply elem_of_nil in Hsub. }
  apply path_starts_with_spec in Hs as (k & Hk). rewrite <- app_assoc in Hk. apply app_inv_head in Hk as ->.
  apply (Hrest name); [set_solver|done].
Qed.

End guard.

(** ** Preparation *)

Section prepare.
Context {W : Type}.
Context (canonicalize_io : W → PathBuf → result IoError PathBuf).
Context (symlink_metadata : W → PathBuf → result IoError FileKind).
Context (create_dir : W → PathBuf → W * result IoError unit).

(** Creating a directory leaves the other entries as they are. *)
Context (create_dir_frame : ∀ w p q, p ≠ q → symlink_metadata (create_dir w p).1 q = symlink_metadata w q).
Context (create_dir_canonical : ∀ w p q, canonicalize_io (create_dir w p).1 q = canonicalize_io w q).

(** The path is a real directory. *)
Definition real_dir (w : W) (p : PathBuf) : Prop := symlink_metadata w p = Ok KindDir.

Lemma inspect_protected_spec w ws names missing out :
  inspect_protected symlink_metadata w ws names missing = Ok out →
  (∀ p, p ∈ missing → p ∈ out)
  ∧ (∀ name, name ∈ names → real_dir w (path_join ws [Normal name]) ∨ path_join ws [Normal name] ∈ out).
Proof.
  revert missing. induction names as [|name names IH]; intros missing; cbn [inspect_protected].
  { intros [= <-]. split; [done|]. by intros ? ?%elem_of_nil. }
  destruct (symlink_metadata w (path_join ws [Normal name])) as [[]|e] eqn:Hm; try done.
  - intros Hi. destruct (IH _ Hi) as [H1 H2]. split; [done|].
    intros n [->|Hn]%elem_of_cons; [by left|by apply H2].
  - destruct (io_kind e ==? NotFound); [|done]. intros Hi. destruct (IH _ Hi) as [H1 H2].
    split; [intros p Hp; apply H1; set_solver|].
    intros n [->|Hn]%elem_of_cons; [right; apply H1; set_solver|by apply H2].
Qed.

Lemma create_protected_spec missing w w' :
  create_protected symlink_metadata create_dir w missing = (w', Ok tt) →
  (∀ p, real_dir w p → real_dir w' p) ∧ (∀ p, p ∈ missing → real_dir w' p)
  ∧ (∀ q, canonicalize_io w' q = canonicalize_io w q).
Proof using create_dir_frame create_dir_canonical.
  revert w. induction missing as [|m missing IH]; intros w; cbn [create_protected].
  { intros [= <-]. split_and!; [done|by intros ? ?%elem_of_nil|done]. }
  destruct (create_dir w m) as [w1 r] eqn:Hc. cbv zeta.
  assert (Hw1 : w1 = (create_dir w m).1) by by rewrite Hc.
  destruct (match r with Ok _ => None | Err _ => _ end); [done|].
  destruct (symlink_metadata w1 m) as [[]|e] eqn:Hm; try done.
  intros Hi. destruct (IH _ Hi) as (Hkeep & Hmade & Hcan). split_and!.
  - intros p Hp. apply Hkeep. destruct (decide (m = p)) as [->|Hne]; [done|].
    unfold real_dir. rewrite Hw1, create_dir_frame; done.
  - intros p [->|Hp]%elem_of_cons; [by apply Hkeep|by apply Hmade].
  - intros q. by rewrite Hcan, Hw1, create_dir_canonical.
Qed.


End prepare.

(** Under [prefer_bwrap] the working directory is writable whatever the policy says, [ReadOnly]
    included. *)
Lemma read_only_policy_may_write_cwd can is_file is_dir read_to_string env_var landlock :
  landlock = true →
  ee_command (prepare can is_file is_dir read_to_string env_var true landlock
    (mkSandboxManager None true) (mkCommandSpec "touch" ["f"] [RootDir; Normal "ws"] [] 1 SandboxReadOnly))
  = ["/usr/bin/bwrap"; "--ro-bind"; "/"; "/"; "--bind"; "/ws"; "/ws"; "--chdir"; "/ws";
     "--unshare-all"; "--"; "touch"; "f"].
Proof. intros ->. reflexivity. Qed.
