(* ===== verification/ToolSchema.v ===== *)
(** The catalog of the production tools and the check of their arguments
    ([crates/tools/src/production.rs]): the sixteen definitions with their JSON schemas, and the
    validator of the part of JSON Schema they use.

    The value of a JSON number as an [f64] and the printing of an [f64] are parameters. *)
From stdpp Require Import sorting.
From Stdlib Require Import Ascii String.
From S2P Require Import Prelude.
From S2P Require Import Text.
From S2P Require Import TextOps.
From S2P Require Import Json.
From S2P Require Import Protocol.
From S2P Require Import Patch.
From S2P Require Import PatchFiles.

Open Scope string_scope.
Open Scope N_scope.

Class NumberLib := {
  number_as_f64 : string → option f64;
  show_f64 : f64 → string;
}.

(** ** Values *)

Definition is_array (v : Value) : bool := match v with VArray _ => true | _ => false end.
Definition is_string (v : Value) : bool := match v with VString _ => true | _ => false end.
Definition is_boolean (v : Value) : bool := match v with VBool _ => true | _ => false end.

(** [as_i64().is_some()]: a number written as digits, with a minus sign when it is negative. *)
Definition fits_i64 (v : Value) : bool :=
  match v with
  | VNumber literal =>
    match bytes literal with
    | a :: digits =>
      if (byte_val a =? 45)
      then is_some_and (parse_digits digits) (λ n, (1 <=? n) && (n <=? 9223372036854775808))
      else is_some_and (parse_digits (a :: digits)) (λ n, n <=? 9223372036854775807)
    | [] => false
    end
  | _ => false
  end.

Definition as_f64 `{NumberLib} (v : Value) : option f64 :=
  match v with VNumber literal => number_as_f64 literal | _ => None end.

(** Equality of JSON values: the order of the entries of an object does not count. *)
Definition json_eqb (v w : Value) : bool := canonical_json v ==? canonical_json w.

Definition has_key (k : string) (fs : list (string * Value)) : bool := is_some (object_get k fs).

(** ** The validator *)

Definition SUPPORTED_SCHEMA_KEYS : list string := [
  "type"; "properties"; "required"; "additionalProperties"; "oneOf"; "enum"; "minimum"; "maximum";
  "minLength"; "minItems"; "items"; "default"; "description"
].

(** The strings of an array field of the schema. *)
Definition string_items (v : Value) : list string := omap as_str (default [] (as_array v)).

Definition type_matches (schema_type : string) (value : Value) : option bool :=
  if schema_type ==? "object" then Some (is_object value)
  else if schema_type ==? "array" then Some (is_array value)
  else if schema_type ==? "string" then Some (is_string value)
  else if schema_type ==? "integer" then Some (fits_i64 value || is_some (as_u64 value))
  else if schema_type ==? "boolean" then Some (is_boolean value)
  else None.

Section validator.
Context `{NumberLib}.

Definition check_keys (schema : Value) (path : string) : result ToolError unit :=
  match as_object schema ≫= find_first (λ e, negb (bool_decide (e.1 ∈ SUPPORTED_SCHEMA_KEYS))) with
  | Some (key, _) =>
    Err (Patch.SchemaValidation ("schema 在 " ++ path ++ " 使用未实现的约束 '" ++ key ++ "'"))
  | None => Ok tt
  end.

Definition check_type (value schema : Value) (path : string) : result ToolError unit :=
  let schema_type := value_get "type" schema ≫= as_str in
  matches ← match schema_type with
            | Some t =>
              ok_or (type_matches t value)
                (Patch.SchemaValidation ("schema 在 " ++ path ++ " 使用不支持的类型 '" ++ t ++ "'"))
            | None => Ok true
            end;
  fail_if (negb matches)
    (Patch.SchemaValidation ("字段 " ++ path ++ " 类型错误，期望 " ++ default "有效 JSON" schema_type)).

Definition check_enum (value schema : Value) (path : string) : result ToolError unit :=
  match value_get "enum" schema ≫= as_array with
  | Some values =>
    fail_if (negb (existsb (json_eqb value) values))
      (Patch.SchemaValidation ("字段 " ++ path ++ " 不在允许的枚举值中"))
  | None => Ok tt
  end.

Definition check_range (value schema : Value) (path : string) : result ToolError unit :=
  match as_f64 value with
  | None => Ok tt
  | Some number =>
    match value_get "minimum" schema ≫= as_f64 with
    | Some minimum => fail_if (f64_ltb number minimum)
        (Patch.SchemaValidation ("字段 " ++ path ++ " 小于允许的最小值 " ++ show_f64 minimum))
    | None => Ok tt
    end ;;
    match value_get "maximum" schema ≫= as_f64 with
    | Some maximum => fail_if (f64_ltb maximum number)
        (Patch.SchemaValidation ("字段 " ++ path ++ " 大于允许的最大值 " ++ show_f64 maximum))
    | None => Ok tt
    end
  end.

Definition check_length (value schema : Value) (path : string) : result ToolError unit :=
  match as_str value, value_get "minLength" schema ≫= as_u64 with
  | Some text, Some minimum => fail_if (chars_count text <? minimum)
      (Patch.SchemaValidation ("字段 " ++ path ++ " 长度小于允许的最小值 " ++ show_N minimum))
  | _, _ => Ok tt
  end.

(** [for field in required { ... }] *)
Definition check_required (object : list (string * Value)) (schema : Value) (path : string)
    : result ToolError unit :=
  for_each (λ field, fail_if (negb (has_key field object)) (Patch.MissingField (path ++ "/" ++ field)))
    (string_items (default VNull (value_get "required" schema))).

Definition check_additional (object : list (string * Value)) (schema : Value) (path : string)
    : result ToolError unit :=
  if value_get "additionalProperties" schema ==? Some (VBool false) then
    let properties := value_get "properties" schema ≫= as_object in
    let unknown := merge_sort String.le
      (filter (λ field, is_none_or properties (λ ps, negb (has_key field ps))) (fst <$> object)) in
    fail_if (match unknown with [] => false | _ => true end)
      (InvalidInput ("对象 " ++ path ++ " 不接受字段：" ++ str_join ", " unknown))
  else Ok tt.

Definition branch_fields (branch : Value) : option (list string) :=
  match value_get "required" branch ≫= as_array with
  | Some fields => Some (omap as_str fields)
  | None => None
  end.
Definition check_one_of (object : list (string * Value)) (schema : Value) (path : string)
    : result ToolError unit :=
  match value_get "oneOf" schema ≫= as_array with
  | None => Ok tt
  | Some branches =>
    fail_if (existsb (λ branch, is_none_or (as_object branch) (existsb (λ e, negb (e.1 ==? "required"))))
                     branches)
      (Patch.SchemaValidation ("schema 在 " ++ path ++ " 使用了未实现的 oneOf 分支")) ;;
    let matches := length (filter (λ branch,
      is_some_and (branch_fields branch) (forallb (λ field, has_key field object))) branches) in
    fail_if (negb (matches =? 1)%nat)
      (Patch.SchemaValidation ("对象 " ++ path ++ " 必须且只能满足一个 oneOf 参数分支"))
  end.

Definition check_min_items (items : list Value) (schema : Value) (path : string) : result ToolError unit :=
  match value_get "minItems" schema ≫= as_u64 with
  | Some minimum => fail_if (N.of_nat (length items) <? minimum)
      (Patch.SchemaValidation ("数组 " ++ path ++ " 少于允许的最小元素数 " ++ show_N minimum))
  | None => Ok tt
  end.

(** The schema of a property. *)
Definition property_schema (schema : Value) (field : string) : option Value :=
  (value_get "properties" schema ≫= as_object) ≫= object_get field.

Fixpoint validate_schema_value (value schema : Value) (path : string) {struct value}
    : result ToolError unit :=
  check_keys schema path ;;
  check_type value schema path ;;
  check_enum value schema path ;;
  check_range value schema path ;;
  check_length value schema path ;;
  match value with
  | VObject object =>
    check_required object schema path ;;
    check_additional object schema path ;;
    (fix fields (es : list (string * Value)) : result ToolError unit :=
       match es with
       | [] => Ok tt
       | (field, field_value) :: es =>
         match property_schema schema field with
         | Some field_schema => validate_schema_value field_value field_schema (path ++ "/" ++ field)
         | None => Ok tt
         end ;;
         fields es
       end) object ;;
    check_one_of object schema path
  | VArray items =>
    check_min_items items schema path ;;
    match value_get "items" schema with
    | Some item_schema =>
      (fix elements (index : N) (vs : list Value) : result ToolError unit :=
         match vs with
         | [] => Ok tt
         | item :: vs =>
           validate_schema_value item item_schema (path ++ "/" ++ show_N index) ;;
           elements (index + 1) vs
         end) 0 items
    | None => Ok tt
    end
  | _ => Ok tt
  end.
End validator.

(** ** The catalog *)

Definition definition (name description : string) (input_schema : Value) : ToolDefinition :=
  mkToolDefinition name description input_schema.

Definition apply_patch_schema : Value :=
  VObject [("type", VString "object"); ("properties", VObject [("path", VObject [("type", VString
  "string"); ("minLength", VNumber "1")]); ("patch", VObject [("type", VString "string");
  ("minLength", VNumber "1")]); ("changes", VObject [("type", VString "array"); ("minItems",
  VNumber "1"); ("items", VObject [("type", VString "object"); ("properties", VObject [("path",
  VObject [("type", VString "string"); ("minLength", VNumber "1")]); ("content", VObject
  [("type", VString "string")])]); ("required", VArray [VString "path"; VString "content"]);
  ("additionalProperties", VBool false)])]); ("fuzz", VObject [("type", VString "integer");
  ("minimum", VNumber "0"); ("maximum", VNumber "50"); ("default", VNumber "3")]);
  ("create_if_missing", VObject [("type", VString "boolean")])]); ("oneOf", VArray [VObject
  [("required", VArray [VString "patch"])]; VObject [("required", VArray [VString "changes"])]]);
  ("additionalProperties", VBool false)].
Definition browser_navigate_schema : Value :=
  VObject [("type", VString "object"); ("properties", VObject [("url", VObject [("type", VString
  "string"); ("minLength", VNumber "1")]); ("max_nodes", VObject [("type", VString "integer");
  ("minimum", VNumber "1"); ("maximum", VNumber "256"); ("default", VNumber "128")]);
  ("max_chars", VObject [("type", VString "integer"); ("minimum", VNumber "1"); ("maximum",
  VNumber "50000"); ("default", VNumber "20000")]); ("focus", VObject [("type", VString
  "string"); ("minLength", VNumber "1")])]); ("required", VArray [VString "url"]);
  ("additionalProperties", VBool false)].
Definition browser_interact_schema : Value :=
  VObject [("type", VString "object"); ("properties", VObject [("action", VObject [("type",
  VString "string"); ("enum", VArray [VString "click"; VString "fill"; VString "press"; VString
  "wait"; VString "scroll"; VString "select"; VString "back"; VString "tab_open"; VString
  "tab_switch"; VString "tab_close"; VString "submit"; VString "login"; VString "upload"; VString
  "download"; VString "promote_download"; VString "session_status"; VString "session_clear"])]);
  ("element_ref", VObject [("type", VString "string"); ("minLength", VNumber "1")]); ("value",
  VObject [("type", VString "string")]); ("key", VObject [("type", VString "string"); ("enum",
  VArray [VString "enter"; VString "escape"; VString "tab"; VString "arrow_up"; VString
  "arrow_down"; VString "space"])]); ("condition", VObject [("type", VString "string"); ("enum",
  VArray [VString "document_ready"; VString "text_present"; VString "text_absent"; VString
  "url_equals"])]); ("timeout_ms", VObject [("type", VString "integer"); ("minimum", VNumber
  "1"); ("maximum", VNumber "10000")]); ("direction", VObject [("type", VString "string");
  ("enum", VArray [VString "up"; VString "down"])]); ("amount", VObject [("type", VString
  "integer"); ("minimum", VNumber "1"); ("maximum", VNumber "2000")]); ("url", VObject [("type",
  VString "string"); ("minLength", VNumber "1")]); ("page_ref", VObject [("type", VString
  "string"); ("minLength", VNumber "1")]); ("credential_ref", VObject [("type", VString
  "string"); ("minLength", VNumber "1")]); ("workspace_path", VObject [("type", VString
  "string"); ("minLength", VNumber "1")]); ("download_ref", VObject [("type", VString "string");
  ("minLength", VNumber "37")])]); ("required", VArray [VString "action"]);
  ("additionalProperties", VBool false)].
Definition edit_file_schema : Value :=
  VObject [("type", VString "object"); ("properties", VObject [("path", VObject [("type", VString
  "string"); ("minLength", VNumber "1")]); ("search", VObject [("type", VString "string");
  ("minLength", VNumber "1")]); ("replace", VObject [("type", VString "string")])]); ("required",
  VArray [VString "path"; VString "search"; VString "replace"]); ("additionalProperties", VBool
  false)].
Definition exec_shell_schema : Value :=
  VObject [("type", VString "object"); ("properties", VObject [("command", VObject [("type",
  VString "string")]); ("timeout_ms", VObject [("type", VString "integer")]); ("cwd", VObject
  [("type", VString "string")])]); ("required", VArray [VString "command"]);
  ("additionalProperties", VBool false)].
Definition file_search_schema : Value :=
  VObject [("type", VString "object"); ("properties", VObject [("query", VObject [("type",
  VString "string"); ("minLength", VNumber "1")]); ("path", VObject [("type", VString
  "string")]); ("limit", VObject [("type", VString "integer")]); ("extensions", VObject [("type",
  VString "array"); ("items", VObject [("type", VString "string")])]); ("exclude", VObject
  [("type", VString "array"); ("items", VObject [("type", VString "string")])])]); ("required",
  VArray [VString "query"]); ("additionalProperties", VBool false)].
Definition git_diff_schema : Value :=
  VObject [("type", VString "object"); ("properties", VObject [("path", VObject [("type", VString
  "string")]); ("cached", VObject [("type", VString "boolean")]); ("unified", VObject [("type",
  VString "integer"); ("minimum", VNumber "0"); ("maximum", VNumber "50"); ("default", VNumber
  "3")])]); ("additionalProperties", VBool false)].
Definition git_status_schema : Value :=
  VObject [("type", VString "object"); ("properties", VObject [("path", VObject [("type", VString
  "string")])]); ("additionalProperties", VBool false)].
Definition grep_files_schema : Value :=
  VObject [("type", VString "object"); ("properties", VObject [("pattern", VObject [("type",
  VString "string")]); ("path", VObject [("type", VString "string")]); ("include", VObject
  [("type", VString "array"); ("items", VObject [("type", VString "string")])]); ("exclude",
  VObject [("type", VString "array"); ("items", VObject [("type", VString "string")])]);
  ("context_lines", VObject [("type", VString "integer")]); ("case_insensitive", VObject
  [("type", VString "boolean")]); ("max_results", VObject [("type", VString "integer");
  ("minimum", VNumber "1"); ("maximum", VNumber "100")])]); ("required", VArray [VString
  "pattern"]); ("additionalProperties", VBool false)].
Definition list_dir_schema : Value :=
  VObject [("type", VString "object"); ("properties", VObject [("path", VObject [("type", VString
  "string")])]); ("additionalProperties", VBool false)].
Definition load_skill_schema : Value :=
  VObject [("type", VString "object"); ("properties", VObject [("name", VObject [("type", VString
  "string"); ("minLength", VNumber "1")])]); ("required", VArray [VString "name"]);
  ("additionalProperties", VBool false)].
Definition read_file_schema : Value :=
  VObject [("type", VString "object"); ("properties", VObject [("path", VObject [("type", VString
  "string")]); ("start_line", VObject [("type", VString "integer"); ("minimum", VNumber "1")]);
  ("max_lines", VObject [("type", VString "integer"); ("minimum", VNumber "1")]); ("pages",
  VObject [("type", VString "string")])]); ("required", VArray [VString "path"]);
  ("additionalProperties", VBool false)].
Definition run_tests_schema : Value :=
  VObject [("type", VString "object"); ("properties", VObject [("args", VObject [("type", VString
  "array"); ("items", VObject [("type", VString "string")]); ("default", VArray [])]);
  ("all_features", VObject [("type", VString "boolean")])]); ("additionalProperties", VBool
  false)].
Definition run_verifiers_schema : Value :=
  VObject [("type", VString "object"); ("properties", VObject [("profile", VObject [("type",
  VString "string"); ("enum", VArray [VString "auto"; VString "rust"; VString "node"; VString
  "python"; VString "go"; VString "exact"]); ("default", VString "auto")]); ("level", VObject
  [("type", VString "string"); ("enum", VArray [VString "quick"; VString "full"]); ("default",
  VString "quick")]); ("max_python_files", VObject [("type", VString "integer"); ("minimum",
  VNumber "1"); ("maximum", VNumber "1000"); ("default", VNumber "200")]); ("commands", VObject
  [("type", VString "array"); ("items", VObject [("type", VString "object"); ("properties",
  VObject [("name", VObject [("type", VString "string")]); ("program", VObject [("type", VString
  "string")]); ("args", VObject [("type", VString "array"); ("items", VObject [("type", VString
  "string")]); ("default", VArray [])]); ("cwd", VObject [("type", VString "string")])]);
  ("required", VArray [VString "name"; VString "program"]); ("additionalProperties", VBool
  false)]); ("default", VArray [])])]); ("additionalProperties", VBool false)].
Definition web_fetch_schema : Value :=
  VObject [("type", VString "object"); ("properties", VObject [("url", VObject [("type", VString
  "string"); ("minLength", VNumber "1")]); ("max_chars", VObject [("type", VString "integer");
  ("minimum", VNumber "1"); ("maximum", VNumber "50000"); ("default", VNumber "20000")])]);
  ("required", VArray [VString "url"]); ("additionalProperties", VBool false)].
Definition web_search_schema : Value :=
  VObject [("type", VString "object"); ("properties", VObject [("query", VObject [("type",
  VString "string"); ("minLength", VNumber "1")]); ("max_results", VObject [("type", VString
  "integer"); ("minimum", VNumber "1"); ("maximum", VNumber "10"); ("default", VNumber "5")])]);
  ("required", VArray [VString "query"]); ("additionalProperties", VBool false)].

Definition production_tool_definitions : list ToolDefinition := [
  definition "apply_patch"
    "用 unified diff 或 changes 完整内容修改工作区文件；每个文件原子发布，跨文件普通失败会回滚但崩溃窗口不是事务。patch 与 changes 二选一，path/fuzz/create_if_missing 仅适用于 patch。"
    apply_patch_schema;
  definition "browser_interact"
    "在 Host-owned semantic browser 中执行一个枚举化 action：click/fill/press/wait/scroll/select/back/tab、可撤销 submit，以及 managed login/upload/download/promotion/session_status/session_clear。element/page ref 只能来自最新 observation；credential_ref 只引用 Host secret grant，秘密/Cookie/storage 不进入模型。public managed action 使用项目隔离 Profile、exact origin/target、scoped approval、quarantine/static scan、显式 no-overwrite promotion 与 durable receipt；不接受 selector、坐标、脚本、任意 header 或个人 Chrome Profile。"
    browser_interact_schema;
  definition "browser_navigate"
    "读取一个已知 public HTTP(S) URL 或 Host-owned exact-loopback application 的 JavaScript 渲染结果，按可选 focus 做确定性 task-cue/role/interaction 优先级裁剪，并返回有界 DOM/accessibility snapshot、观察质量、action 后 semantic diff、page state 与 external_untrusted 信任标记；observation 可包含只供同一 Run 最新 page epoch 使用的 capability-bound opaque refs。public navigation 使用项目隔离 DSE managed Profile 以受控复用 Cookie/storage；exact-loopback 仍使用 teardown 即删除的临时 Profile。"
    browser_navigate_schema;
  definition "edit_file"
    "在已用 read_file 读取的单个文件中执行一次精确搜索替换；适合范围明确的局部修改，匹配失败时会自动进行有限回退。"
    edit_file_schema;
  definition "exec_shell"
    "在工作区中同步执行一条有界 shell 命令并返回退出状态与输出；优先使用更专用的文件、搜索、Git 或验证工具。"
    exec_shell_schema;
  definition "file_search"
    "按文件名或路径片段模糊查找工作区文件，可按扩展名和排除模式过滤并限制结果数量。"
    file_search_schema;
  definition "git_diff"
    "读取工作区未提交或已暂存的 Git 差异，可限定路径和上下文行数。"
    git_diff_schema;
  definition "git_status"
    "读取工作区的 Git 分支与文件状态，可限定到工作区内的路径。"
    git_status_schema;
  definition "grep_files"
    "用正则表达式搜索工作区文本，可限定路径、包含或排除模式，并返回匹配行及上下文。"
    grep_files_schema;
  definition "list_dir"
    "列出工作区内指定目录的直接子项；path 省略时读取工作区根目录。"
    list_dir_schema;
  definition "load_skill"
    "按系统提示中列出的精确名称读取本次运行已冻结的完整 Skill 定义；拒绝别名、路径、未发现、不可读、过大或歧义的 Skill，返回来源哈希与 external_untrusted 信任标记。"
    load_skill_schema;
  definition "read_file"
    "读取工作区内的 UTF-8 文本、PDF 或可 OCR 图像；大文件用 start_line/max_lines 分段，PDF 用 pages 指定页码。"
    read_file_schema;
  definition "run_tests"
    "在工作区根目录运行 cargo test，可传入额外参数或启用全部 feature，并返回确定性测试结果。"
    run_tests_schema;
  definition "run_verifiers"
    "同步运行与项目类型匹配的确定性验证，可选择快速或完整等级，也可提供明确的程序与参数。"
    run_verifiers_schema;
  definition "web_fetch"
    "读取一个已知公开 HTTP(S) URL，返回有界正文、标题、canonical links、received-content 来源哈希、传输轨迹与 external_untrusted 信任标记；HTTP 是不受保护的明文传输。不提供搜索、认证、Cookie、任意 header、脚本或浏览器执行。"
    web_fetch_schema;
  definition "web_search"
    "从一个固定 Host-owned Web Search endpoint 发现公开来源，返回有界 rank/title/URL/snippet、provider request/usage identity 与 external_untrusted 标记。snippet 只作 discovery；形成结论或引用前必须用 web_fetch 或 browser_navigate 读取原来源并交叉核验。不接受 provider、header、credential、proxy 或 browser 参数。"
    web_search_schema
].

Definition validate_production_input `{NumberLib} (name : string) (input : Value) : result ToolError unit :=
  d ← ok_or (find_first (λ d, td_name d ==? name) production_tool_definitions)
    (NotAvailable ("未知生产工具 '" ++ name ++ "'"));
  validate_schema_value input (td_input_schema d) "$".
