(* ===== verification/ToolSchemaFacts.v ===== *)
(** The argument validator decides a declarative reading of the schemas, and the catalog stays
    within the part of JSON Schema it implements. *)
From stdpp Require Import sorting.
From Stdlib Require Import Ascii String.
From S2P Require Import Prelude.
From S2P Require Import Text.
From S2P Require Import TextOps.
From S2P Require Import Json.
From S2P Require Import Protocol.
From S2P Require Import Patch.
From S2P Require Import PatchFiles.
From S2P Require Import ToolSchema.

Open Scope string_scope.
Open Scope list_scope.
Open Scope N_scope.

(** ** Supported schemas *)

Definition known_type (schema : Value) : bool :=
  is_none_or (value_get "type" schema ≫= as_str)
    (λ t, bool_decide (t ∈ ["object"; "array"; "string"; "integer"; "boolean"])).
Definition keys_supported (schema : Value) : bool :=
  is_none_or (as_object schema) (forallb (λ e, bool_decide (e.1 ∈ SUPPORTED_SCHEMA_KEYS))).
Definition branches_supported (schema : Value) : bool :=
  is_none_or (value_get "oneOf" schema ≫= as_array)
    (forallb (λ branch, is_some_and (as_object branch) (forallb (λ e, e.1 ==? "required")))).

(** The constraints of the schema, and of the schemas inside it, are among those implemented. *)
Inductive supported : Value → Prop :=
| supported_intro schema :
    keys_supported schema = true → known_type schema = true → branches_supported schema = true →
    (∀ field s, property_schema schema field = Some s → supported s) →
    (∀ s, value_get "items" schema = Some s → supported s) →
    supported schema.

Fixpoint supportedb (fuel : nat) (schema : Value) : bool :=
  match fuel with
  | O => false
  | Datatypes.S fuel =>
    keys_supported schema && known_type schema && branches_supported schema
    && is_none_or (value_get "properties" schema ≫= as_object) (forallb (λ e, supportedb fuel e.2))
    && is_none_or (value_get "items" schema) (supportedb fuel)
  end.

Lemma object_get_elem k fs v : object_get k fs = Some v → (k, v) ∈ fs.
Proof.
  unfold object_get. intros ([k' v'] & Hf & [= <-])%fmap_Some.
  apply find_first_Some in Hf as [Hin Hk]. apply bool_decide_eq_true in Hk. cbn in Hk. by subst.
Qed.

Lemma supportedb_sound fuel schema : supportedb fuel schema = true → supported schema.
Proof.
  revert schema. induction fuel as [|fuel IH]; intros schema; [done|]. cbn [supportedb].
  intros [[[[Hk Ht]%andb_true_iff Hb]%andb_true_iff Hp]%andb_true_iff Hi]%andb_true_iff.
  apply supported_intro; [assumption..| |].
  - intros field s Hs. unfold property_schema in Hs. apply bind_Some in Hs as (fs & Hfs & Hs).
    rewrite Hfs in Hp. cbn [is_none_or] in Hp. apply IH.
    apply object_get_elem in Hs. rewrite forallb_elem_of in Hp. exact (Hp _ Hs).
  - intros s Hs. rewrite Hs in Hi. apply IH. exact Hi.
Qed.

(** Every schema of the catalog is supported: no call can fail for a constraint the validator does
    not implement. *)
Lemma catalog_supported d : d ∈ production_tool_definitions → supported (td_input_schema d).
Proof.
  intros Hd. apply (supportedb_sound 6).
  assert (Hall : forallb (λ d, supportedb 6 (td_input_schema d)) production_tool_definitions = true)
    by (vm_compute; reflexivity).
  rewrite forallb_elem_of in Hall. by apply Hall.
Qed.

(** ** Conformance *)

Section conformance.
Context `{NumberLib}.

(** The part of conformance that does not look inside the value. *)
Definition conforms_here (value schema : Value) : Prop :=
  (∀ t, (value_get "type" schema ≫= as_str) = Some t → type_matches t value = Some true)
  ∧ (∀ values, (value_get "enum" schema ≫= as_array) = Some values → ∃ w, w ∈ values ∧ json_eqb value w = true)
  ∧ (∀ n, as_f64 value = Some n →
       (∀ m, (value_get "minimum" schema ≫= as_f64) = Some m → f64_ltb n m = false)
       ∧ (∀ m, (value_get "maximum" schema ≫= as_f64) = Some m → f64_ltb m n = false))
  ∧ (∀ text m, as_str value = Some text → (value_get "minLength" schema ≫= as_u64) = Some m →
       m ≤ chars_count text).

(** The fields of an object: the required ones are there, no other than the listed ones when the
    schema is closed, and exactly one alternative holds. *)
Definition branch_holds (object : list (string * Value)) (branch : Value) : Prop :=
  ∃ fields, branch_fields branch = Some fields ∧ ∀ f, f ∈ fields → has_key f object = true.
Definition conforms_object (object : list (string * Value)) (schema : Value) : Prop :=
  (∀ f, f ∈ string_items (default VNull (value_get "required" schema)) → has_key f object = true)
  ∧ (value_get "additionalProperties" schema = Some (VBool false) →
       ∀ f, f ∈ object.*1 → is_some (property_schema schema f) = true)
  ∧ (∀ branches, (value_get "oneOf" schema ≫= as_array) = Some branches →
       ∃ before branch after, branches = before ++ branch :: after ∧ branch_holds object branch
         ∧ ∀ b, b ∈ before ++ after → ¬ branch_holds object b).

(** A value conforms to a schema. *)
Fixpoint conforms (value schema : Value) {struct value} : Prop :=
  conforms_here value schema
  ∧ match value with
    | VObject object =>
      conforms_object object schema
      ∧ (fix fields (es : list (string * Value)) : Prop :=
           match es with
           | [] => True
           | (field, v) :: es =>
             match property_schema schema field with Some s => conforms v s | None => True end ∧ fields es
           end) object
    | VArray items =>
      (∀ m, (value_get "minItems" schema ≫= as_u64) = Some m → m ≤ N.of_nat (length items))
      ∧ match value_get "items" schema with
        | Some s => (fix elements (vs : list Value) : Prop :=
                       match vs with [] => True | v :: vs => conforms v s ∧ elements vs end) items
        | None => True
        end
    | _ => True
    end.

Lemma check_keys_Ok schema path : keys_supported schema = true → check_keys schema path = Ok tt.
Proof.
  unfold check_keys, keys_supported. destruct (as_object schema) as [fs|]; cbn [is_none_or mbind option_bind]; [|done].
  intros Hall. destruct (find_first _ fs) as [[k v]|] eqn:Hf; [exfalso|done].
  apply find_first_Some in Hf as [Hin Hn]. rewrite forallb_elem_of in Hall. specialize (Hall _ Hin).
  cbn in *. by rewrite Hall in Hn.
Qed.

Lemma check_type_Ok value schema path :
  known_type schema = true →
  check_type value schema path = Ok tt ↔
  ∀ t, (value_get "type" schema ≫= as_str) = Some t → type_matches t value = Some true.
Proof.
  unfold check_type, known_type. destruct (value_get "type" schema ≫= as_str) as [t|]; cbn [is_none_or].
  - intros Ht%bool_decide_eq_true.
    assert (∃ b, type_matches t value = Some b) as (b & Hb).
    { repeat (apply elem_of_cons in Ht as [->|Ht]; [eexists; reflexivity|]). by apply elem_of_nil in Ht. }
    rewrite Hb. cbn [ok_or mbind result_bind]. rewrite fail_if_Ok, negb_false_iff. split.
    + intros -> ? [= <-]. done.
    + intros Hx. specialize (Hx t eq_refl). congruence.
  - intros _. cbn. split; [by intros _ ?|done].
Qed.

Lemma check_enum_Ok value schema path :
  check_enum value schema path = Ok tt ↔
  ∀ values, (value_get "enum" schema ≫= as_array) = Some values → ∃ w, w ∈ values ∧ json_eqb value w = true.
Proof.
  unfold check_enum. destruct (value_get "enum" schema ≫= as_array) as [values|].
  - rewrite fail_if_Ok, negb_false_iff, existsb_elem_of. split; [by intros Hx ? [= <-]|by intros Hx; apply Hx].
  - split; [by intros _ ?|done].
Qed.

Lemma check_range_Ok value schema path :
  check_range value schema path = Ok tt ↔
  ∀ n, as_f64 value = Some n →
    (∀ m, (value_get "minimum" schema ≫= as_f64) = Some m → f64_ltb n m = false)
    ∧ (∀ m, (value_get "maximum" schema ≫= as_f64) = Some m → f64_ltb m n = false).
Proof.
  unfold check_range. destruct (as_f64 value) as [n|]; [|split; [by intros _ ?|done]].
  rewrite seq_Ok.
  destruct (value_get "minimum" schema ≫= as_f64) as [a|], (value_get "maximum" schema ≫= as_f64) as [b|];
    rewrite ?fail_if_Ok; (split; [intros [H1 H2] ? [= <-]; split; intros ? [=]; by subst|]);
    intros Hx; destruct (Hx n eq_refl) as [H1 H2]; auto.
Qed.

Lemma check_length_Ok value schema path :
  check_length value schema path = Ok tt ↔
  ∀ text m, as_str value = Some text → (value_get "minLength" schema ≫= as_u64) = Some m →
    m ≤ chars_count text.
Proof.
  unfold check_length.
  destruct (as_str value) as [text|], (value_get "minLength" schema ≫= as_u64) as [m|];
    try (split; [by intros _ ? ?|done]).
  rewrite fail_if_Ok, N.ltb_ge. split; [by intros ? ? ? [= <-] [= <-]|by auto].
Qed.

Lemma check_required_Ok object schema path :
  check_required object schema path = Ok tt ↔
  ∀ f, f ∈ string_items (default VNull (value_get "required" schema)) → has_key f object = true.
Proof.
  unfold check_required. rewrite for_each_Ok, Forall_forall.
  split; intros Hx f Hf; specialize (Hx f Hf).
  - by apply fail_if_Ok, negb_false_iff in Hx.
  - apply fail_if_Ok. by rewrite Hx.
Qed.

Lemma property_known schema f :
  is_none_or (value_get "properties" schema ≫= as_object) (λ ps, negb (has_key f ps))
  = negb (is_some (property_schema schema f)).
Proof.
  unfold property_schema, has_key. by destruct (value_get "properties" schema ≫= as_object).
Qed.

Lemma check_additional_Ok object schema path :
  check_additional object schema path = Ok tt ↔
  (value_get "additionalProperties" schema = Some (VBool false) →
     ∀ f, f ∈ object.*1 → is_some (property_schema schema f) = true).
Proof.
  unfold check_additional.
  destruct (value_get "additionalProperties" schema ==? Some (VBool false)) eqn:Ha.
  2:{ apply bool_decide_eq_false in Ha. split; [by intros _ ?|done]. }
  apply bool_decide_eq_true in Ha. rewrite fail_if_Ok. cbv zeta.
  set (unknown := filter _ (object.*1)).
  assert (Hu : (match merge_sort String.le unknown with [] => false | _ => true end) = false ↔ unknown = []).
  { pose proof (merge_sort_Permutation String.le unknown) as Hperm.
    destruct (merge_sort String.le unknown) as [|x l]; split; try done.
    - intros _. by apply Permutation_nil.
    - intros ->. symmetry in Hperm. by apply Permutation_nil in Hperm. }
  rewrite Hu. subst unknown. split.
  - intros Hnil _ f Hf. destruct (is_some (property_schema schema f)) eqn:Hs; [done|exfalso].
    assert (f ∈ filter (λ field, is_none_or (value_get "properties" schema ≫= as_object)
                                   (λ ps, negb (has_key field ps))) object.*1) as Hin.
    { apply list_elem_of_filter. split; [|done]. by rewrite property_known, Hs. }
    rewrite Hnil in Hin. by apply elem_of_nil in Hin.
  - intros Hall. specialize (Hall Ha). apply elem_of_nil_inv. intros f [Hn Hf]%list_elem_of_filter.
    rewrite property_known, Hall in Hn; done.
Qed.

Lemma branch_holds_spec object branch :
  is_some_and (branch_fields branch) (forallb (λ field, has_key field object)) = true ↔ branch_holds object branch.
Proof.
  unfold branch_holds. destruct (branch_fields branch) as [fs|]; cbn [is_some_and].
  - rewrite forallb_elem_of. split; [eauto|]. by intros (? & [= <-] & ?).
  - split; [done|]. by intros (? & ? & _).
Qed.

(** One element of a list satisfies a test exactly when the filtered list has length one. *)
Lemma filter_one {A} (p : A → bool) (l : list A) :
  length (filter (λ x, p x) l) = 1%nat ↔
  ∃ before x after, l = before ++ x :: after ∧ p x = true ∧ ∀ y, y ∈ before ++ after → p y = false.
Proof.
  assert (Hnone : ∀ l, length (filter (λ x, p x) l) = 0%nat ↔ ∀ y, y ∈ l → p y = false).
  { clear. intros l. rewrite length_zero_iff_nil. split.
    - intros Hnil y Hy. destruct (p y) eqn:Hp; [exfalso|done].
      assert (y ∈ filter (λ x, p x) l) as Hin by (apply list_elem_of_filter; split; [by rewrite Hp|done]).
      rewrite Hnil in Hin. by apply elem_of_nil in Hin.
    - intros Hall. apply elem_of_nil_inv. intros y [Hp Hy]%list_elem_of_filter. by rewrite Hall in Hp. }
  split.
  - induction l as [|x l IH]; [done|]. rewrite filter_cons. case_decide as Hx; cbn [length].
    + intros [= Hl]. exists [], x, l. split; [done|]. split; [by destruct (p x)|]. by apply Hnone.
    + intros Hl. destruct (IH Hl) as (b & y & a & -> & Hy & Hall). exists (x :: b), y, a.
      split_and!; [done|done|]. intros z [->|Hz]%elem_of_cons; [by destruct (p x)|by apply Hall].
  - intros (b & x & a & -> & Hx & Hall). rewrite filter_app, length_app, filter_cons_True by (by rewrite Hx).
    cbn [length]. rewrite (proj2 (Hnone b)), (proj2 (Hnone a)); [done| |]; intros y Hy; apply Hall; set_solver.
Qed.

Lemma check_one_of_Ok object schema path :
  branches_supported schema = true →
  check_one_of object schema path = Ok tt ↔
  ∀ branches, (value_get "oneOf" schema ≫= as_array) = Some branches →
    ∃ before branch after, branches = before ++ branch :: after ∧ branch_holds object branch
      ∧ ∀ b, b ∈ before ++ after → ¬ branch_holds object b.
Proof.
  unfold check_one_of, branches_supported.
  destruct (value_get "oneOf" schema ≫= as_array) as [branches|]; [|split; [by intros _ ?|done]].
  cbn [is_none_or]. intros Hsup. rewrite forallb_elem_of in Hsup.
  rewrite seq_Ok, !fail_if_Ok, negb_false_iff, Nat.eqb_eq.
  assert (Hbad : existsb (λ branch, is_none_or (as_object branch) (existsb (λ e, negb (e.1 ==? "required"))))
                         branches = false).
  { apply existsb_false_elem_of. intros b Hb. specialize (Hsup b Hb).
    destruct (as_object b) as [fs|]; cbn [is_some_and is_none_or] in *; [|done].
    apply existsb_false_elem_of. rewrite forallb_elem_of in Hsup. intros e He. by rewrite Hsup. }
  rewrite Hbad, filter_one. split.
  - intros [_ (b & x & a & -> & Hx & Hall)] ? [= <-]. exists b, x, a.
    split_and!; [done|by apply branch_holds_spec|]. intros y Hy Hh.
    apply branch_holds_spec in Hh. by rewrite Hall in Hh.
  - intros Hx. destruct (Hx branches eq_refl) as (b & x & a & -> & Hh & Hall). split; [done|].
    exists b, x, a. split_and!; [done|by apply branch_holds_spec|]. intros y Hy.
    apply not_true_is_false. rewrite branch_holds_spec. by apply Hall.
Qed.

(** The argument validator decides conformance: for a schema within the implemented part of
    JSON Schema, a value is accepted exactly when it conforms, at every depth, to the types, the
    enumerations, the ranges, the lengths, the required, closed and alternative fields and the item
    schemas. *)
Lemma validator_decides_conformance value schema path :
  supported schema → validate_schema_value value schema path = Ok tt ↔ conforms value schema.
Proof.
  assert (Hhere : ∀ (value schema : Value) path (k : result ToolError unit), supported schema →
    (check_keys schema path ;; check_type value schema path ;; check_enum value schema path ;;
     check_range value schema path ;; check_length value schema path ;; k) = Ok tt
    ↔ conforms_here value schema ∧ k = Ok tt).
  { intros v s p k Hs. destruct Hs as [s Hk Ht Hb Hp Hi]. unfold conforms_here.
    rewrite !seq_Ok, (check_keys_Ok s p Hk), (check_type_Ok v s p Ht), check_enum_Ok, check_range_Ok, check_length_Ok.
    tauto. }
  revert schema path. induction value as [|b|l|s|items IH|object IH] using Value_nested_ind;
    intros schema path Hsup; cbn [validate_schema_value conforms];
    rewrite (Hhere _ schema path _ Hsup); try tauto.
  - apply and_iff_compat_l. rewrite seq_Ok. unfold check_min_items. f_equiv.
    { destruct (value_get "minItems" schema ≫= as_u64) as [m|]; [|split; [by intros _ ?|done]].
      rewrite fail_if_Ok, N.ltb_ge. split; [by intros ? ? [= <-]|by auto]. }
    destruct (value_get "items" schema) as [item_schema|] eqn:Hi; [|done].
    assert (Hs : supported item_schema) by (inversion Hsup; auto). clear Hhere Hsup Hi.
    generalize 0. induction IH as [|v vs Hv _ IHvs]; intros index; [done|].
    rewrite seq_Ok, (Hv item_schema _ Hs), IHvs. done.
  - apply and_iff_compat_l. unfold conforms_object. rewrite !seq_Ok.
    rewrite check_required_Ok, check_additional_Ok, check_one_of_Ok by (by inversion Hsup).
    assert (Hfields : (fix fields (es : list (string * Value)) : result ToolError unit :=
       match es with
       | [] => Ok tt
       | (field, field_value) :: es =>
         match property_schema schema field with
         | Some field_schema => validate_schema_value field_value field_schema (path ++ "/" ++ field)
         | None => Ok tt
         end ;; fields es
       end) object = Ok tt ↔
      (fix fields (es : list (string * Value)) : Prop :=
           match es with
           | [] => True
           | (field, v) :: es =>
             match property_schema schema field with Some s => conforms v s | None => True end ∧ fields es
           end) object); [|tauto].
    assert (Hs : ∀ f s, property_schema schema f = Some s → supported s) by (inversion Hsup; auto).
    clear Hhere Hsup. induction IH as [|[f v] es Hv _ IHes]; [done|]. rewrite seq_Ok, IHes.
    destruct (property_schema schema f) as [s|] eqn:Hf; [|tauto]. by rewrite (Hv s _ (Hs f s Hf)).
Qed.

(** C36: The check of a production tool's arguments decides conformance to the published schema: for
    each of the sixteen tools the arguments are accepted exactly when they conform, at every depth,
    to its types, enumerations, ranges, lengths, required, closed and alternative fields and item
    schemas; the catalog uses no constraint the validator does not implement, so no call fails for
    one; and a name outside the catalog is refused as unavailable. *)
Theorem production_inputs_are_checked name input :
  match find_first (λ d, td_name d ==? name) production_tool_definitions with
  | Some d => supported (td_input_schema d)
              ∧ (validate_production_input name input = Ok tt ↔ conforms input (td_input_schema d))
  | None => ∃ m, validate_production_input name input = Err (NotAvailable m)
  end.
Proof.
  unfold validate_production_input.
  destruct (find_first _ production_tool_definitions) as [d|] eqn:Hf; cbn [ok_or mbind result_bind]; [|by eexists].
  assert (Hs : supported (td_input_schema d)) by (apply catalog_supported; by apply find_first_Some in Hf as [? _]).
  split; [done|]. by apply validator_decides_conformance.
Qed.

End conformance.
