(* ===== verification/BrowserRequest.v ===== *)
(** The requests of [browser_interact] ([crates/tools/src/semantic_browser.rs]): the closed set of
    actions, the exact arguments of each and the checks of the opaque references the Host issued.

    [Url] belongs to the [url] crate: its operations are the class [UrlLib]. *)
From Stdlib Require Import Ascii String.
From S2P Require Import Prelude.
From S2P Require Import Text.
From S2P Require Import TextOps.
From S2P Require Import Json.
From S2P Require Import Protocol.
From S2P Require Import Patch.
From S2P Require Import PatchFiles.
From S2P Require Import Paths.
From S2P Require Import CommandSafety.

Open Scope string_scope.
Open Scope N_scope.

Class UrlLib := {
  Url : Type;
  Url_parse : string → result string Url;
  url_scheme : Url → string;
  url_username : Url → string;
  url_password : Url → option string;
  url_host_str : Url → option string;
  url_port : Url → option N;
  url_port_or_known_default : Url → option N;
  url_as_str : Url → string;
}.

(** ** Failures *)

Record BrowserFailure := mkBrowserFailure {
  bf_code : string;
  bf_stage : string;
  bf_message : string;
  bf_transport : bool;
  bf_retry : ToolRetryDisposition;
}.
Definition bf_rejected (code stage message : string) : BrowserFailure :=
  mkBrowserFailure code stage message false RetryAfterCorrection.
Definition bf_operation (code stage message : string) : BrowserFailure :=
  mkBrowserFailure code stage message false RetryNotRetryable.
Definition bf_transport_failure (code stage message : string) : BrowserFailure :=
  mkBrowserFailure code stage message true RetrySafe.

Definition TRUST : string := "external_untrusted".
Definition MAX_ELEMENT_REF_CHARS : N := 40.
Definition MAX_FILL_VALUE_CHARS : N := 1024.
Definition MAX_FILL_VALUE_BYTES : N := 4096.
Definition MAX_INTERACTION_VALUE_CHARS : N := 2048.
Definition MAX_WAIT_MILLIS : N := 10000.
Definition DEFAULT_WAIT_MILLIS : N := 3000.
Definition MAX_SCROLL_AMOUNT : N := 2000.
Definition MAX_CREDENTIAL_REF_CHARS : N := 128.

(** The metadata of a failed interaction. *)
Definition interact_failure_metadata (failure : BrowserFailure) : Value :=
  VObject [("semantic_browser", VObject [
    ("action", VString "interact"); ("trust", VString TRUST);
    ("failure", VObject [("code", VString (bf_code failure)); ("stage", VString (bf_stage failure));
                         ("message", VString (bf_message failure))])])].

Definition rejected_interact_outcome (failure : BrowserFailure) : ToolOutcome :=
  ToolOutcome_rejected ("browser_interact 拒绝：code=" ++ bf_code failure ++ "；" ++ bf_message failure)
    (bf_retry failure)
  <| to_failure_code := Some InvocationRejected |>
  <| to_metadata := Some (interact_failure_metadata failure) |>.

Definition interact_operation_outcome (failure : BrowserFailure) (dispatched : bool) : ToolOutcome :=
  let message := "browser_interact 失败：code=" ++ bf_code failure ++ "；" ++ bf_message failure in
  let outcome :=
    if bf_transport failure then ToolOutcome_transport_failure message
    else ToolOutcome_error message
         <| to_transport := TransportSucceeded |>
         <| to_operation := if dispatched then OperationIndeterminate else OperationFailedStatus |> in
  outcome
  <| to_side_effect := if dispatched then SideEffectIndeterminate else SideEffectNotApplied |>
  <| to_retry := if dispatched then RetryUnsafe else bf_retry failure |>
  <| to_metadata := Some (interact_failure_metadata failure) |>.

(** ** Requests *)

Inductive BrowserKey := KeyEnter | KeyEscape | KeyTab | KeyArrowUp | KeyArrowDown | KeySpace.
#[export] Instance BrowserKey_eq_dec : EqDecision BrowserKey.
Proof. solve_decision. Defined.
Inductive BrowserWaitCondition := DocumentReady | TextPresent | TextAbsent | UrlEquals.
#[export] Instance BrowserWaitCondition_eq_dec : EqDecision BrowserWaitCondition.
Proof. solve_decision. Defined.
Inductive BrowserScrollDirection := ScrollUp | ScrollDown.
#[export] Instance BrowserScrollDirection_eq_dec : EqDecision BrowserScrollDirection.
Proof. solve_decision. Defined.

Record Origin := mkOrigin { or_scheme : string; or_host : string; or_port : N }.

(** [trim_end_matches] of a byte. *)
Definition trim_end_byte (b : N) (s : string) : string :=
  of_bytes (drop_while_end (is_byte b) (bytes s)).

(** [strip_prefix('[')] and then [strip_suffix(']')] *)
Definition strip_brackets (host : string) : option string :=
  match strip_prefix "[" host with
  | Some value =>
    match reverse (bytes value) with
    | a :: rest => if is_byte 93 a then Some (of_bytes (reverse rest)) else None
    | [] => None
    end
  | None => None
  end.

Definition Origin_canonical (o : Origin) : string :=
  let is_default := ((or_scheme o ==? "http") && (or_port o =? 80))
                    || ((or_scheme o ==? "https") && (or_port o =? 443)) in
  let host := if contains_byte 58 (or_host o) then "[" ++ or_host o ++ "]" else or_host o in
  if is_default then or_scheme o ++ "://" ++ host
  else or_scheme o ++ "://" ++ host ++ ":" ++ show_N (or_port o).

(** [char::is_control]: C0, DEL and C1. *)
Definition is_control_char (c : list ascii) : bool :=
  match byte_val <$> c with
  | [b] => (b <=? 31) || (b =? 127)
  | [194; b] => (128 <=? b) && (b <=? 159)
  | _ => false
  end.
Definition has_control (s : string) : bool := existsb is_control_char (chars s).

Section browser_request.
Context `{UrlLib}.

Inductive BrowserInteractRequest :=
| Click (element_ref : string)
| Fill (element_ref value : string)
| Press (element_ref : string) (key : BrowserKey)
| Wait (condition : BrowserWaitCondition) (value : option string) (timeout_ms : N)
| Scroll (element_ref : string) (direction : BrowserScrollDirection) (amount : N)
| Select (element_ref value : string)
| Back
| TabOpen (url : Url)
| TabSwitch (page_ref : string)
| TabClose (page_ref : string)
| Submit (element_ref : string)
| Login (element_ref credential_ref : string)
| Upload (element_ref workspace_path : string)
| Download (element_ref : string)
| PromoteDownload (download_ref workspace_path : string)
| SessionStatus
| SessionClear.

Definition Origin_from_url (url : Url) : result BrowserFailure Origin :=
  let scheme := url_scheme url in
  fail_if (negb (bool_decide (scheme ∈ ["http"; "https"])))
    (bf_rejected "browser_scheme_denied" "url"
       ("browser_navigate 只允许 HTTP(S) URL；收到 scheme=" ++ scheme)) ;;
  fail_if (negb (is_empty_str (url_username url)) || is_some (url_password url))
    (bf_rejected "browser_userinfo_denied" "url" "browser URL 不允许包含 userinfo、认证信息或密码") ;;
  host ← ok_or (url_host_str url)
    (bf_rejected "browser_url_host_missing" "url" "browser URL 缺少主机名");
  port ← ok_or (url_port_or_known_default url)
    (bf_rejected "browser_port_missing" "url" "browser URL 缺少有效端口");
  mret (mkOrigin scheme
    (to_ascii_lowercase (trim_end_byte 46 (default host (strip_brackets host)))) port).

(** ** Arguments *)

(** [required_str] with its error renamed. *)
Definition required_arg (input : Value) (field code : string) : result BrowserFailure string :=
  match required_str input field with
  | Ok s => Ok s
  | Err error => Err (bf_rejected code field (ToolError_to_string error))
  end.

Definition all_hex_chars (s : string) : bool :=
  forallb (λ c, match c with [a] => is_ascii_hexdigit a | _ => false end) (chars s).

(** The text after a five-byte prefix. *)
Definition after_prefix5 (s : string) : string := of_bytes (drop 5 (bytes s)).

Definition parse_element_ref (input : Value) : result BrowserFailure string :=
  element_ref ← required_arg input "element_ref" "browser_element_ref_missing";
  fail_if (negb (trim element_ref ==? element_ref) || is_empty_str element_ref
           || (MAX_ELEMENT_REF_CHARS <? chars_count element_ref)
           || negb (starts_with "eref_" element_ref)
           || negb (all_hex_chars (after_prefix5 element_ref)))
    (bf_rejected "browser_element_ref_invalid" "element_ref"
       "element_ref 必须是 Host 返回的有界 opaque ref") ;;
  mret element_ref.

Definition parse_page_ref (input : Value) : result BrowserFailure string :=
  page_ref ← required_arg input "page_ref" "browser_page_ref_missing";
  fail_if (negb (str_len page_ref =? 37) || negb (starts_with "page_" page_ref)
           || negb (all_hex_chars (after_prefix5 page_ref)))
    (bf_rejected "browser_page_ref_invalid" "page_ref" "page_ref 必须是 Host 返回的 opaque page ref") ;;
  mret page_ref.

Definition parse_fill_request (input : Value) : result BrowserFailure BrowserInteractRequest :=
  element_ref ← parse_element_ref input;
  value ← required_arg input "value" "browser_fill_value_missing";
  fail_if ((chars_count value =? 0) || (MAX_FILL_VALUE_CHARS <? chars_count value)
           || (MAX_FILL_VALUE_BYTES <? str_len value))
    (bf_rejected "browser_fill_value_invalid" "value"
       ("value 必须非空且不超过 " ++ show_N MAX_FILL_VALUE_CHARS ++ " 字符/"
        ++ show_N MAX_FILL_VALUE_BYTES ++ " UTF-8 字节")) ;;
  fail_if (has_control value)
    (bf_rejected "browser_fill_value_control_denied" "value"
       "value 不允许 NUL、C0/C1、DEL 或换行控制字符") ;;
  mret (Fill element_ref value).

Definition parse_interaction_value (input : Value) (code : string) : result BrowserFailure string :=
  value ← required_arg input "value" code;
  fail_if (is_empty_str value || (MAX_INTERACTION_VALUE_CHARS <? chars_count value) || has_control value)
    (bf_rejected code "value"
       ("value 必须非空、不含控制字符且不超过 " ++ show_N MAX_INTERACTION_VALUE_CHARS ++ " 字符")) ;;
  mret value.

Definition escaping_component (c : Component) : bool :=
  match c with ParentDir | RootDir => true | _ => false end.
Definition parse_workspace_path (input : Value) : result BrowserFailure string :=
  path ← required_arg input "workspace_path" "browser_workspace_path_missing";
  fail_if (is_empty_str path || (1024 <? chars_count path) || has_control path
           || path_is_absolute path || existsb escaping_component (components path))
    (bf_rejected "browser_workspace_path_invalid" "workspace_path"
       "workspace_path 必须是非空、有界、无控制字符的 workspace 相对路径") ;;
  mret path.

Definition parse_key (key : string) : option BrowserKey :=
  if key ==? "enter" then Some KeyEnter else if key ==? "escape" then Some KeyEscape
  else if key ==? "tab" then Some KeyTab else if key ==? "arrow_up" then Some KeyArrowUp
  else if key ==? "arrow_down" then Some KeyArrowDown else if key ==? "space" then Some KeySpace
  else None.
Definition parse_condition (condition : string) : option BrowserWaitCondition :=
  if condition ==? "document_ready" then Some DocumentReady
  else if condition ==? "text_present" then Some TextPresent
  else if condition ==? "text_absent" then Some TextAbsent
  else if condition ==? "url_equals" then Some UrlEquals else None.
Definition parse_direction (direction : string) : option BrowserScrollDirection :=
  if direction ==? "up" then Some ScrollUp else if direction ==? "down" then Some ScrollDown else None.

Definition parse_press (input : Value) : result BrowserFailure BrowserInteractRequest :=
  text ← required_arg input "key" "browser_key_missing";
  key ← ok_or (parse_key text)
    (bf_rejected "browser_key_denied" "key" "key 必须是 enter/escape/tab/arrow_up/arrow_down/space");
  element_ref ← parse_element_ref input;
  mret (Press element_ref key).

Definition parse_wait (input : Value) : result BrowserFailure BrowserInteractRequest :=
  text ← required_arg input "condition" "browser_wait_condition_missing";
  condition ← ok_or (parse_condition text)
    (bf_rejected "browser_wait_condition_denied" "condition"
       "condition 必须是 document_ready/text_present/text_absent/url_equals");
  let value := optional_str input "value" in
  (if condition ==? DocumentReady then
     fail_if (is_some value)
       (bf_rejected "browser_wait_value_unexpected" "value" "document_ready 不接受 value")
   else
     fail_if (is_none_or value is_empty_str)
       (bf_rejected "browser_wait_value_missing" "value" "该 wait condition 需要非空 value")) ;;
  fail_if (is_some_and value (λ value, MAX_INTERACTION_VALUE_CHARS <? chars_count value))
    (bf_rejected "browser_wait_value_too_large" "value"
       ("wait value 不得超过 " ++ show_N MAX_INTERACTION_VALUE_CHARS ++ " 字符")) ;;
  let timeout_ms := optional_u64 input "timeout_ms" DEFAULT_WAIT_MILLIS in
  fail_if ((timeout_ms =? 0) || (MAX_WAIT_MILLIS <? timeout_ms))
    (bf_rejected "browser_wait_timeout_invalid" "timeout_ms"
       ("timeout_ms 必须为 1..=" ++ show_N MAX_WAIT_MILLIS)) ;;
  mret (Wait condition value timeout_ms).

Definition parse_scroll (input : Value) : result BrowserFailure BrowserInteractRequest :=
  text ← required_arg input "direction" "browser_scroll_direction_missing";
  direction ← ok_or (parse_direction text)
    (bf_rejected "browser_scroll_direction_denied" "direction" "direction 必须是 up/down");
  let amount := optional_u64 input "amount" 600 in
  fail_if ((amount =? 0) || (MAX_SCROLL_AMOUNT <? amount))
    (bf_rejected "browser_scroll_amount_invalid" "amount"
       ("amount 必须为 1..=" ++ show_N MAX_SCROLL_AMOUNT)) ;;
  element_ref ← parse_element_ref input;
  mret (Scroll element_ref direction amount).

Definition parse_tab_open (input : Value) : result BrowserFailure BrowserInteractRequest :=
  raw ← required_arg input "url" "browser_tab_url_missing";
  url ← match Url_parse raw with
        | Ok url => Ok url
        | Err error => Err (bf_rejected "browser_tab_url_invalid" "url" ("tab URL 解析失败：" ++ error))
        end;
  Origin_from_url url ;;
  mret (TabOpen url).

Definition credential_char (c : list ascii) : bool :=
  match c with [a] => is_ascii_alphanumeric a || is_byte 45 a || is_byte 95 a | _ => false end.
Definition parse_login (input : Value) : result BrowserFailure BrowserInteractRequest :=
  credential_ref ← required_arg input "credential_ref" "browser_credential_ref_missing";
  fail_if (is_empty_str credential_ref || (MAX_CREDENTIAL_REF_CHARS <? chars_count credential_ref)
           || negb (forallb credential_char (chars credential_ref)))
    (bf_rejected "browser_credential_ref_invalid" "credential_ref"
       "credential_ref 不是 Host 支持的有界 opaque label") ;;
  element_ref ← parse_element_ref input;
  mret (Login element_ref credential_ref).

Definition parse_promote (input : Value) : result BrowserFailure BrowserInteractRequest :=
  download_ref ← required_arg input "download_ref" "browser_download_ref_missing";
  fail_if (negb (str_len download_ref =? 37) || negb (starts_with "dref_" download_ref)
           || negb (all_hex_chars (after_prefix5 download_ref)))
    (bf_rejected "browser_download_ref_invalid" "download_ref"
       "download_ref 不是 Host 生成的 opaque download identity") ;;
  workspace_path ← parse_workspace_path input;
  mret (PromoteDownload download_ref workspace_path).

(** The actions, each with the fields it admits and its parser. *)
Definition element_request (f : string → BrowserInteractRequest) (input : Value)
    : result BrowserFailure BrowserInteractRequest :=
  element_ref ← parse_element_ref input; mret (f element_ref).
Definition page_request (f : string → BrowserInteractRequest) (input : Value)
    : result BrowserFailure BrowserInteractRequest :=
  page_ref ← parse_page_ref input; mret (f page_ref).
Definition parse_select (input : Value) : result BrowserFailure BrowserInteractRequest :=
  value ← parse_interaction_value input "browser_select_value_invalid";
  element_ref ← parse_element_ref input;
  mret (Select element_ref value).
Definition parse_upload (input : Value) : result BrowserFailure BrowserInteractRequest :=
  element_ref ← parse_element_ref input;
  workspace_path ← parse_workspace_path input;
  mret (Upload element_ref workspace_path).

Definition interact_actions
    : list (string * (list string * (Value → result BrowserFailure BrowserInteractRequest))) := [
  ("click", (["action"; "element_ref"], element_request Click));
  ("fill", (["action"; "element_ref"; "value"], parse_fill_request));
  ("press", (["action"; "element_ref"; "key"], parse_press));
  ("wait", (["action"; "condition"; "value"; "timeout_ms"], parse_wait));
  ("scroll", (["action"; "element_ref"; "direction"; "amount"], parse_scroll));
  ("select", (["action"; "element_ref"; "value"], parse_select));
  ("back", (["action"], λ _, Ok Back));
  ("tab_open", (["action"; "url"], parse_tab_open));
  ("tab_switch", (["action"; "page_ref"], page_request TabSwitch));
  ("tab_close", (["action"; "page_ref"], page_request TabClose));
  ("submit", (["action"; "element_ref"], element_request Submit));
  ("login", (["action"; "element_ref"; "credential_ref"], parse_login));
  ("upload", (["action"; "element_ref"; "workspace_path"], parse_upload));
  ("download", (["action"; "element_ref"], element_request Download));
  ("promote_download", (["action"; "download_ref"; "workspace_path"], parse_promote));
  ("session_status", (["action"], λ _, Ok SessionStatus));
  ("session_clear", (["action"], λ _, Ok SessionClear))
].

Definition allowed (fields : list string) (input : Value) : bool :=
  is_some_and (as_object input) (forallb (λ e, bool_decide (e.1 ∈ fields))).

Definition parse_interact_request (input : Value) : result BrowserFailure BrowserInteractRequest :=
  action ← required_arg input "action" "browser_action_missing";
  match find_first (λ a, a.1 ==? action) interact_actions with
  | Some (_, (fields, parse)) =>
    if allowed fields input then parse input
    else Err (bf_rejected "browser_action_arguments_invalid" "arguments"
                ("action " ++ action ++ " 的参数集合不精确"))
  | None => Err (bf_rejected "browser_action_denied" "action"
                   "action 不在 Host 固定 semantic interaction 集合中")
  end.

Definition parse_browser_interact_for_authorization (input : Value)
    : result string BrowserInteractRequest :=
  match parse_interact_request input with Ok r => Ok r | Err failure => Err (bf_message failure) end.

Definition preflight_browser_interact (input : Value) : option ToolOutcome :=
  match parse_interact_request input with
  | Ok _ => None
  | Err failure => Some (rejected_interact_outcome failure)
  end.

End browser_request.
