(* ===== verification/IpAddr.v ===== *)
(** Addresses of [std::net]: parsing and printing as the standard library does them, and the test
    for a public unicast address of [crates/tools/src/web_fetch.rs].

    The prefix test compares the network parts, and the addresses called public are exactly those
    outside the listed ranges. *)
From Stdlib Require Import Ascii String.
From S2P Require Import Prelude.
From S2P Require Import Text.
From S2P Require Import TextOps.
From S2P Require Import CommandSafety.

Open Scope string_scope.
Open Scope list_scope.
Open Scope N_scope.

(** An address is its number: [u32] for version 4, [u128] for version 6. *)
Inductive IpAddr := V4 (value : N) | V6 (value : N).
#[export] Instance IpAddr_eq_dec : EqDecision IpAddr.
Proof. solve_decision. Defined.

(** Flow label and scope of a version 6 socket address are not kept. *)
Record SocketAddr := mkSocketAddr { sa_ip : IpAddr; sa_port : N }.
#[export] Instance SocketAddr_eq_dec : EqDecision SocketAddr.
Proof. solve_decision. Defined.

Definition ipv4_of_octets (a b c d : N) : N := ((a * 256 + b) * 256 + c) * 256 + d.
Definition ipv6_of_segments (gs : list N) : N := fold_left (λ acc g, acc * 65536 + g) gs 0.

Definition octets (v : N) : list N :=
  [v / 16777216 mod 256; v / 65536 mod 256; v / 256 mod 256; v mod 256].
Definition segments (v : N) : list N :=
  (λ i, N.shiftr v (16 * (7 - i)) mod 65536) <$> [0; 1; 2; 3; 4; 5; 6; 7].

(** [Ipv6Addr::to_ipv4_mapped] *)
Definition to_ipv4_mapped (v : N) : option N :=
  match segments v with
  | [a; b; c; d; e; f; gh; ij] =>
    if (a =? 0) && (b =? 0) && (c =? 0) && (d =? 0) && (e =? 0) && (f =? 65535)
    then Some (gh * 65536 + ij) else None
  | _ => None
  end.

(** ** The parser of the standard library *)

(** [char::to_digit] *)
Definition to_digit (radix : N) (a : ascii) : option N :=
  let b := byte_val a in
  let v := if is_ascii_digit a then Some (b - 48)
           else if is_ascii_lowercase a then Some (b - 87)
           else if is_ascii_uppercase a then Some (b - 55) else None in
  match v with Some d => if d <? radix then Some d else None | None => None end.

(** The digits at the start of [l]; [None]: there are more than [left]. *)
Fixpoint read_digits (radix : N) (left : nat) (acc : N) (l : list ascii) {struct l}
    : option (N * list ascii) :=
  match l with
  | [] => Some (acc, [])
  | a :: l' =>
    match to_digit radix a with
    | None => Some (acc, l)
    | Some d => match left with
                | O => None
                | S left' => read_digits radix left' (acc * radix + d) l'
                end
    end
  end.

Definition read_number (radix : N) (max_digits : nat) (allow_zero_prefix : bool) (bound : N)
    (l : list ascii) : option (N * list ascii) :=
  match l with
  | [] => None
  | a :: _ =>
    if is_none (to_digit radix a) then None
    else
      '(value, rest) ← read_digits radix max_digits 0 l;
      if negb allow_zero_prefix && is_byte 48 a && (1 <? length l - length rest)%nat then None
      else if value <=? bound then Some (value, rest) else None
  end.

Definition read_given_char (b : N) (l : list ascii) : option (list ascii) :=
  match l with a :: l' => if is_byte b a then Some l' else None | [] => None end.

(** The separator stands before every item but the first. *)
Definition read_separator {A} (sep : N) (index : nat) (inner : list ascii → option (A * list ascii))
    (l : list ascii) : option (A * list ascii) :=
  match index with
  | O => inner l
  | S _ => l' ← read_given_char sep l; inner l'
  end.

Definition read_octet (i : nat) (l : list ascii) : option (N * list ascii) :=
  read_separator 46 i (read_number 10 3 false 255) l.
Definition read_ipv4_addr (l : list ascii) : option (N * list ascii) :=
  '(a, l) ← read_octet 0 l;
  '(b, l) ← read_octet 1 l;
  '(c, l) ← read_octet 2 l;
  '(d, l) ← read_octet 3 l;
  Some (ipv4_of_octets a b c d, l).

(** [read_groups]: at most [remaining] groups from index [i] on, and whether a trailing version 4
    address was read, which takes two groups. *)
Fixpoint read_groups (remaining i : nat) (l : list ascii) : list N * bool * list ascii :=
  match remaining with
  | O => ([], false, l)
  | S remaining' =>
    match (match remaining' with O => None | S _ => read_separator 58 i read_ipv4_addr l end) with
    | Some (v4, l') => ([v4 / 65536; v4 mod 65536], true, l')
    | None =>
      match read_separator 58 i (read_number 16 4 true 65535) l with
      | Some (g, l') => let '(gs, ipv4, rest) := read_groups remaining' (S i) l' in (g :: gs, ipv4, rest)
      | None => ([], false, l)
      end
    end
  end.

Definition read_ipv6_addr (l : list ascii) : option (N * list ascii) :=
  let '(head, head_ipv4, l) := read_groups 8 0 l in
  if (length head =? 8)%nat then Some (ipv6_of_segments head, l)
  else if head_ipv4 then None
  else
    l ← read_given_char 58 l;
    l ← read_given_char 58 l;
    let '(tail, _, l) := read_groups (7 - length head) 0 l in
    Some (ipv6_of_segments (head ++ repeat 0 (8 - length head - length tail) ++ tail), l).

Definition read_ip_addr (l : list ascii) : option (IpAddr * list ascii) :=
  match read_ipv4_addr l with
  | Some (v, l') => Some (V4 v, l')
  | None => '(v, l') ← read_ipv6_addr l; Some (V6 v, l')
  end.

(** [str::parse::<IpAddr>] *)
Definition parse_ip (s : string) : option IpAddr :=
  match read_ip_addr (bytes s) with Some (ip, []) => Some ip | _ => None end.

(** The literals of the tables of networks. *)
Definition literal_v4 (s : string) : N := match parse_ip s with Some (V4 v) => v | _ => 0 end.
Definition literal_v6 (s : string) : N := match parse_ip s with Some (V6 v) => v | _ => 0 end.

(** ** Printing *)

Definition display_ipv4 (v : N) : string := str_join "." (show_N <$> octets v).

Definition hex_digit (d : N) : string :=
  of_bytes [ascii_of_N (if d <? 10 then 48 + d else 87 + d)].
(** [{:x}] of a segment *)
Definition hex_segment (g : N) : string :=
  let digits := drop_while (N.eqb 0) ((λ i, N.shiftr g (4 * i) mod 16) <$> [3; 2; 1; 0]) in
  match digits with [] => "0" | _ => str_join "" (hex_digit <$> digits) end.

(** The longest run of zero segments, the first of several: its start and length. *)
Fixpoint longest_zeroes (i : nat) (current longest : nat * nat) (gs : list N) : nat * nat :=
  match gs with
  | [] => longest
  | g :: gs =>
    if g =? 0 then
      let current := (if (current.2 =? 0)%nat then i else current.1, S current.2) in
      longest_zeroes (S i) current (if (longest.2 <? current.2)%nat then current else longest) gs
    else longest_zeroes (S i) (0%nat, 0%nat) longest gs
  end.
Definition display_segments (gs : list N) : string := str_join ":" (hex_segment <$> gs).
Definition display_ipv6 (v : N) : string :=
  match to_ipv4_mapped v with
  | Some v4 => ("::ffff:" ++ display_ipv4 v4)%string
  | None =>
    let gs := segments v in
    let '(start, count) := longest_zeroes 0 (0%nat, 0%nat) (0%nat, 0%nat) gs in
    if (1 <? count)%nat
    then (display_segments (take start gs) ++ "::" ++ display_segments (drop (start + count) gs))%string
    else display_segments gs
  end.
Definition display_ip (ip : IpAddr) : string :=
  match ip with V4 v => display_ipv4 v | V6 v => display_ipv6 v end.
Definition display_socket (a : SocketAddr) : string :=
  match sa_ip a with
  | V4 v => (display_ipv4 v ++ ":" ++ show_N (sa_port a))%string
  | V6 v => ("[" ++ display_ipv6 v ++ "]:" ++ show_N (sa_port a))%string
  end.

(** The derived order: version 4 before version 6, then the address, then the port. *)
Definition socket_key (a : SocketAddr) : N * N * N :=
  match sa_ip a with V4 v => (0, v, sa_port a) | V6 v => (1, v, sa_port a) end.
Definition socket_leb (a b : SocketAddr) : bool :=
  let '(x1, x2, x3) := socket_key a in
  let '(y1, y2, y3) := socket_key b in
  (x1 <? y1) || ((x1 =? y1) && ((x2 <? y2) || ((x2 =? y2) && (x3 <=? y3)))).
Definition socket_le (a b : SocketAddr) : Prop := socket_leb a b = true.
#[global] Instance socket_le_dec : RelDecision socket_le.
Proof. intros a b. unfold socket_le. apply _. Defined.

(** [Vec::dedup]: of equal neighbours the first stays. *)
Definition dedup_adjacent {A} `{EqDecision A} (l : list A) : list A := dedup_by (λ a, a) l.

(** ** Public addresses *)

Definition U128_MAX : N := 340282366920938463463374607431768211455.

(** The bits of the network part; shifting out of the type is not possible as [prefix] is not 0. *)
Definition ipv4_in_prefix (value network prefix : N) : bool :=
  let mask := if prefix =? 0 then 0 else N.land (N.shiftl U32_MAX (32 - prefix)) U32_MAX in
  N.land value mask =? N.land network mask.
Definition ipv6_in_prefix (value network prefix : N) : bool :=
  let mask := if prefix =? 0 then 0 else N.land (N.shiftl U128_MAX (128 - prefix)) U128_MAX in
  N.land value mask =? N.land network mask.

Definition DENIED_V4 : list (string * N) := [
  ("0.0.0.0", 8); ("10.0.0.0", 8); ("100.64.0.0", 10); ("127.0.0.0", 8); ("169.254.0.0", 16);
  ("172.16.0.0", 12); ("192.0.0.0", 24); ("192.0.2.0", 24); ("192.88.99.0", 24);
  ("192.168.0.0", 16); ("198.18.0.0", 15); ("198.51.100.0", 24); ("203.0.113.0", 24);
  ("224.0.0.0", 4); ("240.0.0.0", 4)
].
Definition is_public_ipv4 (value : N) : bool :=
  negb (existsb (λ '(network, prefix), ipv4_in_prefix value (literal_v4 network) prefix) DENIED_V4).

Definition DENIED_V6 : list (string * N) := [
  ("2001::", 32); ("2001:2::", 48); ("2001:10::", 28); ("2001:20::", 28); ("2001:db8::", 32);
  ("2002::", 16)
].
Definition is_public_ipv6 (value : N) : bool :=
  match to_ipv4_mapped value with
  | Some mapped => is_public_ipv4 mapped
  | None =>
    ipv6_in_prefix value (literal_v6 "2000::") 3
    && negb (existsb (λ '(network, prefix), ipv6_in_prefix value (literal_v6 network) prefix) DENIED_V6)
  end.

Definition is_public_ip (address : IpAddr) : bool :=
  match address with V4 v => is_public_ipv4 v | V6 v => is_public_ipv6 v end.

(** ** Prefixes *)

Lemma mask_bits w k i :
  N.testbit (N.land (N.shiftl (N.ones w) k) (N.ones w)) i = (k <=? i) && (i <? w).
Proof.
  rewrite N.land_spec. destruct (N.leb_spec k i) as [Hki|Hki]; cbn [andb].
  - rewrite N.shiftl_spec_high' by done. destruct (N.ltb_spec i w).
    + by rewrite !N.ones_spec_low by lia.
    + by rewrite andb_comm, N.ones_spec_high by lia.
  - by rewrite N.shiftl_spec_low by done.
Qed.

(** The bits of the mask keep the network part. *)
Lemma masked_value w k v :
  v < 2 ^ w → N.land v (N.land (N.shiftl (N.ones w) k) (N.ones w)) = N.shiftl (N.shiftr v k) k.
Proof.
  intros Hv. apply N.bits_inj. intros i. rewrite N.land_spec, mask_bits.
  destruct (N.leb_spec k i) as [Hki|Hki].
  - rewrite N.shiftl_spec_high', N.shiftr_spec' by done.
    replace (i - k + k) with i by lia. destruct (N.ltb_spec i w); cbn; [by rewrite andb_true_r|].
    rewrite andb_false_r. symmetry. pose proof (N.mod_pow2_bits_high v w i ltac:(lia)) as Hb.
    by rewrite N.mod_small in Hb.
  - cbn. by rewrite N.shiftl_spec_low, andb_false_r.
Qed.

Lemma masked_eq w k v n :
  v < 2 ^ w → n < 2 ^ w →
  (N.land v (N.land (N.shiftl (N.ones w) k) (N.ones w)) =? N.land n (N.land (N.shiftl (N.ones w) k) (N.ones w)))
  = (v / 2 ^ k =? n / 2 ^ k).
Proof.
  intros Hv Hn. rewrite !masked_value by done. rewrite <-!N.shiftr_div_pow2.
  apply eq_true_iff_eq. rewrite !N.eqb_eq. split; [|congruence].
  intros Heq%(f_equal (λ x, N.shiftr x k)). cbv beta in Heq.
  by rewrite !N.shiftr_shiftl_l, !N.sub_diag, !N.shiftl_0_r in Heq by lia.
Qed.

Lemma ipv4_in_prefix_div v n p :
  v < 2 ^ 32 → n < 2 ^ 32 → 0 < p → ipv4_in_prefix v n p = (v / 2 ^ (32 - p) =? n / 2 ^ (32 - p)).
Proof.
  intros Hv Hn Hp. unfold ipv4_in_prefix. rewrite (proj2 (N.eqb_neq p 0)) by lia.
  change U32_MAX with (N.ones 32). by apply masked_eq.
Qed.
Lemma ipv6_in_prefix_div v n p :
  v < 2 ^ 128 → n < 2 ^ 128 → 0 < p → ipv6_in_prefix v n p = (v / 2 ^ (128 - p) =? n / 2 ^ (128 - p)).
Proof.
  intros Hv Hn Hp. unfold ipv6_in_prefix. rewrite (proj2 (N.eqb_neq p 0)) by lia.
  change U128_MAX with (N.ones 128). by apply masked_eq.
Qed.

(** ** The denied ranges *)

(** The ranges of version 4 that are not public unicast: this network, private use, shared address
    space, loopback, link-local, private use, protocol assignments, documentation, 6to4 relays,
    private use, benchmarking, documentation twice, multicast, reserved. *)
Definition reserved_v4 (a b c : N) : Prop :=
  a = 0 ∨ a = 10 ∨ (a = 100 ∧ 64 ≤ b < 128) ∨ a = 127 ∨ (a = 169 ∧ b = 254) ∨ (a = 172 ∧ 16 ≤ b < 32)
  ∨ (a = 192 ∧ b = 0 ∧ c = 0) ∨ (a = 192 ∧ b = 0 ∧ c = 2) ∨ (a = 192 ∧ b = 88 ∧ c = 99)
  ∨ (a = 192 ∧ b = 168) ∨ (a = 198 ∧ (b = 18 ∨ b = 19)) ∨ (a = 198 ∧ b = 51 ∧ c = 100)
  ∨ (a = 203 ∧ b = 0 ∧ c = 113) ∨ 224 ≤ a < 240 ∨ 240 ≤ a.

(** The network parts of an address, by its octets. *)
Lemma network_parts a b c d :
  a < 256 → b < 256 → c < 256 → d < 256 →
  let v := ipv4_of_octets a b c d in
  v / 2 ^ 28 = a / 16 ∧ v / 2 ^ 24 = a ∧ v / 2 ^ 22 = a * 4 + b / 64 ∧ v / 2 ^ 20 = a * 16 + b / 16
  ∧ v / 2 ^ 17 = a * 128 + b / 2 ∧ v / 2 ^ 16 = a * 256 + b ∧ v / 2 ^ 8 = (a * 256 + b) * 256 + c.
Proof.
  intros Ha Hb Hc Hd. cbv zeta. unfold ipv4_of_octets.
  assert (H8 : (((a * 256 + b) * 256 + c) * 256 + d) / 2 ^ 8 = (a * 256 + b) * 256 + c)
    by (symmetry; apply (N.div_unique _ _ _ d); lia).
  assert (H16 : ((a * 256 + b) * 256 + c) / 2 ^ 8 = a * 256 + b)
    by (symmetry; apply (N.div_unique _ _ _ c); lia).
  assert (Hsplit : ∀ k, 8 ≤ k → ∀ x, x / 2 ^ k = x / 2 ^ 8 / 2 ^ (k - 8)).
  { intros k Hk x. rewrite N.Div0.div_div, <-N.pow_add_r. do 2 f_equal. lia. }
  assert (Hbits : ∀ j, j ≤ 8 → (a * 256 + b) / 2 ^ j = a * 2 ^ (8 - j) + b / 2 ^ j).
  { intros j Hj. replace 256 with (2 ^ (8 - j) * 2 ^ j) by (rewrite <-N.pow_add_r; by replace (8 - j + j) with 8 by lia).
    rewrite N.mul_assoc, N.div_add_l by (by apply N.pow_nonzero). done. }
  assert (H : ∀ k, 16 ≤ k → (((a * 256 + b) * 256 + c) * 256 + d) / 2 ^ k = (a * 256 + b) / 2 ^ (k - 16)).
  { intros k Hk. rewrite Hsplit, H8, Hsplit, H16 by lia. do 2 f_equal. lia. }
  rewrite !H, H8 by lia. change (28 - 16) with 12. change (24 - 16) with 8. change (22 - 16) with 6.
  change (20 - 16) with 4. change (17 - 16) with 1. change (16 - 16) with 0.
  rewrite (Hsplit 12), !Hbits by lia. change (12 - 8) with 4. change (2 ^ (8 - 8)) with 1.
  rewrite (N.div_small b (2 ^ 8)), N.add_0_r, N.mul_1_r, N.div_1_r by done. done.
Qed.

(** Two numbers with the same last digit and the same digits before it. *)
Lemma split_digit m a r Q R : r < m → R < m → a * m + r = Q * m + R ↔ a = Q ∧ r = R.
Proof. intros Hr HR. split; [|by intros [-> ->]]. intros H. assert (a = Q) as -> by nia. lia. Qed.
Lemma interval v k c : 0 < k → v / k = c ↔ c * k ≤ v < (c + 1) * k.
Proof.
  intros Hk. split.
  - intros <-. pose proof (N.mul_div_le v k ltac:(lia)).
    pose proof (N.mul_succ_div_gt v k ltac:(lia)). lia.
  - intros [Hlo Hhi]. symmetry. apply (N.div_unique v k c (v - c * k)); lia.
Qed.

Lemma is_public_ipv4_spec a b c d :
  a < 256 → b < 256 → c < 256 → d < 256 →
  is_public_ipv4 (ipv4_of_octets a b c d) = true ↔ ¬ reserved_v4 a b c.
Proof.
  intros Ha Hb Hc Hd. destruct (network_parts a b c d Ha Hb Hc Hd) as (H28 & H24 & H22 & H20 & H17 & H16 & H8).
  set (v := ipv4_of_octets a b c d) in *.
  assert (Hv : v < 2 ^ 32) by (unfold v, ipv4_of_octets; lia).
  unfold is_public_ipv4. rewrite negb_true_iff, <-not_true_iff_false. apply not_iff_compat.
  assert (Hpre : ∀ s p, literal_v4 s < 2 ^ 32 → 0 < p →
    ipv4_in_prefix v (literal_v4 s) p = true ↔ v / 2 ^ (32 - p) = literal_v4 s / 2 ^ (32 - p)).
  { intros s p Hs Hp. by rewrite ipv4_in_prefix_div, N.eqb_eq. }
  cbn [DENIED_V4 existsb]. rewrite !orb_true_iff.
  repeat (rewrite Hpre; [|vm_compute; reflexivity|vm_compute; reflexivity]). clear Hpre.
  repeat match goal with |- context [literal_v4 ?s / ?k] =>
    let x := eval vm_compute in (literal_v4 s / k) in change (literal_v4 s / k) with x end.
  repeat match goal with |- context [32 - ?k] =>
    let x := eval vm_compute in (32 - k) in change (32 - k) with x end.
  rewrite ?H28, ?H24, ?H22, ?H20, ?H17, ?H16, ?H8. unfold reserved_v4. clearbody v.
  clear H28 H24 H22 H20 H17 H16 H8 Hv v.
  change 401 with (100 * 4 + 1). change 43518 with (169 * 256 + 254). change 2753 with (172 * 16 + 1).
  change 12582912 with ((192 * 256 + 0) * 256 + 0). change 12582914 with ((192 * 256 + 0) * 256 + 2).
  change 12605539 with ((192 * 256 + 88) * 256 + 99). change 49320 with (192 * 256 + 168).
  change 25353 with (198 * 128 + 9). change 12989284 with ((198 * 256 + 51) * 256 + 100).
  change 13303921 with ((203 * 256 + 0) * 256 + 113).
  rewrite !(split_digit 256), (split_digit 4), (split_digit 16), (split_digit 128)
    by (done || (apply N.Div0.div_lt_upper_bound; done)).
  rewrite (interval b 64 1), (interval b 16 1), (interval b 2 9), (interval a 16 14), (interval a 16 15) by done.
  assert (b = 18 ∨ b = 19 ↔ 9 * 2 ≤ b < (9 + 1) * 2) as -> by lia.
  assert (240 ≤ a ↔ 15 * 16 ≤ a < (15 + 1) * 16) as -> by lia.
  change (1 * 64) with 64. change ((1 + 1) * 64) with 128. change (1 * 16) with 16.
  change ((1 + 1) * 16) with 32. change (14 * 16) with 224. change ((14 + 1) * 16) with 240.
  assert (false = true ↔ False) as -> by done. tauto.
Qed.

(** ** Version 6 *)

(** A last digit falls away. *)
Lemma drop_segment x g k : g < 65536 → (x * 65536 + g) / 2 ^ (16 + k) = x / 2 ^ k.
Proof.
  intros Hg. rewrite N.pow_add_r, <-N.Div0.div_div. f_equal. symmetry.
  apply (N.div_unique _ _ _ g); [done|]. change (2 ^ 16) with 65536. lia.
Qed.
Lemma last_segment x g : g < 65536 → (x * 65536 + g) mod 65536 = g.
Proof. intros Hg. rewrite N.add_comm, N.Div0.mod_add. by apply N.mod_small. Qed.

Section segments.
Context (g0 g1 g2 g3 g4 g5 g6 g7 : N).
Context (H0 : g0 < 65536) (H1 : g1 < 65536) (H2 : g2 < 65536) (H3 : g3 < 65536).
Context (H4 : g4 < 65536) (H5 : g5 < 65536) (H6 : g6 < 65536) (H7 : g7 < 65536).
Let v : N := ipv6_of_segments [g0; g1; g2; g3; g4; g5; g6; g7].

Lemma segment_parts :
  v / 2 ^ 125 = g0 / 2 ^ 13 ∧ v / 2 ^ 112 = g0 ∧ v / 2 ^ 100 = (g0 * 65536 + g1) / 2 ^ 4
  ∧ v / 2 ^ 96 = g0 * 65536 + g1 ∧ v / 2 ^ 80 = (g0 * 65536 + g1) * 65536 + g2.
Proof using H1 H2 H3 H4 H5 H6 H7.
  unfold v, ipv6_of_segments. cbn [fold_left]. rewrite N.mul_0_l, N.add_0_l.
  change 125 with (16 + (16 + (16 + (16 + (16 + (16 + (16 + 13))))))).
  change 112 with (16 + (16 + (16 + (16 + (16 + (16 + (16 + 0))))))).
  change 100 with (16 + (16 + (16 + (16 + (16 + (16 + 4)))))).
  change 96 with (16 + (16 + (16 + (16 + (16 + (16 + 0)))))).
  change 80 with (16 + (16 + (16 + (16 + (16 + 0))))).
  rewrite !drop_segment, !N.pow_0_r, !N.div_1_r by done. done.
Qed.

Lemma segments_of_segments : segments v = [g0; g1; g2; g3; g4; g5; g6; g7].
Proof using H0 H1 H2 H3 H4 H5 H6 H7.
  unfold segments, v, ipv6_of_segments. cbn [fold_left fmap list_fmap]. rewrite N.mul_0_l, N.add_0_l.
  change (16 * (7 - 0)) with (16 + (16 + (16 + (16 + (16 + (16 + (16 + 0))))))).
  change (16 * (7 - 1)) with (16 + (16 + (16 + (16 + (16 + (16 + 0)))))).
  change (16 * (7 - 2)) with (16 + (16 + (16 + (16 + (16 + 0))))).
  change (16 * (7 - 3)) with (16 + (16 + (16 + (16 + 0)))).
  change (16 * (7 - 4)) with (16 + (16 + (16 + 0))).
  change (16 * (7 - 5)) with (16 + (16 + 0)).
  change (16 * (7 - 6)) with (16 + 0). change (16 * (7 - 7)) with 0.
  rewrite !N.shiftr_div_pow2, !drop_segment, !N.pow_0_r, !N.div_1_r, !last_segment by done.
  by rewrite N.mod_small.
Qed.

(** Inside the global unicast block: Teredo, benchmarking, the two ORCHID blocks, documentation
    and 6to4. *)
Definition reserved_v6 (g0 g1 g2 : N) : Prop :=
  (g0 = 0x2001 ∧ (g1 = 0 ∨ (g1 = 2 ∧ g2 = 0) ∨ 16 ≤ g1 < 48 ∨ g1 = 0xdb8)) ∨ g0 = 0x2002.

Lemma v_bound : v < 2 ^ 128.
Proof using H0 H1 H2 H3 H4 H5 H6 H7.
  unfold v, ipv6_of_segments. cbn [fold_left]. rewrite N.mul_0_l, N.add_0_l.
  change (2 ^ 128) with ((((((((65535 * 65536 + 65535) * 65536 + 65535) * 65536 + 65535) * 65536
    + 65535) * 65536 + 65535) * 65536 + 65535) * 65536 + 65535) + 1). lia.
Qed.

Lemma is_public_ipv6_spec :
  is_public_ipv6 v = true ↔
  (g0 = 0 ∧ g1 = 0 ∧ g2 = 0 ∧ g3 = 0 ∧ g4 = 0 ∧ g5 = 65535 ∧ is_public_ipv4 (g6 * 65536 + g7) = true)
  ∨ (0x2000 ≤ g0 < 0x4000 ∧ ¬ reserved_v6 g0 g1 g2).
Proof using H0 H1 H2 H3 H4 H5 H6 H7.
  unfold is_public_ipv6, to_ipv4_mapped. rewrite segments_of_segments.
  destruct (_ && (g5 =? 65535)) eqn:Hmapped.
  { rewrite !andb_true_iff, !N.eqb_eq in Hmapped. destruct Hmapped as [[[[[-> ->] ->] ->] ->] ->].
    split; [by left|]. intros [(_ & _ & _ & _ & _ & _ & Hp)|[Hr _]]; [done|lia]. }
  destruct segment_parts as (H125 & H112 & H100 & H96 & H80). pose proof v_bound as Hv. clearbody v.
  assert (Hpre : ∀ s p, literal_v6 s < 2 ^ 128 → 0 < p →
    ipv6_in_prefix v (literal_v6 s) p = true ↔ v / 2 ^ (128 - p) = literal_v6 s / 2 ^ (128 - p)).
  { intros s p Hs Hp. by rewrite ipv6_in_prefix_div, N.eqb_eq. }
  rewrite andb_true_iff, negb_true_iff, <-not_true_iff_false. cbn [DENIED_V6 existsb]. rewrite !orb_true_iff.
  repeat (rewrite Hpre; [|vm_compute; reflexivity|vm_compute; reflexivity]). clear Hpre.
  repeat match goal with |- context [literal_v6 ?s / ?k] =>
    let x := eval vm_compute in (literal_v6 s / k) in change (literal_v6 s / k) with x end.
  repeat match goal with |- context [128 - ?k] =>
    let x := eval vm_compute in (128 - k) in change (128 - k) with x end.
  rewrite H125, H112, H100, H96, H80.
  change 536936448 with (0x2001 * 65536 + 0). change 536939960 with (0x2001 * 65536 + 0xdb8).
  change 35188667187200 with ((0x2001 * 65536 + 2) * 65536 + 0). change (2 ^ 13) with 8192.
  change (2 ^ 4) with 16. rewrite !interval by done.
  rewrite !(split_digit 65536) by done.
  assert (33558529 * 16 ≤ g0 * 65536 + g1 < (33558529 + 1) * 16 ↔ g0 = 0x2001 ∧ 16 ≤ g1 < 32) as -> by lia.
  assert (33558530 * 16 ≤ g0 * 65536 + g1 < (33558530 + 1) * 16 ↔ g0 = 0x2001 ∧ 32 ≤ g1 < 48) as -> by lia.
  assert (Hnot : ¬ (g0 = 0 ∧ g1 = 0 ∧ g2 = 0 ∧ g3 = 0 ∧ g4 = 0 ∧ g5 = 65535)).
  { intros (-> & -> & -> & -> & -> & ->). done. }
  unfold reserved_v6. split.
  - intros [Hr Hn]. right. split; [lia|]. intros Hres. apply Hn.
    destruct Hres as [[-> Hg]| ->]; [|tauto]. destruct Hg as [->|[[-> ->]|[Hg| ->]]]; try tauto. lia.
  - intros [Hm|[Hr Hn]]; [tauto|]. split; [lia|]. intros Hres. apply Hn. intuition (subst; auto; lia).
Qed.
End segments.

(** ** Parsing what was printed *)

(** No digit of the base is next. *)
Definition stops (radix : N) (l : list ascii) : Prop :=
  match l with a :: _ => to_digit radix a = None | [] => True end.

Lemma read_digits_app radix left acc ds v l :
  read_digits radix left acc ds = Some (v, []) → stops radix l →
  read_digits radix left acc (ds ++ l) = Some (v, l).
Proof.
  revert left acc. induction ds as [|a ds IH]; intros left acc; cbn.
  - intros [= ->] Hl. destruct l as [|b l]; [done|]. cbn in *. by rewrite Hl.
  - destruct (to_digit radix a); [|done]. destruct left; [done|]. apply IH.
Qed.

Lemma read_number_app radix m z bound ds v l :
  read_number radix m z bound ds = Some (v, []) → stops radix l →
  read_number radix m z bound (ds ++ l) = Some (v, l).
Proof.
  unfold read_number. destruct ds as [|a ds]; [done|]. cbn [app].
  destruct (is_none _); [done|]. intros H Hl.
  apply bind_Some in H as ([w rest] & Hd & H).
  assert (rest = []) as -> by (repeat case_match; simplify_eq; done).
  rewrite (read_digits_app _ _ _ (a :: ds) w l) by done. cbn [mbind option_bind].
  assert ((length (a :: ds ++ l) - length l)%nat = length (a :: ds)) as ->
    by (cbn; rewrite length_app; lia).
  assert ((length (a :: ds) - length (@nil ascii))%nat = length (a :: ds)) as Heq by (cbn; lia).
  rewrite Heq in H. repeat case_match; simplify_eq; done.
Qed.

Lemma read_octet_shown n :
  n < 256 → read_number 10 3 false 255 (bytes (show_N n)) = Some (n, []).
Proof.
  assert (Hall : forallb (λ i, bool_decide
    (read_number 10 3 false 255 (bytes (show_N (N.of_nat i))) = Some (N.of_nat i, []))) (seq 0 256) = true)
    by (vm_compute; reflexivity).
  rewrite forallb_forall in Hall. intros Hn. specialize (Hall (N.to_nat n)).
  rewrite N2Nat.id in Hall. eapply bool_decide_eq_true_1, Hall, in_seq. lia.
Qed.

Lemma octets_of_octets a b c d :
  a < 256 → b < 256 → c < 256 → d < 256 → octets (ipv4_of_octets a b c d) = [a; b; c; d].
Proof.
  intros Ha Hb Hc Hd. destruct (network_parts a b c d Ha Hb Hc Hd) as (_ & H24 & _ & _ & _ & H16 & H8).
  unfold octets. change 16777216 with (2 ^ 24). change 65536 with (2 ^ 16). change (_ / 256) with (ipv4_of_octets a b c d / 2 ^ 8).
  rewrite H24, H16, H8. unfold ipv4_of_octets.
  assert (Hlast : ∀ x y, y < 256 → (x * 256 + y) mod 256 = y).
  { intros x y Hy. rewrite N.add_comm, N.Div0.mod_add. by apply N.mod_small. }
  rewrite !Hlast, N.mod_small by done. done.
Qed.

Lemma parse_displayed_ipv4 a b c d :
  a < 256 → b < 256 → c < 256 → d < 256 →
  parse_ip (display_ip (V4 (ipv4_of_octets a b c d))) = Some (V4 (ipv4_of_octets a b c d)).
Proof.
  intros Ha Hb Hc Hd. unfold parse_ip. cbn [display_ip]. unfold display_ipv4.
  rewrite octets_of_octets by done. cbn [fmap list_fmap str_join]. rewrite !bytes_app.
  change (bytes ".") with [ascii_of_N 46].
  unfold read_ip_addr, read_ipv4_addr, read_octet. cbn [read_separator].
  rewrite (read_number_app _ _ _ _ _ a) by (by apply read_octet_shown || done).
  cbn [mbind option_bind app].
  assert (Hsep : ∀ l, read_given_char 46 (ascii_of_N 46 :: l) = Some l) by reflexivity.
  rewrite Hsep. cbn [mbind option_bind].
  rewrite (read_number_app _ _ _ _ _ b) by (by apply read_octet_shown || done). cbn [mbind option_bind]. rewrite Hsep.
  cbn [mbind option_bind].
  rewrite (read_number_app _ _ _ _ _ c) by (by apply read_octet_shown || done). cbn [mbind option_bind]. rewrite Hsep.
  cbn [mbind option_bind]. rewrite read_octet_shown by done. reflexivity.
Qed.

(** The bit masks of the address test mean what their tables say: an IPv4 address is public
    exactly when no special-purpose network contains it, an IPv6 address exactly when it maps a
    public IPv4 address or is global unicast outside the special-purpose blocks; and the text
    written for an IPv4 address is read back as that address. *)
Theorem public_address_test_is_exact :
  (∀ a b c d, a < 256 → b < 256 → c < 256 → d < 256 →
     (is_public_ip (V4 (ipv4_of_octets a b c d)) = true ↔ ¬ reserved_v4 a b c)
     ∧ parse_ip (display_ip (V4 (ipv4_of_octets a b c d))) = Some (V4 (ipv4_of_octets a b c d)))
  ∧ (∀ gs g0 g1 g2 g3 g4 g5 g6 g7, gs = [g0; g1; g2; g3; g4; g5; g6; g7] → Forall (λ g, g < 65536) gs →
     is_public_ip (V6 (ipv6_of_segments gs)) = true ↔
       (take 6 gs = [0; 0; 0; 0; 0; 65535] ∧ is_public_ip (V4 (g6 * 65536 + g7)) = true)
       ∨ (0x2000 ≤ g0 < 0x4000 ∧ ¬ reserved_v6 g0 g1 g2)).
Proof.
  split.
  - intros a b c d Ha Hb Hc Hd. split; [by apply is_public_ipv4_spec|by apply parse_displayed_ipv4].
  - intros gs g0 g1 g2 g3 g4 g5 g6 g7 -> Hg. repeat (apply Forall_cons in Hg as [? Hg]). cbn [is_public_ip].
    rewrite (is_public_ipv6_spec g0 g1 g2 g3 g4 g5 g6 g7) by done. cbn [take]. split.
    + intros [(-> & -> & -> & -> & -> & -> & Hp)|Hr]; [by left|by right].
    + intros [[Heq Hp]|Hr]; [left; by injection Heq as -> -> -> -> -> ->|by right].
Qed.
