(* ===== verification/WebUrl.v ===== *)
(** The target policy of web requests ([crates/tools/src/web_fetch.rs]): the transport a fetch goes
    through, its failures, and the URLs and addresses it may go to. *)
From Stdlib Require Import Ascii String.
From S2P Require Import Prelude.
From S2P Require Import Text.
From S2P Require Import TextOps.
From S2P Require Import Protocol.
From S2P Require Import CommandSafety.
From S2P Require Import BrowserRequest.
From S2P Require Import IpAddr.

Open Scope string_scope.
Open Scope N_scope.

(** The operations of the [url] crate a fetch needs besides those of [UrlLib]. *)
Class UrlEdit `{UrlLib} := {
  url_join : Url → string → result string Url;
  url_without_fragment : Url → Url;
}.

Definition MAX_URL_CHARS : N := 4096.
Definition MAX_REDIRECTS : N := 5.
Definition MAX_RESPONSE_BYTES : N := 1048576.
Definition MAX_DECOMPRESSED_BYTES : N := 2097152.

(** ** Transport *)

Inductive WebTransportScheme := Http | Https.
#[export] Instance WebTransportScheme_eq_dec : EqDecision WebTransportScheme.
Proof. solve_decision. Defined.

Definition scheme_str (s : WebTransportScheme) : string := match s with Http => "http" | Https => "https" end.
Definition final_security (s : WebTransportScheme) : string :=
  match s with Http => "plaintext" | Https => "tls_authenticated" end.

Record TransportState := mkTransportState {
  secure_transport_seen : bool;
  plaintext_exposed : bool;
  request_started : bool;
  transport_upgraded : bool;
  redirect_count : N;
}.

Definition TransportState_initial (scheme : WebTransportScheme) : TransportState :=
  mkTransportState (scheme ==? Https) false false false 0.

Definition mark_request (scheme : WebTransportScheme) (t : TransportState) : TransportState :=
  mkTransportState (secure_transport_seen t) (if scheme ==? Http then true else plaintext_exposed t)
    true (transport_upgraded t) (redirect_count t).

(** ** Failures *)

Section failures.
Context `{UrlLib}.

Record FetchFailure := mkFetchFailure {
  ff_code : string;
  ff_stage : string;
  ff_message : string;
  ff_final_url : option string;
  ff_status : option N;
  ff_transport_state : option TransportState;
  ff_transport : bool;
  ff_retry : ToolRetryDisposition;
}.

Definition ff_rejected (code stage message : string) : FetchFailure :=
  mkFetchFailure code stage message None None None false RetryNotRetryable.
Definition ff_operation (code stage message : string) : FetchFailure :=
  mkFetchFailure code stage message None None None false RetryNotRetryable.
Definition ff_transport_failure (code stage message : string) : FetchFailure :=
  mkFetchFailure code stage message None None None true RetrySafe.

Definition at_url (url : Url) (t : TransportState) (f : FetchFailure) : FetchFailure :=
  mkFetchFailure (ff_code f) (ff_stage f) (ff_message f) (Some (url_as_str url)) (ff_status f) (Some t)
    (ff_transport f) (ff_retry f).
Definition with_status (status : N) (f : FetchFailure) : FetchFailure :=
  mkFetchFailure (ff_code f) (ff_stage f) (ff_message f) (ff_final_url f) (Some status)
    (ff_transport_state f) (ff_transport f) (ff_retry f).

Definition redirect_to (scheme : WebTransportScheme) (t : TransportState)
    : result FetchFailure TransportState :=
  if secure_transport_seen t && (scheme ==? Http) then
    Err (ff_operation "web_transport_downgrade" "redirect"
           "已进入 HTTPS 的 fetch trajectory 不允许重定向回 HTTP")
  else
    let upgrades := (scheme ==? Https) && negb (secure_transport_seen t) in
    Ok (mkTransportState (secure_transport_seen t || upgrades) (plaintext_exposed t) (request_started t)
          (transport_upgraded t || upgrades) (redirect_count t + 1)).

Definition trajectory (t : TransportState) : option string :=
  if request_started t
  then Some (if plaintext_exposed t then "plaintext_exposed" else "tls_only") else None.
Definition integrity (t : TransportState) : option string :=
  if request_started t
  then Some (if plaintext_exposed t then "unprotected" else "tls_protected") else None.

Definition WebTransportScheme_from_url (url : Url) : option WebTransportScheme :=
  if url_scheme url ==? "http" then Some Http
  else if url_scheme url ==? "https" then Some Https else None.

(** ** Hosts *)

Definition LOCAL_NAMES : list string := [
  "metadata.google.internal"; "instance-data.ec2.internal"; "metadata.azure.internal"; "metadata"
].
Definition normalized_host (host : string) : string := to_ascii_lowercase (trim_end_byte 46 host).
Definition ends_with (suffix s : string) : bool := is_prefix (reverse (bytes suffix)) (reverse (bytes s)).
Definition is_local_name (normalized : string) : bool :=
  (normalized ==? "localhost") || ends_with ".localhost" normalized
  || bool_decide (normalized ∈ LOCAL_NAMES).

Definition validate_url_host (url : Url) : result FetchFailure unit :=
  scheme ← ok_or (WebTransportScheme_from_url url)
    (ff_rejected "web_scheme_denied" "url" "只允许 public HTTP(S) URL");
  port ← ok_or (url_port_or_known_default url)
    (ff_rejected "web_port_missing" "url" "HTTP(S) URL 缺少有效端口");
  fail_if ((scheme ==? Http) && negb (port =? 80))
    (ff_rejected "web_http_port_denied" "url" "公开 HTTP 只允许默认端口 80") ;;
  fail_if (negb (is_empty_str (url_username url)) || is_some (url_password url))
    (ff_rejected "web_userinfo_denied" "url" "URL 不允许包含 userinfo、认证信息或密码") ;;
  host ← ok_or (url_host_str url)
    (ff_rejected "web_url_host_missing" "url" "HTTP(S) URL 缺少主机名");
  let normalized := normalized_host host in
  fail_if (is_local_name normalized)
    (ff_rejected "web_metadata_target_denied" "url" "URL 主机属于本地或 metadata 命名空间") ;;
  let ip_literal := default normalized (strip_brackets normalized) in
  fail_if (is_some_and (parse_ip ip_literal) (λ address, negb (is_public_ip address)))
    (ff_rejected "web_private_address_denied" "url" "URL IP 不是 public unicast 地址").

Definition validate_resolved_addresses (addresses : list SocketAddr) (expected_port : N)
    : result FetchFailure unit :=
  fail_if (match addresses with [] => true | _ => false end)
    (ff_transport_failure "web_dns_empty" "dns" "DNS 没有返回地址") ;;
  match find_first (λ a, negb (sa_port a =? expected_port) || negb (is_public_ip (sa_ip a))) addresses with
  | Some address => Err (ff_operation "web_dns_target_denied" "dns"
      ("DNS/连接目标 " ++ display_socket address ++ " 不是允许的 public HTTP(S) 地址"))
  | None => Ok tt
  end.

Context `{!UrlEdit}.

Definition parse_and_validate_url (requested : string) : result FetchFailure Url :=
  fail_if (negb (trim requested ==? requested) || (MAX_URL_CHARS <? chars_count requested))
    (ff_rejected "web_url_invalid" "url"
       ("URL 必须无首尾空白且不超过 " ++ show_N MAX_URL_CHARS ++ " 字符")) ;;
  url ← match Url_parse requested with
        | Ok url => Ok url
        | Err error => Err (ff_rejected "web_url_invalid" "url" ("URL 解析失败：" ++ error))
        end;
  let url := url_without_fragment url in
  match validate_url_host url with
  | Ok _ => Ok url
  | Err failure => Err (match WebTransportScheme_from_url url with
                        | Some scheme => at_url url (TransportState_initial scheme) failure
                        | None => failure
                        end)
  end.

(** [canonical_public_http_url] *)
Definition canonical_public_http_url (requested : string) : result string Url :=
  map_err ff_code (parse_and_validate_url requested).
End failures.
