(* ===== verification/HtmlText.v ===== *)
(** What [web_fetch] reads from a page ([crates/tools/src/web_fetch.rs]): the text, the title and
    the links of an HTML source, plain text, and their bounds. *)
From Stdlib Require Import Ascii String.
From S2P Require Import Prelude.
From S2P Require Import Text.
From S2P Require Import TextOps.
From S2P Require Import CommandSafety.
From S2P Require Import BrowserRequest.
From S2P Require Import WebUrl.

Open Scope string_scope.
Open Scope list_scope.
Open Scope N_scope.

Definition MAX_LINKS : nat := 32.
Definition MAX_LINK_CHARS : N := 2048.
Definition MAX_TITLE_CHARS : N := 512.

(** The bytes before the first one that satisfies [p], and the rest. *)
Fixpoint break_at {A} (p : A → bool) (l : list A) : list A * list A :=
  match l with
  | [] => ([], [])
  | a :: l' => if p a then ([], l) else let '(k, r) := break_at p l' in (a :: k, r)
  end.

(** ** Text *)

(** [truncate_chars] *)
Definition truncate_chars (value : string) (max_chars : nat) : string * bool :=
  if (length (chars value) <=? max_chars)%nat then (value, false)
  else (trim_end (of_chars (take max_chars (chars value))), true).

Definition normalize_title (title : string) : option string :=
  let title := str_join " " (split_whitespace title) in
  if is_empty_str title then None else Some (truncate_chars title (N.to_nat MAX_TITLE_CHARS)).1.

(** The loop of [normalize_plain_text]: what is written and whether a blank line is pending. *)
Fixpoint plain_lines (output : string) (blank : bool) (lines : list string) : string :=
  match lines with
  | [] => output
  | line :: lines =>
    let line := str_join " " (split_whitespace line) in
    if is_empty_str line then plain_lines output (if is_empty_str output then blank else true) lines
    else
      let sep := if blank then (newline ++ newline)%string
                 else if is_empty_str output then "" else newline in
      plain_lines (output ++ sep ++ line)%string false lines
  end.
Definition normalize_plain_text (source : string) : string := plain_lines "" false (str_lines source).

(** [TextAccumulator]: the characters of [value], the last one first, and the separators that are
    due before the next character. *)
Record TextAccumulator := mkTextAccumulator {
  ta_value : list (list ascii);
  pending_space : bool;
  pending_boundary : bool;
}.
Definition TextAccumulator_default : TextAccumulator := mkTextAccumulator [] false false.

Definition SPACE_CHAR : list ascii := [ascii_of_N 32].
Definition LINE_CHAR : list ascii := [LF].
Definition is_empty_list {A} (l : list A) : bool := match l with [] => true | _ => false end.
Definition ends_with_char (bs : list N) (value : list (list ascii)) : bool :=
  is_some_and (head value) (char_in bs).

(** One character of [push]. *)
Definition push_char (t : TextAccumulator) (character : list ascii) : TextAccumulator :=
  let value := ta_value t in
  if white_space_char character
  then mkTextAccumulator value (negb (is_empty_list value)) (pending_boundary t)
  else
    let value :=
      if pending_boundary t && negb (is_empty_list value) then
        let value := drop_while (is_char 32) value in
        if ends_with_char [10] value then value else LINE_CHAR :: value
      else if pending_space t && negb (is_empty_list value) && negb (ends_with_char [32; 10] value)
      then SPACE_CHAR :: value else value in
    mkTextAccumulator (character :: value) false false.
Definition push (text : string) (t : TextAccumulator) : TextAccumulator := foldl push_char t (chars text).
Definition boundary (t : TextAccumulator) : TextAccumulator :=
  if is_empty_list (ta_value t) then t else mkTextAccumulator (ta_value t) false true.
Definition finish (t : TextAccumulator) : string :=
  of_chars (reverse (drop_while (char_in [32; 10]) (ta_value t))).

(** ** Entities *)

Definition to_hex_digit (a : ascii) : option N :=
  if is_ascii_digit a then Some (byte_val a - 48)
  else if in_range 97 102 a then Some (byte_val a - 87)
  else if in_range 65 70 a then Some (byte_val a - 55) else None.
Fixpoint hex_go (acc : N) (l : list ascii) : option N :=
  match l with [] => Some acc | a :: l' => d ← to_hex_digit a; hex_go (acc * 16 + d) l' end.
(** [u32::from_str_radix(s, 16)] *)
Definition parse_hex_u32 (l : list ascii) : option N :=
  let digits := match l with a :: l' => if is_byte 43 a then l' else l | [] => [] end in
  match digits with
  | [] => None
  | _ => n ← hex_go 0 digits; if n <=? U32_MAX then Some n else None
  end.

Definition decode_entity (entity : string) : option N :=
  if entity ==? "amp" then Some 38
  else if entity ==? "lt" then Some 60
  else if entity ==? "gt" then Some 62
  else if entity ==? "quot" then Some 34
  else if bool_decide (entity ∈ ["apos"; "#39"]) then Some 39
  else if entity ==? "nbsp" then Some 32
  else if starts_with "#x" entity || starts_with "#X" entity
  then parse_hex_u32 (drop 2 (bytes entity)) ≫= char_from_u32
  else if starts_with "#" entity
  then parse_unsigned U32_MAX (of_bytes (drop 1 (bytes entity))) ≫= char_from_u32
  else None.

(** The loop of [decode_html_entities], one byte or one entity at a time; [skip] bytes of an
    entity are still to be passed. An entity ends within twelve bytes. *)
Fixpoint entities_go (skip : nat) (l : list ascii) : list ascii :=
  match l with
  | [] => []
  | a :: l' =>
    match skip with
    | S skip => entities_go skip l'
    | O =>
      if negb (is_byte 38 a) then a :: entities_go 0 l'
      else
        let '(entity, rest) := break_at (is_byte 59) l' in
        if is_empty_list rest || (12 <? length entity)%nat then a :: entities_go 0 l'
        else
          (match decode_entity (of_bytes entity) with
           | Some c => encode_utf8 c
           | None => (a :: entity) ++ [ascii_of_N 59]
           end) ++ entities_go (S (length entity)) l'
    end
  end.
Definition decode_html_entities (source : string) : string := of_bytes (entities_go 0 (bytes source)).

(** ** Tags *)

(** [find_tag_end]: the bytes up to the [>] outside quotes that ends the tag, the first byte of
    the source not examined, and the bytes after it. *)
Fixpoint tag_end_go (quote : option ascii) (l : list ascii) : option (list ascii * list ascii) :=
  match l with
  | [] => None
  | a :: l' =>
    let continue quote := '(k, r) ← tag_end_go quote l'; Some (a :: k, r) in
    match quote with
    | Some active => continue (if a ==? active then None else quote)
    | None => if is_byte 39 a || is_byte 34 a then continue (Some a)
              else if is_byte 62 a then Some ([], l') else continue None
    end
  end.

Definition is_name_end (a : ascii) : bool := is_ascii_whitespace a || is_byte 47 a.
Definition is_attribute_name_end (a : ascii) : bool := is_name_end a || is_byte 61 a.

(** [BTreeMap::entry(name).or_insert]: the first value stays. *)
Definition or_insert (name value : string) (attributes : list (string * string)) : list (string * string) :=
  if existsb (λ e, e.1 ==? name) attributes then attributes else attributes ++ [(name, value)].

Definition trim_start_bytes (l : list ascii) : list ascii := bytes (trim_start (of_bytes l)).

(** A turn of [parse_attributes]: the name and value of an attribute, when there is one, and the
    bytes that remain. *)
Definition attribute_turn (raw : list ascii) : option (string * string) * list ascii :=
  let '(name, rest) := break_at is_attribute_name_end raw in
  match name with
  | [] => (None, bytes (of_chars (drop 1 (chars (of_bytes raw)))))
  | _ =>
    let name := to_ascii_lowercase (of_bytes name) in
    let rest := trim_start_bytes rest in
    match rest with
    | eq :: after =>
      if negb (is_byte 61 eq) then (Some (name, ""), rest)
      else
        let after := trim_start_bytes after in
        let '(value, remaining) :=
          match after with
          | q :: after_quote =>
            if is_byte 39 q || is_byte 34 q then
              let '(value, rest) := break_at (λ a, a ==? q) after_quote in (value, drop 1 rest)
            else break_at is_name_end after
          | [] => ([], [])
          end in
        (Some (name, decode_html_entities (of_bytes value)), remaining)
    | [] => (Some (name, ""), [])
    end
  end.

Fixpoint parse_attributes_go (fuel : nat) (raw : list ascii) (attributes : list (string * string))
    : option (list (string * string)) :=
  match fuel with
  | O => None
  | S fuel =>
    match drop_while is_name_end raw with
    | [] => Some attributes
    | raw =>
      let '(attribute, remaining) := attribute_turn raw in
      parse_attributes_go fuel remaining
        (match attribute with Some (name, value) => or_insert name value attributes | None => attributes end)
    end
  end.
Definition parse_attributes (raw : list ascii) : list (string * string) :=
  default [] (parse_attributes_go (S (length raw)) raw []).

Record ParsedTag := mkParsedTag {
  tag_name : string;
  closing : bool;
  self_closing : bool;
  attributes : list (string * string);
}.
Definition attribute (tag : ParsedTag) (name : string) : option string :=
  snd <$> find_first (λ e, e.1 ==? name) (attributes tag).

Definition parse_tag (raw : string) : option ParsedTag :=
  let raw := trim raw in
  if is_empty_str raw || starts_with "!" raw || starts_with "?" raw then None
  else
    let is_closing := starts_with "/" raw in
    let raw := trim_start (default raw (strip_prefix "/" raw)) in
    let is_self_closing := ends_with "/" (trim_end raw) in
    let '(name, rest) := break_at is_name_end (bytes raw) in
    let name := to_ascii_lowercase (of_bytes name) in
    if is_empty_str name || negb (all_bytes is_ascii_alphanumeric name) then None
    else Some (mkParsedTag name is_closing is_self_closing
                 (if is_closing then [] else parse_attributes rest)).

Definition BLOCK_TAGS : list string := [
  "address"; "article"; "aside"; "blockquote"; "br"; "dd"; "div"; "dl"; "dt"; "figcaption"; "figure";
  "footer"; "h1"; "h2"; "h3"; "h4"; "h5"; "h6"; "header"; "hr"; "li"; "main"; "nav"; "ol"; "p"; "pre";
  "section"; "table"; "td"; "th"; "tr"; "ul"
].
Definition is_block_tag (name : string) : bool := bool_decide (name ∈ BLOCK_TAGS).
Definition SUPPRESSED_TAGS : list string := ["script"; "style"; "noscript"; "template"; "svg"; "canvas"].

(** ** Pages *)

Record ExtractedPage := mkExtractedPage {
  ep_title : option string;
  ep_text : string;
  ep_links : list string;
  ep_links_truncated : bool;
}.

(** The variables of the loop of [extract_html]; [suppressed] has the innermost tag first. *)
Record HtmlState := mkHtmlState {
  all_text : TextAccumulator;
  body_text : TextAccumulator;
  title_text : TextAccumulator;
  hs_links : list string;
  seen_links : list string;
  links_truncated : bool;
  suppressed : list string;
  head_depth : N;
  body_depth : N;
  title_depth : N;
  saw_body : bool;
}.
#[export] Instance HtmlState_settable : Settable HtmlState := λ s,
  mkHtmlState (all_text s) (body_text s) (title_text s) (hs_links s) (seen_links s) (links_truncated s)
    (suppressed s) (head_depth s) (body_depth s) (title_depth s) (saw_body s).

Definition HtmlState_initial : HtmlState :=
  mkHtmlState TextAccumulator_default TextAccumulator_default TextAccumulator_default
    [] [] false [] 0 0 0 false.

Section html.
Context `{UrlLib, !UrlEdit}.

Definition canonical_link (base : Url) (href : string) : option string :=
  match url_join base (trim href) with
  | Err _ => None
  | Ok link =>
    let link := url_without_fragment link in
    match validate_url_host link with
    | Err _ => None
    | Ok _ => if MAX_LINK_CHARS <? chars_count (url_as_str link) then None else Some (url_as_str link)
    end
  end.

Definition visible (s : HtmlState) : bool := is_empty_list (suppressed s).

Definition close_tag (tag : ParsedTag) (s : HtmlState) : HtmlState :=
  let name := tag_name tag in
  let s := if bool_decide (name ∈ SUPPRESSED_TAGS) && (head (suppressed s) ==? Some name)
           then s <| suppressed := drop 1 (suppressed s) |> else s in
  if negb (visible s) then s
  else if name ==? "head" then s <| head_depth := head_depth s - 1 |>
  else if name ==? "body" then s <| body_depth := body_depth s - 1 |>
  else if name ==? "title" then s <| title_depth := title_depth s - 1 |>
  else s.

Definition add_link (link : string) (s : HtmlState) : HtmlState :=
  if bool_decide (link ∈ seen_links s) then s
  else
    let s := s <| seen_links := link :: seen_links s |> in
    if (length (hs_links s) <? MAX_LINKS)%nat then s <| hs_links := hs_links s ++ [link] |>
    else s <| links_truncated := true |>.

Definition open_tag (base : Url) (tag : ParsedTag) (s : HtmlState) : HtmlState :=
  let name := tag_name tag in
  let s :=
    if negb (visible s) then s
    else if name ==? "head" then s <| head_depth := head_depth s + 1 |>
    else if name ==? "body" then s <| saw_body := true |> <| body_depth := body_depth s + 1 |>
    else if name ==? "title" then s <| title_depth := title_depth s + 1 |>
    else s in
  let s :=
    if visible s && (name ==? "a") then
      match attribute tag "href" ≫= canonical_link base with
      | Some link => add_link link s
      | None => s
      end
    else s in
  if bool_decide (name ∈ SUPPRESSED_TAGS) && negb (self_closing tag)
  then s <| suppressed := name :: suppressed s |> else s.

Definition on_tag (base : Url) (tag : ParsedTag) (s : HtmlState) : HtmlState :=
  let s := if closing tag then close_tag tag s else open_tag base tag s in
  if is_block_tag (tag_name tag) && visible s then
    let s := s <| all_text := boundary (all_text s) |> in
    if 0 <? body_depth s then s <| body_text := boundary (body_text s) |> else s
  else s.

Definition on_text (raw_text : string) (s : HtmlState) : HtmlState :=
  let decoded := decode_html_entities raw_text in
  let s := if (0 <? title_depth s) && visible s
           then s <| title_text := push decoded (title_text s) |> else s in
  if visible s && (head_depth s =? 0) then
    let s := s <| all_text := push decoded (all_text s) |> in
    if 0 <? body_depth s then s <| body_text := push decoded (body_text s) |> else s
  else s.

(** What stands after the end of the comment, or nothing. *)
Fixpoint after_comment (l : list ascii) : list ascii :=
  match l with
  | [] => []
  | _ :: l' => if is_prefix (bytes "-->") l then drop 3 l else after_comment l'
  end.

(** A turn of the loop at a non-empty rest: the new state and rest. *)
Definition html_turn (base : Url) (rest : list ascii) (s : HtmlState) : HtmlState * list ascii :=
  if is_prefix (bytes "<!--") rest then (s, after_comment rest)
  else match rest with
  | [] => (s, [])
  | a :: l =>
    if is_byte 60 a then
      match tag_end_go None l with
      | Some (raw, after) =>
        (match parse_tag (of_bytes raw) with Some tag => on_tag base tag s | None => s end, after)
      | None => (s, l)
      end
    else
      let '(raw_text, after) := break_at (is_byte 60) rest in
      (on_text (of_bytes raw_text) s, after)
  end.

Fixpoint html_go (fuel : nat) (base : Url) (rest : list ascii) (s : HtmlState) : option HtmlState :=
  match rest with
  | [] => Some s
  | _ =>
    match fuel with
    | O => None
    | S fuel => let '(s, rest) := html_turn base rest s in html_go fuel base rest s
    end
  end.

Definition page_of (s : HtmlState) : ExtractedPage :=
  mkExtractedPage (normalize_title (finish (title_text s)))
    (finish (if saw_body s then body_text s else all_text s)) (hs_links s) (links_truncated s).

Definition extract_html (source : string) (base : Url) : ExtractedPage :=
  page_of (default HtmlState_initial (html_go (length (bytes source)) base (bytes source) HtmlState_initial)).

End html.
