(* ===== verification/HtmlTextFacts.v ===== *)
(** Facts about the text and the links [web_fetch] extracts: they are bounded and clean, the links
    are distinct public addresses, and the scanner always reaches the end of the source. *)
From Stdlib Require Import Ascii String.
From S2P Require Import Prelude.
From S2P Require Import Text.
From S2P Require Import TextOps.
From S2P Require Import ExecPolicyFacts.
From S2P Require Import CommandSafety.
From S2P Require Import BrowserRequest.
From S2P Require Import WebUrl.
From S2P Require Import HtmlText.

Open Scope string_scope.
Open Scope list_scope.
Open Scope N_scope.

(** ** Counting characters *)

(** The bytes that begin a character. *)
Definition starts (l : list ascii) : nat := length (filter (λ a, is_continuation a = false) l).
Definition char_ok (c : list ascii) : Prop :=
  match c with [] => False | _ :: rest => Forall (λ a, is_continuation a = true) rest end.

Lemma starts_app l k : starts (l ++ k) = (starts l + starts k)%nat.
Proof. unfold starts. by rewrite filter_app, length_app. Qed.
Lemma starts_continuation l : Forall (λ a, is_continuation a = true) l → starts l = 0%nat.
Proof.
  induction 1 as [|a l Ha _ IH]; [done|]. unfold starts in *. rewrite filter_cons_False by congruence. done.
Qed.
Lemma starts_cons a l : (starts (a :: l) ≤ 1 + starts l)%nat.
Proof. unfold starts. rewrite filter_cons. case_decide; cbn; lia. Qed.

Lemma chars_go_length c cur l : length (chars_go (c :: cur) l) = S (starts l).
Proof.
  revert c cur; induction l as [|a l IH]; intros c cur; cbn [chars_go]; [done|].
  unfold starts in *. destruct (is_continuation a) eqn:Ha.
  - by rewrite IH, filter_cons_False by congruence.
  - cbn [length]. by rewrite IH, filter_cons_True by done.
Qed.
Lemma chars_length s : length (chars s) = match bytes s with [] => 0%nat | _ :: l => S (starts l) end.
Proof.
  unfold chars. destruct (bytes s) as [|a l]; [done|]. cbn. destruct (is_continuation a); apply chars_go_length.
Qed.

Lemma chars_of_chars_length cs : Forall char_ok cs → (length (chars (of_chars cs)) ≤ length cs)%nat.
Proof.
  assert (Hstarts : ∀ cs, Forall char_ok cs → (starts (mjoin cs) ≤ length cs)%nat).
  { clear. induction 1 as [|c cs Hc _ IH]; [done|].
    change (mjoin (c :: cs)) with (c ++ mjoin cs). rewrite starts_app. destruct c as [|a c]; [done|].
    pose proof (starts_cons a c) as Hs. rewrite (starts_continuation c) in Hs by done. cbn in *. lia. }
  intros [|c cs' Hc Hcs]; rewrite chars_length; unfold of_chars; [done|].
  - rewrite bytes_of_bytes. destruct c as [|a c]; [done|].
    change (mjoin ((a :: c) :: cs')) with (a :: c ++ mjoin cs').
    cbn [length]. rewrite starts_app, (starts_continuation c) by done. specialize (Hstarts _ Hcs). cbn in *. lia.
Qed.

Lemma chars_go_ok cur l :
  match cur with [] => True | _ => char_ok (reverse cur) end → Forall char_ok (chars_go cur l).
Proof.
  revert cur; induction l as [|a l IH]; intros cur Hcur; cbn.
  - destruct cur; by repeat constructor.
  - destruct (is_continuation a) eqn:Ha.
    + apply IH. rewrite reverse_cons. destruct cur as [|c cur]; [cbn; done|].
      destruct (reverse (c :: cur)) as [|b k]; [done|]. cbn in *. apply Forall_app. split; [done|by repeat constructor].
    + destruct cur; [|constructor; [done|]]; apply IH; constructor.
Qed.
Lemma chars_ok s : Forall char_ok (chars s).
Proof. by apply chars_go_ok. Qed.

Lemma drop_while_end_prefix {A} (p : A → bool) l : ∃ k, l = drop_while_end p l ++ k.
Proof.
  destruct (drop_while_suffix p (reverse l)) as (k & Hk & _). exists (reverse k). unfold drop_while_end.
  by rewrite <- reverse_app, <- Hk, reverse_involutive.
Qed.

Lemma trim_end_count s : (length (chars (trim_end s)) ≤ length (chars s))%nat.
Proof.
  unfold trim_end. destruct (drop_while_end_prefix white_space_char (chars s)) as [k Hk].
  pose proof (chars_ok s) as Hok. rewrite Hk in Hok. apply Forall_app in Hok as [Hok _].
  rewrite chars_of_chars_length by done. rewrite Hk at 2. rewrite length_app. lia.
Qed.

(** A truncated text has at most the characters asked for. *)
Lemma truncate_chars_bound s n : (length (chars (truncate_chars s n).1) ≤ n)%nat.
Proof.
  unfold truncate_chars. destruct (Nat.leb_spec (length (chars s)) n) as [Hle|Hlt]; [done|]. cbn [fst].
  rewrite trim_end_count, chars_of_chars_length; [rewrite length_take; lia|].
  apply Forall_take, chars_ok.
Qed.

Lemma normalize_title_bound s t : normalize_title s = Some t → chars_count t ≤ MAX_TITLE_CHARS.
Proof.
  unfold normalize_title. case_match; [done|]. intros [= <-].
  pose proof (truncate_chars_bound (str_join " " (split_whitespace s)) (N.to_nat MAX_TITLE_CHARS)).
  unfold chars_count. lia.
Qed.

(** ** The scanner reaches the end *)

Lemma break_at_app {A} (p : A → bool) l : (break_at p l).1 ++ (break_at p l).2 = l.
Proof.
  induction l as [|a l IH]; [done|]. cbn. destruct (p a); [done|].
  destruct (break_at p l) as [k r]. cbn in *. by rewrite IH.
Qed.
Lemma break_at_length {A} (p : A → bool) l : (length (break_at p l).1 + length (break_at p l).2 = length l)%nat.
Proof. by rewrite <- length_app, break_at_app. Qed.
Lemma break_at_first {A} (p : A → bool) a l :
  p a = false → (length (break_at p (a :: l)).2 ≤ length l)%nat.
Proof.
  intros Hp. cbn. rewrite Hp. pose proof (break_at_length p l) as Hl. destruct (break_at p l) as [k r]. cbn in *. lia.
Qed.

Lemma drop_while_length {A} (p : A → bool) l : (length (drop_while p l) ≤ length l)%nat.
Proof. destruct (drop_while_suffix p l) as (k & Hk & _). rewrite Hk at 2. rewrite length_app. lia. Qed.
Lemma drop_while_head {A} (p : A → bool) l a k : drop_while p l = a :: k → p a = false.
Proof. induction l as [|b l IH]; cbn; [done|]. destruct (p b) eqn:Hb; [done|]. by intros [= -> _]. Qed.

Lemma mjoin_suffix_length (k cs : list (list ascii)) : (length (mjoin cs) ≤ length (mjoin (k ++ cs)))%nat.
Proof. rewrite join_app, length_app. lia. Qed.
Lemma bytes_of_chars cs : bytes (of_chars cs) = mjoin cs.
Proof. unfold of_chars. apply bytes_of_bytes. Qed.
Lemma trim_start_bytes_length l : (length (trim_start_bytes l) ≤ length l)%nat.
Proof.
  unfold trim_start_bytes, trim_start. rewrite bytes_of_chars.
  destruct (drop_while_suffix white_space_char (chars (of_bytes l))) as (k & Hk & _).
  etransitivity; [apply mjoin_suffix_length|]. rewrite <- Hk.
  by rewrite <- bytes_of_chars, of_chars_chars, bytes_of_bytes.
Qed.
Lemma drop_char_length l :
  l ≠ [] → (length (bytes (of_chars (drop 1 (chars (of_bytes l))))) < length l)%nat.
Proof.
  intros Hl. rewrite bytes_of_chars.
  assert (Hj : mjoin (chars (of_bytes l)) = l) by (by rewrite <- bytes_of_chars, of_chars_chars, bytes_of_bytes).
  pose proof (chars_ok (of_bytes l)) as Hok. destruct (chars (of_bytes l)) as [|c cs]; [by subst|].
  apply Forall_cons in Hok as [Hc _]. destruct c as [|a c]; [done|].
  rewrite <- Hj. change (mjoin ((a :: c) :: cs)) with (a :: c ++ mjoin cs).
  change (drop 1 ((a :: c) :: cs)) with (drop 0 cs). rewrite drop_0. cbn [length]. rewrite length_app. lia.
Qed.

Lemma attribute_turn_shrinks a raw :
  is_name_end a = false → (length (attribute_turn (a :: raw)).2 ≤ length raw)%nat.
Proof.
  intros Ha. unfold attribute_turn. destruct (is_attribute_name_end a) eqn:Hn.
  - cbn [break_at]. rewrite Hn. cbn [snd].
    pose proof (drop_char_length (a :: raw) ltac:(done)) as Hl. cbn [length] in Hl. lia.
  - pose proof (break_at_first is_attribute_name_end a raw Hn) as Hl.
    pose proof (break_at_length is_attribute_name_end (a :: raw)) as Hb.
    destruct (break_at is_attribute_name_end (a :: raw)) as [[|n name] rest].
    { cbn in *. lia. }
    cbn [snd] in Hl. pose proof (trim_start_bytes_length rest) as Ht.
    destruct (trim_start_bytes rest) as [|eq after]; [cbn; lia|].
    destruct (negb (is_byte 61 eq)); [cbn [snd]; lia|].
    pose proof (trim_start_bytes_length after) as Ht2.
    destruct (trim_start_bytes after) as [|q after_quote]; [cbn; lia|]. cbn [length] in *.
    destruct (is_byte 39 q || is_byte 34 q).
    + pose proof (break_at_length (λ b, b ==? q) after_quote) as Hq.
      destruct (break_at (λ b, b ==? q) after_quote) as [v r]. cbn [fst snd] in *. rewrite length_drop. lia.
    + pose proof (break_at_length is_name_end (q :: after_quote)) as Hq.
      destruct (break_at is_name_end (q :: after_quote)) as [v r]. cbn [fst snd length] in *. lia.
Qed.

Lemma parse_attributes_total fuel raw attributes :
  (length raw < fuel)%nat → is_Some (parse_attributes_go fuel raw attributes).
Proof.
  revert raw attributes; induction fuel as [|fuel IH]; intros raw attributes Hf; [lia|]. cbn.
  pose proof (drop_while_length is_name_end raw) as Hl.
  destruct (drop_while is_name_end raw) as [|a rest] eqn:Hd; [by eexists|].
  pose proof (attribute_turn_shrinks a rest (drop_while_head _ _ _ _ Hd)) as Ht.
  destruct (attribute_turn (a :: rest)) as [at' remaining]. apply IH. cbn in *. lia.
Qed.

Lemma tag_end_length quote l raw after :
  tag_end_go quote l = Some (raw, after) → (length after < length l)%nat.
Proof.
  revert quote raw; induction l as [|a l IH]; intros quote raw; cbn; [done|]. intros Ht.
  repeat case_match; try done; simplify_option_eq; repeat case_match; simplify_eq;
    try (match goal with He : tag_end_go _ _ = Some _ |- _ => apply IH in He end); lia.
Qed.
Lemma after_comment_length l : (length (after_comment l) ≤ length l)%nat.
Proof.
  induction l as [|a l IH]; [done|]. cbn [after_comment]. destruct (is_prefix _ _); [rewrite length_drop|cbn]; lia.
Qed.

Section scanner.
Context `{UrlLib, !UrlEdit}.

Lemma html_turn_shrinks base a l s : (length (html_turn base (a :: l) s).2 ≤ length l)%nat.
Proof.
  unfold html_turn. destruct (is_prefix (bytes "<!--") (a :: l)) eqn:Hp.
  - apply is_prefix_spec in Hp as [r Hr]. injection Hr as -> ->. cbn [snd].
    match goal with |- (length (after_comment (_ :: ?k)) ≤ _)%nat => exact (after_comment_length k) end.
  - destruct (is_byte 60 a) eqn:Ha.
    + destruct (tag_end_go None l) as [[raw after]|] eqn:Ht; [|done]. apply tag_end_length in Ht. cbn. lia.
    + pose proof (break_at_first (is_byte 60) a l Ha) as Hb. destruct (break_at (is_byte 60) (a :: l)) as [k r]. done.
Qed.
Lemma html_go_total fuel base l s : (length l ≤ fuel)%nat → is_Some (html_go fuel base l s).
Proof.
  revert l s; induction fuel as [|fuel IH]; intros [|a l] s Hf; cbn [html_go length] in *; try (by eexists); [lia|].
  pose proof (html_turn_shrinks base a l s) as Ht. destruct (html_turn base (a :: l) s) as [s' rest]. apply IH.
  cbn in Ht. lia.
Qed.
End scanner.

(** ** Clean text *)

Definition white (c : list ascii) : Prop := white_space_char c = true.
Definition separator (c : list ascii) : Prop := c = SPACE_CHAR ∨ c = LINE_CHAR.

(** White space stands alone, as a space or a line break, between two other characters. *)
Inductive clean_text : list (list ascii) → Prop :=
| clean_nil : clean_text []
| clean_one c : ¬ white c → clean_text [c]
| clean_cons c d cs : ¬ white c → clean_text (d :: cs) → clean_text (c :: d :: cs)
| clean_sep c w d cs : ¬ white c → separator w → clean_text (d :: cs) → clean_text (c :: w :: d :: cs).

Lemma clean_head c cs : clean_text (c :: cs) → ¬ white c.
Proof. by inversion 1. Qed.
Lemma not_separator c b : ¬ white c → b ∈ [10; 32] → is_char b c = false.
Proof.
  intros Hc Hb. apply not_true_iff_false. intros He%is_char_eq. apply Hc. subst c.
  rewrite !elem_of_cons, elem_of_nil in Hb. destruct Hb as [->|[->|[]]]; reflexivity.
Qed.
Lemma not_separator_in c : ¬ white c → char_in [32; 10] c = false ∧ char_in [10] c = false.
Proof.
  intros Hc. unfold char_in. cbn. rewrite !not_separator by (done || set_solver). done.
Qed.

Lemma push_char_clean t c : clean_text (ta_value t) → clean_text (ta_value (push_char t c)).
Proof.
  intros Hv. unfold push_char. destruct (white_space_char c) eqn:Hc; [done|]. cbn [ta_value].
  assert (Hw : ¬ white c) by (unfold white; congruence).
  destruct (ta_value t) as [|d cs]; cbn [is_empty_list negb].
  { rewrite !andb_false_r. by apply clean_one. }
  rewrite !andb_true_r. pose proof (clean_head _ _ Hv) as Hd.
  destruct (not_separator_in d Hd) as [Hs Hl].
  destruct (pending_boundary t).
  - cbn [drop_while]. rewrite (not_separator d 32) by (done || set_solver).
    unfold ends_with_char. cbn [head is_some_and]. rewrite Hl. apply clean_sep; [done|by right|done].
  - unfold ends_with_char. cbn [head is_some_and]. rewrite Hs. destruct (pending_space t); cbn.
    + apply clean_sep; [done|by left|done].
    + by apply clean_cons.
Qed.
Lemma push_clean text t : clean_text (ta_value t) → clean_text (ta_value (push text t)).
Proof. unfold push. revert t. induction (chars text) as [|c cs IH]; intros t; cbn; [done|]. intros Ht. by apply IH, push_char_clean. Qed.

(** A clean text read backwards is clean. *)
Lemma clean_snoc cs c : clean_text cs → ¬ white c → clean_text (cs ++ [c]).
Proof.
  intros Hcs Hc. induction Hcs; cbn in *; try (by apply clean_one).
  - apply clean_cons; [done|by apply clean_one].
  - by apply clean_cons.
  - by apply clean_sep.
Qed.
Lemma clean_snoc_sep cs w c :
  cs ≠ [] → clean_text cs → separator w → ¬ white c → clean_text (cs ++ [w; c]).
Proof.
  intros Hne Hcs Hw Hc. induction Hcs as [|d Hd|d e cs Hd Hcs IH|d v e cs Hd Hv Hcs IH]; cbn.
  - done.
  - apply clean_sep; [done|done|by apply clean_one].
  - apply clean_cons; [done|]. by apply IH.
  - apply clean_sep; [done|done|]. by apply IH.
Qed.
Lemma clean_reverse cs : clean_text cs → clean_text (reverse cs).
Proof.
  induction 1 as [|c Hc|c d cs Hc Hcs IH|c w d cs Hc Hw Hcs IH].
  - constructor.
  - by constructor.
  - rewrite reverse_cons. by apply clean_snoc.
  - rewrite 2!reverse_cons, <- app_assoc. apply clean_snoc_sep; [|done..].
    rewrite reverse_cons. by destruct (reverse cs).
Qed.

Lemma finish_clean t : clean_text (ta_value t) → ∃ cs, finish t = of_chars cs ∧ clean_text cs.
Proof.
  intros Ht. unfold finish. exists (reverse (ta_value t)). split; [|by apply clean_reverse].
  destruct (ta_value t) as [|c cs]; [done|]. cbn [drop_while].
  by destruct (not_separator_in c (clean_head _ _ Ht)) as [-> _].
Qed.

(** ** The page *)

Section page.
Context `{UrlLib, !UrlEdit}.

(** A link a page may report. *)
Definition reportable (link : string) : Prop :=
  ∃ url, url_as_str url = link ∧ validate_url_host url = Ok tt ∧ chars_count link ≤ MAX_LINK_CHARS.

Record page_state_ok (s : HtmlState) : Prop := {
  ps_all : clean_text (ta_value (all_text s));
  ps_body : clean_text (ta_value (body_text s));
  ps_title : clean_text (ta_value (title_text s));
  ps_seen : ∀ link, link ∈ hs_links s → link ∈ seen_links s;
  ps_distinct : NoDup (hs_links s);
  ps_count : (length (hs_links s) ≤ MAX_LINKS)%nat;
  ps_reportable : Forall reportable (hs_links s);
  ps_truncated : links_truncated s = true → length (hs_links s) = MAX_LINKS;
}.

Lemma canonical_link_reportable base href link : canonical_link base href = Some link → reportable link.
Proof.
  unfold canonical_link. intros Hc. repeat case_match; try done. injection Hc as <-.
  match goal with Hv : validate_url_host ?u = Ok ?t |- _ => exists u; destruct t end.
  bprop. done.
Qed.

Lemma add_link_ok link s : reportable link → page_state_ok s → page_state_ok (add_link link s).
Proof.
  intros Hl [Ha Hb Ht Hs Hd Hc Hr Hx]. unfold add_link. case_bool_decide as Hseen; [by constructor|].
  cbv zeta. change (hs_links (s <| seen_links := link :: seen_links s |>)) with (hs_links s).
  destruct (Nat.ltb_spec (length (hs_links s)) MAX_LINKS) as [Hlt|Hge].
  - constructor; cbn; try done.
    + intros l. rewrite elem_of_app, !elem_of_cons, elem_of_nil. naive_solver.
    + apply NoDup_app. split; [done|]. split; [|apply NoDup_singleton].
      intros l Hin ->%list_elem_of_singleton. auto.
    + rewrite length_app. cbn. lia.
    + apply Forall_app. by repeat constructor.
    + intros Htr. specialize (Hx Htr). lia.
  - constructor; cbn; try done.
    + intros l Hin. right. auto.
    + intros _. lia.
Qed.

(** A step that changes neither the links nor the cleanness of the texts. *)
Lemma page_state_texts (s s' : HtmlState) :
  page_state_ok s → clean_text (ta_value (all_text s')) → clean_text (ta_value (body_text s')) →
  clean_text (ta_value (title_text s')) → hs_links s' = hs_links s → seen_links s' = seen_links s →
  links_truncated s' = links_truncated s → page_state_ok s'.
Proof.
  intros [Ha Hb Ht Hs Hd Hc Hr Hx] Ha' Hb' Ht' Hl' Hs' Hx'. constructor; try done; rewrite Hl', ?Hs', ?Hx'; done.
Qed.
Lemma boundary_value t : ta_value (boundary t) = ta_value t.
Proof. unfold boundary. by destruct (is_empty_list (ta_value t)). Qed.

Ltac same_links Hs :=
  destruct Hs; eapply page_state_texts; [by constructor|cbn; rewrite ?boundary_value; try done; by apply push_clean..].

Lemma close_tag_ok tag s : page_state_ok s → page_state_ok (close_tag tag s).
Proof. intros Hs. unfold close_tag. repeat case_match; same_links Hs. Qed.

Lemma suppressed_ok l s : page_state_ok s → page_state_ok (s <| suppressed := l |>).
Proof. intros Hs. same_links Hs. Qed.
Lemma open_link_ok base tag s :
  page_state_ok s →
  page_state_ok (match attribute tag "href" ≫= canonical_link base with Some link => add_link link s | None => s end).
Proof.
  intros Hs. destruct (_ ≫= _) as [link|] eqn:Hl; [|done].
  apply bind_Some in Hl as (href & _ & Hl). apply add_link_ok; [|done]. by eapply canonical_link_reportable.
Qed.
Lemma open_tag_ok base tag s : page_state_ok s → page_state_ok (open_tag base tag s).
Proof.
  intros Hs. unfold open_tag. cbv zeta.
  match goal with |- context [visible ?t && (tag_name tag ==? "a")] => assert (Ht : page_state_ok t); [|generalize dependent t] end.
  { repeat case_match; same_links Hs. }
  intros t Ht.
  assert (Hl : page_state_ok (if visible t && (tag_name tag ==? "a")
    then match attribute tag "href" ≫= canonical_link base with Some link => add_link link t | None => t end else t))
    by (destruct (_ && _); [by apply open_link_ok|done]).
  destruct (_ && negb _); [by apply suppressed_ok|done].
Qed.

Lemma on_tag_ok base tag s : page_state_ok s → page_state_ok (on_tag base tag s).
Proof.
  intros Hs. unfold on_tag. cbv zeta.
  assert (Hb : page_state_ok (if closing tag then close_tag tag s else open_tag base tag s))
    by (destruct (closing tag); [by apply close_tag_ok|by apply open_tag_ok]).
  repeat case_match; try done; same_links Hb.
Qed.
Lemma on_text_ok text s : page_state_ok s → page_state_ok (on_text text s).
Proof. intros Hs. unfold on_text. cbv zeta. repeat case_match; try done; same_links Hs. Qed.

Lemma html_turn_ok base rest s : page_state_ok s → page_state_ok (html_turn base rest s).1.
Proof.
  intros Hs. unfold html_turn. repeat case_match; try done; first [by apply on_tag_ok|by apply on_text_ok].
Qed.
Lemma html_go_ok fuel base rest s s' :
  page_state_ok s → html_go fuel base rest s = Some s' → page_state_ok s'.
Proof.
  revert rest s; induction fuel as [|fuel IH]; intros [|a l] s Hs; cbn [html_go]; try (by intros [= <-]).
  pose proof (html_turn_ok base (a :: l) s Hs) as Ht. destruct (html_turn base (a :: l) s) as [s1 rest]. by apply IH.
Qed.

Lemma initial_page_ok : page_state_ok HtmlState_initial.
Proof.
  constructor; cbn; try (by constructor); [set_solver|lia|done].
Qed.

Lemma extract_html_state source base :
  ∃ s, html_go (length (bytes source)) base (bytes source) HtmlState_initial = Some s
    ∧ extract_html source base = page_of s ∧ page_state_ok s.
Proof.
  destruct (html_go_total (length (bytes source)) base (bytes source) HtmlState_initial) as [s Hs]; [lia|].
  exists s. unfold extract_html. rewrite Hs. split_and!; [done..|]. by eapply html_go_ok, Hs; apply initial_page_ok.
Qed.

(** C40: Whatever source a server sends, the scanner of [web_fetch] reaches its end, with one turn
    per byte at most; the text it reports has no white space at its ends and single spaces or
    line breaks between words; the title has at most 512 characters; and the links are at most 32
    distinct URLs of at most 2048 characters, each of which the target policy of a fetch admits, with
    truncation reported only when the 32 are used up. *)
Theorem extracted_page_is_bounded source base :
  let page := extract_html source base in
  is_Some (html_go (length (bytes source)) base (bytes source) HtmlState_initial)
  ∧ (∃ cs, ep_text page = of_chars cs ∧ clean_text cs)
  ∧ (∀ title, ep_title page = Some title → chars_count title ≤ MAX_TITLE_CHARS)
  ∧ (length (ep_links page) ≤ MAX_LINKS)%nat ∧ NoDup (ep_links page) ∧ Forall reportable (ep_links page)
  ∧ (ep_links_truncated page = true → length (ep_links page) = MAX_LINKS).
Proof.
  cbv zeta. destruct (extract_html_state source base) as (s & Hs & -> & [Ha Hb Ht _ Hd Hc Hr Hx]).
  cbn [page_of ep_text ep_title ep_links ep_links_truncated]. split_and!; try done.
  - destruct (saw_body s); by apply finish_clean.
  - intros title. apply normalize_title_bound.
Qed.
End page.
