(* ===== verification/WebFetch.v ===== *)
(** [web_fetch] ([crates/tools/src/web_fetch.rs]): decoding of a response, the loop over redirects
    and the outcome of a call. DNS, the HTTP client, gzip and the deadline are the environment. *)
From Stdlib Require Import Ascii String.
From stdpp Require Import sorting.
From S2P Require Import Prelude.
From S2P Require Import Text.
From S2P Require Import TextOps.
From S2P Require Import Json.
From S2P Require Import Protocol.
From S2P Require Import Patch.
From S2P Require Import PatchFiles.
From S2P Require Import CommandSafety.
From S2P Require Import BrowserRequest.
From S2P Require Import IpAddr.
From S2P Require Import WebUrl.
From S2P Require Import HtmlText.

Open Scope string_scope.
Open Scope list_scope.
Open Scope N_scope.

Definition DEFAULT_MAX_CHARS : N := 20000.
Definition MAX_MAX_CHARS : N := 50000.
Definition SOURCE_SHA256_SCOPE : string := "received_content_replay_identity".

(** ** Responses *)

Record WebFetchHttpResponse := mkWebFetchHttpResponse {
  resp_status : N;
  resp_headers : list (string * string);
  resp_body : string;
  bytes_read : N;
}.
Definition header (name : string) (r : WebFetchHttpResponse) : option string :=
  snd <$> find_first (λ e, e.1 ==? name) (resp_headers r).

Record WebFetchNetworkError := mkWebFetchNetworkError { wne_code : string; wne_message : string }.

Definition is_redirect_status (status : N) : bool := bool_decide (status ∈ [301; 302; 303; 307; 308]).

Record MediaType := mkMediaType { media_type : string; charset : string; is_html : bool }.

(** An [expect] of the source that fails. *)
Definition expect_failure (message : string) : FetchFailure := ff_operation "panic" "panic" message.

Section web_fetch.
Context `{UrlLib, !UrlEdit, JsonLib}.
(** The results of the successive reads from a gzip decoder. *)
Context (gzip_reads : string → list (result string string)).

(** [split_once('=')] *)
Definition split_equals (s : string) : option (string * string) :=
  match break_at (is_byte 61) (bytes s) with
  | (name, _ :: value) => Some (of_bytes name, of_bytes value)
  | _ => None
  end.
Definition parameter_charset (current parameter : string) : string :=
  match split_equals parameter with
  | None => current
  | Some (name, value) =>
    if eq_ignore_ascii_case (trim name) "charset"
    then to_ascii_lowercase (of_chars (drop_while_end (char_in [34]) (drop_while (char_in [34]) (chars (trim value)))))
    else current
  end.

Definition parse_media_type (content_type : option string) : result FetchFailure MediaType :=
  content_type ← ok_or content_type
    (ff_operation "web_content_type_missing" "content_type" "响应缺少 Content-Type");
  let parts := split_bytes (is_byte 59) content_type in
  let media := to_ascii_lowercase (trim (default "" (head parts))) in
  let html := bool_decide (media ∈ ["text/html"; "application/xhtml+xml"]) in
  fail_if (negb html && negb (media ==? "text/plain"))
    (ff_operation "web_content_type_denied" "content_type" ("不支持 Content-Type '" ++ media ++ "'")) ;;
  let charset := foldl parameter_charset "utf-8" (drop 1 parts) in
  fail_if (negb (bool_decide (charset ∈ ["utf-8"; "utf8"; "us-ascii"])))
    (ff_operation "web_charset_denied" "content_type"
       ("只支持 UTF-8/US-ASCII，响应声明 '" ++ charset ++ "'")) ;;
  mret (mkMediaType media charset html).

(** The loop over the reads of the gzip decoder. *)
Fixpoint gunzip (decoded : string) (reads : list (result string string)) : result FetchFailure string :=
  match reads with
  | [] => Ok decoded
  | Err error :: _ => Err (ff_operation "web_decompression_failed" "decompression" ("gzip 解压失败：" ++ error))
  | Ok chunk :: reads =>
    if is_empty_str chunk then Ok decoded
    else if MAX_DECOMPRESSED_BYTES <? str_len decoded + str_len chunk
    then Err (ff_operation "web_decompressed_too_large" "decompression"
           ("gzip 正文超过 " ++ show_N MAX_DECOMPRESSED_BYTES ++ " bytes 解压后上限"))
    else gunzip (decoded ++ chunk) reads
  end.

Definition decode_response_body (raw : string) (encoding : option string) : result FetchFailure string :=
  let encoding := to_ascii_lowercase (trim (default "identity" encoding)) in
  if bool_decide (encoding ∈ [""; "identity"]) then
    fail_if (MAX_DECOMPRESSED_BYTES <? str_len raw)
      (ff_operation "web_decompressed_too_large" "decompression"
         ("正文超过 " ++ show_N MAX_DECOMPRESSED_BYTES ++ " bytes 解压后上限")) ;;
    mret raw
  else if encoding ==? "gzip" then gunzip "" (gzip_reads raw)
  else Err (ff_operation "web_content_encoding_denied" "decompression"
         ("不支持 Content-Encoding '" ++ encoding ++ "'")).

Definition BYTE_ORDER_MARK : string := of_bytes (ascii_of_N <$> [239; 187; 191]).
Definition decode_utf8_source (source charset : string) : result FetchFailure string :=
  fail_if ((charset ==? "us-ascii") && negb (all_bytes is_ascii source))
    (ff_operation "web_charset_invalid" "decode" "US-ASCII 响应包含非 ASCII byte") ;;
  match from_utf8 source with
  | Ok text => Ok (default text (strip_prefix BYTE_ORDER_MARK text))
  | Err error =>
    Err (ff_operation "web_utf8_invalid" "decode" ("正文不是有效 UTF-8：" ++ Utf8Error_to_string error))
  end.

(** ** Results *)

Record WebFetchResult := mkWebFetchResult {
  wr_requested_url : string;
  wr_final_url : string;
  wr_status : N;
  wr_media_type : string;
  wr_title : option string;
  wr_text : string;
  wr_links : list string;
  wr_retrieved_at : string;
  wr_source_sha256 : string;
  wr_bytes_read : N;
  wr_bytes_returned : N;
  wr_truncated : bool;
  wr_final_scheme : WebTransportScheme;
  wr_transport_trajectory : string;
  wr_transport_integrity : string;
  wr_redirect_count : N;
  wr_transport_upgraded : bool;
}.

Definition opt_string (o : option string) : Value := match o with Some s => VString s | None => VNull end.
Definition number (n : N) : Value := VNumber (show_N n).
Definition WebFetchResult_json (r : WebFetchResult) : Value := VObject [
  ("requested_url", VString (wr_requested_url r)); ("final_url", VString (wr_final_url r));
  ("status", number (wr_status r)); ("media_type", VString (wr_media_type r));
  ("title", opt_string (wr_title r)); ("text", VString (wr_text r));
  ("links", VArray (VString <$> wr_links r)); ("retrieved_at", VString (wr_retrieved_at r));
  ("source_sha256", VString (wr_source_sha256 r)); ("source_sha256_scope", VString SOURCE_SHA256_SCOPE);
  ("bytes_read", number (wr_bytes_read r)); ("bytes_returned", number (wr_bytes_returned r));
  ("truncated", VBool (wr_truncated r));
  ("final_transport_scheme", VString (scheme_str (wr_final_scheme r)));
  ("final_transport_security", VString (final_security (wr_final_scheme r)));
  ("transport_trajectory", VString (wr_transport_trajectory r));
  ("transport_integrity", VString (wr_transport_integrity r));
  ("redirect_count", number (wr_redirect_count r));
  ("transport_upgraded", VBool (wr_transport_upgraded r)); ("trust", VString TRUST)
].

Definition failure_metadata (requested : string) (failure : FetchFailure) : Value :=
  let final_scheme :=
    match ff_final_url failure with
    | Some url => match Url_parse url with Ok url => WebTransportScheme_from_url url | Err _ => None end
    | None => None
    end in
  let state := ff_transport_state failure in
  VObject [("web_fetch", VObject [
    ("requested_url", VString requested); ("final_url", opt_string (ff_final_url failure));
    ("status", match ff_status failure with Some n => number n | None => VNull end);
    ("final_transport_scheme", opt_string (scheme_str <$> final_scheme));
    ("final_transport_security", opt_string (final_security <$> final_scheme));
    ("transport_trajectory", opt_string (state ≫= trajectory));
    ("transport_integrity", opt_string (state ≫= integrity));
    ("redirect_count", match state with Some t => number (redirect_count t) | None => VNull end);
    ("transport_upgraded", match state with Some t => VBool (transport_upgraded t) | None => VNull end);
    ("trust", VString TRUST);
    ("failure", VObject [("code", VString (ff_code failure)); ("stage", VString (ff_stage failure));
                         ("message", VString (ff_message failure))])])].

Definition rejected_outcome (requested : string) (failure : FetchFailure) : ToolOutcome :=
  ToolOutcome_rejected ("web_fetch 拒绝：code=" ++ ff_code failure ++ "；" ++ ff_message failure)
    (ff_retry failure)
  <| to_failure_code := Some InvocationRejected |>
  <| to_metadata := Some (failure_metadata requested failure) |>.

Definition operation_outcome (requested : string) (failure : FetchFailure) : ToolOutcome :=
  let message := ("web_fetch 失败：code=" ++ ff_code failure ++ "；" ++ ff_message failure)%string in
  let outcome :=
    if ff_transport failure
    then ToolOutcome_transport_failure message <| to_retry := ff_retry failure |>
    else ToolOutcome_error message
         <| to_operation := OperationFailedStatus |> <| to_transport := TransportSucceeded |>
         <| to_retry := ff_retry failure |> in
  outcome <| to_side_effect := SideEffectNotApplicable |>
          <| to_metadata := Some (failure_metadata requested failure) |>.

(** ** The page of a final response *)

Definition read_page (requested now : string) (max_chars : nat) (current : Url)
    (scheme : WebTransportScheme) (transport : TransportState) (r : WebFetchHttpResponse)
    : result FetchFailure WebFetchResult :=
  media ← parse_media_type (header "content-type" r);
  source ← decode_response_body (resp_body r) (header "content-encoding" r);
  source_text ← decode_utf8_source source (charset media);
  let extracted := if is_html media then extract_html source_text current
                   else mkExtractedPage None (normalize_plain_text source_text) [] false in
  let '(text, text_truncated) := truncate_chars (ep_text extracted) max_chars in
  trajectory ← ok_or (trajectory transport) (expect_failure "successful web_fetch has a transport trajectory");
  integrity ← ok_or (integrity transport) (expect_failure "successful web_fetch has transport integrity");
  mret (mkWebFetchResult requested (url_as_str current) (resp_status r) (media_type media)
    (ep_title extracted) text (ep_links extracted) now ("sha256:" ++ sha256_hex source)
    (bytes_read r) (str_len text) (text_truncated || ep_links_truncated extracted) scheme trajectory
    integrity (redirect_count transport) (transport_upgraded transport)).

(** ** The loop *)

(** The variables of the loop of [fetch_inner]. *)
Record FetchState := mkFetchState {
  current : Url;
  visited : list string;
  redirects : N;
  fs_transport : TransportState;
}.
Definition FetchState_initial (initial : Url) (scheme : WebTransportScheme) : FetchState :=
  mkFetchState initial [url_as_str initial] 0 (TransportState_initial scheme).

Definition response_too_large (r : WebFetchHttpResponse) : option string :=
  match header "content-length" r ≫= parse_unsigned U64_MAX with
  | Some length =>
    if MAX_RESPONSE_BYTES <? length
    then Some ("响应声明 " ++ show_N length ++ " bytes，超过 " ++ show_N MAX_RESPONSE_BYTES ++ " bytes 上限")%string
    else if (MAX_RESPONSE_BYTES <? str_len (resp_body r)) || (MAX_RESPONSE_BYTES <? bytes_read r)
    then Some ("响应超过 " ++ show_N MAX_RESPONSE_BYTES ++ " bytes 上限")%string else None
  | None =>
    if (MAX_RESPONSE_BYTES <? str_len (resp_body r)) || (MAX_RESPONSE_BYTES <? bytes_read r)
    then Some ("响应超过 " ++ show_N MAX_RESPONSE_BYTES ++ " bytes 上限")%string else None
  end.

(** The next state after a redirect. *)
Definition follow_redirect (st : FetchState) (r : WebFetchHttpResponse) : result FetchFailure FetchState :=
  let status := resp_status r in
  let here f := with_status status (at_url (current st) (fs_transport st) f) in
  fail_if (MAX_REDIRECTS <=? redirects st)
    (here (ff_operation "web_redirect_limit" "redirect"
             ("redirect 超过 " ++ show_N MAX_REDIRECTS ++ " 次上限"))) ;;
  location ← ok_or (header "location" r)
    (here (ff_operation "web_redirect_location_missing" "redirect" "redirect response 缺少 Location"));
  next ← map_err (λ error, here (ff_operation "web_redirect_invalid" "redirect"
                                   ("redirect Location 无效：" ++ error)))
           (url_join (current st) location);
  let next := url_without_fragment next in
  map_err (λ failure, with_status status (at_url next (fs_transport st) failure)) (validate_url_host next) ;;
  next_scheme ← ok_or (WebTransportScheme_from_url next)
    (expect_failure "validated redirect target has an HTTP(S) scheme");
  let t := fs_transport st in
  let denied := mkTransportState (secure_transport_seen t) (plaintext_exposed t) (request_started t)
                  (transport_upgraded t) (redirect_count t + 1) in
  next_transport ← map_err (λ failure, with_status status (at_url next denied failure))
                     (redirect_to next_scheme t);
  fail_if (bool_decide (url_as_str next ∈ visited st))
    (with_status status (at_url next next_transport
       (ff_operation "web_redirect_loop" "redirect" "redirect 形成循环"))) ;;
  mret (mkFetchState next (url_as_str next :: visited st) (redirects st + 1) next_transport).

(** How the loop is left: with a failure, or by the deadline while it waits for the network. *)
Inductive FetchStop := Failed (failure : FetchFailure) | Expired (url : Url) (transport : TransportState).
Definition failed {A} (r : result FetchFailure A) : result FetchStop A := map_err Failed r.

Definition on_response (requested now : string) (max_chars : nat) (st : FetchState)
    (scheme : WebTransportScheme) (r : WebFetchHttpResponse)
    : result FetchFailure (WebFetchResult + FetchState) :=
  let here f := with_status (resp_status r) (at_url (current st) (fs_transport st) f) in
  match response_too_large r with
  | Some message => Err (here (ff_operation "web_response_too_large" "body" message))
  | None =>
    if is_redirect_status (resp_status r) then st ← follow_redirect st r; mret (inr st)
    else
      fail_if (negb ((200 <=? resp_status r) && (resp_status r <? 300)))
        (here (ff_operation "web_http_status" "response"
                 ("HTTP(S) response status " ++ show_N (resp_status r) ++ " 不可读取"))) ;;
      result ← map_err here (read_page requested now max_chars (current st) scheme (fs_transport st) r);
      mret (inl result)
  end.

(** The network: the answer to the [n]-th turn of the loop, or nothing before the deadline. *)
Context (resolve : nat → string → N → option (result WebFetchNetworkError (list SocketAddr))).
Context (get : nat → Url → list SocketAddr → option (result WebFetchNetworkError WebFetchHttpResponse)).

(** A connection that was asked for: the URL and the addresses it is pinned to. *)
Record Request := mkRequest { rq_url : Url; rq_addresses : list SocketAddr }.

(** The part of a turn before the request: the pinned addresses. *)
Definition resolve_target (n : nat) (st : FetchState)
    : result FetchStop (WebTransportScheme * list SocketAddr) :=
  let here f := at_url (current st) (fs_transport st) f in
  failed (map_err here (validate_url_host (current st))) ;;
  host ← failed (ok_or (url_host_str (current st))
           (here (ff_operation "web_url_host_missing" "url" "HTTP(S) URL 缺少主机名")));
  scheme ← failed (ok_or (WebTransportScheme_from_url (current st))
             (expect_failure "validated web_fetch URL has an HTTP(S) scheme"));
  port ← failed (ok_or (url_port_or_known_default (current st))
           (expect_failure "HTTP(S) URL has a known port"));
  addresses ← match resolve n host port with
              | None => Err (Expired (current st) (fs_transport st))
              | Some answer =>
                failed (map_err (λ error, here (ff_transport_failure (wne_code error) "dns" (wne_message error))) answer)
              end;
  failed (map_err here (validate_resolved_addresses addresses port)) ;;
  mret (scheme, dedup_adjacent (merge_sort socket_le addresses)).

(** A turn of the loop: the request it made, and its result or the next state. *)
Definition fetch_turn (requested now : string) (max_chars n : nat) (st : FetchState)
    : list Request * result FetchStop (WebFetchResult + FetchState) :=
  match resolve_target n st with
  | Err stop => ([], Err stop)
  | Ok (scheme, addresses) =>
    let st := mkFetchState (current st) (visited st) (redirects st) (mark_request scheme (fs_transport st)) in
    ([mkRequest (current st) addresses],
     match get n (current st) addresses with
     | None => Err (Expired (current st) (fs_transport st))
     | Some (Err error) =>
       Err (Failed (at_url (current st) (fs_transport st)
                      (ff_transport_failure (wne_code error) "request" (wne_message error))))
     | Some (Ok response) => failed (on_response requested now max_chars st scheme response)
     end)
  end.

(** [fetch_inner]; [None]: the fuel is exhausted. *)
Fixpoint fetch_loop (fuel : nat) (requested now : string) (max_chars n : nat) (st : FetchState)
    : list Request * option (result FetchStop WebFetchResult) :=
  match fuel with
  | O => ([], None)
  | S fuel =>
    match fetch_turn requested now max_chars n st with
    | (requests, Err stop) => (requests, Some (Err stop))
    | (requests, Ok (inl result)) => (requests, Some (Ok result))
    | (requests, Ok (inr st)) =>
      let '(more, out) := fetch_loop fuel requested now max_chars (S n) st in (requests ++ more, out)
    end
  end.
Definition FETCH_TURNS : nat := 6.

(** ** A call *)

Definition preflight_web_fetch (input : Value) : option ToolOutcome :=
  match required_str input "url" with
  | Err error => Some (ToolOutcome_rejected (ToolError_to_string error) RetryAfterCorrection
                       <| to_failure_code := Some Protocol.MissingField |>)
  | Ok requested =>
    match parse_and_validate_url requested with
    | Ok _ => None
    | Err failure => Some (rejected_outcome requested failure)
    end
  end.

(** [execute_web_fetch_with_deadline]: the requests made and the outcome. *)
Definition execute_web_fetch (now : string) (deadline_ms : N) (network_allowed : bool) (input : Value)
    : list Request * option ToolOutcome :=
  match required_str input "url" with
  | Err error => ([], Some (ToolOutcome_error (ToolError_to_string error)
                      <| to_failure_code := Some InvalidField |>
                      <| to_side_effect := SideEffectNotApplicable |>))
  | Ok requested =>
    match parse_and_validate_url requested with
    | Err failure => ([], Some (operation_outcome requested failure))
    | Ok initial =>
      match WebTransportScheme_from_url initial with
      | None => ([], None)
      | Some scheme =>
        let initial_transport := TransportState_initial scheme in
        if negb network_allowed then
          ([], Some (operation_outcome requested (at_url initial initial_transport
             (ff_operation "web_network_not_authorized" "authorization"
                "当前 Run permission 或 actor sandbox 禁止网络访问"))))
        else
          let max_chars := N.max 1 (N.min (optional_u64 input "max_chars" DEFAULT_MAX_CHARS) MAX_MAX_CHARS) in
          let '(requests, out) :=
            fetch_loop FETCH_TURNS requested now (N.to_nat max_chars) 0 (FetchState_initial initial scheme) in
          (requests,
           match out with
           | None => None
           | Some (Ok result) =>
             Some (ToolOutcome_success (value_to_string (WebFetchResult_json result))
                   <| to_side_effect := SideEffectNotApplicable |>)
           | Some (Err (Failed failure)) => Some (operation_outcome requested failure)
           | Some (Err (Expired url transport)) =>
             Some (operation_outcome requested (at_url url transport
               (ff_transport_failure "web_deadline_exceeded" "deadline"
                  ("web_fetch 超过 " ++ show_N deadline_ms ++ " ms 总时限"))))
           end)
      end
    end
  end.

(** ** The production client *)

(** What [SystemWebFetchNetwork::get] checks before it connects. *)
Definition system_get_gate (url : Url) (pinned_addresses : list SocketAddr)
    : result WebFetchNetworkError unit :=
  ok_or (url_host_str url) (mkWebFetchNetworkError "web_url_host_missing" "HTTP(S) URL 缺少主机名") ;;
  expected_port ←
    (if (url_scheme url ==? "http") && (url_port_or_known_default url ==? Some 80) then Ok 80
     else if (url_scheme url ==? "http") && is_some (url_port_or_known_default url)
     then Err (mkWebFetchNetworkError "web_http_port_denied" "公开 HTTP 只允许默认端口 80")
     else match url_port_or_known_default url with
     | Some port => if url_scheme url ==? "https" then Ok port
                    else Err (mkWebFetchNetworkError "web_scheme_denied" "只允许 public HTTP(S) URL")
     | None => Err (mkWebFetchNetworkError "web_scheme_denied" "只允许 public HTTP(S) URL")
     end);
  fail_if (match pinned_addresses with [] => true | _ => false end
           || existsb (λ a, negb (sa_port a =? expected_port) || negb (is_public_ip (sa_ip a))) pinned_addresses)
    (mkWebFetchNetworkError "web_connect_target_denied" "连接目标未通过 public HTTP(S) IP 安全门").

(** The headers it keeps, in the order of the map; [Err]: the value is not ASCII. *)
Definition RESPONSE_HEADERS : list string := ["content-type"; "content-encoding"; "content-length"; "location"].
Fixpoint system_headers (received : list (string * result unit string)) (names : list string)
    : result WebFetchNetworkError (list (string * string)) :=
  match names with
  | [] => Ok []
  | name :: names =>
    match find_first (λ e, e.1 ==? name) received with
    | None => system_headers received names
    | Some (_, Ok value) => rest ← system_headers received names; Ok ((name, value) :: rest)
    | Some (_, Err _) => Err (mkWebFetchNetworkError "web_header_invalid" ("响应头 " ++ name ++ " 不是有效 ASCII"))
    end
  end.

(** The loop over the chunks of the body. *)
Fixpoint system_body (body : string) (chunks : list (result string string))
    : result WebFetchNetworkError string :=
  match chunks with
  | [] => Ok body
  | Err error :: _ =>
    Err (mkWebFetchNetworkError "web_body_read_failed" ("读取 HTTP(S) response body 失败：" ++ error))
  | Ok chunk :: chunks =>
    if MAX_RESPONSE_BYTES <? str_len body + str_len chunk
    then Err (mkWebFetchNetworkError "web_response_too_large"
           ("响应超过 " ++ show_N MAX_RESPONSE_BYTES ++ " bytes 上限"))
    else system_body (body ++ chunk) chunks
  end.

(** What [SystemWebFetchNetwork::get] makes of the answer of the HTTP client. *)
Definition system_response (status : N) (received : list (string * result unit string))
    (chunks : list (result string string)) : result WebFetchNetworkError WebFetchHttpResponse :=
  headers ← system_headers received RESPONSE_HEADERS;
  if is_redirect_status status then Ok (mkWebFetchHttpResponse status headers "" 0)
  else
    let declared := (snd <$> find_first (λ e, e.1 ==? "content-length") headers) ≫= parse_unsigned U64_MAX in
    match declared with
    | Some length =>
      fail_if (MAX_RESPONSE_BYTES <? length)
        (mkWebFetchNetworkError "web_response_too_large"
           ("响应声明 " ++ show_N length ++ " bytes，超过 " ++ show_N MAX_RESPONSE_BYTES ++ " bytes 上限"))
    | None => Ok tt
    end ;;
    body ← system_body "" chunks;
    Ok (mkWebFetchHttpResponse status headers body (str_len body)).

End web_fetch.
