(* ===== verification/WebFetchFacts.v ===== *)
(** Facts about [web_fetch]: where it connects, how far it goes, what its report says and what its
    outcome may be. *)
From Stdlib Require Import Ascii String.
From stdpp Require Import sorting.
From S2P Require Import Prelude.
From S2P Require Import Text.
From S2P Require Import TextOps.
From S2P Require Import Json.
From S2P Require Import Protocol.
From S2P Require Import Validate.
From S2P Require Import Patch.
From S2P Require Import PatchFiles.
From S2P Require Import CommandSafety.
From S2P Require Import BrowserRequest.
From S2P Require Import IpAddr.
From S2P Require Import WebUrl.
From S2P Require Import HtmlText.
From S2P Require Import HtmlTextFacts.
From S2P Require Import WebFetch.

Open Scope string_scope.
Open Scope list_scope.
Open Scope N_scope.

(** ** Targets *)

Section targets.
Context `{UrlLib}.

Lemma validated_url (url : Url) u :
  validate_url_host url = Ok u →
  ∃ scheme port host, WebTransportScheme_from_url url = Some scheme
    ∧ url_port_or_known_default url = Some port ∧ url_host_str url = Some host
    ∧ (scheme = Http → port = 80).
Proof.
  unfold validate_url_host. intros Hv. inv_ok. do 3 eexists. split_and!; [done..|].
  intros ->. bprop. rewrite bool_decide_true in * by done. cbn in *. by bprop.
Qed.

Lemma scheme_of_url (url : Url) s : WebTransportScheme_from_url url = Some s → url_scheme url = scheme_str s.
Proof.
  unfold WebTransportScheme_from_url. case_bool_decide as H1; [by intros [= <-]|].
  case_bool_decide as H2; [by intros [= <-]|done].
Qed.

Lemma resolved_addresses_spec addresses port u :
  validate_resolved_addresses addresses port = Ok u →
  addresses ≠ [] ∧ ∀ a, a ∈ addresses → sa_port a = port ∧ is_public_ip (sa_ip a) = true.
Proof.
  unfold validate_resolved_addresses. intros Hv. inv_ok. split; [by destruct addresses|].
  intros a Ha.
  match goal with Hf : find_first _ _ = None |- _ => pose proof (find_first_None _ _ _ Hf Ha) as Hp end.
  cbv beta in Hp. apply orb_false_iff in Hp as [? ?]. by bprop.
Qed.

Lemma elem_of_pinned a addresses : a ∈ dedup_adjacent (merge_sort socket_le addresses) ↔ a ∈ addresses.
Proof.
  unfold dedup_adjacent. rewrite <-(merge_sort_Permutation socket_le addresses) at 2.
  pose proof (dedup_by_keys (λ b : SocketAddr, b) (merge_sort socket_le addresses) a) as Hk.
  by rewrite !list_fmap_id in Hk.
Qed.
Lemma pinned_nonempty addresses : addresses ≠ [] → dedup_adjacent (merge_sort socket_le addresses) ≠ [].
Proof.
  destruct addresses as [|a l]; [done|]. intros _ Hnil.
  assert (Ha : a ∈ dedup_adjacent (merge_sort socket_le (a :: l))) by (apply elem_of_pinned; left).
  rewrite Hnil in Ha. by apply elem_of_nil in Ha.
Qed.
End targets.

Lemma strongly_sorted_lookup {A} (R : A → A → Prop) l i j a b :
  StronglySorted R l → l !! i = Some a → l !! j = Some b → (i < j)%nat → R a b.
Proof.
  intros Hs. revert i j. induction Hs as [|x l Hs IH Hx]; intros [|i] [|j]; cbn; try done; try lia.
  - intros [= ->] Hb%list_elem_of_lookup_2 _. rewrite Forall_forall in Hx. auto.
  - intros ? ? ?. eapply IH; [done..|lia].
Qed.

(** ** The loop *)

Section fetch.
Context `{UrlLib, !UrlEdit, JsonLib}.
Context (gzip_reads : string → list (result string string)).
Context (resolve : nat → string → N → option (result WebFetchNetworkError (list SocketAddr))).
Context (get : nat → Url → list SocketAddr → option (result WebFetchNetworkError WebFetchHttpResponse)).

Definition is_https (url : Url) : bool := url_scheme url ==? "https".

Lemma is_https_of (url : Url) s : WebTransportScheme_from_url url = Some s → is_https url = (s ==? Https).
Proof. intros Hs. unfold is_https. rewrite (scheme_of_url _ _ Hs). by destruct s. Qed.

(** A request to an admitted URL, pinned to public addresses at the port of the URL. *)
Definition pinned (r : Request) : Prop :=
  validate_url_host (rq_url r) = Ok tt ∧ rq_addresses r ≠ []
  ∧ ∀ a, a ∈ rq_addresses r →
      is_public_ip (sa_ip a) = true ∧ url_port_or_known_default (rq_url r) = Some (sa_port a).

(** Once a request went over HTTPS, all later ones do. *)
Definition no_downgrade (urls : list Url) : Prop :=
  StronglySorted (λ a b, is_https a = true → is_https b = true) urls.

(** The production client connects to a pinned target. *)
Lemma pinned_passes_gate r : pinned r → system_get_gate (rq_url r) (rq_addresses r) = Ok tt.
Proof.
  intros (Hv & Hne & Ha). destruct (validated_url _ _ Hv) as (s & port & host & Hs & Hp & Hh & Hhttp).
  unfold system_get_gate. rewrite Hh, Hp, (scheme_of_url _ _ Hs). cbn [ok_or mbind result_bind].
  assert (Hgate : existsb (λ a, negb (sa_port a =? port) || negb (is_public_ip (sa_ip a))) (rq_addresses r) = false).
  { apply not_true_iff_false. rewrite existsb_exists. intros (a & Hin%list_elem_of_In & Hbad).
    destruct (Ha a Hin) as [Hpub Hport]. rewrite Hp in Hport. injection Hport as ->.
    by rewrite N.eqb_refl, Hpub in Hbad. }
  destruct s; cbn [scheme_str].
  - pose proof (Hhttp eq_refl) as ->. change ("http" ==? "http") with true.
    change (Some 80 ==? Some 80) with true. cbn [andb mbind result_bind]. rewrite Hgate. by destruct (rq_addresses r).
  - change ("https" ==? "http") with false. change ("https" ==? "https") with true.
    cbn [andb mbind result_bind]. rewrite Hgate. by destruct (rq_addresses r).
Qed.

Lemma resolve_target_spec n st scheme addresses :
  resolve_target resolve n st = Ok (scheme, addresses) →
  WebTransportScheme_from_url (current st) = Some scheme ∧ pinned (mkRequest (current st) addresses).
Proof.
  unfold resolve_target, failed. intros Hr. inv_ok.
  subst.
  match goal with Hv : validate_resolved_addresses _ _ = _ |- _ =>
    destruct (resolved_addresses_spec _ _ _ Hv) as [Hne Ha] end.
  split; [done|]. split_and!; cbn; [done|by apply pinned_nonempty|].
  intros a Hin. rewrite elem_of_pinned in Hin. destruct (Ha a Hin) as [<- ?]. done.
Qed.

(** What the loop knows after the requests [hist], before it contacts [current st]. *)
Record loop_inv (hist : list Request) (st : FetchState) : Prop := {
  li_visited : visited st = url_as_str (current st) :: reverse (url_as_str ∘ rq_url <$> hist);
  li_distinct : NoDup (visited st);
  li_redirects : redirects st = N.of_nat (length hist);
  li_bound : redirects st ≤ MAX_REDIRECTS;
  li_count : redirect_count (fs_transport st) = redirects st;
  li_secure : secure_transport_seen (fs_transport st) = is_https (current st);
  li_plain : plaintext_exposed (fs_transport st) = existsb (λ r, negb (is_https (rq_url r))) hist;
  li_upgraded : transport_upgraded (fs_transport st)
                = existsb (λ r, negb (is_https (rq_url r))) hist && is_https (current st);
  li_pinned : Forall pinned hist;
  li_sorted : no_downgrade ((rq_url <$> hist) ++ [current st]);
}.

(** What the requests of a call have in common. *)
Definition trace_ok (rs : list Request) : Prop :=
  Forall pinned rs ∧ NoDup (url_as_str ∘ rq_url <$> rs) ∧ no_downgrade (rq_url <$> rs)
  ∧ N.of_nat (length rs) ≤ MAX_REDIRECTS + 1.

Definition all_https (rs : list Request) : bool := forallb (λ r, is_https (rq_url r)) rs.

(** A report that tells what was done. *)
Definition truthful (requested : string) (max_chars : nat) (rs : list Request) (w : WebFetchResult) : Prop :=
  wr_requested_url w = requested
  ∧ (∃ r, last rs = Some r ∧ wr_final_url w = url_as_str (rq_url r)
      ∧ WebTransportScheme_from_url (rq_url r) = Some (wr_final_scheme w)
      ∧ wr_transport_upgraded w = negb (all_https rs) && is_https (rq_url r))
  ∧ wr_redirect_count w + 1 = N.of_nat (length rs)
  ∧ wr_transport_trajectory w = (if all_https rs then "tls_only" else "plaintext_exposed")
  ∧ wr_transport_integrity w = (if all_https rs then "tls_protected" else "unprotected")
  ∧ 200 ≤ wr_status w < 300
  ∧ wr_bytes_read w ≤ MAX_RESPONSE_BYTES
  ∧ (length (chars (wr_text w)) ≤ max_chars)%nat
  ∧ (length (wr_links w) ≤ MAX_LINKS)%nat ∧ Forall reportable (wr_links w).

Lemma inv_trace hist st : loop_inv hist st → trace_ok hist.
Proof.
  intros [Hv Hd Hr Hb _ _ _ _ Hp Hs]. split_and!; [done| | |].
  - rewrite Hv in Hd. apply NoDup_cons in Hd as [_ Hd]. by rewrite reverse_Permutation in Hd.
  - by eapply StronglySorted_app_1_l.
  - lia.
Qed.
Lemma inv_trace_next hist st r :
  loop_inv hist st → pinned r → rq_url r = current st → trace_ok (hist ++ [r]).
Proof.
  intros [Hv Hd Hr Hb _ _ _ _ Hp Hs] Hr' Hu. split_and!.
  - apply Forall_app. split; [done|]. by rewrite Forall_singleton.
  - rewrite Hv in Hd. rewrite fmap_app. cbn [fmap list_fmap]. unfold compose at 2. rewrite Hu.
    by rewrite reverse_Permutation, Permutation_cons_append in Hd.
  - rewrite fmap_app. cbn. by rewrite Hu.
  - rewrite length_app. cbn [length]. lia.
Qed.

Lemma initial_inv (url : Url) scheme :
  WebTransportScheme_from_url url = Some scheme → loop_inv [] (FetchState_initial url scheme).
Proof.
  intros Hs. constructor; cbn; try done.
  - apply NoDup_singleton.
  - by rewrite (is_https_of _ _ Hs).
  - by repeat constructor.
Qed.

Lemma existsb_all_https rs : existsb (λ r, negb (is_https (rq_url r))) rs = negb (all_https rs).
Proof. unfold all_https. induction rs as [|r rs IH]; [done|]. cbn. rewrite IH. by destruct (is_https _). Qed.

Lemma no_downgrade_snoc urls a b :
  no_downgrade (urls ++ [a]) → (is_https a = true → is_https b = true) → no_downgrade (urls ++ [a; b]).
Proof.
  intros Hs Hab. induction urls as [|u urls IH]; cbn in *.
  - by repeat constructor.
  - apply StronglySorted_inv in Hs as [Hs Hu]. constructor; [by apply IH|].
    apply Forall_app in Hu as [Hu Ha]. rewrite Forall_singleton in Ha.
    apply Forall_app. split; [done|]. repeat constructor; auto.
Qed.

(** The transport of the source records a request before it is made. *)
Definition requested_state (scheme : WebTransportScheme) (st : FetchState) : FetchState :=
  mkFetchState (current st) (visited st) (redirects st) (mark_request scheme (fs_transport st)).

Lemma mark_plain hist st scheme r :
  loop_inv hist st → WebTransportScheme_from_url (current st) = Some scheme → rq_url r = current st →
  plaintext_exposed (mark_request scheme (fs_transport st)) = negb (all_https (hist ++ [r])).
Proof.
  intros Hi Hs Hu. rewrite <- existsb_all_https, existsb_app. cbn. rewrite Hu, (is_https_of _ _ Hs), (li_plain _ _ Hi).
  destruct scheme; cbn; by rewrite ?orb_true_r, ?orb_false_r.
Qed.

Lemma follow_redirect_inv hist st scheme r response st' :
  loop_inv hist st → pinned r → rq_url r = current st →
  WebTransportScheme_from_url (current st) = Some scheme →
  follow_redirect (requested_state scheme st) response = Ok st' →
  loop_inv (hist ++ [r]) st'.
Proof.
  intros Hi Hp Hu Hs Hf. pose proof (mark_plain _ _ _ _ Hi Hs Hu) as Hplain. destruct Hi as [Hv Hd Hr Hb Hc Hsec Hpl Hup Hpin Hsort].
  unfold follow_redirect in Hf. cbn [redirects current fs_transport visited requested_state] in Hf. inv_ok. bprop. subst st'.
  match goal with Hn : WebTransportScheme_from_url ?u = Some ?s', Hr : redirect_to ?s' _ = Ok ?t |- _ =>
    rename Hn into Hnext, Hr into Hred; set (next := u) in *; rename t into t', s' into scheme' end.
  unfold redirect_to in Hred. inv_ok. subst t'.
  cbn [mark_request secure_transport_seen plaintext_exposed transport_upgraded redirect_count] in *.
  constructor; cbn [visited current redirects fs_transport redirect_count secure_transport_seen plaintext_exposed transport_upgraded].
  - rewrite fmap_app, reverse_app, Hv. cbn. by rewrite Hu.
  - by constructor.
  - rewrite length_app. cbn [length]. lia.
  - unfold MAX_REDIRECTS in *. lia.
  - cbn. lia.
  - rewrite Hsec, (is_https_of _ _ Hnext), (is_https_of _ _ Hs) in *. by destruct scheme, scheme'.
  - by rewrite existsb_all_https.
  - rewrite existsb_all_https, <- Hplain, Hup, Hpl, Hsec, (is_https_of _ _ Hnext), (is_https_of _ _ Hs) in *.
    destruct scheme, scheme', (all_https hist); done.
  - apply Forall_app. split; [done|]. by rewrite Forall_singleton.
  - rewrite fmap_app, <- app_assoc. cbn. rewrite Hu. apply no_downgrade_snoc; [done|].
    intros Hh. rewrite Hsec, (is_https_of _ _ Hs), (is_https_of _ _ Hnext) in *. by destruct scheme, scheme'.
Qed.

Lemma not_too_large r : response_too_large r = None → bytes_read r ≤ MAX_RESPONSE_BYTES.
Proof.
  unfold response_too_large. intros Hn. repeat case_match; try done; bprop; done.
Qed.

(** The production client reads no response the loop would refuse for its size. *)
Lemma system_body_bound body chunks out :
  str_len body ≤ MAX_RESPONSE_BYTES → system_body body chunks = Ok out → str_len out ≤ MAX_RESPONSE_BYTES.
Proof.
  revert body; induction chunks as [|[chunk|e] chunks IH]; intros body Hb; cbn; [by intros [= <-]| |done].
  destruct (N.ltb_spec MAX_RESPONSE_BYTES (str_len body + str_len chunk)) as [|Hle]; [done|].
  apply IH. unfold str_len in *. rewrite bytes_app, length_app. lia.
Qed.
Lemma system_response_size status received chunks r :
  system_response status received chunks = Ok r →
  str_len (resp_body r) ≤ MAX_RESPONSE_BYTES ∧ bytes_read r = str_len (resp_body r).
Proof.
  unfold system_response. intros Hr. apply bind_Ok in Hr as (headers & _ & Hr).
  destruct (is_redirect_status status); [by injection Hr as <-|].
  apply bind_Ok in Hr as (_ & _ & Hr). apply bind_Ok in Hr as (body & Hb & Hr). injection Hr as <-.
  split; [|done]. by eapply system_body_bound, Hb.
Qed.

Lemma page_links requested now n (url : Url) scheme t r w :
  read_page gzip_reads requested now n url scheme t r = Ok w →
  (length (wr_links w) ≤ MAX_LINKS)%nat ∧ Forall reportable (wr_links w)
  ∧ (length (chars (wr_text w)) ≤ n)%nat.
Proof.
  unfold read_page. intros Hr. apply bind_Ok in Hr as (media & _ & Hr). apply bind_Ok in Hr as (source & _ & Hr).
  apply bind_Ok in Hr as (text & _ & Hr).
  set (page := if is_html media then _ else _) in Hr.
  pose proof (truncate_chars_bound (ep_text page) n) as Hb.
  destruct (truncate_chars (ep_text page) n) as [shown cut]. inv_ok. subst w. cbn [wr_links wr_text].
  cut ((length (ep_links page) ≤ MAX_LINKS)%nat ∧ Forall reportable (ep_links page)); [by intros []|].
  unfold page. destruct (is_html media); [|by split; [cbn; lia|constructor]].
  by destruct (extract_html_state text url) as (s & _ & -> & []).
Qed.

Lemma page_report requested now n (url : Url) scheme t r w :
  read_page gzip_reads requested now n url scheme t r = Ok w →
  wr_requested_url w = requested ∧ wr_final_url w = url_as_str url ∧ wr_status w = resp_status r
  ∧ wr_bytes_read w = bytes_read r ∧ wr_final_scheme w = scheme
  ∧ trajectory t = Some (wr_transport_trajectory w) ∧ integrity t = Some (wr_transport_integrity w)
  ∧ wr_redirect_count w = redirect_count t ∧ wr_transport_upgraded w = transport_upgraded t.
Proof.
  unfold read_page. intros Hr. apply bind_Ok in Hr as (media & _ & Hr). apply bind_Ok in Hr as (source & _ & Hr).
  apply bind_Ok in Hr as (text & _ & Hr).
  destruct (truncate_chars _ n) as [shown cut]. inv_ok. by subst w.
Qed.

Lemma on_response_result requested now n hist st scheme r response out :
  loop_inv hist st → pinned r → rq_url r = current st →
  WebTransportScheme_from_url (current st) = Some scheme →
  on_response gzip_reads requested now n (requested_state scheme st) scheme response = Ok out →
  match out with
  | inl w => truthful requested n (hist ++ [r]) w
  | inr st' => loop_inv (hist ++ [r]) st'
  end.
Proof.
  intros Hi Hp Hu Hs. unfold on_response. destruct (response_too_large response) eqn:Hsize; [done|].
  destruct (is_redirect_status _) eqn:Hredir; intros Ho.
  { inv_ok. subst out. by eapply follow_redirect_inv. }
  inv_ok. subst out. bprop.
  match goal with Hr : read_page _ _ _ _ _ _ _ _ = Ok ?w |- _ =>
    destruct (page_links _ _ _ _ _ _ _ _ Hr) as (Hlinks & Hrep & Htext);
    destruct (page_report _ _ _ _ _ _ _ _ Hr) as (Hreq & Hurl & Hst & Hread & Hsch & Htr & Hint & Hcount & Hup)
  end.
  cbn [current fs_transport requested_state] in *.
  pose proof (mark_plain _ _ _ _ Hi Hs Hu) as Hplain.
  unfold trajectory, integrity in Htr, Hint. cbn [request_started mark_request] in Htr, Hint.
  change (plaintext_exposed _) with (plaintext_exposed (mark_request scheme (fs_transport st))) in Htr, Hint.
  rewrite Hplain in Htr, Hint.
  split_and!; try done.
  - exists r. rewrite last_snoc, Hu. split_and!; try done; [by rewrite Hsch|].
    rewrite Hup, <- Hplain. cbn [mark_request plaintext_exposed transport_upgraded].
    rewrite (li_upgraded _ _ Hi), (li_plain _ _ Hi), (is_https_of _ _ Hs), existsb_all_https.
    by destruct scheme, (all_https hist).
  - rewrite Hcount, length_app. cbn. rewrite (li_count _ _ Hi), (li_redirects _ _ Hi). lia.
  - by destruct (all_https _); injection Htr as <-.
  - by destruct (all_https _); injection Hint as <-.
  - by rewrite Hst.
  - by rewrite Hst.
  - rewrite Hread. by apply not_too_large.
Qed.

(** *** Failures *)

Definition on_err {E A} (P : E → Prop) (m : result E A) : Prop := match m with Err e => P e | Ok _ => True end.
Lemma on_err_bind {E A B} (P : E → Prop) (m : result E A) (f : A → result E B) :
  on_err P m → (∀ a, m = Ok a → on_err P (f a)) → on_err P (m ≫= f).
Proof. destruct m; cbn; auto. Qed.
Lemma on_err_map {E F A} (P : F → Prop) (g : E → F) (m : result E A) :
  on_err (λ e, P (g e)) m → on_err P (map_err g m).
Proof. by destruct m. Qed.

Lemma on_err_fail_if {E} (P : E → Prop) b e : P e → on_err P (fail_if b e).
Proof. by destruct b. Qed.
Lemma on_err_ok_or {E A} (P : E → Prop) (o : option A) e : P e → on_err P (ok_or o e).
Proof. by destruct o. Qed.

(** No [expect] of the source failed, and exactly the failures of the network may be retried. *)
Definition sound_failure (f : FetchFailure) : Prop :=
  ff_stage f ≠ "panic"
  ∧ ff_retry f = (if ff_transport f then RetrySafe else RetryNotRetryable).
Definition sound_stop (stop : FetchStop) : Prop :=
  match stop with Failed f => sound_failure f | Expired _ _ => True end.

Ltac sound_step :=
  match goal with
  | |- on_err _ (_ ≫= _) => apply on_err_bind; [|intros ? ?]
  | |- on_err _ (map_err _ _) => apply on_err_map
  | |- on_err _ (fail_if _ _) => apply on_err_fail_if
  | |- on_err _ (ok_or (Some _) _) => exact I
  | |- on_err _ (ok_or _ _) => apply on_err_ok_or
  | |- on_err _ (if ?b then _ else _) => destruct b
  | |- on_err _ (match ?m with _ => _ end) => destruct m
  | |- on_err _ (Ok _) => exact I
  | |- on_err _ (mret _) => exact I
  | |- on_err _ ?r => is_var r; destruct r
  | |- on_err _ (url_join ?u ?l) => destruct (url_join u l)
  | |- on_err ?P (Err ?e) => change (P e); cbv beta
  | |- sound_stop (Expired _ _) => exact I
  | |- sound_stop (Failed ?f) => change (sound_failure f)
  | |- sound_failure (at_url _ _ ?f) => change (sound_failure f)
  | |- sound_failure (with_status _ ?f) => change (sound_failure f)
  | |- sound_failure _ => split; [discriminate|reflexivity]
  end.
Ltac sound := repeat sound_step.

Lemma validate_url_host_sound (url : Url) : on_err sound_failure (validate_url_host url).
Proof. unfold validate_url_host. sound. Qed.
Lemma sound_at (url : Url) t f : sound_failure f → sound_failure (at_url url t f).
Proof. done. Qed.
Lemma on_err_weaken {E A} (P Q : E → Prop) (m : result E A) : on_err P m → (∀ e, P e → Q e) → on_err Q m.
Proof. destruct m; cbn; auto. Qed.
Lemma resolved_addresses_sound addresses port : on_err sound_failure (validate_resolved_addresses addresses port).
Proof. unfold validate_resolved_addresses. sound. Qed.

Lemma resolve_target_sound n st : on_err sound_stop (resolve_target resolve n st).
Proof.
  unfold resolve_target, failed. apply on_err_bind; [|intros [] Hv].
  { do 2 apply on_err_map. eapply on_err_weaken; [apply validate_url_host_sound|done]. }
  inv_ok. destruct (validated_url _ _ Hv) as (s & port & host & -> & -> & -> & _). cbn.
  apply on_err_bind; [sound|intros addresses _]. apply on_err_bind; [|done].
  do 2 apply on_err_map. eapply on_err_weaken; [apply resolved_addresses_sound|done].
Qed.

Lemma gunzip_sound decoded reads : on_err sound_failure (gunzip decoded reads).
Proof. revert decoded; induction reads as [|r reads IH]; intros decoded; cbn; [done|]. sound. apply IH. Qed.

Lemma read_page_sound requested now n (url : Url) scheme t r :
  request_started t = true → on_err sound_failure (read_page gzip_reads requested now n url scheme t r).
Proof.
  intros Ht. unfold read_page, parse_media_type, decode_response_body, decode_utf8_source.
  unfold trajectory, integrity. rewrite Ht. sound. apply gunzip_sound.
Qed.
Lemma follow_redirect_sound st r : on_err sound_failure (follow_redirect st r).
Proof.
  unfold follow_redirect. apply on_err_bind; [sound|intros ? _]. apply on_err_bind; [sound|intros location _].
  apply on_err_bind; [sound|intros next _]. apply on_err_bind; [|intros [] Hv].
  { apply on_err_map. eapply on_err_weaken; [apply validate_url_host_sound|done]. }
  inv_ok. destruct (validated_url _ _ Hv) as (s & port & host & -> & _). cbn [ok_or mbind result_bind].
  apply on_err_bind; [|intros t _; sound]. unfold redirect_to. sound.
Qed.
Lemma on_response_sound requested now n scheme st r :
  on_err sound_failure (on_response gzip_reads requested now n (requested_state scheme st) scheme r).
Proof.
  unfold on_response. destruct (response_too_large r); [by sound|]. destruct (is_redirect_status _).
  { apply on_err_bind; [apply follow_redirect_sound|done]. }
  apply on_err_bind; [sound|intros ? _]. apply on_err_bind; [|done]. apply on_err_map.
  eapply on_err_weaken; [by apply read_page_sound|done].
Qed.

(** *** A turn and the loop *)

Definition turn_ok (requested : string) (n : nat) (hist : list Request)
    (turn : list Request * result FetchStop (WebFetchResult + FetchState)) : Prop :=
  match turn with
  | (requests, Err stop) => trace_ok (hist ++ requests) ∧ sound_stop stop
  | (requests, Ok (inl w)) => trace_ok (hist ++ requests) ∧ truthful requested n (hist ++ requests) w
  | (requests, Ok (inr st)) => loop_inv (hist ++ requests) st ∧ length requests = 1%nat
  end.

Lemma fetch_turn_ok requested now n i hist st :
  loop_inv hist st → turn_ok requested n hist (fetch_turn gzip_reads resolve get requested now n i st).
Proof.
  intros Hi. unfold fetch_turn. pose proof (resolve_target_sound i st) as Hsound.
  destruct (resolve_target resolve i st) as [[scheme addresses]|stop] eqn:Ht; cbn [turn_ok].
  2: { rewrite app_nil_r. split; [by eapply inv_trace|done]. }
  destruct (resolve_target_spec _ _ _ _ Ht) as [Hs Hp].
  change (mkFetchState _ _ _ _) with (requested_state scheme st). cbn [current requested_state].
  set (r := mkRequest (current st) addresses) in *.
  pose proof (inv_trace_next hist st r Hi Hp eq_refl) as Htrace.
  destruct (get i (current st) addresses) as [[response|error]|]; cbn [failed map_err]; try (by split).
  pose proof (on_response_sound requested now n scheme st response) as Hresp.
  pose proof (on_response_result requested now n hist st scheme r response) as Hout.
  destruct (on_response gzip_reads requested now n _ scheme response) as [[w|st']|f]; cbn in *.
  - split; [done|]. by apply (Hout (inl w)).
  - split; [by apply (Hout (inr st'))|done].
  - by split.
Qed.

Lemma fetch_loop_ok requested now n fuel i hist st :
  loop_inv hist st →
  N.of_nat fuel = MAX_REDIRECTS + 1 - redirects st →
  let '(requests, out) := fetch_loop gzip_reads resolve get fuel requested now n i st in
  trace_ok (hist ++ requests)
  ∧ match out with
    | None => False
    | Some (Ok w) => truthful requested n (hist ++ requests) w
    | Some (Err stop) => sound_stop stop
    end.
Proof.
  revert i hist st; induction fuel as [|fuel IH]; intros i hist st Hi Hf; cbn [fetch_loop].
  { pose proof (li_bound _ _ Hi). lia. }
  pose proof (fetch_turn_ok requested now n i hist st Hi) as Ht.
  destruct (fetch_turn _ _ _ _ _ _ _ _) as [requests [[w|st']|stop]]; cbn in Ht; [done| |done].
  destruct Ht as [Hi' Hlen].
  assert (Hnext : redirects st' = redirects st + 1).
  { rewrite (li_redirects _ _ Hi'), (li_redirects _ _ Hi), length_app. lia. }
  specialize (IH (S i) _ _ Hi' ltac:(pose proof (li_bound _ _ Hi'); lia)).
  destruct (fetch_loop _ _ _ _ _ _ _ _ st') as [more out]. by rewrite app_assoc.
Qed.

(** *** A call *)

Definition call_max_chars (input : Value) : nat :=
  N.to_nat (N.max 1 (N.min (optional_u64 input "max_chars" DEFAULT_MAX_CHARS) MAX_MAX_CHARS)).

(** How a call ends: what its outcome is made of. *)
Inductive call_outcome (input : Value) (requests : list Request) : ToolOutcome → Prop :=
| call_no_url error :
    requests = [] → required_str input "url" = Err error →
    call_outcome input requests (ToolOutcome_error (ToolError_to_string error)
      <| to_failure_code := Some InvalidField |> <| to_side_effect := SideEffectNotApplicable |>)
| call_failed requested failure :
    sound_failure failure → call_outcome input requests (operation_outcome requested failure)
| call_done requested w :
    required_str input "url" = Ok requested → truthful requested (call_max_chars input) requests w →
    call_outcome input requests (ToolOutcome_success (value_to_string (WebFetchResult_json w))
      <| to_side_effect := SideEffectNotApplicable |>).

Lemma parsed_url_valid requested (url : Url) :
  parse_and_validate_url requested = Ok url → validate_url_host url = Ok tt.
Proof. unfold parse_and_validate_url. intros Hp. inv_ok. by subst. Qed.
Lemma parsed_url_sound requested : on_err sound_failure (parse_and_validate_url requested).
Proof.
  unfold parse_and_validate_url. apply on_err_bind; [sound|intros ? _].
  apply on_err_bind; [destruct (Url_parse requested); sound|intros url _]. cbv zeta.
  pose proof (validate_url_host_sound (url_without_fragment url)) as Hv.
  destruct (validate_url_host (url_without_fragment url)); [done|].
  by destruct (WebTransportScheme_from_url (url_without_fragment url)).
Qed.

Lemma execute_web_fetch_ends now deadline allowed input :
  ∃ requests out,
    execute_web_fetch gzip_reads resolve get now deadline allowed input = (requests, Some out)
    ∧ trace_ok requests ∧ (requests = [] ∨ allowed = true) ∧ call_outcome input requests out.
Proof.
  assert (Hnil : trace_ok []) by (split_and!; [done|apply NoDup_nil_2|by constructor|cbn; lia]).
  unfold execute_web_fetch. destruct (required_str input "url") as [requested|error] eqn:Hreq.
  2: { do 2 eexists. split; [done|]. split_and!; [done|by left|by apply call_no_url]. }
  pose proof (parsed_url_sound requested) as Hsound.
  destruct (parse_and_validate_url requested) as [url|failure] eqn:Hp.
  2: { do 2 eexists. split; [done|]. split_and!; [done|by left|by apply call_failed]. }
  destruct (validated_url _ _ (parsed_url_valid _ _ Hp)) as (scheme & port & host & Hs & _). rewrite Hs.
  destruct allowed; cbn [negb].
  2: { do 2 eexists. split; [done|]. split_and!; [done|by left|apply call_failed; by split]. }
  pose proof (fetch_loop_ok requested now (call_max_chars input) FETCH_TURNS 0 [] _
    (initial_inv url scheme Hs) eq_refl) as Hl.
  fold (call_max_chars input).
  destruct (fetch_loop _ _ _ _ _ _ _ _ _) as [requests out]. destruct Hl as [Htrace Hout].
  destruct out as [[w|[failure|u t]]|]; [| | |done]; do 2 eexists; (split; [done|]); split_and!; try done; try (by right).
  - by eapply call_done.
  - by apply call_failed.
  - apply call_failed. by split.
Qed.

(** C38: A call of [web_fetch] always ends, within six requests.  Every one goes to a URL the target
    policy admits and is pinned to public addresses at that URL's port - the production client
    connects to exactly those -, no URL is asked for twice, and after a request over HTTPS there is
    none over HTTP.  Without network permission there is no request. *)
Theorem fetch_only_contacts_public_hosts now deadline allowed input :
  let '(requests, out) := execute_web_fetch gzip_reads resolve get now deadline allowed input in
  is_Some out
  ∧ (length requests ≤ 6)%nat
  ∧ (∀ r, r ∈ requests →
      validate_url_host (rq_url r) = Ok tt
      ∧ system_get_gate (rq_url r) (rq_addresses r) = Ok tt
      ∧ rq_addresses r ≠ []
      ∧ ∀ a, a ∈ rq_addresses r →
          is_public_ip (sa_ip a) = true ∧ url_port_or_known_default (rq_url r) = Some (sa_port a))
  ∧ NoDup (url_as_str ∘ rq_url <$> requests)
  ∧ (∀ i j r r', (i < j)%nat → requests !! i = Some r → requests !! j = Some r' →
      url_scheme (rq_url r) = "https" → url_scheme (rq_url r') = "https")
  ∧ (requests = [] ∨ allowed = true).
Proof.
  destruct (execute_web_fetch_ends now deadline allowed input) as (requests & out & -> & Htrace & Hnet & _).
  destruct Htrace as (Hp & Hd & Hs & Hl). unfold MAX_REDIRECTS in Hl. split_and!; [by eexists|lia| |done| |done].
  - intros r Hr. rewrite Forall_forall in Hp. specialize (Hp r Hr). pose proof (pinned_passes_gate r Hp). by destruct Hp as (? & ? & ?).
  - intros i j r r' Hij Hi Hj Hh.
    assert (Hord : is_https (rq_url r) = true → is_https (rq_url r') = true).
    { refine (strongly_sorted_lookup _ _ i j _ _ Hs _ _ Hij); by rewrite list_lookup_fmap, ?Hi, ?Hj. }
    unfold is_https in Hord. rewrite !bool_decide_eq_true in Hord. auto.
Qed.

(** C39: The report of a successful fetch tells what was done: its final URL and scheme are those of
    the last request, its redirects are the other requests, it claims [tls_only] exactly when every
    request went over HTTPS and an upgrade exactly when the first did not and the last did, and its
    size, links and status are within the bounds. *)
Theorem fetch_report_is_truthful now deadline allowed input requests out :
  execute_web_fetch gzip_reads resolve get now deadline allowed input = (requests, Some out) →
  ToolOutcome_is_success out = true →
  ∃ requested w, required_str input "url" = Ok requested
    ∧ to_content out = value_to_string (WebFetchResult_json w)
    ∧ truthful requested (call_max_chars input) requests w.
Proof.
  intros He Hs. destruct (execute_web_fetch_ends now deadline allowed input) as (rs & o & He' & _ & _ & Ho).
  rewrite He in He'. injection He' as <- <-. destruct Ho as [error _ _|requested f _|requested w Hreq Ht]; [done| |by exists requested, w].
  unfold operation_outcome in Hs. by destruct (ff_transport f).
Qed.

(** Whatever the network answers, the outcome of [web_fetch] is a well-formed outcome of an
    accepted call without side effects; none of the source's assertions fails; and a retry is
    called safe exactly for the failures of the network. *)
Theorem fetch_outcome_is_well_formed `{!ProtocolCodec} now deadline allowed input :
  ∃ out, (execute_web_fetch gzip_reads resolve get now deadline allowed input).2 = Some out
    ∧ ToolOutcome_validate out = Ok tt
    ∧ to_invocation out = InvocationAccepted
    ∧ to_side_effect out = SideEffectNotApplicable
    ∧ (to_retry out = RetrySafe ↔ to_failure_code out = Some TransportFailed).
Proof.
  destruct (execute_web_fetch_ends now deadline allowed input) as (rs & out & -> & _ & _ & Ho). exists out.
  destruct Ho as [error _ _|requested f [_ Hr]|requested w _ _]; [by split_and!| |by split_and!].
  unfold operation_outcome. rewrite Hr. destruct (ff_transport f); by split_and!.
Qed.
End fetch.
