(* ===== verification/ToolAuthorization.v ===== *)
(** The authorization of a tool call by the production executor ([crates/tools/src/production.rs]):
    the decision table over permission mode, execution grant, path boundary, command policy,
    command safety and network, and the outcomes of calls that fail before or after they start.

    Parameters: the live browser session ([SemanticBrowserHarness], a trait object), the verifier
    resolver (which reads the workspace and draws a fresh lease), and the file system. *)
From Stdlib Require Import Ascii String.
From S2P Require Import Prelude.
From S2P Require Import Text.
From S2P Require Import TextOps.
From S2P Require Import Json.
From S2P Require Import Task.
From S2P Require Import Protocol.
From S2P Require Import RunApi.
From S2P Require Import Validate.
From S2P Require Import Patch.
From S2P Require Import PatchFiles.
From S2P Require Import ExecPolicy.
From S2P Require Import CommandSafety.
From S2P Require Import Paths.
From S2P Require Import Sandbox.
From S2P Require Import BrowserRequest.

Open Scope string_scope.
Open Scope N_scope.

(** ** Failed calls *)

Definition unavailable (name : string) : ToolOutcome :=
  ToolOutcome_rejected ("工具 '" ++ name ++ "' 未在生产 AgentRuntime 工具目录中提供") RetryNotRetryable
  <| to_failure_code := Some UnknownTool |>.

Definition preflight_error_code (error : ToolError) : ToolFailureCode :=
  match error with
  | Patch.SchemaValidation _ => Protocol.SchemaValidation
  | Patch.MissingField _ => Protocol.MissingField
  | Patch.PatchParse _ => Protocol.PatchParse
  | NotAvailable _ => UnknownTool
  | InvalidInput _ | PathEscape _ => InvalidField
  | PermissionDenied _ => InvocationRejected
  | Patch.WorkspacePrecondition _ | Patch.StaleRead _ | Patch.AmbiguousEdit _ | TimeoutError _
  | ExecutionFailed _ => OperationFailed
  end.
Definition preflight_error_outcome (error : ToolError) : ToolOutcome :=
  ToolOutcome_rejected (ToolError_to_string error) RetryAfterCorrection
  <| to_failure_code := Some (preflight_error_code error) |>.

(** A failure that changed nothing. *)
Definition not_applied (code : option ToolFailureCode) (retry : ToolRetryDisposition) (error : ToolError)
    : ToolOutcome :=
  let outcome := ToolOutcome_error (ToolError_to_string error) in
  let outcome := match code with
                 | Some c => outcome <| to_failure_code := Some c |>
                 | None => outcome end in
  outcome <| to_side_effect := SideEffectNotApplied |> <| to_retry := retry |>.

Definition execution_error_outcome (error : ToolError) (workspace_access : WorkspaceAccess) : ToolOutcome :=
  let outcome :=
    match error with
    | Patch.SchemaValidation _ | InvalidInput _ | Patch.MissingField _ | PathEscape _ | Patch.PatchParse _ =>
      not_applied (Some InvalidField) RetryAfterCorrection error
    | Patch.WorkspacePrecondition _ => not_applied (Some Protocol.WorkspacePrecondition) RetryAfterCorrection error
    | Patch.StaleRead _ => not_applied (Some Protocol.StaleRead) RetryAfterCorrection error
    | Patch.AmbiguousEdit _ => not_applied (Some Protocol.AmbiguousEdit) RetryAfterCorrection error
    | NotAvailable _ | PermissionDenied _ => not_applied None RetryNotRetryable error
    | TimeoutError _ =>
      ToolOutcome_error (ToolError_to_string error)
      <| to_operation := OperationIndeterminate |> <| to_retry := RetryUnsafe |>
    | ExecutionFailed _ => ToolOutcome_error (ToolError_to_string error)
    end in
  with_workspace_access_guarantee outcome workspace_access.

(** ** The catalog *)

Definition APPLICATION_PROBE_VERIFIER_ID : string := "application_probe".
Definition PRODUCTION_TOOL_NAMES : list string := [
  "apply_patch"; "browser_interact"; "browser_navigate"; "edit_file"; "exec_shell"; "file_search";
  "git_diff"; "git_status"; "grep_files"; "list_dir"; "load_skill"; "read_file"; "run_tests";
  "run_verifiers"; "web_fetch"; "web_search"
].

Definition READ_ONLY_TOOLS : list string := [
  "browser_navigate"; "file_search"; "git_diff"; "git_status"; "grep_files"; "list_dir"; "load_skill";
  "read_file"; "web_fetch"; "web_search"
].
Definition definition_workspace_access (name : string) : WorkspaceAccess :=
  if bool_decide (name ∈ READ_ONLY_TOOLS) then WorkspaceReadOnly else WorkspaceMayWrite.
Definition workspace_access (invocation : ToolInvocation) : WorkspaceAccess :=
  definition_workspace_access (ti_name invocation).

(** ** The executor *)

(** [ProductionToolConfig], without the transports and registries the decisions do not read. *)
Record ProductionToolConfig := mkProductionToolConfig {
  cfg_workspace : PathBuf;
  cfg_allow_external_paths : bool;
  cfg_follow_symlinks : bool;
  cfg_permission_mode : RunPermissionMode;
  cfg_elevated_sandbox_policy : option SandboxPolicy;
  cfg_exec_policy : option ExecPolicy;
  cfg_browser_local_origin : option string;
}.
Definition ProductionToolConfig_new (ws : PathBuf) : ProductionToolConfig :=
  mkProductionToolConfig ws false false PermissionAsk None None None.
Definition config_with_permission_mode (mode : RunPermissionMode) (c : ProductionToolConfig)
    : ProductionToolConfig :=
  mkProductionToolConfig (cfg_workspace c)
    (bool_decide (mode ∈ [PermissionAgent; PermissionFullAccess])) (cfg_follow_symlinks c) mode
    (cfg_elevated_sandbox_policy c) (cfg_exec_policy c) (cfg_browser_local_origin c).
Definition rebind_isolated_writer_workspace (ws : PathBuf) (c : ProductionToolConfig)
    : ProductionToolConfig :=
  mkProductionToolConfig ws false false (cfg_permission_mode c) (Some (isolated_writer ws))
    (cfg_exec_policy c) None.

Record ProductionToolExecutor := mkProductionToolExecutor {
  pe_context : ProductionToolContext;
  pe_elevated_sandbox_policy : option SandboxPolicy;
  pe_exec_policy : option ExecPolicy;
  pe_controlled_network_allowed : bool;
  pe_browser_local_origin : option string;
}.

Definition ProductionToolExecutor_new (canonicalize : PathBuf → result string PathBuf)
    (config : ProductionToolConfig) : ProductionToolExecutor :=
  let isolated_writer_workspace :=
    match cfg_elevated_sandbox_policy config with Some (IsolatedWriter ws _) => Some ws | _ => None end in
  let context := Paths.with_permission_mode (cfg_permission_mode config)
    (with_follow_symlinks (cfg_follow_symlinks config)
      (with_external_path_authority (cfg_allow_external_paths config)
        (new_context (cfg_workspace config)))) in
  let context := match isolated_writer_workspace with
                 | Some ws => with_isolated_writer_write_guard canonicalize ws context
                 | None => context end in
  mkProductionToolExecutor context (cfg_elevated_sandbox_policy config) (cfg_exec_policy config)
    (is_none isolated_writer_workspace) (cfg_browser_local_origin config).

Record ToolExecutionError := mkToolExecutionError { tee_code : string; tee_message : string }.

Inductive ExecShellPolicyDecision := PolicyAllow (label : string) | PolicyDeny (label : string).

(** ** External paths *)

Definition str_field (key : string) (v : Value) : option string := value_get key v ≫= as_str.
Definition array_field (key : string) (v : Value) : list Value := default [] (value_get key v ≫= as_array).
Definition nonempty_fields (key : string) (vs : list Value) : list string :=
  filter (λ s, negb (is_empty_str s)) (omap (str_field key) vs).

(** The paths an invocation names, in the order they are tested. *)
Definition invocation_paths (tool_name : string) (input : Value) (allow_external_verifier_program : bool)
    : list string :=
  (omap (λ key, str_field key input) ["path"; "cwd"]
   ++ omap (str_field "path") (array_field "changes" input)
   ++ nonempty_fields "cwd" (array_field "commands" input)
   ++ (if allow_external_verifier_program then [] else nonempty_fields "program" (array_field "commands" input))
   ++ (if tool_name ==? "apply_patch" then
         match preflight_apply_patch input with Ok p => ap_touched_files p | Err _ => [] end
       else []))%list.

Record BrowserAuthorizationPreview := mkBrowserAuthorizationPreview {
  bap_public : bool;
  bap_origin : string;
  bap_target : string;
  bap_parameters : string;
  bap_impact : string;
  bap_external_side_effect : bool;
}.

(** ** Decisions *)

(** [AuthorizationDecisionBuilder] *)
Record AuthorizationDecisionBuilder := mkAuthorizationDecisionBuilder {
  b_mode : RunPermissionMode;
  b_execution_grant : ToolExecutionGrant;
  b_invocation : ToolInvocation;
  b_workspace_state : WorkspaceState;
}.

Definition build `{JsonLib} (b : AuthorizationDecisionBuilder) (disposition : ToolAuthorizationDisposition)
    (risk : ApprovalRisk) (matched_rule : option string) (reason : string)
    (prompt : option ToolApprovalPrompt) : ToolAuthorizationDecision :=
  mkToolAuthorizationDecision (b_mode b) (b_execution_grant b) (ti_name (b_invocation b))
    (arguments_sha256 (b_invocation b)) (b_workspace_state b) disposition risk matched_rule reason prompt.

(** A decision that asks when approval is needed and allows otherwise; the prompt repeats the reason. *)
Definition ask_or_allow `{JsonLib} (b : AuthorizationDecisionBuilder) (needs_approval : bool)
    (risk : ApprovalRisk) (rule title reason : string) : ToolAuthorizationDecision :=
  build b (if needs_approval then DispositionAsk else DispositionAllow) risk (Some rule) reason
    (if needs_approval then Some (mkToolApprovalPrompt title reason risk) else None).

(** The approval an elevated shell command asks for. *)
Definition shell_approval `{JsonLib} (b : AuthorizationDecisionBuilder) (high_risk : bool)
    : ToolAuthorizationDecision :=
  let risk := if high_risk then RiskCritical else RiskElevated in
  build b DispositionAsk risk (Some (if high_risk then "host_high_risk" else "host_elevated_shell"))
    "Host 工具分类要求本次调用获得明确批准"
    (Some (mkToolApprovalPrompt "确认执行高风险命令"
             "批准仅绑定本次命令参数与当前工作区 revision；后续调用不会继承。" risk)).

Definition line_feed : string := String (ascii_of_N 10) "".

Section authorization.
Context `{JsonLib, TaskCodec, UrlLib}.
Context (shlex_split : string → option (list string)).
Context (to_lowercase : string → string).
Context (path_exists : PathBuf → bool).
Context (canonicalize : PathBuf → result string PathBuf).
Context (resolve_verifier_spec : string → Value → result ToolError VerifierSpec).
Context (authorization_preview : RunId → BrowserInteractRequest → option BrowserAuthorizationPreview).

Definition invocation_has_external_path (tool_name : string) (input : Value) (context : ProductionToolContext)
    (allow_external_verifier_program : bool) : bool :=
  existsb (path_is_external path_exists canonicalize context)
          (invocation_paths tool_name input allow_external_verifier_program).

(** [ProductionExecShellHost::evaluate_exec_policy] *)
Definition evaluate_exec_policy (exec_policy : option ExecPolicy) (command : string)
    : option ExecShellPolicyDecision :=
  policy ← exec_policy;
  matched ← evaluate shlex_split policy command;
  let label := rule_label matched in
  Some (match disposition matched with Allow => PolicyAllow label | Deny => PolicyDeny label end).

(** *** Shell commands

    [None]: no decision is taken here, and [authorize] goes on. *)
Definition authorize_shell (self : ProductionToolExecutor) (mode : RunPermissionMode)
    (decision : AuthorizationDecisionBuilder) (command : string) : option ToolAuthorizationDecision :=
  let explicit_rule := evaluate_exec_policy (pe_exec_policy self) command in
  match explicit_rule with
  | Some (PolicyDeny reason) =>
    Some (build decision DispositionDeny RiskCritical (Some reason) "explicit execpolicy deny" None)
  | _ =>
    let safety := analyze_command shlex_split to_lowercase command in
    if level safety ==? Dangerous then
      Some (build decision DispositionDeny RiskCritical (Some "host_hard_invariant")
              ("内建安全不变量拒绝该命令：" ++ str_join "; " (reasons safety)) None)
    else
      let high_risk := command_is_high_impact shlex_split to_lowercase command in
      let needs_network := command_likely_needs_network command in
      let sandbox_denies_network :=
        is_some_and (pe_elevated_sandbox_policy self) (λ policy, negb (has_network_access policy)) in
      if needs_network && ((mode ==? PermissionAsk) || sandbox_denies_network) then
        Some (build decision DispositionDeny RiskElevated
          (Some (if mode ==? PermissionAsk then "ask_network_fail_closed" else "sandbox_network_denied"))
          (if mode ==? PermissionAsk then "当前执行后端不能证明一次性网络授权范围，已安全拒绝"
           else "当前 actor 的冻结执行边界禁止网络访问") None)
      else
        let needs_approval :=
          match mode with
          | PermissionAsk => high_risk || (level safety ==? RequiresApproval)
          | PermissionAgent => high_risk
          | PermissionFullAccess => false
          end in
        let approval := if needs_approval then Some (shell_approval decision high_risk) else None in
        match explicit_rule with
        | Some (PolicyAllow rule) =>
          if negb high_risk || (mode ==? PermissionFullAccess) then
            Some (build decision DispositionAllow (if high_risk then RiskCritical else RiskRoutine)
                    (Some rule) "explicit execpolicy allow" None)
          else approval
        | _ => approval
        end
  end.

(** *** Tools that use the network *)

Definition local_denied_request (request : BrowserInteractRequest) : bool :=
  match request with
  | Submit _ | Login _ _ | Upload _ _ | Download _ | PromoteDownload _ _ | SessionStatus | SessionClear => true
  | _ => false
  end.

Definition authorize_interact (self : ProductionToolExecutor) (mode : RunPermissionMode)
    (decision : AuthorizationDecisionBuilder) (input : Value)
    : result ToolExecutionError ToolAuthorizationDecision :=
  match parse_browser_interact_for_authorization input with
  | Err message => Err (mkToolExecutionError "browser_interact_authorization_invalid" message)
  | Ok request =>
    match authorization_preview (ti_run_id (b_invocation decision)) request with
    | None =>
      if is_none (pe_browser_local_origin self) then
        Ok (build decision DispositionDeny RiskElevated (Some "browser_session_scope_missing")
              "browser_interact 没有同一 Run 的 live scoped browser session" None)
      else if local_denied_request request then
        Ok (build decision DispositionDeny RiskCritical (Some "browser_local_submit_not_admitted")
              "exact-loopback semantic interaction 不冒充 managed public session 能力" None)
      else
        Ok (build decision DispositionAllow RiskRoutine (Some "exact_local_semantic_interaction")
              "Host exact-loopback session 只消费同一 Run 当前 page epoch 的 typed opaque ref" None)
    | Some preview =>
      let external := bap_external_side_effect preview in
      let needs_approval := (external && negb (mode ==? PermissionFullAccess))
                            || (bap_public preview && (mode ==? PermissionAsk)) in
      let description :=
        "exact origin: " ++ bap_origin preview ++ line_feed ++ "exact target: " ++ bap_target preview
        ++ line_feed ++ "parameters: " ++ bap_parameters preview ++ line_feed ++ "impact: "
        ++ bap_impact preview ++ line_feed ++ "批准只绑定本次 invocation 与当前 workspace revision。" in
      Ok (ask_or_allow decision needs_approval (if external then RiskElevated else RiskRoutine)
            (if external then "scoped_public_reversible_side_effect" else "scoped_public_semantic_interaction")
            (if external then "确认可撤销的公开站点写操作" else "确认公开站点交互") description)
    end
  end.

(** The requested URL is the Host-owned loopback origin, or lies below it. *)
Definition exact_local_url (origin : string) (input : Value) : bool :=
  match str_field "url" input with
  | None => false
  | Some raw =>
    match Url_parse raw with
    | Err _ => false
    | Ok url =>
      let value := url_scheme url ++ "://" ++ default "" (url_host_str url)
                   ++ match url_port url with Some port => ":" ++ show_N port | None => "" end in
      let trimmed := trim_end_byte 47 origin in
      (value ==? trimmed) || starts_with (trimmed ++ "/") (url_as_str url)
    end
  end.

Definition authorize_navigate (self : ProductionToolExecutor) (mode : RunPermissionMode)
    (decision : AuthorizationDecisionBuilder) (input : Value) : ToolAuthorizationDecision :=
  let exact_local := is_some_and (pe_browser_local_origin self) (λ origin, exact_local_url origin input) in
  let requested_url := default "" (str_field "url" input) in
  let description :=
    if exact_local then "只读语义浏览由 Host exact-local-origin egress guard、GET/HEAD 与资源上限约束"
    else "exact target: " ++ requested_url ++ line_feed
         ++ "impact: 读取 public external_untrusted 页面；Host 强制 URL/DNS/connect/redirect、origin 与资源边界。" in
  ask_or_allow decision (negb exact_local && (mode ==? PermissionAsk)) RiskRoutine
    (if exact_local then "exact_local_semantic_browser" else "public_semantic_browser")
    "确认读取公开网页" description.

Definition authorize_search (mode : RunPermissionMode) (decision : AuthorizationDecisionBuilder)
    (input : Value) : ToolAuthorizationDecision :=
  let query := default "" (str_field "query" input) in
  ask_or_allow decision (mode ==? PermissionAsk) RiskRoutine "canonical_public_web_search"
    "确认搜索公开 Web"
    ("query: " ++ query ++ line_feed ++ "impact: 向固定 Host-owned search endpoint 发送一次查询；结果只作 external_untrusted discovery，引用前必须读取并交叉核验原来源。").

Definition authorize_fetch (mode : RunPermissionMode) (decision : AuthorizationDecisionBuilder)
    (input : Value) : ToolAuthorizationDecision :=
  let plaintext_http :=
    is_some_and (str_field "url" input)
      (λ raw, match Url_parse raw with Ok url => url_scheme url ==? "http" | Err _ => false end) in
  let requested_url := default "" (str_field "url" input) in
  let reason :=
    "exact target: " ++ requested_url ++ line_feed
    ++ (if plaintext_http
        then "impact: 读取不受传输保护的 public HTTP external_untrusted 内容；Host 强制 URL/DNS/connect/redirect 边界。"
        else "impact: 读取 public HTTPS external_untrusted 内容；Host 强制 URL/DNS/connect/redirect 边界。") in
  ask_or_allow decision (mode ==? PermissionAsk) RiskRoutine
    (if plaintext_http then "public_plaintext_http_web_fetch" else "public_https_web_fetch")
    "确认读取公开 URL" reason.

Definition NETWORK_TOOLS : list string := ["browser_interact"; "browser_navigate"; "web_fetch"; "web_search"].

Definition authorize_network (self : ProductionToolExecutor) (mode : RunPermissionMode)
    (decision : AuthorizationDecisionBuilder) (name : string) (input : Value)
    : result ToolExecutionError ToolAuthorizationDecision :=
  if negb (pe_controlled_network_allowed self) then
    Ok (build decision DispositionDeny RiskElevated (Some "actor_controlled_network_denied")
          "当前 actor 的冻结边界禁止 Host-controlled 网络访问" None)
  else if name ==? "browser_interact" then authorize_interact self mode decision input
  else if name ==? "browser_navigate" then Ok (authorize_navigate self mode decision input)
  else if name ==? "web_search" then Ok (authorize_search mode decision input)
  else Ok (authorize_fetch mode decision input).

(** *** The whole decision *)

Definition verifier_program_allowed (execution_grant : ToolExecutionGrant) (name : string) (input : Value)
    : bool :=
  match execution_grant with
  | GrantOrdinary => false
  | GrantTaskContractVerifier _ verifier_sha256 =>
    is_ok_and (resolve_verifier_spec name input) (λ verifier, VerifierSpec_sha256 verifier ==? verifier_sha256)
  end.

(** [authorize] after the shell and network tools. *)
Definition authorize_rest (decision : AuthorizationDecisionBuilder) (allow_external_verifier_program : bool)
    : ToolAuthorizationDecision :=
  if allow_external_verifier_program then
    build decision DispositionAllow RiskRoutine (Some "task_contract_verifier_exact")
      "Host 冻结的 TaskContract verifier 与 canonical 执行计划完全一致" None
  else
    build decision DispositionAllow RiskRoutine (Some "permission_mode_allow")
      "frozen Run permission allows this invocation" None.

Definition authorize (self : ProductionToolExecutor) (mode : RunPermissionMode)
    (execution_grant : ToolExecutionGrant) (invocation : ToolInvocation) (workspace_state : WorkspaceState)
    : result ToolExecutionError ToolAuthorizationDecision :=
  fail_if (negb (mode ==? Paths.permission_mode (pe_context self)))
    (mkToolExecutionError "permission_mode_mismatch"
       "tool executor permission mode differs from the frozen Run") ;;
  input ← ok_or (ta_parsed (ti_arguments invocation))
    (mkToolExecutionError "authorization_arguments_missing"
       "tool authorization requires parsed arguments");
  match ToolExecutionGrant_validate execution_grant with
  | Err message => Err (mkToolExecutionError "execution_grant_invalid" message)
  | Ok _ =>
    let name := ti_name invocation in
    let decision := mkAuthorizationDecisionBuilder mode execution_grant invocation workspace_state in
    let allow_external := verifier_program_allowed execution_grant name input in
    if negb (execution_grant ==? GrantOrdinary) && negb allow_external then
      Ok (build decision DispositionDeny RiskElevated (Some "task_contract_verifier_grant_invalid")
            "冻结 verifier 执行授权与当前 canonical verifier 不一致" None)
    else if invocation_has_external_path name input (pe_context self) allow_external
            && negb (allow_external_paths (pe_context self)) then
      Ok (build decision DispositionDeny RiskElevated
            (Some (if mode ==? PermissionAsk then "ask_external_path_fail_closed"
                   else "actor_external_path_denied"))
            (if mode ==? PermissionAsk then "当前执行后端不能证明一次性外部路径授权范围，已安全拒绝"
             else "当前 actor 的冻结执行边界禁止外部路径访问") None)
    else
      shell ← (if name ==? "exec_shell" then
                 command ← ok_or (str_field "command" input)
                   (mkToolExecutionError "authorization_command_missing"
                      "exec_shell authorization requires command");
                 mret (authorize_shell self mode decision command)
               else mret None);
      match shell with
      | Some d => Ok d
      | None =>
        if bool_decide (name ∈ NETWORK_TOOLS) then authorize_network self mode decision name input
        else Ok (authorize_rest decision allow_external)
      end
  end.

End authorization.

(** ** Execution

    The tools themselves are a parameter: what [dispatch] comes to, raced against cancellation. *)

Inductive DispatchEnd :=
| Finished (r : result ToolError ToolOutcome)             (** the tool ended first *)
| FinishedAfterCancel (r : result ToolError ToolOutcome)  (** within five seconds of the cancellation *)
| NotStopped.                                             (** the five seconds elapsed *)

Definition is_host_probe (invocation : ToolInvocation) : bool :=
  (ti_name invocation ==? APPLICATION_PROBE_VERIFIER_ID) && starts_with "host:" (ti_call_id invocation).

Definition execute (invocation : ToolInvocation) (is_cancelled : bool)
    (dispatch : Value → DispatchEnd) : ToolOutcome :=
  let access := workspace_access invocation in
  let name := ti_name invocation in
  if negb (bool_decide (name ∈ PRODUCTION_TOOL_NAMES)) && negb (is_host_probe invocation) then
    execution_error_outcome (NotAvailable ("工具 '" ++ name ++ "' 不在固定生产目录中")) access
  else match ta_parsed (ti_arguments invocation) with
  | None => execution_error_outcome (InvalidInput "JSON 参数格式错误") access
  | Some input =>
    if is_cancelled then
      ToolOutcome_error ("工具 '" ++ name ++ "' 在执行前已取消")
      <| to_operation := OperationCancelled |> <| to_side_effect := SideEffectNotApplied |>
      <| to_retry := RetrySafe |>
    else match dispatch input with
    | Finished (Ok outcome) => with_workspace_access_guarantee outcome access
    | Finished (Err error) | FinishedAfterCancel (Err error) => execution_error_outcome error access
    | FinishedAfterCancel (Ok outcome) =>
      with_workspace_access_guarantee
        (if ToolOutcome_is_success outcome then outcome
         else outcome <| to_operation := OperationCancelled |>) access
    | NotStopped =>
      with_workspace_access_guarantee
        (ToolOutcome_recovery_ambiguous ("工具 '" ++ name ++ "' 收到取消后未在 5 秒内停止")
         <| to_operation := OperationCancelled |>) access
    end
  end.
