(* ===== verification/ToolAuthorizationFacts.v ===== *)
(** What the authorization of tool calls guarantees, over every mode, grant and configuration, and
    the lifecycle of the outcomes the executor reports. *)
From Stdlib Require Import Ascii String.
From S2P Require Import Prelude.
From S2P Require Import Text.
From S2P Require Import TextOps.
From S2P Require Import Json.
From S2P Require Import Task.
From S2P Require Import Protocol.
From S2P Require Import RunApi.
From S2P Require Import Validate.
From S2P Require Import ErrorFacts.
From S2P Require Import Patch.
From S2P Require Import ExecPolicy.
From S2P Require Import CommandSafety.
From S2P Require Import Paths.
From S2P Require Import Sandbox.
From S2P Require Import BrowserRequest.
From S2P Require Import ToolAuthorization.

Open Scope string_scope.
Open Scope list_scope.
Open Scope N_scope.

Section facts.
Context `{JsonLib, TaskCodec, UrlLib}.
Context (shlex_split : string → option (list string)).
Context (to_lowercase : string → string).
Context (path_exists : PathBuf → bool).
Context (canonicalize : PathBuf → result string PathBuf).
Context (resolve_verifier_spec : string → Value → result ToolError VerifierSpec).
Context (authorization_preview : RunId → BrowserInteractRequest → option BrowserAuthorizationPreview).

Notation auth := (authorize shlex_split to_lowercase path_exists canonicalize resolve_verifier_spec
                            authorization_preview).
Notation auth_shell := (authorize_shell shlex_split to_lowercase).

(** ** The shape of a decision *)

(** A decision made by the builder: it binds the call, it carries a prompt exactly when it asks, and
    the prompt repeats its risk. *)
Definition bound (b : AuthorizationDecisionBuilder) (d : ToolAuthorizationDecision) : Prop :=
  tad_mode d = b_mode b ∧ tad_execution_grant d = b_execution_grant b
  ∧ tad_tool_name d = ti_name (b_invocation b)
  ∧ tad_arguments_sha256 d = arguments_sha256 (b_invocation b)
  ∧ tad_workspace_state d = b_workspace_state b
  ∧ match tad_disposition d with
    | DispositionAsk => ∃ p, tad_prompt d = Some p ∧ tap_risk p = tad_risk d
    | _ => tad_prompt d = None
    end.

Lemma build_bound b disposition risk rule reason :
  disposition ≠ DispositionAsk → bound b (build b disposition risk rule reason None).
Proof. by destruct disposition. Qed.
Lemma ask_or_allow_bound b needs risk rule title reason : bound b (ask_or_allow b needs risk rule title reason).
Proof. destruct needs; repeat split. eexists. split; reflexivity. Qed.
Lemma shell_approval_bound b high : bound b (shell_approval b high).
Proof. repeat split. eexists. split; reflexivity. Qed.
#[local] Hint Resolve build_bound ask_or_allow_bound shell_approval_bound : core.

Lemma authorize_shell_bound self mode b command d : auth_shell self mode b command = Some d → bound b d.
Proof.
  unfold authorize_shell. repeat case_match; intros Hd; try discriminate Hd; injection Hd as <-;
    auto; by apply build_bound.
Qed.

Lemma authorize_network_bound self mode b name input d :
  authorize_network authorization_preview self mode b name input = Ok d → bound b d.
Proof.
  unfold authorize_network, authorize_interact, authorize_navigate, authorize_search, authorize_fetch.
  repeat case_match; intros Hd; try discriminate Hd; injection Hd as <-;
    auto; by apply build_bound.
Qed.

Lemma authorize_bound self mode grant invocation ws d :
  auth self mode grant invocation ws = Ok d →
  bound (mkAuthorizationDecisionBuilder mode grant invocation ws) d.
Proof.
  unfold authorize. intros Hd. apply seq_Ok in Hd as [_ Hd]. apply bind_Ok in Hd as (input & _ & Hd).
  destruct (ToolExecutionGrant_validate grant); [|done]. cbv zeta in Hd.
  destruct (_ && _); [injection Hd as <-; by apply build_bound|].
  destruct (_ && _); [injection Hd as <-; by apply build_bound|].
  apply bind_Ok in Hd as (shell & Hs & Hd). destruct shell as [d'|].
  - injection Hd as <-. destruct (ti_name invocation ==? "exec_shell"); [|done].
    apply bind_Ok in Hs as (command & _ & [= Hs]). by eapply authorize_shell_bound.
  - destruct (bool_decide (ti_name invocation ∈ NETWORK_TOOLS)); [by eapply authorize_network_bound|].
    injection Hd as <-. unfold authorize_rest. destruct (verifier_program_allowed _ _ _ _); by apply build_bound.
Qed.

(** ** Shell commands *)

Notation denied_by_policy self c :=
  (∃ label, evaluate_exec_policy shlex_split (pe_exec_policy self) c = Some (PolicyDeny label)).
Notation allowed_by_policy self c :=
  (∃ label, evaluate_exec_policy shlex_split (pe_exec_policy self) c = Some (PolicyAllow label)).
Notation level_of c := (level (analyze_command shlex_split to_lowercase c)).
Notation high_impact c := (command_is_high_impact shlex_split to_lowercase c).
Notation sandbox_denies_network self :=
  (is_some_and (pe_elevated_sandbox_policy self) (λ policy, negb (has_network_access policy))).

(** The decision on a shell command, by cases; [None] lets the call through. *)
Lemma authorize_shell_spec self mode b c :
  (denied_by_policy self c ∨ level_of c = Dangerous
   ∨ command_likely_needs_network c = true ∧ (mode = PermissionAsk ∨ sandbox_denies_network self = true) →
     ∃ d, auth_shell self mode b c = Some d ∧ tad_disposition d = DispositionDeny)
  ∧ (high_impact c = true → mode ≠ PermissionFullAccess →
     ∃ d, auth_shell self mode b c = Some d ∧ tad_disposition d ≠ DispositionAllow)
  ∧ (mode = PermissionAsk → level_of c = RequiresApproval → ¬ allowed_by_policy self c →
     ∃ d, auth_shell self mode b c = Some d ∧ tad_disposition d ≠ DispositionAllow).
Proof.
  unfold authorize_shell.
  destruct (evaluate_exec_policy shlex_split (pe_exec_policy self) c) as [[label|label]|] eqn:Hp.
  2:{ split_and!; intros; eexists; (split; [reflexivity|done]). }
  all: destruct (level_of c ==? Dangerous) eqn:Hl;
    [split_and!; intros; eexists; (split; [reflexivity|done])|].
  all: apply bool_decide_eq_false in Hl.
  all: destruct (command_likely_needs_network c) eqn:Hn, mode, (sandbox_denies_network self) eqn:Hs;
    cbn [andb orb]; rewrite ?bool_decide_true, ?bool_decide_false by done; cbn [andb orb];
    split_and!; intros; destruct_or?; destruct_and?; destruct_or?;
    try match goal with Hx : ∃ _, _ |- _ => destruct Hx as [? Hx]; congruence end; try congruence;
    try (eexists; split; [reflexivity|done]);
    repeat match goal with Hh : _ = true |- _ => rewrite Hh; clear Hh
                         | Hh : _ = RequiresApproval |- _ => rewrite Hh; clear Hh end;
    rewrite ?orb_true_r; cbn [orb negb];
    try (eexists; split; [reflexivity|done]).
  all: exfalso; eauto.
Qed.

(** The decision on an [exec_shell] call is the decision on its command, unless an earlier guard
    denies it. *)
Lemma authorize_exec_shell self mode grant invocation ws d input c :
  auth self mode grant invocation ws = Ok d →
  ti_name invocation = "exec_shell" → ta_parsed (ti_arguments invocation) = Some input →
  str_field "command" input = Some c →
  tad_disposition d = DispositionDeny
  ∨ auth_shell self mode (mkAuthorizationDecisionBuilder mode grant invocation ws) c = Some d
  ∨ auth_shell self mode (mkAuthorizationDecisionBuilder mode grant invocation ws) c = None.
Proof.
  unfold authorize. intros Hd Hname Hin Hc. apply seq_Ok in Hd as [_ Hd].
  rewrite Hin in Hd. cbn [ok_or mbind result_bind] in Hd.
  destruct (ToolExecutionGrant_validate grant); [|done]. cbv zeta in Hd.
  destruct (_ && _); [injection Hd as <-; by left|].
  destruct (_ && _); [injection Hd as <-; by left|].
  rewrite Hname, Hc, (bool_decide_true ("exec_shell" = _)) in Hd by done.
  cbn [ok_or mbind result_bind] in Hd.
  right. destruct (auth_shell _ _ _ c) as [d'|] eqn:Hs; [left|by right].
  cbn in Hd. congruence.
Qed.

(** A command that is denied by [authorize_shell] is denied by [authorize]. *)
Lemma shell_call_denied self mode grant invocation ws d input c :
  auth self mode grant invocation ws = Ok d →
  ti_name invocation = "exec_shell" → ta_parsed (ti_arguments invocation) = Some input →
  str_field "command" input = Some c →
  denied_by_policy self c ∨ level_of c = Dangerous
  ∨ command_likely_needs_network c = true ∧ (mode = PermissionAsk ∨ sandbox_denies_network self = true) →
  tad_disposition d = DispositionDeny.
Proof.
  intros Hd Hname Hin Hc Hcase.
  destruct (authorize_shell_spec self mode (mkAuthorizationDecisionBuilder mode grant invocation ws) c)
    as (Hdeny & _). destruct (Hdeny Hcase) as (d' & Hd' & Hdis).
  destruct (authorize_exec_shell _ _ _ _ _ _ _ _ Hd Hname Hin Hc) as [?|[Hs|Hs]]; congruence.
Qed.


(** C20: In Ask mode a shell command runs without a prompt only when it is not denied by policy,
    not Dangerous, not of high impact and does not look like network use, and either an explicit
    rule allows it or the analysis found it Safe or WorkspaceSafe. *)
Theorem ask_mode_runs_only_safe_commands self grant invocation ws d input c :
  auth self PermissionAsk grant invocation ws = Ok d →
  ti_name invocation = "exec_shell" → ta_parsed (ti_arguments invocation) = Some input →
  str_field "command" input = Some c → tad_disposition d = DispositionAllow →
  ¬ denied_by_policy self c ∧ level_of c ≠ Dangerous ∧ high_impact c = false
  ∧ command_likely_needs_network c = false
  ∧ (allowed_by_policy self c ∨ level_of c = Safe ∨ level_of c = WorkspaceSafe).
Proof.
  intros Hd Hname Hin Hc Hallow.
  destruct (authorize_shell_spec self PermissionAsk
              (mkAuthorizationDecisionBuilder PermissionAsk grant invocation ws) c) as (Hdeny & Hhigh & Hask).
  assert (Hno : ∀ d', auth_shell self PermissionAsk
              (mkAuthorizationDecisionBuilder PermissionAsk grant invocation ws) c = Some d' →
              tad_disposition d' = DispositionAllow).
  { intros d' Hd'. destruct (authorize_exec_shell _ _ _ _ _ _ _ _ Hd Hname Hin Hc) as [?|[?|?]]; congruence. }
  assert (Hnd : ∀ P : Prop, (P → ∃ d', auth_shell self PermissionAsk
              (mkAuthorizationDecisionBuilder PermissionAsk grant invocation ws) c = Some d'
              ∧ tad_disposition d' ≠ DispositionAllow) → ¬ P).
  { intros P HP Hp. destruct (HP Hp) as (d' & Hd' & Hne). by apply Hne, Hno. }
  assert (Hdeny' : ¬ (denied_by_policy self c ∨ level_of c = Dangerous
                      ∨ command_likely_needs_network c = true ∧ (PermissionAsk = PermissionAsk
                        ∨ sandbox_denies_network self = true))).
  { apply Hnd. intros Hp. destruct (Hdeny Hp) as (d' & Hd' & Hx). exists d'. split; [done|congruence]. }
  split_and!.
  - tauto.
  - tauto.
  - apply not_true_is_false. apply Hnd. intros Hp. by apply Hhigh.
  - apply not_true_is_false. tauto.
  - destruct (decide (level_of c = RequiresApproval)) as [Hr|Hr].
    + left. destruct (evaluate_exec_policy shlex_split (pe_exec_policy self) c) as [[l|l]|] eqn:Hp.
      * by exists l.
      * exfalso. apply Hdeny'. left. by exists l.
      * exfalso. apply (Hnd True); [|done]. intros _. apply Hask; [done|done|]. intros [l Hl]. congruence.
    + right. destruct (level_of c) eqn:Hl; [by left|by right|done|]. exfalso. apply Hdeny'. by right; left.
Qed.

(** ** Isolated writers *)

Lemma authorize_guards self mode grant invocation ws d input :
  auth self mode grant invocation ws = Ok d → ta_parsed (ti_arguments invocation) = Some input →
  mode = Paths.permission_mode (pe_context self)
  ∧ (tad_disposition d ≠ DispositionDeny →
     (invocation_has_external_path path_exists canonicalize (ti_name invocation) input (pe_context self)
        (verifier_program_allowed resolve_verifier_spec grant (ti_name invocation) input) = false
      ∨ allow_external_paths (pe_context self) = true)
     ∧ (ti_name invocation ∈ NETWORK_TOOLS →
        authorize_network authorization_preview self mode
          (mkAuthorizationDecisionBuilder mode grant invocation ws) (ti_name invocation) input = Ok d)).
Proof.
  unfold authorize. intros Hd Hin. apply seq_Ok in Hd as [Hm Hd].
  apply fail_if_Ok, negb_false_iff, bool_decide_eq_true in Hm. split; [done|].
  rewrite Hin in Hd. cbn [ok_or mbind result_bind] in Hd.
  destruct (ToolExecutionGrant_validate grant); [|done]. cbv zeta in Hd.
  destruct (_ && _); [injection Hd as <-; by intros []|].
  destruct (invocation_has_external_path _ _ _ _ _ _) eqn:He, (allow_external_paths (pe_context self)) eqn:Ha;
    cbn [andb negb] in Hd; try (injection Hd as <-; by intros []).
  all: intros _; (split; [by auto|]); intros Hnet;
    rewrite (bool_decide_false (ti_name invocation = "exec_shell")) in Hd
      by (intros Hx; rewrite Hx in Hnet; unfold NETWORK_TOOLS in Hnet; set_solver);
    cbn [mbind result_bind mret result_ret] in Hd; by rewrite bool_decide_true in Hd.
Qed.


(** ** The decision binds the call *)

(** A byte that does not begin a white-space character. *)
Definition solid_byte (a : ascii) : bool :=
  negb (((9 <=? byte_val a) && (byte_val a <=? 13)) || bool_decide (byte_val a ∈ [32; 194; 225; 226; 227])).

Lemma solid_not_space a c : solid_byte a = true → white_space_char (a :: c) = false.
Proof.
  unfold solid_byte, white_space_char. intros [Hr Hm%bool_decide_eq_false]%negb_true_iff%orb_false_iff.
  cbn [fmap list_fmap]. set (b := byte_val a) in *.
  assert (b ≠ 32 ∧ b ≠ 194 ∧ b ≠ 225 ∧ b ≠ 226 ∧ b ≠ 227) as (H32&?&?&?&?) by set_solver.
  clearbody b. apply N.eqb_neq in H32. rewrite Hr, H32.
  destruct c as [|x [|y [|z c]]]; cbn [fmap list_fmap]; repeat case_match; done.
Qed.

Lemma chars_go_head cur a l : ∃ c rest, chars_go (cur ++ [a]) l = (a :: c) :: rest.
Proof.
  revert cur. induction l as [|b l IH]; intros cur; cbn [chars_go].
  - destruct (cur ++ [a]) eqn:E; [by destruct cur|]. rewrite <- E, reverse_app. cbn. by eexists _, [].
  - destruct (is_continuation b); [by apply (IH (b :: cur))|].
    destruct (cur ++ [a]) eqn:E; [by destruct cur|]. rewrite <- E, reverse_app. cbn. by eexists _, _.
Qed.

Lemma solid_text a s : solid_byte a = true → trim_is_empty (String a s) = false.
Proof.
  intros Ha. unfold trim_is_empty, chars. cbn [bytes chars_go].
  assert (∃ c rest, (if is_continuation a then chars_go [a] (bytes s) else chars_go [a] (bytes s)) = (a :: c) :: rest)
    as (c & rest & Heq).
  { destruct (chars_go_head [] a (bytes s)) as (c & rest & Heq). cbn in Heq. exists c, rest. by case_match. }
  replace (if is_continuation a then _ else _) with ((a :: c) :: rest) by (rewrite <- Heq; by case_match).
  cbn [forallb]. by rewrite solid_not_space.
Qed.

(** The text starts with a solid byte. *)
Definition solid (s : string) : Prop := ∃ a t, s = String a t ∧ solid_byte a = true.
Lemma solid_not_empty s : solid s → trim_is_empty s = false.
Proof. intros (a & t & -> & Ha). by apply solid_text. Qed.

Lemma solid_literal a t : solid_byte a = true → solid (String a t).
Proof. intros Ha. by exists a, t. Qed.

Lemma authorize_shell_solid self mode b command d :
  auth_shell self mode b command = Some d → solid (tad_reason d).
Proof.
  unfold authorize_shell. repeat case_match; intros Hd; try discriminate Hd; injection Hd as <-;
    by apply solid_literal.
Qed.

Lemma ask_or_allow_reason b needs risk rule title reason :
  tad_reason (ask_or_allow b needs risk rule title reason) = reason.
Proof. done. Qed.

Lemma authorize_network_solid self mode b name input d :
  authorize_network authorization_preview self mode b name input = Ok d → solid (tad_reason d).
Proof.
  unfold authorize_network, authorize_interact, authorize_navigate, authorize_search, authorize_fetch.
  repeat case_match; intros Hd; try discriminate Hd; injection Hd as <-;
    rewrite ?ask_or_allow_reason; by apply solid_literal.
Qed.

Lemma authorize_solid self mode grant invocation ws d :
  auth self mode grant invocation ws = Ok d →
  solid (tad_reason d) ∧ ToolExecutionGrant_validate grant = Ok tt.
Proof.
  unfold authorize. intros Hd. apply seq_Ok in Hd as [_ Hd]. apply bind_Ok in Hd as (input & _ & Hd).
  destruct (ToolExecutionGrant_validate grant) as [[]|]; [|done]. split; [|done]. cbv zeta in Hd.
  destruct (_ && _); [injection Hd as <-; by apply solid_literal|].
  destruct (_ && _); [injection Hd as <-; cbn [build tad_reason]; destruct (mode ==? PermissionAsk);
                      by apply solid_literal|].
  apply bind_Ok in Hd as (shell & Hs & Hd). destruct shell as [d'|].
  - injection Hd as <-. destruct (ti_name invocation ==? "exec_shell"); [|done].
    apply bind_Ok in Hs as (command & _ & [= Hs]). by eapply authorize_shell_solid.
  - destruct (bool_decide (ti_name invocation ∈ NETWORK_TOOLS)); [by eapply authorize_network_solid|].
    injection Hd as <-. unfold authorize_rest.
    destruct (verifier_program_allowed _ _ _ _); by apply solid_literal.
Qed.

Lemma production_name_text name label :
  name ∈ PRODUCTION_TOOL_NAMES → require_agent_text label name = Ok tt.
Proof.
  intros Hin. unfold PRODUCTION_TOOL_NAMES in Hin.
  repeat (apply elem_of_cons in Hin as [->|Hin]; [vm_compute; reflexivity|]). by apply elem_of_nil in Hin.
Qed.

(** Every decision on a production tool binds the exact call: it passes the protocol's
    validation against the grant, the invocation and the workspace state it was asked about, and it
    carries a prompt exactly when it asks, with the risk of the decision; the one exception is a
    reason that holds a NUL, which is possible only where the reason quotes the arguments. *)
Theorem decision_binds_the_call self mode grant invocation ws d :
  auth self mode grant invocation ws = Ok d →
  ti_name invocation ∈ PRODUCTION_TOOL_NAMES → WorkspaceState_validate ws = Ok tt →
  tad_mode d = mode
  ∧ (validate_for d grant invocation ws = Ok tt ↔ contains_nul (tad_reason d) = false)
  ∧ (is_some (tad_prompt d) = true ↔ tad_disposition d = DispositionAsk)
  ∧ (∀ p, tad_prompt d = Some p → tap_risk p = tad_risk d).
Proof.
  intros Hd Hname Hws. destruct (authorize_bound _ _ _ _ _ _ Hd) as (Hm & Hg & Hn & Ha & Hw & Hp).
  destruct (authorize_solid _ _ _ _ _ _ Hd) as (Hsolid & Hgrant). cbn in Hm, Hg, Hn, Ha, Hw.
  split; [done|]. split_and!.
  - unfold validate_for. rewrite Hn, (production_name_text _ _ Hname). cbn [mbind result_bind].
    unfold require_agent_text. rewrite (solid_not_empty _ Hsolid), Hg, Hgrant, Hw, Hws, Ha.
    rewrite !(bool_decide_true (_ = _)) by done.
    destruct (contains_nul (tad_reason d)); cbn; [done|]. split; [done|]. intros _.
    destruct (tad_disposition d); [by rewrite Hp| |by rewrite Hp]. by destruct Hp as (p & -> & _).
  - destruct (tad_disposition d); [by rewrite Hp| |by rewrite Hp]. by destruct Hp as (p & -> & _).
  - intros p Hpr. destruct (tad_disposition d); [congruence| |congruence].
    destruct Hp as (p' & Hp' & Hr). congruence.
Qed.

End facts.

(** ** Outcomes *)

Section outcomes.
Context `{JsonLib, ProtocolCodec, TaskCodec}.

Lemma error_outcome_payload error o :
  o = execution_error_outcome error WorkspaceReadOnly ∨ o = execution_error_outcome error WorkspaceMayWrite →
  to_artifacts o = [] ∧ to_verifier_observation o = None.
Proof. by intros [->| ->]; destruct error. Qed.

Lemma execution_error_valid error access :
  ToolOutcome_validate (execution_error_outcome error access) = Ok tt
  ∧ to_invocation (execution_error_outcome error access) = InvocationAccepted
  ∧ ToolOutcome_is_success (execution_error_outcome error access) = false
  ∧ (access = WorkspaceReadOnly → to_side_effect (execution_error_outcome error access)
                                  ∈ [SideEffectNotApplicable; SideEffectNotApplied]).
Proof.
  split_and!.
  - apply ToolOutcome_validate_Ok. split; [by destruct error, access|].
    destruct (error_outcome_payload error (execution_error_outcome error access)) as [Ha Hv];
      [destruct access; auto|].
    unfold payload_ok. by rewrite Ha, Hv.
  - by destruct error, access.
  - by destruct error, access.
  - intros ->. destruct error; cbn; set_solver.
Qed.

(** A call that fails before it starts is always a well-formed rejection. *)
Lemma preflight_error_valid error :
  ToolOutcome_validate (preflight_error_outcome error) = Ok tt
  ∧ ToolOutcome_validate (unavailable "x") = Ok tt
  ∧ to_invocation (preflight_error_outcome error) = InvocationRejectedStatus.
Proof. by destruct error. Qed.

(** The outcome a tool ended with, and whether it ended after the cancellation. *)
Definition tool_outcome_of (e : DispatchEnd) : option (ToolOutcome * bool) :=
  match e with
  | Finished (Ok o) => Some (o, false)
  | FinishedAfterCancel (Ok o) => Some (o, true)
  | _ => None
  end.

(** A failure code that names how the operation failed, so that the operation cannot be recorded as
    cancelled. *)
Definition pins_operation (code : ToolFailureCode) : bool :=
  is_observed_failure_code code || (code ==? TransportFailed).

Lemma guarantee_accepted o access :
  to_invocation (with_workspace_access_guarantee o access) = to_invocation o.
Proof. unfold with_workspace_access_guarantee. by repeat case_match. Qed.

Lemma guarantee_may_write o : with_workspace_access_guarantee o WorkspaceMayWrite = o.
Proof. done. Qed.
Lemma guarantee_success o access : ToolOutcome_is_success o = true → with_workspace_access_guarantee o access = o.
Proof. unfold with_workspace_access_guarantee. intros ->. by rewrite andb_false_r. Qed.

(** The guarantee keeps a well-formed outcome that claims no applied effect well-formed. *)
Lemma guarantee_valid o access :
  ToolOutcome_validate o = Ok tt → to_side_effect o ≠ SideEffectApplied →
  ToolOutcome_validate (with_workspace_access_guarantee o access) = Ok tt.
Proof.
  intros Hv Hse. destruct access; [|done].
  destruct (ToolOutcome_is_success o) eqn:Hs; [by rewrite guarantee_success|].
  apply ToolOutcome_validate_Ok in Hv as [Ha Hp]. rewrite (guaranteed_fields _ Hs).
  apply ToolOutcome_validate_Ok. split; [|exact Hp].
  by apply (guaranteed_axes_ok _ _ _ _ _ _ Ha Hs).
Qed.

(** The axes after a cancellation, by cases on the statuses. *)
Definition cancelled_axes_ok (code : ToolFailureCode) (t : ToolTransportStatus) (op : ToolOperationStatus)
    (se : ToolSideEffectStatus) (r : ToolRetryDisposition) : bool :=
  implb (axes_ok (Some code) InvocationAccepted t op se r
         && negb ((t ==? TransportSucceeded) && (op ==? OperationSucceeded)))
        (eqb (axes_ok (Some code) InvocationAccepted t OperationCancelled se r) (negb (pins_operation code))).
Lemma cancelled_axes code t op se r : cancelled_axes_ok code t op se r = true.
Proof. destruct code, t, op, se, r; reflexivity. Qed.

(** Recording a cancellation keeps an accepted failure well-formed unless its code pins the
    operation. *)
Lemma cancelled_valid o code :
  ToolOutcome_validate o = Ok tt → to_invocation o = InvocationAccepted →
  ToolOutcome_is_success o = false → to_failure_code o = Some code →
  (ToolOutcome_validate (o <| to_operation := OperationCancelled |>) = Ok tt ↔ pins_operation code = false).
Proof.
  intros [Ha Hp]%ToolOutcome_validate_Ok Hi Hs Hc. rewrite ToolOutcome_validate_Ok.
  assert (Hpay : payload_ok (o <| to_operation := OperationCancelled |>)) by exact Hp.
  pose proof (cancelled_axes code (to_transport o) (to_operation o) (to_side_effect o) (to_retry o)) as Hx.
  unfold cancelled_axes_ok in Hx. unfold outcome_axes in *. cbn. rewrite Hi, Hc in *.
  unfold ToolOutcome_is_success in Hs. rewrite Hi in Hs. cbn [andb] in Hs.
  rewrite (bool_decide_true (InvocationAccepted = _)) in Hs by done. cbn [andb] in Hs.
  rewrite Ha, Hs in Hx. cbn [negb andb implb] in Hx. apply eqb_prop in Hx. rewrite Hx, negb_true_iff.
  split; [by intros [? _]|by intros; split].
Qed.

(** What the executor relies on: a tool that ends reports a well-formed outcome of an accepted call,
    and a read-only tool that fails claims no applied effect. *)
Definition tools_well_behaved (access : WorkspaceAccess) (dispatch : Value → DispatchEnd) : Prop :=
  ∀ input o late, tool_outcome_of (dispatch input) = Some (o, late) →
    ToolOutcome_validate o = Ok tt ∧ to_invocation o = InvocationAccepted
    ∧ (access = WorkspaceReadOnly → ToolOutcome_is_success o = false → to_side_effect o ≠ SideEffectApplied).

(** The outcome is well-formed, or a failure whose code pins the operation came after the
    cancellation. *)
Definition well_formed_or_pinned (dispatch : Value → DispatchEnd) (out : ToolOutcome) : Prop :=
  ToolOutcome_validate out = Ok tt
  ∨ ∃ input o code, dispatch input = FinishedAfterCancel (Ok o) ∧ to_failure_code o = Some code
                    ∧ pins_operation code = true.

(** A read-only tool that fails leaves no side effect. *)
Definition read_only_holds (access : WorkspaceAccess) (out : ToolOutcome) : Prop :=
  access = WorkspaceReadOnly → ToolOutcome_is_success out = false →
  to_side_effect out ∈ [SideEffectNotApplicable; SideEffectNotApplied].

Lemma guarantee_read_only o access :
  (access = WorkspaceReadOnly → ToolOutcome_is_success o = false → to_side_effect o ≠ SideEffectApplied) →
  read_only_holds access (with_workspace_access_guarantee o access).
Proof.
  intros Hse ->. destruct (ToolOutcome_is_success o) eqn:Hs.
  { rewrite guarantee_success by done. congruence. }
  rewrite (guaranteed_fields _ Hs). intros _. cbn. unfold guaranteed_side_effect.
  specialize (Hse eq_refl eq_refl). destruct (to_side_effect o); cbn; set_solver.
Qed.

Lemma guarantee_settled o access :
  ToolOutcome_validate o = Ok tt →
  (access = WorkspaceReadOnly → ToolOutcome_is_success o = false → to_side_effect o ≠ SideEffectApplied) →
  ToolOutcome_validate (with_workspace_access_guarantee o access) = Ok tt.
Proof.
  intros Hv Hse. destruct access; [|done].
  destruct (ToolOutcome_is_success o) eqn:Hs; [by rewrite guarantee_success|].
  apply guarantee_valid; auto.
Qed.

Lemma failure_has_code o :
  ToolOutcome_validate o = Ok tt → ToolOutcome_is_success o = false → ∃ code, to_failure_code o = Some code.
Proof.
  intros [Ha _]%ToolOutcome_validate_Ok Hs. unfold outcome_axes, axes_ok in Ha.
  unfold ToolOutcome_is_success in Hs. cbv zeta in Ha. rewrite Hs in Ha.
  destruct (to_failure_code o); [eauto|]. cbn in Ha. done.
Qed.

Lemma cancelled_failure o : ToolOutcome_is_success (o <| to_operation := OperationCancelled |>) = false.
Proof. unfold ToolOutcome_is_success. cbn. by rewrite andb_false_r. Qed.


End outcomes.
