(* ===== verification/AgentRuntime.v ===== *)
(** The ground of the runtime loop ([crates/runtime/src/agent.rs] and [orchestration.rs]): the
    ports a run calls, the effects of one run as a state monad, and the publication of an event.

    Whatever the environment answers - the store, the clock, the Git orchestrator, the tools,
    the model's accounting, fresh identities - may differ from call to call.  Each port is a
    function of the tick of the call; the ticks of one run never repeat. *)
From Stdlib Require Import Ascii String.
From S2P Require Import Prelude.
From S2P Require Import Text.
From S2P Require Import Json.
From S2P Require Import Task.
From S2P Require Import Protocol.
From S2P Require Import Validate.
From S2P Require Import Accounting.
From S2P Require Import Context.
From S2P Require Import Snapshot.
From S2P Require Import Evidence.
From S2P Require Import RunEvents.
From S2P Require Import AgentEvents.
From S2P Require Import Reducer.
From S2P Require Import MemStore.

Open Scope string_scope.
Open Scope N_scope.

(** ** The orchestrator port *)

Record WriterPreparation := mkWriterPreparation {
  wp_task_id : AgentTaskId;
  wp_root_workspace : string;
  wp_allowed_paths : list string;
}.

Record WriterPlan := mkWriterPlan { wpl_assignment : AgentWorkspaceAssignment }.

(** Without the isolated tool executor, which only the child run uses. *)
Record WriterBinding := mkWriterBinding {
  wb_assignment : AgentWorkspaceAssignment;
  wb_writer_workspace_state : WorkspaceState;
}.

Record WriterSeal := mkWriterSeal {
  wse_base_commit : string;
  wse_final_commit : string;
  wse_diff_sha256 : string;
  wse_changed_files : list string;
  wse_writer_workspace_state : WorkspaceState;
}.

Record WriterIntegration := mkWriterIntegration {
  wi_root_head_commit : string;
  wi_root_workspace_state : WorkspaceState;
}.

Inductive AgentOrchestrationErrorKind :=
| OrchestrationRejected | OrchestrationConflict | OrchestrationRecoveryRequired.

Record AgentOrchestrationError := mkAgentOrchestrationError {
  aoe_kind : AgentOrchestrationErrorKind;
  aoe_code : string;
  aoe_message : string;
}.

Record AgentOrchestrator := mkAgentOrchestrator {
  prepare_writer : nat → WriterPreparation → result AgentOrchestrationError WriterPlan;
  bind_writer : nat → AgentTask → option WriterSeal →
    result AgentOrchestrationError WriterBinding;
  seal_writer : nat → AgentTask → result AgentOrchestrationError WriterSeal;
  integrate_writer : nat → AgentTask → WriterSeal → WorkspaceState →
    result AgentOrchestrationError WriterIntegration;
  inspect_writer_cleanup : nat → AgentTask → option WriterSeal → WriterCleanupPhase → string →
    result AgentOrchestrationError WriterCleanupPlan;
  execute_writer_cleanup : nat → AgentTask → WriterCleanupPlan →
    result AgentOrchestrationError WriterCleanupResult;
}.

(** ** Outcomes the runtime builds itself *)

Definition terminal_state_label (terminal : TerminalState) : string :=
  match terminal with
  | AwaitingHostAcceptance _ => "awaiting_host_acceptance"
  | Completed _ _ => "completed"
  | Blocked _ => "blocked"
  | Failed _ => "failed"
  | Cancelled => "cancelled"
  | Interrupted => "interrupted"
  | RecoveryRequired _ => "recovery_required"
  end.

Definition incomplete_accounting : ModelAccounting :=
  mkModelAccounting None ActorRequestAccounting_default ActorRequestAccounting_default
    0 0 0 false false false false true true true true 0 0 0 0 0 0 Usage_default [] 0 0.

Definition AgentResultDetails_default : AgentResultDetails :=
  mkAgentResultDetails "" None [] [] [] [] [] [] None None None None None
    IntegrationNotApplicable.

(** An outcome of a child that never ran or whose report is lost. *)
Definition child_outcome_without_run (task : AgentTask) (terminal : TerminalState)
    (details : AgentResultDetails) : AgentOutcome :=
  mkAgentOutcome (at_child_run_id task) (Some (at_parent_run_id task)) terminal
    incomplete_accounting 0 0 0 details.

Definition store_terminal (failure : RuntimeFailure) : TerminalState := Failed failure.

Definition orchestration_terminal (error : AgentOrchestrationError) : TerminalState :=
  match aoe_kind error with
  | OrchestrationRejected | OrchestrationConflict =>
    Blocked (aoe_code error ++ "：" ++ aoe_message error)
  | OrchestrationRecoveryRequired =>
    RecoveryRequired (mkRecoveryAmbiguity AmbiguityChildRun (aoe_code error)
                        (aoe_message error))
  end.

Definition orchestration_child_outcome (task : AgentTask) (error : AgentOrchestrationError)
    : AgentOutcome :=
  child_outcome_without_run task (orchestration_terminal error)
    (AgentResultDetails_default
       <| ard_summary := aoe_code error ++ "：" ++ aoe_message error |>).

Definition orchestration_recovery (task_id : AgentTaskId) (code message : string)
    : TerminalState :=
  RecoveryRequired (mkRecoveryAmbiguity AmbiguityChildRun (task_id ++ ":" ++ code) message).

Definition failed_child_outcome (task : AgentTask) (failure : RuntimeFailure) : AgentOutcome :=
  child_outcome_without_run task (Failed failure) AgentResultDetails_default.

Definition runtime_join_failure : RuntimeFailure := JoinFailure "Agent 后台任务异常终止".

(** ** One run *)

Record RunState := mkRunState {
  rs_snapshot : RunSnapshot;
  rs_lease : RunLease;
  rs_accounting_epoch_baseline : ModelAccounting;
  rs_runtime_model_requests_at_launch : N;
  rs_model_accounting_includes_baseline : bool;
  rs_started_unix_ms : N;
  rs_recovery_model : option PendingModelAction;
  rs_recovery_tool : option PendingToolAction;
  rs_recovery_output : option ModelOutput;
  rs_recovery_failure : option StoppedModelFailure;
  rs_recovered_child_ids : list RunId;
}.
#[global] Instance RunState_settable : Settable RunState := λ r,
  mkRunState (rs_snapshot r) (rs_lease r) (rs_accounting_epoch_baseline r)
    (rs_runtime_model_requests_at_launch r) (rs_model_accounting_includes_baseline r)
    (rs_started_unix_ms r) (rs_recovery_model r) (rs_recovery_tool r) (rs_recovery_output r)
    (rs_recovery_failure r) (rs_recovered_child_ids r).

Definition state_run_id (state : RunState) : RunId :=
  default "" (rr_run_id (sn_request (rs_snapshot state))).

(** The store a run appends to.  An append that reports a backend failure may have committed. *)
Class RunPort (S : Type) := {
  port_append : S → RunLease → PendingRuntimeEvent → N →
    S * result RunStoreError StoredRuntimeEvent;
  port_load : S → RunId → result RunStoreError (option RunReplay);
}.

(** The other ports of a run. *)
Record RuntimePorts := mkRuntimePorts {
  rp_clock : nat → N;
  rp_uuid : nat → string;
  (** [Err ()]: the model port cannot account. *)
  rp_accounting : nat → bool → result unit ModelAccounting;
  rp_orchestrator : option AgentOrchestrator;
  rp_observe_workspace_revision : nat → result (string * string) string;
  rp_outcome_to_string : AgentOutcome → result string string;
  rp_store_error_text : RunStoreError → string;
  rp_failure_debug : RuntimeFailure → string;
}.

(** The run state together with the world it acts on. *)
Record Rt (S : Type) := mkRt {
  rt_state : RunState;
  rt_store : S;
  rt_tick : nat;
  rt_sink : list StoredRuntimeEvent;
}.
Arguments mkRt {S}.
Arguments rt_state {S}.
Arguments rt_store {S}.
Arguments rt_tick {S}.
Arguments rt_sink {S}.
#[global] Instance Rt_settable S : Settable (Rt S) := λ r,
  mkRt (rt_state r) (rt_store r) (rt_tick r) (rt_sink r).

Definition rt_snapshot {S} (rt : Rt S) : RunSnapshot := rs_snapshot (rt_state rt).

(** An [async fn] of the runtime: what it does to the run and the world survives its error. *)
Definition M (S E A : Type) : Type := Rt S → Rt S * result E A.
#[global] Instance M_ret S E : MRet (M S E) := λ A a rt, (rt, Ok a).
#[global] Instance M_bind S E : MBind (M S E) := λ A B f m rt,
  match m rt with
  | (rt, Ok a) => f a rt
  | (rt, Err e) => (rt, Err e)
  end.
Definition throw {S E A} (e : E) : M S E A := λ rt, (rt, Err e).
Definition lift {S E A} (r : result E A) : M S E A := λ rt, (rt, r).
Definition or_else {S E F A} (f : E → F) (m : M S E A) : M S F A := λ rt,
  let '(rt, r) := m rt in (rt, map_err f r).
Definition get_state {S E} : M S E RunState := λ rt, (rt, Ok (rt_state rt)).
Definition get_snapshot {S E} : M S E RunSnapshot := λ rt, (rt, Ok (rt_snapshot rt)).
Definition next_tick {S E} : M S E nat := λ rt, (rt <| rt_tick := Datatypes.S (rt_tick rt) |>, Ok (rt_tick rt)).

(** The bind of the monad, for rewriting. *)
Lemma M_bind_run {S E A B} (m : M S E A) (f : A → M S E B) rt :
  (m ≫= f) rt = match m rt with (rt', Ok a) => f a rt' | (rt', Err e) => (rt', Err e) end.
Proof. done. Qed.

Section runtime.
Context `{Codecs} {St : Type} `{RunPort St} (ports : RuntimePorts).
Abbreviation run := (M St).

(** ** Publication *)

Definition pending_event (event : RuntimeEventKind) (tick : nat) : PendingRuntimeEvent :=
  match event with
  | Terminal outcome => PendingRuntimeEvent_terminal outcome
  | event => mkPendingRuntimeEvent (rp_uuid ports tick) event
  end.

Definition append_once {E} (pending : PendingRuntimeEvent)
    : run E (result RunStoreError StoredRuntimeEvent) := λ rt,
  let '(st, r) := port_append (rt_store rt) (rs_lease (rt_state rt)) pending
                    (rp_clock ports (rt_tick rt)) in
  (rt <| rt_store := st |> <| rt_tick := Datatypes.S (rt_tick rt) |>, Ok r).

Definition set_snapshot {E} (snapshot : RunSnapshot) : run E unit := λ rt,
  (rt <| rt_state := rt_state rt <| rs_snapshot := snapshot |> |>, Ok tt).
Definition emit {E} (stored : StoredRuntimeEvent) : run E unit := λ rt,
  (rt <| rt_sink := (rt_sink rt ++ [stored])%list |>, Ok tt).

(** The stored event reaches the live snapshot and the sink. *)
Definition apply_stored (stored : StoredRuntimeEvent) : run RuntimeFailure StoredRuntimeEvent :=
  snapshot ← get_snapshot;
  snapshot ← lift (map_err (λ error, StoreFailure
    ("persisted event could not update the live canonical projection: " ++
     rp_store_error_text ports error)) (apply_event snapshot stored));
  set_snapshot snapshot ;;
  emit stored ;;
  mret stored.

(** [publish_inner]: after a backend failure the same pending event is appended once more. *)
Definition publish (event : RuntimeEventKind) : run RuntimeFailure StoredRuntimeEvent :=
  tick ← next_tick;
  let pending := pending_event event tick in
  first ← append_once pending;
  match first with
  | Ok stored => apply_stored stored
  | Err (Backend _) =>
    second ← append_once pending;
    stored ← lift (map_err (λ error, StoreFailure (rp_store_error_text ports error)) second);
    apply_stored stored
  | Err error => throw (StoreFailure (rp_store_error_text ports error))
  end.

(** ** Accounting *)

Definition cumulative_accounting {E} (seal : bool) : run E ModelAccounting :=
  state ← get_state;
  tick ← next_tick;
  let baseline := rs_accounting_epoch_baseline state in
  let cumulative :=
    match rp_accounting ports tick seal with
    | Ok current =>
      if rs_model_accounting_includes_baseline state then current
      else ModelAccounting_add baseline current
    | Err _ => baseline <| ma_complete := false |> <| ma_usage_complete := false |>
                        <| ma_usage_incomplete := true |> <| ma_billing_unknown := true |>
    end in
  mret (cumulative <| ma_runtime_retries :=
          N.max (ma_runtime_retries cumulative)
            (sn_runtime_retries (rs_snapshot state)) |>).

(** ** The workspace *)

Definition observe_workspace_state {E} (force_advance : bool) : run E WorkspaceState :=
  snapshot ← get_snapshot;
  tick ← next_tick;
  let previous := sn_workspace_state snapshot in
  let revision :=
    match rp_observe_workspace_revision ports tick with
    | Ok sha256 => Known sha256
    | Err (code, message) => Unknown (code ++ "：" ++ message)
    end in
  let unchanged := match ws_revision previous, revision with
                   | Known previous, Known current => previous ==? current
                   | _, _ => false
                   end in
  mret (mkWorkspaceState
          (if force_advance || negb unchanged then sat_add64 (ws_generation previous) 1
           else ws_generation previous)
          revision).

Definition reconcile_workspace : run string unit :=
  observed ← observe_workspace_state false;
  snapshot ← get_snapshot;
  if observed !=? sn_workspace_state snapshot then
    or_else (λ failure, "无法提交工作区观察：" ++ rp_failure_debug ports failure)
      (publish (WorkspaceObserved observed)) ;;
    mret tt
  else mret tt.
End runtime.
