(* ===== verification/AgentRuntimeFacts.v ===== *)
(** Publication of an event by the runtime loop: what it needs of a store, stated as the
    classes [RunPortLaws] and [RunPortAvailable] and discharged by the in-memory store; and that
    the live snapshot of a run stays the replay of its durable log, even when the store fails
    in the middle. *)
From Stdlib Require Import Ascii String.
From S2P Require Import Prelude.
From S2P Require Import Text.
From S2P Require Import Json.
From S2P Require Import Task.
From S2P Require Import Protocol.
From S2P Require Import Validate.
From S2P Require Import Context.
From S2P Require Import Snapshot.
From S2P Require Import Evidence.
From S2P Require Import RunEvents.
From S2P Require Import AgentEvents.
From S2P Require Import Reducer.
From S2P Require Import Steps.
From S2P Require Import LogFacts.
From S2P Require Import MemStore.
From S2P Require Import MemStoreFacts.
From S2P Require Import AgentRuntime.

Open Scope string_scope.
Open Scope list_scope.
Open Scope N_scope.

(** ** What the runtime needs of a store *)

Section laws.
Context `{Codecs}.

(** The event a store makes of the next pending one of a log that reduces to [s]. *)
Definition next_stored (s : RunSnapshot) (l : RunLease) (p : PendingRuntimeEvent) (now : N)
    : StoredRuntimeEvent :=
  mkStoredRuntimeEvent AGENT_RUNTIME_EVENT_SCHEMA_VERSION (rl_run_id l)
    (rr_parent_run_id (sn_request s)) (pre_event_id p) (sat_add64 (sn_last_sequence s) 1) now
    (pre_event p).

(** [log'] is [log], or [log] with the pending event at its end. *)
Definition extends_by (log log' : list StoredRuntimeEvent) (p : PendingRuntimeEvent) : Prop :=
  log' = log ∨
  ∃ e, log' = log ++ [e] ∧ sre_event_id e = pre_event_id p ∧ sre_event e = pre_event p.

(** [port_holds st l log]: the run of the lease [l] has the durable log [log], and [l] is its
    current lease as long as the run is not terminal.  Whatever an append answers, the log is
    extended at most once by the pending event; after an error that is not a backend failure
    it is unchanged. *)
Class RunPortLaws (S : Type) `{RunPort S} := {
  port_holds : S → RunLease → list StoredRuntimeEvent → Prop;
  port_holds_log : ∀ st l log, port_holds st l log →
    NoDup (sre_event_id <$> log) ∧
    ∃ s, reduce_events log = Ok s ∧ rr_run_id (sn_request s) = Some (rl_run_id l);
  port_append_law : ∀ st l log p now st' r, port_holds st l log →
    port_append st l p now = (st', r) →
    ∃ log', port_holds st' l log' ∧ extends_by log log' p ∧
      match r with
      | Ok e => e ∈ log' ∧ sre_event_id e = pre_event_id p ∧ sre_event e = pre_event p
      | Err (Backend _) => True
      | Err _ => log' = log
      end;
}.

(** A store that does not fail: it accepts every event the reducer accepts. *)
Class RunPortAvailable (S : Type) `{RunPortLaws S} := {
  port_available : ∀ st l log s p now s', port_holds st l log → reduce_events log = Ok s →
    pre_event_id p ∉ (sre_event_id <$> log) →
    apply_event s (next_stored s l p now) = Ok s' →
    ∃ st', port_append st l p now = (st', Ok (next_stored s l p now)) ∧
           port_holds st' l (log ++ [next_stored s l p now]);
}.

Lemma reachable_last_sequence events s :
  reachable events s → sn_last_sequence s = N.min (N.of_nat (length events)) U64_MAX.
Proof.
  induction 1 as [first request Hv|events s e s' Hr IH Hs]; [done|].
  apply run_step_inv in Hs as (r & s1 & Ha & _ & ->).
  apply admit_event_Ok in Ha as (_ & _ & _ & Hseq & _). cbn. rewrite Hseq, IH, length_app.
  unfold saturating_add. cbn. lia.
Qed.

Lemma reachable_last_terminal events s e :
  reachable events s → last events = Some e → is_terminal (sre_event e) = true →
  is_Some (sn_terminal s).
Proof.
  intros Hr Hl Ht. destruct Hr as [first request Hv|events s e' s' Hr Hs].
  - cbn in Hl. injection Hl as ->. apply validate_run_created_Ok in Hv as (Hev & _).
    by rewrite Hev in Ht.
  - rewrite last_snoc in Hl. injection Hl as ->. apply step_terminal in Hs as [_ ->].
    by destruct (sre_event e).
Qed.
End laws.

(** ** The in-memory store *)

Section mem_port.
Context `{Codecs} {RunCommand : Type}.
Abbreviation store := (InMemoryRunStore RunCommand).

#[export] Instance mem_port : RunPort store := {
  port_append st l p now :=
    match append st l p now with Ok (st', e) => (st', Ok e) | Err error => (st, Err error) end;
  port_load := load;
}.

Definition mem_holds (st : store) (l : RunLease) (log : list StoredRuntimeEvent) : Prop :=
  ∃ run, ims_runs st !! rl_run_id l = Some run ∧ imr_events run = log ∧
    run_ok (rl_run_id l) run ∧
    (sn_terminal (imr_snapshot run) = None → imr_lease run = Some l).

Lemma mem_append_law st l log p now st' r :
  mem_holds st l log → port_append st l p now = (st', r) →
  ∃ log', mem_holds st' l log' ∧ extends_by log log' p ∧
    match r with
    | Ok e => e ∈ log' ∧ sre_event_id e = pre_event_id p ∧ sre_event e = pre_event p
    | Err (Backend _) => True
    | Err _ => log' = log
    end.
Proof.
  intros (run & Hrun & <- & Hok & Hlease). cbn. unfold append. rewrite Hrun. cbn.
  destruct (append_run run l p now) as [[run' e]|error] eqn:Ha; cbn; intros [= <- <-].
  - pose proof (append_run_ok _ _ _ _ _ _ _ Hok Ha) as Hok'. exists (imr_events run').
    split; [exists run'; cbn; rewrite lookup_insert_eq; split_and!; try done|].
    + apply append_run_cases in Ha as [(-> & _)|(Hl & _ & _ & _ & _ & _ & Happ & _ & Hle)]; [done|].
      intros Hnone. rewrite Hle. apply step_terminal in Happ as [_ Ht]. rewrite Hnone in Ht.
      by destruct (sre_event e).
    + apply append_run_cases in Ha
        as [(-> & Hin & Hid & Hev & _)|(_ & _ & Hid & Hev & _ & Hevs & _)].
      * by split; [left|].
      * rewrite Hevs. split; [right; by exists e|]. split_and!; [|done..].
        apply elem_of_app. right. by apply list_elem_of_singleton.
  - exists (imr_events run). split; [by exists run|]. split; [by left|]. by destruct error.
Qed.

#[export] Instance mem_port_laws : RunPortLaws store.
Proof.
  refine {| port_holds := mem_holds; port_append_law := mem_append_law |}.
  intros st l log (run & _ & <- & [Hred Hid Hnd _ _ _] & _). eauto.
Defined.

#[export] Instance mem_port_available : RunPortAvailable store.
Proof.
  split. intros st l log s p now s' (run & Hrun & <- & Hok & Hlease) Hred Hfresh Happ.
  pose proof Hok as [Hred' Hid _ _ _ _]. rewrite Hred in Hred'. injection Hred' as ->.
  pose proof Hred as Hreach%reachable_reduce.
  pose proof Happ as [Hnone _]%step_terminal.
  assert (Hf : find_first (λ event, sre_event_id event ==? pre_event_id p) (imr_events run) = None).
  { destruct (find_first _ _) as [e|] eqn:Hf; [|done]. apply find_first_Some in Hf as [Hin Heq].
    apply bool_decide_eq_true in Heq. destruct Hfresh. rewrite <- Heq. by apply list_elem_of_fmap_2. }
  assert (Hst : stored_event run l p now = Some (next_stored (imr_snapshot run) l p now)).
  { destruct (reachable_request _ _ Hreach) as (first & rest & Hevs & Hv).
    apply validate_run_created_Ok in Hv as (_ & _ & _ & _ & Hpar & _).
    unfold stored_event, next_stored. rewrite Hpar, (reachable_last_sequence _ _ Hreach), Hevs. cbn.
    do 2 f_equal. unfold saturating_add. lia. }
  assert (∃ run', append_run run l p now = Ok (run', next_stored (imr_snapshot run) l p now))
    as [run' Hrun'].
  { unfold append_run. rewrite Hf, Hst, (Hlease Hnone). cbn.
    replace (is_some_and (last (imr_events run)) _) with false; cbn.
    - rewrite bool_decide_true by done. cbn. rewrite Happ. cbn. eauto.
    - destruct (last (imr_events run)) as [e|] eqn:Hlast; cbn; [|done].
      destruct (is_terminal (sre_event e)) eqn:Ht; [|done].
      destruct (reachable_last_terminal _ _ _ Hreach Hlast Ht). congruence. }
  destruct (port_append st l p now) as [st' r] eqn:Hport.
  assert (r = Ok (next_stored (imr_snapshot run) l p now)) as ->.
  { cbn in Hport. unfold append in Hport. rewrite Hrun in Hport. cbn in Hport.
    rewrite Hrun' in Hport. cbn in Hport. by simplify_eq. }
  exists st'. split; [done|].
  eapply mem_append_law in Hport as (log' & Hh & Hext & Hin & _); [|by exists run].
  destruct Hext as [->|(e & -> & _)].
  - destruct Hfresh. change (pre_event_id p) with (sre_event_id (next_stored (imr_snapshot run) l p now)).
    by apply list_elem_of_fmap_2.
  - apply elem_of_app in Hin as [Hin|Hin%list_elem_of_singleton]; [|by subst].
    destruct Hfresh. change (pre_event_id p) with (sre_event_id (next_stored (imr_snapshot run) l p now)).
    by apply list_elem_of_fmap_2.
Qed.
End mem_port.

(** ** Publication *)

Section publish.
Context {St : Type} `{RunPortLaws St} (ports : RuntimePorts).
Context (uuid_fresh : ∀ n m, rp_uuid ports n = rp_uuid ports m → n = m).
Context (uuid_random : ∀ n, rp_uuid ports n ≠ RuntimeEventId_terminal).
Implicit Types (rt : Rt St) (log : list StoredRuntimeEvent).

(** The live run: its snapshot is the replay of its durable log, and the identities still to be
    drawn are fresh. *)
Record live rt log : Prop := {
  live_holds : port_holds (rt_store rt) (rs_lease (rt_state rt)) log;
  live_snapshot : reduce_events log = Ok (rt_snapshot rt);
  live_ids : ∀ n, (rt_tick rt ≤ n)%nat → rp_uuid ports n ∉ (sre_event_id <$> log);
  live_terminal_id : sn_terminal (rt_snapshot rt) = None →
    RuntimeEventId_terminal ∉ (sre_event_id <$> log);
}.

Lemma pending_event_id ev n :
  pre_event (pending_event ports ev n) = ev ∧
  (pre_event_id (pending_event ports ev n) = rp_uuid ports n ∨
   pre_event_id (pending_event ports ev n) = RuntimeEventId_terminal ∧ is_terminal ev = true).
Proof. destruct ev; cbn; auto. Qed.

Lemma pending_fresh rt log ev :
  live rt log → sn_terminal (rt_snapshot rt) = None →
  pre_event_id (pending_event ports ev (rt_tick rt)) ∉ (sre_event_id <$> log).
Proof.
  intros Hl Hn. destruct (pending_event_id ev (rt_tick rt)) as [_ [->|[-> _]]];
    [by apply (live_ids _ _ Hl)|by apply (live_terminal_id _ _ Hl)].
Qed.

(** The log after the pending event of [rt]. *)
Lemma live_extended rt log ev e rt' :
  live rt log → sn_terminal (rt_snapshot rt) = None →
  (rt_tick rt < rt_tick rt')%nat →
  rs_lease (rt_state rt') = rs_lease (rt_state rt) →
  port_holds (rt_store rt') (rs_lease (rt_state rt)) (log ++ [e]) →
  apply_event (rt_snapshot rt) e = Ok (rt_snapshot rt') →
  sre_event_id e = pre_event_id (pending_event ports ev (rt_tick rt)) → sre_event e = ev →
  live rt' (log ++ [e]).
Proof.
  intros Hl Hn Hlt Hlease Hh Happ Hid Hev.
  assert (Hnil : log ≠ []) by (intros ->; by apply live_snapshot in Hl).
  split.
  - by rewrite Hlease.
  - rewrite reduce_events_snoc by done. by rewrite (live_snapshot _ _ Hl).
  - intros n Hgt. rewrite fmap_app. cbn. rewrite not_elem_of_app, list_elem_of_singleton, Hid.
    split; [apply (live_ids _ _ Hl); lia|].
    destruct (pending_event_id ev (rt_tick rt)) as [_ [->|[-> _]]]; [|done].
    intros Hu%uuid_fresh. lia.
  - intros Hn'. apply step_terminal in Happ as [_ Ht]. rewrite Hn' in Ht. rewrite fmap_app. cbn.
    rewrite not_elem_of_app, list_elem_of_singleton, Hid. split; [by apply (live_terminal_id _ _ Hl)|].
    destruct (pending_event_id ev (rt_tick rt)) as [_ [->|[_ Hterm]]]; [|by rewrite <- Hev in Hterm; destruct (sre_event e)].
    intros Hu. by apply (uuid_random (rt_tick rt)).
Qed.

(** One append of a fresh pending event, in a live run. *)
Lemma append_once_cases {E} rt log p rt' (a : result RunStoreError StoredRuntimeEvent) :
  port_holds (rt_store rt) (rs_lease (rt_state rt)) log →
  append_once ports (E := E) p rt = (rt', Ok a) →
  rt_state rt' = rt_state rt ∧ rt_sink rt' = rt_sink rt ∧ rt_tick rt' = Datatypes.S (rt_tick rt) ∧
  ∃ log', port_holds (rt_store rt') (rs_lease (rt_state rt)) log' ∧ extends_by log log' p ∧
    match a with
    | Ok e => e ∈ log' ∧ sre_event_id e = pre_event_id p ∧ sre_event e = pre_event p
    | Err (Backend _) => True
    | Err _ => log' = log
    end.
Proof.
  unfold append_once. intros Hh. destruct (port_append _ _ _ _) as [st' r] eqn:Ha.
  intros [= <- <-]. cbn. split_and!; [done..|]. by eapply port_append_law.
Qed.

Lemma extends_by_twice log log1 log2 p :
  extends_by log log1 p → extends_by log1 log2 p → NoDup (sre_event_id <$> log2) →
  extends_by log log2 p.
Proof.
  intros [->|(e1 & -> & He1 & Hev1)] [->|(e2 & -> & He2 & Hev2)] Hnd;
    [by left|right; by exists e2|right; by exists e1|].
  rewrite !fmap_app in Hnd. cbn in Hnd. apply NoDup_app in Hnd as (_ & Hno & _).
  destruct (Hno (sre_event_id e1)); rewrite ?He1, <- ?He2.
  - apply elem_of_app. right. by left.
  - by left.
Qed.

Lemma extended_with log log' p e :
  extends_by log log' p → e ∈ log' → sre_event_id e = pre_event_id p →
  pre_event_id p ∉ (sre_event_id <$> log) → log' = log ++ [e].
Proof.
  assert (∀ x, x ∈ log → sre_event_id x = pre_event_id p →
    pre_event_id p ∉ (sre_event_id <$> log) → False) as Hno.
  { intros x Hin <- Hn. by apply Hn, list_elem_of_fmap_2. }
  intros [->|(e' & -> & _)] Hin Hid Hfresh; [by destruct (Hno e)|].
  apply elem_of_app in Hin as [Hin|Hin%list_elem_of_singleton]; [by destruct (Hno e)|by subst].
Qed.

Lemma apply_stored_eq rt e :
  apply_stored ports e rt =
  match apply_event (rt_snapshot rt) e with
  | Ok s => (rt <| rt_state := rt_state rt <| rs_snapshot := s |> |>
                <| rt_sink := rt_sink rt ++ [e] |>, Ok e)
  | Err error => (rt, Err (StoreFailure
      ("persisted event could not update the live canonical projection: " +:+
       rp_store_error_text ports error)))
  end.
Proof. unfold apply_stored. rewrite M_bind_run. cbn. rewrite M_bind_run. cbn. by destruct (apply_event _ e). Qed.

(** How a publication ends in a live run with the log [log]. *)
Definition published rt log ev rt' (r : result RuntimeFailure StoredRuntimeEvent) : Prop :=
  (rt_tick rt < rt_tick rt')%nat ∧
  ∃ log', port_holds (rt_store rt') (rs_lease (rt_state rt)) log' ∧
    extends_by log log' (pending_event ports ev (rt_tick rt)) ∧
    match r with
    | Ok e => log' = log ++ [e] ∧ sre_event e = ev ∧
        sre_event_id e = pre_event_id (pending_event ports ev (rt_tick rt)) ∧
        apply_event (rt_snapshot rt) e = Ok (rt_snapshot rt') ∧
        rt_sink rt' = rt_sink rt ++ [e] ∧
        rt_state rt' = rt_state rt <| rs_snapshot := rt_snapshot rt' |>
    | Err _ => rt_state rt' = rt_state rt ∧ rt_sink rt' = rt_sink rt
    end.

Lemma stored_published rt log ev rt2 log2 e rt' r :
  live rt log → sn_terminal (rt_snapshot rt) = None →
  rt_state rt2 = rt_state rt → rt_sink rt2 = rt_sink rt → (rt_tick rt < rt_tick rt2)%nat →
  port_holds (rt_store rt2) (rs_lease (rt_state rt)) log2 →
  extends_by log log2 (pending_event ports ev (rt_tick rt)) →
  e ∈ log2 ∧ sre_event_id e = pre_event_id (pending_event ports ev (rt_tick rt)) ∧
  sre_event e = pre_event (pending_event ports ev (rt_tick rt)) →
  apply_stored ports e rt2 = (rt', r) → published rt log ev rt' r.
Proof.
  intros Hl Hn Hs2 Hk2 Ht2 Hh2 Hx2 (Hin & Hid & Hev).
  pose proof (pending_fresh _ _ ev Hl Hn) as Hfresh.
  pose proof (extended_with _ _ _ _ Hx2 Hin Hid Hfresh) as Hlog2.
  destruct (pending_event_id ev (rt_tick rt)) as [Hpev _]. rewrite Hpev in Hev.
  rewrite apply_stored_eq. unfold rt_snapshot at 1. rewrite Hs2. fold (rt_snapshot rt).
  destruct (apply_event (rt_snapshot rt) e) as [s'|error] eqn:Happ; intros [= <- <-];
    (split; [done|]); exists log2; (split; [done|]); (split; [done|]); cbn;
    rewrite ?Hs2, ?Hk2; by split_and!.
Qed.

Lemma append_once_total {E} p rt : ∃ rt' a, append_once ports (E := E) p rt = (rt', Ok a).
Proof. unfold append_once. destruct (port_append _ _ _ _). eauto. Qed.

Lemma publish_cases rt log ev rt' r :
  live rt log → sn_terminal (rt_snapshot rt) = None → publish ports ev rt = (rt', r) →
  published rt log ev rt' r.
Proof.
  intros Hl Hn. unfold publish. rewrite M_bind_run. cbn -[append_once].
  set (p := pending_event ports ev (rt_tick rt)).
  set (rt0 := rt <| rt_tick := Datatypes.S (rt_tick rt) |>).
  destruct (append_once_total (E := RuntimeFailure) p rt0) as (rt1 & a & Hone).
  rewrite M_bind_run, Hone.
  apply (append_once_cases rt0 log) in Hone as (Hs1 & Hk1 & Ht1 & log1 & Hh1 & Hx1 & Ha1);
    [|apply (live_holds _ _ Hl)]. cbn in Hs1, Hk1, Ht1.
  destruct a as [e|error].
  - apply (stored_published _ log _ _ log1); try done. lia.
  - destruct error; try (cbn; intros [= <- <-]; (split; [cbn; lia|]); exists log1; by split_and!).
    destruct (append_once_total (E := RuntimeFailure) p rt1) as (rt2 & a & Htwo).
    rewrite M_bind_run, Htwo.
    apply (append_once_cases rt1 log1) in Htwo as (Hs2 & Hk2 & Ht2 & log2 & Hh2 & Hx2 & Ha2);
      [|by rewrite Hs1]. rewrite Hs1 in Hh2. destruct (port_holds_log _ _ _ Hh2) as [Hnd _].
    pose proof (extends_by_twice _ _ _ _ Hx1 Hx2 Hnd) as Hx.
    destruct a as [e|error]; rewrite M_bind_run; cbn -[apply_stored].
    + apply (stored_published _ log _ _ log2); try done; try congruence. lia.
    + intros [= <- <-]. split; [lia|]. exists log2. split_and!; congruence || done.
Qed.
(** C11: Publication is exactly once.  In a live run, a published event is the one event its durable
    log grew by, the live snapshot is again the replay of the log, and the sink sees the event
    after it is durable - also when the store committed the first append and then reported a
    backend failure.  A failed publication leaves the live run and the sink alone, and the
    durable log grew at most by that one event. *)
Theorem publish_is_exactly_once rt log ev rt' r :
  live rt log → sn_terminal (rt_snapshot rt) = None → publish ports ev rt = (rt', r) →
  match r with
  | Ok e => sre_event e = ev ∧ live rt' (log ++ [e]) ∧ rt_sink rt' = rt_sink rt ++ [e]
  | Err _ => rt_state rt' = rt_state rt ∧ rt_sink rt' = rt_sink rt ∧
      ∃ log', port_holds (rt_store rt') (rs_lease (rt_state rt')) log' ∧
        (log' = log ∨ ∃ e, log' = log ++ [e] ∧ sre_event e = ev)
  end.
Proof.
  intros Hl Hn Hp. apply (publish_cases _ log) in Hp as (Ht & log' & Hh & Hx & Hr); [|done..].
  destruct r as [e|error].
  - destruct Hr as (-> & Hev & Hid & Happ & Hsink & Hst). split_and!; [done| |done].
    eapply live_extended; try done. by rewrite Hst.
  - destruct Hr as [Hst Hsink]. split_and!; [done..|]. exists log'. rewrite Hst. split; [done|].
    destruct Hx as [->|(e & -> & _ & Hev)]; [by left|right]. exists e. split; [done|].
    rewrite Hev. by destruct (pending_event_id ev (rt_tick rt)).
Qed.

(** What the reducer asks of the next event of a run that accepts events; [s1] is the result,
    up to the sequence number. *)
Record accepts (s : RunSnapshot) (ev : RuntimeEventKind) (s1 : RunSnapshot) : Prop := {
  ac_open : sn_terminal s = None;
  ac_payload : validate_agent_lifecycle_payload ev = Ok tt;
  ac_control : is_some (sn_pending_control s) = true → is_settlement ev = true;
  ac_failure : is_some (sn_last_model_failure s) = true → is_terminal ev = true;
  ac_dispatch : ∀ run_id n, rr_run_id (sn_request s) = Some run_id → dispatch s run_id n ev = Ok s1;
}.

Lemma accepts_applied s ev s1 l p now :
  accepts s ev s1 → pre_event p = ev → rr_run_id (sn_request s) = Some (rl_run_id l) →
  apply_event s (next_stored s l p now) =
    Ok (s1 <| sn_last_sequence := sat_add64 (sn_last_sequence s) 1 |>).
Proof.
  intros [Ho Hp Hc Hf Hd] <- Hid. unfold apply_event, admit_event. rewrite Hid. cbn.
  unfold validate_event_header. cbn. rewrite !bool_decide_true by done. cbn.
  rewrite Ho, Hp. cbn.
  destruct (is_some (sn_pending_control s)); cbn; [rewrite Hc by done; cbn|];
    (destruct (is_some (sn_last_model_failure s)); cbn; [rewrite Hf by done; cbn|]);
    by rewrite (Hd _ _ Hid).
Qed.
End publish.

(** ** A store that does not fail *)

Section available.
Context {St : Type} `{RunPortAvailable St} (ports : RuntimePorts).
Context (uuid_fresh : ∀ n m, rp_uuid ports n = rp_uuid ports m → n = m).
Context (uuid_random : ∀ n, rp_uuid ports n ≠ RuntimeEventId_terminal).
Implicit Types (rt : Rt St) (log : list StoredRuntimeEvent).

Lemma publish_available rt log ev s' :
  live ports rt log → sn_terminal (rt_snapshot rt) = None →
  (∀ now, apply_event (rt_snapshot rt) (next_stored (rt_snapshot rt) (rs_lease (rt_state rt))
     (pending_event ports ev (rt_tick rt)) now) = Ok s') →
  ∃ rt' e, publish ports ev rt = (rt', Ok e) ∧ live ports rt' (log ++ [e]) ∧
    sre_event e = ev ∧ rt_state rt' = rt_state rt <| rs_snapshot := s' |>.
Proof.
  intros Hl Hn Hall. pose proof (pending_fresh _ _ _ ev Hl Hn) as Hfresh.
  set (p := pending_event ports ev (rt_tick rt)) in *.
  set (now := rp_clock ports (Datatypes.S (rt_tick rt))). specialize (Hall now) as Happ.
  destruct (port_available _ _ _ _ _ _ _ (live_holds _ _ _ Hl) (live_snapshot _ _ _ Hl) Hfresh Happ)
    as (st' & Hport & Hh).
  destruct (publish ports ev rt) as [rt' r] eqn:Hpub. pose proof Hpub as Hcases.
  apply (publish_cases ports rt log) in Hcases; [|done..].
  assert (∃ e, r = Ok e ∧ apply_event (rt_snapshot rt) e = Ok s') as (e & -> & He).
  { unfold publish in Hpub. rewrite M_bind_run in Hpub. cbn -[append_once] in Hpub. fold p in Hpub.
    rewrite M_bind_run in Hpub. unfold append_once at 1 in Hpub. cbn in Hpub. fold now in Hpub.
    rewrite Hport in Hpub. cbn -[apply_stored] in Hpub.
    rewrite apply_stored_eq in Hpub. unfold rt_snapshot at 1 in Hpub. cbn in Hpub.
    fold (rt_snapshot rt) in Hpub. rewrite Happ in Hpub. injection Hpub as _ <-. eauto. }
  destruct Hcases as (Htick & log' & Hh' & _ & -> & Hev & Heid & Happ' & _ & Hst).
  rewrite He in Happ'. injection Happ' as Hsnap.
  exists rt', e. split_and!; [done| |done|by rewrite Hst, Hsnap].
  eapply live_extended; try done; [by rewrite Hst|by rewrite He, Hsnap].
Qed.

Lemma publish_accepted rt log ev s1 :
  live ports rt log → accepts (rt_snapshot rt) ev s1 →
  ∃ rt' e, publish ports ev rt = (rt', Ok e) ∧ live ports rt' (log ++ [e]) ∧
    sre_event e = ev ∧
    rt_state rt' = rt_state rt <| rs_snapshot :=
      s1 <| sn_last_sequence := sat_add64 (sn_last_sequence (rt_snapshot rt)) 1 |> |>.
Proof.
  intros Hl Ha. destruct (pending_event_id ports ev (rt_tick rt)) as [Hpev _].
  destruct (port_holds_log _ _ _ (live_holds _ _ _ Hl)) as (_ & s & Hs & Hid).
  rewrite (live_snapshot _ _ _ Hl) in Hs. injection Hs as <-.
  apply publish_available; [done|by eapply ac_open|].
  intros now. by apply (accepts_applied _ ev).
Qed.
End available.
