(* ===== verification/AgentWriter.v ===== *)
(** The isolated-writer lifecycle a parent run drives ([crates/runtime/src/agent.rs]): what it
    reads back from the durable task, and the steps that seal, collect, integrate, clean up and
    finish a writer child, in the order the source takes them, errors included.

    A panic of the source ([expect] on a fact the caller established) ends the background task;
    whoever joins it sees [JoinFailure]. *)
From Stdlib Require Import Ascii String.
From stdpp Require Import sorting.
From S2P Require Import Prelude.
From S2P Require Import Text.
From S2P Require Import Json.
From S2P Require Import Task.
From S2P Require Import Protocol.
From S2P Require Import Validate.
From S2P Require Import Context.
From S2P Require Import Snapshot.
From S2P Require Import Evidence.
From S2P Require Import RunEvents.
From S2P Require Import AgentEvents.
From S2P Require Import Reducer.
From S2P Require Import MemStore.
From S2P Require Import AgentRuntime.

Open Scope string_scope.
Open Scope N_scope.

Definition quote : string := String (ascii_of_N 34) "".

Definition panicked_task (message : string) : TerminalState := Failed (JoinFailure message).

(** ** Reading the durable task *)

Definition writer_seal_from_lifecycle (lifecycle : AgentTaskLifecycle) : option WriterSeal :=
  seal ← atl_seal lifecycle;
  committed ← asl_committed seal;
  Some (mkWriterSeal (asl_base_commit seal) (asc_final_commit committed)
          (asc_diff_sha256 committed) (asc_changed_files committed)
          (asc_writer_workspace_state_after committed)).

Definition writer_cleanup_context (lifecycle : AgentTaskLifecycle)
    : WriterCleanupPhase * string :=
  if is_some_and (atl_integration lifecycle) (λ integration, is_some (ail_committed integration))
  then (PhasePostIntegration, "writer_integrated")
  else
    match atl_integration lifecycle ≫= ail_failure with
    | Some failure =>
      (PhaseIntegration,
       match aif_status failure with
       | IntegrationRejected _ => "writer_integration_rejected"
       | IntegrationConflict _ => "writer_integration_conflict"
       | IntegrationRecoveryRequired _ => "writer_integration_recovery_required"
       | IntegrationNotApplicable | IntegrationAwaitingHost | IntegrationIntegrated _ _ _ =>
         "writer_integration_invalid"
       end)
    | None =>
      if is_none (atl_child_started lifecycle) then (PhaseBinding, "writer_binding_failed")
      else if is_some (atl_seal lifecycle) then (PhaseSeal, "writer_seal_failed")
      else
        (PhaseChild,
         match ao_terminal <$> atl_result lifecycle with
         | Some (Blocked _) => "writer_child_blocked"
         | Some Cancelled => "writer_child_cancelled"
         | Some Interrupted => "writer_child_interrupted"
         | Some (RecoveryRequired _) => "writer_child_recovery_required"
         | Some (AwaitingHostAcceptance _) | Some (Failed _) | Some (Completed _ _) | None =>
           "writer_child_failed"
         end)
    end.

Definition stable_cleanup_code (value fallback : string) : string :=
  if negb (is_empty_str value) && (str_len value <=? 96)
     && all_bytes (λ b, is_ascii_lowercase b || is_ascii_digit b || (byte_val b =? 95)) value
  then value else fallback.

(** [None]: the Host-created plan is invalid, and the source panics. *)
Definition retained_writer_cleanup_plan (seal : option WriterSeal) (phase : WriterCleanupPhase)
    (reason_code uncertainty_code : string) : option WriterCleanupPlan :=
  let artifact_state :=
    match seal with
    | Some seal => KnownHostSealed (wse_final_commit seal) (wse_diff_sha256 seal)
    | None => ArtifactStateUnknown
    end in
  let plan := mkWriterCleanupPlan phase reason_code (OwnershipUnknown uncertainty_code)
                artifact_state (ScopeUnknown uncertainty_code)
                (RetainForRecovery uncertainty_code) in
  match WriterCleanupPlan_validate plan with Ok _ => Some plan | Err _ => None end.

Definition retained_cleanup_result (uncertainty_code : string) : WriterCleanupResult :=
  CleanupRetained ResourceUnknown ResourceUnknown MetadataUncertain
    (stable_cleanup_code uncertainty_code "writer_cleanup_execution_failed").

Definition cleanup_uncertainty_code (result : WriterCleanupResult) : option string :=
  match result with
  | CleanupRetained _ _ _ uncertainty_code => Some uncertainty_code
  | CleanupRemoved _ _ | CleanupAlreadyAbsent => None
  end.

Definition writer_integration_failure_status (error : AgentOrchestrationError)
    : WriterIntegrationStatus :=
  let reason := aoe_code error ++ "：" ++ aoe_message error in
  match aoe_kind error with
  | OrchestrationRejected => IntegrationRejected reason
  | OrchestrationConflict => IntegrationConflict reason
  | OrchestrationRecoveryRequired => IntegrationRecoveryRequired reason
  end.

Definition writer_integration_failure_reason (status : WriterIntegrationStatus)
    : option string :=
  match status with
  | IntegrationRejected reason | IntegrationConflict reason
  | IntegrationRecoveryRequired reason => Some reason
  | IntegrationNotApplicable | IntegrationAwaitingHost | IntegrationIntegrated _ _ _ => None
  end.

Definition writer_cleanup_recovery_terminal (task : AgentTask) (message : string)
    : TerminalState :=
  RecoveryRequired (mkRecoveryAmbiguity AmbiguityChildRun
                      ("agent-cleanup:" ++ at_task_id task) message).

Definition recovered_integration (outcome : AgentOutcome)
    (integration : AgentIntegrationLifecycle) : result string AgentOutcome :=
  match ail_committed integration, ail_failure integration with
  | Some committed, None =>
    Ok (with_integration outcome
          (IntegrationIntegrated (ail_integration_id integration)
             (ail_writer_commit integration) (aic_root_workspace_state_after committed)))
  | None, Some failure =>
    let outcome := with_integration outcome (aif_status failure) in
    reason ← ok_or (writer_integration_failure_reason (aif_status failure))
      "writer integration failure 状态无效";
    match aif_status failure with
    | IntegrationRecoveryRequired _ =>
      Ok (outcome <| ao_terminal := RecoveryRequired
            (mkRecoveryAmbiguity AmbiguityChildRun
               ("agent-integration:" ++ ail_integration_id integration) reason) |>)
    | IntegrationRejected _ | IntegrationConflict _ =>
      Ok (outcome <| ao_terminal := Blocked reason |>)
    | IntegrationNotApplicable | IntegrationAwaitingHost | IntegrationIntegrated _ _ _ =>
      Err "writer integration failure 状态无效"
    end
  | Some _, Some _ => Err "writer integration 同时 committed 与 failed"
  | None, None => Err "成功 writer integration 尚未形成持久结果"
  end.

Definition recovered_finished_outcome (lifecycle : AgentTaskLifecycle)
    : result string AgentOutcome :=
  outcome ← ok_or (atl_result lifecycle) "writer ChildFinished 缺少 collected result";
  outcome ←
    (if is_completed (ao_terminal outcome) then
       integration ← ok_or (atl_integration lifecycle) "成功 writer 缺少 integration lifecycle";
       recovered_integration outcome integration
     else Ok outcome);
  Ok match committed_cleanup lifecycle with
     | Some cleanup =>
       if retained_for_recovery cleanup then
         outcome <| ao_terminal := writer_cleanup_recovery_terminal (atl_task lifecycle)
           (default "writer_cleanup_uncertain" (cleanup_uncertainty_code cleanup)) |>
       else outcome
     | None => outcome
     end.

Definition artifact_id_le (a b : ToolArtifact) : Prop := String.le (tf_id a) (tf_id b).
#[export] Instance artifact_id_le_dec : RelDecision artifact_id_le.
Proof. intros a b. unfold artifact_id_le. apply _. Defined.

Definition agent_check_of (event : StoredRuntimeEvent) : option AgentCheck :=
  match sre_event event with
  | HostVerificationCommitted verification_id outcome _ workspace_state_after =>
    observation ← to_verifier_observation outcome;
    Some (mkAgentCheck verification_id (obs_spec observation) workspace_state_after outcome)
  | _ => None
  end.
Definition agent_checks_from_replay (replay : RunReplay)
    : list AgentCheck * list ToolArtifact :=
  let checks := omap agent_check_of (replay_events replay) in
  let artifacts := mjoin ((λ check, to_artifacts (ac_outcome check)) <$> checks) in
  (checks, dedup_by tf_id (merge_sort artifact_id_le artifacts)).

(** ** What the tool call of a writer reports *)

Definition writer_failure_tool_outcome (task : AgentTask) (outcome : AgentOutcome)
    : ToolOutcome :=
  ToolOutcome_error ("Writer 子 Agent " ++ at_child_run_id task ++ " 以" ++
                     terminal_state_label (ao_terminal outcome) ++ "状态结束，未执行集成")
    <| to_side_effect := SideEffectNotApplied |>
    <| to_retry := RetryAfterCorrection |>.

Definition writer_tool_outcome (task : AgentTask) (outcome : AgentOutcome) : ToolOutcome :=
  if negb (is_completed (ao_terminal outcome)) then writer_failure_tool_outcome task outcome
  else
    match ard_integration (ao_details outcome), ard_diff_sha256 (ao_details outcome) with
    | IntegrationIntegrated _ writer_commit root_workspace_state, Some diff_sha256 =>
      let tool_outcome :=
        ToolOutcome_success ("Host 已集成 Writer 提交 " ++ writer_commit)
          <| to_side_effect := SideEffectApplied |>
          <| to_evidence := mkToolEvidence EvidenceProduced
               (er_id <$> ard_evidence (ao_details outcome)) |>
          <| to_metadata := Some (VObject
               [("task_id", VString (at_task_id task));
                ("child_run_id", VString (at_child_run_id task));
                ("writer_commit", VString writer_commit);
                ("diff_sha256", VString diff_sha256);
                ("changed_files",
                 VArray (VString <$> ard_changed_files (ao_details outcome)))]) |> in
      match ws_revision root_workspace_state with
      | Known sha256 => tool_outcome <| to_workspace_revision := Some sha256 |>
      | Unknown _ => tool_outcome
      end
    | _, _ => ToolOutcome_recovery_ambiguous "Writer 完成结果缺少 Host 集成事实"
    end.

(** ** The steps of the lifecycle *)

Section writer.
Context `{Codecs} {St : Type} `{RunPort St} (ports : RuntimePorts) (orchestrator : AgentOrchestrator).
Abbreviation run := (M St).

Definition publish_or_terminal (event : RuntimeEventKind) : run TerminalState unit :=
  or_else store_terminal (publish ports event) ;; mret tt.

Definition current_agent_lifecycle (task_id : AgentTaskId)
    : run TerminalState AgentTaskLifecycle :=
  snapshot ← get_snapshot;
  lift (ok_or (find_first (λ lifecycle, at_task_id (atl_task lifecycle) ==? task_id)
                 (sn_agent_tasks snapshot))
          (Failed (StoreFailure ("canonical AgentTask '" ++ task_id ++
                                 "' disappeared from replay")))).

Definition expect {E A} (o : option A) (panic : E) : run E A := lift (ok_or o panic).

Definition validate_writer_seal (task : AgentTask) (seal : WriterSeal) : result string unit :=
  fail_if (wse_base_commit seal !=? awa_base_commit (at_workspace task))
    "Host seal 的 base commit 与 AgentTask 不一致" ;;
  fail_if (wse_final_commit seal ==? wse_base_commit seal)
    "Host seal 没有产生新的 writer commit" ;;
  fail_if (wse_changed_files seal ==? []) "Host seal 不接受空 diff" ;;
  validate_agent_lifecycle_payload
    (AgentSealCommitted (at_task_id task) (wse_final_commit seal) (wse_diff_sha256 seal)
       (wse_changed_files seal) (wse_writer_workspace_state seal)).

Definition child_handoff (snapshot : RunSnapshot) (outcome : AgentOutcome) : string :=
  let marker_kind :=
    if actor_depth (rr_actor (sn_request snapshot)) =? 0 then "subagent_completion"
    else "child_subagent_completion" in
  let receipt :=
    match rp_outcome_to_string ports outcome with
    | Ok text => text
    | Err error =>
      value_to_string (VObject [("run_id", VString (ao_run_id outcome));
                                ("terminal", VString "encoding_failed");
                                ("error", VString error)])
    end in
  "<dse:runtime_event kind=" ++ quote ++ marker_kind ++ quote ++ " agent_id=" ++ quote ++
  ao_run_id outcome ++ quote ++ ">" ++ newline ++ receipt ++ newline ++
  "</dse:runtime_event>".

(** Publish the finish of a child with the handoff and the accounting of this moment. *)
Definition publish_child_finished (call_id : string) (outcome : AgentOutcome)
    (handoff : string) : run TerminalState unit :=
  accounting ← cumulative_accounting ports false;
  publish_or_terminal (ChildFinished call_id outcome accounting handoff).

(** Execute a cleanup plan and commit whatever came out of it. *)
Definition execute_cleanup (task : AgentTask) (plan : WriterCleanupPlan)
    : run TerminalState WriterCleanupResult :=
  tick ← next_tick;
  let cleanup :=
    match execute_writer_cleanup orchestrator tick task plan with
    | Ok cleanup => cleanup
    | Err error => retained_cleanup_result (aoe_code error)
    end in
  publish_or_terminal (AgentCleanupCommitted (at_task_id task) cleanup) ;;
  mret cleanup.

Definition cleanup_writer (task : AgentTask) (seal : option WriterSeal)
    : run TerminalState WriterCleanupResult :=
  lifecycle ← current_agent_lifecycle (at_task_id task);
  let '(phase, reason_code) := writer_cleanup_context lifecycle in
  tick ← next_tick;
  plan ←
    (match inspect_writer_cleanup orchestrator tick task seal phase reason_code with
     | Ok plan => mret plan
     | Err error =>
       expect (retained_writer_cleanup_plan seal phase reason_code
                 (stable_cleanup_code (aoe_code error) "writer_cleanup_inspection_failed"))
         (panicked_task "Host-created cleanup plan is invalid")
     end);
  publish_or_terminal (AgentCleanupPrepared (at_task_id task) plan) ;;
  execute_cleanup task plan.

Definition resume_writer_cleanup (task : AgentTask) (seal : option WriterSeal)
    : run TerminalState WriterCleanupResult :=
  lifecycle ← current_agent_lifecycle (at_task_id task);
  match atl_cleanup lifecycle with
  | None => cleanup_writer task seal
  | Some cleanup =>
    match acl_committed cleanup with
    | Some committed => mret committed
    | None => execute_cleanup task (acl_plan cleanup)
    end
  end.

(** The report of a failed writer, as it is collected: no Host-sealed fact survives. *)
Definition failed_writer_report (outcome : AgentOutcome) : AgentOutcome :=
  let details := ao_details outcome in
  outcome <| ao_details := details
    <| ard_summary := stable_cleanup_code (ard_summary details) "writer_child_failed" |>
    <| ard_workspace := None |>
    <| ard_workspace_state := None |>
    <| ard_base_commit := None |>
    <| ard_final_commit := None |>
    <| ard_diff_sha256 := None |>
    <| ard_changed_files := [] |>
    <| ard_integration := IntegrationNotApplicable |> |>.

Definition collect_failed_writer (task : AgentTask) (outcome : AgentOutcome)
    : run TerminalState unit :=
  let outcome := failed_writer_report outcome in
  publish_or_terminal (AgentResultCollected (at_task_id task) outcome) ;;
  cleanup ← cleanup_writer task None;
  let cleanup_recovery := retained_for_recovery cleanup in
  let outcome :=
    if cleanup_recovery then
      outcome <| ao_terminal := writer_cleanup_recovery_terminal task
        (default "writer_cleanup_uncertain" (cleanup_uncertainty_code cleanup)) |>
    else outcome in
  snapshot ← get_snapshot;
  publish_child_finished (at_call_id task) outcome (child_handoff snapshot outcome) ;;
  if cleanup_recovery then throw (ao_terminal outcome) else mret tt.

(** The outcome of the finished task, as the steps above left it. *)
Definition finished_writer_outcome (task_id : AgentTaskId) (panic : string)
    : run TerminalState AgentOutcome :=
  lifecycle ← current_agent_lifecycle task_id;
  finished ← expect (atl_finished lifecycle) (panicked_task panic);
  mret (acf_outcome finished).

(** A report blocked by the Host: the child's own terminal and details are dropped. *)
Definition bound_failure_report (outcome : AgentOutcome) (error : AgentOrchestrationError)
    : AgentOutcome :=
  let code := stable_cleanup_code (aoe_code error) "writer_operation_failed" in
  outcome <| ao_terminal := Blocked code |>
          <| ao_details := AgentResultDetails_default <| ard_summary := code |> |>.

Definition finish_bound_writer_failure (task : AgentTask) (outcome : AgentOutcome)
    (error : AgentOrchestrationError) : run TerminalState ToolOutcome :=
  collect_failed_writer task (bound_failure_report outcome error) ;;
  finished ← finished_writer_outcome (at_task_id task) "failed bound writer was finished";
  if is_recovery_required (ao_terminal finished) then throw (ao_terminal finished)
  else mret (writer_failure_tool_outcome task finished).

(** ** Sealing and collecting a successful writer

    [inl]: the lifecycle was settled as a failure on the way, with this tool outcome. *)

Definition settle_as_failure (task : AgentTask) (outcome : AgentOutcome)
    (error : AgentOrchestrationError) {A} : run TerminalState (ToolOutcome + A) :=
  tool_outcome ← finish_bound_writer_failure task outcome error;
  mret (inl tool_outcome).

(** The seal the Host commits for a writer that has none yet. *)
Definition seal_new_writer (task : AgentTask) (lifecycle : AgentTaskLifecycle)
    (child_outcome : AgentOutcome) : run TerminalState (ToolOutcome + WriterSeal) :=
  tick ← next_tick;
  match seal_writer orchestrator tick task with
  | Err error => settle_as_failure task child_outcome error
  | Ok seal =>
    prepared ← expect (atl_seal lifecycle) (panicked_task "seal was prepared above");
    let seal := mkWriterSeal (wse_base_commit seal) (wse_final_commit seal)
      (wse_diff_sha256 seal) (wse_changed_files seal)
      (mkWorkspaceState
         (sat_add64 (ws_generation (asl_writer_workspace_state_before prepared)) 1)
         (ws_revision (wse_writer_workspace_state seal))) in
    match validate_writer_seal task seal with
    | Err message =>
      settle_as_failure task child_outcome
        (mkAgentOrchestrationError OrchestrationRecoveryRequired "writer_seal_mismatch" message)
    | Ok _ =>
      publish_or_terminal
        (AgentSealCommitted (at_task_id task) (wse_final_commit seal) (wse_diff_sha256 seal)
           (wse_changed_files seal) (wse_writer_workspace_state seal)) ;;
      mret (inr seal)
    end
  end.

(** The sealed facts replace whatever the child claimed about them. *)
Definition sealed_writer_report (task : AgentTask) (seal : WriterSeal) (replay : RunReplay)
    (child_outcome : AgentOutcome) : AgentOutcome :=
  let '(checks, artifacts) := agent_checks_from_replay replay in
  child_outcome <| ao_details := ao_details child_outcome
    <| ard_workspace := Some (at_workspace task) |>
    <| ard_workspace_state := Some (wse_writer_workspace_state seal) |>
    <| ard_base_commit := Some (wse_base_commit seal) |>
    <| ard_final_commit := Some (wse_final_commit seal) |>
    <| ard_diff_sha256 := Some (wse_diff_sha256 seal) |>
    <| ard_changed_files := wse_changed_files seal |>
    <| ard_checks := checks |>
    <| ard_artifacts := artifacts |>
    <| ard_integration := IntegrationAwaitingHost |> |>.

Definition collect_completed_writer (task : AgentTask) (child_outcome : AgentOutcome)
    (child_replay : option RunReplay) : run TerminalState (ToolOutcome + unit) :=
  match validate_child_completion_facts task child_outcome with
  | Err message =>
    settle_as_failure task child_outcome
      (mkAgentOrchestrationError OrchestrationRejected "writer_receipt_mismatch" message)
  | Ok _ =>
    match child_replay with
    | None =>
      settle_as_failure task child_outcome
        (mkAgentOrchestrationError OrchestrationRecoveryRequired "writer_child_missing"
           "完成的 writer child 没有 canonical replay")
    | Some replay =>
      lifecycle ← current_agent_lifecycle (at_task_id task);
      (if is_none (atl_seal lifecycle) then
         publish_or_terminal
           (AgentSealPrepared (at_task_id task) (awa_base_commit (at_workspace task))
              (sn_workspace_state (replay_snapshot replay)))
       else mret tt) ;;
      lifecycle ← current_agent_lifecycle (at_task_id task);
      sealed ←
        (match writer_seal_from_lifecycle lifecycle with
         | Some seal => mret (inr seal)
         | None => seal_new_writer task lifecycle child_outcome
         end);
      match sealed with
      | inl tool_outcome => mret (inl tool_outcome)
      | inr seal =>
        let collected := sealed_writer_report task seal replay child_outcome in
        lift (map_err (orchestration_recovery (at_task_id task) "writer_result_invalid")
                (AgentOutcome_validate collected)) ;;
        publish_or_terminal (AgentResultCollected (at_task_id task) collected) ;;
        mret (inr tt)
      end
    end
  end.

(** ** Integration *)

Definition integration_of (task : AgentTask) (panic : string)
    : run TerminalState AgentIntegrationLifecycle :=
  lifecycle ← current_agent_lifecycle (at_task_id task);
  expect (atl_integration lifecycle) (panicked_task panic).

Definition run_integration (task : AgentTask) (seal : WriterSeal)
    (integration : AgentIntegrationLifecycle) : run TerminalState unit :=
  let id := ail_integration_id integration in
  let expected := ail_expected_root_workspace_state integration in
  let failed status :=
    publish_or_terminal (AgentIntegrationFailed (at_task_id task) id status expected) in
  tick ← next_tick;
  match integrate_writer orchestrator tick task seal expected with
  | Ok integrated =>
    if wi_root_head_commit integrated ==? wse_final_commit seal then
      publish_or_terminal
        (AgentIntegrationCommitted (at_task_id task) id (wi_root_head_commit integrated)
           (mkWorkspaceState (sat_add64 (ws_generation expected) 1)
              (ws_revision (wi_root_workspace_state integrated))))
    else failed (IntegrationRecoveryRequired "集成后的 root HEAD 不是 Host-sealed writer commit")
  | Err error => failed (writer_integration_failure_status error)
  end.

Definition integrate_sealed_writer (task : AgentTask) (seal : WriterSeal)
    : run TerminalState unit :=
  lifecycle ← current_agent_lifecycle (at_task_id task);
  (if is_none (atl_integration lifecycle) then
     tick ← next_tick;
     snapshot ← get_snapshot;
     publish_or_terminal
       (AgentIntegrationPrepared (at_task_id task) (rp_uuid ports tick) (wse_base_commit seal)
          (wse_final_commit seal) (wse_diff_sha256 seal) (sn_workspace_state snapshot))
   else mret tt) ;;
  integration ← integration_of task "integration was prepared";
  (if negb (ail_started integration) then
     publish_or_terminal
       (AgentIntegrationStarted (at_task_id task) (ail_integration_id integration))
   else mret tt) ;;
  integration ← integration_of task "started integration remains present";
  (if is_none (ail_committed integration) && is_none (ail_failure integration)
   then run_integration task seal integration else mret tt) ;;
  lifecycle ← current_agent_lifecycle (at_task_id task);
  if is_some (atl_integration lifecycle ≫= ail_failure) && is_none (committed_cleanup lifecycle)
  then resume_writer_cleanup task (Some seal) ;; mret tt
  else mret tt.

(** ** The whole lifecycle *)

(** The tool outcome of a finished writer; recovery and a stop of the parent come first, in the
    order of the branch. *)
Definition report_finished_writer (task : AgentTask) (finished : AgentOutcome)
    (parent_terminal : option TerminalState) (parent_first : bool)
    (tool_outcome : ToolOutcome) : run TerminalState ToolOutcome :=
  let recovery := if is_recovery_required (ao_terminal finished)
                  then Some (ao_terminal finished) else None in
  let stop := if parent_first
              then match parent_terminal with Some t => Some t | None => recovery end
              else match recovery with Some t => Some t | None => parent_terminal end in
  match stop with Some terminal => throw terminal | None => mret tool_outcome end.

(** From a collected result to the finished task. *)
Definition finish_collected_writer (task : AgentTask) (parent_terminal : option TerminalState)
    : run TerminalState ToolOutcome :=
  lifecycle ← current_agent_lifecycle (at_task_id task);
  let seal := writer_seal_from_lifecycle lifecycle in
  result ← expect (atl_result lifecycle)
             (panicked_task "writer result was recovered or collected");
  (if negb (is_completed (ao_terminal result)) then
     if is_none (committed_cleanup lifecycle)
     then resume_writer_cleanup task seal ;; mret tt
     else mret tt
   else
     seal ← lift (ok_or seal
       (orchestration_recovery (at_task_id task) "writer_recovery_seal"
          "成功 writer result 缺少 committed seal"));
     integrate_sealed_writer task seal) ;;
  lifecycle ← current_agent_lifecycle (at_task_id task);
  (if is_none (atl_finished lifecycle) then
     finished ← lift (map_err
       (orchestration_recovery (at_task_id task) "writer_recovery_finish")
       (recovered_finished_outcome lifecycle));
     snapshot ← get_snapshot;
     publish_child_finished (at_call_id task) finished (child_handoff snapshot finished)
   else mret tt) ;;
  finished ← finished_writer_outcome (at_task_id task) "writer lifecycle was finished above";
  report_finished_writer task finished parent_terminal true (writer_tool_outcome task finished).

Definition finish_writer_lifecycle (task : AgentTask) (child_outcome : option AgentOutcome)
    (child_replay : option RunReplay) (parent_terminal : option TerminalState)
    : run TerminalState ToolOutcome :=
  lifecycle ← current_agent_lifecycle (at_task_id task);
  match atl_finished lifecycle with
  | Some finished =>
    report_finished_writer task (acf_outcome finished) parent_terminal false
      (writer_tool_outcome task (acf_outcome finished))
  | None =>
    match atl_result lifecycle with
    | Some _ => finish_collected_writer task parent_terminal
    | None =>
      child_outcome ← lift (ok_or child_outcome
        (orchestration_recovery (at_task_id task) "writer_recovery_child_result"
           "writer lifecycle 缺少可汇聚的 child result"));
      if negb (is_completed (ao_terminal child_outcome)) then
        collect_failed_writer task child_outcome ;;
        finished ← finished_writer_outcome (at_task_id task) "failed writer was finished";
        report_finished_writer task finished parent_terminal false
          (writer_failure_tool_outcome task finished)
      else
        collected ← collect_completed_writer task child_outcome child_replay;
        match collected with
        | inl tool_outcome => mret tool_outcome
        | inr _ => finish_collected_writer task parent_terminal
        end
    end
  end.
End writer.
