(* ===== verification/AgentWriterFacts.v ===== *)
(** The isolated-writer lifecycle of the runtime loop agrees with the reducer: its view of a
    durable task is the reducer's, every event it publishes is accepted, and from whatever
    point a crash left it, it brings the task to its finish. *)
From Stdlib Require Import Ascii String.
From S2P Require Import Prelude.
From S2P Require Import Text.
From S2P Require Import Json.
From S2P Require Import Task.
From S2P Require Import Protocol.
From S2P Require Import Validate.
From S2P Require Import Context.
From S2P Require Import Snapshot.
From S2P Require Import Evidence.
From S2P Require Import RunEvents.
From S2P Require Import AgentEvents.
From S2P Require Import Reducer.
From S2P Require Import Steps.
From S2P Require Import LogFacts.
From S2P Require Import AgentFacts.
From S2P Require Import MemStore.
From S2P Require Import TextOps.
From S2P Require Import AgentRuntime.
From S2P Require Import AgentRuntimeFacts.
From S2P Require Import AgentWriter.

Open Scope string_scope.
Open Scope list_scope.
Open Scope N_scope.

(** ** The label of a check does not decide it *)

Lemma require_agent_text_relabel l l' v :
  require_agent_text l v = Ok tt → require_agent_text l' v = Ok tt.
Proof. unfold require_agent_text. by rewrite !seq_Ok, !fail_if_Ok. Qed.
Lemma git_object_id_relabel l l' v :
  validate_git_object_id l v = Ok tt → validate_git_object_id l' v = Ok tt.
Proof.
  unfold validate_git_object_id. rewrite !seq_Ok, !fail_if_Ok. intros [? ?].
  by eauto using require_agent_text_relabel.
Qed.
Lemma sha256_relabel l l' v : validate_sha256 l v = Ok tt → validate_sha256 l' v = Ok tt.
Proof.
  unfold validate_sha256. rewrite !seq_Ok, !fail_if_Ok. intros [? ?].
  by eauto using require_agent_text_relabel.
Qed.
Lemma known_state_relabel l l' s :
  require_known_agent_workspace_state l s = Ok tt →
  require_known_agent_workspace_state l' s = Ok tt.
Proof. unfold require_known_agent_workspace_state. by rewrite !seq_Ok, !fail_if_Ok. Qed.
Lemma reason_code_relabel l l' v :
  validate_reason_code l v = Ok tt → validate_reason_code l' v = Ok tt.
Proof.
  unfold validate_reason_code. rewrite !seq_Ok, !fail_if_Ok. intros [? ?].
  by eauto using require_agent_text_relabel.
Qed.

(** ** Stable codes *)

Lemma require_agent_text_code label code :
  code ≠ "" →
  all_bytes (λ b, is_ascii_lowercase b || is_ascii_digit b || (byte_val b =? 95)) code = true →
  require_agent_text label code = Ok tt.
Proof.
  intros Hne Hall. destruct (all_bytes_not_blank _ _ code_byte_dark Hall Hne) as [Ht Hz].
  unfold require_agent_text. by rewrite Ht, Hz.
Qed.
Lemma stable_code_valid label value fallback :
  validate_reason_code label fallback = Ok tt →
  validate_reason_code label (stable_cleanup_code value fallback) = Ok tt.
Proof.
  intros Hf. unfold stable_cleanup_code.
  destruct (negb (is_empty_str value)) eqn:Hne; [|done].
  destruct (str_len value <=? 96) eqn:Hlen; [|done].
  destruct (all_bytes _ value) eqn:Hall; [|done]. cbn [andb].
  unfold validate_reason_code. unfold is_empty_str in Hne. bprop.
  rewrite require_agent_text_code by done. cbn.
  replace (96 <? str_len value) with false by (symmetry; apply N.ltb_ge; lia). by rewrite Hall.
Qed.

(** ** The runtime and the reducer read one task alike *)

Lemma cleanup_context_agrees run_id lifecycle result phase reason :
  lifecycle_ok lifecycle → atl_result lifecycle = Some result →
  (is_completed (ao_terminal result) = true →
   integration_committed lifecycle = true ∨ integration_failed lifecycle = true) →
  writer_cleanup_context lifecycle = (phase, reason) →
  expected_cleanup_phase run_id lifecycle (is_completed (ao_terminal result)) = Ok phase ∧
  expected_cleanup_reason lifecycle result phase = Some reason.
Proof.
  intros Hok Hres Hsettled. unfold writer_cleanup_context, expected_cleanup_phase,
    expected_cleanup_reason, integration_committed, integration_failed in *.
  destruct (atl_integration lifecycle) as [integration|] eqn:Hi; cbn.
  - pose proof (lo_integration _ Hok _ Hi) as ((seal & r & _ & Hr & Hc & _) & _).
    rewrite Hres in Hr. injection Hr as <-. rewrite Hc. specialize (Hsettled Hc). cbn in Hsettled.
    destruct (ail_committed integration); cbn in *; [by intros [= <- <-]|].
    destruct (ail_failure integration) as [failure|]; cbn in *; [|naive_solver].
    intros [= <- <-]. split; [done|]. by destruct (aif_status failure).
  - destruct (is_completed (ao_terminal result)) eqn:Hc; [naive_solver|].
    destruct (atl_child_started lifecycle); cbn; [|by intros [= <- <-]].
    destruct (atl_seal lifecycle); cbn; [by intros [= <- <-]|]. rewrite Hres. cbn.
    intros [= <- <-]. split; [done|]. by destruct (ao_terminal result).
Qed.

Lemma recovered_outcome_agrees run_id lifecycle outcome :
  is_writer lifecycle = true → lifecycle_ok lifecycle →
  (∀ r, atl_result lifecycle = Some r →
     is_completed (ao_terminal r) && integration_committed lifecycle = false →
     is_Some (committed_cleanup lifecycle)) →
  recovered_finished_outcome lifecycle = Ok outcome →
  expected_finished_outcome run_id lifecycle = Ok outcome.
Proof.
  intros Hw Hok Hclean. unfold recovered_finished_outcome, expected_finished_outcome.
  destruct (atl_result lifecycle) as [r|] eqn:Hr; cbn; [|done].
  unfold is_writer in Hw. apply bool_decide_eq_true in Hw. rewrite Hw.
  assert ((negb (is_completed (ao_terminal r)) || negb (integration_committed lifecycle))
    && is_none (committed_cleanup lifecycle) = false) as ->.
  { rewrite <- negb_andb. destruct (is_completed _ && integration_committed _) eqn:Hb; [done|].
    by destruct (Hclean _ eq_refl Hb) as [? ->]. }
  cbn. destruct (is_completed (ao_terminal r)) eqn:Hc.
  - destruct (atl_integration lifecycle) as [integration|]; cbn; [|done].
    unfold recovered_integration, integrated_outcome.
    destruct (ail_committed integration), (ail_failure integration) as [failure|]; try done; cbn.
    + by intros [= <-].
    + destruct (aif_status failure); cbn; first [by intros [= <-]|done].
  - destruct (atl_integration lifecycle) as [integration|] eqn:Hi; cbn.
    + pose proof (lo_integration _ Hok _ Hi) as ((seal & r' & _ & Hr' & Hc' & _) & _). congruence.
    + by intros [= <-].
Qed.

(** ** A live run at one of its writer tasks *)

Lemma position_unique {A} (f : A → string) (xs : list A) i x k :
  NoDup (f <$> xs) → xs !! i = Some x → f x = k →
  position (λ y, f y ==? k) xs = Some i.
Proof.
  revert i; induction xs as [|y xs IH]; intros i Hnd Hi Hk; [done|]. cbn in Hnd.
  apply NoDup_cons in Hnd as [Hy Hnd]. cbn. destruct i as [|i]; cbn in Hi.
  - injection Hi as ->. by rewrite bool_decide_true.
  - rewrite bool_decide_false.
    + by rewrite (IH i).
    + intros <-. destruct Hy. rewrite <- Hk. apply list_elem_of_fmap_2. by eapply list_elem_of_lookup_2.
Qed.
Lemma find_first_unique {A} (f : A → string) (xs : list A) i x k :
  NoDup (f <$> xs) → xs !! i = Some x → f x = k →
  find_first (λ y, f y ==? k) xs = Some x.
Proof.
  revert i; induction xs as [|y xs IH]; intros i Hnd Hi Hk; [done|]. cbn in Hnd.
  apply NoDup_cons in Hnd as [Hy Hnd]. cbn. destruct i as [|i]; cbn in Hi.
  - injection Hi as ->. by rewrite bool_decide_true.
  - rewrite bool_decide_false; [by eapply IH|]. intros <-. destruct Hy. rewrite <- Hk.
    apply list_elem_of_fmap_2. by eapply list_elem_of_lookup_2.
Qed.

Section writer_facts.
Context {St : Type} `{RunPortAvailable St} (ports : RuntimePorts).
Context (orchestrator : AgentOrchestrator).
Context (uuid_fresh : ∀ n m, rp_uuid ports n = rp_uuid ports m → n = m).
Context (uuid_random : ∀ n, rp_uuid ports n ≠ RuntimeEventId_terminal).
Implicit Types (rt : Rt St) (log : list StoredRuntimeEvent) (lc : AgentTaskLifecycle).

(** A live run whose [i]-th task is the writer [lc], with its tool call in flight and without
    a durable stop. *)
Record at_task rt log i lc : Prop := {
  wt_live : live ports rt log;
  wt_task : sn_agent_tasks (rt_snapshot rt) !! i = Some lc;
  wt_writer : is_writer lc = true;
  wt_open : sn_terminal (rt_snapshot rt) = None;
  wt_control : sn_pending_control (rt_snapshot rt) = None;
  wt_failure : sn_last_model_failure (rt_snapshot rt) = None;
}.

Lemma at_task_tasks rt log i lc : at_task rt log i lc → tasks_ok (rt_snapshot rt).
Proof. intros [Hl _ _ _ _ _]. by eapply reachable_tasks, reachable_reduce, live_snapshot. Qed.
Lemma at_task_ok rt log i lc : at_task rt log i lc → lifecycle_ok lc.
Proof.
  intros Hat. pose proof (to_lifecycles _ (at_task_tasks _ _ _ _ Hat)) as Hall.
  by eapply Forall_lookup_1; [|apply Hat].
Qed.

(** The task is found by its identity, by the runtime and by the reducer. *)
Lemma current_lifecycle rt log i lc :
  at_task rt log i lc →
  current_agent_lifecycle (at_task_id (atl_task lc)) rt = (rt, Ok lc).
Proof.
  intros Hat. pose proof (to_task_ids _ (at_task_tasks _ _ _ _ Hat)) as Hnd.
  unfold current_agent_lifecycle. rewrite M_bind_run. cbn.
  assert (find_first (λ lifecycle, at_task_id (atl_task lifecycle) ==? at_task_id (atl_task lc))
    (sn_agent_tasks (rt_snapshot rt)) = Some lc) as ->; [|done].
  by eapply (find_first_unique (at_task_id ∘ atl_task)); [|apply Hat|].
Qed.
Lemma task_mut rt log i lc run_id :
  at_task rt log i lc →
  agent_task_mut (rt_snapshot rt) run_id (at_task_id (atl_task lc)) = Ok (i, lc).
Proof.
  intros Hat. pose proof (to_task_ids _ (at_task_tasks _ _ _ _ Hat)) as Hnd.
  unfold agent_task_mut.
  assert (position (λ lifecycle, at_task_id (atl_task lifecycle) ==? at_task_id (atl_task lc))
    (sn_agent_tasks (rt_snapshot rt)) = Some i) as ->.
  { by eapply (position_unique (at_task_id ∘ atl_task)); [|apply Hat|]. }
  cbn. by rewrite (wt_task _ _ _ _ Hat).
Qed.

(** Publishing an event the reducer accepts as the change of [lc] into [lc'].  [frame] is what
    else the handler does to the snapshot. *)
Definition same_run (s s' : RunSnapshot) : Prop :=
  sn_terminal s' = sn_terminal s ∧ sn_pending_control s' = sn_pending_control s ∧
  sn_last_model_failure s' = sn_last_model_failure s ∧
  sn_workspace_state s' = sn_workspace_state s ∧ sn_pending_tool s' = sn_pending_tool s.
Definition stays rt rt' : Prop := same_run (rt_snapshot rt) (rt_snapshot rt').
#[local] Instance stays_trans : Transitive stays.
Proof. intros x y z (?&?&?&?&?) (?&?&?&?&?). unfold stays, same_run. split_and!; congruence. Qed.
#[local] Instance stays_refl : Reflexive stays.
Proof. intros x. by split_and!. Qed.

Lemma publish_change rt log i lc ev lc' s1 :
  at_task rt log i lc → validate_agent_lifecycle_payload ev = Ok tt → is_terminal ev = false →
  (∀ run_id n, rr_run_id (sn_request (rt_snapshot rt)) = Some run_id →
     dispatch (rt_snapshot rt) run_id n ev = Ok s1) →
  sn_agent_tasks s1 = <[i := lc']> (sn_agent_tasks (rt_snapshot rt)) →
  same_run (rt_snapshot rt) s1 → atl_task lc' = atl_task lc →
  ∃ rt' log', publish_or_terminal ports ev rt = (rt', Ok tt) ∧ at_task rt' log' i lc' ∧
    stays rt rt'.
Proof.
  intros Hat Hp Hnt Hd Htasks Hsame Htask. destruct Hat as [Hl Ht Hw Ho Hc Hf].
  assert (Hacc : accepts (rt_snapshot rt) ev s1).
  { split; [done|done|by rewrite Hc|by rewrite Hf|done]. }
  destruct (publish_accepted ports uuid_fresh uuid_random _ _ _ _ Hl Hacc)
    as (rt' & e & Hpub & Hl' & _ & Hst).
  exists rt', (log ++ [e]). unfold publish_or_terminal. rewrite M_bind_run. unfold or_else.
  rewrite Hpub. cbn. split; [done|].
  assert (Hsnap : rt_snapshot rt' = s1 <| sn_last_sequence :=
    sat_add64 (sn_last_sequence (rt_snapshot rt)) 1 |>) by (unfold rt_snapshot at 1; by rewrite Hst).
  destruct Hsame as (Hs1 & Hs2 & Hs3 & Hs4 & Hs5).
  split; [|unfold stays, same_run; rewrite Hsnap; by split_and!].
  split; rewrite ?Hsnap; cbn; try congruence.
  - rewrite Htasks, list_lookup_insert_eq; [done|]. by eapply lookup_lt_Some.
  - unfold is_writer in *. by rewrite Htask.
Qed.

(** The usual case: the handler puts the changed task back. *)
Lemma publish_task rt log i lc ev lc' :
  at_task rt log i lc → validate_agent_lifecycle_payload ev = Ok tt → is_terminal ev = false →
  (∀ run_id n, dispatch (rt_snapshot rt) run_id n ev = Ok (put_task (rt_snapshot rt) i lc')) →
  atl_task lc' = atl_task lc →
  ∃ rt' log', publish_or_terminal ports ev rt = (rt', Ok tt) ∧ at_task rt' log' i lc' ∧
    stays rt rt'.
Proof.
  intros Hat Hp Hnt Hd Htask. by eapply (publish_change _ _ _ _ _ lc').
Qed.

(** ** The orchestrator's contract

    A plan answers the inspection it was asked for and removes nothing but the frozen branch
    tip; an execution under a retention plan retains with its code; a sealed diff stays within
    the allowed paths; an integration reports a known root; error texts carry no NUL. *)
Definition text_ok (text : string) : Prop := contains_nul text = false.
Definition frozen_tip (task : AgentTask) (seal : option WriterSeal) : string :=
  from_option wse_final_commit (awa_base_commit (at_workspace task)) seal.

Definition plan_answers (task : AgentTask) (seal : option WriterSeal)
    (phase : WriterCleanupPhase) (reason : string) (plan : WriterCleanupPlan) : Prop :=
  WriterCleanupPlan_validate plan = Ok tt ∧ wcp_phase plan = phase ∧
  wcp_reason_code plan = reason ∧
  match wcp_artifact_state plan with
  | KnownUnsealed => seal = None
  | KnownHostSealed final diff =>
    ∃ s, seal = Some s ∧ final = wse_final_commit s ∧ diff = wse_diff_sha256 s
  | ArtifactStateUnknown => ∃ code, wcp_mode plan = RetainForRecovery code
  end ∧
  match wcp_mode plan with
  | RemoveExact tip => tip = frozen_tip task seal
  | RetainForRecovery code =>
    match wcp_scope plan with ScopeUnknown scope_code => scope_code = code | _ => True end
  end.

Record orchestrator_ok : Prop := {
  oo_inspect : ∀ n task seal phase reason plan,
    inspect_writer_cleanup orchestrator n task seal phase reason = Ok plan →
    plan_answers task seal phase reason plan;
  oo_execute : ∀ n task plan result, WriterCleanupPlan_validate plan = Ok tt →
    execute_writer_cleanup orchestrator n task plan = Ok result →
    WriterCleanupResult_validate result = Ok tt ∧
    (∀ code, wcp_mode plan = RetainForRecovery code → cleanup_uncertainty_code result = Some code);
  oo_execute_error : ∀ n task plan error code, WriterCleanupPlan_validate plan = Ok tt →
    execute_writer_cleanup orchestrator n task plan = Err error →
    wcp_mode plan = RetainForRecovery code →
    stable_cleanup_code (aoe_code error) "writer_cleanup_execution_failed" = code;
  oo_seal : ∀ n task seal, seal_writer orchestrator n task = Ok seal →
    paths_stay_within (wse_changed_files seal) (awa_allowed_paths (at_workspace task)) = true;
  oo_integrate : ∀ n task seal expected integration,
    integrate_writer orchestrator n task seal expected = Ok integration →
    ∃ sha256, ws_revision (wi_root_workspace_state integration) = Known sha256 ∧
      ∀ generation, WorkspaceState_validate (mkWorkspaceState generation (Known sha256)) = Ok tt;
  oo_integrate_error : ∀ n task seal expected error,
    integrate_writer orchestrator n task seal expected = Err error →
    text_ok (aoe_code error) ∧ text_ok (aoe_message error);
}.
Context (contract : orchestrator_ok).

(** ** Cleanup *)

Lemma retained_plan_answers task seal phase reason code :
  validate_reason_code "writer cleanup reason code" reason = Ok tt →
  validate_reason_code "writer cleanup owner uncertainty" code = Ok tt →
  (∀ s, seal = Some s → validate_git_object_id "cleanup sealed commit" (wse_final_commit s) = Ok tt ∧
     validate_sha256 "cleanup sealed diff sha256" (wse_diff_sha256 s) = Ok tt) →
  ∃ plan, retained_writer_cleanup_plan seal phase reason code = Some plan ∧
    plan_answers task seal phase reason plan.
Proof.
  intros Hr Hc Hs.
  unfold retained_writer_cleanup_plan.
  set (plan := mkWriterCleanupPlan _ _ _ _ _ _).
  assert (WriterCleanupPlan_validate plan = Ok tt) as Hv.
  { unfold WriterCleanupPlan_validate, plan. cbn. rewrite Hr, Hc. cbn.
    destruct seal as [s|]; [destruct (Hs s eq_refl) as [-> ->]|]; cbn;
      rewrite !(reason_code_relabel _ _ _ Hc); cbn; rewrite ?bool_decide_true by done; done. }
  rewrite Hv. exists plan. split; [done|]. unfold plan_answers. cbn. split_and!; try done.
  destruct seal as [s|]; cbn; eauto.
Qed.

Lemma next_tick_at_task rt log i lc :
  at_task rt log i lc →
  at_task (rt <| rt_tick := Datatypes.S (rt_tick rt) |>) log i lc ∧
  stays rt (rt <| rt_tick := Datatypes.S (rt_tick rt) |>).
Proof.
  intros [[Hh Hs Hi Ht] ? ? ? ? ?]. split; [|by split_and!]. split; try done. split; try done.
  intros n Hn. apply Hi. cbn in Hn. lia.
Qed.

Lemma at_task_valid rt log i lc : at_task rt log i lc → AgentTask_validate (atl_task lc) = Ok tt.
Proof.
  intros Hat. pose proof (live_snapshot _ _ _ (wt_live _ _ _ _ Hat)) as Hs%reachable_reduce.
  pose proof (reachable_tasks_valid _ _ Hs) as Hall. rewrite Forall_forall in Hall.
  apply Hall, list_elem_of_fmap_2. eapply list_elem_of_lookup_2, Hat.
Qed.
Lemma at_task_id_text rt log i lc label :
  at_task rt log i lc → require_agent_text label (at_task_id (atl_task lc)) = Ok tt.
Proof.
  intros Hv%at_task_valid. unfold AgentTask_validate in Hv. apply bind_Ok in Hv as ([] & Hv & _).
  unfold require_agent_text in *. inv_ok.
  by repeat match goal with Hb : _ = false |- _ => rewrite Hb; clear Hb end.
Qed.

Lemma retained_result_valid code :
  WriterCleanupResult_validate (retained_cleanup_result code) = Ok tt.
Proof. cbn. by rewrite stable_code_valid. Qed.

(** An execution commits a result that fits the prepared plan. *)
Lemma execute_cleanup_commits rt log i lc c :
  at_task rt log i lc → atl_cleanup lc = Some c → acl_committed c = None →
  ∃ rt' log' r, execute_cleanup ports orchestrator (atl_task lc) (acl_plan c) rt = (rt', Ok r) ∧
    at_task rt' log' i (lc <| atl_cleanup := Some (c <| acl_committed := Some r |>) |>) ∧
    stays rt rt'.
Proof.
  intros Hat Hc Hn. destruct (next_tick_at_task _ _ _ _ Hat) as [Hat1 Hst1].
  unfold execute_cleanup. rewrite M_bind_run. cbn -[publish_or_terminal].
  set (rt1 := rt <| rt_tick := _ |>) in *.
  set (r := match execute_writer_cleanup orchestrator (rt_tick rt) (atl_task lc) (acl_plan c) with
            | Ok cleanup => cleanup | Err error => retained_cleanup_result (aoe_code error) end).
  assert (WriterCleanupResult_validate r = Ok tt ∧
    ∀ code, wcp_mode (acl_plan c) = RetainForRecovery code →
      cleanup_uncertainty_code r = Some code) as [Hv Hcode].
  { destruct (lo_cleanup _ (at_task_ok _ _ _ _ Hat) _ Hc) as [_ Hpv]. unfold r. destruct (execute_writer_cleanup _ _ _ _) as [r'|error] eqn:He.
    - by apply (oo_execute contract _ _ _ _ Hpv He).
    - split; [apply retained_result_valid|]. intros code Hm. cbn. f_equal.
      by apply (oo_execute_error contract _ _ _ _ _ Hpv He). }
  destruct (publish_task rt1 log i lc (AgentCleanupCommitted (at_task_id (atl_task lc)) r)
    (lc <| atl_cleanup := Some (c <| acl_committed := Some r |>) |>))
    as (rt2 & log2 & Hp & Hat2 & Hst2); try done.
  - cbn. by rewrite (at_task_id_text _ _ _ _ _ Hat1).
  - intros run_id n. cbn [dispatch]. unfold on_agent_cleanup_committed.
    rewrite (task_mut _ _ _ _ _ Hat1). cbn. rewrite Hc. cbn. rewrite Hn. cbn.
    destruct (wcp_mode (acl_plan c)) as [tip|code]; [done|].
    specialize (Hcode code eq_refl). destruct r; cbn in Hcode; try done. injection Hcode as ->.
    cbn. by rewrite bool_decide_true.
  - exists rt2, log2, r. rewrite M_bind_run, Hp. cbn. split_and!; [done|done|by etrans].
Qed.

(** When a cleanup of a task may be prepared. *)
Definition cleanup_due (s : RunSnapshot) lc (r : AgentOutcome) : Prop :=
  atl_result lc = Some r ∧ atl_cleanup lc = None ∧
  if is_completed (ao_terminal r) then
    (integration_committed lc = true ∧ is_Some (atl_finished lc) ∧ sn_pending_tool s = None) ∨
    (integration_committed lc = false ∧ integration_failed lc = true ∧ atl_finished lc = None)
  else atl_finished lc = None.

Lemma writer_seal_frozen_tip lc :
  frozen_tip (atl_task lc) (writer_seal_from_lifecycle lc) =
  from_option asc_final_commit (awa_base_commit (at_workspace (atl_task lc))) (committed_seal lc).
Proof.
  unfold frozen_tip, writer_seal_from_lifecycle, committed_seal.
  destruct (atl_seal lc) as [seal|]; cbn; [|done]. by destruct (asl_committed seal).
Qed.

(** The reducer takes every plan that answers the runtime's inspection. *)
Lemma answered_plan_accepted run_id lc r phase reason plan :
  lifecycle_ok lc → atl_result lc = Some r →
  (is_completed (ao_terminal r) = true →
   integration_committed lc = true ∨ integration_failed lc = true) →
  writer_cleanup_context lc = (phase, reason) →
  plan_answers (atl_task lc) (writer_seal_from_lifecycle lc) phase reason plan →
  validate_writer_cleanup_plan run_id lc plan = Ok tt.
Proof.
  intros Hok Hr Hset Hctx (Hv & <- & <- & Hart & Hmode).
  destruct (cleanup_context_agrees run_id _ _ _ _ Hok Hr Hset Hctx) as [Hphase Hreason].
  unfold validate_writer_cleanup_plan.
  rewrite Hv, Hr. cbn -[expected_cleanup_reason expected_cleanup_phase].
  rewrite Hphase. cbn -[expected_cleanup_reason]. rewrite Hreason.
  rewrite !bool_decide_true by done. cbn.
  assert (cleanup_artifact_matches plan (committed_seal lc) = true) as ->.
  { unfold cleanup_artifact_matches, writer_seal_from_lifecycle, committed_seal in *.
    destruct (wcp_artifact_state plan).
    - destruct (atl_seal lc) as [seal|]; cbn in *; [|done]. by destruct (asl_committed seal).
    - destruct Hart as (s & Hs & -> & ->). destruct (atl_seal lc) as [seal|]; cbn in *; [|done].
      destruct (asl_committed seal); cbn in *; [|done]. injection Hs as <-. cbn.
      by rewrite !bool_decide_true.
    - destruct Hart as [code ->]. by destruct (atl_seal lc ≫= _). }
  cbn. destruct (wcp_mode plan) as [tip|code].
  - rewrite writer_seal_frozen_tip in Hmode. by rewrite bool_decide_true.
  - destruct (wcp_scope plan); [done|]. by rewrite bool_decide_true.
Qed.

Lemma cleanup_reason_valid lc phase reason label :
  writer_cleanup_context lc = (phase, reason) → validate_reason_code label reason = Ok tt.
Proof.
  unfold writer_cleanup_context.
  repeat case_match; intros [= <- <-]; by vm_compute.
Qed.

Lemma at_task_facts_valid rt log i lc : at_task rt log i lc → lifecycle_valid lc.
Proof.
  intros Hat. pose proof (live_snapshot _ _ _ (wt_live _ _ _ _ Hat)) as Hs%reachable_reduce.
  eapply Forall_lookup_1; [by eapply reachable_lifecycles_valid|apply Hat].
Qed.

Lemma cleanup_due_settled s lc r :
  cleanup_due s lc r → is_completed (ao_terminal r) = true →
  integration_committed lc = true ∨ integration_failed lc = true.
Proof. intros (_ & _ & Hd) Hc. rewrite Hc in Hd. naive_solver. Qed.

Lemma cleanup_prepared_accepted rt log i lc r phase reason plan :
  at_task rt log i lc → cleanup_due (rt_snapshot rt) lc r →
  writer_cleanup_context lc = (phase, reason) →
  plan_answers (atl_task lc) (writer_seal_from_lifecycle lc) phase reason plan →
  ∀ run_id n, dispatch (rt_snapshot rt) run_id n
    (AgentCleanupPrepared (at_task_id (atl_task lc)) plan) =
    Ok (put_task (rt_snapshot rt) i
          (lc <| atl_cleanup := Some (mkAgentCleanupLifecycle plan None) |>)).
Proof.
  intros Hat Hdue Hctx Hans run_id n. pose proof (at_task_ok _ _ _ _ Hat) as Hok.
  pose proof (cleanup_due_settled _ _ _ Hdue) as Hset. destruct Hdue as (Hr & Hcl & Hd).
  pose proof (answered_plan_accepted run_id _ _ _ _ _ Hok Hr Hset Hctx Hans) as Hplan.
  destruct Hans as (_ & Hphase & _).
  cbn [dispatch]. unfold on_agent_cleanup_prepared. rewrite (task_mut _ _ _ _ _ Hat). cbn.
  rewrite Hr. cbn. rewrite (wt_writer _ _ _ _ Hat), Hcl. cbn.
  assert (is_none (atl_workspace_created lc) && (wcp_phase plan !=? PhaseBinding) = false) as ->.
  { destruct (atl_workspace_created lc) as [|] eqn:Hw; [done|]. cbn. rewrite Hphase.
    assert (atl_child_started lc = None) as Hnc.
    { destruct (atl_child_started lc) as [f|] eqn:Hf; [|done].
      destruct (lo_started _ Hok _ Hf) as (_ & _ & Hcr).
      destruct (Hcr (wt_writer _ _ _ _ Hat)). congruence. }
    assert (atl_integration lc = None) as Hni.
    { destruct (atl_integration lc) as [g|] eqn:Hg; [|done].
      destruct (lo_integration _ Hok _ Hg) as ((seal & r' & Hs & _) & _).
      unfold committed_seal in Hs. destruct (atl_seal lc) as [sl|] eqn:Hsl; [|done].
      destruct (lo_seal _ Hok _ Hsl) as ([] & _). congruence. }
    unfold writer_cleanup_context in Hctx. rewrite Hni, Hnc in Hctx. cbn in Hctx.
    injection Hctx as <- _. done. }
  assert (negb (is_completed (ao_terminal r)) && is_some (atl_integration lc) = false) as ->.
  { destruct (is_completed (ao_terminal r)) eqn:Hc; [done|].
    destruct (atl_integration lc) as [g|] eqn:Hg; [|done].
    destruct (lo_integration _ Hok _ Hg) as ((seal & r' & _ & Hr' & Hc' & _) & _). congruence. }
  destruct (is_completed (ao_terminal r)) eqn:Hc; cbn.
  - destruct Hd as [(Hco & [f Hf] & Hpt)|(Hco & Hfa & Hf)]; rewrite Hco; cbn.
    + destruct (atl_integration lc) as [g|] eqn:Hg; [|by unfold integration_committed in Hco; rewrite Hg in Hco].
      destruct (lo_integration _ Hok _ Hg) as (_ & _ & Hnot & _).
      unfold integration_committed in Hco. rewrite Hg in Hco. cbn in Hco. rewrite Hco in Hnot. cbn in Hnot.
      unfold integration_failed. rewrite Hg. cbn. rewrite Hnot, Hf, Hpt. cbn. by rewrite Hplan.
    + rewrite Hfa, Hf. cbn. by rewrite Hplan.
  - rewrite Hd. cbn. by rewrite Hplan.
Qed.

Lemma cleanup_writer_commits rt log i lc r :
  at_task rt log i lc → cleanup_due (rt_snapshot rt) lc r →
  ∃ rt' log' plan c, cleanup_writer ports orchestrator (atl_task lc)
      (writer_seal_from_lifecycle lc) rt = (rt', Ok c) ∧
    at_task rt' log' i (lc <| atl_cleanup := Some (mkAgentCleanupLifecycle plan (Some c)) |>) ∧
    stays rt rt'.
Proof.
  intros Hat Hdue. unfold cleanup_writer. rewrite M_bind_run, (current_lifecycle _ _ _ _ Hat).
  destruct (writer_cleanup_context lc) as [phase reason] eqn:Hctx.
  rewrite M_bind_run. cbn -[publish_or_terminal execute_cleanup].
  destruct (next_tick_at_task _ _ _ _ Hat) as [Hat1 Hst1].
  set (rt1 := rt <| rt_tick := _ |>) in *. rewrite M_bind_run.
  set (answer := inspect_writer_cleanup orchestrator (rt_tick rt) (atl_task lc)
                   (writer_seal_from_lifecycle lc) phase reason).
  assert (∃ plan, plan_answers (atl_task lc) (writer_seal_from_lifecycle lc) phase reason plan ∧
    ∀ (rt : Rt St), (match answer with
     | Ok plan => mret plan
     | Err error => expect (retained_writer_cleanup_plan (writer_seal_from_lifecycle lc) phase reason
         (stable_cleanup_code (aoe_code error) "writer_cleanup_inspection_failed"))
         (panicked_task "Host-created cleanup plan is invalid")
     end : M St TerminalState WriterCleanupPlan) rt = (rt, Ok plan)) as (plan & Hans & Hrun).
  { unfold answer. destruct (inspect_writer_cleanup _ _ _ _ _ _) as [plan|error] eqn:Hi.
    - exists plan. split; [by apply (oo_inspect contract _ _ _ _ _ _ Hi)|done].
    - destruct (retained_plan_answers (atl_task lc) (writer_seal_from_lifecycle lc) phase reason
        (stable_cleanup_code (aoe_code error) "writer_cleanup_inspection_failed"))
        as (plan & Hp & Hans).
      + by eapply cleanup_reason_valid.
      + by apply stable_code_valid.
      + intros s Hs. pose proof (lv_seal _ (at_task_facts_valid _ _ _ _ Hat)) as Hsv.
        unfold seal_ids_valid, committed_seal, writer_seal_from_lifecycle in *.
        destruct (atl_seal lc) as [seal|]; cbn in *; [|done].
        destruct (asl_committed seal) as [c|]; cbn in *; [|done]. injection Hs as <-. cbn.
        destruct (Hsv c eq_refl) as (Hg & Hsha & _).
        unfold validate_git_object_id, validate_sha256, require_agent_text in *. inv_ok.
        by repeat match goal with Hb : _ = false |- _ => rewrite Hb; clear Hb end.
      + exists plan. split; [done|]. intros rt0. unfold expect, lift. by rewrite Hp. }
  rewrite Hrun. clear Hrun answer.
  destruct (publish_task rt1 log i lc (AgentCleanupPrepared (at_task_id (atl_task lc)) plan)
    (lc <| atl_cleanup := Some (mkAgentCleanupLifecycle plan None) |>))
    as (rt2 & log2 & Hp & Hat2 & Hst2); try done.
  { cbn. rewrite (at_task_id_text _ _ _ _ _ Hat1). cbn. apply Hans. }
  { by eapply cleanup_prepared_accepted. }
  rewrite M_bind_run, Hp.
  destruct (execute_cleanup_commits rt2 log2 i _ (mkAgentCleanupLifecycle plan None) Hat2)
    as (rt3 & log3 & c & He & Hat3 & Hst3); [done..|].
  exists rt3, log3, plan, c. split_and!; [exact He|exact Hat3|]. by do 2 (etrans; [done|]).
Qed.

(** Resuming a cleanup that is due or already prepared. *)
Lemma resume_cleanup_commits rt log i lc r :
  at_task rt log i lc → atl_result lc = Some r →
  (atl_cleanup lc = None → cleanup_due (rt_snapshot rt) lc r) →
  ∃ rt' log' plan c, resume_writer_cleanup ports orchestrator (atl_task lc)
      (writer_seal_from_lifecycle lc) rt = (rt', Ok c) ∧
    at_task rt' log' i (lc <| atl_cleanup := Some (mkAgentCleanupLifecycle plan (Some c)) |>) ∧
    stays rt rt'.
Proof.
  intros Hat Hr Hdue. unfold resume_writer_cleanup.
  rewrite M_bind_run, (current_lifecycle _ _ _ _ Hat).
  destruct (atl_cleanup lc) as [cl|] eqn:Hcl; [|eapply cleanup_writer_commits; eauto].
  destruct (acl_committed cl) as [c|] eqn:Hc.
  - exists rt, log, (acl_plan cl), c. split; [done|]. split; [|done].
    assert (lc <| atl_cleanup := Some (mkAgentCleanupLifecycle (acl_plan cl) (Some c)) |> = lc) as ->;
      [|done]. destruct lc; cbn in *. rewrite Hcl, <- Hc. by destruct cl.
  - destruct (execute_cleanup_commits rt log i lc cl Hat Hcl Hc) as (rt' & log' & c & He & Hat' & Hst).
    exists rt', log', (acl_plan cl), c. by split_and!.
Qed.

(** ** Collecting and finishing *)

(** What the report of the child's own run satisfies. *)
Record child_report (task : AgentTask) (o : AgentOutcome) : Prop := {
  cre_valid : AgentOutcome_validate o = Ok tt;
  cre_run : ao_run_id o = at_child_run_id task;
  cre_parent : ao_parent_run_id o = Some (at_parent_run_id task);
  cre_evidence : Forall (λ r, er_generation_id r = contract_generation_id (at_task_contract task))
                   (ard_evidence (ao_details o));
  cre_host : Forall (λ r, har_generation_id r = contract_generation_id (at_task_contract task))
               (ard_host_acceptance_receipts (ao_details o));
}.

Lemma failed_report_ok task o : child_report task o → child_report task (failed_writer_report o).
Proof.
  intros [Hv Hr Hp He Hh]. split; try done.
  unfold AgentOutcome_validate, AgentResultDetails_validate in *.
  rewrite !seq_Ok in Hv.
  destruct Hv as (Hid & Hne & Ht & Hcc & _ & Hun & Hev & Hevs & Hha & Hhas & Hck & Hcks & Har & Hars & _).
  rewrite !seq_Ok. split_and!; done.
Qed.

Lemma bound_report_ok task o error :
  child_report task o → child_report task (bound_failure_report o error).
Proof.
  intros [Hv Hr Hp He Hh].
  pose proof (stable_code_valid "blocked Agent reason" (aoe_code error) "writer_operation_failed" eq_refl)
    as Hc.
  split; try done.
  unfold AgentOutcome_validate in *. cbn -[AgentResultDetails_validate].
  apply bind_Ok in Hv as ([] & -> & Hv). apply bind_Ok in Hv as ([] & -> & Hv). cbn.
  unfold validate_reason_code in Hc. apply bind_Ok in Hc as ([] & Hc & _).
  unfold bound_failure_report. cbn. by rewrite Hc.
Qed.

Lemma report_generations_ok {A} (f : A → string) xs g :
  Forall (λ r, f r = g) xs → existsb (λ r, f r !=? g) xs = false.
Proof.
  intros Hall. apply existsb_false_elem_of. intros x Hx. rewrite Forall_forall in Hall.
  by rewrite bool_decide_true by auto.
Qed.

Lemma collected_identity run_id lc o (k : result RunStoreError unit) :
  child_report (atl_task lc) o → is_writer lc = true →
  validate_writer_result run_id lc o = k → validate_collected_agent_result run_id lc o = k.
Proof.
  intros [_ Hr Hp He Hh] Hw Hk. unfold validate_collected_agent_result.
  rewrite Hr, Hp. rewrite (bool_decide_true (at_child_run_id (atl_task lc) = _)), (bool_decide_true (Some (at_parent_run_id _) = _)) by done. cbn.
  rewrite (report_generations_ok er_generation_id) by done. cbn.
  rewrite (report_generations_ok har_generation_id) by done. cbn.
  unfold is_writer in Hw. apply bool_decide_eq_true in Hw. by rewrite Hw.
Qed.

Lemma failed_writer_result_ok run_id lc o :
  committed_seal lc = None → is_completed (ao_terminal o) = false →
  validate_writer_result run_id lc (failed_writer_report o) = Ok tt.
Proof.
  intros Hs Hc. unfold validate_writer_result. cbn. rewrite Hc. cbn.
  unfold committed_seal in Hs. destruct (atl_seal lc) as [[base before [c|]]|]; cbn in *; done.
Qed.

Lemma result_none_open rt log i lc :
  at_task rt log i lc → atl_result lc = None →
  atl_cleanup lc = None ∧ atl_finished lc = None ∧ atl_integration lc = None.
Proof.
  intros Hok%at_task_ok Hr. split_and!.
  - destruct (atl_cleanup lc) as [c|] eqn:Hc; [|done].
    destruct (lo_cleanup _ Hok _ Hc) as [[] _]. congruence.
  - destruct (atl_finished lc) as [f|] eqn:Hf; [|done].
    destruct (lo_finished _ Hok _ Hf) as (_ & _ & r & Hr' & _). congruence.
  - destruct (atl_integration lc) as [g|] eqn:Hg; [|done].
    destruct (lo_integration _ Hok _ Hg) as ((seal & r & _ & Hr' & _) & _). congruence.
Qed.

(** A collected result the reducer takes. *)
Lemma publish_result rt log i lc o :
  at_task rt log i lc → atl_result lc = None → AgentOutcome_validate o = Ok tt →
  is_none (atl_child_started lc) && is_completed (ao_terminal o) = false →
  (∀ run_id, validate_collected_agent_result run_id lc o = Ok tt) →
  ∃ rt' log', publish_or_terminal ports (AgentResultCollected (at_task_id (atl_task lc)) o) rt =
      (rt', Ok tt) ∧
    at_task rt' log' i (lc <| atl_result := Some o |>) ∧ stays rt rt'.
Proof.
  intros Hat Hr Hv Hc Hval. eapply publish_task; try done.
  - cbn -[AgentOutcome_validate]. by rewrite (at_task_id_text _ _ _ _ _ Hat).
  - intros run_id n. cbn [dispatch]. unfold on_agent_result_collected.
    rewrite (task_mut _ _ _ _ _ Hat). cbn. rewrite Hr. cbn. rewrite Hc. cbn. by rewrite Hval.
Qed.

(** The finish of a task with the outcome the reducer expects. *)
Lemma publish_finish rt log i lc o handoff :
  at_task rt log i lc → atl_finished lc = None → AgentOutcome_validate o = Ok tt →
  (∀ run_id, expected_finished_outcome run_id lc = Ok o) →
  ∃ rt' log' f, publish_child_finished ports (at_call_id (atl_task lc)) o handoff rt = (rt', Ok tt) ∧
    at_task rt' log' i (lc <| atl_finished := Some f |>) ∧ acf_outcome f = o ∧ stays rt rt'.
Proof.
  intros Hat Hf Hv Hexp. unfold publish_child_finished. rewrite M_bind_run.
  unfold cumulative_accounting. rewrite M_bind_run. cbn -[publish_or_terminal].
  rewrite M_bind_run. cbn -[publish_or_terminal].
  set (accounting := set_field _ _ _).
  destruct (next_tick_at_task _ _ _ _ Hat) as [Hat1 Hst1]. set (rt1 := rt <| rt_tick := _ |>) in *.
  pose proof (at_task_ok _ _ _ _ Hat) as Hok.
  assert (ao_run_id o = at_child_run_id (atl_task lc)) as Hid.
  { destruct (expected_finished_outcome_Ok "" _ _ (Hexp "")) as (r & Hr & -> & _).
    by destruct (lo_result _ Hok _ Hr). }
  pose proof (to_child_ids _ (at_task_tasks _ _ _ _ Hat1)) as Hnd.
  destruct (publish_change rt1 log i lc
    (ChildFinished (at_call_id (atl_task lc)) o accounting handoff)
    (lc <| atl_finished := Some (mkAgentChildFinishedFact (at_call_id (atl_task lc)) o accounting handoff) |>)
    (push_entry (put_task (rt_snapshot rt1) i
        (lc <| atl_finished := Some (mkAgentChildFinishedFact (at_call_id (atl_task lc)) o accounting handoff) |>)
      <| sn_runtime_model_requests :=
           sat_add32 (sn_runtime_model_requests (rt_snapshot rt1)) (ao_runtime_model_requests o) |>
      <| sn_runtime_retries :=
           sat_add32 (sn_runtime_retries (rt_snapshot rt1)) (ao_runtime_retries o) |>
      <| sn_tool_calls := sat_add32 (sn_tool_calls (rt_snapshot rt1)) (ao_tool_calls o) |>
      <| sn_accounting := accounting |>)
      (EntryChildOutcome (at_call_id (atl_task lc)) (ao_run_id o) o handoff)))
    as (rt2 & log2 & Hp & Hat2 & Hst2); try done.
  - intros run_id n _. cbn [dispatch]. unfold on_child_finished.
    assert (position (λ lifecycle, at_child_run_id (atl_task lifecycle) ==? ao_run_id o)
      (sn_agent_tasks (rt_snapshot rt1)) = Some i) as ->.
    { rewrite Hid. by eapply (position_unique (at_child_run_id ∘ atl_task)); [|apply Hat1|]. }
    cbn -[expected_finished_outcome]. rewrite (wt_task _ _ _ _ Hat1).
    cbn -[expected_finished_outcome]. rewrite Hexp. cbn -[expected_finished_outcome].
    rewrite !bool_decide_true by done. rewrite Hf. done.
  - eexists rt2, log2, _. split_and!; [exact Hp|exact Hat2|done|by etrans].
Qed.
End writer_facts.
