(* ===== verification/AgentSettle.v ===== *)
(** From wherever a crash or an error left the lifecycle of an isolated writer, the runtime
    brings it to a finished task, and every event it publishes on the way is one the reducer
    takes. *)
From Stdlib Require Import Ascii String.
From S2P Require Import Prelude.
From S2P Require Import Text.
From S2P Require Import Json.
From S2P Require Import Task.
From S2P Require Import Protocol.
From S2P Require Import Validate.
From S2P Require Import Context.
From S2P Require Import Snapshot.
From S2P Require Import Evidence.
From S2P Require Import RunEvents.
From S2P Require Import AgentEvents.
From S2P Require Import Reducer.
From S2P Require Import Steps.
From S2P Require Import LogFacts.
From S2P Require Import AgentFacts.
From S2P Require Import MemStore.
From S2P Require Import TextOps.
From S2P Require Import AgentRuntime.
From S2P Require Import AgentRuntimeFacts.
From S2P Require Import AgentWriter.
From S2P Require Import AgentWriterFacts.

Open Scope string_scope.
Open Scope list_scope.
Open Scope N_scope.

Lemma contains_byte_app b s t :
  contains_byte b (s ++ t)%string = contains_byte b s || contains_byte b t.
Proof.
  unfold contains_byte. by rewrite bytes_app, existsb_app.
Qed.

(** The reason of a failed integration is a text the protocol takes. *)
Lemma integration_failure_reason_valid error :
  text_ok (aoe_code error) → text_ok (aoe_message error) →
  WriterIntegrationStatus_validate (writer_integration_failure_status error) = Ok tt.
Proof.
  unfold text_ok, contains_nul. intros Hc Hm.
  assert (require_agent_text "writer integration reason"
    (aoe_code error ++ "：" ++ aoe_message error)%string = Ok tt) as Hr.
  { unfold require_agent_text, contains_nul. rewrite !contains_byte_app, Hc, Hm, dark_not_blank;
      [done|]. by rewrite !bytes_app, !existsb_app, orb_true_r. }
  by unfold writer_integration_failure_status; destruct (aoe_kind error).
Qed.

Lemma task_base_valid task :
  AgentTask_validate task = Ok tt →
  validate_git_object_id "base commit" (awa_base_commit (at_workspace task)) = Ok tt.
Proof.
  unfold AgentTask_validate. intros Hv. do 12 (apply seq_Ok in Hv as [? Hv]).
  apply seq_Ok in Hv as [Hw _]. unfold AgentWorkspaceAssignment_validate in Hw.
  by do 2 apply seq_Ok in Hw as [? Hw].
Qed.

Section settle.
Context {St : Type} `{RunPortAvailable St} (ports : RuntimePorts).
Context (orchestrator : AgentOrchestrator).
Context (uuid_fresh : ∀ n m, rp_uuid ports n = rp_uuid ports m → n = m).
Context (uuid_random : ∀ n, rp_uuid ports n ≠ RuntimeEventId_terminal).
Context (uuid_text : ∀ n, require_agent_text "writer integration id" (rp_uuid ports n) = Ok tt).
Context (contract : orchestrator_ok orchestrator).
Implicit Types (rt : Rt St) (log : list StoredRuntimeEvent) (lc : AgentTaskLifecycle).

#[local] Instance stays_trans' : Transitive (@stays St).
Proof. intros x y z (?&?&?&?&?) (?&?&?&?&?). unfold stays, same_run. split_and!; congruence. Qed.

Lemma at_task_settled rt log i lc : at_task ports rt log i lc → lifecycle_settled lc.
Proof.
  intros Hat. pose proof (live_snapshot _ _ _ (wt_live _ _ _ _ _ Hat)) as Hs%reachable_reduce.
  eapply Forall_lookup_1; [by eapply reachable_settled|apply Hat].
Qed.

(** The seal the runtime reads is the committed one. *)
Lemma writer_seal_facts rt log i lc seal :
  at_task ports rt log i lc → writer_seal_from_lifecycle lc = Some seal →
  ∃ c, committed_seal lc = Some c ∧ wse_final_commit seal = asc_final_commit c ∧
    wse_diff_sha256 seal = asc_diff_sha256 c ∧
    wse_base_commit seal = awa_base_commit (at_workspace (atl_task lc)) ∧
    wse_final_commit seal ≠ wse_base_commit seal ∧
    validate_git_object_id "base commit" (wse_base_commit seal) = Ok tt ∧
    validate_git_object_id "writer final commit" (wse_final_commit seal) = Ok tt ∧
    validate_sha256 "writer diff sha256" (wse_diff_sha256 seal) = Ok tt.
Proof.
  intros Hat. pose proof (lv_seal _ (at_task_facts_valid _ _ _ _ _ Hat)) as Hv.
  pose proof (at_task_ok _ _ _ _ _ Hat) as Hok.
  pose proof (at_task_valid _ _ _ _ _ Hat) as Ht.
  unfold writer_seal_from_lifecycle, seal_ids_valid, committed_seal in *.
  destruct (atl_seal lc) as [sl|] eqn:Hsl; cbn in *; [|done].
  destruct (asl_committed sl) as [c|] eqn:Hc; cbn in *; [|done]. intros [= <-]. cbn.
  destruct (lo_seal _ Hok _ Hsl) as (_ & _ & Hb & Hne). destruct (Hne _ Hc) as [Hne' _].
  destruct (Hv c eq_refl) as (Hg & Hd & _). exists c. split_and!; try done.
  rewrite Hb. by apply task_base_valid.
Qed.

Definition root_known (s : RunSnapshot) : Prop :=
  require_known_agent_workspace_state "root workspace" (sn_workspace_state s) = Ok tt.
Definition unsettled (g : AgentIntegrationLifecycle) : Prop :=
  ail_committed g = None ∧ ail_failure g = None.
(** The root did not move under a prepared integration. *)
Definition root_kept (s : RunSnapshot) lc : Prop := ∀ g, atl_integration lc = Some g →
  unsettled g → ail_expected_root_workspace_state g = sn_workspace_state s.

Lemma integration_prepares rt log i lc seal r :
  at_task ports rt log i lc → writer_seal_from_lifecycle lc = Some seal →
  atl_result lc = Some r → is_completed (ao_terminal r) = true → atl_integration lc = None →
  root_known (rt_snapshot rt) →
  ∃ rt' log' g,
    (tick ← next_tick;
     snapshot ← get_snapshot;
     publish_or_terminal ports
       (AgentIntegrationPrepared (at_task_id (atl_task lc)) (rp_uuid ports tick)
          (wse_base_commit seal) (wse_final_commit seal) (wse_diff_sha256 seal)
          (sn_workspace_state snapshot))) rt = (rt', Ok tt) ∧
    at_task ports rt' log' i (lc <| atl_integration := Some g |>) ∧ stays rt rt' ∧
    ail_started g = false ∧ unsettled g ∧
    ail_expected_root_workspace_state g = sn_workspace_state (rt_snapshot rt).
Proof.
  intros Hat Hseal Hr Hc Hi Hroot. rewrite M_bind_run. cbn -[publish_or_terminal].
  destruct (next_tick_at_task _ _ _ _ _ Hat) as [Hat1 Hst1]. set (rt1 := rt <| rt_tick := _ |>) in *.
  rewrite M_bind_run. cbn -[publish_or_terminal].
  destruct (writer_seal_facts _ _ _ _ _ Hat Hseal)
    as (c & Hcs & Hf & Hd & Hb & Hne & Hgb & Hgf & Hsd).
  change (rt_snapshot (rt <| rt_tick := _ |>)) with (rt_snapshot rt).
  set (g := mkAgentIntegrationLifecycle (rp_uuid ports (rt_tick rt)) (wse_base_commit seal)
    (wse_final_commit seal) (wse_diff_sha256 seal) (sn_workspace_state (rt_snapshot rt))
    false None None).
  destruct (publish_task ports uuid_fresh uuid_random rt1 log i lc
    (AgentIntegrationPrepared (at_task_id (atl_task lc)) (rp_uuid ports (rt_tick rt))
          (wse_base_commit seal) (wse_final_commit seal) (wse_diff_sha256 seal)
          (sn_workspace_state (rt_snapshot rt)))
    (lc <| atl_integration := Some g |>)) as (rt2 & log2 & Hp & Hat2 & Hst2); try done.
  - cbn. rewrite (at_task_id_text _ _ _ _ _ _ Hat1), uuid_text. cbn.
    rewrite (git_object_id_relabel _ "integration base commit" _ Hgb),
      (git_object_id_relabel _ "integration writer commit" _ Hgf),
      (sha256_relabel _ "integration diff sha256" _ Hsd). cbn.
    rewrite bool_decide_false by congruence. cbn. exact (known_state_relabel _ _ _ Hroot).
  - intros run_id n. cbn [dispatch]. unfold on_agent_integration_prepared.
    rewrite bool_decide_true by done. cbn. rewrite (task_mut _ _ _ _ _ _ Hat1). cbn.
    rewrite Hcs. cbn. rewrite Hr. cbn. rewrite Hi, Hc. cbn.
    rewrite (ls_awaiting _ (at_task_settled _ _ _ _ Hat) _ Hr (wt_writer _ _ _ _ _ Hat) Hc).
    rewrite Hf, Hd, Hb, !bool_decide_true by done. cbn. unfold g. by rewrite Hf, Hd, Hb.
  - exists rt2, log2, g. split_and!; try done.
Qed.

Lemma integration_id_text rt log i lc g :
  at_task ports rt log i lc → atl_integration lc = Some g →
  require_agent_text "writer integration id" (ail_integration_id g) = Ok tt.
Proof. intros Hat Hg. by apply (lv_integration _ (at_task_facts_valid _ _ _ _ _ Hat) _ Hg). Qed.

Lemma integration_starts rt log i lc g :
  at_task ports rt log i lc → atl_integration lc = Some g → ail_started g = false →
  unsettled g → ail_expected_root_workspace_state g = sn_workspace_state (rt_snapshot rt) →
  ∃ rt' log', publish_or_terminal ports
      (AgentIntegrationStarted (at_task_id (atl_task lc)) (ail_integration_id g)) rt = (rt', Ok tt) ∧
    at_task ports rt' log' i (lc <| atl_integration := Some (g <| ail_started := true |>) |>) ∧
    stays rt rt'.
Proof.
  intros Hat Hg Hs [Hc Hf] Hroot. eapply publish_task; try done.
  - cbn. by rewrite (at_task_id_text _ _ _ _ _ _ Hat), (integration_id_text _ _ _ _ _ Hat Hg).
  - intros run_id n. cbn [dispatch]. unfold on_agent_integration_started.
    rewrite (task_mut _ _ _ _ _ _ Hat). cbn. rewrite Hg. cbn.
    by rewrite Hs, Hc, Hf, Hroot, !bool_decide_true.
Qed.

(** Running the started integration settles it, whatever the Host answers. *)
Lemma integration_runs rt log i lc seal g :
  at_task ports rt log i lc → writer_seal_from_lifecycle lc = Some seal →
  atl_integration lc = Some g → ail_started g = true → unsettled g →
  ail_expected_root_workspace_state g = sn_workspace_state (rt_snapshot rt) →
  ∃ rt' log' g', run_integration ports orchestrator (atl_task lc) seal g rt = (rt', Ok tt) ∧
    at_task ports rt' log' i (lc <| atl_integration := Some g' |>) ∧ stays rt rt' ∧
    (is_Some (ail_committed g') ∧ ail_failure g' = None ∨ is_Some (ail_failure g')).
Proof.
  intros Hat Hseal Hg Hs [Hc Hf] Hroot.
  pose proof (lv_integration _ (at_task_facts_valid _ _ _ _ _ Hat) _ Hg)
    as (Hid & Hwc & Hex & _ & _).
  destruct (lo_integration _ (at_task_ok _ _ _ _ _ Hat) _ Hg)
    as ((c & r & Hcs & _ & _ & Hw & _) & _).
  destruct (writer_seal_facts _ _ _ _ _ Hat Hseal) as (c' & Hcs' & Hfc & _).
  rewrite Hcs in Hcs'. injection Hcs' as <-.
  unfold run_integration. rewrite M_bind_run. cbn -[publish_or_terminal].
  destruct (next_tick_at_task _ _ _ _ _ Hat) as [Hat1 Hst1]. set (rt1 := rt <| rt_tick := _ |>) in *.
  assert (∀ status, match status with
      | IntegrationRejected _ | IntegrationConflict _ | IntegrationRecoveryRequired _ => True
      | _ => False end → WriterIntegrationStatus_validate status = Ok tt →
    ∃ rt' log' g', publish_or_terminal ports
        (AgentIntegrationFailed (at_task_id (atl_task lc)) (ail_integration_id g) status
           (ail_expected_root_workspace_state g)) rt1 = (rt', Ok tt) ∧
      at_task ports rt' log' i (lc <| atl_integration := Some g' |>) ∧ stays rt rt' ∧
      (is_Some (ail_committed g') ∧ ail_failure g' = None ∨ is_Some (ail_failure g'))) as Hfail.
  { intros status Hk Hv.
    destruct (publish_task ports uuid_fresh uuid_random rt1 log i lc
      (AgentIntegrationFailed (at_task_id (atl_task lc)) (ail_integration_id g) status
           (ail_expected_root_workspace_state g))
      (lc <| atl_integration := Some (g <| ail_failure := Some (mkAgentIntegrationFailureFact status
           (ail_expected_root_workspace_state g)) |>) |>)) as (rt2 & log2 & Hp & Hat2 & Hst2); try done.
    - cbn. rewrite (at_task_id_text _ _ _ _ _ _ Hat1), Hid. cbn.
      destruct status; try done; cbn in Hv |- *; rewrite Hv; cbn; exact (known_state_relabel _ _ _ Hex).
    - intros run_id n. cbn [dispatch]. unfold on_agent_integration_failed.
      rewrite (task_mut _ _ _ _ _ _ Hat1). cbn. rewrite Hg. cbn. rewrite Hs, Hc, Hf, Hroot.
      change (rt_snapshot rt1) with (rt_snapshot rt). by rewrite !bool_decide_true.
    - do 3 eexists. split_and!; [exact Hp|exact Hat2|exact Hst2|]. right. by eexists. }
  destruct (integrate_writer orchestrator (rt_tick rt) (atl_task lc) seal
    (ail_expected_root_workspace_state g)) as [integrated|error] eqn:Hint.
  - destruct (decide (wi_root_head_commit integrated = wse_final_commit seal)) as [Hh|Hh].
    + rewrite bool_decide_true by done.
      destruct (oo_integrate _ contract _ _ _ _ _ Hint) as (sha256 & Hk & Hv).
      destruct (publish_task ports uuid_fresh uuid_random rt1 log i lc
        (AgentIntegrationCommitted (at_task_id (atl_task lc)) (ail_integration_id g)
           (wi_root_head_commit integrated)
           (mkWorkspaceState (sat_add64 (ws_generation (ail_expected_root_workspace_state g)) 1)
              (ws_revision (wi_root_workspace_state integrated))))
        (lc <| atl_integration := Some (g <| ail_committed := Some (mkAgentIntegrationCommittedFact
           (wi_root_head_commit integrated)
           (mkWorkspaceState (sat_add64 (ws_generation (ail_expected_root_workspace_state g)) 1)
              (ws_revision (wi_root_workspace_state integrated)))) |>) |>))
        as (rt2 & log2 & Hp & Hat2 & Hst2); try done.
      * cbn. rewrite (at_task_id_text _ _ _ _ _ _ Hat1), Hid, Hh, Hfc, <- Hw. cbn.
        rewrite (git_object_id_relabel _ "integrated root commit" _ Hwc). cbn.
        unfold require_known_agent_workspace_state. rewrite Hk, Hv. done.
      * intros run_id n. cbn [dispatch]. unfold on_agent_integration_committed.
        rewrite (task_mut _ _ _ _ _ _ Hat1). cbn. rewrite Hg. cbn. rewrite Hs, Hc, Hf, Hh, Hfc, Hw, Hroot.
        change (rt_snapshot rt1) with (rt_snapshot rt). rewrite !bool_decide_true by done. cbn.
        by rewrite N.eqb_refl.
      * do 3 eexists. split_and!; [exact Hp|exact Hat2|exact Hst2|]. left. cbn. split; [by eexists|done].
    + rewrite bool_decide_false by done. by apply Hfail.
  - destruct (oo_integrate_error _ contract _ _ _ _ _ Hint) as [Hcode Hmsg].
    apply Hfail; [|by apply integration_failure_reason_valid].
    unfold writer_integration_failure_status. by destruct (aoe_kind error).
Qed.

(** What the steps of the integration leave alone. *)
Definition same_collected lc lc' : Prop :=
  atl_task lc' = atl_task lc ∧ atl_seal lc' = atl_seal lc ∧ atl_result lc' = atl_result lc ∧
  atl_finished lc' = atl_finished lc ∧ atl_child_started lc' = atl_child_started lc.
#[local] Instance same_collected_refl : Reflexive same_collected.
Proof. done. Qed.
#[local] Instance same_collected_trans : Transitive same_collected.
Proof. intros x y z (?&?&?&?&?) (?&?&?&?&?). unfold same_collected. split_and!; congruence. Qed.

Lemma root_kept_stays rt rt' lc :
  stays rt rt' → root_kept (rt_snapshot rt) lc → root_kept (rt_snapshot rt') lc.
Proof. intros (_ & _ & _ & Hw & _) Hk g Hg Hu. rewrite Hw. by apply Hk. Qed.

Lemma writer_seal_same lc lc' :
  same_collected lc lc' → writer_seal_from_lifecycle lc' = writer_seal_from_lifecycle lc.
Proof. intros (_ & Hs & _). unfold writer_seal_from_lifecycle. by rewrite Hs. Qed.

(** A step of the integration: it ends well, keeps the collected facts and leaves the
    integration as [P] says. *)
Definition integration_step (m : M St TerminalState unit) rt i lc
    (P : RunSnapshot → AgentTaskLifecycle → AgentIntegrationLifecycle → Prop) : Prop :=
  ∃ rt' log' lc' g, m rt = (rt', Ok tt) ∧ at_task ports rt' log' i lc' ∧ stays rt rt' ∧
    same_collected lc lc' ∧ atl_cleanup lc' = atl_cleanup lc ∧
    atl_integration lc' = Some g ∧ P (rt_snapshot rt') lc' g.

Lemma prepare_step rt log i lc seal r :
  at_task ports rt log i lc → writer_seal_from_lifecycle lc = Some seal →
  atl_result lc = Some r → is_completed (ao_terminal r) = true →
  root_known (rt_snapshot rt) → root_kept (rt_snapshot rt) lc →
  integration_step
    (if is_none (atl_integration lc) then
       tick ← next_tick;
       snapshot ← get_snapshot;
       publish_or_terminal ports
         (AgentIntegrationPrepared (at_task_id (atl_task lc)) (rp_uuid ports tick)
            (wse_base_commit seal) (wse_final_commit seal) (wse_diff_sha256 seal)
            (sn_workspace_state snapshot))
     else mret tt) rt i lc (λ s lc' _, root_kept s lc').
Proof.
  intros Hat Hs Hr Hc Hroot Hkept. destruct (atl_integration lc) as [g|] eqn:Hg.
  - exists rt, log, lc, g. by split_and!.
  - destruct (integration_prepares _ _ _ _ _ _ Hat Hs Hr Hc Hg Hroot)
      as (rt' & log' & g & Hrun & Hat' & Hst & _ & Hu & He).
    exists rt', log', (lc <| atl_integration := Some g |>), g. split_and!; try done.
    intros g' [= <-] _. rewrite He. symmetry. apply Hst.
Qed.

Lemma start_step rt log i lc g :
  at_task ports rt log i lc → atl_integration lc = Some g → root_kept (rt_snapshot rt) lc →
  integration_step
    (if negb (ail_started g) then
       publish_or_terminal ports
         (AgentIntegrationStarted (at_task_id (atl_task lc)) (ail_integration_id g))
     else mret tt) rt i lc (λ s lc' g', ail_started g' = true ∧ root_kept s lc').
Proof.
  intros Hat Hg Hkept. destruct (ail_started g) eqn:Hs.
  - exists rt, log, lc, g. by split_and!.
  - assert (unsettled g) as Hu.
    { destruct (lo_integration _ (at_task_ok _ _ _ _ _ Hat) _ Hg) as (_ & Hset & _).
      unfold unsettled. destruct (ail_committed g), (ail_failure g); cbn in Hset; try done;
        specialize (Hset eq_refl); congruence. }
    destruct (integration_starts _ _ _ _ _ Hat Hg Hs Hu (Hkept _ Hg Hu))
      as (rt' & log' & Hrun & Hat' & Hst).
    do 4 eexists. split_and!; [exact Hrun|exact Hat'|exact Hst|done|done|done|done|].
    intros g' [= <-] _. cbn. rewrite (Hkept _ Hg Hu). symmetry. apply Hst.
Qed.

Lemma settle_step rt log i lc seal g :
  at_task ports rt log i lc → writer_seal_from_lifecycle lc = Some seal →
  atl_integration lc = Some g → ail_started g = true → root_kept (rt_snapshot rt) lc →
  integration_step
    (if is_none (ail_committed g) && is_none (ail_failure g)
     then run_integration ports orchestrator (atl_task lc) seal g else mret tt) rt i lc
    (λ s lc' g', is_Some (ail_committed g') ∧ ail_failure g' = None ∨ is_Some (ail_failure g')).
Proof.
  intros Hat Hseal Hg Hs Hkept.
  destruct (is_none (ail_committed g) && is_none (ail_failure g)) eqn:Hopen; bprop.
  - assert (unsettled g) as Hu by done.
    destruct (integration_runs _ _ _ _ _ _ Hat Hseal Hg Hs Hu (Hkept _ Hg Hu))
      as (rt' & log' & g' & Hrun & Hat' & Hst & Hd).
    by do 4 eexists; split_and!; [exact Hrun|exact Hat'|exact Hst|..].
  - exists rt, log, lc, g. split_and!; try done.
    destruct (ail_failure g) as [f|]; [right; by eexists|left].
    destruct (ail_committed g); [split; [by eexists|done]|]. done.
Qed.

(** The integration is settled, and what it needs is cleaned up. *)
Definition integration_done lc : Prop :=
  (integration_committed lc = true ∧ atl_cleanup lc = None) ∨
  (integration_failed lc = true ∧ is_Some (committed_cleanup lc)).

Lemma clean_step rt log i lc seal r g :
  at_task ports rt log i lc → writer_seal_from_lifecycle lc = Some seal →
  atl_result lc = Some r → is_completed (ao_terminal r) = true → atl_finished lc = None →
  atl_integration lc = Some g →
  (is_Some (ail_committed g) ∧ ail_failure g = None ∨ is_Some (ail_failure g)) →
  ∃ rt' log' lc',
    (if is_some (atl_integration lc ≫= ail_failure) && is_none (committed_cleanup lc)
     then resume_writer_cleanup ports orchestrator (atl_task lc) (Some seal) ;; mret tt
     else mret tt) rt = (rt', Ok tt) ∧
    at_task ports rt' log' i lc' ∧ stays rt rt' ∧ same_collected lc lc' ∧
    atl_integration lc' = Some g ∧ integration_done lc'.
Proof.
  intros Hat Hseal Hr Hc Hf Hg Hd. rewrite Hg. cbn -[resume_writer_cleanup].
  pose proof (at_task_settled _ _ _ _ Hat) as Hset.
  destruct Hd as [[[c Hcm] Hfa]|[f Hfa]]; rewrite Hfa; cbn -[resume_writer_cleanup].
  - exists rt, log, lc. split_and!; try done. left. unfold integration_committed. rewrite Hg. cbn.
    rewrite Hcm. split; [done|]. destruct (atl_cleanup lc) as [cl|] eqn:Hcl; [|done].
    destruct (ls_cleanup _ Hset _ _ Hcl Hr Hc) as [Hx|[_ [? Hx]]]; [|congruence].
    unfold integration_failed in Hx. rewrite Hg in Hx. cbn in Hx. by rewrite Hfa in Hx.
  - destruct (committed_cleanup lc) as [cl|] eqn:Hcl; cbn -[resume_writer_cleanup].
    + exists rt, log, lc. split_and!; try done. right. unfold integration_failed.
      rewrite Hg, Hcl. cbn. rewrite Hfa. by split; [|eexists].
    + destruct (resume_cleanup_commits ports orchestrator uuid_fresh uuid_random contract
        rt log i lc r Hat Hr) as (rt' & log' & plan & c & Hrun & Hat' & Hst).
      { intros Hn. split_and!; [done|done|]. rewrite Hc. right.
        destruct (lo_integration _ (at_task_ok _ _ _ _ _ Hat) _ Hg) as (_ & _ & Hnot & _).
        unfold integration_committed, integration_failed. rewrite Hg. cbn. rewrite Hfa in Hnot |- *.
        destruct (ail_committed g); by split_and!. }
      rewrite Hseal in Hrun.
      exists rt', log', (lc <| atl_cleanup := Some (mkAgentCleanupLifecycle plan (Some c)) |>).
      split_and!; try done.
      * by rewrite M_bind_run, Hrun.
      * right. unfold integration_failed. cbn. rewrite Hg. cbn. rewrite Hfa. by split; [|eexists].
Qed.

Lemma integration_of_run rt log i lc lc' g panic :
  at_task ports rt log i lc' → atl_task lc' = atl_task lc → atl_integration lc' = Some g →
  integration_of (atl_task lc) panic rt = (rt, Ok g).
Proof.
  intros Hat Ht Hg. unfold integration_of. rewrite <- Ht, M_bind_run, (current_lifecycle _ _ _ _ _ Hat).
  unfold expect, lift. by rewrite Hg.
Qed.

(** A sealed and collected writer is integrated, from whatever step the integration was at. *)
Lemma integrate_settles rt log i lc seal r :
  at_task ports rt log i lc → writer_seal_from_lifecycle lc = Some seal →
  atl_result lc = Some r → is_completed (ao_terminal r) = true → atl_finished lc = None →
  root_known (rt_snapshot rt) → root_kept (rt_snapshot rt) lc →
  ∃ rt' log' lc', integrate_sealed_writer ports orchestrator (atl_task lc) seal rt = (rt', Ok tt) ∧
    at_task ports rt' log' i lc' ∧ stays rt rt' ∧ same_collected lc lc' ∧ integration_done lc'.
Proof.
  intros Hat Hseal Hr Hc Hf Hroot Hkept. unfold integrate_sealed_writer.
  rewrite M_bind_run, (current_lifecycle _ _ _ _ _ Hat), M_bind_run.
  destruct (prepare_step _ _ _ _ _ _ Hat Hseal Hr Hc Hroot Hkept)
    as (rt1 & log1 & lc1 & g1 & Hrun1 & Hat1 & Hst1 & Hsc1 & _ & Hg1 & Hk1).
  rewrite Hrun1. clear Hrun1. rewrite M_bind_run, (integration_of_run _ _ _ _ _ _ _ Hat1 (proj1 Hsc1) Hg1), M_bind_run.
  destruct (start_step _ _ _ _ _ Hat1 Hg1 Hk1)
    as (rt2 & log2 & lc2 & g2 & Hrun2 & Hat2 & Hst2 & Hsc2 & _ & Hg2 & Hs2 & Hk2).
  rewrite (proj1 Hsc1) in Hrun2. rewrite Hrun2. clear Hrun2.
  assert (same_collected lc lc2) as Hsc by (by etrans).
  rewrite M_bind_run, (integration_of_run _ _ _ _ _ _ _ Hat2 (proj1 Hsc) Hg2), M_bind_run.
  destruct (settle_step _ _ _ _ seal g2 Hat2)
    as (rt3 & log3 & lc3 & g3 & Hrun3 & Hat3 & Hst3 & Hsc3 & _ & Hg3 & Hd3); try done.
  { by rewrite (writer_seal_same _ _ Hsc). }
  rewrite (proj1 Hsc) in Hrun3. rewrite Hrun3. clear Hrun3.
  assert (same_collected lc lc3) as Hsc' by (by etrans).
  rewrite M_bind_run, <- (proj1 Hsc'), (current_lifecycle _ _ _ _ _ Hat3).
  destruct (clean_step _ _ _ _ seal r g3 Hat3)
    as (rt4 & log4 & lc4 & Hrun4 & Hat4 & Hst4 & Hsc4 & _ & Hd4); try done.
  { by rewrite (writer_seal_same _ _ Hsc'). }
  { destruct Hsc' as (_ & _ & -> & _). done. }
  { destruct Hsc' as (_ & _ & _ & -> & _). done. }
  exists rt4, log4, lc4. split_and!; [done|done| |by etrans|done].
  by etrans; [|etrans]; [..|etrans].
Qed.

(** ** The finish *)

Lemma recovery_report_valid o t :
  AgentOutcome_validate o = Ok tt → is_recovery_required t = true →
  AgentOutcome_validate (o <| ao_terminal := t |>) = Ok tt.
Proof.
  unfold AgentOutcome_validate. rewrite !seq_Ok. intros (Hr & Hp & _ & Hd) Ht.
  split_and!; [exact Hr|exact Hp|by destruct t|exact Hd].
Qed.

Lemma integration_report_valid o status :
  AgentOutcome_validate o = Ok tt → ard_integration (ao_details o) = IntegrationAwaitingHost →
  WriterIntegrationStatus_validate status = Ok tt → status ≠ IntegrationNotApplicable →
  AgentOutcome_validate (with_integration o status) = Ok tt.
Proof.
  unfold AgentOutcome_validate, AgentResultDetails_validate. intros Hv Ha Hs Hne.
  do 3 (apply seq_Ok in Hv as [? Hv]; apply seq_Ok; split; [done|]).
  do 13 (apply seq_Ok in Hv as [? Hv]; apply seq_Ok; split; [done|]).
  apply seq_Ok in Hv as [_ Hv]. apply seq_Ok. split; [done|].
  unfold AgentResultDetails_validate_workspace in *.
  apply seq_Ok in Hv as [Hw Hv]. apply seq_Ok. split; [|done]. rewrite Ha in Hw. cbn.
  by destruct (awa_access <$> ard_workspace (ao_details o)) as [[]|], status.
Qed.

Lemma blocked_report_valid o reason :
  AgentOutcome_validate o = Ok tt → require_agent_text "blocked Agent reason" reason = Ok tt →
  AgentOutcome_validate (o <| ao_terminal := Blocked reason |>) = Ok tt.
Proof.
  unfold AgentOutcome_validate. rewrite !seq_Ok. intros (Hr & Hp & _ & Hd) Ht. by split_and!.
Qed.

(** A task ready to finish: a completed writer is integrated, or its failure is cleaned up. *)
Definition ready_to_finish lc (r : AgentOutcome) : Prop :=
  if is_completed (ao_terminal r) then integration_done lc else is_Some (committed_cleanup lc).

Lemma recovered_outcome_valid rt log i lc r :
  at_task ports rt log i lc → atl_result lc = Some r → ready_to_finish lc r →
  ∃ o, recovered_finished_outcome lc = Ok o ∧ AgentOutcome_validate o = Ok tt.
Proof.
  intros Hat Hr Hready. unfold recovered_finished_outcome. rewrite Hr. cbn.
  pose proof (at_task_facts_valid _ _ _ _ _ Hat) as [_ Hrv Hgv].
  pose proof (at_task_settled _ _ _ _ Hat) as [Haw _ Hfa].
  assert (∃ o, (if is_completed (ao_terminal r) then
      integration ← ok_or (atl_integration lc) "成功 writer 缺少 integration lifecycle";
      recovered_integration r integration else Ok r) = Ok o ∧ AgentOutcome_validate o = Ok tt)
    as (o & -> & Hv).
  { unfold ready_to_finish in Hready. destruct (is_completed (ao_terminal r)) eqn:Hc; [|by exists r; auto].
    specialize (Haw _ Hr (wt_writer _ _ _ _ _ Hat) Hc).
    assert (∃ g, atl_integration lc = Some g) as [g Hg].
    { destruct Hready as [[Hd _]|[Hd _]]; unfold integration_committed, integration_failed in Hd;
        destruct (atl_integration lc); eauto; done. }
    destruct (lo_integration _ (at_task_ok _ _ _ _ _ Hat) _ Hg) as (_ & _ & Hnot & _).
    destruct (Hgv _ Hg) as (Hid & Hwc & _ & Hcv & Hfv). rewrite Hg. cbn. unfold recovered_integration.
    destruct (ail_committed g) as [c|] eqn:Hcm, (ail_failure g) as [f|] eqn:Hf; try done.
    - eexists. split; [done|]. apply integration_report_valid; try done; [by apply Hrv|]. cbn. rewrite Hid. cbn.
      rewrite (git_object_id_relabel _ "writer commit" _ Hwc). cbn.
      by apply (known_state_relabel _ _ _ (Hcv _ eq_refl)).
    - specialize (Hfa _ _ Hg Hf). specialize (Hfv _ eq_refl).
      assert (AgentOutcome_validate (with_integration r (aif_status f)) = Ok tt) as Hwv.
      { apply integration_report_valid; try done; [by apply Hrv|]. by destruct (aif_status f). }
      destruct (aif_status f) as [| |reason|reason|reason|] eqn:Hs; try done; cbn; eexists; (split; [done|]).
      + apply blocked_report_valid; [done|]. by apply (require_agent_text_relabel _ _ _ Hfv).
      + apply blocked_report_valid; [done|]. by apply (require_agent_text_relabel _ _ _ Hfv).
      + by apply recovery_report_valid.
    - unfold integration_done, integration_committed, integration_failed in Hready.
      rewrite Hg in Hready. cbn in Hready. rewrite Hcm, Hf in Hready. naive_solver. }
  cbn. eexists. split; [done|]. destruct (committed_cleanup lc) as [c|]; [|done].
  destruct (retained_for_recovery c); [|done]. by apply recovery_report_valid.
Qed.

Lemma finish_agrees rt log i lc r o :
  at_task ports rt log i lc → atl_result lc = Some r → ready_to_finish lc r →
  recovered_finished_outcome lc = Ok o → ∀ run_id, expected_finished_outcome run_id lc = Ok o.
Proof.
  intros Hat Hr Hready Ho run_id. apply recovered_outcome_agrees; try done.
  - apply Hat.
  - by eapply at_task_ok.
  - intros r' Hr'. assert (r' = r) as -> by congruence. unfold ready_to_finish in Hready.
    destruct (is_completed (ao_terminal r)); cbn; [|done]. intros Hc.
    destruct Hready as [[? _]|[_ ?]]; [congruence|done].
Qed.

(** ** What the caller learns

    The tool outcome of a task that needs no recovery, the recovery it needs, or the stop of
    the parent. *)
Definition answers (parent : option TerminalState) (outcome : AgentOutcome)
    {A} (answer : result TerminalState A) : Prop :=
  match answer with
  | Ok _ => is_recovery_required (ao_terminal outcome) = false
  | Err t => parent = Some t ∨
      (is_recovery_required (ao_terminal outcome) = true ∧ t = ao_terminal outcome)
  end.

(** [m] finishes the task, and its answer fits. *)
Definition settles {A} (m : M St TerminalState A) rt i lc (parent : option TerminalState) : Prop :=
  ∃ rt' log' lc' f answer, m rt = (rt', answer) ∧ at_task ports rt' log' i lc' ∧ stays rt rt' ∧
    atl_task lc' = atl_task lc ∧ atl_finished lc' = Some f ∧ answers parent (acf_outcome f) answer.

Lemma report_answers task finished parent first tool rt :
  ∃ answer, report_finished_writer task finished parent first tool rt = (rt, answer) ∧
    answers parent finished answer.
Proof.
  unfold report_finished_writer.
  destruct first, parent, (is_recovery_required (ao_terminal finished)) eqn:Hr; cbn; eexists;
    (split; [done|]); cbn; auto.
Qed.

Lemma finished_outcome_run rt log i lc f panic :
  at_task ports rt log i lc → atl_finished lc = Some f →
  finished_writer_outcome (at_task_id (atl_task lc)) panic rt = (rt, Ok (acf_outcome f)).
Proof.
  intros Hat Hf. unfold finished_writer_outcome. rewrite M_bind_run, (current_lifecycle _ _ _ _ _ Hat).
  rewrite M_bind_run. unfold expect, lift. by rewrite Hf.
Qed.

(** A collected result is brought to its finish. *)
Lemma finish_collected_settles rt log i lc r parent :
  at_task ports rt log i lc → atl_result lc = Some r → atl_finished lc = None →
  root_known (rt_snapshot rt) → root_kept (rt_snapshot rt) lc →
  settles (finish_collected_writer ports orchestrator (atl_task lc) parent) rt i lc parent.
Proof.
  intros Hat Hr Hf Hroot Hkept. unfold settles, finish_collected_writer.
  rewrite M_bind_run, (current_lifecycle _ _ _ _ _ Hat), M_bind_run.
  unfold expect, lift at 1. rewrite Hr. cbn [ok_or]. rewrite M_bind_run.
  assert (∃ rt1 log1 lc1, (if negb (is_completed (ao_terminal r)) then
       if is_none (committed_cleanup lc)
       then resume_writer_cleanup ports orchestrator (atl_task lc) (writer_seal_from_lifecycle lc) ;; mret tt
       else mret tt
     else seal ← lift (ok_or (writer_seal_from_lifecycle lc)
         (orchestration_recovery (at_task_id (atl_task lc)) "writer_recovery_seal"
            "成功 writer result 缺少 committed seal"));
       integrate_sealed_writer ports orchestrator (atl_task lc) seal) rt = (rt1, Ok tt) ∧
    at_task ports rt1 log1 i lc1 ∧ stays rt rt1 ∧ same_collected lc lc1 ∧ ready_to_finish lc1 r)
    as (rt1 & log1 & lc1 & -> & Hat1 & Hst1 & Hsc1 & Hready).
  { unfold ready_to_finish. destruct (is_completed (ao_terminal r)) eqn:Hc; cbn [negb].
    - destruct (lo_result _ (at_task_ok _ _ _ _ _ Hat) _ Hr) as (_ & _ & Hcs).
      destruct (Hcs Hc) as [_ Hs]. destruct (Hs (wt_writer _ _ _ _ _ Hat)) as [c Hcm].
      assert (∃ seal, writer_seal_from_lifecycle lc = Some seal) as [seal Hseal].
      { unfold writer_seal_from_lifecycle, committed_seal in *. destruct (atl_seal lc); cbn in *; [|done].
        rewrite Hcm. cbn. by eexists. }
      rewrite M_bind_run, Hseal. cbn -[integrate_sealed_writer]. by eapply integrate_settles.
    - destruct (committed_cleanup lc) as [c|] eqn:Hcl; cbn [is_none is_some negb].
      + exists rt, log, lc. by split_and!.
      + destruct (resume_cleanup_commits ports orchestrator uuid_fresh uuid_random contract
          rt log i lc r Hat Hr) as (rt' & log' & plan & c & Hrun & Hat' & Hst).
        { intros Hn. split_and!; [done|done|]. by rewrite Hc. }
        exists rt', log', (lc <| atl_cleanup := Some (mkAgentCleanupLifecycle plan (Some c)) |>).
        split_and!; try done. cbn [is_none is_some negb]. by rewrite M_bind_run, Hrun. }
  pose proof Hsc1 as (Ht & _ & Hr1 & Hf1 & _). rewrite Hr in Hr1. rewrite Hf in Hf1.
  rewrite M_bind_run, <- Ht, (current_lifecycle _ _ _ _ _ Hat1), M_bind_run, Hf1. cbn [is_none is_some negb].
  destruct (recovered_outcome_valid _ _ _ _ _ Hat1 Hr1 Hready) as (o & Ho & Hv).
  rewrite M_bind_run. unfold lift at 1. rewrite Ho. cbn [map_err]. rewrite M_bind_run.
  cbn -[publish_child_finished finished_writer_outcome report_finished_writer].
  destruct (publish_finish ports uuid_fresh uuid_random rt1 log1 i lc1 o
    (child_handoff ports (rt_snapshot rt1) o) Hat1 Hf1 Hv (finish_agrees _ _ _ _ _ _ Hat1 Hr1 Hready Ho))
    as (rt2 & log2 & f & Hrun & Hat2 & Ho2 & Hst2).
  rewrite Hrun, M_bind_run.
  rewrite (finished_outcome_run rt2 log2 i _ f _ Hat2) by done.
  destruct (report_answers (atl_task lc1) (acf_outcome f) parent true
    (writer_tool_outcome (atl_task lc1) (acf_outcome f)) rt2) as (answer & Ha & Hans).
  do 5 eexists. split_and!; [exact Ha|exact Hat2|by etrans|done|done|done].
Qed.

(** ** A child that did not succeed *)

Lemma unsealed_writer_seal lc : committed_seal lc = None → writer_seal_from_lifecycle lc = None.
Proof.
  unfold committed_seal, writer_seal_from_lifecycle.
  destruct (atl_seal lc) as [seal|]; cbn; [|done]. by destruct (asl_committed seal).
Qed.

(** Collecting a failure finishes the task; only an uncertain cleanup is thrown. *)
Lemma collect_failed_settles rt log i lc o :
  at_task ports rt log i lc → atl_result lc = None → committed_seal lc = None →
  child_report (atl_task lc) o → is_completed (ao_terminal o) = false →
  ∃ rt' log' lc' f answer,
    collect_failed_writer ports orchestrator (atl_task lc) o rt = (rt', answer) ∧
    at_task ports rt' log' i lc' ∧ stays rt rt' ∧ atl_task lc' = atl_task lc ∧
    atl_finished lc' = Some f ∧
    match answer with
    | Ok _ => True
    | Err t => is_recovery_required (ao_terminal (acf_outcome f)) = true ∧
        t = ao_terminal (acf_outcome f)
    end.
Proof.
  intros Hat Hr Hcs Hrep Hc. unfold collect_failed_writer.
  destruct (result_none_open _ _ _ _ _ Hat Hr) as (Hcl & Hf & Hg).
  pose proof (failed_report_ok _ _ Hrep) as Hrep'. set (o' := failed_writer_report o) in *.
  destruct (publish_result ports uuid_fresh uuid_random rt log i lc o' Hat Hr (cre_valid _ _ Hrep'))
    as (rt1 & log1 & Hrun1 & Hat1 & Hst1).
  { change (ao_terminal o') with (ao_terminal o). by rewrite Hc, andb_false_r. }
  { intros run_id. eapply collected_identity; [done|apply Hat|]. by apply failed_writer_result_ok. }
  set (lc1 := lc <| atl_result := Some o' |>) in *.
  rewrite M_bind_run, Hrun1, M_bind_run.
  destruct (cleanup_writer_commits ports orchestrator uuid_fresh uuid_random contract rt1 log1 i lc1 o' Hat1)
    as (rt2 & log2 & plan & c & Hrun2 & Hat2 & Hst2).
  { split_and!; [done|done|]. change (ao_terminal o') with (ao_terminal o). by rewrite Hc. }
  rewrite (unsealed_writer_seal lc1 Hcs) in Hrun2. change (atl_task lc1) with (atl_task lc) in Hrun2.
  rewrite Hrun2. clear Hrun1 Hrun2.
  set (lc2 := lc1 <| atl_cleanup := Some (mkAgentCleanupLifecycle plan (Some c)) |>) in *.
  set (o2 := if retained_for_recovery c then _ else o').
  assert (ready_to_finish lc2 o') as Hready.
  { unfold ready_to_finish. change (ao_terminal o') with (ao_terminal o). rewrite Hc. by eexists. }
  assert (recovered_finished_outcome lc2 = Ok o2) as Ho2.
  { unfold recovered_finished_outcome. cbn [atl_result lc2 lc1]. cbn.
    by rewrite Hc. }
  assert (AgentOutcome_validate o2 = Ok tt) as Hv2.
  { destruct (recovered_outcome_valid _ _ _ _ _ Hat2 eq_refl Hready) as (o3 & Ho3 & Hv3).
    rewrite Ho2 in Ho3. by injection Ho3 as <-. }
  rewrite M_bind_run. cbn -[publish_child_finished]. rewrite M_bind_run.
  destruct (publish_finish ports uuid_fresh uuid_random rt2 log2 i lc2 o2
    (child_handoff ports (rt_snapshot rt2) o2) Hat2 Hf Hv2
    (finish_agrees _ _ _ _ _ _ Hat2 eq_refl Hready Ho2)) as (rt3 & log3 & f & Hrun3 & Hat3 & Ho3 & Hst3).
  change (atl_task lc2) with (atl_task lc) in Hrun3. rewrite Hrun3.
  assert (stays rt rt3) as Hst by (by etrans; [|etrans]; [..|etrans]).
  destruct (retained_for_recovery c) eqn:Hret; do 5 eexists;
    (split_and!; [done|exact Hat3|exact Hst|done|done|]); cbn; [|done].
  by rewrite Ho3.
Qed.

(** What the Host blocks finishes as a failure too. *)
Lemma bound_failure_settles rt log i lc o error :
  at_task ports rt log i lc → atl_result lc = None → committed_seal lc = None →
  child_report (atl_task lc) o →
  settles (finish_bound_writer_failure ports orchestrator (atl_task lc) o error) rt i lc None.
Proof.
  intros Hat Hr Hcs Hrep. unfold settles, finish_bound_writer_failure.
  destruct (collect_failed_settles rt log i lc (bound_failure_report o error) Hat Hr Hcs)
    as (rt' & log' & lc' & f & answer & Hrun & Hat' & Hst & Ht & Hf & Hans);
    [by apply bound_report_ok|done|].
  rewrite M_bind_run, Hrun. destruct answer as [[]|t].
  - rewrite M_bind_run, <- Ht, (finished_outcome_run _ _ _ _ _ _ Hat' Hf).
    destruct (is_recovery_required (ao_terminal (acf_outcome f))) eqn:Hrec;
      do 5 eexists; (split_and!; [done|exact Hat'|exact Hst|done|done|]); cbn; auto.
  - do 5 eexists; (split_and!; [done|exact Hat'|exact Hst|done|done|]). cbn. by right.
Qed.

Lemma settle_as_failure_settles {A} rt log i lc o error :
  at_task ports rt log i lc → atl_result lc = None → committed_seal lc = None →
  child_report (atl_task lc) o →
  ∃ rt' log' lc' f answer,
    settle_as_failure ports orchestrator (A := A) (atl_task lc) o error rt = (rt', answer) ∧
    at_task ports rt' log' i lc' ∧ stays rt rt' ∧ atl_task lc' = atl_task lc ∧
    atl_finished lc' = Some f ∧ answers None (acf_outcome f) answer ∧
    ∀ x, answer = Ok x → ∃ tool_outcome, x = inl tool_outcome.
Proof.
  intros Hat Hr Hcs Hrep. unfold settle_as_failure.
  destruct (bound_failure_settles _ _ _ _ _ error Hat Hr Hcs Hrep)
    as (rt' & log' & lc' & f & answer & Hrun & Hat' & Hst & Ht & Hf & Hans).
  rewrite M_bind_run, Hrun.
  destruct answer as [tool|t]; do 5 eexists; (split_and!; [done|exact Hat'|exact Hst|done|done|done|]).
  - intros x [= <-]. by eexists.
  - done.
Qed.

(** ** A child that completed *)

(** What a completed child's report and replay provide: the proof of the workspace the seal
    starts from, and well-formed Host checks. *)
Record completed_child lc (o : AgentOutcome) (replay : RunReplay) : Prop := {
  cp_seal : ∀ seal, atl_seal lc = Some seal →
    asl_writer_workspace_state_before seal = sn_workspace_state (replay_snapshot replay);
  cp_known : require_known_agent_workspace_state "writer workspace before seal"
    (sn_workspace_state (replay_snapshot replay)) = Ok tt;
  cp_started : is_Some (atl_child_started lc);
  cp_created : ∃ created, atl_workspace_created lc = Some created ∧
    ws_generation (awc_writer_workspace_state created)
      ≤ ws_generation (sn_workspace_state (replay_snapshot replay));
  cp_success : ∃ message decision, ao_terminal o = Completed message decision ∧
    ∀ run_id lc' seal, atl_task lc' = atl_task lc →
      asl_writer_workspace_state_before seal = sn_workspace_state (replay_snapshot replay) →
      validate_writer_success run_id lc' seal o decision = Ok tt;
  cp_checks : AgentResultDetails_validate (AgentResultDetails_default
    <| ard_checks := (agent_checks_from_replay replay).1 |>
    <| ard_artifacts := (agent_checks_from_replay replay).2 |>) = Ok tt;
}.

Lemma seal_prepares rt log i lc o replay :
  at_task ports rt log i lc → atl_result lc = None → completed_child lc o replay →
  ∃ rt' log' lc' sl,
    (if is_none (atl_seal lc) then
       publish_or_terminal ports
         (AgentSealPrepared (at_task_id (atl_task lc)) (awa_base_commit (at_workspace (atl_task lc)))
            (sn_workspace_state (replay_snapshot replay)))
     else mret tt) rt = (rt', Ok tt) ∧
    at_task ports rt' log' i lc' ∧ stays rt rt' ∧ atl_task lc' = atl_task lc ∧
    atl_result lc' = None ∧ atl_child_started lc' = atl_child_started lc ∧
    atl_seal lc' = Some sl ∧
    asl_writer_workspace_state_before sl = sn_workspace_state (replay_snapshot replay).
Proof.
  intros Hat Hr Hc. destruct (atl_seal lc) as [sl|] eqn:Hs; cbn [is_none is_some negb].
  - exists rt, log, lc, sl. split_and!; try done. by apply (cp_seal _ _ _ Hc).
  - destruct (cp_created _ _ _ Hc) as (created & Hcr & Hgen).
    destruct (cp_started _ _ _ Hc) as [started Hst].
    set (sl := mkAgentSealLifecycle (awa_base_commit (at_workspace (atl_task lc)))
      (sn_workspace_state (replay_snapshot replay)) None).
    destruct (publish_task ports uuid_fresh uuid_random rt log i lc
      (AgentSealPrepared (at_task_id (atl_task lc)) (awa_base_commit (at_workspace (atl_task lc)))
            (sn_workspace_state (replay_snapshot replay)))
      (lc <| atl_seal := Some sl |>)) as (rt' & log' & Hrun & Hat' & Hst'); try done.
    + cbn. rewrite (at_task_id_text _ _ _ _ _ _ Hat). cbn.
      rewrite (git_object_id_relabel _ "writer base commit" _ (task_base_valid _ (at_task_valid _ _ _ _ _ Hat))).
      cbn. apply (cp_known _ _ _ Hc).
    + intros run_id n. cbn [dispatch]. unfold on_agent_seal_prepared.
      rewrite (task_mut _ _ _ _ _ _ Hat). cbn. rewrite Hcr. cbn.
      rewrite (wt_writer _ _ _ _ _ Hat), Hst, Hs, Hr. cbn. rewrite bool_decide_true by done. cbn.
      replace (ws_generation (sn_workspace_state (replay_snapshot replay)) <?
        ws_generation (awc_writer_workspace_state created)) with false; [done|].
      symmetry. by apply N.ltb_ge.
    + exists rt', log', (lc <| atl_seal := Some sl |>), sl. by split_and!.
Qed.

(** Committing the Host's seal, or settling its refusal. *)
Lemma seal_commits rt log i lc o sl :
  at_task ports rt log i lc → atl_result lc = None → child_report (atl_task lc) o →
  atl_seal lc = Some sl →
  ∃ rt' log' lc' res,
    (match writer_seal_from_lifecycle lc with
     | Some seal => mret (inr seal)
     | None => seal_new_writer ports orchestrator (atl_task lc) lc o
     end) rt = (rt', res) ∧
    at_task ports rt' log' i lc' ∧ stays rt rt' ∧ atl_task lc' = atl_task lc ∧
    ((∃ seal sl', res = Ok (inr seal) ∧ writer_seal_from_lifecycle lc' = Some seal ∧
        atl_result lc' = None ∧ atl_child_started lc' = atl_child_started lc ∧
        atl_seal lc' = Some sl' ∧
        asl_writer_workspace_state_before sl' = asl_writer_workspace_state_before sl) ∨
     (∃ f, atl_finished lc' = Some f ∧ answers None (acf_outcome f) res ∧
        ∀ x, res = Ok x → ∃ tool_outcome, x = inl tool_outcome)).
Proof.
  intros Hat Hr Hrep Hsl. destruct (writer_seal_from_lifecycle lc) as [seal|] eqn:Hseal.
  { exists rt, log, lc, (Ok (inr seal)). split_and!; try done. left. by exists seal, sl. }
  assert (asl_committed sl = None) as Hnc.
  { unfold writer_seal_from_lifecycle in Hseal. rewrite Hsl in Hseal. cbn in Hseal. by destruct (asl_committed sl). }
  assert (committed_seal lc = None) as Hcs by (unfold committed_seal; rewrite Hsl; done).
  assert (asl_base_commit sl = awa_base_commit (at_workspace (atl_task lc))) as Hbase
    by apply (lo_seal _ (at_task_ok _ _ _ _ _ Hat) _ Hsl).
  unfold seal_new_writer. rewrite M_bind_run. cbn -[settle_as_failure publish_or_terminal validate_writer_seal].
  destruct (next_tick_at_task _ _ _ _ _ Hat) as [Hat1 Hst1]. set (rt1 := rt <| rt_tick := _ |>) in *.
  assert (∀ error, ∃ rt' log' lc' res,
    settle_as_failure ports orchestrator (A := WriterSeal) (atl_task lc) o error rt1 = (rt', res) ∧
    at_task ports rt' log' i lc' ∧ stays rt rt' ∧ atl_task lc' = atl_task lc ∧
    (∃ f, atl_finished lc' = Some f ∧ answers None (acf_outcome f) res ∧
        ∀ x, res = Ok x → ∃ tool_outcome, x = inl tool_outcome)) as Hfail.
  { intros error. destruct (settle_as_failure_settles (A := WriterSeal) _ _ _ _ _ error Hat1 Hr Hcs Hrep)
      as (rt' & log' & lc' & f & res & Hrun & Hat' & Hst' & Ht' & Hf & Hans & Hx).
    exists rt', log', lc', res. split_and!; try done. by exists f. }
  destruct (seal_writer orchestrator (rt_tick rt) (atl_task lc)) as [seal|error] eqn:Hs.
  2: { destruct (Hfail error) as (rt' & log' & lc' & res & Hrun & Hat' & Hst' & Ht' & Hx).
       exists rt', log', lc', res. split_and!; try done. by right. }
  rewrite M_bind_run. unfold expect, lift at 1. rewrite Hsl. cbn [ok_or].
  set (seal' := mkWriterSeal _ _ _ _ _).
  destruct (validate_writer_seal (atl_task lc) seal') as [[]|message] eqn:Hv.
  2: { destruct (Hfail (mkAgentOrchestrationError OrchestrationRecoveryRequired "writer_seal_mismatch" message))
         as (rt' & log' & lc' & res & Hrun & Hat' & Hst' & Ht' & Hx).
       exists rt', log', lc', res. split_and!; try done. by right. }
  unfold validate_writer_seal in Hv. do 3 (apply seq_Ok in Hv as [?%fail_if_Ok Hv]). bprop.
  set (committed := mkAgentSealCommittedFact (wse_final_commit seal') (wse_diff_sha256 seal')
    (wse_changed_files seal') (wse_writer_workspace_state seal')).
  destruct (publish_task ports uuid_fresh uuid_random rt1 log i lc
    (AgentSealCommitted (at_task_id (atl_task lc)) (wse_final_commit seal') (wse_diff_sha256 seal')
           (wse_changed_files seal') (wse_writer_workspace_state seal'))
    (lc <| atl_seal := Some (sl <| asl_committed := Some committed |>) |>))
    as (rt2 & log2 & Hrun & Hat2 & Hst2); try done.
  - intros run_id n. cbn [dispatch]. unfold on_agent_seal_committed.
    rewrite (task_mut _ _ _ _ _ _ Hat1). cbn. rewrite Hsl. cbn. rewrite Hnc, Hr.
    pose proof (oo_seal _ contract _ _ _ Hs) as Hpaths. unfold paths_stay_within in Hpaths. cbn.
    rewrite Hpaths, N.eqb_refl, bool_decide_false by (cbn in *; congruence). done.
  - rewrite M_bind_run. cbn -[publish_or_terminal] in Hrun |- *. rewrite Hrun.
    do 4 eexists. split_and!; [done|exact Hat2|exact Hst2|done|]. left.
    exists seal', (sl <| asl_committed := Some committed |>). split_and!; try done.
    unfold writer_seal_from_lifecycle. cbn. rewrite Hbase. unfold seal' in *. cbn in *. congruence.
Qed.

Lemma writer_workspace_valid rt log i lc :
  at_task ports rt log i lc →
  AgentWorkspaceAssignment_validate (at_workspace (atl_task lc)) = Ok tt ∧
  awa_access (at_workspace (atl_task lc)) = AccessIsolatedWrite.
Proof.
  intros Hat. pose proof (at_task_valid _ _ _ _ _ Hat) as Hv.
  pose proof (wt_writer _ _ _ _ _ Hat) as Hw. unfold is_writer in Hw. split; [|by bprop].
  unfold AgentTask_validate in Hv. do 12 (apply seq_Ok in Hv as [? Hv]). by apply seq_Ok in Hv as [Hw' _].
Qed.

Lemma sealed_report_valid rt log i lc seal replay o :
  at_task ports rt log i lc → writer_seal_from_lifecycle lc = Some seal →
  AgentOutcome_validate o = Ok tt →
  AgentResultDetails_validate (AgentResultDetails_default
    <| ard_checks := (agent_checks_from_replay replay).1 |>
    <| ard_artifacts := (agent_checks_from_replay replay).2 |>) = Ok tt →
  AgentOutcome_validate (sealed_writer_report (atl_task lc) seal replay o) = Ok tt.
Proof.
  intros Hat Hseal Hv Hk.
  destruct (writer_seal_facts _ _ _ _ _ Hat Hseal) as (c & Hcs & Hf & Hd & Hb & Hne & Hgb & Hgf & Hsd).
  destruct (lv_seal _ (at_task_facts_valid _ _ _ _ _ Hat) _ Hcs) as (_ & _ & Hfiles & Hknown).
  destruct (writer_workspace_valid _ _ _ _ Hat) as [Hwv Hacc].
  assert (wse_changed_files seal = asc_changed_files c ∧
    wse_writer_workspace_state seal = asc_writer_workspace_state_after c) as [Hcf Hws].
  { unfold writer_seal_from_lifecycle, committed_seal in *. destruct (atl_seal lc); cbn in *; [|done].
    rewrite Hcs in Hseal. cbn in Hseal. by injection Hseal as <-. }
  unfold sealed_writer_report. destruct (agent_checks_from_replay replay) as [checks artifacts].
  cbn [fst snd] in Hk. unfold AgentOutcome_validate, AgentResultDetails_validate in *.
  do 7 (apply seq_Ok in Hk as [_ Hk]). do 4 (apply seq_Ok in Hk as [? Hk]). clear Hk.
  do 3 (apply seq_Ok in Hv as [? Hv]; apply seq_Ok; split; [done|]).
  apply seq_Ok in Hv as [? Hv]; apply seq_Ok; split; [done|].
  apply seq_Ok in Hv as [_ Hv]; apply seq_Ok; split; [by rewrite <- Hcf in Hfiles|].
  do 5 (apply seq_Ok in Hv as [? Hv]; apply seq_Ok; split; [done|]).
  do 4 (apply seq_Ok; split; [done|]). clear Hv.
  apply seq_Ok; split; [done|].
  rewrite <- Hws in Hknown.
  apply seq_Ok; split; [by apply seq_Ok in Hknown as [Hknown _]|].
  apply seq_Ok; split; [done|]. unfold AgentResultDetails_validate_workspace.
  apply seq_Ok; split; [cbn; by rewrite Hacc|]. cbn. rewrite Hacc. cbn.
  rewrite (known_state_relabel _ "sealed writer workspace" _ Hknown). cbn.
  rewrite (git_object_id_relabel _ "writer result base commit" _ Hgb),
    (git_object_id_relabel _ "writer result final commit" _ Hgf),
    (sha256_relabel _ "writer result diff sha256" _ Hsd). cbn.
  rewrite (bool_decide_true (awa_base_commit _ = _)), (bool_decide_false (wse_base_commit _ = _))
    by congruence. done.
Qed.

(** The reducer takes the sealed report as the result of the task. *)
Lemma sealed_result_accepted rt log i lc seal sl replay o message decision :
  at_task ports rt log i lc → writer_seal_from_lifecycle lc = Some seal → atl_seal lc = Some sl →
  child_report (atl_task lc) o → ao_terminal o = Completed message decision →
  (∀ run_id, validate_writer_success run_id lc sl o decision = Ok tt) →
  ∀ run_id, validate_collected_agent_result run_id lc
    (sealed_writer_report (atl_task lc) seal replay o) = Ok tt.
Proof.
  intros Hat Hseal Hsl [Hv Hid Hp He Hh] Ht Hs run_id.
  pose proof (lo_seal _ (at_task_ok _ _ _ _ _ Hat) _ Hsl) as (_ & _ & Hbase & _).
  unfold validate_collected_agent_result, sealed_writer_report.
  destruct (agent_checks_from_replay replay) as [checks artifacts]. cbn -[validate_writer_result].
  rewrite Hid, Hp, (bool_decide_true (at_child_run_id (atl_task lc) = _)),
    (bool_decide_true (Some (at_parent_run_id _) = _)) by done. cbn -[validate_writer_result].
  rewrite (report_generations_ok er_generation_id) by done. cbn -[validate_writer_result].
  rewrite (report_generations_ok har_generation_id) by done. cbn -[validate_writer_result].
  destruct (writer_workspace_valid _ _ _ _ Hat) as [_ ->].
  unfold writer_seal_from_lifecycle in Hseal. rewrite Hsl in Hseal. cbn in Hseal.
  destruct (asl_committed sl) as [c|] eqn:Hc; cbn in Hseal; [|done]. injection Hseal as <-.
  unfold validate_writer_result, committed_seal. rewrite Hsl.
  destruct sl as [base before cm]. cbn in Hc, Hbase. subst cm. cbn -[validate_writer_success].
  rewrite Ht. cbn -[validate_writer_success]. rewrite Hbase, !bool_decide_true by done.
  cbn -[validate_writer_success].
  specialize (Hs run_id). rewrite Hbase in Hs.
  unfold validate_writer_success, validate_child_completion_facts in *. cbn.
  rewrite Ht in *. cbn in Hs |- *. unfold check_child_acceptance in *. cbn in Hs |- *. by rewrite Hs.
Qed.

(** A completed child with its proof is collected with its seal, or the refusal of the seal is
    settled. *)
Lemma collect_completed_settles rt log i lc o replay :
  at_task ports rt log i lc → atl_result lc = None → child_report (atl_task lc) o →
  completed_child lc o replay →
  ∃ rt' log' lc' res,
    collect_completed_writer ports orchestrator (atl_task lc) o (Some replay) rt = (rt', res) ∧
    at_task ports rt' log' i lc' ∧ stays rt rt' ∧ atl_task lc' = atl_task lc ∧
    ((res = Ok (inr tt) ∧ is_Some (atl_result lc') ∧ atl_finished lc' = None ∧
        atl_integration lc' = None) ∨
     (∃ f, atl_finished lc' = Some f ∧ answers None (acf_outcome f) res ∧
        ∀ x, res = Ok x → ∃ tool_outcome, x = inl tool_outcome)).
Proof.
  intros Hat Hr Hrep Hc. unfold collect_completed_writer.
  destruct (cp_success _ _ _ Hc) as (message & decision & Ht & Hsucc).
  assert (validate_child_completion_facts (atl_task lc) o = Ok tt) as ->.
  { specialize (Hsucc "" lc (mkAgentSealLifecycle "" (sn_workspace_state (replay_snapshot replay)) None)
      eq_refl eq_refl).
    unfold validate_writer_success in Hsucc. apply seq_Ok in Hsucc as [Hs _].
    unfold or_corrupt in Hs. by apply map_err_Ok in Hs. }
  rewrite M_bind_run, (current_lifecycle _ _ _ _ _ Hat), M_bind_run.
  destruct (seal_prepares _ _ _ _ _ _ Hat Hr Hc)
    as (rt1 & log1 & lc1 & sl1 & Hrun1 & Hat1 & Hst1 & Ht1 & Hr1 & Hcs1 & Hsl1 & Hbef1).
  rewrite Hrun1, M_bind_run, <- Ht1, (current_lifecycle _ _ _ _ _ Hat1), M_bind_run.
  destruct (seal_commits rt1 log1 i lc1 o sl1 Hat1 Hr1) as
    (rt2 & log2 & lc2 & res & Hrun2 & Hat2 & Hst2 & Ht2 & Hcase); [by rewrite Ht1|done|].
  rewrite Hrun2. destruct Hcase as [(seal & sl2 & -> & Hseal & Hr2 & Hcs2 & Hsl2 & Hbef2)|(f & Hf & Hans & Hx)].
  2: { destruct res as [x|t]; [destruct (Hx _ eq_refl) as [tool ->]|];
         do 4 eexists; (split_and!; [done|exact Hat2|by etrans|by rewrite Ht2|]); right; exists f;
         (split_and!; [done|done|]); intros ? [= <-]; by eexists. }
  assert (child_report (atl_task lc2) o) as Hrep2 by (by rewrite Ht2, Ht1).
  pose proof (sealed_report_valid _ _ _ _ _ replay o Hat2 Hseal (cre_valid _ _ Hrep2) (cp_checks _ _ _ Hc)) as Hv.
  rewrite M_bind_run. unfold lift at 1. rewrite <- Ht2, Hv. cbn [map_err]. rewrite M_bind_run.
  destruct (publish_result ports uuid_fresh uuid_random rt2 log2 i lc2
    (sealed_writer_report (atl_task lc2) seal replay o) Hat2 Hr2 Hv)
    as (rt3 & log3 & Hrun3 & Hat3 & Hst3).
  { rewrite Hcs2, Hcs1. destruct (cp_started _ _ _ Hc) as [? ->]. done. }
  { eapply sealed_result_accepted; try done. intros run_id. apply Hsucc; congruence. }
  rewrite Hrun3. destruct (result_none_open _ _ _ _ _ Hat2 Hr2) as (_ & Hf2 & Hg2).
  do 4 eexists. split_and!; [done|exact Hat3| | |].
  - by etrans; [|etrans]; [..|etrans].
  - cbn. congruence.
  - left. split_and!; [done|by eexists|done|done].
Qed.

Lemma failed_child_settles rt log i lc o parent :
  at_task ports rt log i lc → atl_result lc = None → committed_seal lc = None →
  child_report (atl_task lc) o → is_completed (ao_terminal o) = false →
  settles (collect_failed_writer ports orchestrator (atl_task lc) o ;;
      finished ← finished_writer_outcome (at_task_id (atl_task lc)) "failed writer was finished";
      report_finished_writer (atl_task lc) finished parent false
        (writer_failure_tool_outcome (atl_task lc) finished)) rt i lc parent.
Proof.
  intros Hat Hr Hcs Hrep Hc. unfold settles.
  destruct (collect_failed_settles _ _ _ _ _ Hat Hr Hcs Hrep Hc)
    as (rt' & log' & lc' & f & answer & Hrun & Hat' & Hst & Ht & Hf & Hans).
  rewrite M_bind_run, Hrun. destruct answer as [[]|t].
  - rewrite M_bind_run, <- Ht, (finished_outcome_run _ _ _ _ _ _ Hat' Hf).
    destruct (report_answers (atl_task lc') (acf_outcome f) parent false
      (writer_failure_tool_outcome (atl_task lc') (acf_outcome f)) rt') as (answer & Ha & Hans').
    do 5 eexists. split_and!; [exact Ha|exact Hat'|exact Hst|done|done|done].
  - do 5 eexists. split_and!; [done|exact Hat'|exact Hst|done|done|]. by right.
Qed.

Lemma blocked_child_settles rt log i lc o child_replay parent :
  at_task ports rt log i lc → atl_result lc = None → committed_seal lc = None →
  child_report (atl_task lc) o →
  child_replay = None ∨ (∃ message, validate_child_completion_facts (atl_task lc) o = Err message) →
  settles (collected ← collect_completed_writer ports orchestrator (atl_task lc) o child_replay;
      match collected with
      | inl tool_outcome => mret tool_outcome
      | inr _ => finish_collected_writer ports orchestrator (atl_task lc) parent
      end) rt i lc parent.
Proof.
  intros Hat Hr Hcs Hrep Hfacts. unfold settles. rewrite M_bind_run. unfold collect_completed_writer.
  assert (∀ error, ∃ rt' log' lc' f answer,
    match settle_as_failure ports orchestrator (A := unit) (atl_task lc) o error rt with
    | (rt', Ok collected) => match collected with
        | inl tool_outcome => mret tool_outcome
        | inr _ => finish_collected_writer ports orchestrator (atl_task lc) parent
        end rt'
    | (rt', Err e) => (rt', Err e)
    end = (rt', answer) ∧ at_task ports rt' log' i lc' ∧ stays rt rt' ∧
    atl_task lc' = atl_task lc ∧ atl_finished lc' = Some f ∧ answers parent (acf_outcome f) answer)
    as Hfail.
  { intros error. destruct (settle_as_failure_settles (A := unit) _ _ _ _ _ error Hat Hr Hcs Hrep)
      as (rt' & log' & lc' & f & answer & Hrun & Hat' & Hst & Ht & Hf & Hans & Hx).
    rewrite Hrun. destruct answer as [x|t]; [destruct (Hx _ eq_refl) as [tool ->]|];
      do 5 eexists; (split_and!; [done|exact Hat'|exact Hst|done|done|]); [done|].
    destruct Hans as [?|?]; [done|by right]. }
  destruct (validate_child_completion_facts (atl_task lc) o) as [[]|message] eqn:Hv; [|apply Hfail].
  destruct Hfacts as [->|[? ?]]; [apply Hfail|done].
Qed.

(** What the lifecycle needs of the child it is given, when no result was collected yet. *)
Definition child_given lc (child_outcome : option AgentOutcome) (child_replay : option RunReplay)
    : Prop :=
  atl_result lc = None → ∃ o, child_outcome = Some o ∧ child_report (atl_task lc) o ∧
    ((committed_seal lc = None ∧
       (is_completed (ao_terminal o) = false ∨ child_replay = None ∨
        ∃ message, validate_child_completion_facts (atl_task lc) o = Err message)) ∨
     ∃ replay, child_replay = Some replay ∧ completed_child lc o replay).

End settle.
