(* ===== verification/AgentTools.v ===== *)
(** What a run shows its model and what it accepts back ([crates/runtime/src/agent.rs]): the
    authority of an actor, the tool catalog of a request, and the arguments of the tools the
    runtime itself executes.

    The concrete tools (the [ToolExecutor] trait) are a parameter: the definitions they advertise
    and the access each of them needs.

    The catalog of a request stays inside the authority of its actor, and the arguments the
    runtime accepts for its own tools are well formed. *)
From Stdlib Require Import Ascii String.
From stdpp Require Import sorting.
From S2P Require Import Prelude.
From S2P Require Import Text.
From S2P Require Import Json.
From S2P Require Import Task.
From S2P Require Import Protocol.
From S2P Require Import Validate.
From S2P Require Import Snapshot.
From S2P Require Import TextOps.

Open Scope string_scope.
Open Scope N_scope.

(** ** Authority *)

Inductive ModelToolAuthority := RootWrite | Coordinator | ReadOnly | IsolatedWriter.
#[export] Instance ModelToolAuthority_eq_dec : EqDecision ModelToolAuthority.
Proof. solve_decision. Defined.

Definition authority_root (mode : WriteExecutionMode) : ModelToolAuthority :=
  match mode with WriteRoot => RootWrite | WriteIsolatedWriter => Coordinator end.
(** [None]: a child without a task, which the binding check of its creation excludes. *)
Definition for_request (request : RunRequest) : option ModelToolAuthority :=
  match actor_kind (rr_actor request) with
  | ActorRoot => Some (authority_root (env_write_execution_mode (rr_environment request)))
  | ActorChild =>
    task ← rr_agent_task request;
    Some match awa_access (at_workspace task) with
         | AccessReadOnly => ReadOnly
         | AccessIsolatedWrite => IsolatedWriter
         end
  end.

Definition permits_definition (authority : ModelToolAuthority) (access : WorkspaceAccess) : bool :=
  (authority ==? RootWrite) || (authority ==? IsolatedWriter) || (access ==? WorkspaceReadOnly).
Definition permits_agent (authority : ModelToolAuthority) (access : WorkspaceAccess) : bool :=
  match access with
  | WorkspaceReadOnly => negb (authority ==? IsolatedWriter)
  | WorkspaceMayWrite => authority ==? Coordinator
  end.
Definition permits_direct_invocation := permits_definition.

(** ** The definitions of the runtime's own tools *)

Definition schema_string (description : string) : Value :=
  VObject [("type", VString "string"); ("description", VString description)].
Definition schema_integer (minimum description : string) : Value :=
  VObject [("type", VString "integer"); ("minimum", VNumber minimum);
           ("description", VString description)].
Definition schema_object (properties : list (string * Value)) (required : list string) : Value :=
  VObject [("type", VString "object"); ("properties", VObject properties);
           ("required", VArray (VString <$> required)); ("additionalProperties", VBool false)].

Definition agent_tool_definition (allow_isolated_writer : bool) : ToolDefinition :=
  let description :=
    if allow_isolated_writer then
      "启动一个使用相同 AgentRuntime 的后台子 Agent。可创建只读 child；isolated_write 还要求显式 Writer 模式、Host exact verifier、冻结的 Run 权限与 Orchestrator clean-Git 预检。"
    else "启动一个使用相同 AgentRuntime 的只读后台子 Agent。当前运行不授予隔离写入权限。" in
  let workspace_access :=
    if allow_isolated_writer then
      VObject [("type", VString "string");
               ("enum", VArray [VString "read_only"; VString "isolated_write"]);
               ("description",
                VString "工作区权限。默认 read_only；isolated_write 必须同时提供 allowed_paths。")]
    else
      VObject [("type", VString "string"); ("enum", VArray [VString "read_only"]);
               ("description", VString "当前运行只允许创建 read_only 子 Agent。")] in
  mkToolDefinition AGENT_TOOL_NAME description (schema_object
    [("prompt", schema_string "交给子 Agent 的完整任务说明。");
     ("type", schema_string "子 Agent 的角色标签，仅影响任务侧重点，不授予写权限。");
     ("workspace_access", workspace_access);
     ("allowed_paths", VObject
        [("type", VString "array"); ("items", VObject [("type", VString "string")]);
         ("minItems", VNumber "1"); ("uniqueItems", VBool true);
         ("description", VString "isolated_write 唯一允许修改的工作区相对路径；只读任务不得提供。")]);
     ("fork_context", VObject
        [("type", VString "boolean");
         ("description", VString "是否复制父 Agent 的当前规范化对话记录。")]);
     ("allowed_tools", VObject
        [("type", VString "array"); ("items", VObject [("type", VString "string")]);
         ("description", VString "子 Agent 可见工具名；只会缩小父 Agent 已有权限。")]);
     ("max_steps", schema_integer "1" "子 Agent 最多执行的模型轮次。");
     ("max_depth", schema_integer "0" "从该子 Agent 起允许继续派生的最大相对深度。");
     ("wall_time_secs", schema_integer "1" "子 Agent 最长运行秒数，不会超过父任务剩余期限。");
     ("expected_artifact", schema_string "期望子 Agent 返回的具体产物或证据。")]
    ["prompt"]).

Definition named_verifier_tool_definition (definition : ToolDefinition)
    (acceptance_id : AcceptanceId) : ToolDefinition :=
  mkToolDefinition (td_name definition)
    ("运行 TaskContract 中冻结的确定性 verifier `" ++ acceptance_id ++ "`；完整参数与执行计划由 Host 展开。")
    (schema_object
      [("verifier_id", VObject
         [("type", VString "string"); ("enum", VArray [VString acceptance_id]);
          ("description", VString "TaskContract 中冻结的 verifier acceptance ID。")])]
      ["verifier_id"]).

Definition request_user_input_tool_definition : ToolDefinition :=
  let string_type := VObject [("type", VString "string")] in
  let flag := VObject [("type", VString "boolean"); ("default", VBool false)] in
  let array (minimum maximum : string) (items : Value) :=
    VObject [("type", VString "array"); ("minItems", VNumber minimum);
             ("maxItems", VNumber maximum); ("items", items)] in
  mkToolDefinition REQUEST_USER_INPUT_TOOL_NAME
    "向当前用户提出 1 到 3 个简短问题，并等待规范化答案后继续任务。"
    (schema_object
      [("questions", array "1" "3" (schema_object
         [("header", string_type); ("id", string_type); ("question", string_type);
          ("options", array "2" "4" (schema_object
             [("label", string_type); ("description", string_type)] ["label"; "description"]));
          ("allow_free_text", flag); ("multi_select", flag)]
         ["header"; "id"; "question"; "options"]))]
      ["questions"]).

(** ** The catalog *)

Record ToolExecutor := mkToolExecutor {
  definitions : list ToolDefinition;
  definition_workspace_access : string → WorkspaceAccess;
}.

Definition name_le (a b : ToolDefinition) : Prop := String.le (td_name a) (td_name b).
#[export] Instance name_le_dec : RelDecision name_le.
Proof. intros a b. unfold name_le. apply _. Defined.

Definition tool_definitions (tools : ToolExecutor) (policy : ToolPolicy)
    (task : option TaskDefinition) (authority : ModelToolAuthority) (depth max_depth : N)
    (interactive : bool) : list ToolDefinition :=
  if negb (tp_enabled policy) then []
  else
    let named_verifier := task ≫= named_verifier_acceptance in
    let own := List.filter (λ definition,
      (td_name definition !=? AGENT_TOOL_NAME)
      && ToolPolicy_permits policy (td_name definition)
      && permits_definition authority (definition_workspace_access tools (td_name definition)))
      (definitions tools) in
    let own := (λ definition,
      match named_verifier with
      | Some (acceptance_id, verifier) =>
        if td_name definition ==? spec_verifier_id verifier
        then named_verifier_tool_definition definition acceptance_id else definition
      | None => definition
      end) <$> own in
    let agent :=
      if (depth <? max_depth) && ToolPolicy_permits policy AGENT_TOOL_NAME
         && negb (authority ==? IsolatedWriter)
      then [agent_tool_definition (authority ==? Coordinator)] else [] in
    let user_input :=
      if (depth =? 0) && interactive && ToolPolicy_permits policy REQUEST_USER_INPUT_TOOL_NAME
      then [request_user_input_tool_definition] else [] in
    dedup_by td_name (merge_sort name_le (own ++ agent ++ user_input)%list).

(** ** The arguments of the runtime's own tools *)

Record RuntimeBuiltinInputError := mkRuntimeBuiltinInputError {
  rbe_code : ToolFailureCode;
  rbe_message : string;
}.
Definition rbe_schema (message : string) := mkRuntimeBuiltinInputError SchemaValidation message.
Definition rbe_missing (field : string) :=
  mkRuntimeBuiltinInputError MissingField ("缺少必填字段 '" ++ field ++ "'。").
Definition rbe_invalid (message : string) := mkRuntimeBuiltinInputError InvalidField message.

Definition runtime_builtin_input_outcome (error : RuntimeBuiltinInputError) : ToolOutcome :=
  ToolOutcome_rejected (rbe_message error) RetryAfterCorrection
    <| to_failure_code := Some (rbe_code error) |>.

Section builtin.
Implicit Types (object : list (string * Value)) (field : string).

Definition optional_builtin {A} (as_type : Value → option A) (message : string) object field
    : result RuntimeBuiltinInputError (option A) :=
  match object_get field object with
  | None => Ok None
  | Some value => a ← ok_or (as_type value) (rbe_schema message); Ok (Some a)
  end.
Definition optional_builtin_string object field : result RuntimeBuiltinInputError (option string) :=
  optional_builtin as_str (field ++ " 必须是字符串。") object field.
Definition optional_builtin_u64 object field : result RuntimeBuiltinInputError (option N) :=
  optional_builtin as_u64 (field ++ " 必须是非负整数。") object field.
Definition optional_builtin_bool object field : result RuntimeBuiltinInputError (option bool) :=
  optional_builtin (λ v, match v with VBool b => Some b | _ => None end)
    (field ++ " 必须是布尔值。") object field.
Definition string_items field (items : list Value) : result RuntimeBuiltinInputError (list string) :=
  map_result (λ item, ok_or (as_str item) (rbe_schema (field ++ " 只能包含字符串。"))) items.
Definition optional_builtin_string_array object field
    : result RuntimeBuiltinInputError (option (list string)) :=
  match object_get field object with
  | None => Ok None
  | Some (VArray items) => strings ← string_items field items; Ok (Some strings)
  | Some _ => Err (rbe_schema (field ++ " 必须是字符串数组。"))
  end.
End builtin.

Record AgentLaunchRequest := mkAgentLaunchRequest {
  al_prompt : string;
  al_role : string;
  al_workspace_access : AgentWorkspaceAccess;
  al_allowed_paths : list string;
  al_fork_context : bool;
  al_allowed_tools : option (list string);
  al_max_steps : option N;
  al_max_depth : option N;
  al_wall_time_secs : option N;
  al_expected_artifact : string;
}.

Definition FIELDS : list string :=
  ["prompt"; "type"; "workspace_access"; "allowed_paths"; "fork_context"; "allowed_tools";
   "max_steps"; "max_depth"; "wall_time_secs"; "expected_artifact"].

(** The [Component::Normal] parts of a path; [None] when it is absolute or goes up. *)
Definition normal_parts (requested : string) : option (list string) :=
  if path_is_absolute requested || path_has_parent_dir requested then None
  else Some (List.filter (λ part, negb (is_empty_str part) && (part !=? "."))
               (split_bytes is_slash requested)).

(** The loop over [requested_paths]; [seen] are the canonical paths so far. *)
Fixpoint canonical_paths (requested_paths seen : list string)
    : result RuntimeBuiltinInputError (list string) :=
  match requested_paths with
  | [] => Ok seen
  | requested :: rest =>
    let requested := trim requested in
    fail_if (is_empty_str requested) (rbe_invalid "allowed_paths 只能包含非空字符串。") ;;
    parts ← ok_or (normal_parts requested)
      (rbe_invalid ("allowed_paths 中的 '" ++ requested ++ "' 必须保持工作区相对且不能包含 ..。"));
    fail_if (parts ==? []) (rbe_invalid "allowed_paths 不能包含空路径或工作区根目录。") ;;
    let path := str_join "/" parts in
    fail_if (bool_decide (path ∈ seen)) (rbe_schema "allowed_paths 不能包含重复路径。") ;;
    canonical_paths rest (seen ++ [path])%list
  end.

(** A trimmed optional field; the default when it is absent or blank. *)
Definition trimmed_or (value : option string) (fallback : string) : string :=
  match value with
  | Some s => if is_empty_str (trim s) then fallback else trim s
  | None => fallback
  end.

Definition AgentLaunchRequest_parse (arguments : Value) (allow_isolated_writer : bool)
    : result RuntimeBuiltinInputError AgentLaunchRequest :=
  object ← ok_or (as_object arguments) (rbe_schema "agent 参数必须是 JSON 对象。");
  match find_first (λ field, bool_decide (field ∉ FIELDS)) (fst <$> object) with
  | Some field => Err (rbe_schema ("agent 不接受字段 '" ++ field ++ "'。"))
  | None => Ok tt
  end ;;
  prompt ← ok_or (object_get "prompt" object) (rbe_missing "prompt");
  prompt ← ok_or (as_str prompt) (rbe_schema "prompt 必须是字符串。");
  let prompt := trim prompt in
  fail_if (is_empty_str prompt) (rbe_invalid "prompt 不能为空。") ;;
  role ← optional_builtin_string object "type";
  let role := trimmed_or role "general" in
  access ← optional_builtin_string object "workspace_access";
  let access := default "read_only" access in
  workspace_access ←
    (if access ==? "read_only" then Ok AccessReadOnly
     else if access ==? "isolated_write" then Ok AccessIsolatedWrite
     else Err (rbe_schema ("workspace_access '" ++ access ++
                           "' 无效，只接受 read_only 或 isolated_write。")));
  fail_if ((workspace_access ==? AccessIsolatedWrite) && negb allow_isolated_writer)
    (rbe_schema "当前请求的 agent schema 只允许 workspace_access='read_only'。") ;;
  requested_paths ← optional_builtin_string_array object "allowed_paths";
  let requested_paths := default [] requested_paths in
  fail_if (is_some (object_get "allowed_paths" object) && (requested_paths ==? []))
    (rbe_schema "allowed_paths 至少需要一个路径。") ;;
  paths ← canonical_paths requested_paths [];
  (** the [BTreeSet]'s order *)
  let allowed_paths := merge_sort String.le paths in
  match workspace_access with
  | AccessReadOnly =>
    fail_if (negb (allowed_paths ==? []))
      (rbe_invalid "read_only 子 Agent 不得提供 allowed_paths。")
  | AccessIsolatedWrite =>
    fail_if (allowed_paths ==? [])
      (rbe_invalid "isolated_write 子 Agent 必须提供非空 allowed_paths。")
  end ;;
  expected_artifact ← optional_builtin_string object "expected_artifact";
  let expected_artifact := trimmed_or expected_artifact
    (if workspace_access ==? AccessIsolatedWrite then "通过冻结验收器的隔离代码变更"
     else "结构化调查结果") in
  allowed_tools ← optional_builtin_string_array object "allowed_tools";
  fail_if (is_some_and allowed_tools (existsb (λ tool, is_empty_str (trim tool))))
    (rbe_invalid "allowed_tools 只能包含非空工具名。") ;;
  max_steps ← optional_builtin_u64 object "max_steps";
  fail_if (max_steps ==? Some 0) (rbe_schema "max_steps 必须至少为 1。") ;;
  max_depth ← optional_builtin_u64 object "max_depth";
  wall_time_secs ← optional_builtin_u64 object "wall_time_secs";
  fail_if (wall_time_secs ==? Some 0) (rbe_schema "wall_time_secs 必须至少为 1。") ;;
  fork_context ← optional_builtin_bool object "fork_context";
  Ok (mkAgentLaunchRequest prompt role workspace_access allowed_paths (default false fork_context)
        allowed_tools max_steps max_depth wall_time_secs expected_artifact).

Inductive RuntimeBuiltinInput :=
| BuiltinAgent (launch : AgentLaunchRequest)
| BuiltinUserInput (request : UserInputRequest).

Definition parse_runtime_builtin_input `{ProtocolCodec} (call : ModelToolCall)
    (allow_isolated_writer : bool) : result RuntimeBuiltinInputError (option RuntimeBuiltinInput) :=
  match ta_parsed (mtc_arguments call) with
  | None => Ok None
  | Some arguments =>
    if mtc_name call ==? AGENT_TOOL_NAME then
      launch ← AgentLaunchRequest_parse arguments allow_isolated_writer;
      Ok (Some (BuiltinAgent launch))
    else if mtc_name call ==? REQUEST_USER_INPUT_TOOL_NAME then
      object ← ok_or (as_object arguments) (rbe_schema "request_user_input 参数必须是 JSON 对象。");
      fail_if (is_none (object_get "questions" object)) (rbe_missing "questions") ;;
      request ← map_err (λ error,
        rbe_schema ("request_user_input 参数不符合工具 schema：" ++ error))
        (decode_user_input_request arguments);
      map_err (λ message, rbe_invalid ("request_user_input 参数无效：" ++ message))
        (UserInputRequest_validate request) ;;
      Ok (Some (BuiltinUserInput request))
    else Ok None
  end.

Definition agent_tool_workspace_access (call : ModelToolCall) : WorkspaceAccess :=
  let field arguments := as_object arguments ≫= object_get "workspace_access" in
  match (ta_parsed (mtc_arguments call) ≫= field) ≫= as_str with
  | Some access => if access ==? "isolated_write" then WorkspaceMayWrite else WorkspaceReadOnly
  | None => WorkspaceReadOnly
  end.

Open Scope list_scope.

(** ** Sorting and removing duplicates *)

#[export] Instance name_le_trans : Transitive name_le.
Proof. intros a b c. unfold name_le. apply transitivity. Qed.
#[export] Instance name_le_total : Total name_le.
Proof. intros a b. unfold name_le. apply total, _. Qed.

(** ** The catalog *)

(** A tool of the executor, as a named verifier pins it. *)
Definition pinned (task : option TaskDefinition) (d0 : ToolDefinition) : ToolDefinition :=
  match task ≫= named_verifier_acceptance with
  | Some (acceptance_id, verifier) =>
    if td_name d0 ==? spec_verifier_id verifier
    then named_verifier_tool_definition d0 acceptance_id else d0
  | None => d0
  end.
Lemma pinned_name task d0 : td_name (pinned task d0) = td_name d0.
Proof. unfold pinned. destruct (_ ≫= _) as [[]|]; [by case_bool_decide|done]. Qed.

Section catalog.
Context (tools : ToolExecutor) (policy : ToolPolicy) (task : option TaskDefinition).
Context (authority : ModelToolAuthority) (depth max_depth : N) (interactive : bool).
Notation catalog := (tool_definitions tools policy task authority depth max_depth interactive).

(** Who may offer a definition. *)
Definition executor_tool (d : ToolDefinition) : Prop :=
  ∃ d0, d0 ∈ definitions tools ∧ d = pinned task d0 ∧ td_name d ≠ AGENT_TOOL_NAME ∧
    ToolPolicy_permits policy (td_name d) = true ∧
    permits_definition authority (definition_workspace_access tools (td_name d)) = true.
Definition agent_tool (d : ToolDefinition) : Prop :=
  d = agent_tool_definition (authority ==? Coordinator) ∧ depth < max_depth ∧
  authority ≠ IsolatedWriter ∧ ToolPolicy_permits policy AGENT_TOOL_NAME = true.
Definition user_input_tool (d : ToolDefinition) : Prop :=
  d = request_user_input_tool_definition ∧ depth = 0 ∧ interactive = true ∧
  ToolPolicy_permits policy REQUEST_USER_INPUT_TOOL_NAME = true.

Lemma catalog_sources : tp_enabled policy = true →
  ∃ ds, catalog = dedup_by td_name (merge_sort name_le ds) ∧
    ∀ d, d ∈ ds ↔ executor_tool d ∨ agent_tool d ∨ user_input_tool d.
Proof.
  intros He. unfold tool_definitions. rewrite He. cbn [negb]. eexists. split; [done|]. intros d.
  rewrite !elem_of_app, list_elem_of_fmap. unfold executor_tool, agent_tool, user_input_tool.
  assert (Hown : (∃ y, d = pinned task y ∧ y ∈ List.filter (λ definition,
      (td_name definition !=? AGENT_TOOL_NAME)
      && ToolPolicy_permits policy (td_name definition)
      && permits_definition authority (definition_workspace_access tools (td_name definition)))
      (definitions tools)) ↔ executor_tool d).
  { unfold executor_tool. split.
    - intros (y & -> & Hy). apply list_elem_of_In, filter_In in Hy as [Hy Hp].
      apply list_elem_of_In in Hy. bprop. exists y. by rewrite pinned_name.
    - intros (y & Hy & -> & Hn & Hp & Ha). rewrite pinned_name in *. exists y. split; [done|].
      apply list_elem_of_In, filter_In. apply list_elem_of_In in Hy. split; [done|].
      rewrite Hp, Ha. by rewrite bool_decide_false. }
  unfold pinned, executor_tool in Hown. rewrite Hown. clear Hown.
  assert (Ha : d ∈ (if (depth <? max_depth) && ToolPolicy_permits policy AGENT_TOOL_NAME
       && negb (authority ==? IsolatedWriter)
     then [agent_tool_definition (authority ==? Coordinator)] else []) ↔ agent_tool d).
  { unfold agent_tool. destruct (N.ltb_spec depth max_depth), (ToolPolicy_permits policy AGENT_TOOL_NAME);
      cbn; try (rewrite elem_of_nil; naive_solver lia). case_bool_decide; cbn;
      rewrite ?elem_of_nil, ?list_elem_of_singleton; naive_solver. }
  assert (Hu : d ∈ (if (depth =? 0) && interactive && ToolPolicy_permits policy REQUEST_USER_INPUT_TOOL_NAME
     then [request_user_input_tool_definition] else []) ↔ user_input_tool d).
  { unfold user_input_tool. destruct (N.eqb_spec depth 0), interactive,
      (ToolPolicy_permits policy REQUEST_USER_INPUT_TOOL_NAME); cbn;
      rewrite ?elem_of_nil, ?list_elem_of_singleton; naive_solver. }
  rewrite Ha, Hu. done.
Qed.
End catalog.

(** The model of a request is shown exactly what its actor may use.  The names of the catalog are
    sorted and distinct.  Every definition in it is either one of the executor's tools, permitted
    by the policy and by the authority of the actor - and pinned to the frozen verifier when it is
    that one - or the runtime's own agent tool, above the depth limit, not for an isolated writer,
    and offering isolated writers to a coordinator alone, or the question to the user of an
    interactive root.  No tool with one of these rights is missing. *)
Theorem catalog_respects_authority tools policy task authority depth max_depth interactive :
  let catalog := tool_definitions tools policy task authority depth max_depth interactive in
  StronglySorted name_le catalog ∧ NoDup (td_name <$> catalog) ∧
  Forall (λ d, tp_enabled policy = true ∧
    (executor_tool tools policy task authority d ∨ agent_tool policy authority depth max_depth d ∨
     user_input_tool policy depth interactive d)) catalog ∧
  (tp_enabled policy = true → ∀ d,
    executor_tool tools policy task authority d ∨ agent_tool policy authority depth max_depth d ∨
    user_input_tool policy depth interactive d → td_name d ∈ (td_name <$> catalog)).
Proof.
  cbn zeta. destruct (tp_enabled policy) eqn:He.
  - destruct (catalog_sources tools policy task authority depth max_depth interactive He)
      as (ds & -> & Hds).
    destruct (dedup_by_sorted td_name String.le (merge_sort name_le ds)) as [Hs Hn];
      [apply StronglySorted_merge_sort; apply _|].
    split_and!; [done|done|..].
    + apply Forall_forall. intros d Hd%dedup_by_sub. rewrite merge_sort_Permutation, Hds in Hd. auto.
    + intros _ d Hd. rewrite <- dedup_by_keys. apply list_elem_of_fmap. exists d. split; [done|].
      by rewrite merge_sort_Permutation, Hds.
  - unfold tool_definitions. rewrite He. cbn. split_and!; [constructor|constructor|constructor|done].
Qed.

(** ** The arguments of a launch *)

(** A workspace-relative path in canonical form. *)
Definition normal_part (part : string) : Prop :=
  part ≠ "" ∧ part ≠ "." ∧ part ≠ ".." ∧ all_bytes (λ b, negb (is_slash b)) part = true.
Definition canonical_path (path : string) : Prop :=
  ∃ parts, parts ≠ [] ∧ Forall normal_part parts ∧ path = str_join "/" parts.

Lemma canonical_path_relative path :
  canonical_path path → path_is_absolute path = false ∧ path_has_parent_dir path = false.
Proof.
  intros (parts & Hne & Hall & ->). split.
  - destruct Hall as [|x parts (Hx & _ & _ & Hs) _]; [done|]. destruct x as [|a x]; [done|].
    unfold all_bytes in Hs. cbn in Hs. apply andb_true_iff in Hs as [Ha _].
    assert (∀ t, path_is_absolute (String a t) = false) as Hp.
    { intros t. unfold path_is_absolute, starts_with. cbn. case_bool_decide as Heq; [|done].
      by rewrite <- Heq in Ha. }
    destruct parts; apply Hp.
  - unfold path_has_parent_dir. rewrite (split_join is_slash); try done.
    + apply existsb_false_elem_of. intros x Hx. rewrite Forall_forall in Hall.
      destruct (Hall x Hx) as (_ & _ & Hd & _). by rewrite bool_decide_false.
    + eapply Forall_impl; [done|]. by intros x (_ & _ & _ & ?).
Qed.

Lemma normal_parts_normal requested parts :
  normal_parts requested = Some parts → Forall normal_part parts.
Proof.
  unfold normal_parts, path_has_parent_dir.
  destruct (path_is_absolute requested); cbn; [done|].
  destruct (existsb _ _) eqn:Hd; [done|]. intros [= <-]. rewrite Forall_forall. intros x Hx.
  apply list_elem_of_In, filter_In in Hx as [Hx Hn]. apply list_elem_of_In in Hx.
  pose proof (split_bytes_pieces is_slash requested) as Hp. rewrite Forall_forall in Hp.
  unfold is_empty_str in Hn. bprop. split_and!; try done; [|by apply Hp].
  intros ->. apply existsb_false_elem_of with (x := "..") in Hd; [|done].
  by rewrite bool_decide_true in Hd.
Qed.

Lemma canonical_paths_Ok requested seen paths :
  canonical_paths requested seen = Ok paths → Forall canonical_path seen → NoDup seen →
  Forall canonical_path paths ∧ NoDup paths ∧ length paths = (length seen + length requested)%nat.
Proof.
  revert seen; induction requested as [|r requested IH]; intros seen; cbn [canonical_paths].
  { intros [= <-] ? ?. split_and!; [done|done|]. cbn. lia. }
  intros Hc Hs Hnd. apply seq_Ok in Hc as [_ Hc]. apply bind_Ok in Hc as (parts & Hp & Hc).
  apply ok_or_Ok, normal_parts_normal in Hp.
  apply seq_Ok in Hc as [Hne%fail_if_Ok Hc]. apply seq_Ok in Hc as [Hnew%fail_if_Ok Hc]. bprop.
  apply IH in Hc as (Hall & Hn & Hlen).
  - split_and!; [done|done|]. rewrite Hlen, length_app. cbn. lia.
  - apply Forall_app. split; [done|]. constructor; [by exists parts|constructor].
  - apply NoDup_app. split_and!; [done| |apply NoDup_singleton].
    intros x Hx ->%list_elem_of_singleton. done.
Qed.

Lemma str_lt_of_le a b : String.le a b → a ≠ b → str_lt a b = true.
Proof.
  unfold String.le, String.leb, str_lt. intros Hle Hne.
  destruct (String.compare a b) eqn:Hc; try done. by apply String.compare_eq_iff in Hc.
Qed.

Lemma sorted_distinct (paths : list string) :
  StronglySorted String.le paths → NoDup paths → windows2_all str_lt paths = true.
Proof.
  induction 1 as [|x paths Hs IH Hx]; [done|]. intros [Hn Hnd]%NoDup_cons. specialize (IH Hnd).
  destruct paths as [|y paths]; [done|]. change (str_lt x y && windows2_all str_lt (y :: paths) = true).
  rewrite IH, str_lt_of_le; [done| |].
  - by apply Forall_inv in Hx.
  - intros ->. apply Hn. by left.
Qed.

Lemma trimmed_or_nonempty value fallback : fallback ≠ "" → trimmed_or value fallback ≠ "".
Proof.
  unfold trimmed_or, is_empty_str. intros Hf. destruct value as [s|]; [|done].
  by case_bool_decide.
Qed.

(** The launch of a child as the parser lets it through. *)
Record launch_ok (allow_isolated_writer : bool) (r : AgentLaunchRequest) : Prop := {
  lk_prompt : al_prompt r ≠ "";
  lk_role : al_role r ≠ "";
  lk_artifact : al_expected_artifact r ≠ "";
  lk_writer : al_workspace_access r = AccessIsolatedWrite →
    allow_isolated_writer = true ∧ al_allowed_paths r ≠ [];
  lk_reader : al_workspace_access r = AccessReadOnly → al_allowed_paths r = [];
  lk_paths : Forall canonical_path (al_allowed_paths r);
  lk_distinct : NoDup (al_allowed_paths r);
  lk_sorted : windows2_all str_lt (al_allowed_paths r) = true;
  lk_tools : ∀ tools, al_allowed_tools r = Some tools → Forall (λ t, trim t ≠ "") tools;
  lk_steps : al_max_steps r ≠ Some 0;
  lk_wall : al_wall_time_secs r ≠ Some 0;
}.

Lemma for_each_unique_ok {A K E} `{EqDecision K} (check : A → result E unit) (key : A → K)
    (dup : A → E) (seen : list K) (xs : list A) :
  Forall (λ x, check x = Ok tt) xs → NoDup (key <$> xs) → (∀ x, x ∈ xs → key x ∉ seen) →
  for_each_unique check key dup seen xs = Ok tt.
Proof.
  intros Hall. revert seen; induction Hall as [|x xs Hx Hall IH]; intros seen Hnd Hs; [done|]. cbn.
  rewrite Hx. cbn. cbn in Hnd. apply NoDup_cons in Hnd as [Hn Hnd].
  rewrite bool_decide_false by (apply Hs; by left). cbn. apply IH; [done|].
  intros y Hy [Heq|Hin]%elem_of_cons; [|by eapply Hs; [right|]].
  apply Hn. rewrite <- Heq. by apply list_elem_of_fmap_2.
Qed.

Lemma for_each_ok {A E} (check : A → result E unit) (xs : list A) :
  Forall (λ x, check x = Ok tt) xs → for_each check xs = Ok tt.
Proof. induction 1 as [|x xs Hx _ IH]; [done|]. cbn. by rewrite Hx. Qed.

(** A parsed launch is well formed: a prompt, a role and an expected artifact; an isolated writer
    only where the schema offered one, and then with allowed paths, which a read-only child never
    has; the paths canonical, inside the workspace, distinct and sorted - so that the protocol's
    check of the frozen task accepts them, unless one of them is blank or carries NUL, which the
    parser does not look for; no blank tool name, and no zero limit. *)
Theorem agent_launch_is_well_formed arguments allow_isolated_writer r :
  AgentLaunchRequest_parse arguments allow_isolated_writer = Ok r →
  launch_ok allow_isolated_writer r ∧
  (Forall (λ path, require_agent_text "allowed path" path = Ok tt) (al_allowed_paths r) →
   validate_relative_path_list "allowed path" (al_allowed_paths r) = Ok tt).
Proof.
  intros Hp. assert (launch_ok allow_isolated_writer r) as Hok.
  { unfold AgentLaunchRequest_parse in Hp.
    apply bind_Ok in Hp as (object & _ & Hp). apply seq_Ok in Hp as [_ Hp].
    apply bind_Ok in Hp as (? & _ & Hp). apply bind_Ok in Hp as (prompt & _ & Hp).
    apply seq_Ok in Hp as [Hprompt%fail_if_Ok Hp]. apply bind_Ok in Hp as (role & _ & Hp).
    apply bind_Ok in Hp as (access & _ & Hp). apply bind_Ok in Hp as (workspace_access & _ & Hp).
    apply seq_Ok in Hp as [Hallow%fail_if_Ok Hp]. apply bind_Ok in Hp as (requested & _ & Hp).
    apply seq_Ok in Hp as [_ Hp]. apply bind_Ok in Hp as (paths & Hpaths & Hp).
    apply seq_Ok in Hp as [Haccess Hp]. apply bind_Ok in Hp as (artifact & _ & Hp).
    apply bind_Ok in Hp as (tools & _ & Hp). apply seq_Ok in Hp as [Htools%fail_if_Ok Hp].
    apply bind_Ok in Hp as (steps & _ & Hp). apply seq_Ok in Hp as [Hsteps%fail_if_Ok Hp].
    apply bind_Ok in Hp as (depth & _ & Hp). apply bind_Ok in Hp as (wall & _ & Hp).
    apply seq_Ok in Hp as [Hwall%fail_if_Ok Hp]. apply bind_Ok in Hp as (fork & _ & [= <-]).
    apply canonical_paths_Ok in Hpaths as (Hall & Hnd & _); [|constructor|constructor].
    unfold is_empty_str in Hprompt. bprop.
    assert (Permutation (merge_sort String.le paths) paths) as Hperm by apply merge_sort_Permutation.
    split; cbn.
    - done.
    - by apply trimmed_or_nonempty.
    - apply trimmed_or_nonempty. by destruct (workspace_access ==? AccessIsolatedWrite).
    - intros ->. apply fail_if_Ok in Haccess. bprop. split; [|done].
      by destruct allow_isolated_writer.
    - intros ->. apply fail_if_Ok in Haccess. by bprop.
    - by rewrite Hperm.
    - by rewrite Hperm.
    - apply sorted_distinct; [apply StronglySorted_merge_sort; apply _|by rewrite Hperm].
    - intros ts ->. cbn in Htools. rewrite Forall_forall. intros t Ht Hblank.
      apply existsb_false_elem_of with (x := t) in Htools; [|done].
      unfold is_empty_str in Htools. by rewrite bool_decide_true in Htools.
    - done.
    - done. }
  split; [done|]. intros Htext. unfold validate_relative_path_list, validate_unique_non_empty_text.
  assert (NoDup (al_allowed_paths r)) as Hnd by apply Hok.
  rewrite for_each_unique_ok; [|done|by rewrite list_fmap_id|by intros ? _ []%not_elem_of_nil]. cbn.
  rewrite for_each_ok; [cbn|].
  - by rewrite (lk_sorted _ _ Hok).
  - eapply Forall_impl; [apply Hok|]. intros path [Ha Hd]%canonical_path_relative. by rewrite Ha, Hd.
Qed.
