(* ===== verification/AgentControl.v ===== *)
(** The control commands of a run and its shared budget ([crates/runtime/src/agent.rs]): what a
    live process holds besides its run, the reservation of requests, tools and children, and the
    handling of a command with its acknowledgement.

    The channels of the source are what the environment delivers: a wait is a list of inputs, and a
    process that has consumed them all without being decided is stopped there, as a crash or a
    shutdown stops it. *)
From Stdlib Require Import Ascii String.
From S2P Require Import Prelude.
From S2P Require Import Text.
From S2P Require Import Json.
From S2P Require Import Task.
From S2P Require Import Protocol.
From S2P Require Import Validate.
From S2P Require Import Context.
From S2P Require Import Snapshot.
From S2P Require Import Evidence.
From S2P Require Import RunEvents.
From S2P Require Import AgentEvents.
From S2P Require Import Reducer.
From S2P Require Import MemStore.
From S2P Require Import AgentRuntime.

Open Scope string_scope.
Open Scope N_scope.

(** ** The budget *)

(** The counters are atomic [u32]s that a run shares with its children. *)
Record RuntimeBudget := mkRuntimeBudget {
  rb_limits : RunLimits;
  rb_model_requests : N;
  rb_tools : N;
  rb_children : N;
}.
#[export] Instance RuntimeBudget_settable : Settable RuntimeBudget := λ b,
  mkRuntimeBudget (rb_limits b) (rb_model_requests b) (rb_tools b) (rb_children b).

Definition RuntimeBudget_new (limits : RunLimits) (model_requests tools : N) : RuntimeBudget :=
  mkRuntimeBudget limits model_requests tools 0.

(** [fetch_update]: [None] leaves the counter as it is. *)
Definition reserve (counter limit : N) : option N :=
  if counter <? limit then Some (counter + 1) else None.
Definition add_with_limit (counter amount limit : N) : option N :=
  next ← checked_add32 counter amount;
  if next <=? limit then Some next else None.
(** [fetch_sub(amount)] wraps around. *)
Definition give_back (counter amount : N) : N :=
  if amount <=? counter then counter - amount else counter + (U32_MAX + 1) - amount.

Definition reserve_model_request (b : RuntimeBudget) : option RuntimeBudget :=
  next ← reserve (rb_model_requests b) (lim_max_model_requests (rb_limits b));
  Some (b <| rb_model_requests := next |>).
Definition reserve_terminal_model_request := reserve_model_request.
Definition has_unreserved_model_request (b : RuntimeBudget) : bool :=
  rb_model_requests b <? lim_max_model_requests (rb_limits b).
Definition reserve_tool (b : RuntimeBudget) : option RuntimeBudget :=
  next ← reserve (rb_tools b) (lim_max_tool_calls (rb_limits b)); Some (b <| rb_tools := next |>).
Definition reserve_child (b : RuntimeBudget) : option RuntimeBudget :=
  next ← reserve (rb_children b) (lim_max_concurrent_children (rb_limits b));
  Some (b <| rb_children := next |>).
(** The drop of a permit that was not consumed, and of a lease. *)
Definition ModelRequestPermit_drop (b : RuntimeBudget) : RuntimeBudget :=
  b <| rb_model_requests := give_back (rb_model_requests b) 1 |>.
Definition ChildLease_drop (b : RuntimeBudget) : RuntimeBudget :=
  b <| rb_children := give_back (rb_children b) 1 |>.

(** The two atomic updates of [absorb_recovered], and what undoes the first. *)
Definition absorb_model_requests (model_requests : N) (b : RuntimeBudget) : option RuntimeBudget :=
  next ← add_with_limit (rb_model_requests b) model_requests (lim_max_model_requests (rb_limits b));
  Some (b <| rb_model_requests := next |>).
Definition absorb_tools (tools : N) (b : RuntimeBudget) : option RuntimeBudget :=
  next ← add_with_limit (rb_tools b) tools (lim_max_tool_calls (rb_limits b));
  Some (b <| rb_tools := next |>).
Definition unabsorb_model_requests (model_requests : N) (b : RuntimeBudget) : RuntimeBudget :=
  b <| rb_model_requests := give_back (rb_model_requests b) model_requests |>.
Definition absorb_recovered (model_requests tools : N) (b : RuntimeBudget) : RuntimeBudget * bool :=
  match absorb_model_requests model_requests b with
  | None => (b, false)
  | Some b' =>
    match absorb_tools tools b' with
    | Some b'' => (b'', true)
    | None => (unabsorb_model_requests model_requests b', false)
    end
  end.

(** ** Commands *)

Inductive ControlError :=
| CtlRunFinished
| CtlStore (message : string)
| CtlCommandPayloadMismatch
| CtlInteractionNotPending
| CtlInteractionMismatch
| CtlInteractionAlreadyResolved
| CtlInvalidInteractionResponse (message : string)
| CtlCompletionNotPending
| CtlCompletionMismatch
| CtlCompletionStale.
#[export] Instance ControlError_eq_dec : EqDecision ControlError.
Proof. solve_decision. Defined.

(** [ack]: somebody waits for the answer. *)
Inductive ControlCommand :=
| CtlSteer (command_id : CommandId) (content : string) (ack : bool)
| CtlStop (command_id : CommandId) (action : DurableControlAction) (ack : bool)
| CtlResolveInteraction (command_id : CommandId) (interaction_id : InteractionId)
    (response : UserInteractionResponse)
| CtlAcceptCompletion (command_id : CommandId) (acceptance : HostCompletionAcceptance).

Inductive ControlEffect :=
| EffectContinue
| EffectTerminal (terminal : TerminalState)
| EffectInteractionResolved (response : UserInteractionResponse)
| EffectCompletionAccepted.

Definition terminal_for_control (action : DurableControlAction) : TerminalState :=
  match action with ControlInterrupt => Interrupted | ControlCancel => Cancelled end.

Definition command_receipt_result (snapshot : RunSnapshot) (command_id : CommandId)
    (command : DurableCommand) : option (result ControlError N) :=
  receipt ← find_first (λ receipt, cmd_command_id receipt ==? command_id) (sn_command_receipts snapshot);
  Some (if cmd_command receipt ==? command then Ok (cmd_sequence receipt)
        else Err CtlCommandPayloadMismatch).

(** ** The live process *)

(** What a process asks of the outside or tells it, with the durable sequence at that moment. *)
Inductive OutsideCall :=
| CallModel (sequence : N) (attempt_id : AttemptId) (request : ModelRequest)
| CallTool (sequence : N) (operation_id : OperationId) (invocation : ToolInvocation)
| CallVerifier (sequence : N) (verification_id : VerificationId) (invocation : ToolInvocation)
| Acknowledge (command_id : CommandId) (command : DurableCommand) (answer : result ControlError N).

Record LoopWorld (St : Type) := mkLoopWorld {
  lw_store : St;
  lw_budget : RuntimeBudget;
  (** The permit reserved for the last request of the run. *)
  lw_terminal_model_request : bool;
  lw_calls : list OutsideCall;
}.
Arguments mkLoopWorld {St}.
Arguments lw_store {St}.
Arguments lw_budget {St}.
Arguments lw_terminal_model_request {St}.
Arguments lw_calls {St}.
#[export] Instance LoopWorld_settable St : Settable (LoopWorld St) := λ w,
  mkLoopWorld (lw_store w) (lw_budget w) (lw_terminal_model_request w) (lw_calls w).

(** The run appends to the store of its process. *)
#[export] Instance loop_port {St} `{RunPort St} : RunPort (LoopWorld St) := {
  port_append w l p now :=
    let '(st, r) := port_append (lw_store w) l p now in (w <| lw_store := st |>, r);
  port_load w := port_load (lw_store w);
}.

(** The instance above applies to itself: the search needs the type of the store. *)
#[export] Hint Mode RunPort ! : typeclass_instances.

(** A step of the process fails, or the process stops in it. *)
Inductive Halt (E : Type) := Raised (e : E) | Stopped.
Arguments Raised {E} e.
Arguments Stopped {E}.

Section control.
Context `{Codecs} {St : Type} `{RunPort St} (ports : RuntimePorts).
Abbreviation run := (M (LoopWorld St)).

Definition raised {E A} (m : run E A) : run (Halt E) A := or_else Raised m.
(** A panic ends the background task of the run. *)
Definition stop {E A} : run (Halt E) A := throw Stopped.
Definition map_halt {E F A} (f : E → F) (m : run (Halt E) A) : run (Halt F) A :=
  or_else (λ halt, match halt with Raised e => Raised (f e) | Stopped => Stopped end) m.

Definition get_world {E} : run E (LoopWorld St) := λ rt, (rt, Ok (rt_store rt)).
Definition set_world {E} (w : LoopWorld St) : run E unit := λ rt, (rt <| rt_store := w |>, Ok tt).
Definition say {E} (call : OutsideCall) : run E unit :=
  w ← get_world; set_world (w <| lw_calls := (lw_calls w ++ [call])%list |>).
Definition acknowledge {E} (ack : bool) (command_id : CommandId) (command : DurableCommand)
    (answer : result ControlError N) : run E unit :=
  if ack then say (Acknowledge command_id command answer) else mret tt.

(** The publication of the event a command becomes: the answer is the sequence, or the failure of
    the store, which also ends the run. *)
Definition publish_command (event : RuntimeEventKind) (ack : bool) (command_id : CommandId)
    (command : DurableCommand) : run (Halt RuntimeFailure) unit := λ rt,
  match publish ports event rt with
  | (rt, Ok stored) => acknowledge ack command_id command (Ok (sre_sequence stored)) rt
  | (rt, Err failure) =>
    (acknowledge ack command_id command (Err (CtlStore (rp_failure_debug ports failure))) ;;
     throw (Raised failure)) rt
  end.

Definition handle_steer (command_id : CommandId) (content : string) (ack : bool)
    : run (Halt RuntimeFailure) ControlEffect :=
  let command := CommandSteer content in
  snapshot ← get_snapshot;
  match command_receipt_result snapshot command_id command with
  | Some receipt => acknowledge ack command_id command receipt ;; mret EffectContinue
  | None => publish_command (SteerQueued command_id content) ack command_id command ;; mret EffectContinue
  end.

Definition handle_stop (command_id : CommandId) (action : DurableControlAction) (ack : bool)
    : run (Halt RuntimeFailure) ControlEffect :=
  let command := CommandStop action in
  snapshot ← get_snapshot;
  match command_receipt_result snapshot command_id command with
  | Some (Ok sequence) =>
    acknowledge ack command_id command (Ok sequence) ;; mret (EffectTerminal (terminal_for_control action))
  | Some (Err error) => acknowledge ack command_id command (Err error) ;; mret EffectContinue
  | None =>
    match sn_pending_control snapshot with
    | Some pending =>
      acknowledge ack command_id command (Err CtlRunFinished) ;;
      mret (EffectTerminal (terminal_for_control (pc_action pending)))
    | None =>
      publish_command (ControlRequested command_id action) ack command_id command ;;
      mret (EffectTerminal (terminal_for_control action))
    end
  end.

Definition handle_resolve (command_id : CommandId) (interaction_id : InteractionId)
    (response : UserInteractionResponse) : run (Halt RuntimeFailure) ControlEffect :=
  let command := CommandResolveInteraction interaction_id response in
  snapshot ← get_snapshot;
  let refuse error := acknowledge true command_id command (Err error) ;; mret EffectContinue in
  match command_receipt_result snapshot command_id command with
  | Some (Ok sequence) =>
    acknowledge true command_id command (Ok sequence) ;; mret (EffectInteractionResolved response)
  | Some (Err error) => refuse error
  | None =>
    match sn_pending_tool snapshot ≫= pta_interaction with
    | None => refuse CtlInteractionNotPending
    | Some interaction =>
      if uireq_interaction_id (pui_request interaction) !=? interaction_id
      then refuse CtlInteractionMismatch
      else if is_some (pui_response interaction) then refuse CtlInteractionAlreadyResolved
      else match validate_response (pui_request interaction) response with
      | Err message => refuse (CtlInvalidInteractionResponse message)
      | Ok _ =>
        publish_command (InteractionResolved command_id interaction_id response) true command_id command ;;
        mret (EffectInteractionResolved response)
      end
    end
  end.

Definition handle_accept (command_id : CommandId) (acceptance : HostCompletionAcceptance)
    : run (Halt RuntimeFailure) ControlEffect :=
  let command := CommandAcceptCompletion acceptance in
  snapshot ← get_snapshot;
  let refuse error := acknowledge true command_id command (Err error) ;; mret EffectContinue in
  match command_receipt_result snapshot command_id command with
  | Some (Ok sequence) =>
    acknowledge true command_id command (Ok sequence) ;; mret EffectCompletionAccepted
  | Some (Err error) => refuse error
  | None =>
    match HostCompletionAcceptance_validate acceptance with
    | Err _ => refuse CtlCompletionMismatch
    | Ok _ =>
      match sn_pending_completion snapshot with
      | None => refuse CtlCompletionNotPending
      | Some candidate =>
        match rr_task_contract (sn_request snapshot) with
        | None => stop
        | Some contract =>
          if (hca_candidate_id acceptance !=? cc_id candidate)
             || (hca_generation_id acceptance !=? cc_generation_id candidate)
             || (hca_generation_id acceptance !=? contract_generation_id contract)
             || negb (existsb is_host_acceptance (def_acceptance (contract_definition contract)))
          then refuse CtlCompletionMismatch
          else λ rt,
            match reconcile_workspace ports rt with
            | (rt, Err message) =>
              (acknowledge true command_id command (Err (CtlStore message)) ;;
               throw (Raised (StoreFailure message))) rt
            | (rt, Ok _) =>
              (snapshot ← get_snapshot;
               if (hca_workspace_state acceptance !=? cc_workspace_state candidate)
                  || (hca_workspace_state acceptance !=? sn_workspace_state snapshot)
               then refuse CtlCompletionStale
               else
                 let receipt := mkHostAcceptanceReceipt (host_receipt_id_of command_id)
                   (hca_candidate_id acceptance) (hca_generation_id acceptance)
                   (hca_workspace_state acceptance) in
                 publish_command (HostCompletionAccepted command_id receipt) true command_id command ;;
                 mret EffectCompletionAccepted) rt
            end
        end
      end
    end
  end.

Definition handle_control (command : ControlCommand) : run (Halt RuntimeFailure) ControlEffect :=
  match command with
  | CtlSteer command_id content ack => handle_steer command_id content ack
  | CtlStop command_id action ack => handle_stop command_id action ack
  | CtlResolveInteraction command_id interaction_id response =>
    handle_resolve command_id interaction_id response
  | CtlAcceptCompletion command_id acceptance => handle_accept command_id acceptance
  end.

(** The commands that are waiting, until one of them ends the run. *)
Fixpoint drain_controls (commands : list ControlCommand)
    : run (Halt RuntimeFailure) (option TerminalState) :=
  match commands with
  | [] => mret None
  | command :: commands =>
    effect ← handle_control command;
    match effect with
    | EffectTerminal terminal => mret (Some terminal)
    | EffectContinue | EffectInteractionResolved _ | EffectCompletionAccepted => drain_controls commands
    end
  end.

(** The loop publishes one event per queued steer: as much fuel as steers are queued. *)
Fixpoint flush_steers (fuel : nat) : run (Halt RuntimeFailure) unit :=
  snapshot ← get_snapshot;
  match sn_pending_steers snapshot, fuel with
  | [], _ => mret tt
  | _ :: _, O => stop
  | pending :: _, S fuel =>
    raised (publish ports (SteerApplied (ps_command_id pending) (ps_content pending))) ;;
    flush_steers fuel
  end.
Definition flush_pending_steers : run (Halt RuntimeFailure) unit :=
  snapshot ← get_snapshot; flush_steers (length (sn_pending_steers snapshot)).

(** ** Deadlines *)

Definition effective_deadline (request : RunRequest) : option N := rr_deadline_unix_ms request.
Definition deadline_expired (deadline : option N) (now_unix_ms : N) : bool :=
  is_some_and deadline (λ deadline, deadline <=? now_unix_ms).
Definition timeout_terminal (state : RunState) (deadline : option N) : TerminalState :=
  Failed (Timeout_ TimeoutRun
    (default (default 0 ((λ deadline, deadline - rs_started_unix_ms state) <$> deadline))
       (lim_wall_time_ms (rr_limits (sn_request (rs_snapshot state)))))).
Definition bounded_child_deadline (parent_deadline_unix_ms child_wall_time_ms : option N)
    (child_started_unix_ms : N) : option N :=
  let child_deadline := sat_add64 child_started_unix_ms <$> child_wall_time_ms in
  match parent_deadline_unix_ms, child_deadline with
  | Some parent, Some child => Some (N.min parent child)
  | Some parent, None => Some parent
  | None, child => child
  end.
End control.
