(* ===== verification/AgentTurn.v ===== *)
(** One turn of the model ([crates/runtime/src/agent.rs]): the preparation of a request from the
    durable projection, its attempts with their retries, the stream of an attempt, and the
    compaction of the context.

    The model is what it answers: the inputs of each wait come in the order in which the
    [select!] of the source takes them.  An idle timeout or a deadline that the run does not have
    cannot fire. *)
From Stdlib Require Import Ascii String.
From S2P Require Import Prelude.
From S2P Require Import Text.
From S2P Require Import Json.
From S2P Require Import Task.
From S2P Require Import Protocol.
From S2P Require Import Validate.
From S2P Require Import Context.
From S2P Require Import Snapshot.
From S2P Require Import Evidence.
From S2P Require Import RunEvents.
From S2P Require Import AgentEvents.
From S2P Require Import Reducer.
From S2P Require Import MemStore.
From S2P Require Import AgentTools.
From S2P Require Import AgentRuntime.
From S2P Require Import AgentControl.

Open Scope string_scope.
Open Scope N_scope.

(** ** The model port *)

Record ModelPortError := mkModelPortError {
  mpe_code : string;
  mpe_category : ModelErrorCategory;
  mpe_message : string;
  mpe_retryable : bool;
  mpe_retry_after_ms : option N;
  mpe_response : ModelResponseEvidence;
}.
Definition ModelPortError_new (code : string) (category : ModelErrorCategory) (message : string)
    (retryable : bool) : ModelPortError :=
  mkModelPortError code category message retryable None ModelResponseEvidence_default.

Inductive ModelStreamEvent :=
| StreamResponseProgress (evidence : ModelResponseEvidence)
| StreamContentDelta (delta : string)
| StreamReasoningDelta (delta : string)
| StreamCompleted (output : ModelOutput).

(** [PollEvent None]: the stream ended. *)
Inductive ModelEventPoll :=
| PollEvent (event : option (result ModelPortError ModelStreamEvent))
| PollIdle.

(** What a wait hears next: what it waits for, a command, or its deadline. *)
Inductive Input (A : Type) := Heard (a : A) | HeardCommand (command : ControlCommand) | HeardDeadline.
Arguments Heard {A} a.
Arguments HeardCommand {A} command.
Arguments HeardDeadline {A}.

(** The answers of the outside, by the tick of the wait. *)
Record LoopPorts := mkLoopPorts {
  lp_tools : ToolExecutor;
  (** [sleep_until_unix_ms] returned *)
  lp_sleep : nat → list (Input unit);
  lp_open : nat → list (Input (result ModelPortError unit));
  lp_stream : nat → list (Input ModelEventPoll);
}.

Definition model_failure (error : ModelPortError) : RuntimeFailure :=
  ModelFailure (mpe_code error) (mpe_category error) (mpe_message error) (mpe_retryable error).
Definition model_attempt_failure (error : ModelPortError) (response : ModelResponseEvidence)
    : ModelAttemptFailure :=
  mkModelAttemptFailure (mpe_code error) (mpe_category error) (mpe_message error)
    (mpe_retryable error) (mpe_retry_after_ms error) (evidence_replay_safe response)
    (evidence_actionable_output response) response.
Definition model_port_error_from_failure (failure : ModelAttemptFailure) : ModelPortError :=
  mkModelPortError (maf_code failure) (maf_category failure) (maf_message failure)
    (maf_retryable failure) (maf_retry_after_ms failure) (maf_response failure).
Definition context_projection_failure (error : ContextProjectionError) : RuntimeFailure :=
  StoreFailure (ContextProjectionError_to_string error).
Definition latched_model_failure (primary : option ModelPortError) : RuntimeFailure :=
  default (InvalidModelOutput "model failed without a typed primary error")
    (model_failure <$> primary).
Definition invalid_model (message : string) : TerminalState := Failed (InvalidModelOutput message).

(** ** A turn *)

Record ModelTurnOutput := mkModelTurnOutput {
  mto_content : string;
  mto_tool_calls : list ModelToolCall;
  mto_finish_reason : ModelFinishReason;
  mto_advertised_tool_names : list string;
}.
Definition ModelTurnOutput_new (output : ModelOutput) (advertised_tool_names : list string)
    : ModelTurnOutput :=
  mkModelTurnOutput (mo_content output) (mo_tool_calls output) (mo_finish_reason output)
    advertised_tool_names.

Inductive ModelAttemptControl :=
| AttemptOutput (output : ModelOutput)
| AttemptFailed (error : ModelPortError) (response : ModelResponseEvidence)
| AttemptTerminal (terminal : TerminalState).
(** The permit of a planned retry is held by the caller. *)
Inductive ModelFailurePlan :=
| PlanStop (reason : ModelRetryStopReason) (terminal : TerminalState)
| PlanRetry (prepared : PreparedModelRetry).
Inductive ModelTurnControl :=
| TurnOutput (output : ModelTurnOutput)
| TurnTerminal (terminal : TerminalState).

(** The locals of the loop over the stream. *)
Record StreamState := mkStreamState {
  ss_content : string;
  ss_reasoning : string;
  ss_content_delta_seen : bool;
  ss_reasoning_delta_seen : bool;
  ss_response : ModelResponseEvidence;
  ss_content_index : N;
  ss_reasoning_index : N;
}.
#[export] Instance StreamState_settable : Settable StreamState := λ s,
  mkStreamState (ss_content s) (ss_reasoning s) (ss_content_delta_seen s)
    (ss_reasoning_delta_seen s) (ss_response s) (ss_content_index s) (ss_reasoning_index s).
Definition StreamState_start : StreamState :=
  mkStreamState "" "" false false ModelResponseEvidence_default 0 0.
Inductive StreamStep := Stay (state : StreamState) | Leave (control : ModelAttemptControl).

Definition observed_content (response : ModelResponseEvidence) : ModelResponseEvidence :=
  ModelResponseEvidence_merge response
    (mkModelResponseEvidence true true false false false false false false false false false).
Definition observed_reasoning (response : ModelResponseEvidence) : ModelResponseEvidence :=
  ModelResponseEvidence_merge response
    (mkModelResponseEvidence true false true false false false false false false false false).

Section turn.
Context `{Codecs} {St : Type} `{RunPort St} (ports : RuntimePorts) (loop : LoopPorts).
Abbreviation run := (M (LoopWorld St)).

(** ** The permit of a request *)

Definition put_budget {E} (budget : RuntimeBudget) : run E unit :=
  w ← get_world; set_world (w <| lw_budget := budget |>).
Definition drop_permit {E} : run E unit :=
  w ← get_world; put_budget (ModelRequestPermit_drop (lw_budget w)).
(** [budget.reserve_model_request()]: whether a permit is held now. *)
Definition take_permit : run (Halt RuntimeFailure) bool :=
  w ← get_world;
  match reserve_model_request (lw_budget w) with
  | Some budget => put_budget budget ;; mret true
  | None => mret false
  end.
(** [state.terminal_model_request.take()] *)
Definition take_terminal_permit : run (Halt RuntimeFailure) bool :=
  w ← get_world;
  set_world (w <| lw_terminal_model_request := false |>) ;;
  mret (lw_terminal_model_request w).

(** The part of [publish_inner] before the event is applied. *)
Definition append_event (event : RuntimeEventKind) : run RuntimeFailure StoredRuntimeEvent :=
  tick ← next_tick;
  let pending := pending_event ports event tick in
  first ← append_once ports pending;
  match first with
  | Ok stored => mret stored
  | Err (Backend _) =>
    second ← append_once ports pending;
    lift (map_err (λ error, StoreFailure (rp_store_error_text ports error)) second)
  | Err error => throw (StoreFailure (rp_store_error_text ports error))
  end.
(** The permit is consumed once the event is durable, and dropped when it is not. *)
Definition publish_with_model_permit (event : RuntimeEventKind)
    : run RuntimeFailure StoredRuntimeEvent := λ rt,
  match append_event event rt with
  | (rt, Ok stored) => apply_stored ports stored rt
  | (rt, Err failure) => (drop_permit ;; throw failure) rt
  end.

(** ** Waiting *)

(** The effect of a command in a wait that only a terminal one ends. *)
Definition wait_command (command : ControlCommand)
    : run (Halt RuntimeFailure) (option TerminalState) :=
  effect ← handle_control ports command;
  mret match effect with
       | EffectTerminal terminal => Some terminal
       | EffectContinue | EffectInteractionResolved _ | EffectCompletionAccepted => None
       end.
Definition timed_out (deadline : option N) : run (Halt RuntimeFailure) TerminalState :=
  state ← get_state; mret (timeout_terminal state deadline).

Fixpoint wait_until (not_before_unix_ms : N) (deadline : option N) (inputs : list (Input unit))
    : run (Halt RuntimeFailure) (option TerminalState) :=
  tick ← next_tick;
  if not_before_unix_ms <=? rp_clock ports tick then mret None
  else match inputs with
  | [] => stop
  | Heard _ :: inputs => wait_until not_before_unix_ms deadline inputs
  | HeardCommand command :: inputs =>
    terminal ← wait_command command;
    match terminal with
    | Some terminal => mret (Some terminal)
    | None => wait_until not_before_unix_ms deadline inputs
    end
  | HeardDeadline :: inputs =>
    if is_some deadline then terminal ← timed_out deadline; mret (Some terminal)
    else wait_until not_before_unix_ms deadline inputs
  end.
Definition wait_for_model_retry (deadline : option N) (pending : PendingModelAction)
    : run (Halt RuntimeFailure) (option TerminalState) :=
  match pma_retry_schedule pending with
  | None => mret None
  | Some schedule =>
    tick ← next_tick;
    wait_until (prs_not_before_unix_ms schedule) deadline (lp_sleep loop tick)
  end.

(** ** One attempt *)

(** [Err]: the attempt is over before there is a stream. *)
Fixpoint open_stream (deadline : option N) (inputs : list (Input (result ModelPortError unit)))
    : run (Halt RuntimeFailure) (option ModelAttemptControl) :=
  match inputs with
  | [] => stop
  | Heard (Ok _) :: _ => mret None
  | Heard (Err error) :: _ => mret (Some (AttemptFailed error (mpe_response error)))
  | HeardCommand command :: inputs =>
    terminal ← wait_command command;
    match terminal with
    | Some terminal => mret (Some (AttemptTerminal terminal))
    | None => open_stream deadline inputs
    end
  | HeardDeadline :: inputs =>
    if is_some deadline then terminal ← timed_out deadline; mret (Some (AttemptTerminal terminal))
    else open_stream deadline inputs
  end.

Definition on_completed (attempt_id : AttemptId) (s : StreamState) (output : ModelOutput)
    : run (Halt RuntimeFailure) ModelAttemptControl :=
  let completed_reasoning := default "" (mo_reasoning_content output) in
  if ss_content_delta_seen s && (ss_content s !=? mo_content output)
  then mret (AttemptTerminal (invalid_model
         "streamed content differs from the atomic completed content"))
  else if ss_reasoning_delta_seen s && (ss_reasoning s !=? completed_reasoning)
  then mret (AttemptTerminal (invalid_model
         "streamed reasoning differs from the atomic completed reasoning"))
  else
    (if negb (ss_content_delta_seen s) && negb (is_empty_str (mo_content output))
     then raised (publish ports (ContentDelta attempt_id (sat_add64 (ss_content_index s) 1)
                                   (mo_content output))) ;; mret tt
     else mret tt) ;;
    (if negb (ss_reasoning_delta_seen s) && negb (is_empty_str completed_reasoning)
     then raised (publish ports (ReasoningDelta attempt_id (sat_add64 (ss_reasoning_index s) 1)
                                   completed_reasoning)) ;; mret tt
     else mret tt) ;;
    accounting ← cumulative_accounting ports false;
    raised (publish ports (ModelResponseCommitted attempt_id output accounting)) ;;
    mret (AttemptOutput output).

Definition on_model_event (attempt_id : AttemptId) (s : StreamState) (poll : ModelEventPoll)
    : run (Halt RuntimeFailure) StreamStep :=
  match poll with
  | PollIdle =>
    snapshot ← get_snapshot;
    mret match lim_model_event_idle_ms (rr_limits (sn_request snapshot)) with
    | None => Stay s
    | Some timeout_ms => Leave (AttemptFailed
        (ModelPortError_new "stream_stall" CategoryStreamStall
           ("model stream produced no canonical event for " ++ show_N timeout_ms ++ "ms") true)
        (ss_response s))
    end
  | PollEvent (Some (Ok (StreamResponseProgress evidence))) =>
    mret (Stay (s <| ss_response := ModelResponseEvidence_merge (ss_response s) evidence |>))
  | PollEvent (Some (Ok (StreamContentDelta delta))) =>
    if is_empty_str delta then mret (Stay s)
    else
      let index := sat_add64 (ss_content_index s) 1 in
      raised (publish ports (ContentDelta attempt_id index delta)) ;;
      mret (Stay (s <| ss_response := observed_content (ss_response s) |>
                    <| ss_content_delta_seen := true |>
                    <| ss_content := ss_content s ++ delta |>
                    <| ss_content_index := index |>))
  | PollEvent (Some (Ok (StreamReasoningDelta delta))) =>
    if is_empty_str delta then mret (Stay s)
    else
      let index := sat_add64 (ss_reasoning_index s) 1 in
      raised (publish ports (ReasoningDelta attempt_id index delta)) ;;
      mret (Stay (s <| ss_response := observed_reasoning (ss_response s) |>
                    <| ss_reasoning_delta_seen := true |>
                    <| ss_reasoning := ss_reasoning s ++ delta |>
                    <| ss_reasoning_index := index |>))
  | PollEvent (Some (Ok (StreamCompleted output))) =>
    control ← on_completed attempt_id s output; mret (Leave control)
  | PollEvent (Some (Err error)) =>
    mret (Leave (AttemptFailed error
            (ModelResponseEvidence_merge (ss_response s) (mpe_response error))))
  | PollEvent None =>
    mret (Leave (AttemptFailed
      (ModelPortError_new "incomplete_model_stream" CategoryProtocol
         "model stream ended without a completed event" true) (ss_response s)))
  end.

Fixpoint read_stream (attempt_id : AttemptId) (deadline : option N)
    (inputs : list (Input ModelEventPoll)) (s : StreamState)
    : run (Halt RuntimeFailure) ModelAttemptControl :=
  match inputs with
  | [] => stop
  | Heard poll :: inputs =>
    step ← on_model_event attempt_id s poll;
    match step with
    | Leave control => mret control
    | Stay s => read_stream attempt_id deadline inputs s
    end
  | HeardCommand command :: inputs =>
    terminal ← wait_command command;
    match terminal with
    | Some terminal => mret (AttemptTerminal terminal)
    | None => read_stream attempt_id deadline inputs s
    end
  | HeardDeadline :: inputs =>
    if is_some deadline then terminal ← timed_out deadline; mret (AttemptTerminal terminal)
    else read_stream attempt_id deadline inputs s
  end.

Definition execute_model_attempt (attempt_id : AttemptId) (request : ModelRequest)
    (deadline : option N) : run (Halt RuntimeFailure) ModelAttemptControl :=
  stored ← raised (publish ports (ModelRequestInFlight attempt_id));
  say (CallModel (sre_sequence stored) attempt_id request) ;;
  tick ← next_tick;
  early ← open_stream deadline (lp_open loop tick);
  match early with
  | Some control => mret control
  | None => tick ← next_tick; read_stream attempt_id deadline (lp_stream loop tick) StreamState_start
  end.

(** ** Failures and retries *)

Definition commit_model_failure (attempt_id : AttemptId) (error : ModelPortError)
    (response : ModelResponseEvidence) (retry : ModelRetryDecision) (permit : bool)
    : run (Halt RuntimeFailure) unit :=
  accounting ← cumulative_accounting ports false;
  let event :=
    ModelRequestFailed attempt_id (model_attempt_failure error response) accounting retry in
  raised (if permit then publish_with_model_permit event else publish ports event) ;;
  mret tt.

Definition primary_stop_reason (max_model_retries : N) (request : ModelRequest)
    (primary : option ModelPortError) (error : ModelPortError) (response : ModelResponseEvidence)
    : option ModelRetryStopReason :=
  let differs_from_primary := is_some_and primary (λ latched,
    (mpe_code latched !=? mpe_code error) || (mpe_category latched !=? mpe_category error)) in
  if evidence_actionable_output response then Some StopActionableOutput
  else if negb (evidence_replay_safe response) then Some StopUnsafeReplay
  else if negb (mpe_retryable error) then Some StopNotRetryable
  else if differs_from_primary then Some StopFailureChanged
  else if max_model_retries <=? mr_attempt request then Some StopRetryLimitReached
  else None.

(** The plan and the latched primary failure.  The branch of the source for a stop reason
    [ModelRequestBudgetExceeded] of the first group is never taken. *)
Definition plan_model_failure (request : ModelRequest) (primary : option ModelPortError)
    (error : ModelPortError) (response : ModelResponseEvidence)
    : run (Halt RuntimeFailure) (option ModelPortError * ModelFailurePlan) :=
  snapshot ← get_snapshot;
  let limits := rr_limits (sn_request snapshot) in
  let latched := Some (default error primary) in
  let exceeded := Failed (ModelRequestBudgetExceeded (lim_max_model_requests limits)) in
  match primary_stop_reason (lim_max_model_retries limits) request primary error response with
  | Some reason =>
    mret (latched, PlanStop reason
      (if reason ==? StopModelRequestBudgetExceeded then exceeded
       else Failed (latched_model_failure latched)))
  | None =>
    permit ← take_permit;
    if negb permit then mret (latched, PlanStop StopModelRequestBudgetExceeded exceeded)
    else
      let next_request := request <| mr_attempt := sat_add32 (mr_attempt request) 1 |> in
      clock_tick ← next_tick;
      let decision_unix_ms := rp_clock ports clock_tick in
      let backoff_ms :=
        model_retry_backoff_ms (mr_attempt next_request) (mpe_retry_after_ms error) in
      id_tick ← next_tick;
      mret (latched, PlanRetry (mkPreparedModelRetry (rp_uuid ports id_tick) next_request
              decision_unix_ms backoff_ms (sat_add64 decision_unix_ms backoff_ms)
              (lim_max_model_retries limits)))
  end.

(** ** The request of a turn *)

Definition compact_context (tools : list ToolDefinition) : run (Halt RuntimeFailure) unit :=
  snapshot ← get_snapshot;
  preparation ← raised (lift (map_err context_projection_failure
    (prepare_compaction (context_input snapshot tools) (rr_context_policy (sn_request snapshot)))));
  match preparation with
  | CompactionNotNeeded _ => mret tt
  | CompactionLimitExceeded estimated_tokens hard_input_tokens =>
    throw (Raised (ContextLimitExceeded estimated_tokens hard_input_tokens))
  | CompactionLocal projection before_tokens after_tokens =>
    raised (publish ports (ContextCompactionCommitted projection tools (sn_accounting snapshot)
                             before_tokens after_tokens)) ;;
    mret tt
  end.

Definition current_context (tools : list ToolDefinition) : run (Halt RuntimeFailure) EffectiveContext :=
  snapshot ← get_snapshot;
  raised (lift (map_err context_projection_failure (effective_context (context_input snapshot tools)))).

Definition request_tools (snapshot : RunSnapshot) (terminal_turn : bool)
    : run (Halt RuntimeFailure) (list ToolDefinition) :=
  if terminal_turn then mret []
  else
    let request := sn_request snapshot in
    match for_request request with
    | None => stop
    | Some authority =>
      mret (tool_definitions (lp_tools loop) (rr_tool_policy request)
              (contract_definition <$> rr_task_contract request) authority
              (actor_depth (rr_actor request)) (lim_max_depth (rr_limits request))
              (env_interactive (rr_environment request)))
    end.

(** [inl]: the context does not fit even after its compaction. *)
Definition build_request (request_number : N) (terminal_turn : bool)
    : run (Halt RuntimeFailure) (TerminalState + ModelRequest) :=
  snapshot ← get_snapshot;
  tools ← request_tools snapshot terminal_turn;
  context ← current_context tools;
  let hard := hard_input_tokens (rr_context_policy (sn_request snapshot)) in
  context ← (if hard <? ec_estimated_tokens context
             then compact_context tools ;; current_context tools
             else mret context);
  if hard <? ec_estimated_tokens context
  then mret (inl (Failed (ContextLimitExceeded (ec_estimated_tokens context) hard)))
  else
    state ← get_state;
    let request := sn_request (rs_snapshot state) in
    mret (inr (mkModelRequest (state_run_id state) (rr_parent_run_id request) (rr_actor request)
      (rr_model request) (ec_system_prompt context) (ec_messages context) tools
      (rr_reasoning_effort request) (rr_max_output_tokens request) (rr_streaming request)
      request_number 0)).

(** Whether a permit is held, and whether it is the one of the terminal turn. *)
Definition admit_request (request_number : N) : run (Halt RuntimeFailure) (bool * bool) :=
  snapshot ← get_snapshot;
  if lim_max_turns (rr_limits (sn_request snapshot)) <=? request_number
  then permit ← take_terminal_permit; mret (permit, true)
  else
    permit ← take_permit;
    match permit with
    | true => mret (true, false)
    | false => permit ← take_terminal_permit; mret (permit, true)
    end.

(** A new request: it is durable before it is sent; the permit of a turn that ends before is
    dropped. *)
Definition publish_request (built : TerminalState + ModelRequest)
    : run (Halt RuntimeFailure) (TerminalState + AttemptId * ModelRequest) :=
  match built with
  | inl terminal => drop_permit ;; mret (inl terminal)
  | inr request =>
    tick ← next_tick;
    let attempt_id := rp_uuid ports tick in
    raised (publish_with_model_permit (ModelRequestPrepared attempt_id request)) ;;
    mret (inr (attempt_id, request))
  end.
Definition prepare_request (request_number : N)
    : run (Halt RuntimeFailure) (TerminalState + AttemptId * ModelRequest) :=
  '(permit, terminal_turn) ← admit_request request_number;
  if negb permit then
    snapshot ← get_snapshot;
    mret (inl (Failed (ModelRequestBudgetExceeded
            (lim_max_model_requests (rr_limits (sn_request snapshot))))))
  else λ rt,
    match build_request request_number terminal_turn rt with
    | (rt, Ok built) => publish_request built rt
    | (rt, Err halt) => (drop_permit ;; throw halt) rt
    end.

(** ** The loop over the attempts *)

Definition next_attempt (deadline : option N) (request_number : N)
    (prepared : option PendingModelAction)
    : run (Halt RuntimeFailure) (TerminalState + AttemptId * ModelRequest) :=
  match prepared with
  | Some pending =>
    terminal ← wait_for_model_retry deadline pending;
    mret match terminal with
         | Some terminal => inl terminal
         | None => inr (pma_attempt_id pending, pma_request pending)
         end
  | None => prepare_request request_number
  end.

(** [inl]: the turn is over; [inr]: the retry that is durable now, with the latched failure. *)
Definition one_attempt (deadline : option N) (request_number : N)
    (primary : option ModelPortError) (prepared : option PendingModelAction)
    : run (Halt RuntimeFailure) (ModelTurnControl + option ModelPortError * PendingModelAction) :=
  next ← next_attempt deadline request_number prepared;
  match next with
  | inl terminal => mret (inl (TurnTerminal terminal))
  | inr (attempt_id, request) =>
    control ← execute_model_attempt attempt_id request deadline;
    match control with
    | AttemptOutput output =>
      mret (inl (TurnOutput (ModelTurnOutput_new output (td_name <$> mr_tools request))))
    | AttemptTerminal terminal => mret (inl (TurnTerminal terminal))
    | AttemptFailed error response =>
      '(primary, plan) ← plan_model_failure request primary error response;
      match plan with
      | PlanStop reason terminal =>
        commit_model_failure attempt_id error response (RetryStop reason) false ;;
        mret (inl (TurnTerminal terminal))
      | PlanRetry prepared =>
        commit_model_failure attempt_id error response (RetryPrepared prepared) true ;;
        snapshot ← get_snapshot;
        match sn_pending_model snapshot with
        | None => throw (Raised (StoreFailure
            "committed retry did not project a pending model request"))
        | Some pending => mret (inr (primary, pending))
        end
      end
    end
  end.

Fixpoint attempts (fuel : nat) (deadline : option N) (request_number : N)
    (primary : option ModelPortError) (prepared : option PendingModelAction)
    : run (Halt RuntimeFailure) ModelTurnControl :=
  match fuel with
  | O => stop
  | S fuel =>
    step ← one_attempt deadline request_number primary prepared;
    match step with
    | inl control => mret control
    | inr (primary, pending) => attempts fuel deadline request_number primary (Some pending)
    end
  end.

(** A request is attempted at most once more than it may be retried. *)
Definition attempts_fuel (snapshot : RunSnapshot) : nat :=
  S (N.to_nat (lim_max_model_retries (rr_limits (sn_request snapshot)))).

Definition model_turn (deadline : option N) (prepared : option PendingModelAction)
    : run (Halt RuntimeFailure) ModelTurnControl :=
  snapshot ← get_snapshot;
  let request_number := match prepared with
                        | Some pending => mr_request_number (pma_request pending)
                        | None => sat_add32 (sn_local_turns snapshot) 1
                        end in
  let primary_error :=
    pending ← prepared; failure ← pma_primary_failure pending;
    Some (model_port_error_from_failure failure) in
  attempts (attempts_fuel snapshot) deadline request_number primary_error prepared.
End turn.
