(* ===== verification/AgentProcess.v ===== *)
(** The logic of a live process: what its log says of commands and requests, what holds of it at
    every moment, and the rules by which the steps of the runtime loop are proved. *)
From Stdlib Require Import Ascii String.
From S2P Require Import Prelude.
From S2P Require Import Text.
From S2P Require Import Json.
From S2P Require Import Task.
From S2P Require Import Protocol.
From S2P Require Import Validate.
From S2P Require Import Context.
From S2P Require Import Snapshot.
From S2P Require Import Evidence.
From S2P Require Import RunEvents.
From S2P Require Import AgentEvents.
From S2P Require Import Reducer.
From S2P Require Import Steps.
From S2P Require Import LogFacts.
From S2P Require Import ToolFacts.
From S2P Require Import ModelFacts.
From S2P Require Import MemStore.
From S2P Require Import MemStoreFacts.
From S2P Require Import AgentRuntime.
From S2P Require Import AgentRuntimeFacts.
From S2P Require Import AgentWriterFacts.
From S2P Require Import AgentControl.

Open Scope string_scope.
Open Scope list_scope.
Open Scope N_scope.

(** ** What the log says *)

(** The command an event makes durable. *)
Definition event_command (ev : RuntimeEventKind) : option (CommandId * DurableCommand) :=
  match ev with
  | SteerQueued command_id content => Some (command_id, CommandSteer content)
  | ControlRequested command_id action => Some (command_id, CommandStop action)
  | InteractionResolved command_id interaction_id response =>
    Some (command_id, CommandResolveInteraction interaction_id response)
  | HostCompletionAccepted command_id receipt =>
    Some (command_id, CommandAcceptCompletion (mkHostCompletionAcceptance
      (har_candidate_id receipt) (har_generation_id receipt) (har_workspace_state receipt)))
  | _ => None
  end.
Definition event_receipt (e : StoredRuntimeEvent) : option CommandReceipt :=
  '(command_id, command) ← event_command (sre_event e);
  Some (mkCommandReceipt command_id (sre_sequence e) command).

(** The request an event makes durable. *)
Definition event_request (ev : RuntimeEventKind) : option (AttemptId * ModelRequest) :=
  match ev with
  | ModelRequestPrepared attempt_id request => Some (attempt_id, request)
  | ModelRequestFailed _ _ _ (RetryPrepared prepared) =>
    Some (pmr_attempt_id prepared, pmr_request prepared)
  | _ => None
  end.
Definition logged_requests (log : list StoredRuntimeEvent) : list (AttemptId * ModelRequest) :=
  omap (λ e, event_request (sre_event e)) log.

(** The events that no step of a model attempt publishes. *)
Definition quiet_event (ev : RuntimeEventKind) : bool :=
  match ev with
  | RunCreated _ | Terminal _ | ModelRequestPrepared _ _ | ModelRequestInFlight _
  | ModelRequestFailed _ _ _ _ | ModelResponseCommitted _ _ _ | ContentDelta _ _ _
  | ReasoningDelta _ _ _ => false
  | ChildFinished _ _ _ _ => false
  | _ => true
  end.

Section log_facts.
Context `{Codecs}.
Implicit Types (s : RunSnapshot) (e : StoredRuntimeEvent) (log : list StoredRuntimeEvent).

Lemma dispatch_receipts s run_id n ev s' :
  dispatch s run_id n ev = Ok s' →
  sn_command_receipts s' = sn_command_receipts s ++
    from_option (λ p, [mkCommandReceipt p.1 n p.2]) [] (event_command ev).
Proof.
  intros Hd. step_cases ev Hd; cbn [event_command from_option]; rewrite ?app_nil_r;
    try same_field; done.
Qed.

Lemma logged_receipts log s :
  reduce_events log = Ok s → sn_command_receipts s = omap event_receipt log.
Proof.
  intros Hs%reachable_reduce. induction Hs as [first request Hv|log s e s' Hr IH Hs].
  - apply validate_run_created_Ok in Hv as (Hev & _). cbn. unfold event_receipt. by rewrite Hev.
  - apply run_step_inv in Hs as (r & s1 & _ & Hd & ->). rewrite omap_app, <- IH. cbn.
    rewrite (dispatch_receipts _ _ _ _ _ Hd). f_equal. unfold event_receipt.
    by destruct (event_command (sre_event e)) as [[]|].
Qed.

Lemma logged_receipts_NoDup log s :
  reduce_events log = Ok s → NoDup (cmd_command_id <$> sn_command_receipts s).
Proof.
  intros Hs%reachable_reduce. induction Hs as [first request Hv|log s e s' Hr IH Hs].
  - constructor.
  - apply run_step_inv in Hs as (r & s1 & _ & Hd & ->). cbn.
    apply dispatch_command_receipts in Hd as [->|(c & cmd & Hc & ->)]; [done|].
    rewrite fmap_app, NoDup_app. split_and!; [done| |apply NoDup_singleton].
    by intros x Hx ->%list_elem_of_singleton.
Qed.

(** The receipt of a command that is in the log. *)
Lemma logged_command_receipt log s e command_id command :
  reduce_events log = Ok s → e ∈ log →
  event_command (sre_event e) = Some (command_id, command) →
  command_receipt_result s command_id command = Some (Ok (sre_sequence e)).
Proof.
  intros Hs He Hev. pose proof (logged_receipts _ _ Hs) as Hl.
  pose proof (logged_receipts_NoDup _ _ Hs) as Hnd.
  assert (mkCommandReceipt command_id (sre_sequence e) command ∈ sn_command_receipts s) as Hin.
  { rewrite Hl. apply list_elem_of_omap. exists e. split; [done|]. unfold event_receipt. by rewrite Hev. }
  apply list_elem_of_lookup in Hin as [i Hi]. unfold command_receipt_result.
  pose proof (find_first_unique cmd_command_id _ i _ command_id Hnd Hi eq_refl) as Hf.
  unfold CommandId in *. rewrite Hf. cbn. by rewrite bool_decide_true.
Qed.

Lemma dispatch_requests s run_id n ev s' :
  dispatch s run_id n ev = Ok s' →
  match ev with
  | ChildFinished _ _ _ _ => True
  | _ => sn_runtime_model_requests s' =
      match event_request ev with
      | Some _ => sat_add32 (sn_runtime_model_requests s) 1
      | None => sn_runtime_model_requests s
      end
  end.
Proof. intros Hd. step_cases ev Hd; cbn [event_request]; try exact I; try same_field.
Qed.

Lemma dispatch_quiet s run_id n ev s' :
  dispatch s run_id n ev = Ok s' → quiet_event ev = true →
  sn_pending_model s' = sn_pending_model s ∧
  sn_runtime_model_requests s' = sn_runtime_model_requests s.
Proof.
  intros Hd Hq. pose proof (dispatch_model_frame _ _ _ _ _ Hd) as Hm.
  pose proof (dispatch_requests _ _ _ _ _ Hd) as Hr.
  destruct ev; try discriminate Hq; destruct Hm; by split.
Qed.
End log_facts.

(** ** The live process *)

(** What a run does outside: a model attempt, the execution of a tool, a run of the verifier. *)
Inductive Action :=
| ModelAction (attempt_id : AttemptId)
| ToolAction (operation_id : OperationId)
| VerifierAction (verification_id : VerificationId).

(** The action an event starts, and the one a call begins. *)
Definition event_action (ev : RuntimeEventKind) : option Action :=
  match ev with
  | ModelRequestInFlight attempt_id => Some (ModelAction attempt_id)
  | ToolExecutionStarted operation_id => Some (ToolAction operation_id)
  | HostVerificationStarted verification_id => Some (VerifierAction verification_id)
  | _ => None
  end.
Definition call_action (call : OutsideCall) : option (N * Action) :=
  match call with
  | CallModel n attempt_id _ => Some (n, ModelAction attempt_id)
  | CallTool n operation_id _ => Some (n, ToolAction operation_id)
  | CallVerifier n verification_id _ => Some (n, VerifierAction verification_id)
  | Acknowledge _ _ _ => None
  end.

(** The actions of a process, and the starts of a log they answer to. *)
Definition action_calls (calls : list OutsideCall) : list (N * Action) := omap call_action calls.
Definition logged_starts (log : list StoredRuntimeEvent) : list (N * Action) :=
  omap (λ e, (sre_sequence e,.) <$> event_action (sre_event e)) log.

(** The snapshot of the durable log grants the tool call: the pending operation resolves to exactly
    this invocation, and a tool that the Host does not handle itself has a decision that binds it
    and permits it. *)
Definition tool_granted `{Codecs} (s : RunSnapshot) (operation_id : OperationId)
    (invocation : ToolInvocation) : Prop :=
  ∃ p, sn_pending_tool s = Some p ∧ pta_operation_id p = operation_id ∧
    rte_invocation (resolve_tool_execution (rr_task_contract (sn_request s)) (pta_invocation p))
      = Ok invocation ∧
    (is_host_tool (ti_name (pta_invocation p)) = true ∨
     ∃ d, pta_authorization p = Some d ∧ binds_invocation s (pta_invocation p) d ∧
       permits d (∃ i, pta_interaction p = Some i ∧ pui_response i = Some ResponseApproved)).

(** The snapshot of the durable log asks for the run of the verifier: the pending verification is of
    the pending candidate, in its workspace state, with a verifier that the contract has frozen, and
    the call is what that verifier says. *)
Definition verifier_granted `{Codecs} (s : RunSnapshot) (verification_id : VerificationId)
    (invocation : ToolInvocation) : Prop :=
  ∃ p contract, sn_pending_host_verification s = Some p ∧
    phv_verification_id p = verification_id ∧ phv_state p = Prepared ∧
    sn_pending_completion s = Some (phv_candidate p) ∧
    phv_workspace_state_before p = sn_workspace_state s ∧
    rr_task_contract (sn_request s) = Some contract ∧
    (∃ description policy, AcceptVerifier (phv_acceptance_id p) description policy (phv_verifier p)
       ∈ def_acceptance (contract_definition contract)) ∧
    ti_call_id invocation = ("host:" ++ verification_id)%string ∧
    ti_name invocation = spec_verifier_id (phv_verifier p) ∧
    ti_arguments invocation = ToolArguments_from_value (spec_parameters (phv_verifier p)).

(** What is behind a call: the start of its action, durable after what grants it - the request of
    the attempt, the permission of the tool, the verification that was prepared - or the durable
    command that was acknowledged. *)
Definition told `{Codecs} (log : list StoredRuntimeEvent) (call : OutsideCall) : Prop :=
  match call with
  | CallModel n a request => ∃ before e after, log = before ++ e :: after ∧
      sre_sequence e = n ∧ sre_event e = ModelRequestInFlight a ∧
      (a, request) ∈ logged_requests before
  | CallTool n operation_id invocation => ∃ before e after s, log = before ++ e :: after ∧
      sre_sequence e = n ∧ sre_event e = ToolExecutionStarted operation_id ∧
      reduce_events before = Ok s ∧ tool_granted s operation_id invocation
  | CallVerifier n verification_id invocation => ∃ before e after s, log = before ++ e :: after ∧
      sre_sequence e = n ∧ sre_event e = HostVerificationStarted verification_id ∧
      reduce_events before = Ok s ∧ verifier_granted s verification_id invocation
  | Acknowledge command_id command (Ok n) => ∃ e, e ∈ log ∧ sre_sequence e = n ∧
      event_command (sre_event e) = Some (command_id, command)
  | Acknowledge _ _ (Err _) => True
  end.

Lemma told_app `{Codecs} log more call : told log call → told (log ++ more) call.
Proof.
  destruct call as [n a r|n op i|n v i|c cmd [n|]]; cbn; try done.
  - intros (before & e & after & -> & ?). exists before, e, (after ++ more).
    by rewrite <- app_assoc.
  - intros (before & e & after & s & -> & ?). exists before, e, (after ++ more), s.
    by rewrite <- app_assoc.
  - intros (before & e & after & s & -> & ?). exists before, e, (after ++ more), s.
    by rewrite <- app_assoc.
  - intros (e & ? & ?). exists e. split; [|done]. apply elem_of_app. by left.
Qed.
Lemma Forall_told_app `{Codecs} log more calls :
  Forall (told log) calls → Forall (told (log ++ more)) calls.
Proof. intros. eapply Forall_impl; [done|]. intros. by apply told_app. Qed.

Section loop_store.
Context `{Codecs} {St : Type} `{!RunPort St}.

Lemma loop_append_eq (w : LoopWorld St) l p now :
  port_append w l p now =
  (w <| lw_store := (port_append (lw_store w) l p now).1 |>, (port_append (lw_store w) l p now).2).
Proof. cbn. by destruct (port_append _ _ _ _). Qed.

#[export] Instance loop_port_laws `{!RunPortLaws St} : RunPortLaws (LoopWorld St).
Proof.
  refine {| port_holds := λ w : LoopWorld St, port_holds (lw_store w) |}.
  - intros w l log. apply port_holds_log.
  - intros w l log p now w' r Hh. rewrite loop_append_eq. intros [= <- <-].
    eapply port_append_law; [exact Hh|]. apply surjective_pairing.
Defined.
#[export] Instance loop_port_available `{!RunPortLaws St} `{!RunPortAvailable St} :
  RunPortAvailable (LoopWorld St).
Proof.
  split. intros w l log s p now s' Hh Hs Hf Ha.
  destruct (port_available (lw_store w) l log s p now s') as (st' & Hp & Hh'); try done.
  exists (w <| lw_store := st' |>). by rewrite loop_append_eq, Hp.
Defined.
End loop_store.

Section process.
Context `{Codecs} {St : Type} `{!RunPort St} `{!RunPortLaws St} (ports : RuntimePorts).
Context (uuid_fresh : ∀ n m, rp_uuid ports n = rp_uuid ports m → n = m).
Context (uuid_random : ∀ n, rp_uuid ports n ≠ RuntimeEventId_terminal).
Context (limits : RunLimits) (older : list (N * Action)).
Abbreviation run := (M (LoopWorld St)).
Abbreviation world := (Rt (LoopWorld St)).
Abbreviation runlog := (list StoredRuntimeEvent).
Implicit Types (rt : world) (log : runlog).

(** What holds of a process at every moment, also after it failed or stopped. *)
Record durable rt log : Prop := {
  du_holds : port_holds (lw_store (rt_store rt)) (rs_lease (rt_state rt)) log;
  du_told : Forall (told log) (lw_calls (rt_store rt));
  du_starts : (older ++ action_calls (lw_calls (rt_store rt))) `prefix_of` logged_starts log;
  du_requests : N.of_nat (length (logged_requests log)) ≤ lim_max_model_requests limits;
}.

(** What holds between the steps of a process that goes on. *)
Record safe rt log : Prop := {
  sf_live : live ports rt log;
  sf_open : sn_terminal (rt_snapshot rt) = None;
  sf_told : Forall (told log) (lw_calls (rt_store rt));
  sf_starts : logged_starts log = older ++ action_calls (lw_calls (rt_store rt));
  sf_requests : N.of_nat (length (logged_requests log)) ≤ lim_max_model_requests limits;
  sf_limits : rb_limits (lw_budget (rt_store rt)) = limits;
}.

Lemma safe_durable rt log : safe rt log → durable rt log.
Proof. intros [[Hh _ _ _] _ ? Hs ? _]. split; try done. by rewrite Hs. Qed.

(** The steps that no model attempt takes: they leave the request and its budget alone. *)
Record quiet rt log rt' log' : Prop := {
  qu_log : ∃ more, log' = log ++ more ∧ Forall (λ e, quiet_event (sre_event e) = true) more;
  qu_request : sn_request (rt_snapshot rt') = sn_request (rt_snapshot rt);
  qu_pending : sn_pending_model (rt_snapshot rt') = sn_pending_model (rt_snapshot rt);
  qu_requests : sn_runtime_model_requests (rt_snapshot rt') =
                sn_runtime_model_requests (rt_snapshot rt);
  qu_budget : lw_budget (rt_store rt') = lw_budget (rt_store rt);
  qu_terminal : lw_terminal_model_request (rt_store rt') =
                lw_terminal_model_request (rt_store rt);
}.
Lemma quiet_id rt log : quiet rt log rt log.
Proof. split; try done. exists []. by rewrite app_nil_r. Qed.
Lemma quiet_trans rt1 log1 rt2 log2 rt3 log3 :
  quiet rt1 log1 rt2 log2 → quiet rt2 log2 rt3 log3 → quiet rt1 log1 rt3 log3.
Proof.
  intros [(m1 & -> & ?)] [(m2 & -> & ?)]. split; [|congruence..].
  exists (m1 ++ m2). rewrite app_assoc. split; [done|]. by apply Forall_app.
Qed.

Definition steady (P : world → runlog → Prop) : Prop :=
  ∀ rt log rt' log', quiet rt log rt' log' → P rt log → P rt' log'.

(** From a state with [P], the step ends in a state with [Q] or fails, and all of it is durable. *)
Definition triple {E A} (P : world → runlog → Prop) (m : run E A)
    (Q : A → world → runlog → Prop) : Prop :=
  ∀ rt log rt' r, safe rt log → P rt log → m rt = (rt', r) →
  ∃ log', log `prefix_of` log' ∧ durable rt' log' ∧
    match r with Ok a => safe rt' log' ∧ Q a rt' log' | Err _ => True end.
Definition quietly {E A} (m : run E A) : Prop := ∀ P, steady P → triple P m (λ _, P).

(** ** The rules *)

Lemma triple_ret {E A} (P : world → runlog → Prop) (Q : A → world → runlog → Prop) a :
  (∀ rt log, P rt log → Q a rt log) → triple (E := E) P (mret a) Q.
Proof.
  intros HQ rt log rt' r Hs HP [= <- <-]. exists log. split; [done|].
  split; [by apply safe_durable|]. auto.
Qed.
Lemma triple_throw {E A} P (e : E) (Q : A → world → runlog → Prop) : triple P (throw e) Q.
Proof.
  intros rt log rt' r Hs HP [= <- <-]. exists log. split; [done|]. by split; [apply safe_durable|].
Qed.
Lemma triple_bind {E A B} P (m : run E A) R (f : A → run E B) Q :
  triple P m R → (∀ a, triple (R a) (f a) Q) → triple P (m ≫= f) Q.
Proof.
  intros Hm Hf rt log rt2 r Hs HP. rewrite M_bind_run.
  destruct (m rt) as [rt1 [a|e]] eqn:Hr.
  - destruct (Hm _ _ _ _ Hs HP Hr) as (log1 & Hlog1 & _ & Hs1 & HR). intros Hf'.
    destruct (Hf _ _ _ _ _ Hs1 HR Hf') as (log2 & Hlog2 & ?). exists log2. split; [by etrans|done].
  - destruct (Hm _ _ _ _ Hs HP Hr) as (log1 & Hlog1 & Hd & _). intros [= <- <-]. by exists log1.
Qed.
Lemma triple_conseq {E A} P P' (m : run E A) (Q Q' : A → world → runlog → Prop) :
  triple P' m Q' → (∀ rt log, P rt log → P' rt log) → (∀ a rt log, Q' a rt log → Q a rt log) →
  triple P m Q.
Proof.
  intros Hm HP HQ rt log rt' r Hs Hp Hr.
  destruct (Hm _ _ _ _ Hs (HP _ _ Hp) Hr) as (log' & ? & ? & Hok). exists log'. split_and!; [done..|].
  destruct r; [|done]. destruct Hok. auto.
Qed.
Lemma triple_pre {E A} P P' (m : run E A) Q :
  triple P' m Q → (∀ rt log, P rt log → P' rt log) → triple P m Q.
Proof. intros Hm HP. by eapply triple_conseq. Qed.
Lemma triple_pure {E A} φ P (m : run E A) Q :
  (φ → triple P m Q) → triple (λ rt log, P rt log ∧ φ) m Q.
Proof. intros Hm rt log rt' r Hs [HP Hφ]. by apply Hm. Qed.
Lemma triple_or_else {E F A} (f : E → F) P (m : run E A) Q :
  triple P m Q → triple P (or_else f m) Q.
Proof.
  intros Hm rt log rt' r Hs HP. unfold or_else. destruct (m rt) as [rt1 r1] eqn:Hr.
  intros [= <- <-]. destruct (Hm _ _ _ _ Hs HP Hr) as (log' & ? & ? & Hok).
  exists log'. split_and!; [done..|]. by destruct r1.
Qed.
Lemma triple_lift {E A} (x : result E A) P (Q : A → world → runlog → Prop) :
  (∀ a rt log, x = Ok a → P rt log → Q a rt log) → triple P (lift x) Q.
Proof.
  intros HQ rt log rt' r Hs HP [= <- <-]. exists log. split; [done|].
  split; [by apply safe_durable|]. destruct x; auto.
Qed.
Lemma triple_get_snapshot {E} P :
  triple (E := E) P get_snapshot (λ s rt log, P rt log ∧ s = rt_snapshot rt).
Proof.
  intros rt log rt' r Hs HP [= <- <-]. exists log. split; [done|].
  by split; [apply safe_durable|].
Qed.
Lemma triple_get_state {E} P :
  triple (E := E) P get_state (λ s rt log, P rt log ∧ s = rt_state rt).
Proof.
  intros rt log rt' r Hs HP [= <- <-]. exists log. split; [done|].
  by split; [apply safe_durable|].
Qed.
Lemma triple_get_world {E} P :
  triple (E := E) P get_world (λ w rt log, P rt log ∧ w = rt_store rt).
Proof.
  intros rt log rt' r Hs HP [= <- <-]. exists log. split; [done|].
  by split; [apply safe_durable|].
Qed.
(** A raw step: the state is known. *)
Lemma triple_raw {E A} P (m : run E A) Q :
  (∀ rt log, triple (λ rt' log', P rt' log' ∧ rt' = rt ∧ log' = log) m Q) → triple P m Q.
Proof. intros Hm rt log rt' r Hs HP Hr. by eapply Hm. Qed.

Lemma steady_and P R : steady P → steady R → steady (λ rt log, P rt log ∧ R rt log).
Proof. intros HP HR ???? Hq [? ?]. split; [by eapply HP|by eapply HR]. Qed.
Lemma steady_pure φ : steady (λ _ _, φ).
Proof. by intros ?????. Qed.
Lemma steady_quiet rt log : steady (quiet rt log).
Proof. intros ???? Hq ?. by eapply quiet_trans. Qed.
Lemma steady_snapshot_pending p : steady (λ rt _, sn_pending_model (rt_snapshot rt) = p).
Proof. intros ???? Hq ?. by rewrite (qu_pending _ _ _ _ Hq). Qed.
Lemma steady_request q : steady (λ rt _, sn_request (rt_snapshot rt) = q).
Proof. intros ???? Hq ?. by rewrite (qu_request _ _ _ _ Hq). Qed.

Lemma quietly_ret {E A} (a : A) : quietly (E := E) (mret a).
Proof. intros P _. by apply triple_ret. Qed.
Lemma quietly_throw {E A} (e : E) : quietly (A := A) (throw e).
Proof. intros P _. apply triple_throw. Qed.
Lemma quietly_bind {E A B} (m : run E A) (f : A → run E B) :
  quietly m → (∀ a, quietly (f a)) → quietly (m ≫= f).
Proof. intros Hm Hf P HP. eapply triple_bind; [by apply Hm|]. intros a. by apply Hf. Qed.
Lemma quietly_or_else {E F A} (f : E → F) (m : run E A) : quietly m → quietly (or_else f m).
Proof. intros Hm P HP. by apply triple_or_else, Hm. Qed.
Lemma quietly_lift {E A} (x : result E A) : quietly (lift x).
Proof. intros P _. by apply triple_lift. Qed.
Lemma quietly_get_snapshot {E} : quietly (E := E) get_snapshot.
Proof. intros P _. by eapply triple_conseq; [apply triple_get_snapshot| |intros ??? []]. Qed.
Lemma quietly_get_state {E} : quietly (E := E) get_state.
Proof. intros P _. by eapply triple_conseq; [apply triple_get_state| |intros ??? []]. Qed.

(** A step that only moves what is neither durable nor budgeted. *)
Lemma quietly_local {E A} (m : run E A) :
  (∀ rt rt' r, m rt = (rt', r) → rt_snapshot rt' = rt_snapshot rt ∧
     rs_lease (rt_state rt') = rs_lease (rt_state rt) ∧ (rt_tick rt ≤ rt_tick rt')%nat ∧
     lw_store (rt_store rt') = lw_store (rt_store rt) ∧
     lw_budget (rt_store rt') = lw_budget (rt_store rt) ∧
     lw_terminal_model_request (rt_store rt') = lw_terminal_model_request (rt_store rt) ∧
     action_calls (lw_calls (rt_store rt')) = action_calls (lw_calls (rt_store rt)) ∧
     (∀ log, Forall (told log) (lw_calls (rt_store rt)) →
             Forall (told log) (lw_calls (rt_store rt')))) →
  quietly m.
Proof.
  intros Hm P HP rt log rt' r Hs Hp Hr.
  destruct (Hm _ _ _ Hr) as (Hsn & Hl & Ht & Hst & Hb & Hf & Hc & Htold).
  destruct Hs as [[Hh Hred Hids Hterm] Hopen Htl Hstarts Hreq Hlim].
  assert (safe rt' log) as Hs'.
  { split; rewrite ?Hsn, ?Hb, ?Hc; auto. split; rewrite ?Hsn, ?Hl; cbn; rewrite ?Hst; auto.
    intros n Hn. apply Hids. lia. }
  exists log. split; [done|]. split; [by apply safe_durable|]. destruct r; [|done]. split; [done|].
  eapply HP; [|done]. split; rewrite ?Hsn; try done. exists []. by rewrite app_nil_r.
Qed.
Lemma quietly_next_tick {E} : quietly (E := E) next_tick.
Proof. apply quietly_local. intros rt rt' r [= <- <-]. cbn. split_and!; auto. Qed.
Lemma quietly_refused {E} ack command_id command error :
  quietly (E := E) (acknowledge ack command_id command (Err error)).
Proof.
  apply quietly_local. intros rt rt' r. destruct ack; intros [= <- <-]; cbn; split_and!; auto.
  - unfold action_calls. by rewrite omap_app, app_nil_r.
  - intros log Ht. apply Forall_app. split; [done|]. by repeat constructor.
Qed.

(** ** Publication *)

Lemma append_once_world {E} p rt rt' (r : result E (result RunStoreError StoredRuntimeEvent)) :
  append_once ports p rt = (rt', r) →
  lw_budget (rt_store rt') = lw_budget (rt_store rt) ∧
  lw_terminal_model_request (rt_store rt') = lw_terminal_model_request (rt_store rt) ∧
  lw_calls (rt_store rt') = lw_calls (rt_store rt).
Proof. unfold append_once. rewrite loop_append_eq. by intros [= <- _]. Qed.

Lemma publish_world ev rt rt' r :
  publish ports ev rt = (rt', r) →
  lw_budget (rt_store rt') = lw_budget (rt_store rt) ∧
  lw_terminal_model_request (rt_store rt') = lw_terminal_model_request (rt_store rt) ∧
  lw_calls (rt_store rt') = lw_calls (rt_store rt).
Proof.
  unfold publish. rewrite M_bind_run. cbn -[append_once].
  set (p := pending_event _ _ _). set (rt0 := rt <| rt_tick := _ |>).
  destruct (append_once_total ports (E := RuntimeFailure) p rt0) as (rt1 & a & Hone).
  rewrite M_bind_run, Hone. apply append_once_world in Hone as (Hb & Hf & Hc).
  destruct a as [e|error].
  - rewrite apply_stored_eq. by destruct (apply_event _ e); intros [= <- <-].
  - destruct error; try (by intros [= <- <-]).
    destruct (append_once_total ports (E := RuntimeFailure) p rt1) as (rt2 & a & Htwo).
    rewrite M_bind_run, Htwo. apply append_once_world in Htwo as (Hb2 & Hf2 & Hc2).
    rewrite Hb in Hb2. rewrite Hf in Hf2. rewrite Hc in Hc2.
    rewrite M_bind_run. destruct a as [e|error]; cbn -[apply_stored]; [|by intros [= <- <-]].
    rewrite apply_stored_eq. by destruct (apply_event _ e); intros [= <- <-].
Qed.

(** What a publication does to a live process. *)
Lemma publish_steps rt log ev rt' r :
  live ports rt log → sn_terminal (rt_snapshot rt) = None → is_terminal ev = false →
  publish ports ev rt = (rt', r) →
  match r with
  | Ok e => sre_event e = ev ∧ live ports rt' (log ++ [e]) ∧
      apply_event (rt_snapshot rt) e = Ok (rt_snapshot rt') ∧
      sn_terminal (rt_snapshot rt') = None ∧
      rt_state rt' = rt_state rt <| rs_snapshot := rt_snapshot rt' |>
  | Err _ => rt_state rt' = rt_state rt ∧ ∃ more,
      port_holds (rt_store rt') (rs_lease (rt_state rt')) (log ++ more) ∧
      (more = [] ∨ ∃ e, more = [e] ∧ sre_event e = ev)
  end.
Proof.
  intros Hl Hn Hev Hp. apply (publish_cases ports rt log) in Hp
    as (Ht & log' & Hh & Hx & Hr); [|done..].
  destruct r as [e|error].
  - destruct Hr as (-> & He & Hid & Happ & _ & Hst). split_and!; [done| |done| |done].
    + eapply live_extended; try done. by rewrite Hst.
    + apply step_terminal in Happ as [_ ->]. rewrite He. by destruct ev.
  - destruct Hr as [Hst _]. split; [done|]. rewrite Hst. destruct Hx as [->|(e & -> & _ & Hpe)].
    + exists []. rewrite app_nil_r. auto.
    + exists [e]. split; [done|]. right. exists e. split; [done|]. rewrite Hpe.
      by destruct (pending_event_id ports ev (rt_tick rt)).
Qed.

Lemma logged_starts_app log log' :
  logged_starts (log ++ log') = logged_starts log ++ logged_starts log'.
Proof. apply omap_app. Qed.
Lemma logged_requests_app log log' :
  logged_requests (log ++ log') = logged_requests log ++ logged_requests log'.
Proof. apply omap_app. Qed.

Lemma logged_starts_other e : event_action (sre_event e) = None → logged_starts [e] = [].
Proof. unfold logged_starts. cbn. by intros ->. Qed.
Lemma logged_requests_other e : event_request (sre_event e) = None → logged_requests [e] = [].
Proof. cbn. by intros ->. Qed.

(** The publication of an event that neither makes a request durable nor starts an action. *)
Lemma triple_publish P ev (Q : StoredRuntimeEvent → world → runlog → Prop) :
  is_terminal ev = false → event_request ev = None → event_action ev = None →
  (∀ rt log e rt', safe rt log → P rt log → sre_event e = ev →
     apply_event (rt_snapshot rt) e = Ok (rt_snapshot rt') →
     lw_budget (rt_store rt') = lw_budget (rt_store rt) →
     lw_terminal_model_request (rt_store rt') = lw_terminal_model_request (rt_store rt) →
     lw_calls (rt_store rt') = lw_calls (rt_store rt) → Q e rt' (log ++ [e])) →
  triple P (publish ports ev) Q.
Proof.
  intros Hte Hre Hste HQ rt log rt' r Hs HP Hr.
  pose proof (publish_world _ _ _ _ Hr) as (Hb & Hf & Hc).
  apply (publish_steps rt log) in Hr; [|apply Hs..|done].
  pose proof Hs as [Hl Hopen Ht Hst Hreq Hlim]. destruct r as [e|error].
  - destruct Hr as (He & Hl' & Happ & Hopen' & Hstate). exists (log ++ [e]).
    assert (safe rt' (log ++ [e])) as Hs'.
    { split; rewrite ?Hb, ?Hc; [done..|by apply Forall_told_app| | |done].
      - rewrite logged_starts_app, (logged_starts_other e), app_nil_r; [done|by rewrite He].
      - rewrite logged_requests_app, (logged_requests_other e), app_nil_r; [done|by rewrite He]. }
    split; [by apply prefix_app_r|]. split; [by apply safe_durable|]. split; [done|].
    by eapply HQ.
  - destruct Hr as (Hstate & more & Hh & Hmore). exists (log ++ more).
    split; [by apply prefix_app_r|]. split; [|done]. split.
    + by rewrite Hstate in *.
    + rewrite Hc. by apply Forall_told_app.
    + rewrite Hc, logged_starts_app, Hst. by apply prefix_app_r.
    + rewrite logged_requests_app. destruct Hmore as [->|(e & -> & He)].
      * by rewrite app_nil_r.
      * rewrite (logged_requests_other e), app_nil_r; [done|by rewrite He].
Qed.

(** The start of an action is durable when the outside is called. *)
Lemma triple_start {E} (f : RuntimeFailure → E) P ev (call : N → OutsideCall) action Q :
  is_terminal ev = false → event_request ev = None → event_action ev = Some action →
  (∀ n, call_action (call n) = Some (n, action)) →
  (∀ rt log e s, safe rt log → P rt log → sre_event e = ev →
     apply_event (rt_snapshot rt) e = Ok s → told (log ++ [e]) (call (sre_sequence e))) →
  (∀ rt log e rt', safe rt log → P rt log → sre_event e = ev →
     apply_event (rt_snapshot rt) e = Ok (rt_snapshot rt') →
     lw_budget (rt_store rt') = lw_budget (rt_store rt) →
     lw_terminal_model_request (rt_store rt') = lw_terminal_model_request (rt_store rt) →
     Q rt' (log ++ [e])) →
  triple P (stored ← or_else f (publish ports ev); say (call (sre_sequence stored))) (λ _, Q).
Proof.
  intros Hte Hre Hact Hcall Htold Hstep rt log rt' r Hs HP Hr. rewrite M_bind_run in Hr.
  unfold or_else in Hr. destruct (publish _ _ _) as [rt1 r1] eqn:Hpub.
  pose proof (publish_world _ _ _ _ Hpub) as (Hb & Hf & Hc).
  apply (publish_steps rt log) in Hpub; [|apply Hs..|done].
  pose proof Hs as [Hl Hopen Ht Hst Hreq Hlim]. destruct r1 as [e|failure]; cbn in Hr.
  - destruct Hpub as (He & Hl' & Happ & Hopen' & Hstate). injection Hr as <- <-.
    exists (log ++ [e]). set (rt' := rt1 <| rt_store := _ |>).
    assert (safe rt' (log ++ [e])) as Hs'.
    { subst rt'. destruct Hl'. split; cbn; rewrite ?Hc; try done.
      - apply Forall_app. split; [by apply Forall_told_app|]. constructor; [|constructor].
        by eapply Htold.
      - rewrite logged_starts_app, Hst. unfold logged_starts, action_calls. rewrite omap_app.
        cbn. by rewrite He, Hact, Hcall, app_assoc.
      - rewrite logged_requests_app, (logged_requests_other e), app_nil_r; [done|by rewrite He].
      - by rewrite Hb. }
    split; [by apply prefix_app_r|]. split; [by apply safe_durable in Hs'|]. split; [done|].
    by eapply Hstep.
  - injection Hr as <- <-. destruct Hpub as (Hstate & more & Hh & Hmore). exists (log ++ more).
    split; [by apply prefix_app_r|]. split; [|done]. split.
    + by rewrite Hstate in *.
    + rewrite Hc. by apply Forall_told_app.
    + rewrite Hc, logged_starts_app, Hst. by apply prefix_app_r.
    + rewrite logged_requests_app. destruct Hmore as [->|(e & -> & He)]; [by rewrite app_nil_r|].
      rewrite (logged_requests_other e), app_nil_r; [done|by rewrite He].
Qed.

Lemma apply_quiet s e s' :
  apply_event s e = Ok s' → quiet_event (sre_event e) = true →
  sn_request s' = sn_request s ∧ sn_pending_model s' = sn_pending_model s ∧
  sn_runtime_model_requests s' = sn_runtime_model_requests s.
Proof.
  intros Hs Hq. split; [by apply step_request in Hs|].
  apply run_step_inv in Hs as (r & s1 & _ & Hd & ->). cbn. by eapply dispatch_quiet.
Qed.

Lemma quiet_published rt log e rt' :
  apply_event (rt_snapshot rt) e = Ok (rt_snapshot rt') → quiet_event (sre_event e) = true →
  lw_budget (rt_store rt') = lw_budget (rt_store rt) →
  lw_terminal_model_request (rt_store rt') = lw_terminal_model_request (rt_store rt) →
  quiet rt log rt' (log ++ [e]).
Proof.
  intros Happ Hq Hb Hf. destruct (apply_quiet _ _ _ Happ Hq) as (? & ? & ?). split; try done.
  exists [e]. split; [done|]. by repeat constructor.
Qed.

Lemma quietly_publish ev :
  quiet_event ev = true → event_action ev = None → quietly (publish ports ev).
Proof.
  intros Hq Ha P HP. apply triple_publish; [by destruct ev..|].
  intros rt log e rt' Hs Hp He Happ Hb Hf _. eapply HP; [|done].
  apply quiet_published; try done. by rewrite He.
Qed.

(** ** Commands *)

Lemma triple_acknowledge {E} P ack command_id command answer :
  steady P →
  (∀ rt log, safe rt log → P rt log → told log (Acknowledge command_id command answer)) →
  triple (E := E) P (acknowledge ack command_id command answer) (λ _, P).
Proof.
  intros HP Ht. destruct ack; [|by apply triple_ret].
  intros rt log rt' r Hs Hp [= <- <-]. pose proof Hs as [[Hh Hred Hids Hterm] Hopen Htl Hst Hreq Hlim].
  set (rt' := rt <| rt_store := _ |>).
  assert (action_calls (lw_calls (rt_store rt')) = action_calls (lw_calls (rt_store rt))) as Hc
    by (cbn; unfold action_calls; by rewrite omap_app, app_nil_r).
  assert (safe rt' log) as Hs'.
  { split; rewrite ?Hc; try done. cbn. apply Forall_app. split; [done|].
    constructor; [by eapply Ht|constructor]. }
  exists log. split; [done|]. split; [by apply safe_durable|]. split; [done|].
  eapply HP; [|done]. split; try done. exists []. by rewrite app_nil_r.
Qed.

Lemma steady_logged e : steady (λ _ log, e ∈ log).
Proof.
  intros rt log rt' log' Hq He. destruct (qu_log _ _ _ _ Hq) as (more & -> & _).
  apply elem_of_app. by left.
Qed.

Lemma quietly_publish_command ev ack command_id command :
  quiet_event ev = true → event_command ev = Some (command_id, command) →
  quietly (publish_command ports ev ack command_id command).
Proof.
  intros Hq Hev P HP rt log rt' r Hs Hp. unfold publish_command.
  assert (event_action ev = None) as Hact by by destruct ev.
  destruct (publish ports ev rt) as [rt1 [e|failure]] eqn:Hpub.
  - assert (triple P (publish ports ev)
      (λ e rt log, (P rt log ∧ e ∈ log) ∧ sre_event e = ev)) as Hpublish.
    { apply triple_publish; [by destruct ev..|].
      intros rt0 log0 e0 rt0' Hs0 Hp0 He Happ Hb Hf _. split_and!; [|apply elem_of_app; right; by left|done].
      eapply HP; [|done]. apply quiet_published; try done. by rewrite He. }
    destruct (Hpublish _ _ _ _ Hs Hp Hpub) as (log1 & Hlog1 & _ & Hs1 & [Hp1 Hin] & He).
    intros Hack. eapply (triple_acknowledge (λ rt log, P rt log ∧ e ∈ log)) in Hack as
      (log2 & Hlog2 & Hd & Hok); try done.
    + exists log2. split; [by etrans|]. split; [done|]. destruct r; [|done]. by destruct Hok as [? [? _]].
    + apply steady_and; [done|apply steady_logged].
    + intros rt2 log2 _ [_ Hin2]. cbn. exists e. by rewrite He.
  - destruct (triple_publish (λ _ _, True) ev (λ _ _ _, True) ltac:(by destruct ev)
      ltac:(by destruct ev) ltac:(by destruct ev) ltac:(done) _ _ _ _ Hs I Hpub) as (log1 & Hlog1 & Hd & _).
    intros Hack. exists log1. split; [done|].
    assert (∃ failure', r = Err failure' ∧ (rt' = rt1 ∨ rt' = rt1 <| rt_store := rt_store rt1
      <| lw_calls := lw_calls (rt_store rt1) ++ [Acknowledge command_id command
           (Err (CtlStore (rp_failure_debug ports failure)))] |> |>)) as (failure' & -> & Hrt').
    { destruct ack; injection Hack as <- <-; eauto. }
    split; [|done]. destruct Hrt' as [->| ->]; [done|]. destruct Hd as [Hh Ht Hst Hreq].
    split; cbn; [done| |by unfold action_calls in *; rewrite omap_app, app_nil_r|done].
    apply Forall_app. split; [done|]. by repeat constructor.
Qed.

Lemma receipt_told rt log command_id command n ack {E} P :
  steady P →
  command_receipt_result (rt_snapshot rt) command_id command = Some (Ok n) →
  triple (E := E) (λ rt' log', P rt' log' ∧ rt' = rt ∧ log' = log)
    (acknowledge ack command_id command (Ok n)) (λ _, P).
Proof.
  intros HP Hr. destruct ack; [|by apply triple_ret; intros ?? [? _]].
  intros rt0 log0 rt' r Hs (Hp & -> & ->) Ha.
  assert (told log (Acknowledge command_id command (Ok n))) as Ht.
  { unfold command_receipt_result in Hr.
    destruct (find_first _ (sn_command_receipts _)) as [receipt|] eqn:Hf; [|done].
    cbn in Hr. apply find_first_Some in Hf as [Hin Hid]. bprop.
    destruct (cmd_command receipt ==? command) eqn:Hc; [|done]. bprop. injection Hr as <-.
    rewrite (logged_receipts log) in Hin by apply Hs.
    apply list_elem_of_omap in Hin as (e & He & Hrec). unfold event_receipt in Hrec.
    destruct (event_command (sre_event e)) as [[c' cmd']|] eqn:Hev; [|done].
    cbn in Hrec. injection Hrec as <-. cbn in *. subst. by exists e. }
  eapply (triple_acknowledge (λ rt log', P rt log' ∧ log `prefix_of` log')) in Ha as
    (log2 & Hlog2 & Hd & Hok); try done.
  - exists log2. split_and!; [done..|]. destruct r; [|done]. by destruct Hok as [? [? _]].
  - apply steady_and; [done|]. intros r0 l0 r1 l1 Hq Hpre. destruct (qu_log _ _ _ _ Hq) as (more & -> & _).
    by apply prefix_app_r.
  - intros r0 l0 _ [_ [more ->]]. by apply told_app.
Qed.

Lemma quietly_at {E A} (m : run E A) P rt log :
  steady P → quietly m →
  triple (λ rt' log', P rt' log' ∧ rt' = rt ∧ log' = log) m (λ _, P).
Proof. intros HP Hm. eapply triple_pre; [by apply Hm|]. by intros ?? [? _]. Qed.

Lemma quietly_with_snapshot {E A} (f : RunSnapshot → run E A) :
  (∀ rt log P, steady P →
     triple (λ rt' log', P rt' log' ∧ rt' = rt ∧ log' = log) (f (rt_snapshot rt)) (λ _, P)) →
  quietly (get_snapshot ≫= f).
Proof.
  intros Hf P HP. apply triple_raw. intros rt log.
  eapply triple_bind; [apply triple_get_snapshot|]. intros s.
  intros rt0 log0 rt' r Hs ((Hp & -> & ->) & ->). by eapply (Hf rt log P HP).
Qed.
Lemma triple_bind_at {E A B} P rt log (m : run E A) (f : A → run E B) :
  steady P →
  triple (λ rt' log', P rt' log' ∧ rt' = rt ∧ log' = log) m (λ _, P) →
  (∀ a, quietly (f a)) →
  triple (λ rt' log', P rt' log' ∧ rt' = rt ∧ log' = log) (m ≫= f) (λ _, P).
Proof. intros HP Hm Hf. eapply triple_bind; [done|]. intros a. by apply Hf. Qed.

(** What is done on the way out of a failure changes nothing durable. *)
Definition gives_up {E A} (m : run E A) : Prop :=
  ∀ rt log rt' r, durable rt log → m rt = (rt', r) → durable rt' log ∧ ∃ e, r = Err e.

Lemma triple_catch {E F A B} P (m : run E A) R (f : A → run F B) (g : E → run F B) Q :
  triple P m R → (∀ a, triple (R a) (f a) Q) → (∀ e, gives_up (g e)) →
  triple P (λ rt, match m rt with (rt, Ok a) => f a rt | (rt, Err e) => g e rt end) Q.
Proof.
  intros Hm Hf Hg rt log rt2 r Hs HP. destruct (m rt) as [rt1 [a|e]] eqn:Hr.
  - destruct (Hm _ _ _ _ Hs HP Hr) as (log1 & Hlog1 & _ & Hs1 & HR). intros Hf'.
    destruct (Hf _ _ _ _ _ Hs1 HR Hf') as (log2 & Hlog2 & ?). exists log2. split; [by etrans|done].
  - destruct (Hm _ _ _ _ Hs HP Hr) as (log1 & Hlog1 & Hd & _). intros Hg'.
    destruct (Hg e _ _ _ _ Hd Hg') as (Hd' & e' & ->). by exists log1.
Qed.

Lemma gives_up_refusing {E A} command_id command error (e : E) :
  gives_up (A := A) (acknowledge true command_id command (Err error) ;; throw e).
Proof.
  intros rt log rt' r [Hh Ht Hst Hreq] [= <- <-]. split; [|by eexists].
  split; cbn; [done| |by unfold action_calls in *; rewrite omap_app, app_nil_r|done].
  apply Forall_app. split; [done|]. by repeat constructor.
Qed.

End process.

(** [quietly]: the steps of a monadic block that are quiet, down to those the caller proves. *)
Ltac quietly :=
  repeat match goal with
  | |- quietly _ _ _ (raised _) => apply quietly_or_else
  | |- quietly _ _ _ (or_else _ _) => apply quietly_or_else
  | |- quietly _ _ _ (_ ≫= _) => apply quietly_bind; [|intros]
  | |- quietly _ _ _ (mret _) => apply quietly_ret
  | |- quietly _ _ _ (throw _) => apply quietly_throw
  | |- quietly _ _ _ (lift _) => apply quietly_lift
  | |- quietly _ _ _ stop => apply quietly_throw
  | |- quietly _ _ _ get_snapshot => apply quietly_get_snapshot
  | |- quietly _ _ _ get_state => apply quietly_get_state
  | |- quietly _ _ _ next_tick => apply quietly_next_tick
  | |- quietly _ _ _ (acknowledge _ _ _ (Err _)) => apply quietly_refused
  | |- quietly _ _ _ (publish_command _ _ _ _ _) =>
    apply quietly_publish_command; [assumption..|reflexivity|reflexivity]
  | |- quietly _ _ _ (publish _ _) => apply quietly_publish; [assumption..|reflexivity|reflexivity]
  | |- quietly _ _ _ (match _ with _ => _ end) => case_match
  | |- quietly _ _ _ (let '(_, _) := _ in _) => case_match
  end.
