(* ===== verification/AgentCompletion.v ===== *)
(** The end of a run ([crates/runtime/src/agent.rs]): the review of a completion candidate with its
    Host verifier, what a resumed process cannot decide, and the terminal outcome. *)
From Stdlib Require Import Ascii String.
From S2P Require Import Prelude.
From S2P Require Import Text.
From S2P Require Import Json.
From S2P Require Import Task.
From S2P Require Import Protocol.
From S2P Require Import Validate.
From S2P Require Import Context.
From S2P Require Import Snapshot.
From S2P Require Import Evidence.
From S2P Require Import RunEvents.
From S2P Require Import AgentEvents.
From S2P Require Import Reducer.
From S2P Require Import MemStore.
From S2P Require Import AgentRuntime.
From S2P Require Import AgentWriter.
From S2P Require Import AgentControl.

Open Scope string_scope.
Open Scope N_scope.

Definition task_requires_host_acceptance (snapshot : RunSnapshot) : bool :=
  is_some_and (rr_task_contract (sn_request snapshot)) (λ contract,
    existsb is_host_acceptance (def_acceptance (contract_definition contract))).

Definition completion_candidate_id (model_response_sequence : N) : CompletionCandidateId :=
  "completion-" ++ show_N model_response_sequence.

Definition host_verification_id (candidate : CompletionCandidate) (acceptance_id : AcceptanceId)
    : VerificationId :=
  "host-verification:" ++ cc_id candidate ++ ":" ++ acceptance_id.

(** ** Host acceptance of a candidate *)

(** The only action that may advance the workspace after an acceptance: the verifier of this
    candidate, by one generation and without a change of the revision. *)
Definition host_verifier_advanced_same_revision (snapshot : RunSnapshot)
    (candidate : CompletionCandidate) (receipt : HostAcceptanceReceipt) : bool :=
  let accepted := har_workspace_state receipt in
  let current := sn_workspace_state snapshot in
  if (checked_add64 (ws_generation accepted) 1 !=? Some (ws_generation current))
     || (ws_revision accepted !=? ws_revision current)
  then false
  else match rr_task_contract (sn_request snapshot) with
  | None => false
  | Some contract =>
    existsb (λ acceptance,
      match acceptance with
      | AcceptHost _ _ => false
      | AcceptVerifier id _ evidence_policy verifier =>
        existsb (λ evidence,
          (er_generation_id evidence ==? cc_generation_id candidate)
          && (er_acceptance_id evidence ==? id)
          && (er_verification_id evidence ==? host_verification_id candidate id)
          && (er_verifier evidence ==? verifier)
          && lineage_satisfies (er_lineage evidence) evidence_policy
          && (er_workspace_state evidence ==? current)) (sn_evidence_receipts snapshot)
      end) (def_acceptance (contract_definition contract))
  end.

Definition current_host_acceptance (snapshot : RunSnapshot) (candidate : CompletionCandidate)
    : option HostAcceptanceReceipt :=
  find_first (λ receipt,
    (har_candidate_id receipt ==? cc_id candidate)
    && (har_generation_id receipt ==? cc_generation_id candidate)
    && (har_workspace_state receipt ==? cc_workspace_state candidate)
    && ((har_workspace_state receipt ==? sn_workspace_state snapshot)
        || host_verifier_advanced_same_revision snapshot candidate receipt))
    (reverse (sn_host_acceptance_receipts snapshot)).

(** ** The review *)

Inductive CompletionReviewError :=
| ReviewRetry (reason : string)
| ReviewBlocked (reason : string).

(** What the tools answer to a run of the verifier; [None]: the process stops in it. *)
Record VerifierPort := mkVerifierPort {
  vp_execute : nat → ToolInvocation → option (result string ToolOutcome);
}.

(** The evidence that already satisfies a verifier acceptance. *)
Definition current_evidence (snapshot : RunSnapshot) (contract : TaskContract) (id : AcceptanceId)
    (evidence_policy : VerifierEvidencePolicy) (verifier : VerifierSpec) : option EvidenceReceipt :=
  find_first (λ receipt,
    (er_generation_id receipt ==? contract_generation_id contract)
    && (er_acceptance_id receipt ==? id)
    && (er_verifier receipt ==? verifier)
    && lineage_satisfies (er_lineage receipt) evidence_policy
    && (er_workspace_state receipt ==? sn_workspace_state snapshot)) (sn_evidence_receipts snapshot).

Section completion.
Context `{Codecs} {St : Type} `{RunPort St} (ports : RuntimePorts) (verifiers : VerifierPort).
Abbreviation run := (M (LoopWorld St)).
Abbreviation review := (run (Halt CompletionReviewError)).

Definition blocked {A} (reason : string) : review A := throw (Raised (ReviewBlocked reason)).
Definition block_if (b : bool) (reason : string) : review unit :=
  if b then blocked reason else mret tt.
Definition or_blocked {A} (o : option A) (reason : string) : review A :=
  match o with Some a => mret a | None => blocked reason end.
Definition publish_review (message : string) (event : RuntimeEventKind)
    : review StoredRuntimeEvent :=
  or_else (λ failure, Raised (ReviewBlocked (message ++ rp_failure_debug ports failure)))
    (publish ports event).
Definition reconcile_review : review unit :=
  or_else (λ message, Raised (ReviewBlocked message)) (reconcile_workspace ports).

(** The verification as it is durable before the verifier runs; one that an earlier process
    prepared is taken up. *)
Definition prepare_verification (candidate : CompletionCandidate) (acceptance_id : AcceptanceId)
    (verifier : VerifierSpec) : review (VerificationId * PendingHostVerification) :=
  snapshot ← get_snapshot;
  let verification_id :=
    default (host_verification_id candidate acceptance_id)
      (phv_verification_id <$> sn_pending_host_verification snapshot) in
  (if is_none (sn_pending_host_verification snapshot) then
     publish_review "无法准备 Host verifier："
       (HostVerificationPrepared verification_id candidate acceptance_id verifier
          (sn_workspace_state snapshot)) ;; mret tt
   else mret tt) ;;
  snapshot ← get_snapshot;
  pending ← or_blocked (sn_pending_host_verification snapshot)
    "Host verifier preparation was not persisted";
  block_if ((phv_candidate pending !=? candidate)
            || (phv_acceptance_id pending !=? acceptance_id)
            || (phv_verifier pending !=? verifier)
            || (phv_workspace_state_before pending !=? sn_workspace_state snapshot))
    "持久化 Host verifier 与当前完成候选不匹配" ;;
  mret (verification_id, pending).

(** The verifier itself, once its start is durable. *)
Definition execute_verifier (verification_id : VerificationId) (pending : PendingHostVerification)
    (verifier : VerifierSpec) : review ToolOutcome :=
  state ← get_state;
  let invocation := mkToolInvocation (state_run_id state) ("host:" ++ verification_id)
    (spec_verifier_id verifier) (ToolArguments_from_value (spec_parameters verifier)) in
  (if phv_state pending ==? Prepared then
     stored ← publish_review "无法启动 Host verifier：" (HostVerificationStarted verification_id);
     say (CallVerifier (sre_sequence stored) verification_id invocation)
   else
     say (CallVerifier (sn_last_sequence (rs_snapshot state)) verification_id invocation)) ;;
  tick ← next_tick;
  match vp_execute verifiers tick invocation with
  | None => stop
  | Some answer => mret match answer with
    | Ok outcome => outcome
    | Err message => ToolOutcome_transport_failure ("Host verifier 执行失败：" ++ message)
    end
  end.

(** A seal that failed: the rejection the reducer recorded is committed. *)
Definition reject_completion (candidate : CompletionCandidate) : review EvidenceReceipt :=
  snapshot ← get_snapshot;
  rejection ← or_blocked
    (failure ← sn_last_host_verification_failure snapshot;
     if cr_candidate_id (hvf_rejection failure) ==? cc_id candidate
     then Some (hvf_rejection failure) else None)
    "Host verifier 失败后没有持久化对应的完成拒绝";
  publish_review "无法提交完成拒绝：" (CompletionRejected rejection) ;;
  throw (Raised (if cr_required_transition rejection ==? EffectiveWorkspaceMutation
                 then ReviewRetry (cr_reason rejection) else ReviewBlocked (cr_reason rejection))).

Definition run_host_verifier (candidate : CompletionCandidate) (acceptance_id : AcceptanceId)
    (evidence_policy : VerifierEvidencePolicy) (verifier : VerifierSpec)
    : review EvidenceReceipt :=
  '(verification_id, pending) ← prepare_verification candidate acceptance_id verifier;
  outcome ← execute_verifier verification_id pending verifier;
  workspace_state_after ← observe_workspace_state ports true;
  snapshot ← get_snapshot;
  let seal := seal_evidence_receipt snapshot verification_id acceptance_id evidence_policy verifier
                outcome workspace_state_after in
  publish_review "无法提交 Host verifier 结果："
    (HostVerificationCommitted verification_id outcome
       (match seal with Ok receipt => Some receipt | Err _ => None end) workspace_state_after) ;;
  match seal with
  | Ok receipt => mret receipt
  | Err _ => reject_completion candidate
  end.

(** One acceptance of the contract. *)
Definition satisfy (candidate : CompletionCandidate) (contract : TaskContract)
    (accepted_host_receipt : option HostAcceptanceReceipt) (acceptance : TaskAcceptance)
    : review AcceptanceSatisfaction :=
  match acceptance with
  | AcceptHost id _ =>
    receipt ← or_blocked accepted_host_receipt "完成候选尚未获得显式 Host acceptance receipt";
    mret (SatisfiedByHost id (har_id receipt))
  | AcceptVerifier id _ evidence_policy verifier =>
    snapshot ← get_snapshot;
    receipt ← match current_evidence snapshot contract id evidence_policy verifier with
              | Some receipt => mret receipt
              | None => run_host_verifier candidate id evidence_policy verifier
              end;
    mret (SatisfiedByEvidence id (er_id receipt))
  end.
Fixpoint satisfy_all (candidate : CompletionCandidate) (contract : TaskContract)
    (accepted_host_receipt : option HostAcceptanceReceipt) (acceptance : list TaskAcceptance)
    : review (list AcceptanceSatisfaction) :=
  match acceptance with
  | [] => mret []
  | one :: more =>
    satisfaction ← satisfy candidate contract accepted_host_receipt one;
    satisfied ← satisfy_all candidate contract accepted_host_receipt more;
    mret (satisfaction :: satisfied)
  end.

(** What is known before anything runs: an earlier rejection of this candidate, or of this very
    workspace. *)
Definition review_known_failures (candidate : CompletionCandidate) (contract : TaskContract)
    : review unit :=
  snapshot ← get_snapshot;
  match sn_last_completion_rejection snapshot with
  | Some rejection =>
    block_if ((cr_candidate_id rejection ==? cc_id candidate)
              && (cr_generation_id rejection ==? contract_generation_id contract))
      (cr_reason rejection)
  | None => mret tt
  end ;;
  match sn_last_host_verification_failure snapshot with
  | Some failure =>
    block_if ((cr_generation_id (hvf_rejection failure) ==? contract_generation_id contract)
              && (cr_required_transition (hvf_rejection failure) ==? EffectiveWorkspaceMutation)
              && (ws_revision (hvf_workspace_state failure) ==? ws_revision (sn_workspace_state snapshot)))
      "上一次 Host verifier 失败后工作区没有发生有效 revision 修改；拒绝重复验证相同内容"
  | None => mret tt
  end.

Definition accept_completion_candidate (candidate : CompletionCandidate)
    : review (string * CompletionDecision) :=
  snapshot ← get_snapshot;
  contract ← or_blocked (rr_task_contract (sn_request snapshot)) "Agent 运行没有冻结 TaskContract";
  block_if (cc_generation_id candidate !=? contract_generation_id contract)
    "完成候选不属于当前任务 generation" ;;
  reconcile_review ;;
  review_known_failures candidate contract ;;
  snapshot ← get_snapshot;
  let acceptance := def_acceptance (contract_definition contract) in
  let accepted_host_receipt := current_host_acceptance snapshot candidate in
  satisfied ← satisfy_all candidate contract accepted_host_receipt acceptance;
  (if existsb is_verifier_acceptance acceptance then reconcile_review else mret tt) ;;
  snapshot ← get_snapshot;
  block_if (is_some_and accepted_host_receipt (λ receipt,
              ws_revision (har_workspace_state receipt) !=? ws_revision (sn_workspace_state snapshot)))
    "显式 Host acceptance receipt 不再匹配最新工作区 revision" ;;
  let decision := mkCompletionDecision (cc_id candidate) (contract_generation_id contract)
                    (sn_workspace_state snapshot) satisfied in
  lift (map_err (λ message, Raised (ReviewBlocked message)) (CompletionDecision_validate decision)) ;;
  mret (cc_message candidate, decision).
End completion.

(** ** What a resumed process cannot decide *)

Definition writer_tool_recovery_is_safe (lifecycle : AgentTaskLifecycle) : bool :=
  is_writer lifecycle
  && is_none_or (atl_finished lifecycle)
       (λ finished, is_completed (ao_terminal (acf_outcome finished))).

(** An action that was under way when the last process stopped. *)
Definition model_ambiguity (state : RunState) : option RecoveryAmbiguity :=
  pending ← rs_recovery_model state;
  if pma_state pending ==? InFlight then
    Some (mkRecoveryAmbiguity AmbiguityModelRequest (pma_attempt_id pending)
      "进程在 DeepSeek 请求进入传输层后、响应原子提交前停止；为避免重复请求和重复计费，运行未自动重发。")
  else None.
Definition tool_ambiguity (state : RunState) : option RecoveryAmbiguity :=
  pending ← rs_recovery_tool state;
  let name := ti_name (pta_invocation pending) in
  if (pta_state pending ==? InFlight)
     && ((name !=? AGENT_TOOL_NAME)
         || negb (existsb (λ lifecycle,
              (at_call_id (atl_task lifecycle) ==? ti_call_id (pta_invocation pending))
              && writer_tool_recovery_is_safe lifecycle) (sn_agent_tasks (rs_snapshot state))))
  then Some (mkRecoveryAmbiguity AmbiguityToolExecution (pta_operation_id pending)
    ("进程在工具 '" ++ name ++
     "' 开始后、结果原子提交前停止；无法证明副作用是否已发生，因此未自动重跑。"))
  else None.
Definition verifier_ambiguity (state : RunState) : option RecoveryAmbiguity :=
  pending ← sn_pending_host_verification (rs_snapshot state);
  if phv_state pending ==? InFlight then
    Some (mkRecoveryAmbiguity AmbiguityHostVerification (phv_verification_id pending)
      "进程在 Host verifier 开始后、结果与证据回执原子提交前停止；验证命令可能有副作用，因此未自动重跑。")
  else None.
Definition child_ambiguity (state : RunState) : option RecoveryAmbiguity :=
  child ← find_first (λ child, negb (existsb (λ lifecycle,
      (at_child_run_id (atl_task lifecycle) ==? child)
      && is_writer lifecycle && is_none (atl_finished lifecycle))
      (sn_agent_tasks (rs_snapshot state)))) (rs_recovered_child_ids state);
  Some (mkRecoveryAmbiguity AmbiguityChildRun child
    "父进程停止时仍有未汇聚的子 Agent；本阶段不会猜测或重复启动子任务。").
Definition recovery_ambiguity (state : RunState) : option RecoveryAmbiguity :=
  match model_ambiguity state with
  | Some ambiguity => Some ambiguity
  | None => match tool_ambiguity state with
    | Some ambiguity => Some ambiguity
    | None => match verifier_ambiguity state with
      | Some ambiguity => Some ambiguity
      | None => child_ambiguity state
      end
    end
  end.

(** ** The terminal outcome *)

(** [store.release(&lease)]; its error is ignored. *)
Class ReleasePort (S : Type) := port_release : S → RunLease → S.

Section finalize.
Context `{Codecs} {St : Type} `{RunPort St} `{ReleasePort St} (ports : RuntimePorts).
Abbreviation run := (M St).

Definition release_lease {E} : run E unit := λ rt,
  (rt <| rt_store := port_release (rt_store rt) (rs_lease (rt_state rt)) |>, Ok tt).
Definition load_run {E} (run_id : RunId) : run E (result RunStoreError (option RunReplay)) := λ rt,
  (rt, Ok (port_load (rt_store rt) run_id)).

(** The writers that are integrated and not yet cleaned up. *)
Definition integrated_writers (snapshot : RunSnapshot) : list AgentTask :=
  atl_task <$> List.filter (λ lifecycle,
    is_writer lifecycle
    && is_some (atl_integration lifecycle ≫= ail_committed)
    && is_none (atl_cleanup lifecycle ≫= acl_committed)) (sn_agent_tasks snapshot).
Fixpoint cleanup_tasks (orchestrator : AgentOrchestrator) (tasks : list AgentTask)
    : run TerminalState (option TerminalState) :=
  match tasks with
  | [] => mret None
  | task :: tasks =>
    lifecycle ← current_agent_lifecycle (at_task_id task);
    seal ← lift (ok_or (writer_seal_from_lifecycle lifecycle)
      (orchestration_recovery (at_task_id task) "writer_cleanup_missing_seal"
         "root 终态前清理已集成 writer 时缺少 Host seal"));
    cleanup ← resume_writer_cleanup ports orchestrator task (Some seal);
    if retained_for_recovery cleanup
    then mret (Some (writer_cleanup_recovery_terminal task
                (default "writer_cleanup_uncertain" (cleanup_uncertainty_code cleanup))))
    else cleanup_tasks orchestrator tasks
  end.
Definition cleanup_integrated_writers : run TerminalState (option TerminalState) :=
  snapshot ← get_snapshot;
  match integrated_writers snapshot, rp_orchestrator ports with
  | [], _ => mret None
  | task :: _, None =>
    throw (orchestration_recovery (at_task_id task) "writer_cleanup_orchestrator_unavailable"
             "root 终态前无法清理已集成 writer：Orchestrator 不可用")
  | tasks, Some orchestrator => cleanup_tasks orchestrator tasks
  end.

(** The outcome of a run as its snapshot tells it. *)
Definition outcome_of (state : RunState) (terminal : TerminalState) (accounting : ModelAccounting)
    (details : AgentResultDetails) : AgentOutcome :=
  let snapshot := rs_snapshot state in
  mkAgentOutcome (state_run_id state) (rr_parent_run_id (sn_request snapshot)) terminal accounting
    (sn_runtime_model_requests snapshot) (sn_runtime_retries snapshot) (sn_tool_calls snapshot)
    details.
Definition is_root (snapshot : RunSnapshot) : bool :=
  actor_kind (rr_actor (sn_request snapshot)) ==? ActorRoot.

(** A candidate that waits for its user: nothing is published. *)
Definition awaiting_outcome {E} (candidate : CompletionCandidate) : run E AgentOutcome :=
  snapshot ← get_snapshot;
  accounting ← cumulative_accounting ports (is_root snapshot);
  state ← get_state;
  let outcome := outcome_of state (AwaitingHostAcceptance candidate) accounting
    (AgentResultDetails_default
       <| ard_summary := cc_message candidate |>
       <| ard_completion_candidate := Some candidate |>
       <| ard_evidence := sn_evidence_receipts snapshot |>
       <| ard_host_acceptance_receipts := sn_host_acceptance_receipts snapshot |>) in
  release_lease ;; mret outcome.

(** A request that was sent and not settled may have been billed. *)
Definition hides_model_billing (snapshot : RunSnapshot) (terminal : TerminalState) : bool :=
  is_some_and (sn_pending_model snapshot) (λ pending, pma_state pending ==? InFlight)
  || match terminal with
     | RecoveryRequired ambiguity => ra_phase ambiguity ==? AmbiguityModelRequest
     | _ => false
     end.
Definition with_unknown_billing (baseline accounting : ModelAccounting) : ModelAccounting :=
  accounting <| ma_complete := false |>
             <| ma_usage_complete := false |>
             <| ma_usage_incomplete := true |>
             <| ma_billing_unknown := true |>
             <| ma_billing_unknown_attempts :=
                  N.max (ma_billing_unknown_attempts accounting)
                    (sat_add64 (ma_billing_unknown_attempts baseline) 1) |>.
Definition with_retries (snapshot : RunSnapshot) (accounting : ModelAccounting) : ModelAccounting :=
  accounting <| ma_runtime_retries := N.max (ma_runtime_retries accounting)
                                        (sn_runtime_retries snapshot) |>.

Definition final_accounting {E} (terminal : TerminalState) : run E ModelAccounting :=
  state ← get_state;
  let snapshot := rs_snapshot state in
  let baseline := rs_accounting_epoch_baseline state in
  let replay_only_completion :=
    is_completed terminal
    && (sn_runtime_model_requests snapshot =? rs_runtime_model_requests_at_launch state) in
  accounting ←
    (if replay_only_completion then
       let accounting := with_retries snapshot baseline in
       mret (if is_root snapshot then accounting <| ma_sealed := true |> else accounting)
     else cumulative_accounting ports (is_root snapshot));
  mret (with_retries snapshot
          (if hides_model_billing snapshot terminal then with_unknown_billing baseline accounting
           else accounting)).

Definition budget_can_replace (terminal : TerminalState) : bool :=
  match terminal with
  | Completed _ _ | Failed (ModelFailure _ _ _ _) => true
  | _ => false
  end.
(** A root that was denied a request for its budget has failed, whatever else it came to. *)
Definition budgeted_terminal (snapshot : RunSnapshot) (accounting : ModelAccounting)
    (terminal : TerminalState) : TerminalState :=
  if is_root snapshot && budget_can_replace terminal
     && (ma_budget_exhausted accounting || (0 <? ma_exhausted_denied accounting))
  then Failed (ApiRequestBudgetExceeded
         (default (lim_max_model_requests (rr_limits (sn_request snapshot)))
            (ma_hard_request_limit accounting)))
  else terminal.
Definition final_details (snapshot : RunSnapshot) (terminal : TerminalState) : AgentResultDetails :=
  let read_only_workspace :=
    task ← rr_agent_task (sn_request snapshot);
    if awa_access (at_workspace task) ==? AccessReadOnly then Some (at_workspace task) else None in
  AgentResultDetails_default
    <| ard_summary := match terminal with
                      | Completed message _ => message
                      | other => terminal_state_label other
                      end |>
    <| ard_completion_candidate := sn_pending_completion snapshot |>
    <| ard_evidence := sn_evidence_receipts snapshot |>
    <| ard_host_acceptance_receipts := sn_host_acceptance_receipts snapshot |>
    <| ard_workspace := read_only_workspace |>
    <| ard_workspace_state := (λ _, sn_workspace_state snapshot) <$> read_only_workspace |>.

(** The terminal event could not be published. *)
Definition terminal_not_persisted {E} (outcome : AgentOutcome) (failure : RuntimeFailure)
    : run E AgentOutcome :=
  let error := match failure with
               | StoreFailure message => message
               | other => rp_failure_debug ports other
               end in
  state ← get_state;
  loaded ← load_run (state_run_id state);
  match loaded with
  | Ok (Some replay) =>
    match sn_terminal (replay_snapshot replay) with
    | Some existing => mret existing
    | None => release_lease ;;
      mret (outcome <| ao_terminal := Failed (StoreFailure ("terminal_persist_failed：" ++ error)) |>)
    end
  | _ => release_lease ;;
    mret (outcome <| ao_terminal := Failed (StoreFailure ("terminal_persist_failed：" ++ error)) |>)
  end.

(** The writers of a root are cleaned up before its terminal state. *)
Definition settled_cleanup {E} (terminal : TerminalState) : run E TerminalState := λ rt,
  if is_root (rt_snapshot rt) then
    match cleanup_integrated_writers rt with
    | (rt, Ok (Some cleanup_terminal)) | (rt, Err cleanup_terminal) => (rt, Ok cleanup_terminal)
    | (rt, Ok None) => (rt, Ok terminal)
    end
  else (rt, Ok terminal).

(** The outcome as it is about to be published. *)
Definition final_outcome {E} (terminal : TerminalState) : run E AgentOutcome :=
  accounting ← final_accounting terminal;
  state ← get_state;
  let terminal := budgeted_terminal (rs_snapshot state) accounting terminal in
  mret (outcome_of state terminal accounting (final_details (rs_snapshot state) terminal)).
Definition publish_outcome {E} (outcome : AgentOutcome) : run E AgentOutcome := λ rt,
  match publish ports (Terminal outcome) rt with
  | (rt, Err failure) => terminal_not_persisted outcome failure rt
  | (rt, Ok _) => (rt, Ok (default outcome (sn_terminal (rt_snapshot rt))))
  end.

(** No step of it fails: whatever happens, the run has an outcome. *)
Definition finalize {E} (terminal : TerminalState) : run E AgentOutcome :=
  match terminal with
  | AwaitingHostAcceptance candidate => awaiting_outcome candidate
  | terminal =>
    terminal ← settled_cleanup terminal;
    outcome ← final_outcome terminal;
    publish_outcome outcome
  end.
End finalize.

(** ** The stores *)

#[export] Instance mem_release_port {RunCommand : Type} : ReleasePort (InMemoryRunStore RunCommand) :=
  λ st lease, match release st lease with Ok st => st | Err _ => st end.
#[export] Instance loop_release_port {St : Type} `{ReleasePort St} : ReleasePort (LoopWorld St) :=
  λ w lease, w <| lw_store := port_release (lw_store w) lease |>.
#[export] Hint Mode ReleasePort ! : typeclass_instances.
