(* ===== verification/AgentCall.v ===== *)
(** The execution of one tool call ([crates/runtime/src/agent.rs]): its preparation or recovery, the
    refusals that come before anything runs, authorization with its interaction, the execution
    with its cancellation, and the outcome that is committed.

    The tools are what they answer, by the tick of the call; what launches and settles children is
    the interface [Delegation], which a run at its depth limit never uses. *)
From Stdlib Require Import Ascii String.
From S2P Require Import Prelude.
From S2P Require Import Text.
From S2P Require Import Json.
From S2P Require Import Task.
From S2P Require Import Protocol.
From S2P Require Import Validate.
From S2P Require Import Context.
From S2P Require Import Snapshot.
From S2P Require Import Evidence.
From S2P Require Import RunEvents.
From S2P Require Import AgentEvents.
From S2P Require Import Reducer.
From S2P Require Import MemStore.
From S2P Require Import AgentTools.
From S2P Require Import AgentRuntime.
From S2P Require Import AgentControl.
From S2P Require Import AgentTurn.

Open Scope string_scope.
Open Scope N_scope.

(** ** Outcomes *)

Definition cancelled_tool_outcome (content : string) : ToolOutcome :=
  ToolOutcome_recovery_ambiguous content <| to_operation := OperationCancelled |>.
Definition cancelled_before_execution_outcome (content : string) : ToolOutcome :=
  ToolOutcome_error content
    <| to_transport := TransportNotStarted |>
    <| to_operation := OperationCancelled |>
    <| to_side_effect := SideEffectNotApplied |>
    <| to_retry := RetrySafe |>.
Definition with_failure_code (code : ToolFailureCode) (outcome : ToolOutcome) : ToolOutcome :=
  outcome <| to_failure_code := Some code |>.

(** The latest assistant turn made this call, and its result follows it. *)
Definition tool_call_completed (transcript : CanonicalTranscript) (call : ModelToolCall) : bool :=
  match rposition is_assistant transcript with
  | None => false
  | Some turn_index =>
    existsb (λ candidate, candidate ==? call) (from_option entry_tool_calls [] (transcript !! turn_index))
    && existsb (λ entry, match entry with
                         | EntryTool call_id name _ => (call_id ==? mtc_id call) && (name ==? mtc_name call)
                         | _ => false
                         end) (drop (S turn_index) transcript)
  end.

(** ** The ports *)

Record CallPorts := mkCallPorts {
  cp_workspace_access : ToolInvocation → WorkspaceAccess;
  cp_preflight : nat → ToolInvocation → option ToolOutcome;
  cp_authorize : nat → RunPermissionMode → ToolExecutionGrant → ToolInvocation → WorkspaceState →
    result string ToolAuthorizationDecision;
  cp_execute : nat → ToolInvocation → list (Input (result string ToolOutcome));
  cp_user : nat → list (Input Empty_set);
  (** [ToolOutcome::json] of the answers. *)
  cp_answers_outcome : list UserInputAnswer → result string ToolOutcome;
}.

Inductive InteractionWaitResult :=
| InteractionWaitResolved (response : UserInteractionResponse)
| InteractionWaitTerminal (terminal : TerminalState).

(** How a call ends: with an outcome, after which the run may be over, or refused before it could
    be authorized. *)
Inductive CallEnd :=
| CallOutcome (outcome : ToolOutcome) (terminal : option TerminalState)
| CallUnauthorized (outcome : ToolOutcome).

(** What launches, joins and settles the children of a run. *)
Record Delegation (St : Type) `{RunPort St} := mkDelegation {
  dg_launch_child : ModelToolCall → AgentLaunchRequest → OperationId → bool → option N →
    M (LoopWorld St) (Halt TerminalState) ToolOutcome;
  dg_pending_children : Rt (LoopWorld St) → bool;
  dg_join_children : option N → M (LoopWorld St) (Halt TerminalState) unit;
  dg_settle_children_for : TerminalState → M (LoopWorld St) (Halt TerminalState) unit;
}.
Arguments mkDelegation {St _}.
Arguments dg_launch_child {St _}.
Arguments dg_pending_children {St _}.
Arguments dg_join_children {St _}.
Arguments dg_settle_children_for {St _}.

Section call.
Context `{Codecs} {St : Type} `{RunPort St} (ports : RuntimePorts) (tools : CallPorts).
Context (delegation : Delegation St).
Abbreviation run := (M (LoopWorld St)).
Abbreviation step := (run (Halt TerminalState)).

Definition terminal_halt {A} (m : run (Halt RuntimeFailure) A) : step A :=
  map_halt store_terminal m.
Definition publish_call (event : RuntimeEventKind) : step StoredRuntimeEvent :=
  or_else (λ failure, Raised (store_terminal failure)) (publish ports event).
Definition set_recovery_tool (pending : option PendingToolAction) : step unit := λ rt,
  (rt <| rt_state := rt_state rt <| rs_recovery_tool := pending |> |>, Ok tt).

(** ** Waiting for the user *)

Fixpoint wait_for_answer (deadline : option N) (inputs : list (Input Empty_set))
    : step InteractionWaitResult :=
  match inputs with
  | [] => stop
  | Heard impossible :: _ => match impossible with end
  | HeardCommand command :: inputs =>
    effect ← terminal_halt (handle_control ports command);
    match effect with
    | EffectContinue | EffectCompletionAccepted => wait_for_answer deadline inputs
    | EffectInteractionResolved response => mret (InteractionWaitResolved response)
    | EffectTerminal terminal => mret (InteractionWaitTerminal terminal)
    end
  | HeardDeadline :: inputs =>
    if is_some deadline
    then state ← get_state; mret (InteractionWaitTerminal (timeout_terminal state deadline))
    else wait_for_answer deadline inputs
  end.

Definition wait_for_interaction (operation_id : OperationId) (prompt : UserInteractionPrompt)
    (deadline : option N) : step InteractionWaitResult :=
  snapshot ← get_snapshot;
  interaction ←
    match sn_pending_tool snapshot ≫= pta_interaction with
    | Some existing => mret existing
    | None =>
      match sn_pending_tool snapshot with
      | None => stop
      | Some pending =>
        tick ← next_tick;
        let request := mkUserInteractionRequest (rp_uuid ports tick) operation_id
          (ti_call_id (pta_invocation pending)) (ti_name (pta_invocation pending)) prompt in
        publish_call (InteractionRequested request) ;;
        mret (mkPendingUserInteraction request None)
      end
    end;
  match pui_response interaction with
  | Some response => mret (InteractionWaitResolved response)
  | None => tick ← next_tick; wait_for_answer deadline (cp_user tools tick)
  end.

(** ** The tools of the runtime itself *)

Definition ask_user (request : UserInputRequest) (operation_id : OperationId)
    (deadline : option N) : step CallEnd :=
  snapshot ← get_snapshot;
  if negb (env_interactive (rr_environment (sn_request snapshot)))
     || (actor_kind (rr_actor (sn_request snapshot)) !=? ActorRoot)
  then mret (CallOutcome (ToolOutcome_rejected
         "当前运行没有可响应 request_user_input 的交互客户端。" RetryAfterCorrection) None)
  else
    answer ← wait_for_interaction operation_id (PromptUserInput request) deadline;
    mret match answer with
    | InteractionWaitResolved (ResponseAnswered answers) =>
      CallOutcome match cp_answers_outcome tools answers with
                  | Ok outcome => outcome
                  | Err error => ToolOutcome_error ("无法编码用户回答：" ++ error)
                  end None
    | InteractionWaitResolved ResponseCancelled =>
      CallOutcome (ToolOutcome_rejected "用户取消了本次澄清请求。" RetryAfterCorrection) None
    | InteractionWaitResolved _ =>
      CallOutcome (ToolOutcome_rejected "request_user_input 收到了错误类型的交互响应。"
                     RetryNotRetryable) None
    | InteractionWaitTerminal terminal =>
      CallOutcome (cancelled_tool_outcome "等待用户输入时运行已停止。") (Some terminal)
    end.

(** The depth check comes first; past it the children are the business of [Delegation]. *)
Definition launch_child (call : ModelToolCall) (launch : AgentLaunchRequest)
    (operation_id : OperationId) (started : bool) (deadline : option N) : step ToolOutcome :=
  snapshot ← get_snapshot;
  let limits := rr_limits (sn_request snapshot) in
  if lim_max_depth limits <=? actor_depth (rr_actor (sn_request snapshot))
  then mret (ToolOutcome_rejected ("已达到子 Agent 深度上限 " ++ show_N (lim_max_depth limits) ++ "。")
               RetryNotRetryable)
  else dg_launch_child delegation call launch operation_id started deadline.

Definition run_agent_tool (call : ModelToolCall) (launch : AgentLaunchRequest)
    (operation_id : OperationId) (started : bool) (deadline : option N) : step CallEnd := λ rt,
  match launch_child call launch operation_id started deadline rt with
  | (rt, Ok outcome) => (rt, Ok (CallOutcome outcome None))
  | (rt, Err Stopped) => (rt, Err Stopped)
  | (rt, Err (Raised terminal)) =>
    (rt, Ok (CallOutcome
      (if existsb (λ lifecycle, at_call_id (atl_task lifecycle) ==? mtc_id call)
            (sn_agent_tasks (rt_snapshot rt))
       then cancelled_tool_outcome "子 Agent 生命周期未能安全完成。"
       else ToolOutcome_rejected "子 Agent 在产生生命周期副作用前被 Host 拒绝。" RetryNotRetryable)
      (Some terminal)))
  end.

(** ** Authorization *)

(** The persisted decision, or a new one that is made durable; [inl]: the tools refused to
    decide. *)
Definition authorize_call (operation_id : OperationId) (grant : ToolExecutionGrant)
    (invocation : ToolInvocation) (persisted : option ToolAuthorizationDecision)
    : step (ToolOutcome + ToolAuthorizationDecision) :=
  match persisted with
  | Some decision => mret (inr decision)
  | None =>
    snapshot ← get_snapshot;
    tick ← next_tick;
    match cp_authorize tools tick (env_permission_mode (rr_environment (sn_request snapshot))) grant
            invocation (sn_workspace_state snapshot) with
    | Err message =>
      mret (inl (ToolOutcome_rejected ("工具授权预检失败：" ++ message) RetryNotRetryable))
    | Ok decision =>
      publish_call (ToolAuthorizationCommitted operation_id decision) ;; mret (inr decision)
    end
  end.

(** What the decision and the user leave of the call: a refusal, and whether the run is over. *)
Definition ask_approval (authorization : ToolAuthorizationDecision) (operation_id : OperationId)
    (call : ModelToolCall) (deadline : option N) : step (option ToolOutcome * option TerminalState) :=
  match tad_prompt authorization, ta_parsed (mtc_arguments call) with
  | Some prompt, Some arguments =>
    answer ← wait_for_interaction operation_id (PromptApproval prompt arguments) deadline;
    mret match answer with
    | InteractionWaitResolved ResponseApproved => (None, None)
    | InteractionWaitResolved (ResponseDenied reason) =>
      (Some (ToolOutcome_rejected (default "用户拒绝了工具调用" reason) RetryAfterCorrection), None)
    | InteractionWaitResolved ResponseCancelled =>
      (Some (ToolOutcome_rejected "用户取消了工具审批" RetryAfterCorrection), None)
    | InteractionWaitResolved (ResponseAnswered _) =>
      (Some (ToolOutcome_rejected "工具审批收到了错误类型的交互响应。" RetryNotRetryable), None)
    | InteractionWaitTerminal terminal =>
      (Some (cancelled_before_execution_outcome "等待工具审批时运行已停止。"), Some terminal)
    end
  | _, _ => stop
  end.
Definition approve (authorization : ToolAuthorizationDecision) (operation_id : OperationId)
    (call : ModelToolCall) (deadline : option N) : step (option ToolOutcome * option TerminalState) :=
  snapshot ← get_snapshot;
  match tad_disposition authorization with
  | DispositionDeny =>
    mret (Some (with_failure_code InvocationRejected
            (ToolOutcome_rejected ("工具调用被 Host 权限策略拒绝：" ++ tad_reason authorization)
               RetryNotRetryable)), None)
  | DispositionAsk =>
    if negb (env_interactive (rr_environment (sn_request snapshot)))
    then mret (Some (ToolOutcome_rejected "当前非交互运行无法批准该工具调用。" RetryAfterCorrection), None)
    else ask_approval authorization operation_id call deadline
  | DispositionAllow => mret (None, None)
  end.

(** The workspace must still be the one that was authorized. *)
Definition stale_authorization (authorization : ToolAuthorizationDecision)
    (observed : result (string * string) string) : option ToolOutcome :=
  match ws_revision (tad_workspace_state authorization), observed with
  | Known authorized, Ok current =>
    if authorized !=? current then
      Some (with_failure_code AuthorizationStale
        (ToolOutcome_rejected "工具授权后工作区 revision 已变化；请先读取最新状态再重新调用。"
           RetryAfterCorrection))
    else None
  | Known _, Err (_, message) =>
    Some (with_failure_code AuthorizationStale
      (ToolOutcome_rejected ("工具启动前无法复核已授权的工作区 revision：" ++ message)
         RetryAfterCorrection))
  | Unknown _, _ => None
  end.
Definition recheck_workspace (rejected : option ToolOutcome) (started : bool)
    (authorization : ToolAuthorizationDecision) : step (option ToolOutcome) :=
  if is_none rejected && negb started then
    tick ← next_tick;
    mret (stale_authorization authorization (rp_observe_workspace_revision ports tick))
  else mret rejected.

(** ** Execution *)

Fixpoint await_execution (access : WorkspaceAccess) (deadline : option N)
    (inputs : list (Input (result string ToolOutcome))) : step CallEnd :=
  match inputs with
  | [] => stop
  | Heard (Ok outcome) :: _ =>
    mret (CallOutcome (with_workspace_access_guarantee outcome access) None)
  | Heard (Err message) :: _ =>
    mret (CallOutcome (with_workspace_access_guarantee
            (ToolOutcome_transport_failure ("工具执行失败：" ++ message)) access) None)
  | HeardCommand command :: inputs =>
    effect ← terminal_halt (handle_control ports command);
    match effect with
    | EffectContinue | EffectInteractionResolved _ | EffectCompletionAccepted =>
      await_execution access deadline inputs
    | EffectTerminal terminal =>
      mret (CallOutcome (with_workspace_access_guarantee (cancelled_tool_outcome
              match terminal with
              | Interrupted => "工具执行已中断。"
              | _ => "工具执行已取消。"
              end) access) (Some terminal))
    end
  | HeardDeadline :: inputs =>
    if is_some deadline then
      state ← get_state;
      mret (CallOutcome (with_workspace_access_guarantee
              (cancelled_tool_outcome "工具执行超过本次运行期限。") access)
              (Some (timeout_terminal state deadline)))
    else await_execution access deadline inputs
  end.

(** The start is durable before the tool runs; a recovered one is started already. *)
Definition start_tool (operation_id : OperationId) (invocation : ToolInvocation) (started : bool)
    : step unit :=
  if started then
    snapshot ← get_snapshot; say (CallTool (sn_last_sequence snapshot) operation_id invocation)
  else
    stored ← publish_call (ToolExecutionStarted operation_id);
    say (CallTool (sre_sequence stored) operation_id invocation).

Definition run_tool (call : ModelToolCall) (operation_id : OperationId) (started : bool)
    (persisted : option ToolAuthorizationDecision) (grant : ToolExecutionGrant)
    (invocation : ToolInvocation) (access : WorkspaceAccess) (deadline : option N) : step CallEnd :=
  authorized ← authorize_call operation_id grant invocation persisted;
  match authorized with
  | inl outcome => mret (CallUnauthorized outcome)
  | inr authorization =>
    '(rejected, terminal) ← approve authorization operation_id call deadline;
    rejected ← recheck_workspace rejected started authorization;
    match rejected with
    | Some outcome => mret (CallOutcome outcome terminal)
    | None =>
      start_tool operation_id invocation started ;;
      tick ← next_tick;
      await_execution access deadline (cp_execute tools tick invocation)
    end
  end.

(** ** The call *)

(** What is refused before anything is asked or started; the tools' own preflight comes last. *)
Definition refuse_call (request : RunRequest) (authority : ModelToolAuthority) (call : ModelToolCall)
    (advertised : bool) (access : WorkspaceAccess)
    (builtin_input : result RuntimeBuiltinInputError (option RuntimeBuiltinInput))
    (execution : result string ToolInvocation) : option ToolOutcome :=
  if negb advertised then
    Some (with_failure_code UnknownTool (ToolOutcome_rejected
      ("工具 '" ++ mtc_name call ++ "' 不在当前请求实际提供的工具目录中。") RetryAfterCorrection))
  else if negb (ToolPolicy_permits (rr_tool_policy request) (mtc_name call)) then
    Some (ToolOutcome_rejected ("工具 '" ++ mtc_name call ++ "' 未获准调用。") RetryNotRetryable)
  else if is_none (ta_parsed (mtc_arguments call)) then
    Some (with_failure_code MalformedArguments
      (ToolOutcome_rejected "JSON 参数格式错误，请重新生成有效对象。" RetryAfterCorrection))
  else match execution with
  | Err message =>
    Some (ToolOutcome_rejected ("冻结 verifier 调用无效：" ++ message) RetryAfterCorrection)
  | Ok _ =>
    match builtin_input with
    | Err error => Some (runtime_builtin_input_outcome error)
    | Ok _ =>
      if negb (if mtc_name call ==? AGENT_TOOL_NAME then permits_agent authority access
               else permits_direct_invocation authority access)
      then Some (ToolOutcome_rejected ("当前 Agent actor 无权执行工具 '" ++ mtc_name call ++
                                       "' 所需的工作区能力。") RetryNotRetryable)
      else None
    end
  end.

Definition call_access (call : ModelToolCall) (invocation : ToolInvocation)
    (builtin_input : result RuntimeBuiltinInputError (option RuntimeBuiltinInput))
    (execution : result string ToolInvocation) : WorkspaceAccess :=
  match builtin_input with
  | Ok (Some (BuiltinAgent launch)) =>
    match al_workspace_access launch with
    | AccessReadOnly => WorkspaceReadOnly
    | AccessIsolatedWrite => WorkspaceMayWrite
    end
  | _ =>
    if mtc_name call ==? AGENT_TOOL_NAME then agent_tool_workspace_access call
    else if mtc_name call ==? REQUEST_USER_INPUT_TOOL_NAME then WorkspaceReadOnly
    else cp_workspace_access tools match execution with Ok execution => execution | Err _ => invocation end
  end.

(** The operation of the call: the one an earlier process prepared, or a new one. *)
Definition claim_operation (call : ModelToolCall) (invocation : ToolInvocation)
    (access : WorkspaceAccess)
    : step (OperationId * bool * option ToolAuthorizationDecision) :=
  state ← get_state;
  match rs_recovery_tool state with
  | Some pending =>
    if ti_call_id (pta_invocation pending) ==? mtc_id call then
      set_recovery_tool None ;;
      mret (pta_operation_id pending, pta_state pending ==? InFlight, pta_authorization pending)
    else throw (Raised (invalid_model "persisted prepared tool does not match the next model call"))
  | None =>
    tick ← next_tick;
    let operation_id := rp_uuid ports tick in
    publish_call (ToolPrepared operation_id invocation access) ;;
    mret (operation_id, false, None)
  end.

(** A mutating tool that is under way advances the workspace, unless nothing was applied. *)
Definition outcome_observes (snapshot : RunSnapshot) (call : ModelToolCall) (outcome : ToolOutcome)
    (terminal : option TerminalState) : bool :=
  let unintegrated_writer_recovery :=
    (mtc_name call ==? AGENT_TOOL_NAME)
    && is_some_and terminal is_recovery_required
    && existsb (λ lifecycle, (at_call_id (atl_task lifecycle) ==? mtc_id call)
                             && is_unintegrated_writer_recovery lifecycle) (sn_agent_tasks snapshot) in
  is_some_and (sn_pending_tool snapshot) (λ pending,
    (pta_workspace_access pending ==? WorkspaceMayWrite)
    && (pta_state pending ==? InFlight)
    && negb ((ti_name (pta_invocation pending) ==? AGENT_TOOL_NAME)
             && ((to_side_effect outcome ==? SideEffectNotApplied) || unintegrated_writer_recovery))).

Definition commit_tool_outcome (operation_id : OperationId) (call : ModelToolCall)
    (outcome : ToolOutcome) (workspace_state : option WorkspaceState) : step unit :=
  publish_call (ToolOutcomeCommitted operation_id (mtc_id call) (mtc_name call) outcome workspace_state) ;;
  mret tt.

Definition settle_call (operation_id : OperationId) (call : ModelToolCall) (outcome : ToolOutcome)
    (terminal : option TerminalState) : step unit :=
  snapshot ← get_snapshot;
  workspace_state ←
    (if outcome_observes snapshot call outcome terminal
     then observed ← observe_workspace_state ports true; mret (Some observed)
     else mret None);
  commit_tool_outcome operation_id call outcome workspace_state ;;
  match terminal with
  | Some terminal => throw (Raised terminal)
  | None => mret tt
  end.

(** Who handles a call that is not refused. *)
Definition dispatch_call (call : ModelToolCall) (operation_id : OperationId) (started : bool)
    (persisted : option ToolAuthorizationDecision) (grant : ToolExecutionGrant)
    (builtin_input : result RuntimeBuiltinInputError (option RuntimeBuiltinInput))
    (execution : result string ToolInvocation) (access : WorkspaceAccess) (deadline : option N)
    : step CallEnd :=
  match execution with
  | Err _ => stop
  | Ok execution =>
    if mtc_name call ==? AGENT_TOOL_NAME then
      match builtin_input with
      | Ok (Some (BuiltinAgent launch)) => run_agent_tool call launch operation_id started deadline
      | _ => stop
      end
    else if mtc_name call ==? REQUEST_USER_INPUT_TOOL_NAME then
      match builtin_input with
      | Ok (Some (BuiltinUserInput request)) => ask_user request operation_id deadline
      | _ => stop
      end
    else
      tick ← next_tick;
      match cp_preflight tools tick execution with
      | Some outcome => mret (CallOutcome outcome None)
      | None => run_tool call operation_id started persisted grant execution access deadline
      end
  end.

Definition execute_call (call : ModelToolCall) (advertised : bool) (deadline : option N) : step unit :=
  state ← get_state;
  let request := sn_request (rs_snapshot state) in
  let invocation := mkToolInvocation (state_run_id state) (mtc_id call) (mtc_name call)
                      (mtc_arguments call) in
  match for_request request with
  | None => stop
  | Some authority =>
    let builtin_input := parse_runtime_builtin_input call (authority ==? Coordinator) in
    let resolved := resolve_tool_execution (rr_task_contract request) invocation in
    let execution := rte_invocation resolved in
    let access := call_access call invocation builtin_input execution in
    '(operation_id, started, persisted) ← claim_operation call invocation access;
    ended ←
      match refuse_call request authority call advertised access builtin_input execution with
      | Some outcome => mret (CallOutcome outcome None)
      | None => dispatch_call call operation_id started persisted (rte_grant resolved) builtin_input
                  execution access deadline
      end;
    match ended with
    | CallOutcome outcome terminal => settle_call operation_id call outcome terminal
    | CallUnauthorized outcome => commit_tool_outcome operation_id call outcome None
    end
  end.
End call.
