(* ===== verification/AgentLoop.v ===== *)
(** The loop of a run ([crates/runtime/src/agent.rs]): what a process takes up from the log of an
    earlier one, the turns with their tool calls and completion reviews, and the terminal outcome.

    One iteration of the loop is [loop_turn]; the loop itself runs on fuel.  What the outside says is
    what the ports of the parts say, and the commands that wait when the loop looks. *)
From Stdlib Require Import Ascii String.
From S2P Require Import Prelude.
From S2P Require Import Text.
From S2P Require Import Json.
From S2P Require Import Task.
From S2P Require Import Protocol.
From S2P Require Import Validate.
From S2P Require Import Context.
From S2P Require Import Snapshot.
From S2P Require Import Evidence.
From S2P Require Import RunEvents.
From S2P Require Import AgentEvents.
From S2P Require Import Reducer.
From S2P Require Import MemStore.
From S2P Require Import AgentTools.
From S2P Require Import AgentRuntime.
From S2P Require Import AgentControl.
From S2P Require Import AgentTurn.
From S2P Require Import AgentCompletion.
From S2P Require Import AgentCall.

Open Scope string_scope.
Open Scope N_scope.

(** ** The state of a process *)

(** What a process takes up from the snapshot it acquired. *)
Definition response_is_current (snapshot : RunSnapshot) : bool :=
  is_some (sn_last_model_response_sequence snapshot)
  && (sn_last_model_response_sequence snapshot ==? sn_last_model_activity_sequence snapshot).
Definition launch_state (snapshot : RunSnapshot) (lease : RunLease)
    (resume_accounting : option ModelAccounting) (model_accounting_includes_baseline resumed : bool)
    (started_unix_ms : N) : RunState :=
  mkRunState snapshot lease (default (sn_accounting snapshot) resume_accounting)
    (sn_runtime_model_requests snapshot) model_accounting_includes_baseline started_unix_ms
    (sn_pending_model snapshot) (sn_pending_tool snapshot)
    (if response_is_current snapshot then sn_last_model_output snapshot else None)
    (if resumed then sn_last_model_failure snapshot else None)
    (pending_child_run_ids snapshot).

(** The permit of the last request is reserved unless that request is admitted already. *)
Definition terminal_request_is_already_admitted (state : RunState) : bool :=
  is_some_and (rs_recovery_model state) (λ pending, mr_tools (pma_request pending) ==? [])
  || is_some (rs_recovery_output state)
     && (sn_last_model_advertised_tool_names (rs_snapshot state) ==? []).
Definition launch_budget (state : RunState) (budget : RuntimeBudget) (terminal_model_request : bool)
    : RuntimeBudget * bool :=
  if terminal_model_request then (budget, true)
  else if terminal_request_is_already_admitted state then (budget, false)
  else match reserve_terminal_model_request budget with
       | Some budget => (budget, true)
       | None => (budget, false)
       end.

(** Nothing is under way, and nothing is to be taken up. *)
Definition safe_fresh_boundary (state : RunState) : bool :=
  let snapshot := rs_snapshot state in
  is_none (rs_recovery_model state) && is_none (rs_recovery_output state)
  && is_none (rs_recovery_tool state) && is_none (sn_pending_model snapshot)
  && is_none (sn_pending_tool snapshot) && is_none (sn_pending_completion snapshot)
  && is_none (sn_pending_host_verification snapshot) && (pending_child_run_ids snapshot ==? []).

(** The rejection of the candidate that is durable with the failure of its verifier, and that of the
    stop that was the last response. *)
Definition recovered_rejection (snapshot : RunSnapshot) (candidate : CompletionCandidate)
    : option CompletionRejection :=
  failure ← sn_last_host_verification_failure snapshot;
  if (cr_candidate_id (hvf_rejection failure) ==? cc_id candidate)
     && (cr_generation_id (hvf_rejection failure) ==? cc_generation_id candidate)
  then Some (hvf_rejection failure) else None.
Definition response_candidate_id (snapshot : RunSnapshot) : CompletionCandidateId :=
  completion_candidate_id (default 0 (sn_last_model_response_sequence snapshot)).
Definition consumed_rejection (state : RunState) : option CompletionRejection :=
  if is_none (rs_recovery_model state) && is_some (rs_recovery_output state) then
    rejection ← sn_last_completion_rejection (rs_snapshot state);
    if is_some_and (rr_task_contract (sn_request (rs_snapshot state)))
         (λ contract, cr_generation_id rejection ==? contract_generation_id contract)
       && (cr_candidate_id rejection ==? response_candidate_id (rs_snapshot state))
    then Some rejection else None
  else None.

Definition stopped_failure (limits : RunLimits) (stopped : StoppedModelFailure) : RuntimeFailure :=
  match smf_reason stopped with
  | StopModelRequestBudgetExceeded => ModelRequestBudgetExceeded (lim_max_model_requests limits)
  | _ => let failure := smf_failure stopped in
         ModelFailure (maf_code failure) (maf_category failure) (maf_message failure)
           (maf_retryable failure)
  end.
Definition finish_failure (reason : ModelFinishReason) : option RuntimeFailure :=
  match reason with
  | FinishLength => Some OutputLimit
  | FinishContentFilter => Some ContentFiltered
  | FinishInsufficientSystemResource => Some InsufficientSystemResource
  | _ => None
  end.

Section loop.
Context `{Codecs} {St : Type} `{RunPort St} (ports : RuntimePorts) (loop : LoopPorts).
Context (tools : CallPorts) (verifiers : VerifierPort) (delegation : Delegation St).
(** The commands that wait at a boundary. *)
Context (waiting : nat → list ControlCommand).
Abbreviation run := (M (LoopWorld St)).
Abbreviation step := (run (Halt TerminalState)).

(** ** The ways out *)

Definition over {A} (terminal : TerminalState) : step A := throw (Raised terminal).
(** [settle_children_for] goes through the pending children, one after the other. *)
Definition settled_terminal (terminal : TerminalState) : run (Halt TerminalState) TerminalState := λ rt,
  if dg_pending_children delegation rt then
    match dg_settle_children_for delegation terminal rt with
    | (rt, Ok _) => (rt, Ok terminal)
    | (rt, Err (Raised terminal)) => (rt, Ok terminal)
    | (rt, Err Stopped) => (rt, Err Stopped)
    end
  else (rt, Ok terminal).
Definition settled {A} (terminal : TerminalState) : step A :=
  terminal ← settled_terminal terminal; over terminal.

(** A failure that ends the run at once, and one that settles the children first. *)
Definition failing {A} (m : run (Halt RuntimeFailure) A) : step A := map_halt Failed m.
Definition settling {A} (m : step A) : step A := λ rt,
  match m rt with
  | (rt, Err (Raised terminal)) => settled terminal rt
  | other => other
  end.
Definition boundary_reconcile : step unit :=
  or_else (λ message, Raised (Failed (StoreFailure message))) (reconcile_workspace ports).

Definition forget_recovery_model : step unit := λ rt,
  (rt <| rt_state := rt_state rt <| rs_recovery_model := None |> |>, Ok tt).
Definition forget_recovery_output : step unit := λ rt,
  (rt <| rt_state := rt_state rt <| rs_recovery_output := None |> |>, Ok tt).
Definition forget_recovery_failure : step unit := λ rt,
  (rt <| rt_state := rt_state rt <| rs_recovery_failure := None |> |>, Ok tt).

Definition drain_waiting : run (Halt RuntimeFailure) (option TerminalState) :=
  tick ← next_tick; drain_controls ports (waiting tick).

(** A rejected candidate goes on only with a request left and a workspace to change. *)
Definition require_transition (rejection : CompletionRejection) : step unit :=
  w ← get_world;
  if (cr_required_transition rejection !=? EffectiveWorkspaceMutation)
     || negb (has_unreserved_model_request (lw_budget w))
  then over (Blocked (cr_reason rejection)) else mret tt.

(** A review that asks for another turn gets it while a request is left. *)
Definition review_candidate (candidate : CompletionCandidate) : step unit := λ rt,
  match accept_completion_candidate ports verifiers candidate rt with
  | (rt, Ok (message, decision)) => (rt, Err (Raised (Completed message decision)))
  | (rt, Err (Raised (ReviewRetry reason))) =>
    if has_unreserved_model_request (lw_budget (rt_store rt)) then (rt, Ok tt)
    else (rt, Err (Raised (Blocked reason)))
  | (rt, Err (Raised (ReviewBlocked reason))) => (rt, Err (Raised (Blocked reason)))
  | (rt, Err Stopped) => (rt, Err Stopped)
  end.

(** ** Taking up a run *)

Definition await_acceptance (candidate : CompletionCandidate) : step unit :=
  snapshot ← get_snapshot;
  if task_requires_host_acceptance snapshot && is_none (current_host_acceptance snapshot candidate) then
    drained ← failing drain_waiting;
    match drained with
    | Some terminal => settled terminal
    | None =>
      snapshot ← get_snapshot;
      if is_none (current_host_acceptance snapshot candidate)
      then over (AwaitingHostAcceptance candidate) else mret tt
    end
  else mret tt.

Definition resume_candidate (candidate : CompletionCandidate) : step unit :=
  snapshot ← get_snapshot;
  match recovered_rejection snapshot candidate with
  | Some rejection =>
    failing (raised (publish ports (CompletionRejected rejection))) ;;
    forget_recovery_output ;;
    require_transition rejection
  | None => await_acceptance candidate ;; review_candidate candidate
  end.

Definition skip_consumed_response : step unit :=
  state ← get_state;
  match consumed_rejection state with
  | Some rejection => forget_recovery_output ;; require_transition rejection
  | None => mret tt
  end.

(** An action that was under way is never repeated; a durable control, failure or candidate is
    carried to its end before anything new begins. *)
Definition resume : step unit :=
  state ← get_state;
  match recovery_ambiguity state with
  | Some ambiguity => over (RecoveryRequired ambiguity)
  | None =>
    match sn_pending_control (rs_snapshot state) with
    | Some pending => settled (terminal_for_control (pc_action pending))
    | None =>
      match rs_recovery_failure state with
      | Some stopped =>
        forget_recovery_failure ;;
        over (Failed (stopped_failure (rr_limits (sn_request (rs_snapshot state))) stopped))
      | None =>
        match sn_pending_completion (rs_snapshot state) with
        | Some candidate => resume_candidate candidate
        | None => mret tt
        end ;;
        skip_consumed_response
      end
    end
  end.

(** ** One turn of the loop *)

(** The output of an earlier process, a request that it prepared, or a new one. *)
Definition take_turn (deadline : option N) : step ModelTurnControl :=
  state ← get_state;
  match rs_recovery_output state with
  | Some output =>
    forget_recovery_output ;;
    mret (TurnOutput (ModelTurnOutput_new output
            (sn_last_model_advertised_tool_names (rs_snapshot state))))
  | None =>
    match rs_recovery_model state with
    | Some pending =>
      forget_recovery_model ;;
      settling (failing (model_turn ports loop deadline (Some pending)))
    | None => settling (failing (model_turn ports loop deadline None))
    end
  end.

Definition open_boundary (deadline : option N) : step unit :=
  drained ← settling (failing drain_waiting);
  match drained with Some terminal => settled terminal | None => mret tt end ;;
  tick ← next_tick;
  state ← get_state;
  (if deadline_expired deadline (rp_clock ports tick) then settled (timeout_terminal state deadline)
   else mret tt) ;;
  (if safe_fresh_boundary state then
     (if negb (sn_pending_steers (rs_snapshot state) ==? []) then failing (flush_pending_steers ports)
      else mret tt) ;;
     boundary_reconcile
   else mret tt).

(** What no turn goes on from. *)
Definition output_refusal (turn : ModelTurnOutput) : option TerminalState :=
  match finish_failure (mto_finish_reason turn) with
  | Some failure => Some (Failed failure)
  | None =>
    match validate_model_tool_calls (mto_tool_calls turn) with
    | Err message => Some (invalid_model message)
    | Ok _ =>
      if negb (mto_tool_calls turn ==? []) && (mto_advertised_tool_names turn ==? [])
      then Some (invalid_model "模型对未提供工具的请求返回了工具调用")
      else if (mto_tool_calls turn ==? []) && (mto_finish_reason turn !=? FinishStop)
      then Some (invalid_model "finish_reason=tool_calls without tool calls")
      else if negb (mto_tool_calls turn ==? []) && (mto_finish_reason turn !=? FinishToolCalls)
      then Some (invalid_model "tool calls require finish_reason=tool_calls")
      else None
    end
  end.

(** A stop proposes its content as the completion, unless steers wait. *)
Definition propose_completion (turn : ModelTurnOutput) : step unit :=
  snapshot ← get_snapshot;
  if negb (sn_pending_steers snapshot ==? []) then failing (flush_pending_steers ports)
  else if trim_is_empty (mto_content turn) then over (Failed EmptyModelOutput)
  else match rr_task_contract (sn_request snapshot) with
  | None => stop
  | Some contract =>
    boundary_reconcile ;;
    snapshot ← get_snapshot;
    let candidate := mkCompletionCandidate (response_candidate_id snapshot)
      (contract_generation_id contract) (mto_content turn) (sn_workspace_state snapshot) in
    failing (raised (publish ports (CompletionProposed candidate))) ;;
    snapshot ← get_snapshot;
    if task_requires_host_acceptance snapshot then over (AwaitingHostAcceptance candidate)
    else review_candidate candidate
  end.

(** A new call takes a tool from the budget; one that an earlier process prepared has it. *)
Definition reserve_call (call : ModelToolCall) : step unit :=
  state ← get_state;
  if is_some_and (rs_recovery_tool state)
       (λ pending, ti_call_id (pta_invocation pending) ==? mtc_id call)
  then mret tt
  else
    w ← get_world;
    match reserve_tool (lw_budget w) with
    | Some budget => put_budget budget
    | None => settled (Failed (ToolBudgetExceeded
                (lim_max_tool_calls (rr_limits (sn_request (rs_snapshot state))))))
    end.
Definition run_call (turn : ModelTurnOutput) (deadline : option N) (call : ModelToolCall) : step unit :=
  snapshot ← get_snapshot;
  if tool_call_completed (sn_transcript snapshot) call then mret tt
  else
    reserve_call call ;;
    settling (execute_call ports tools delegation call
      (existsb (λ name, name ==? mtc_name call) (mto_advertised_tool_names turn)) deadline).
Fixpoint run_calls (turn : ModelTurnOutput) (deadline : option N) (calls : list ModelToolCall)
    : step unit :=
  match calls with
  | [] => mret tt
  | call :: calls => run_call turn deadline call ;; run_calls turn deadline calls
  end.
Definition join_children (deadline : option N) : step unit := λ rt,
  if dg_pending_children delegation rt
  then settling (dg_join_children delegation deadline) rt else (rt, Ok tt).

Definition loop_turn (deadline : option N) : step unit :=
  open_boundary deadline ;;
  control ← take_turn deadline;
  match control with
  | TurnTerminal terminal => settled terminal
  | TurnOutput turn =>
    match output_refusal turn with
    | Some terminal => settled terminal
    | None =>
      if mto_tool_calls turn ==? [] then propose_completion turn
      else
        run_calls turn deadline (mto_tool_calls turn) ;;
        join_children deadline ;;
        settling (failing (flush_pending_steers ports))
    end
  end.

(** ** The run *)

Fixpoint turns (fuel : nat) (deadline : option N) : step unit :=
  match fuel with
  | O => stop
  | S fuel => loop_turn deadline ;; turns fuel deadline
  end.
(** Every turn costs a request of the budget, but the two that an earlier process may have left. *)
Definition turns_fuel (snapshot : RunSnapshot) : nat :=
  S (S (S (N.to_nat (lim_max_model_requests (rr_limits (sn_request snapshot)))))).
Definition run_until_terminal (deadline : option N) (resumed : bool) : step unit :=
  snapshot ← get_snapshot;
  (if resumed then resume else mret tt) ;;
  turns (turns_fuel snapshot) deadline.

(** A process takes the run to its outcome; it stops where it panics or is killed. *)
Definition run_to_outcome `{ReleasePort St} (resumed : bool) : run (Halt Empty_set) AgentOutcome := λ rt,
  match run_until_terminal (effective_deadline (sn_request (rt_snapshot rt))) resumed rt with
  | (rt, Err (Raised terminal)) => finalize ports terminal rt
  | (rt, _) => (rt, Err Stopped)
  end.
End loop.
