(* ===== verification/AgentEmits.v ===== *)
(** What a step of the runtime publishes: a frame for the snapshot of the run, and the durable log
    it extends, whether it succeeds or fails and also when the live snapshot has fallen behind. *)
From Stdlib Require Import Ascii String.
From stdpp Require Import relations.
From S2P Require Import Prelude.
From S2P Require Import Text.
From S2P Require Import Json.
From S2P Require Import Task.
From S2P Require Import Protocol.
From S2P Require Import Validate.
From S2P Require Import Context.
From S2P Require Import Snapshot.
From S2P Require Import Evidence.
From S2P Require Import RunEvents.
From S2P Require Import AgentEvents.
From S2P Require Import Reducer.
From S2P Require Import Steps.
From S2P Require Import LogFacts.
From S2P Require Import MemStore.
From S2P Require Import MemStoreFacts.
From S2P Require Import AgentRuntime.
From S2P Require Import AgentRuntimeFacts.
From S2P Require Import AgentWriter.

Open Scope string_scope.
Open Scope list_scope.
Open Scope N_scope.

(** The snapshot goes from [s] to [s'] by accepted events of the class [C]. *)
Definition moves `{Codecs} (C : RuntimeEventKind → Prop) : RunSnapshot → RunSnapshot → Prop :=
  rtc (λ s s', ∃ e, C (sre_event e) ∧ apply_event s e = Ok s').

Lemma moves_keep `{Codecs} C (φ : RunSnapshot → Prop) s s' :
  (∀ s1 run_id n ev s2, C ev → dispatch s1 run_id n ev = Ok s2 → φ s1 →
     φ (s2 <| sn_last_sequence := n |>)) →
  moves C s s' → φ s → φ s'.
Proof.
  intros Hstep. induction 1 as [|s1 s2 s3 (e & He & Happ) _ IH]; [done|]. intros Hφ. apply IH.
  apply run_step_inv in Happ as (r & s' & _ & Hd & ->). by eapply Hstep.
Qed.
Lemma moves_request `{Codecs} C s s' : moves C s s' → sn_request s' = sn_request s.
Proof.
  intros Hm. apply (moves_keep C (λ s1, sn_request s1 = sn_request s)) in Hm; [done| |done].
  intros s1 r n ev s2 _ Hd <-. by apply dispatch_request in Hd.
Qed.
Lemma moves_weaken `{Codecs} (C C' : RuntimeEventKind → Prop) s s' :
  (∀ ev, C ev → C' ev) → moves C s s' → moves C' s s'.
Proof.
  intros HC. induction 1 as [|s1 s2 s3 (e & He & Happ) _ IH]; [constructor|].
  eapply rtc_l; [|exact IH]. eauto.
Qed.

Section emits.
Context {St : Type} `{RunPortLaws St} (ports : RuntimePorts) (C : RuntimeEventKind → Prop).
Implicit Types (rt : Rt St) (log : list StoredRuntimeEvent).

(** The store holds the log of the run; the live snapshot may be behind it. *)
Record holds rt log : Prop := {
  ho_log : port_holds (rt_store rt) (rs_lease (rt_state rt)) log;
  ho_run : state_run_id (rt_state rt) = rl_run_id (rs_lease (rt_state rt));
}.

Lemma live_log rt log : live ports rt log → holds rt log.
Proof.
  intros Hl. pose proof (live_holds _ _ _ Hl) as Hh. split; [done|].
  destruct (port_holds_log _ _ _ Hh) as (_ & s & Hs & Hid).
  rewrite (live_snapshot _ _ _ Hl) in Hs. injection Hs as <-. unfold state_run_id.
  fold (rt_snapshot rt). by rewrite Hid.
Qed.

Lemma same_state rt rt' :
  rt_state rt' = rt_state rt →
  rt_state rt' = rt_state rt <| rs_snapshot := rt_snapshot rt' |> ∧ rt_snapshot rt' = rt_snapshot rt.
Proof. unfold rt_snapshot. intros ->. by destruct (rt_state rt). Qed.

(** A step that publishes events of the class and changes nothing else of the run. *)
Definition emits {E A} (m : M St E A) : Prop := ∀ rt log rt' r,
  holds rt log → m rt = (rt', r) →
  (∃ log', log `prefix_of` log' ∧ holds rt' log') ∧
  moves C (rt_snapshot rt) (rt_snapshot rt') ∧
  rt_state rt' = rt_state rt <| rs_snapshot := rt_snapshot rt' |>.

Lemma emits_same {E A} (m : M St E A) :
  (∀ rt rt' r, m rt = (rt', r) → rt_state rt' = rt_state rt ∧
     ∀ log, port_holds (rt_store rt) (rs_lease (rt_state rt)) log →
            port_holds (rt_store rt') (rs_lease (rt_state rt)) log) → emits m.
Proof.
  intros Hm rt log rt' r [Hl Hrun] Hr. apply Hm in Hr as [Hs Hl'].
  destruct (same_state _ _ Hs) as [Hst Hsn]. split; [|split; [rewrite Hsn; apply rtc_refl|done]].
  exists log. split; [done|]. split; rewrite Hs; auto.
Qed.
Lemma emits_ret {E A} (a : A) : emits (E := E) (mret a).
Proof. apply emits_same. by intros ??? [= <- <-]. Qed.
Lemma emits_throw {E A} (e : E) : emits (A := A) (throw e).
Proof. apply emits_same. by intros ??? [= <- <-]. Qed.
Lemma emits_lift {E A} (x : result E A) : emits (lift x).
Proof. apply emits_same. by intros ??? [= <- <-]. Qed.
Lemma emits_get_snapshot {E} : emits (E := E) get_snapshot.
Proof. apply emits_same. by intros ??? [= <- <-]. Qed.
Lemma emits_get_state {E} : emits (E := E) get_state.
Proof. apply emits_same. by intros ??? [= <- <-]. Qed.
Lemma emits_next_tick {E} : emits (E := E) next_tick.
Proof. apply emits_same. by intros ??? [= <- <-]. Qed.
Lemma emits_bind {E A B} (m : M St E A) (f : A → M St E B) :
  emits m → (∀ a, emits (f a)) → emits (m ≫= f).
Proof.
  intros Hm Hf rt log rt2 r Hh. rewrite M_bind_run. destruct (m rt) as [rt1 [a|e]] eqn:Hr.
  - destruct (Hm _ _ _ _ Hh Hr) as ((log1 & Hlog1 & Hh1) & Hm1 & Hs1). intros Hr2.
    destruct (Hf _ _ _ _ _ Hh1 Hr2) as ((log2 & Hlog2 & Hh2) & Hm2 & Hs2).
    split; [exists log2; by split; [etrans|]|]. split; [by etrans|]. rewrite Hs2, Hs1. done.
  - intros [= <- <-]. by eapply Hm.
Qed.
Lemma emits_or_else {E F A} (f : E → F) (m : M St E A) : emits m → emits (or_else f m).
Proof.
  intros Hm rt log rt' r Hh. unfold or_else. destruct (m rt) as [rt1 r1] eqn:Hr. intros [= <- <-].
  by eapply Hm.
Qed.
(** Both ways out of a step. *)
Lemma emits_catch {E F A B} (m : M St E A) (f : A → M St F B) (g : E → M St F B) :
  emits m → (∀ a, emits (f a)) → (∀ e, emits (g e)) →
  emits (λ rt, match m rt with (rt, Ok a) => f a rt | (rt, Err e) => g e rt end).
Proof.
  intros Hm Hf Hg rt log rt2 r Hh. destruct (m rt) as [rt1 r1] eqn:Hr.
  destruct (Hm _ _ _ _ Hh Hr) as ((log1 & Hlog1 & Hh1) & Hm1 & Hs1). intros Hr2.
  assert ((∃ log', log1 `prefix_of` log' ∧ holds rt2 log') ∧
    moves C (rt_snapshot rt1) (rt_snapshot rt2) ∧
    rt_state rt2 = rt_state rt1 <| rs_snapshot := rt_snapshot rt2 |>)
    as ((log2 & Hlog2 & Hh2) & Hm2 & Hs2) by (destruct r1; [by eapply Hf|by eapply Hg]).
  split; [exists log2; by split; [etrans|]|]. split; [by etrans|]. rewrite Hs2, Hs1. done.
Qed.

(** ** Publication *)

Lemma extends_by_prefix log log' p : extends_by log log' p → log `prefix_of` log'.
Proof. intros [->|(? & -> & _)]; [done|by apply prefix_app_r]. Qed.

Lemma emits_append_once {E} p : emits (E := E) (append_once ports p).
Proof.
  intros rt log rt' r [Hl Hrun] Hr. pose proof (append_once_total ports (E := E) p rt) as (rt1 & a & Ha).
  rewrite Hr in Ha. injection Ha as -> ->.
  apply (append_once_cases ports rt log) in Hr as (Hs & _ & _ & log' & Hh & Hx & _); [|done].
  destruct (same_state _ _ Hs) as [Hst Hsn]. split; [|split; [rewrite Hsn; apply rtc_refl|done]].
  exists log'. split; [by eapply extends_by_prefix|]. by split; rewrite Hs.
Qed.
Lemma emits_apply_stored e : C (sre_event e) → emits (apply_stored ports e).
Proof.
  intros HC rt log rt' r [Hl Hrun]. rewrite apply_stored_eq.
  destruct (apply_event (rt_snapshot rt) e) as [s|error] eqn:Happ; intros [= <- <-].
  - split; [|split; [|done]].
    + exists log. split; [done|]. split; [done|]. cbn. etrans; [|exact Hrun]. unfold state_run_id. cbn.
      by rewrite (step_request _ _ _ Happ).
    + eapply rtc_once. by exists e.
  - split; [by exists log|]. split; [apply rtc_refl|by apply (same_state rt rt)].
Qed.

(** The event is in the log, and the live snapshot has taken it. *)
Definition logged_event rt log rt' e ev : Prop :=
  ∃ log', holds rt' log' ∧ log `prefix_of` log' ∧ e ∈ log' ∧ sre_event e = ev ∧
    apply_event (rt_snapshot rt) e = Ok (rt_snapshot rt').

(** How a publication ends, in whatever state the store answers it. *)
Lemma publish_holds ev rt log rt' r :
  holds rt log → publish ports ev rt = (rt', r) →
  (∃ log', log `prefix_of` log' ∧ holds rt' log') ∧
  rt_state rt' = rt_state rt <| rs_snapshot := rt_snapshot rt' |> ∧
  match r with
  | Ok e => logged_event rt log rt' e ev
  | Err _ => rt_snapshot rt' = rt_snapshot rt
  end.
Proof.
  intros [Hl Hrun]. unfold publish. rewrite M_bind_run. cbn -[append_once].
  set (p := pending_event ports ev (rt_tick rt)). set (rt0 := rt <| rt_tick := _ |>).
  assert (pre_event p = ev) as Hpev by apply pending_event_id.
  assert (∀ rt2 log2 stored, rt_state rt2 = rt_state rt → holds rt2 log2 → log `prefix_of` log2 →
    stored ∈ log2 → sre_event stored = ev → apply_stored ports stored rt2 = (rt', r) →
    (∃ log', log `prefix_of` log' ∧ holds rt' log') ∧
    rt_state rt' = rt_state rt <| rs_snapshot := rt_snapshot rt' |> ∧
    match r with
    | Ok e => logged_event rt log rt' e ev
    | Err _ => rt_snapshot rt' = rt_snapshot rt
    end) as Hdone.
  { intros rt2 log2 stored Hs2 [Hl2 Hrun2] Hpre Hin Hev. rewrite apply_stored_eq.
    unfold rt_snapshot at 1. rewrite Hs2. fold (rt_snapshot rt).
    destruct (apply_event (rt_snapshot rt) stored) as [s|error] eqn:Happ; intros [= <- <-].
    - assert (holds (rt2 <| rt_state := rt_state rt2 <| rs_snapshot := s |> |>
                         <| rt_sink := rt_sink rt2 ++ [stored] |>) log2) as Hh2.
      { split; [done|]. cbn. etrans; [|exact Hrun2]. unfold state_run_id. cbn.
        by rewrite Hs2, (step_request _ _ _ Happ). }
      rewrite Hs2 in Hh2. split; [by exists log2|]. split; [done|]. exists log2. by split_and!.
    - split; [by exists log2|]. by apply same_state. }
  destruct (append_once_total ports (E := RuntimeFailure) p rt0) as (rt1 & a & Hone).
  rewrite M_bind_run, Hone.
  apply (append_once_cases ports rt0 log) in Hone as (Hs1 & _ & _ & log1 & Hl1 & Hx1 & Ha1); [|done].
  assert (holds rt1 log1) as Hh1 by (by split; rewrite Hs1).
  apply extends_by_prefix in Hx1. cbn in Hs1. destruct a as [e1|error].
  - destruct Ha1 as (Hin & _ & Hev). rewrite Hpev in Hev. by apply (Hdone rt1 log1).
  - assert (∀ failure, (rt1, Err failure) = (rt', r) →
      (∃ log', log `prefix_of` log' ∧ holds rt' log') ∧
      rt_state rt' = rt_state rt <| rs_snapshot := rt_snapshot rt' |> ∧
      match r with Ok e => logged_event rt log rt' e ev | Err _ => rt_snapshot rt' = rt_snapshot rt end)
      as Hlost.
    { intros failure [= <- <-]. split; [by exists log1|]. by apply same_state. }
    destruct error; try by apply Hlost.
    destruct (append_once_total ports (E := RuntimeFailure) p rt1) as (rt2 & a & Htwo).
    rewrite M_bind_run, Htwo.
    apply (append_once_cases ports rt1 log1) in Htwo as (Hs2 & _ & _ & log2 & Hl2 & Hx2 & Ha2); [|apply Hh1].
    assert (holds rt2 log2) as Hh2 by (split; rewrite Hs2; [done|apply Hh1]).
    apply extends_by_prefix in Hx2. rewrite M_bind_run. destruct a as [e2|error]; cbn -[apply_stored].
    + destruct Ha2 as (Hin & _ & Hev). rewrite Hpev in Hev.
      apply (Hdone rt2 log2); try done; [by rewrite Hs2|by etrans].
    + intros [= <- <-]. split; [exists log2; split; [by etrans|done]|].
      apply same_state. by rewrite Hs2, Hs1.
Qed.
Lemma emits_publish ev : C ev → emits (publish ports ev).
Proof.
  intros HC rt log rt' r Hh Hr. destruct (publish_holds _ _ _ _ _ Hh Hr) as (Hlog & Hs & Hr').
  split; [done|]. split; [|done]. destruct r as [e|]; [|by rewrite Hr'].
  destruct Hr' as (log' & _ & _ & _ & He & Happ). eapply rtc_once. exists e. by rewrite He.
Qed.
End emits.

(** What is left of a goal [emits _ _ m] are the steps of [m] that need a lemma of their own. *)
Ltac emits :=
  repeat match goal with
  | |- emits _ (_ ≫= _) => apply emits_bind; [|intros]
  | |- emits _ (or_else _ _) => apply emits_or_else
  | |- emits _ (mret _) => apply emits_ret
  | |- emits _ (throw _) => apply emits_throw
  | |- emits _ (lift _) => apply emits_lift
  | |- emits _ (expect _ _) => apply emits_lift
  | |- emits _ get_snapshot => apply emits_get_snapshot
  | |- emits _ get_state => apply emits_get_state
  | |- emits _ next_tick => apply emits_next_tick
  | |- emits _ (publish _ _) => apply emits_publish; done
  | |- emits _ (publish_or_terminal _ _) => unfold publish_or_terminal
  | |- emits _ (match _ with _ => _ end) => case_match
  end.
