(* ===== verification/AgentControlFacts.v ===== *)
(** Commands and the budget of a run: an acknowledged command is in the durable log, a repeated
    one gets the same answer, and the shared counters never pass their limits. *)
From Stdlib Require Import Ascii String.
From S2P Require Import Prelude.
From S2P Require Import Text.
From S2P Require Import Json.
From S2P Require Import Task.
From S2P Require Import Protocol.
From S2P Require Import Validate.
From S2P Require Import Context.
From S2P Require Import Snapshot.
From S2P Require Import Evidence.
From S2P Require Import RunEvents.
From S2P Require Import AgentEvents.
From S2P Require Import Reducer.
From S2P Require Import Steps.
From S2P Require Import LogFacts.
From S2P Require Import ToolFacts.
From S2P Require Import ModelFacts.
From S2P Require Import MemStore.
From S2P Require Import MemStoreFacts.
From S2P Require Import AgentRuntime.
From S2P Require Import AgentRuntimeFacts.
From S2P Require Import AgentWriterFacts.
From S2P Require Import AgentControl.
From S2P Require Import AgentProcess.

Open Scope string_scope.
Open Scope list_scope.
Open Scope N_scope.

(** ** The shared budget *)

(** What a run and its children have taken from the budget: the requests and tools that count
    for good, the permits and leases that are held, and the requests of the recoveries that are
    between their two updates. *)
Record Taken := mkTaken {
  tk_requests : N;
  tk_permits : N;
  tk_tools : N;
  tk_leases : N;
  tk_absorbing : list N;
}.
#[export] Instance Taken_settable : Settable Taken := λ t,
  mkTaken (tk_requests t) (tk_permits t) (tk_tools t) (tk_leases t) (tk_absorbing t).

(** One atomic update of the budget, by whichever task of the run takes it next. *)
Inductive budget_step : RuntimeBudget * Taken → RuntimeBudget * Taken → Prop :=
| step_permit b t b' : reserve_model_request b = Some b' →
    budget_step (b, t) (b', t <| tk_permits := tk_permits t + 1 |>)
| step_consume b t : 0 < tk_permits t →
    budget_step (b, t) (b, t <| tk_permits := tk_permits t - 1 |>
                             <| tk_requests := tk_requests t + 1 |>)
| step_drop_permit b t : 0 < tk_permits t →
    budget_step (b, t) (ModelRequestPermit_drop b, t <| tk_permits := tk_permits t - 1 |>)
| step_tool b t b' : reserve_tool b = Some b' →
    budget_step (b, t) (b', t <| tk_tools := tk_tools t + 1 |>)
| step_lease b t b' : reserve_child b = Some b' →
    budget_step (b, t) (b', t <| tk_leases := tk_leases t + 1 |>)
| step_drop_lease b t : 0 < tk_leases t →
    budget_step (b, t) (ChildLease_drop b, t <| tk_leases := tk_leases t - 1 |>)
| step_absorb b t requests b' : absorb_model_requests requests b = Some b' →
    budget_step (b, t) (b', t <| tk_absorbing := requests :: tk_absorbing t |>)
| step_absorbed b t requests tools before after b' :
    tk_absorbing t = before ++ requests :: after → absorb_tools tools b = Some b' →
    budget_step (b, t) (b', t <| tk_absorbing := before ++ after |>
                              <| tk_requests := tk_requests t + requests |>
                              <| tk_tools := tk_tools t + tools |>)
| step_unabsorb b t requests tools before after :
    tk_absorbing t = before ++ requests :: after → absorb_tools tools b = None →
    budget_step (b, t) (unabsorb_model_requests requests b,
                        t <| tk_absorbing := before ++ after |>).

Definition total (l : list N) : N := foldr N.add 0 l.
Lemma total_cons x l : total (x :: l) = x + total l.
Proof. done. Qed.
Lemma total_app l k : total (l ++ k) = total l + total k.
Proof. induction l as [|x l IH]; [done|]. cbn [app]. rewrite !total_cons. lia. Qed.

(** The counters are what is taken, within the limits. *)
Record exact_budget (limits : RunLimits) (b : RuntimeBudget) (t : Taken) : Prop := {
  eb_limits : rb_limits b = limits;
  eb_requests : rb_model_requests b = tk_requests t + tk_permits t + total (tk_absorbing t);
  eb_requests_le : rb_model_requests b ≤ lim_max_model_requests limits;
  eb_tools : rb_tools b = tk_tools t;
  eb_tools_le : rb_tools b ≤ lim_max_tool_calls limits;
  eb_children : rb_children b = tk_leases t;
  eb_children_le : rb_children b ≤ lim_max_concurrent_children limits;
}.

Lemma reserve_Some counter limit next :
  reserve counter limit = Some next ↔ counter < limit ∧ next = counter + 1.
Proof. unfold reserve. destruct (N.ltb_spec counter limit); split; [intros [= <-]|intros [_ ->]|done|intros [??]]; (done || lia). Qed.
Lemma add_with_limit_Some counter amount limit next :
  add_with_limit counter amount limit = Some next → next = counter + amount ∧ next ≤ limit.
Proof.
  unfold add_with_limit, checked_add. destruct (_ <=? U32_MAX); cbn; [|done].
  destruct (N.leb_spec (counter + amount) limit); [|done]. by intros [= <-].
Qed.
Lemma give_back_le counter amount : amount ≤ counter → give_back counter amount = counter - amount.
Proof. unfold give_back. intros. destruct (N.leb_spec amount counter); [done|lia]. Qed.

Lemma budget_step_exact limits b t b' t' :
  exact_budget limits b t → budget_step (b, t) (b', t') → exact_budget limits b' t'.
Proof.
  intros [Hl Hr Hrl Ht Htl Hc Hcl] Hs. inversion Hs; subst; clear Hs;
    unfold reserve_model_request, reserve_tool, reserve_child, absorb_model_requests, absorb_tools,
      ModelRequestPermit_drop, ChildLease_drop, unabsorb_model_requests in *;
    repeat match goal with
    | H : (reserve ?c ?l ≫= _) = Some _ |- _ =>
      destruct (reserve c l) eqn:Hres; [apply reserve_Some in Hres as [? ->]|done]; injection H as <-
    | H : (add_with_limit ?c ?a ?l ≫= _) = Some _ |- _ =>
      destruct (add_with_limit c a l) eqn:Hres; [apply add_with_limit_Some in Hres as [-> ?]|done];
      injection H as <-
    end;
    try match goal with H : tk_absorbing _ = _ |- _ =>
      rewrite H, total_app, total_cons in Hr end;
    split; cbn -[total]; rewrite ?total_app, ?total_cons, ?give_back_le; cbn -[total];
    lia || done.
Qed.
(** C17: The shared budget is exact and bounded under every interleaving.  However the run and its
    children interleave their atomic updates - reserving a request, consuming or dropping its
    permit, reserving a tool, taking and returning a child's slot, absorbing the usage of a
    recovered child and undoing it when it does not fit - the counters are exactly what is
    consumed, held and being absorbed, no counter passes its limit, and none wraps around. *)
Theorem budget_is_exact_and_bounded limits requests tools b t :
  requests ≤ lim_max_model_requests limits → tools ≤ lim_max_tool_calls limits →
  rtc budget_step (RuntimeBudget_new limits requests tools, mkTaken requests 0 tools 0 []) (b, t) →
  exact_budget limits b t ∧
  tk_requests t + tk_permits t ≤ lim_max_model_requests limits ∧
  tk_tools t ≤ lim_max_tool_calls limits ∧
  tk_leases t ≤ lim_max_concurrent_children limits.
Proof.
  intros Hr Ht Hsteps.
  assert (∀ s s', rtc budget_step s s' → exact_budget limits s.1 s.2 → exact_budget limits s'.1 s'.2)
    as Hrtc.
  { induction 1 as [|[] [] s3 Hstep _ IH]; [done|]. cbn. intros He. by eapply IH, budget_step_exact. }
  apply Hrtc in Hsteps; cbn in *; [|split; cbn; lia || done].
  split; [done|]. destruct Hsteps. lia.
Qed.

Section commands.
Context `{Codecs} {St : Type} `{!RunPort St} `{!RunPortLaws St} (ports : RuntimePorts).
Context (uuid_fresh : ∀ n m, rp_uuid ports n = rp_uuid ports m → n = m).
Context (uuid_random : ∀ n, rp_uuid ports n ≠ RuntimeEventId_terminal).
Context (limits : RunLimits) (older : list (N * Action)).
Abbreviation run := (M (LoopWorld St)).
Abbreviation world := (Rt (LoopWorld St)).
Abbreviation runlog := (list StoredRuntimeEvent).
Abbreviation triple := (triple ports limits older).
Abbreviation quietly := (quietly ports limits older).
Abbreviation safe := (safe ports limits older).
Abbreviation durable := (durable limits older).
Implicit Types (rt : world) (log : runlog).

Lemma quietly_observe {E} force : quietly (observe_workspace_state (E := E) ports force).
Proof. unfold observe_workspace_state. quietly. Qed.
Lemma quietly_reconcile : quietly (reconcile_workspace ports).
Proof.
  unfold reconcile_workspace. apply quietly_bind; [apply quietly_observe|]. intros. quietly.
Qed.

(** The receipt of a command that is already durable, and otherwise [m]. *)
Lemma quietly_receipt {A} command_id command ack (done_ : A) (continue : A)
    (m : RunSnapshot → run (Halt RuntimeFailure) A) :
  (∀ s, quietly (m s)) →
  quietly (snapshot ← get_snapshot;
    match command_receipt_result snapshot command_id command with
    | Some (Ok n) => acknowledge ack command_id command (Ok n) ;; mret done_
    | Some (Err error) => acknowledge ack command_id command (Err error) ;; mret continue
    | None => m snapshot
    end).
Proof.
  intros Hm. apply quietly_with_snapshot. intros rt log P HP.
  destruct (command_receipt_result _ _ _) as [[n|error]|] eqn:Hr.
  - apply triple_bind_at; [done|by apply receipt_told|]. intros. quietly.
  - apply quietly_at; [done|]. quietly.
  - by apply quietly_at.
Qed.

Lemma quietly_handle_steer command_id content ack :
  quietly (handle_steer ports command_id content ack).
Proof.
  assert (quietly (snapshot ← get_snapshot;
    match command_receipt_result snapshot command_id (CommandSteer content) with
    | Some (Ok n) => acknowledge ack command_id (CommandSteer content) (Ok n) ;; mret EffectContinue
    | Some (Err error) =>
      acknowledge ack command_id (CommandSteer content) (Err error) ;; mret EffectContinue
    | None => publish_command ports (SteerQueued command_id content) ack command_id
                (CommandSteer content) ;; mret EffectContinue
    end)) as Hq by (apply quietly_receipt; intros; quietly).
  intros P HP rt log rt' r Hs Hp Hr. eapply Hq; try done.
  revert Hr. unfold handle_steer. rewrite !M_bind_run.
  cbn -[acknowledge command_receipt_result publish_command].
  by destruct (command_receipt_result _ _ _) as [[]|].
Qed.
Lemma quietly_handle_stop command_id action ack :
  quietly (handle_stop ports command_id action ack).
Proof. apply quietly_receipt. intros s. quietly. Qed.
Lemma quietly_handle_resolve command_id interaction_id response :
  quietly (handle_resolve ports command_id interaction_id response).
Proof. apply quietly_receipt. intros s. quietly. Qed.

Lemma quietly_handle_accept command_id acceptance :
  quietly (handle_accept ports command_id acceptance).
Proof.
  apply quietly_receipt. intros s. quietly. intros P HP.
  apply triple_catch with (R := λ _, P); [by apply quietly_reconcile| |].
  - intros []. apply quietly_bind; [quietly|intros s'|done]. quietly.
    cbv zeta. quietly. apply quietly_publish_command; [done..|]. by destruct acceptance.
  - intros message. apply gives_up_refusing.
Qed.

Lemma quietly_handle_control command : quietly (handle_control ports command).
Proof.
  destruct command; [apply quietly_handle_steer|apply quietly_handle_stop|
    apply quietly_handle_resolve|apply quietly_handle_accept].
Qed.

Lemma quietly_drain_controls commands : quietly (drain_controls ports commands).
Proof.
  induction commands as [|command commands IH]; cbn [drain_controls]; [quietly|].
  apply quietly_bind; [apply quietly_handle_control|]. intros []; try done. quietly.
Qed.
Lemma quietly_flush_pending_steers : quietly (flush_pending_steers ports).
Proof.
  unfold flush_pending_steers. apply quietly_bind; [quietly|]. intros s.
  generalize (length (sn_pending_steers s)). intros n.
  induction n as [|n IH]; cbn [flush_steers]; quietly; done.
Qed.

Lemma quietly_durable {E A} (m : run E A) rt log rt' r :
  quietly m → safe rt log → m rt = (rt', r) →
  ∃ log', log `prefix_of` log' ∧ durable rt' log' ∧
    match r with Ok _ => safe rt' log' ∧ quiet rt log rt' log' | Err _ => True end.
Proof.
  intros Hm Hs Hr.
  destruct (Hm _ (steady_quiet rt log) _ _ _ _ Hs (quiet_id _ _) Hr) as (log' & ? & ? & Hok).
  by exists log'.
Qed.

(** Commands are acknowledged from the log.  While a live process handles the commands that
    wait for it, every command that is answered with a sequence number is recorded at that
    sequence of the durable log with exactly its identity and payload - also when the store fails
    and the run ends in the middle - and handling a command never contacts the model, touches the
    pending request or spends from the budget. *)
Theorem commands_are_acknowledged_from_the_log commands rt log rt' r :
  safe rt log → drain_controls ports commands rt = (rt', r) →
  ∃ log', log `prefix_of` log' ∧ durable rt' log' ∧
    match r with Ok _ => safe rt' log' ∧ quiet rt log rt' log' | Err _ => True end.
Proof. intros. eapply quietly_durable; [apply quietly_drain_controls|done..]. Qed.

(** The message of a command whose answer is awaited, and its effect once it is durable. *)
Definition control_of (command_id : CommandId) (command : DurableCommand) : ControlCommand :=
  match command with
  | CommandSteer content => CtlSteer command_id content true
  | CommandStop action => CtlStop command_id action true
  | CommandResolveInteraction interaction_id response =>
    CtlResolveInteraction command_id interaction_id response
  | CommandAcceptCompletion acceptance => CtlAcceptCompletion command_id acceptance
  end.
Definition effect_of (command : DurableCommand) : ControlEffect :=
  match command with
  | CommandSteer _ => EffectContinue
  | CommandStop action => EffectTerminal (terminal_for_control action)
  | CommandResolveInteraction _ response => EffectInteractionResolved response
  | CommandAcceptCompletion _ => EffectCompletionAccepted
  end.

(** C16: A repeated command changes nothing and gets the same answer.  A command that is in the log
    of a live run - whether this process or one before it made it durable - is answered again
    with the sequence of its one event, has again the effect of its first handling, and neither
    the log nor the state of the run changes; with another payload the identity is refused. *)
Theorem repeated_command_gets_the_same_answer rt log e command_id command command' :
  live ports rt log → e ∈ log → event_command (sre_event e) = Some (command_id, command) →
  handle_control ports (control_of command_id command) rt =
    (rt <| rt_store := rt_store rt <| lw_calls := lw_calls (rt_store rt) ++
       [Acknowledge command_id command (Ok (sre_sequence e))] |> |>, Ok (effect_of command)) ∧
  (command' ≠ command → handle_control ports (control_of command_id command') rt =
    (rt <| rt_store := rt_store rt <| lw_calls := lw_calls (rt_store rt) ++
       [Acknowledge command_id command' (Err CtlCommandPayloadMismatch)] |> |>, Ok EffectContinue)).
Proof.
  intros Hl He Hev. pose proof (logged_command_receipt _ _ _ _ _ (live_snapshot _ _ _ Hl) He Hev) as Hr.
  assert (command' ≠ command → command_receipt_result (rt_snapshot rt) command_id command' =
    Some (Err CtlCommandPayloadMismatch)) as Hr'.
  { intros Hne. revert Hr. unfold command_receipt_result.
    destruct (find_first _ _) as [receipt|]; cbn; [|done].
    destruct (bool_decide_reflect (cmd_command receipt = command)) as [Hc|]; [|done]. intros _.
    rewrite bool_decide_false; [done|]. congruence. }
  split; [destruct command|intros Hne; specialize (Hr' Hne); destruct command'];
    unfold handle_control, control_of, handle_steer, handle_stop, handle_resolve, handle_accept;
    rewrite M_bind_run; cbn -[acknowledge command_receipt_result]; rewrite ?Hr, ?Hr'; done.
Qed.
End commands.
