(* ===== verification/AgentCompletionFacts.v ===== *)
(** The review of a completion candidate in a live process: what the verifier is run for, and that
    the reducer accepts what the review accepts. *)
From Stdlib Require Import Ascii String.
From S2P Require Import Prelude.
From S2P Require Import Text.
From S2P Require Import Json.
From S2P Require Import Task.
From S2P Require Import Protocol.
From S2P Require Import Validate.
From S2P Require Import Context.
From S2P Require Import Snapshot.
From S2P Require Import Evidence.
From S2P Require Import RunEvents.
From S2P Require Import AgentEvents.
From S2P Require Import Reducer.
From S2P Require Import Steps.
From S2P Require Import LogFacts.
From S2P Require Import ToolFacts.
From S2P Require Import EvidenceFacts.
From S2P Require Import CompletionFacts.
From S2P Require Import MemStore.
From S2P Require Import MemStoreFacts.
From S2P Require Import AgentRuntime.
From S2P Require Import AgentRuntimeFacts.
From S2P Require Import AgentEmits.
From S2P Require Import AgentWriter.
From S2P Require Import AgentWriterFacts.
From S2P Require Import AgentControl.
From S2P Require Import AgentProcess.
From S2P Require Import AgentControlFacts.
From S2P Require Import AgentCompletion.

Open Scope string_scope.
Open Scope list_scope.
Open Scope N_scope.

(** ** What the events of a review leave alone *)

Section frames.
Context `{Codecs}.
Implicit Types (s : RunSnapshot).

(** What a review reads. *)
Definition core s := (sn_request s, sn_pending_completion s, sn_workspace_state s,
  sn_evidence_receipts s, sn_host_acceptance_receipts s).

Lemma dispatch_verification s run_id n ev s' :
  dispatch s run_id n ev = Ok s' →
  match ev with
  | HostVerificationPrepared vid candidate aid verifier ws =>
    sn_pending_host_verification s' =
      Some (mkPendingHostVerification vid candidate aid verifier ws Prepared) ∧ core s' = core s
  | HostVerificationStarted vid => ∃ p, sn_pending_host_verification s = Some p ∧
      phv_verification_id p = vid ∧
      sn_pending_host_verification s' = Some (p <| phv_state := InFlight |>) ∧ core s' = core s
  | HostVerificationCommitted _ _ _ _ => sn_pending_host_verification s' = None ∧
      sn_pending_completion s' = sn_pending_completion s
  | _ => sn_pending_host_verification s' = sn_pending_host_verification s
  end.
Proof.
  intros Hd. step_cases ev Hd; try same_field; try (apply conj; same_field).
  inv_run. bprop. subst. by eexists.
Qed.

Lemma dispatch_observed s run_id n ws s' :
  dispatch s run_id n (WorkspaceObserved ws) = Ok s' →
  sn_pending_completion s' = sn_pending_completion s ∧
  sn_pending_host_verification s' = sn_pending_host_verification s ∧
  sn_host_acceptance_receipts s' = sn_host_acceptance_receipts s ∧
  sn_evidence_receipts s' = sn_evidence_receipts s.
Proof. cbn [dispatch]. unfold on_workspace_observed. intros Hd. inv_run; subst; by repeat case_match. Qed.

Lemma expected_lineage_satisfies s aid verifier policy lineage :
  expected_evidence_lineage s aid verifier policy = Some lineage →
  lineage_satisfies lineage policy = true.
Proof.
  unfold expected_evidence_lineage. destruct policy; [by intros [= <-]|].
  destruct (sn_temporal_evidence_progress s) as [progress|].
  - destruct (tep_mutation progress); cbn; [|done]. by case_match; [|intros [= <-]].
  - intros (l & _ & (? & ? & ? & ->)%delegated_lineage_Some)%find_map_Some. done.
Qed.
End frames.

(** ** The verifier of a live review *)

Section review.
Context `{Codecs} {St : Type} `{!RunPort St} `{!RunPortLaws St}.
Context (ports : RuntimePorts) (verifiers : VerifierPort).
Context (uuid_fresh : ∀ n m, rp_uuid ports n = rp_uuid ports m → n = m).
Context (uuid_random : ∀ n, rp_uuid ports n ≠ RuntimeEventId_terminal).
Context (limits : RunLimits) (older : list (N * Action)).
Abbreviation run := (M (LoopWorld St)).
Abbreviation review := (run (Halt CompletionReviewError)).
Abbreviation world := (Rt (LoopWorld St)).
Abbreviation runlog := (list StoredRuntimeEvent).
Abbreviation triple := (triple ports limits older).
Abbreviation quietly := (quietly ports limits older).
Abbreviation safe := (safe ports limits older).
Abbreviation durable := (durable limits older).
Implicit Types (rt : world) (log : runlog) (s : RunSnapshot) (P : world → runlog → Prop).

(** What a review of the candidate begins with: it is pending, and no verifier is under way. *)
Definition reviewable (candidate : CompletionCandidate) s : Prop :=
  sn_pending_completion s = Some candidate ∧
  ∀ p, sn_pending_host_verification s = Some p → phv_state p = Prepared.

(** [P] holds, and the snapshot satisfies [φ]. *)
Definition seen P (φ : RunSnapshot → Prop) : world → runlog → Prop :=
  λ rt log, P rt log ∧ φ (rt_snapshot rt).

Lemma triple_at {E A} P φ (m : run E A) Q :
  (∀ s, φ s → triple (seen P (eq s)) m Q) → triple (seen P φ) m Q.
Proof. intros Hm rt log rt' r Hs [HP Hφ]. by apply (Hm _ Hφ). Qed.

Lemma triple_look {E A} P s (f : RunSnapshot → run E A) Q :
  triple (seen P (eq s)) (f s) Q → triple (seen P (eq s)) (get_snapshot ≫= f) Q.
Proof.
  intros Hf. eapply triple_bind; [apply triple_get_snapshot|]. intros s'.
  intros rt log rt' r Hs [[HP Heq] ->]. rewrite <- Heq. by apply Hf.
Qed.
Lemma triple_look_state {E A} P s (f : RunState → run E A) Q :
  (∀ state, rs_snapshot state = s → triple (seen P (eq s)) (f state) Q) →
  triple (seen P (eq s)) (get_state ≫= f) Q.
Proof.
  intros Hf. eapply triple_bind; [apply triple_get_state|]. intros state.
  intros rt log rt' r Hs [[HP Heq] ->]. by apply Hf.
Qed.

(** A step that moves nothing of the snapshot. *)
Lemma triple_still {E A} P s (m : run E A) :
  steady P → quietly m → (∀ rt, rt_snapshot (m rt).1 = rt_snapshot rt) →
  triple (seen P (eq s)) m (λ _, seen P (eq s)).
Proof.
  intros HP Hm Hstill rt log rt' r Hs [Hp ->] Hr.
  destruct (Hm P HP _ _ _ _ Hs Hp Hr) as (log' & ? & ? & Hok). exists log'. split_and!; [done..|].
  destruct r; [|done]. destruct Hok. split_and!; [done..|]. specialize (Hstill rt). by rewrite Hr in Hstill.
Qed.

Lemma triple_publish_review P s message ev :
  steady P → quiet_event ev = true → event_action ev = None →
  triple (seen P (eq s)) (publish_review ports message ev)
    (λ _, seen P (λ s', ∃ n run_id s1, dispatch s run_id n ev = Ok s1 ∧
       s' = s1 <| sn_last_sequence := n |>)).
Proof.
  intros HP Hq Ha. apply triple_or_else. apply triple_publish; try done; try by destruct ev.
  intros rt log e rt' Hs [Hp ->] He Happ Hb Hf _. split.
  - eapply HP; [|done]. apply quiet_published; try done. by rewrite He.
  - apply run_step_inv in Happ as (r & s1 & _ & Hd & Hs1). rewrite He in Hd. rewrite Hs1. eauto 6.
Qed.

Lemma triple_ret_bind {E A B} P (a : A) (f : A → run E B) Q :
  triple P (f a) Q → triple P (mret a ≫= f) Q.
Proof. done. Qed.
Lemma triple_block_if {A} P b reason (m : review A) Q :
  (b = false → triple P m Q) → triple P (block_if b reason ;; m) Q.
Proof.
  destruct b; intros Hm; [|by apply Hm].
  eapply triple_bind with (R := λ _ _ _, False); [apply triple_throw|]. by intros ??????.
Qed.

(** The verification that is pending for the acceptance, in the state [st]. *)
Record verifying candidate aid verifier s0 st (vid : VerificationId)
    (pending : PendingHostVerification) s : Prop := {
  vf_core : core s = core s0;
  vf_pending : sn_pending_host_verification s = Some (pending <| phv_state := st |>);
  vf_prepared : phv_state pending = Prepared;
  vf_id : phv_verification_id pending = vid;
  vf_candidate : phv_candidate pending = candidate;
  vf_acceptance : phv_acceptance_id pending = aid;
  vf_verifier : phv_verifier pending = verifier;
  vf_workspace : phv_workspace_state_before pending = sn_workspace_state s;
}.

Lemma triple_prepare_verification P candidate aid verifier s0 :
  steady P → reviewable candidate s0 →
  triple (seen P (eq s0)) (prepare_verification ports candidate aid verifier)
    (λ x, seen P (verifying candidate aid verifier s0 Prepared x.1 x.2)).
Proof.
  intros HP [Hc Hv]. unfold prepare_verification. apply triple_look. cbv zeta.
  set (vid := default _ _).
  eapply triple_bind with (R := λ _, seen P (λ s, core s = core s0 ∧ ∃ p,
    sn_pending_host_verification s = Some p ∧ phv_state p = Prepared ∧ phv_verification_id p = vid)).
  { destruct (sn_pending_host_verification s0) as [p|] eqn:Hp; cbn [is_none].
    - apply triple_ret. intros rt log [Hp' Heq]. split; [done|]. rewrite <- Heq. split; [done|]. exists p. split_and!; auto.
    - eapply triple_bind; [by apply triple_publish_review|]. intros e. apply triple_ret.
      intros rt log [Hp' (n & r & s1 & Hd & Heq)]. split; [done|]. rewrite Heq.
      apply dispatch_verification in Hd as [Hs1 Hcore]. split; [done|].
      eexists. split_and!; [exact Hs1|done|done]. }
  intros _. apply triple_at. intros s (Hcore & p & Hp & Hst & Hvid). apply triple_look.
  rewrite Hp. cbn [or_blocked]. apply triple_ret_bind, triple_block_if. intros Hb. bprop.
  apply triple_ret. intros rt log [Hp' Heq]. split; [done|]. rewrite <- Heq. cbn. split; try done.
  rewrite Hp. by destruct p; cbn in *; subst.
Qed.

(** The acceptance of the frozen contract that the verifier is run for. *)
Definition frozen contract aid policy verifier s : Prop :=
  rr_task_contract (sn_request s) = Some contract ∧
  ∃ description, AcceptVerifier aid description policy verifier
    ∈ def_acceptance (contract_definition contract).

Lemma triple_execute_verifier P contract candidate aid policy verifier s0 vid pending :
  steady P → reviewable candidate s0 → frozen contract aid policy verifier s0 →
  triple (seen P (verifying candidate aid verifier s0 Prepared vid pending))
    (execute_verifier ports verifiers vid pending verifier)
    (λ _, seen P (verifying candidate aid verifier s0 InFlight vid pending)).
Proof.
  intros HP [Hc _] [Hcontract [description Hin]]. apply triple_at. intros s [] .
  unfold execute_verifier. apply triple_look_state. intros state Hstate. cbv zeta.
  rewrite vf_prepared0, bool_decide_true by done.
  eapply triple_bind with (R := λ _, seen P (verifying candidate aid verifier s0 InFlight vid pending)).
  - pose proof vf_core0 as [= Hreq Hcomp Hws Hev Hhost].
    apply (triple_start ports uuid_fresh uuid_random limits older _ _ _
      (λ n, CallVerifier n vid _) (VerifierAction vid)); try done.
    + intros rt log e s2 Hs [Hp Heq] He _. exists log, e, [], s. split_and!; try done.
      * rewrite Heq. apply (live_snapshot _ _ _ (sf_live _ _ _ _ _ Hs)).
      * exists pending, contract. subst. rewrite vf_pending0.
        rewrite Hreq, Hcomp. split_and!; try done; [by destruct pending; cbn in *; subst|].
        by exists description, policy.
    + intros rt log e rt' Hs [Hp Heq] He Happ Hb Hf. split.
      * eapply HP; [|done]. apply quiet_published; try done. by rewrite He.
      * apply run_step_inv in Happ as (r & s1 & _ & Hd & ->). rewrite He, <- Heq in Hd.
        apply dispatch_verification in Hd as (p & Hp1 & Hid & Hp2 & Hcore). cbn.
        rewrite vf_pending0 in Hp1. injection Hp1 as <-.
        split; try done; [by transitivity (core s1); [|congruence]|].
        injection Hcore as ?????. cbn. congruence.
  - intros _. eapply triple_bind with
      (R := λ _, seen P (verifying candidate aid verifier s0 InFlight vid pending)).
    + apply triple_at. intros s' Hs'. eapply triple_conseq; [apply (triple_still P s')| |].
      1: done. 1: apply quietly_next_tick. 1: done. 1: done.
      intros tick rt log [Hp Heq]. split; [done|]. by rewrite <- Heq.
    + intros tick. destruct (vp_execute _ _ _) as [[]|]; [by apply triple_ret..|apply triple_throw].
Qed.

(** What a passed verifier leaves: its receipt proves the acceptance one generation later, at the
    same revision. *)
Record verified contract aid policy verifier s0 (receipt : EvidenceReceipt) s : Prop := {
  vd_request : sn_request s = sn_request s0;
  vd_completion : sn_pending_completion s = sn_pending_completion s0;
  vd_settled : sn_pending_host_verification s = None;
  vd_host : sn_host_acceptance_receipts s = sn_host_acceptance_receipts s0;
  vd_receipt : receipt ∈ sn_evidence_receipts s;
  vd_generation : ws_generation (sn_workspace_state s) =
    sat_add64 (ws_generation (sn_workspace_state s0)) 1;
  vd_revision : ws_revision (sn_workspace_state s) = ws_revision (sn_workspace_state s0);
  vd_proves : receipt_proves s contract aid policy verifier receipt = true;
}.

Lemma committed_verified contract candidate aid policy verifier s0 vid pending s run_id n outcome
    receipt after s1 :
  frozen contract aid policy verifier s0 →
  verifying candidate aid verifier s0 InFlight vid pending s →
  seal_evidence_receipt s vid aid policy verifier outcome after = Ok receipt →
  dispatch s run_id n (HostVerificationCommitted vid outcome (Some receipt) after) = Ok s1 →
  verified contract aid policy verifier s0 receipt s1.
Proof.
  intros [Hcontract _] [Hcore _ _ _ _ _ _ _] Hseal Hd. cbn [dispatch] in Hd.
  apply on_host_verification_committed_shape in Hd
    as (p & c & policy' & s2 & _ & _ & _ & _ & _ & Hgen & _ & _ & Hsettle & ->).
  apply settle_verification_shape in Hsettle
    as [(r & [= <-] & _ & _ & ->)|(? & ? & ? & _)]; [|done].
  pose proof Hcore as [= Hreq Hcomp Hws Hev Hhost].
  apply seal_evidence_receipt_sound in Hseal as
    (_ & _ & _ & _ & Haid & Hver & Hafter & Hrev & (contract' & Hc' & Hg) & Hlineage).
  apply expected_lineage_satisfies in Hlineage.
  assert (contract' = contract) as -> by congruence.
  split; cbn; try congruence.
  - apply elem_of_app. right. by left.
  - unfold receipt_proves. cbn. rewrite Haid, Hver, Hafter, Hg, Hlineage.
    by rewrite !bool_decide_true by done.
Qed.

Lemma triple_reject_completion P φ candidate (Q : EvidenceReceipt → world → runlog → Prop) :
  steady P → triple (seen P φ) (reject_completion ports candidate) Q.
Proof.
  intros HP. apply triple_at. intros s _. unfold reject_completion. apply triple_look.
  destruct (x ← _; _) as [rejection|]; cbn [or_blocked].
  - apply triple_ret_bind. eapply triple_bind; [by apply triple_publish_review|].
    intros e. apply triple_throw.
  - eapply triple_bind with (R := λ _ _ _, False); [apply triple_throw|]. by intros ??????.
Qed.

Lemma triple_run_host_verifier P contract candidate aid policy verifier s0 :
  steady P → reviewable candidate s0 → frozen contract aid policy verifier s0 →
  triple (seen P (eq s0)) (run_host_verifier ports verifiers candidate aid policy verifier)
    (λ receipt, seen P (verified contract aid policy verifier s0 receipt)).
Proof.
  intros HP Hrev Hfrozen. unfold run_host_verifier.
  eapply triple_bind; [by apply triple_prepare_verification|]. intros [vid pending]. cbn [fst snd].
  eapply triple_bind; [by eapply triple_execute_verifier|]. intros outcome. cbv beta.
  apply triple_at. intros s Hs.
  eapply triple_bind; [apply triple_still; [done|by apply quietly_observe|done]|]. intros after.
  apply triple_look. cbv zeta.
  destruct (seal_evidence_receipt _ _ _ _ _ _ _) as [receipt|cause] eqn:Hseal.
  - eapply triple_bind; [by apply triple_publish_review|]. intros e. apply triple_ret.
    intros rt log [Hp (n & r & s1 & Hd & Heq)]. split; [done|]. rewrite Heq.
    by eapply committed_verified in Hd as [].
  - eapply triple_bind; [by apply triple_publish_review|]. intros e.
    by apply triple_reject_completion.
Qed.

(** The satisfaction of an acceptance, as the snapshot [s] bears it out. *)
Definition met contract (host : option HostAcceptanceReceipt) s (a : TaskAcceptance)
    (satisfaction : AcceptanceSatisfaction) : Prop :=
  match a with
  | AcceptHost id _ => ∃ r, host = Some r ∧ satisfaction = SatisfiedByHost id (har_id r)
  | AcceptVerifier id _ policy verifier => ∃ r, r ∈ sn_evidence_receipts s ∧
      satisfaction = SatisfiedByEvidence id (er_id r) ∧
      receipt_proves s contract id policy verifier r = true
  end.

(** The verifier of the contract ran, because no evidence was current, and passed. *)
Definition advanced contract s0 s : Prop :=
  ∃ aid description policy verifier receipt,
    AcceptVerifier aid description policy verifier ∈ def_acceptance (contract_definition contract) ∧
    current_evidence s0 contract aid policy verifier = None ∧
    verified contract aid policy verifier s0 receipt s.

Lemma advanced_reviewable contract candidate s0 s :
  reviewable candidate s0 → advanced contract s0 s → reviewable candidate s.
Proof.
  intros [Hc _] (aid & d & policy & verifier & receipt & _ & _ & []). split; [congruence|]. congruence.
Qed.

Lemma triple_satisfy P contract candidate host a s0 :
  steady P → reviewable candidate s0 → rr_task_contract (sn_request s0) = Some contract →
  a ∈ def_acceptance (contract_definition contract) →
  triple (seen P (eq s0)) (satisfy ports verifiers candidate contract host a)
    (λ satisfaction, seen P (λ s, met contract host s a satisfaction ∧
       (s = s0 ∨ is_verifier_acceptance a = true ∧ advanced contract s0 s))).
Proof.
  intros HP Hrev Hcontract Ha. destruct a as [id description|id description policy verifier].
  - cbn [satisfy]. destruct host as [r|]; cbn [or_blocked].
    + apply triple_ret. intros rt log [Hp Heq]. split; [done|]. split; [by exists r|by left].
    + eapply triple_bind with (R := λ _ _ _, False); [apply triple_throw|]. by intros ??????.
  - cbn [satisfy]. apply triple_look.
    destruct (current_evidence _ _ _ _ _) as [receipt|] eqn:Hev.
    + apply triple_ret. intros rt log [Hp Heq]. split; [done|]. rewrite <- Heq. split; [|by left].
      apply find_first_Some in Hev as [Hin Hproves]. by exists receipt.
    + eapply triple_bind.
      * eapply (triple_run_host_verifier P contract); try done. split; [done|]. by exists description.
      * intros receipt. apply triple_ret. intros rt log [Hp Hv]. split; [done|].
        split; [exists receipt; by destruct Hv|]. right. split; [done|].
        exists id, description, policy, verifier, receipt. done.
Qed.

Lemma filter_at_most_one {A} (p : A → bool) a l :
  (length (List.filter p (a :: l)) ≤ 1)%nat → p a = true → existsb p l = false.
Proof.
  cbn. intros Hlen Ha. rewrite Ha in Hlen. cbn in Hlen.
  destruct (existsb p l) eqn:He; [|done]. apply existsb_exists in He as (x & Hx & Hp).
  assert (In x (List.filter p l)) as Hin by (by apply filter_In).
  destruct (List.filter p l); [done|cbn in Hlen; lia].
Qed.

Lemma triple_satisfy_all P contract candidate host acceptance s0 :
  steady P → reviewable candidate s0 → rr_task_contract (sn_request s0) = Some contract →
  (∀ a, a ∈ acceptance → a ∈ def_acceptance (contract_definition contract)) →
  (length (List.filter is_verifier_acceptance acceptance) ≤ 1)%nat →
  triple (seen P (eq s0)) (satisfy_all ports verifiers candidate contract host acceptance)
    (λ satisfied, seen P (λ s, Forall2 (met contract host s) acceptance satisfied ∧
       (s = s0 ∨ existsb is_verifier_acceptance acceptance = true ∧ advanced contract s0 s))).
Proof.
  intros HP. revert s0. induction acceptance as [|a acceptance IH]; intros s0 Hrev Hcontract Hin Hlen.
  - apply triple_ret. intros rt log [Hp Heq]. split; [done|]. split; [constructor|by left].
  - cbn [satisfy_all]. eapply triple_bind.
    { apply (triple_satisfy P contract candidate host a s0); try done. apply Hin. by left. }
    intros satisfaction. apply triple_at. intros s1 [Hmet Hs1].
    assert (reviewable candidate s1 ∧ rr_task_contract (sn_request s1) = Some contract) as [Hrev1 Hcontract1].
    { destruct Hs1 as [->|[_ Hadv]]; [done|]. split; [by eapply advanced_reviewable|].
      destruct Hadv as (? & ? & ? & ? & ? & _ & _ & []). congruence. }
    eapply triple_bind.
    { apply IH; try done.
      - intros a' Ha'. apply Hin. by right.
      - cbn in Hlen. destruct (is_verifier_acceptance a); cbn in Hlen; lia. }
    intros satisfied. apply triple_ret. intros rt log [Hp [Hall Hs]]. split; [done|].
    destruct Hs1 as [->|[Hver Hadv]].
    + destruct Hs as [Heq|[Hver Hadv]]; [rewrite Heq in *; split; [by constructor|by left]|].
      assert (is_verifier_acceptance a = false) as Hnot.
      { destruct (is_verifier_acceptance a) eqn:Ha; [|done].
        by rewrite (filter_at_most_one _ a acceptance) in Hver. }
      split; [constructor; [by destruct a|done]|right]. cbn. by rewrite Hver, orb_true_r.
    + rewrite (filter_at_most_one _ a acceptance) in Hs by done.
      destruct Hs as [Heq|[? _]]; [|done]. rewrite Heq in *.
      split; [by constructor|]. right. cbn. by rewrite Hver.
Qed.

(** ** The reducer accepts the decision *)

Lemma same_key {A} `{EqDecision A} (x : A) : (x ==? x) = true.
Proof. by apply bool_decide_true. Qed.
Lemma find_first_elem {A} (f : A → string) (xs : list A) x :
  NoDup (f <$> xs) → x ∈ xs → find_first (λ y, f y ==? f x) xs = Some x.
Proof. intros Hnd [i Hi]%list_elem_of_lookup_1. by eapply find_first_unique. Qed.

Lemma at_most_one_elem {A} (p : A → bool) l a b :
  (length (List.filter p l) ≤ 1)%nat → a ∈ l → b ∈ l → p a = true → p b = true → a = b.
Proof.
  intros Hlen Ha Hb Hpa Hpb.
  assert (In a (List.filter p l) ∧ In b (List.filter p l)) as [Hia Hib]
    by (split; apply filter_In; split; try done; by apply list_elem_of_In).
  destruct (List.filter p l) as [|x [|]]; cbn in *; [done| |lia].
  by destruct Hia as [->|[]], Hib as [->|[]].
Qed.

(** The facts of the frozen contract that the review builds on. *)
Record well_frozen contract s : Prop := {
  wf_contract : rr_task_contract (sn_request s) = Some contract;
  wf_unique : NoDup (acceptance_id <$> def_acceptance (contract_definition contract));
  wf_verifier : (length (List.filter is_verifier_acceptance
                   (def_acceptance (contract_definition contract))) ≤ 1)%nat;
}.
Lemma reachable_well_frozen log s contract :
  reachable log s → rr_task_contract (sn_request s) = Some contract → well_frozen contract s.
Proof.
  intros (c & run_id & Hc & _ & _ & Hv)%reachable_contract Hcontract.
  assert (c = contract) as -> by congruence.
  unfold TaskContract_validate, TaskDefinition_validate in Hv. inv_run.
  match goal with Hu : for_each_unique _ _ _ _ _ = Ok _ |- _ =>
    apply for_each_unique_nil in Hu as [_ Hnd] end.
  split; try done. match goal with Hl : Nat.ltb _ _ = false |- _ => apply Nat.ltb_ge in Hl; lia end.
Qed.

Lemma met_ids contract host s acceptance satisfied :
  Forall2 (met contract host s) acceptance satisfied →
  satisfaction_acceptance_id <$> satisfied = acceptance_id <$> acceptance.
Proof.
  induction 1 as [|a satisfaction acceptance satisfied Hm _ IH]; [done|]. cbn. rewrite IH. f_equal.
  destruct a; [by destruct Hm as (r & _ & ->)|by destruct Hm as (r & _ & -> & _)].
Qed.
Lemma met_found contract host s decision a :
  well_frozen contract s →
  Forall2 (met contract host s) (def_acceptance (contract_definition contract)) (cd_satisfied decision) →
  a ∈ def_acceptance (contract_definition contract) →
  ∃ satisfaction, find_satisfaction decision (acceptance_id a) = Some satisfaction ∧
    met contract host s a satisfaction.
Proof.
  intros [_ Hnd _] Hmet Ha. pose proof (met_ids _ _ _ _ _ Hmet) as Hids.
  apply list_elem_of_lookup_1 in Ha as [i Hi].
  destruct (Forall2_lookup_l _ _ _ _ _ Hmet Hi) as (satisfaction & Hsat & Hm).
  exists satisfaction. split; [|done]. unfold find_satisfaction.
  assert (satisfaction_acceptance_id satisfaction = acceptance_id a) as <-.
  { assert ((satisfaction_acceptance_id <$> cd_satisfied decision) !! i = Some (acceptance_id a)) as Hl
      by (rewrite Hids, list_lookup_fmap, Hi; done).
    rewrite list_lookup_fmap, Hsat in Hl. by injection Hl. }
  rewrite <- Hids in Hnd. apply find_first_elem; [exact Hnd|]. by eapply list_elem_of_lookup_2.
Qed.

Lemma met_verifier_current contract host s decision a :
  well_frozen contract s →
  Forall2 (met contract host s) (def_acceptance (contract_definition contract)) (cd_satisfied decision) →
  a ∈ def_acceptance (contract_definition contract) → is_verifier_acceptance a = true →
  has_current_verifier_satisfaction s contract decision = true.
Proof.
  intros Hwf Hmet Ha Hv. unfold has_current_verifier_satisfaction. apply existsb_elem_of.
  exists a. split; [done|]. destruct a as [|id description policy verifier]; [done|].
  destruct (met_found _ _ _ _ _ Hwf Hmet Ha) as (satisfaction & Hf & r & Hr & -> & Hp).
  cbn in Hf. rewrite Hf. apply existsb_elem_of. exists r. split; [done|].
  by rewrite bool_decide_true, Hp.
Qed.

Lemma current_host_acceptance_Some s candidate r :
  current_host_acceptance s candidate = Some r →
  r ∈ sn_host_acceptance_receipts s ∧ har_candidate_id r = cc_id candidate ∧
  har_generation_id r = cc_generation_id candidate ∧
  har_workspace_state r = cc_workspace_state candidate ∧
  (har_workspace_state r = sn_workspace_state s ∨
   host_verifier_advanced_same_revision s candidate r = true).
Proof.
  intros [Hin Hp]%find_first_Some. rewrite elem_of_reverse in Hin. bprop. split_and!; try done.
  match goal with Ho : (_ || _)%bool = true |- _ => apply orb_true_iff in Ho as [Ho|Ho] end;
    bprop; auto.
Qed.

Lemma host_verifier_advanced_true s candidate r contract :
  rr_task_contract (sn_request s) = Some contract →
  cc_generation_id candidate = contract_generation_id contract →
  host_verifier_advanced_same_revision s candidate r = true →
  checked_add64 (ws_generation (har_workspace_state r)) 1 =
    Some (ws_generation (sn_workspace_state s)) ∧
  ws_revision (har_workspace_state r) = ws_revision (sn_workspace_state s) ∧
  ∃ id description policy verifier,
    AcceptVerifier id description policy verifier ∈ def_acceptance (contract_definition contract) ∧
    is_Some (current_evidence s contract id policy verifier).
Proof.
  intros Hc Hg. unfold host_verifier_advanced_same_revision. destruct (_ || _) eqn:Hb; [done|].
  rewrite Hc. intros (a & Ha & Hx)%existsb_elem_of. bprop. split; [done|]. split; [done|].
  destruct a as [|id description policy verifier]; [done|].
  apply existsb_elem_of in Hx as (ev & Hev & Hp). bprop.
  exists id, description, policy, verifier. split; [done|].
  apply (find_first_is_Some _ _ ev); [done|].
  rewrite !bool_decide_true by congruence. cbn.
  match goal with Hl : lineage_satisfies _ _ = true |- _ => by rewrite Hl end.
Qed.

(** The receipt of the Host still holds when the review is over. *)
Lemma host_receipt_current contract candidate s0 s r :
  well_frozen contract s0 → cc_generation_id candidate = contract_generation_id contract →
  ws_generation (sn_workspace_state s0) < U64_MAX →
  current_host_acceptance s0 candidate = Some r → s = s0 ∨ advanced contract s0 s →
  har_workspace_state r = sn_workspace_state s ∨
  (∃ a, a ∈ def_acceptance (contract_definition contract) ∧ is_verifier_acceptance a = true) ∧
  checked_add64 (ws_generation (har_workspace_state r)) 1 =
    Some (ws_generation (sn_workspace_state s)) ∧
  ws_revision (har_workspace_state r) = ws_revision (sn_workspace_state s).
Proof.
  intros [Hc _ Hone] Hg Hlt (_ & _ & _ & _ & Hws)%current_host_acceptance_Some Hs.
  destruct Hs as [->|(id & d & policy & verifier & receipt & Hin & Hnone & Hv)].
  - destruct Hws as [?|Hadv]; [by left|right].
    apply (host_verifier_advanced_true _ _ _ contract) in Hadv
      as (? & ? & id & d & p & v & Hin & _); [|done..]. split; [by eexists|done].
  - right. destruct Hws as [Hws|Hadv].
    + split; [by eexists|]. destruct Hv. rewrite vd_generation0, vd_revision0, Hws. split; [|done].
      unfold checked_add, saturating_add. rewrite N.min_l by lia.
      by rewrite (proj2 (N.leb_le _ _)) by lia.
    + apply (host_verifier_advanced_true _ _ _ contract) in Hadv
        as (_ & _ & id' & d' & p' & v' & Hin' & Hsome); [|done..].
      pose proof (at_most_one_elem _ _ _ _ Hone Hin Hin' eq_refl eq_refl) as [= -> -> -> ->].
      rewrite Hnone in Hsome. by destruct Hsome.
Qed.

(** What a review that went through says about the snapshot it ends in, while there is [room] for
    the generation of the workspace to advance. *)
Record passed (room : Prop) contract candidate s0 s satisfied : Prop := {
  ps_generation : cc_generation_id candidate = contract_generation_id contract;
  ps_pending : sn_pending_completion s = Some candidate;
  ps_frozen : well_frozen contract s0;
  ps_room : room → ws_generation (sn_workspace_state s0) < U64_MAX;
  ps_met : Forall2 (met contract (current_host_acceptance s0 candidate) s)
             (def_acceptance (contract_definition contract)) satisfied;
  ps_moved : s = s0 ∨ advanced contract s0 s;
}.

Lemma passed_acceptance (room : Prop) log contract candidate s0 s satisfied run_id decision a :
  room → reachable log s → passed room contract candidate s0 s satisfied →
  cd_candidate_id decision = cc_id candidate → cd_satisfied decision = satisfied →
  a ∈ def_acceptance (contract_definition contract) →
  check_acceptance s run_id candidate contract decision a = Ok tt.
Proof.
  intros Hyes Hr [Hg Hc Hwf Hroom Hmet Hmoved] Hid <- Ha. specialize (Hroom Hyes).
  pose proof (reachable_receipts _ _ Hr) as [Hnd _]. pose proof (reachable_host_receipts _ _ Hr) as [Hhnd _].
  assert (well_frozen contract s ∧ sn_host_acceptance_receipts s = sn_host_acceptance_receipts s0)
    as [Hwf' Hhosts].
  { destruct Hmoved as [->|(? & ? & ? & ? & ? & _ & _ & [])]; [done|]. split; [|done].
    destruct Hwf. split; congruence. }
  destruct (met_found _ _ _ _ _ Hwf' Hmet Ha) as (satisfaction & Hf & Hm).
  unfold check_acceptance. rewrite Hf. cbn.
  destruct a as [id description|id description policy verifier].
  - destruct Hm as (r & Hhost & ->).
    pose proof (current_host_acceptance_Some _ _ _ Hhost) as (Hin & Hcand & Hgen & Hws & _).
    rewrite <- Hhosts in Hin. pose proof (find_first_elem har_id _ r Hhnd Hin) as Hff.
    unfold HostAcceptanceReceiptId in *. rewrite Hff. cbn.
    rewrite Hcand, Hid, Hgen, Hg, Hws.
    pose proof (host_receipt_current _ _ _ _ _ Hwf Hg Hroom Hhost Hmoved) as Hcur.
    destruct Hcur as [Hcur|((a & Ha' & Hv) & Hgeneration & Hrevision)].
    + rewrite <- Hws, Hcur. by rewrite !same_key.
    + rewrite (met_verifier_current _ _ _ _ _ Hwf' Hmet Ha' Hv), <- Hws, Hgeneration, Hrevision.
      rewrite !same_key. cbn. by rewrite orb_true_r.
  - destruct Hm as (r & Hin & -> & Hp).
    pose proof (find_first_elem er_id _ r Hnd Hin) as Hff.
    unfold EvidenceReceiptId in *. rewrite Hff. cbn. by rewrite Hp.
Qed.

Lemma passed_decision (room : Prop) log contract candidate s0 s satisfied run_id decision :
  room → reachable log s → passed room contract candidate s0 s satisfied →
  decision = mkCompletionDecision (cc_id candidate) (contract_generation_id contract)
               (sn_workspace_state s) satisfied →
  CompletionDecision_validate decision = Ok tt →
  validate_completion_decision s run_id decision = Ok tt.
Proof.
  intros Hyes Hr Hp Heq Hv. pose proof Hp as [Hg Hc Hwf Hroom Hmet Hmoved].
  assert (rr_task_contract (sn_request s) = Some contract) as Hcontract.
  { destruct Hwf. destruct Hmoved as [->|(? & ? & ? & ? & ? & _ & _ & [])]; congruence. }
  unfold validate_completion_decision. rewrite Hv, Hc, Hcontract. cbn.
  rewrite (proj2 (for_each_Ok _ (def_acceptance (contract_definition contract)) tt)).
  - subst decision. cbn. rewrite !bool_decide_true by done. cbn.
    by rewrite (Forall2_length _ _ _ Hmet), Nat.eqb_refl.
  - apply Forall_forall. intros a Ha. subst decision. by eapply (passed_acceptance room).
Qed.

(** ** The review as a whole *)

(** The last thing that happened is an observation of another workspace state. *)
Definition ends_observed log : Prop :=
  ∃ before e ws, log = before ++ [e] ∧ sre_event e = WorkspaceObserved ws.
Definition observed s s' : Prop :=
  sn_request s' = sn_request s ∧ sn_pending_completion s' = sn_pending_completion s ∧
  sn_pending_host_verification s' = sn_pending_host_verification s ∧
  ws_generation (sn_workspace_state s') ≤ ws_generation (sn_workspace_state s) + 1.

Lemma triple_reachable {E A} P φ (m : run E A) Q :
  (∀ s log, reachable log s → φ s → triple (seen P (eq s)) m Q) → triple (seen P φ) m Q.
Proof.
  intros Hm rt log rt' r Hs [HP Hφ].
  apply (Hm (rt_snapshot rt) log); try done.
  apply reachable_reduce, (live_snapshot _ _ _ (sf_live _ _ _ _ _ Hs)).
Qed.

Lemma triple_reconcile P s :
  steady P →
  triple (seen P (eq s)) (reconcile_review ports)
    (λ _ rt log, P rt log ∧ (rt_snapshot rt = s ∨ ends_observed log ∧ observed s (rt_snapshot rt))).
Proof.
  intros HP. apply triple_or_else. unfold reconcile_workspace.
  eapply triple_bind; [apply triple_still; [done|by apply quietly_observe|done]|]. intros ws.
  apply triple_look. destruct (ws !=? _).
  - eapply triple_bind; [|intros e; apply triple_ret; intros rt log Hpost; exact Hpost].
    apply triple_or_else. apply triple_publish; try done.
    intros rt log e rt' Hs [Hp Heq] He Happ Hb Hf _. split.
    + eapply HP; [|done]. apply quiet_published; try done. by rewrite He.
    + right. split; [by exists log, e, ws|].
      apply run_step_inv in Happ as (r & s1 & _ & Hd & ->). rewrite He, <- Heq in Hd. cbn.
      pose proof (dispatch_workspace _ _ _ _ _ Hd) as Hgen. pose proof (dispatch_request _ _ _ _ _ Hd).
      apply dispatch_observed in Hd as (? & ? & _ & _). split_and!; try done. cbn.
      destruct Hgen as [->|Hgen]; [lia|]. rewrite Hgen. unfold saturating_add. lia.
  - apply triple_ret. intros rt log [Hp Heq]. split; [done|by left].
Qed.

Lemma triple_known_failures P s candidate contract :
  triple (seen P (eq s)) (review_known_failures candidate contract : review unit) (λ _, seen P (eq s)).
Proof.
  unfold review_known_failures. apply triple_look.
  eapply triple_bind with (R := λ _, seen P (eq s)).
  - destruct (sn_last_completion_rejection s); [|by apply triple_ret].
    unfold block_if. case_match; [apply triple_throw|by apply triple_ret].
  - intros []. destruct (sn_last_host_verification_failure s); [|by apply triple_ret].
    unfold block_if. case_match; [apply triple_throw|by apply triple_ret].
Qed.

(** The outcome of a review that goes through. *)
Definition reviewed (room : Prop) P candidate (x : string * CompletionDecision) rt log : Prop :=
  P rt log ∧ x.1 = cc_message candidate ∧
  ((room → ∀ run_id, validate_completion_decision (rt_snapshot rt) run_id x.2 = Ok tt) ∨
   ends_observed log ∧ ∃ contract, rr_task_contract (sn_request (rt_snapshot rt)) = Some contract ∧
     existsb is_verifier_acceptance (def_acceptance (contract_definition contract)) = true).

(** The last step: the decision on the snapshot [s1] that the acceptances left. *)
Definition decide candidate contract (host : option HostAcceptanceReceipt)
    (satisfied : list AcceptanceSatisfaction) : review (string * CompletionDecision) :=
  snapshot ← get_snapshot;
  block_if (is_some_and host (λ receipt,
              ws_revision (har_workspace_state receipt) !=? ws_revision (sn_workspace_state snapshot)))
    "显式 Host acceptance receipt 不再匹配最新工作区 revision" ;;
  let decision := mkCompletionDecision (cc_id candidate) (contract_generation_id contract)
                    (sn_workspace_state snapshot) satisfied in
  lift (map_err (λ message, Raised (ReviewBlocked message)) (CompletionDecision_validate decision)) ;;
  mret (cc_message candidate, decision).

Lemma triple_decide (room : Prop) P candidate contract s0 host satisfied φ :
  (∀ s, φ s → passed room contract candidate s0 s satisfied) →
  triple (λ rt log, P rt log ∧ (φ (rt_snapshot rt) ∨ ends_observed log ∧
      rr_task_contract (sn_request (rt_snapshot rt)) = Some contract ∧
      existsb is_verifier_acceptance (def_acceptance (contract_definition contract)) = true))
    (decide candidate contract host satisfied) (reviewed room P candidate).
Proof.
  intros Hφ. unfold decide. eapply triple_bind; [apply triple_get_snapshot|]. intros s.
  apply triple_block_if. intros _. cbv zeta.
  destruct (CompletionDecision_validate _) as [[]|message] eqn:Hv; cbn [map_err].
  - intros rt log rt' r Hs [[HP Hpost] ->] [= <- <-]. exists log. split; [done|].
    split; [by apply safe_durable in Hs|]. do 3 (split; [done|]).
    destruct Hpost as [Hp|(Ho & Hc & He)]; [left|right; eauto].
    intros Hroom run_id. cbn [snd]. eapply passed_decision; [exact Hroom| |by apply Hφ|done|done].
    apply reachable_reduce, (live_snapshot _ _ _ (sf_live _ _ _ _ _ Hs)).
  - eapply triple_bind with (R := λ _ _ _, False); [|by intros ???????].
    apply triple_lift. by intros ????.
Qed.

Lemma triple_accept (room : Prop) P candidate :
  steady P →
  triple (seen P (λ s, reviewable candidate s ∧
      (room → ws_generation (sn_workspace_state s) + 1 < U64_MAX)))
    (accept_completion_candidate ports verifiers candidate) (reviewed room P candidate).
Proof.
  intros HP. apply triple_reachable. intros s log Hreach [[Hc Hv] Hroom].
  unfold accept_completion_candidate. apply triple_look.
  destruct (rr_task_contract (sn_request s)) as [contract|] eqn:Hcontract; cbn [or_blocked];
    [|eapply triple_bind with (R := λ _ _ _, False); [apply triple_throw|by intros ???????]].
  apply triple_ret_bind, triple_block_if. intros Hg. bprop.
  pose proof (reachable_well_frozen _ _ _ Hreach Hcontract) as Hwf.
  set (Φ s0 := reviewable candidate s0 ∧ well_frozen contract s0 ∧
               (room → ws_generation (sn_workspace_state s0) < U64_MAX)).
  eapply triple_bind with (R := λ _, seen P Φ).
  { eapply triple_conseq; [by apply (triple_reconcile P s)|done|].
    intros _ rt log' [Hp Hs]. split; [done|]. destruct Hwf as [Hwc Hwu Hwv].
    destruct Hs as [->|(_ & Hreq & Hcomp & Hpend & Hgen)]; [split_and!; [done..|intros Hyes; specialize (Hroom Hyes); lia]|].
    split_and!; [split; [congruence|by rewrite Hpend]|split; try done; congruence|intros Hyes; specialize (Hroom Hyes); lia]. }
  intros _. apply triple_at. intros s0 (Hrev & Hwf0 & Hroom0).
  eapply triple_bind; [apply triple_known_failures|]. intros []. apply triple_look. cbv zeta.
  eapply triple_bind; [apply triple_satisfy_all; try done; apply Hwf0|]. intros satisfied.
  apply triple_at. intros s1 [Hmet Hs1].
  assert (passed room contract candidate s0 s1 satisfied) as Hpassed.
  { split; try done; [|by destruct Hs1 as [?|[_ ?]]; [left|right]].
    destruct Hs1 as [->|[_ Hadv]]; [by destruct Hrev|]. by destruct (advanced_reviewable _ _ _ _ Hrev Hadv). }
  assert (rr_task_contract (sn_request s1) = Some contract) as Hcontract1.
  { destruct Hwf0. destruct Hs1 as [->|(_ & ? & ? & ? & ? & ? & _ & _ & [])]; congruence. }
  eapply triple_bind with (R := λ _ rt log, P rt log ∧ (s1 = rt_snapshot rt ∨ ends_observed log ∧
    rr_task_contract (sn_request (rt_snapshot rt)) = Some contract ∧
    existsb is_verifier_acceptance (def_acceptance (contract_definition contract)) = true)).
  - destruct (existsb is_verifier_acceptance _) eqn:Hver.
    + eapply triple_conseq; [by apply (triple_reconcile P s1)|done|].
      intros _ rt log' [Hp [Hs|(Ho & Hreq & _)]]; (split; [done|]); [by left|right].
      split_and!; [done|congruence|done].
    + apply triple_ret. intros rt log' [Hp Hs]. split; [done|by left].
  - intros []. apply (triple_decide room P candidate contract s0 _ satisfied (eq s1)). by intros ? <-.
Qed.

(** C7: What the review of a completion accepts, the reducer accepts.  The review of a pending
    candidate - the reconciliation of the workspace, the known failures, the Host receipts, the
    lineage of each verifier, its run where it has none - runs a verifier only for the pending
    candidate, in its workspace state, after the start of that run is durable; whatever it answers,
    nothing that is durable is lost, and a started verifier is started once.  When it accepts, the
    decision passes the validation of the terminal event in the snapshot that it leaves.  The one
    exception is the observation after the verifiers: a workspace that moved under a contract with a
    verifier leaves a decision that the reducer refuses. *)
Theorem accepted_completion_is_valid candidate rt log rt' r :
  safe rt log → reviewable candidate (rt_snapshot rt) →
  ws_generation (sn_workspace_state (rt_snapshot rt)) + 1 < U64_MAX →
  accept_completion_candidate ports verifiers candidate rt = (rt', r) →
  ∃ log', log `prefix_of` log' ∧ durable rt' log' ∧
    match r with
    | Ok (message, decision) => safe rt' log' ∧ message = cc_message candidate ∧
      ((∀ run_id, validate_completion_decision (rt_snapshot rt') run_id decision = Ok tt) ∨
       ends_observed log' ∧
       ∃ contract, rr_task_contract (sn_request (rt_snapshot rt')) = Some contract ∧
         existsb is_verifier_acceptance (def_acceptance (contract_definition contract)) = true)
    | Err _ => True
    end.
Proof.
  intros Hs Hrev Hroom Hr.
  destruct (triple_accept True (λ _ _, True) candidate (steady_pure True) _ _ _ _ Hs
    (conj I (conj Hrev (λ _, Hroom))) Hr) as (log' & Hpre & Hd & Hok).
  exists log'. split_and!; [done..|]. destruct r as [[message decision]|]; [|done].
  destruct Hok as (? & _ & ? & [Hvalid|?]); (split_and!; [done..|]); [left; auto|by right].
Qed.
End review.

(** ** The terminal outcome *)

(** What a load answers is the durable log. *)
Class RunPortLoads (S : Type) `{RunPortLaws S} := {
  port_load_law : ∀ st l log replay, port_holds st l log →
    port_load st (rl_run_id l) = Ok (Some replay) →
    reduce_events log = Ok (replay_snapshot replay);
}.
#[export] Instance mem_port_loads `{Codecs} {RunCommand : Type} :
  RunPortLoads (InMemoryRunStore RunCommand).
Proof.
  split. intros st l log replay (run & Hrun & <- & Hok & _). cbn. unfold load. rewrite Hrun.
  rewrite (replay_in_memory_run_ok _ _ Hok). cbn. intros [= <-]. by destruct Hok.
Qed.
#[export] Instance loop_port_loads {St : Type} `{RunPortLoads St} : RunPortLoads (LoopWorld St).
Proof. split. intros w l log replay. exact (port_load_law (lw_store w) l log replay). Qed.

Section finalize.
Context {St : Type} `{RunPortLoads St} `{ReleasePort St} (ports : RuntimePorts).
Implicit Types (rt : Rt St) (log : list StoredRuntimeEvent).

(** Any event may be published. *)
Abbreviation keeps := (emits (λ _ : RuntimeEventKind, True)).

Lemma keeps_resume_writer_cleanup orchestrator task seal :
  keeps (resume_writer_cleanup ports orchestrator task seal).
Proof.
  unfold resume_writer_cleanup, cleanup_writer, execute_cleanup, current_agent_lifecycle.
  cbv zeta. emits.
Qed.
Lemma keeps_cleanup_integrated_writers : keeps (cleanup_integrated_writers ports).
Proof.
  unfold cleanup_integrated_writers. emits.
  match goal with |- emits _ (cleanup_tasks _ _ ?tasks) => generalize tasks end. intros tasks.
  induction tasks as [|task tasks IH]; cbn [cleanup_tasks]; [emits|].
  unfold current_agent_lifecycle. emits; try done. apply keeps_resume_writer_cleanup.
Qed.
Lemma keeps_settled_cleanup {E} terminal : keeps (settled_cleanup (E := E) ports terminal).
Proof.
  intros rt log rt' r Hh. unfold settled_cleanup.
  destruct (is_root (rt_snapshot rt)); [|by apply (emits_ret _ (E := E) terminal)]. intros Hr.
  apply (emits_catch _ (cleanup_integrated_writers ports) (λ r, mret (default terminal r))
    (λ r, mret r) keeps_cleanup_integrated_writers (λ r, emits_ret _ _) (λ r, emits_ret _ _) _ log _ r Hh).
  rewrite <- Hr. by destruct (cleanup_integrated_writers ports rt) as [? [[]|]].
Qed.
Lemma keeps_final_outcome {E} terminal : keeps (final_outcome (E := E) ports terminal).
Proof. unfold final_outcome, final_accounting, cumulative_accounting. cbv zeta. emits. Qed.

(** What a published terminal event leaves in the log. *)
Lemma terminal_logged log s e outcome :
  reduce_events log = Ok s → e ∈ log → sre_event e = Terminal outcome → sn_terminal s = Some outcome.
Proof.
  intros Hs Hin He. destruct (terminal_is_final _ _ Hs) as (Hlast & Hend & _).
  apply list_elem_of_lookup_1 in Hin as [i Hi].
  specialize (Hend _ _ Hi). rewrite He in Hend. specialize (Hend eq_refl).
  apply Hlast. exists e. split; [|done]. rewrite last_lookup, <- Hend. done.
Qed.

(** How a run ends: its outcome is the terminal event of the durable log, or could not be made so
    and says it. *)
Definition ends_with log (outcome : AgentOutcome) : Prop :=
  (∃ s, reduce_events log = Ok s ∧ sn_terminal s = Some outcome) ∨
  ∃ error, ao_terminal outcome = Failed (StoreFailure ("terminal_persist_failed：" +:+ error)).

Lemma publish_outcome_ends {E} outcome rt log rt' (r : result E AgentOutcome) :
  holds rt log → publish_outcome ports outcome rt = (rt', r) →
  ∃ final log' st, r = Ok final ∧ log `prefix_of` log' ∧
    port_holds st (rs_lease (rt_state rt)) log' ∧
    (rt_store rt' = st ∨ rt_store rt' = port_release st (rs_lease (rt_state rt))) ∧
    ends_with log' final.
Proof.
  intros Hh. unfold publish_outcome. destruct (publish _ _ _) as [rt1 res] eqn:Hp.
  apply (publish_holds ports _ _ log) in Hp as ((log' & Hpre & Hl & Hrun) & Hs & Hres); [|done].
  assert (rs_lease (rt_state rt1) = rs_lease (rt_state rt)) as Hlease by (by rewrite Hs).
  clear Hs. destruct res as [e|failure].
  - intros [= <- <-]. destruct Hres as (log2 & [Hl2 _] & Hpre2 & Hin & He & Happ).
    apply step_terminal in Happ as [_ Hterm]. rewrite He in Hterm. rewrite Hterm. cbn.
    exists outcome, log2, (rt_store rt1). rewrite <- Hlease. split_and!; try done; [by left|]. left.
    destruct (port_holds_log _ _ _ Hl2) as [_ (s' & Hs' & _)]. exists s'. split; [done|].
    by eapply terminal_logged.
  - clear Hres.
    unfold terminal_not_persisted. cbv zeta. rewrite M_bind_run. cbn -[port_load]. rewrite M_bind_run.
    cbn -[port_load]. rewrite <- Hlease, Hrun. intros Hr.
    assert (∀ error, (rt', r) = (rt1 <| rt_store := port_release (rt_store rt1) (rs_lease (rt_state rt1)) |>,
       Ok (outcome <| ao_terminal := Failed (StoreFailure ("terminal_persist_failed：" +:+ error)) |>)) →
       ∃ final log' st, r = Ok final ∧ log `prefix_of` log' ∧
       port_holds st (rs_lease (rt_state rt1)) log' ∧
       (rt_store rt' = st ∨ rt_store rt' = port_release st (rs_lease (rt_state rt1))) ∧
       ends_with log' final) as Hlost.
    { intros error [= -> ->]. eexists _, log', (rt_store rt1). split_and!; [done..|by right|].
      right. by eexists. }
    destruct (port_load _ _) as [[replay|]|] eqn:Hload; [|eapply Hlost; symmetry; exact Hr..].
    destruct (sn_terminal (replay_snapshot replay)) as [existing|] eqn:Hterm; [|eapply Hlost; symmetry; exact Hr].
    injection Hr as <- <-. exists existing, log', (rt_store rt1). split_and!; [done..|by left|]. left.
    eexists. split; [by eapply port_load_law|done].
Qed.

(** What the accounting of the outcome may not hide. *)
Lemma final_accounting_honest {E} terminal rt rt' accounting :
  final_accounting ports (E := E) terminal rt = (rt', Ok accounting) →
  rt_snapshot rt' = rt_snapshot rt ∧
  sn_runtime_retries (rt_snapshot rt) ≤ ma_runtime_retries accounting ∧
  (hides_model_billing (rt_snapshot rt) terminal = true →
   ma_complete accounting = false ∧ ma_usage_complete accounting = false ∧
   ma_billing_unknown accounting = true ∧
   sat_add64 (ma_billing_unknown_attempts (rs_accounting_epoch_baseline (rt_state rt))) 1
     ≤ ma_billing_unknown_attempts accounting).
Proof.
  unfold final_accounting, rt_snapshot. rewrite M_bind_run. cbn -[cumulative_accounting hides_model_billing].
  rewrite M_bind_run. destruct (is_completed terminal && _); cbn -[hides_model_billing]; intros [= <- <-];
    (split; [done|]); (split; [cbn; lia|]); intros ->; cbn; (split_and!; [done..|lia]).
Qed.

(** C9: A request that was sent and never settled stays visible in the outcome of its run.  When a
    run ends with a request in flight, or because such a request cannot be resent, the accounting of
    its outcome claims neither complete requests nor complete usage, says that the billing is
    unknown, and counts at least one more unknown attempt than the epoch began with; and a root
    that was denied a request for its budget does not end as completed. *)
Theorem unsettled_requests_stay_visible {E} terminal rt rt' outcome :
  final_outcome ports (E := E) terminal rt = (rt', Ok outcome) →
  (hides_model_billing (rt_snapshot rt) terminal = true →
   ma_complete (ao_accounting outcome) = false ∧ ma_usage_complete (ao_accounting outcome) = false ∧
   ma_billing_unknown (ao_accounting outcome) = true ∧
   sat_add64 (ma_billing_unknown_attempts (rs_accounting_epoch_baseline (rt_state rt))) 1
     ≤ ma_billing_unknown_attempts (ao_accounting outcome)) ∧
  (is_root (rt_snapshot rt) = true →
   ma_budget_exhausted (ao_accounting outcome) = true ∨ 0 < ma_exhausted_denied (ao_accounting outcome) →
   is_completed (ao_terminal outcome) = false) ∧
  sn_runtime_retries (rt_snapshot rt) ≤ ma_runtime_retries (ao_accounting outcome).
Proof.
  unfold final_outcome. rewrite M_bind_run.
  destruct (final_accounting ports terminal rt) as [rt1 [accounting|e]] eqn:Ha; [|done].
  apply final_accounting_honest in Ha as (Hsn & Hretries & Hhonest).
  intros [= _ <-]. cbn. split_and!; [done| |done].
  intros Hroot Hdenied. unfold budgeted_terminal. fold (rt_snapshot rt1). rewrite Hsn, Hroot.
  assert (ma_budget_exhausted accounting || (0 <? ma_exhausted_denied accounting) = true) as ->.
  { destruct Hdenied as [->|Hlt]; [done|]. by rewrite (proj2 (N.ltb_lt _ _) Hlt), orb_true_r. }
  destruct terminal as [| | |failure| | |]; try done. by destruct failure.
Qed.

(** C8: Every run ends with an outcome that its durable log bears.  Whatever the cleanup of the
    writers, the accounting and the store answer, the end of a run fails at no step: a candidate that
    waits for its user leaves the log as it is; otherwise the outcome that is handed out is the
    terminal event of the durable log - the one that was published, or the one that is found there
    when the publication failed - or says that it could not be persisted. *)
Theorem run_ends_as_its_log_says {E} terminal rt log rt' (r : result E AgentOutcome) :
  holds rt log → finalize ports terminal rt = (rt', r) →
  ∃ outcome log' st, r = Ok outcome ∧ log `prefix_of` log' ∧
    port_holds st (rs_lease (rt_state rt)) log' ∧
    (rt_store rt' = st ∨ rt_store rt' = port_release st (rs_lease (rt_state rt))) ∧
    if is_awaiting_host terminal then log' = log ∧ ao_terminal outcome = terminal
    else ends_with log' outcome.
Proof.
  intros Hh Hr. destruct (is_awaiting_host terminal) eqn:Hawait.
  - destruct terminal; try done. injection Hr as <- <-. eexists _, log, (rt_store rt).
    destruct Hh. split_and!; try done. by right.
  - assert (finalize ports (E := E) terminal rt = (terminal ← settled_cleanup ports terminal;
      outcome ← final_outcome ports terminal; publish_outcome ports outcome) rt) as Hf
      by by destruct terminal.
    rewrite Hf, M_bind_run in Hr. clear Hf.
    destruct (settled_cleanup ports terminal rt) as [rt1 [terminal'|e]] eqn:Hc.
    + apply (keeps_settled_cleanup _ rt log) in Hc as ((log1 & Hpre1 & Hh1) & _ & Hl1); [|done].
      rewrite M_bind_run in Hr. destruct (final_outcome ports terminal' rt1) as [rt2 [outcome|e]] eqn:Ho.
      * apply (keeps_final_outcome _ rt1 log1) in Ho as ((log2 & Hpre2 & Hh2) & _ & Hl2); [|done].
        apply (publish_outcome_ends _ _ log2) in Hr as (final & log3 & st & -> & Hpre3 & Hst & Hrel & He); [|done].
        rewrite Hl2, Hl1 in *. exists final, log3, st. split_and!; try done. by do 2 (etrans; [done|]).
      * exfalso. revert Ho. unfold final_outcome, final_accounting. rewrite !M_bind_run.
        cbn -[cumulative_accounting]. rewrite M_bind_run. by destruct (_ && _).
    + exfalso. revert Hc. unfold settled_cleanup. destruct (is_root _); [|done].
      by destruct (cleanup_integrated_writers _ _) as [? [[]|]].
Qed.
End finalize.
