(* ===== verification/AgentCallFacts.v ===== *)
(** One tool call in a live process: a tool runs for exactly the invocation that was prepared and
    only with a durable permission, and every call that goes through ends in a committed outcome. *)
From Stdlib Require Import Ascii String.
From S2P Require Import Prelude.
From S2P Require Import Text.
From S2P Require Import Json.
From S2P Require Import Task.
From S2P Require Import Protocol.
From S2P Require Import Validate.
From S2P Require Import Context.
From S2P Require Import Snapshot.
From S2P Require Import Evidence.
From S2P Require Import RunEvents.
From S2P Require Import AgentEvents.
From S2P Require Import Reducer.
From S2P Require Import Steps.
From S2P Require Import LogFacts.
From S2P Require Import ToolFacts.
From S2P Require Import MemStore.
From S2P Require Import MemStoreFacts.
From S2P Require Import AgentTools.
From S2P Require Import AgentRuntime.
From S2P Require Import AgentRuntimeFacts.
From S2P Require Import AgentEmits.
From S2P Require Import AgentControl.
From S2P Require Import AgentTurn.
From S2P Require Import AgentProcess.
From S2P Require Import AgentControlFacts.
From S2P Require Import AgentCompletionFacts.
From S2P Require Import AgentCall.

Open Scope string_scope.
Open Scope list_scope.
Open Scope N_scope.

(** ** What happens while a call waits *)

(** The events of the waits of a call: commands, and what the call itself asks. *)
Definition waiting_event (ev : RuntimeEventKind) : bool :=
  match ev with
  | SteerQueued _ _ | ControlRequested _ _ | InteractionRequested _ | InteractionResolved _ _ _
  | HostCompletionAccepted _ _ | WorkspaceObserved _ | ToolAuthorizationCommitted _ _ => true
  | _ => false
  end.
Definition waiting (ev : RuntimeEventKind) : Prop := waiting_event ev = true.

(** The operation is pending, for this invocation. *)
Definition asks (operation_id : OperationId) (invocation : ToolInvocation) (s : RunSnapshot) : Prop :=
  ∃ p, sn_pending_tool s = Some p ∧ pta_operation_id p = operation_id ∧ pta_invocation p = invocation.

Section frame.
Context `{Codecs}.

Lemma dispatch_asks op invocation s run_id n ev s' :
  waiting ev → dispatch s run_id n ev = Ok s' → asks op invocation s →
  asks op invocation (s' <| sn_last_sequence := n |>).
Proof.
  intros Hw Hd (p & Hp & <- & <-). pose proof (dispatch_pending_tool _ _ _ _ _ Hd) as Hf.
  assert (∀ q, sn_pending_tool s' = Some q → pta_operation_id q = pta_operation_id p →
    pta_invocation q = pta_invocation p →
    asks (pta_operation_id p) (pta_invocation p) (s' <| sn_last_sequence := n |>)) as Hq
    by (intros q ???; by exists q).
  destruct ev; try discriminate Hw; cbn [dispatch] in Hd;
    unfold on_tool_authorization_committed, on_interaction_requested, on_interaction_resolved,
      pending_tool_mut in Hd;
    try (by eapply Hq; [rewrite Hf|..]);
    repeat (apply bind_Ok in Hd; destruct Hd as (? & ? & Hd)); split_shapes; inv_run; bprop;
    simplify_eq; by eapply Hq.
Qed.
Lemma moves_asks op invocation s s' :
  moves waiting s s' → asks op invocation s → asks op invocation s'.
Proof. apply moves_keep. intros ????? Hw Hd. by eapply dispatch_asks. Qed.
End frame.

Section waits.
Context `{Codecs} {St : Type} `{!RunPort St} `{!RunPortLaws St}.
Context (ports : RuntimePorts) (tools : CallPorts).
Abbreviation run := (M (LoopWorld St)).
Abbreviation idles := (emits (St := LoopWorld St) waiting).

Lemma idles_say {E} call : idles (say (E := E) call).
Proof. apply emits_same. by intros ??? [= <- <-]. Qed.
Lemma idles_acknowledge {E} ack command_id command answer :
  idles (acknowledge (E := E) ack command_id command answer).
Proof. unfold acknowledge. destruct ack; [apply idles_say|apply emits_ret]. Qed.
Lemma idles_publish_command ev ack command_id command :
  waiting ev → idles (publish_command ports ev ack command_id command).
Proof.
  intros Hw. apply (emits_catch _ (publish ports ev)
    (λ stored, acknowledge ack command_id command (Ok (sre_sequence stored)))
    (λ failure, acknowledge ack command_id command (Err (CtlStore (rp_failure_debug ports failure))) ;;
                throw (Raised failure))).
  - by apply emits_publish.
  - intros. apply idles_acknowledge.
  - intros. emits. apply idles_acknowledge.
Qed.

#[local] Hint Resolve idles_acknowledge idles_publish_command : core.
Ltac idles := cbv zeta; emits; unfold stop; emits; auto; try by apply idles_publish_command.

Lemma idles_reconcile : idles (reconcile_workspace ports).
Proof. unfold reconcile_workspace, observe_workspace_state. idles. Qed.
Lemma idles_handle_accept command_id acceptance : idles (handle_accept ports command_id acceptance).
Proof.
  unfold handle_accept. idles.
  refine (emits_catch _ (reconcile_workspace ports) (λ _, _) (λ _, _) idles_reconcile _ _);
    intros; idles.
Qed.
Lemma idles_handle_control command : idles (handle_control ports command).
Proof.
  destruct command; cbn [handle_control]; [| | |apply idles_handle_accept];
    unfold handle_steer, handle_stop, handle_resolve; idles.
Qed.

Lemma idles_wait_for_answer deadline inputs : idles (wait_for_answer ports deadline inputs).
Proof.
  induction inputs as [|[[]|command|] inputs IH]; cbn [wait_for_answer]; unfold terminal_halt, map_halt;
    idles. apply idles_handle_control.
Qed.
Lemma idles_wait_for_interaction op prompt deadline :
  idles (wait_for_interaction ports tools op prompt deadline).
Proof.
  unfold wait_for_interaction, publish_call. idles; try apply idles_wait_for_answer.
Qed.
Lemma idles_authorize_call op grant invocation persisted :
  idles (authorize_call ports tools op grant invocation persisted).
Proof. unfold authorize_call, publish_call. idles. Qed.
Lemma idles_approve authorization op call deadline :
  idles (approve ports tools authorization op call deadline).
Proof.
  unfold approve, ask_approval. idles; apply idles_wait_for_interaction.
Qed.
Lemma idles_recheck rejected started authorization :
  idles (recheck_workspace ports rejected started authorization).
Proof. unfold recheck_workspace. idles. Qed.
End waits.

(** ** The call *)

Section call.
Context `{Codecs} {St : Type} `{!RunPort St} `{!RunPortLaws St}.
Context (ports : RuntimePorts) (tools : CallPorts) (delegation : Delegation St).
Context (uuid_fresh : ∀ n m, rp_uuid ports n = rp_uuid ports m → n = m).
Context (uuid_random : ∀ n, rp_uuid ports n ≠ RuntimeEventId_terminal).
Context (limits : RunLimits) (older : list (N * Action)).
Abbreviation run := (M (LoopWorld St)).
Abbreviation world := (Rt (LoopWorld St)).
Abbreviation runlog := (list StoredRuntimeEvent).
Abbreviation triple := (triple ports limits older).
Abbreviation quietly := (quietly ports limits older).
Abbreviation safe := (safe ports limits older).
Abbreviation durable := (durable limits older).
Implicit Types (rt : world) (log : runlog) (P : world → runlog → Prop).

Lemma quietly_wait_for_answer deadline inputs : quietly (wait_for_answer ports deadline inputs).
Proof.
  induction inputs as [|[[]|command|] inputs IH]; cbn [wait_for_answer]; unfold terminal_halt, map_halt;
    quietly; auto. by apply quietly_handle_control.
Qed.
Lemma quietly_wait_for_interaction op prompt deadline :
  quietly (wait_for_interaction ports tools op prompt deadline).
Proof.
  unfold wait_for_interaction, publish_call. quietly; try apply quietly_wait_for_answer.
Qed.
Lemma quietly_authorize_call op grant invocation persisted :
  quietly (authorize_call ports tools op grant invocation persisted).
Proof. unfold authorize_call, publish_call. quietly. Qed.
Lemma quietly_approve authorization op call deadline :
  quietly (approve ports tools authorization op call deadline).
Proof. unfold approve, ask_approval. quietly; apply quietly_wait_for_interaction. Qed.
Lemma quietly_recheck rejected started authorization :
  quietly (recheck_workspace ports rejected started authorization).
Proof. unfold recheck_workspace. quietly. Qed.
Lemma quietly_await_execution access deadline inputs :
  quietly (await_execution ports access deadline inputs).
Proof.
  induction inputs as [|[[]|command|] inputs IH]; cbn [await_execution]; unfold terminal_halt, map_halt;
    quietly; auto. by apply quietly_handle_control.
Qed.
Lemma quietly_ask_user request op deadline : quietly (ask_user ports tools request op deadline).
Proof. unfold ask_user. cbv zeta. quietly. apply quietly_wait_for_interaction. Qed.

(** The pending operation stays what it is across the waits. *)
Lemma triple_asks {E A} P (m : run E A) op invocation :
  steady P → quietly m → emits waiting m →
  triple (seen P (asks op invocation)) m (λ _, seen P (asks op invocation)).
Proof.
  intros HP Hq He rt log rt' r Hs [Hp Ha] Hr.
  destruct (Hq P HP _ _ _ _ Hs Hp Hr) as (log' & ? & ? & Hok). exists log'. split_and!; [done..|].
  destruct r; [|done]. destruct Hok. split_and!; [done..|].
  pose proof (live_log _ _ _ (sf_live _ _ _ _ _ Hs)) as Hh.
  destruct (He _ _ _ _ Hh Hr) as (_ & Hm & _). split; [done|]. by eapply moves_asks.
Qed.

(** The invocation that the Host resolves from the model's, once a tool runs it. *)
Lemma triple_start_tool P op invocation execution contract :
  steady P →
  rte_invocation (resolve_tool_execution contract invocation) = Ok execution →
  triple (seen P (λ s, asks op invocation s ∧ rr_task_contract (sn_request s) = contract))
    (start_tool ports op execution false) (λ _, P).
Proof.
  intros HP Hexec. apply (triple_start ports uuid_fresh uuid_random limits older _ _ _
    (λ n, CallTool n op execution) (ToolAction op)); try done.
  - intros rt log e s2 Hs [_ [(p & Hp & Hop & Hinv) Hc]] He Happ.
    pose proof (live_snapshot _ _ _ (sf_live _ _ _ _ _ Hs)) as Hsn.
    exists log, e, [], (rt_snapshot rt). split_and!; try done. exists p.
    rewrite Hinv, Hc. split_and!; try done.
    apply run_step_inv in Happ as (r & s1 & _ & Hd & _). rewrite He in Hd.
    apply on_tool_execution_started_inv in Hd as (p' & Hp' & _ & _ & Hst). simplify_eq.
    destruct (is_host_tool _) eqn:Hhost; [by left|right]. destruct (Hst eq_refl) as (d & Hd & Hper).
    exists d. split_and!; try done.
    apply reachable_reduce, reachable_pending_tool in Hsn. by apply (Hsn _ Hp).
  - intros rt log e rt' Hs [Hp _] He Happ Hb Hf. eapply HP; [|done].
    apply quiet_published; try done. by rewrite He.
Qed.

Lemma triple_run_tool P call op persisted grant invocation execution access deadline contract :
  steady P →
  rte_invocation (resolve_tool_execution contract invocation) = Ok execution →
  triple (seen (λ rt log, P rt log ∧ rr_task_contract (sn_request (rt_snapshot rt)) = contract)
            (asks op invocation))
    (run_tool ports tools call op false persisted grant execution access deadline) (λ _, P).
Proof.
  intros HP Hexec. unfold run_tool.
  assert (steady (λ rt log, P rt log ∧ rr_task_contract (sn_request (rt_snapshot rt)) = contract)) as HP'.
  { intros ???? Hq [? ?]. split; [by eapply HP|]. by rewrite (qu_request _ _ _ _ Hq). }
  eapply triple_bind; [apply triple_asks; [done|apply quietly_authorize_call|apply idles_authorize_call]|].
  intros [outcome|authorization]; [by apply triple_ret; intros ?? [[? _] _]|].
  eapply triple_bind; [apply triple_asks; [done|by apply quietly_approve|apply idles_approve]|].
  intros [rejected terminal].
  eapply triple_bind; [apply triple_asks; [done|apply quietly_recheck|apply idles_recheck]|].
  intros [outcome|]; [by apply triple_ret; intros ?? [[? _] _]|].
  eapply triple_bind with (R := λ _, P).
  - eapply triple_pre; [by apply (triple_start_tool P op invocation execution contract)|].
    by intros rt log [[? ?] ?].
  - intros _. apply (quietly_bind ports limits older); [quietly|intros tick; apply quietly_await_execution|done].
Qed.

(** A tool that an earlier process left pending is this call, and was not started: only a call that
    delegates may have been. *)
Definition claimable (call : ModelToolCall) (state : RunState) : Prop :=
  ∀ pending, rs_recovery_tool state = Some pending → ti_call_id (pta_invocation pending) = mtc_id call →
    sn_pending_tool (rs_snapshot state) = Some pending ∧
    pta_invocation pending = mkToolInvocation (state_run_id state) (mtc_id call) (mtc_name call)
                               (mtc_arguments call) ∧
    (pta_state pending = Prepared ∨ mtc_name call = AGENT_TOOL_NAME).

Lemma triple_known_state {E A} P state (f : RunState → run E A) Q :
  triple (λ rt log, P rt log ∧ rt_state rt = state) (f state) Q →
  triple (λ rt log, P rt log ∧ rt_state rt = state) (get_state ≫= f) Q.
Proof.
  intros Hf. eapply triple_bind; [apply triple_get_state|]. intros state'.
  intros rt log rt' r Hs [[Hp Hst] Heq]. rewrite Heq, Hst. by apply Hf.
Qed.

Lemma triple_claim P call state access invocation :
  steady P → claimable call state →
  invocation = mkToolInvocation (state_run_id state) (mtc_id call) (mtc_name call) (mtc_arguments call) →
  triple (λ rt log, P rt log ∧ rt_state rt = state) (claim_operation ports call invocation access)
    (λ x rt log, seen P (asks x.1.1 invocation) rt log ∧
       (x.1.2 = true → mtc_name call = AGENT_TOOL_NAME)).
Proof.
  intros HP Hclaim Hinv. unfold claim_operation. apply triple_known_state.
  destruct (rs_recovery_tool state) as [pending|] eqn:Hrec.
  - destruct (ti_call_id _ ==? _) eqn:Hid; [bprop|apply triple_throw].
    destruct (Hclaim _ Hrec Hid) as (Hpend & Hinv' & Hstate).
    set (R := λ rt (log : runlog), sn_pending_tool (rt_snapshot rt) = Some pending).
    eapply triple_bind with (R := λ _ rt log, P rt log ∧ R rt log).
    + intros rt log rt' r Hs [Hp Hst] Hr.
      assert (quietly (set_recovery_tool (St := St) None)) as Hq.
      { apply quietly_local. intros ??? [= <- <-]. by cbn; split_and!. }
      destruct (Hq _ HP _ _ _ _ Hs Hp Hr) as (log' & ? & ? & Hok). injection Hr as <- <-.
      exists log'. destruct Hok. split_and!; try done. unfold R, rt_snapshot. cbn. by rewrite Hst.
    + intros _. apply triple_ret. intros rt log [Hp HR]. cbn. split; [split; [done|]|].
      * exists pending. by rewrite Hinv, Hinv'.
      * intros Hst. bprop. by destruct Hstate as [?|]; [congruence|].
  - eapply triple_bind with (R := λ _, P).
    { eapply triple_pre; [by apply quietly_next_tick|]. by intros ?? []. }
    intros tick. cbv zeta. eapply triple_bind.
    { apply triple_or_else. apply (triple_publish ports uuid_fresh uuid_random limits older P _
        (λ _, seen P (asks (rp_uuid ports tick) invocation))); try done.
      intros rt log e rt' Hs Hp He Happ Hb Hf _. split.
      - eapply HP; [|done]. apply quiet_published; try done. by rewrite He.
      - apply run_step_inv in Happ as (r & s1 & _ & Hd & ->). rewrite He in Hd.
        cbn [dispatch] in Hd. unfold on_tool_prepared in Hd. inv_run. subst. by eexists. }
    intros e. by apply triple_ret.
Qed.

(** A call that reaches its tool. *)
Lemma triple_dispatch_call P q call op started persisted grant builtin_input execution access deadline
    invocation :
  steady P → (started = true → mtc_name call = AGENT_TOOL_NAME) →
  (mtc_name call = AGENT_TOOL_NAME → lim_max_depth (rr_limits q) ≤ actor_depth (rr_actor q)) →
  execution = rte_invocation (resolve_tool_execution (rr_task_contract q) invocation) →
  triple (seen (λ rt log, P rt log ∧ sn_request (rt_snapshot rt) = q) (asks op invocation))
    (dispatch_call ports tools delegation call op started persisted grant builtin_input execution
       access deadline) (λ _, P).
Proof.
  intros HP Hstarted Hdepth Hexec. unfold dispatch_call.
  destruct execution as [execution|error]; [|apply triple_throw].
  destruct (mtc_name call ==? AGENT_TOOL_NAME) eqn:Hagent.
  { destruct builtin_input as [[[launch|request]|]|]; try apply triple_throw. bprop.
    unfold run_agent_tool, launch_child. intros rt log rt' r Hs [[Hp Hq] _].
    rewrite M_bind_run. cbn -[N.leb]. fold (rt_snapshot rt). rewrite Hq.
    rewrite (proj2 (N.leb_le _ _) (Hdepth Hagent)). intros [= <- <-].
    exists log. split; [done|]. split; [by apply safe_durable in Hs|done]. }
  assert (∀ {A} (m : run (Halt TerminalState) A), quietly m → triple
    (seen (λ rt log, P rt log ∧ sn_request (rt_snapshot rt) = q) (asks op invocation)) m (λ _, P)) as Hquiet.
  { intros A m Hm. eapply triple_pre; [by apply Hm|]. by intros rt log [[? _] _]. }
  destruct (mtc_name call ==? REQUEST_USER_INPUT_TOOL_NAME).
  { destruct builtin_input as [[[launch|request]|]|]; try apply triple_throw.
    apply Hquiet, quietly_ask_user. }
  destruct started; [bprop; by destruct Hagent; auto|].
  eapply triple_bind with (R := λ _, seen (λ rt log, P rt log ∧ sn_request (rt_snapshot rt) = q) (asks op invocation)).
  { apply triple_asks; [|apply quietly_next_tick|apply emits_next_tick].
    apply steady_and; [done|apply steady_request]. }
  intros tick. destruct (cp_preflight tools tick execution); [by apply triple_ret; intros ?? [[? _] _]|].
  eapply triple_pre; [by eapply (triple_run_tool P call op persisted grant invocation)|].
  intros rt log [[Hp Hq] Ha]. split; [split; [done|]|done]. by rewrite Hq.
Qed.

(** The last event is the outcome of the call, and nothing is pending. *)
Definition settled (call : ModelToolCall) rt log : Prop :=
  sn_pending_tool (rt_snapshot rt) = None ∧
  ∃ before e op outcome ws, log = before ++ [e] ∧
    sre_event e = ToolOutcomeCommitted op (mtc_id call) (mtc_name call) outcome ws.

Lemma triple_commit P op call outcome ws :
  steady P → triple P (commit_tool_outcome ports op call outcome ws) (λ _ rt log, P rt log ∧ settled call rt log).
Proof.
  intros HP. unfold commit_tool_outcome, publish_call.
  eapply triple_bind with (R := λ _ rt log, P rt log ∧ settled call rt log).
  - apply triple_or_else, triple_publish; try done.
    intros rt log e rt' Hs Hp He Happ Hb Hf _. split; [|split].
    + eapply HP; [|done]. apply quiet_published; try done. by rewrite He.
    + apply run_step_inv in Happ as (r & s1 & _ & Hd & ->). rewrite He in Hd.
      by apply dispatch_pending_tool in Hd.
    + exists log, e, op, outcome, ws. done.
  - intros e. by apply triple_ret.
Qed.
Lemma triple_settle_call P op call outcome terminal :
  steady P → triple P (settle_call ports op call outcome terminal) (λ _ rt log, P rt log ∧ settled call rt log).
Proof.
  intros HP. unfold settle_call.
  eapply triple_bind with (R := λ _, P); [by apply quietly_get_snapshot|]. intros s.
  eapply triple_bind with (R := λ _, P).
  { destruct (outcome_observes _ _ _ _); [|by apply triple_ret].
    apply (quietly_bind ports limits older); [by apply quietly_observe|intros; quietly|done]. }
  intros ws. eapply triple_bind; [by apply triple_commit|]. intros [].
  destruct terminal; [apply triple_throw|by apply triple_ret].
Qed.

(** A call from the state [state] of the process, for the request [q]. *)
Lemma triple_execute_call P q state call advertised deadline :
  steady P → sn_request (rs_snapshot state) = q → claimable call state →
  (mtc_name call = AGENT_TOOL_NAME → lim_max_depth (rr_limits q) ≤ actor_depth (rr_actor q)) →
  triple (λ rt log, P rt log ∧ rt_state rt = state)
    (execute_call ports tools delegation call advertised deadline)
    (λ _ rt log, P rt log ∧ settled call rt log).
Proof.
  intros HP Hq Hclaim Hdepth. unfold execute_call. apply triple_known_state. cbv zeta. rewrite Hq.
  destruct (for_request q) as [authority|]; [|apply triple_throw].
  set (R := λ rt log, P rt log ∧ sn_request (rt_snapshot rt) = q).
  assert (steady R) as HR by (apply steady_and; [done|apply steady_request]).
  eapply triple_bind.
  { eapply triple_pre; [by apply (triple_claim R call state)|].
    intros rt log [Hp Hst]. split; [|done]. split; [done|]. unfold rt_snapshot. by rewrite Hst. }
  intros [[op started] persisted]. cbn [fst snd]. apply triple_pure. intros Hstarted.
  eapply triple_bind with (R := λ _, P).
  - destruct (refuse_call _ _ _ _ _ _ _); [by apply triple_ret; intros rt log [[]]|].
    by apply (triple_dispatch_call P q).
  - intros [outcome terminal|outcome]; [by apply triple_settle_call|by apply triple_commit].
Qed.

(** C6: A tool runs only for what was granted, and every call ends in a committed outcome.  While a
    live process executes a call of the model - whatever the tools, the user, the workspace and the
    store answer, and whichever commands arrive meanwhile - the tool is called only after the start
    of the operation is durable, and only with the invocation that the Host resolves from the
    prepared one; a tool that the Host does not handle itself is called only with a durable
    decision that binds this invocation and allows it, or asked and was approved.  A call that
    goes through leaves the outcome of the call as the last event of the log and nothing pending,
    whether it ran, was refused, was denied or failed.  All of this holds as well for a call that
    an earlier process prepared; a call that would launch a child is covered where the depth limit
    of the run refuses it. *)
Theorem tools_run_as_granted_and_settle call advertised deadline rt log rt' r :
  safe rt log → claimable call (rt_state rt) →
  (mtc_name call = AGENT_TOOL_NAME → lim_max_depth (rr_limits (sn_request (rt_snapshot rt))) ≤
     actor_depth (rr_actor (sn_request (rt_snapshot rt)))) →
  execute_call ports tools delegation call advertised deadline rt = (rt', r) →
  ∃ log', log `prefix_of` log' ∧ durable rt' log' ∧
    match r with Ok _ => safe rt' log' ∧ settled call rt' log' | Err _ => True end.
Proof.
  intros Hs Hclaim Hdepth Hr.
  destruct (triple_execute_call (λ _ _, True) _ _ call advertised deadline (steady_pure True) eq_refl
    Hclaim Hdepth _ _ _ _ Hs (conj I eq_refl) Hr) as (log' & ? & ? & Hok).
  exists log'. split_and!; [done..|]. destruct r; [|done]. by destruct Hok as (? & _ & ?).
Qed.
End call.
