(* ===== verification/AgentTurnFacts.v ===== *)
(** A turn of the model, proved: the model is contacted only for a request that is durable and
    within the budget, the loop over the attempts ends, what streams is what is committed, and the
    reducer accepts every request and every retry decision the turn makes. *)
From Stdlib Require Import Ascii String.
From S2P Require Import Prelude.
From S2P Require Import Text.
From S2P Require Import Json.
From S2P Require Import Task.
From S2P Require Import Protocol.
From S2P Require Import Validate.
From S2P Require Import Context.
From S2P Require Import Snapshot.
From S2P Require Import Evidence.
From S2P Require Import RunEvents.
From S2P Require Import AgentEvents.
From S2P Require Import Reducer.
From S2P Require Import Steps.
From S2P Require Import LogFacts.
From S2P Require Import ToolFacts.
From S2P Require Import ModelFacts.
From S2P Require Import MemStore.
From S2P Require Import MemStoreFacts.
From S2P Require Import AgentRuntime.
From S2P Require Import AgentRuntimeFacts.
From S2P Require Import AgentTools.
From S2P Require Import AgentControl.
From S2P Require Import AgentProcess.
From S2P Require Import AgentControlFacts.
From S2P Require Import AgentTurn.

Open Scope string_scope.
Open Scope list_scope.
Open Scope N_scope.

Section log_facts.
Context `{Codecs}.
Implicit Types (s : RunSnapshot) (e : StoredRuntimeEvent) (log : list StoredRuntimeEvent).

(** The pending request is one that the log made durable. *)
Lemma dispatch_pending_request s run_id n ev s' p :
  dispatch s run_id n ev = Ok s' → sn_pending_model s' = Some p →
  event_request ev = Some (pma_attempt_id p, pma_request p) ∨
  ∃ p0, sn_pending_model s = Some p0 ∧ pma_attempt_id p0 = pma_attempt_id p ∧
        pma_request p0 = pma_request p.
Proof.
  intros Hd Hp. pose proof (dispatch_model_frame _ _ _ _ _ Hd) as Hm.
  destruct ev; try (right; exists p; destruct Hm; split_and!; congruence);
    cbn [dispatch] in Hd; expand_binds Hd; split_shapes; inv_run; subst; cbn in Hp;
    try discriminate Hp; injection Hp as <-; cbn; eauto.
Qed.

Lemma pending_request_logged log s p :
  reduce_events log = Ok s → sn_pending_model s = Some p →
  (pma_attempt_id p, pma_request p) ∈ logged_requests log.
Proof.
  intros Hs%reachable_reduce. revert p. induction Hs as [first request Hv|log s e s' Hr IH Hs]; [done|].
  intros p Hp. apply run_step_inv in Hs as (r & s1 & _ & Hd & ->). cbn in Hp.
  rewrite logged_requests_app. apply elem_of_app.
  destruct (dispatch_pending_request _ _ _ _ _ _ Hd Hp) as [He|(p0 & Hp0 & <- & <-)].
  - right. cbn. rewrite He. by left.
  - left. by apply IH.
Qed.

(** A request that becomes durable is the pending one. *)
Lemma apply_pending_request s e s' attempt_id request :
  apply_event s e = Ok s' → event_request (sre_event e) = Some (attempt_id, request) →
  ∃ p, sn_pending_model s' = Some p ∧ pma_attempt_id p = attempt_id ∧ pma_request p = request.
Proof.
  intros (r & s1 & _ & Hd & ->)%run_step_inv Hev. cbn.
  destruct (sre_event e); try discriminate Hev;
    try match goal with r : ModelRetryDecision |- _ => destruct r end;
    try discriminate Hev; injection Hev as <- <-; cbn [dispatch] in Hd; expand_binds Hd;
    split_shapes; inv_run; subst; cbn; eauto.
Qed.

(** Every durable request is counted. *)
Lemma dispatch_requests_le s run_id n ev s' :
  dispatch s run_id n ev = Ok s' →
  N.min (sn_runtime_model_requests s + from_option (λ _, 1) 0 (event_request ev)) U32_MAX
    ≤ sn_runtime_model_requests s'.
Proof.
  intros Hd. pose proof (dispatch_requests _ _ _ _ _ Hd) as Hr. destruct ev;
    try (rewrite Hr; cbn [event_request]; unfold saturating_add; repeat case_match; cbn; lia).
  clear Hr. cbn [dispatch event_request] in *. expand_binds Hd. split_shapes. subst. cbn.
  unfold saturating_add. lia.
Qed.
Lemma logged_requests_counted log s :
  reduce_events log = Ok s →
  N.min (N.of_nat (length (logged_requests log))) U32_MAX ≤ sn_runtime_model_requests s.
Proof.
  intros Hs%reachable_reduce. induction Hs as [first request Hv|log s e s' Hr IH Hs].
  - apply validate_run_created_Ok in Hv as (Hev & _). cbn. rewrite Hev. cbn. lia.
  - apply run_step_inv in Hs as (r & s1 & _ & Hd & ->). cbn.
    apply dispatch_requests_le in Hd. rewrite logged_requests_app, length_app. cbn.
    destruct (event_request (sre_event e)); cbn in *; lia.
Qed.
End log_facts.

Section turn.
Context `{Codecs} {St : Type} `{!RunPort St} `{!RunPortLaws St}.
Context (ports : RuntimePorts) (loop : LoopPorts).
Context (uuid_fresh : ∀ n m, rp_uuid ports n = rp_uuid ports m → n = m).
Context (uuid_random : ∀ n, rp_uuid ports n ≠ RuntimeEventId_terminal).
Context (limits : RunLimits) (older : list (N * Action)).
Context (limits_u32 : lim_max_model_requests limits ≤ U32_MAX).
Abbreviation run := (M (LoopWorld St)).
Abbreviation world := (Rt (LoopWorld St)).
Abbreviation runlog := (list StoredRuntimeEvent).
Abbreviation triple := (triple ports limits older).
Abbreviation quietly := (quietly ports limits older).
Abbreviation safe := (safe ports limits older).
Abbreviation durable := (durable limits older).
Implicit Types (rt : world) (log : runlog).

(** ** The waits *)

Lemma quietly_wait_command command : quietly (wait_command ports command).
Proof. unfold wait_command. apply quietly_bind; [by apply quietly_handle_control|]. intros []; quietly. Qed.
Lemma quietly_timed_out deadline : quietly (timed_out (St := St) deadline).
Proof. unfold timed_out. quietly. Qed.
Lemma quietly_wait_until not_before deadline inputs :
  quietly (wait_until ports not_before deadline inputs).
Proof.
  induction inputs as [|[[]|command|] inputs IH]; cbn [wait_until]; quietly;
    auto using quietly_wait_command, quietly_timed_out.
Qed.
Lemma quietly_wait_for_model_retry deadline pending :
  quietly (wait_for_model_retry ports loop deadline pending).
Proof. unfold wait_for_model_retry. quietly. apply quietly_wait_until. Qed.
Lemma quietly_open_stream deadline inputs : quietly (open_stream ports deadline inputs).
Proof.
  induction inputs as [|[[]|command|] inputs IH]; cbn [open_stream]; quietly;
    auto using quietly_wait_command, quietly_timed_out.
Qed.

Lemma quietly_compact_context tools : quietly (compact_context ports tools).
Proof. unfold compact_context. quietly. Qed.
Lemma quietly_current_context tools : quietly (current_context (St := St) tools).
Proof. unfold current_context. quietly. Qed.
Lemma quietly_build_request request_number terminal_turn :
  quietly (build_request ports loop request_number terminal_turn).
Proof.
  unfold build_request, request_tools. quietly; auto using quietly_current_context, quietly_compact_context.
Qed.
Lemma quietly_accounting {E} seal : quietly (cumulative_accounting (E := E) ports seal).
Proof. unfold cumulative_accounting. quietly. Qed.

(** ** The budget *)

(** [h] permits are held, next to the one of the terminal turn. *)
Definition held (h : N) rt : Prop :=
  sn_runtime_model_requests (rt_snapshot rt)
    + (if lw_terminal_model_request (rt_store rt) then 1 else 0) + h
    ≤ rb_model_requests (lw_budget (rt_store rt)) ∧
  rb_model_requests (lw_budget (rt_store rt)) ≤ lim_max_model_requests limits.

Lemma steady_held h : steady (λ rt _, held h rt).
Proof.
  intros ???? [_ _ _ Hr Hb Ht] ?. unfold held. by rewrite Hr, Hb, Ht.
Qed.

(** A step that only changes the budget. *)
Lemma triple_budget {E A} P (m : run E A) (Q : A → world → runlog → Prop) :
  (∀ rt log rt' r, safe rt log → P rt log → m rt = (rt', r) →
     rt_state rt' = rt_state rt ∧ rt_tick rt' = rt_tick rt ∧
     lw_store (rt_store rt') = lw_store (rt_store rt) ∧
     lw_calls (rt_store rt') = lw_calls (rt_store rt) ∧
     rb_limits (lw_budget (rt_store rt')) = rb_limits (lw_budget (rt_store rt)) ∧
     match r with Ok a => Q a rt' log | Err _ => True end) →
  triple P m Q.
Proof.
  intros Hm rt log rt' r Hs HP Hr.
  destruct (Hm _ log _ _ Hs HP Hr) as (Hst & Ht & Hstore & Hc & Hl & Hok).
  destruct Hs as [[Hh Hred Hids Hterm] Hopen Htl Hstarts Hreq Hlim].
  assert (safe rt' log) as Hs'.
  { split; unfold rt_snapshot in *; rewrite ?Hst, ?Hc, ?Hl; try done.
    split; unfold rt_snapshot; rewrite ?Hst, ?Ht; cbn; rewrite ?Hstore; done. }
  exists log. split; [done|]. split; [by apply safe_durable in Hs'|]. by destruct r.
Qed.

(** What the budget must not disturb. *)
Definition of_snapshot (K : RunSnapshot → Prop) rt : Prop := K (rt_snapshot rt).

Lemma triple_take_permit K h :
  triple (λ rt _, K (rt_snapshot rt) ∧ held h rt) take_permit
    (λ b rt _, K (rt_snapshot rt) ∧ held (if b then h + 1 else h) rt).
Proof.
  apply triple_budget. intros rt log rt' r Hs [HK [Hh Hle]]. unfold take_permit. rewrite M_bind_run. cbn.
  pose proof (sf_limits _ _ _ _ _ Hs) as Hlim. unfold reserve_model_request.
  destruct (reserve _ _) as [next|] eqn:Hres; cbn; intros [= <- <-]; cbn; split_and!; try done.
  apply reserve_Some in Hres as [Hlt ->]. rewrite Hlim in Hlt. unfold held, rt_snapshot in *. cbn. lia.
Qed.
Lemma triple_take_terminal_permit K h :
  triple (λ rt _, K (rt_snapshot rt) ∧ held h rt) take_terminal_permit
    (λ b rt _, K (rt_snapshot rt) ∧ held (if b then h + 1 else h) rt).
Proof.
  apply triple_budget. intros rt log rt' r Hs [HK [Hh Hle]] [= <- <-].
  split_and!; [done..|]. unfold held, rt_snapshot in *. cbn. revert Hh.
  destruct (lw_terminal_model_request _); lia.
Qed.
Lemma triple_drop_permit K :
  triple (λ rt _, K (rt_snapshot rt) ∧ held 1 rt) (drop_permit (E := Halt RuntimeFailure))
    (λ _ rt _, K (rt_snapshot rt) ∧ held 0 rt).
Proof.
  apply triple_budget. intros rt log rt' r Hs [HK [Hh Hle]] [= <- <-].
  split_and!; [done..|]. unfold held, rt_snapshot in *. cbn. rewrite give_back_le by lia. lia.
Qed.
Lemma gives_up_drop {E A} (e : E) :
  gives_up limits older (St := St) (A := A) (drop_permit ;; throw e).
Proof.
  intros rt log rt' r [Hh Ht Hst Hreq] [= <- <-]. split; [|by eexists]. by split.
Qed.

Lemma triple_admit_request K request_number :
  triple (λ rt _, K (rt_snapshot rt) ∧ held 0 rt) (admit_request request_number)
    (λ x rt _, K (rt_snapshot rt) ∧ held (if x.1 then 1 else 0) rt).
Proof.
  unfold admit_request. eapply triple_bind; [apply triple_get_snapshot|]. intros s. cbn beta.
  eapply triple_pre; [|intros ?? [Hp _]; exact Hp].
  assert (triple (λ rt _, K (rt_snapshot rt) ∧ held 0 rt)
    (permit ← take_terminal_permit; mret (permit, true))
    (λ x rt _, K (rt_snapshot rt) ∧ held (if x.1 then 1 else 0) rt)) as Hterminal.
  { eapply triple_bind; [apply triple_take_terminal_permit|]. intros b. by apply triple_ret. }
  case_match; [done|]. eapply triple_bind; [apply (triple_take_permit K)|].
  intros []; [by apply triple_ret|done].
Qed.

(** ** Requests *)

Lemma publish_append_event ev rt :
  publish ports ev rt = match append_event ports ev rt with
                        | (rt', Ok stored) => apply_stored ports stored rt'
                        | (rt', Err failure) => (rt', Err failure)
                        end.
Proof.
  unfold publish, append_event. rewrite !M_bind_run. cbn -[append_once apply_stored].
  rewrite !M_bind_run. destruct (append_once ports _ _) as [rt1 [[e|error]|failure]]; try done.
  destruct error; try done. rewrite !M_bind_run.
  destruct (append_once ports _ rt1) as [rt2 [[e|error]|failure]]; try done.
Qed.

(** The permit does not change what is published. *)
Lemma publish_permit ev rt rt' r :
  publish_with_model_permit ports ev rt = (rt', r) →
  ∃ rt1, publish ports ev rt = (rt1, r) ∧
    match r with
    | Ok _ => rt' = rt1
    | Err _ => rt' = rt1 ∨ rt' = rt1 <| rt_store := rt_store rt1
        <| lw_budget := ModelRequestPermit_drop (lw_budget (rt_store rt1)) |> |>
    end.
Proof.
  unfold publish_with_model_permit. rewrite publish_append_event.
  destruct (append_event ports ev rt) as [rt1 [e|failure]].
  - intros ->. exists rt'. split; [done|]. destruct r; auto.
  - intros [= <- <-]. eauto.
Qed.

Lemma triple_publish_request P ev request (Q : StoredRuntimeEvent → world → runlog → Prop) :
  is_terminal ev = false → event_request ev = Some request → event_action ev = None →
  (∀ rt log e rt', safe rt log → P rt log → sre_event e = ev →
     apply_event (rt_snapshot rt) e = Ok (rt_snapshot rt') → Q e rt' (log ++ [e])) →
  triple (λ rt log, P rt log ∧ held 1 rt) (publish_with_model_permit ports ev)
    (λ e rt log, Q e rt log ∧ held 0 rt).
Proof.
  intros Hte Hre Hste HQ rt log rt' r Hs [HP [Hh Hle]] Hr.
  apply publish_permit in Hr as (rt1 & Hr & Hrt').
  pose proof (publish_world _ _ _ _ _ Hr) as (Hb & Hf & Hc).
  apply (publish_steps _ uuid_fresh uuid_random rt log) in Hr; [|apply Hs..|done].
  pose proof Hs as [Hl Hopen Ht Hst Hreq Hlim].
  pose proof (logged_requests_counted _ _ (live_snapshot _ _ _ Hl)) as Hcount.
  assert (∀ e, sre_event e = ev → N.of_nat (length (logged_requests (log ++ [e]))) ≤
    lim_max_model_requests limits) as Hreq'.
  { intros e He. rewrite logged_requests_app, length_app. cbn. rewrite He, Hre. cbn. lia. }
  destruct r as [e|failure].
  - subst rt'. destruct Hr as (He & Hl' & Happ & Hopen' & Hstate). exists (log ++ [e]).
    assert (safe rt1 (log ++ [e])) as Hs'.
    { split; rewrite ?Hb, ?Hc; [done..|by apply Forall_told_app| |by apply Hreq'|done].
      rewrite logged_starts_app, (logged_starts_other e), app_nil_r; [done|by rewrite He]. }
    split; [by apply prefix_app_r|]. split; [by apply safe_durable in Hs'|]. split; [done|].
    split; [by eapply HQ|]. unfold held. rewrite Hb, Hf. split; [|done].
    apply run_step_inv in Happ as (? & s1 & _ & Hd & ->). cbn.
    pose proof (dispatch_requests _ _ _ _ _ Hd) as Hn. rewrite He in Hn.
    destruct ev; try discriminate Hre; rewrite Hn, Hre; unfold saturating_add; lia.
  - destruct Hr as (Hstate & more & Hh' & Hmore). exists (log ++ more).
    split; [by apply prefix_app_r|]. split; [|done].
    assert (durable rt1 (log ++ more)) as Hd.
    { split.
      - by rewrite Hstate in *.
      - rewrite Hc. by apply Forall_told_app.
      - rewrite Hc, logged_starts_app, Hst. by apply prefix_app_r.
      - destruct Hmore as [->|(e & -> & He)]; [by rewrite app_nil_r|by apply Hreq']. }
    destruct Hrt' as [->| ->]; [done|]. by destruct Hd.
Qed.

(** ** One attempt *)

(** The frozen request of the run. *)
Definition at_request (q : RunRequest) rt : Prop := sn_request (rt_snapshot rt) = q.
Definition going (q : RunRequest) rt log : Prop := at_request q rt ∧ held 0 rt.
Lemma steady_going q : steady (going q).
Proof. apply (steady_and (λ rt _, at_request q rt)); [apply steady_request|apply steady_held]. Qed.
#[local] Hint Resolve steady_going : core.

(** The attempt that is pending, and its request. *)
Definition pends (attempt_id : AttemptId) (request : ModelRequest) rt : Prop :=
  ∃ p, sn_pending_model (rt_snapshot rt) = Some p ∧ pma_attempt_id p = attempt_id ∧
       pma_request p = request.
Lemma steady_pends attempt_id request : steady (λ rt _, pends attempt_id request rt).
Proof. intros ???? Hq (p & Hp & ?). exists p. by rewrite (qu_pending _ _ _ _ Hq). Qed.

Lemma triple_publish_held P ev (Q : StoredRuntimeEvent → world → runlog → Prop) :
  is_terminal ev = false → event_request ev = None → event_action ev = None →
  match ev with ChildFinished _ _ _ _ => False | _ => True end →
  (∀ rt log e rt', P rt log → sre_event e = ev →
     apply_event (rt_snapshot rt) e = Ok (rt_snapshot rt') → Q e rt' (log ++ [e])) →
  triple (λ rt log, P rt log ∧ held 0 rt) (publish ports ev) (λ e rt log, Q e rt log ∧ held 0 rt).
Proof.
  intros Hte Hre Hste Hch HQ. apply triple_publish; try done.
  intros rt log e rt' Hs [HP Hh] He Happ Hb Hf Hc. split; [by eapply HQ|].
  unfold held. rewrite Hb, Hf.
  apply run_step_inv in Happ as (? & s1 & _ & Hd & ->). cbn.
  pose proof (dispatch_requests _ _ _ _ _ Hd) as Hn. rewrite He in Hn.
  destruct ev; try done; rewrite Hn, ?Hre; apply Hh.
Qed.

Lemma triple_publish_going q ev :
  is_terminal ev = false → event_request ev = None → event_action ev = None →
  match ev with ChildFinished _ _ _ _ => False | _ => True end →
  triple (going q) (raised (publish ports ev)) (λ _, going q).
Proof.
  intros. apply triple_or_else.
  eapply triple_conseq; [apply (triple_publish_held (λ rt _, at_request q rt) ev (λ _ rt _, at_request q rt))|..];
    try done.
  intros rt log e rt' Hq _ Happ%step_request. unfold at_request in *. congruence.
Qed.

(** The start of an attempt is durable when the model is called. *)
Lemma triple_start_attempt attempt_id request P :
  (∀ rt log e rt', P rt log → sre_event e = ModelRequestInFlight attempt_id →
     apply_event (rt_snapshot rt) e = Ok (rt_snapshot rt') →
     lw_budget (rt_store rt') = lw_budget (rt_store rt) →
     lw_terminal_model_request (rt_store rt') = lw_terminal_model_request (rt_store rt) →
     P rt' (log ++ [e])) →
  triple (λ rt log, P rt log ∧ pends attempt_id request rt)
    (stored ← raised (publish ports (ModelRequestInFlight attempt_id));
     say (CallModel (sre_sequence stored) attempt_id request)) (λ _, P).
Proof.
  intros Hstep. apply (triple_start _ uuid_fresh uuid_random _ _ Raised _ _
    (λ n, CallModel n attempt_id request) (ModelAction attempt_id)); try done.
  - intros rt log e s Hs [HP (p & Hp & <- & <-)] He _. exists log, e, [].
    split_and!; try done. by apply (pending_request_logged _ _ _ (live_snapshot _ _ _ (sf_live _ _ _ _ _ Hs))).
  - intros rt log e rt' Hs [HP _]. by apply Hstep.
Qed.

Lemma triple_quietly q {A} (m : run (Halt RuntimeFailure) A) :
  quietly m → triple (going q) m (λ _, going q).
Proof. intros Hm. by apply Hm. Qed.
#[local] Hint Resolve quietly_wait_command quietly_timed_out quietly_wait_for_model_retry
  quietly_open_stream quietly_build_request : core.

Lemma going_ret q {A} (a : A) : 
  triple (going q) (mret a : run (Halt RuntimeFailure) A) (λ _, going q).
Proof. by apply triple_ret. Qed.
Lemma going_bind q {A B} (m : run (Halt RuntimeFailure) A) (f : A → run (Halt RuntimeFailure) B) :
  triple (going q) m (λ _, going q) → (∀ a, triple (going q) (f a) (λ _, going q)) →
  triple (going q) (m ≫= f) (λ _, going q).
Proof. intros Hm Hf. by eapply triple_bind. Qed.

(** The steps of an attempt, down to those that are quiet. *)
Ltac going :=
  repeat match goal with
  | |- AgentProcess.triple _ _ _ _ (mret _) _ => apply going_ret
  | |- AgentProcess.triple _ _ _ _ (_ ≫= _) _ => apply going_bind; [|intros ?; cbv beta]
  | |- AgentProcess.triple _ _ _ _ (raised (publish _ _)) _ => apply triple_publish_going; reflexivity || exact I
  | |- AgentProcess.triple _ _ _ _ stop _ => apply triple_throw
  | |- AgentProcess.triple _ _ _ _ (match _ with _ => _ end) _ => case_match
  end.

Lemma triple_on_completed q attempt_id s output :
  triple (going q) (on_completed ports attempt_id s output) (λ _, going q).
Proof. unfold on_completed. cbv zeta. going; by apply triple_quietly, quietly_accounting. Qed.

Lemma triple_on_model_event q attempt_id s poll :
  triple (going q) (on_model_event ports attempt_id s poll) (λ _, going q).
Proof.
  unfold on_model_event. cbv zeta. going; try apply triple_on_completed.
  apply triple_quietly. quietly.
Qed.

Lemma triple_read_stream q attempt_id deadline inputs s :
  triple (going q) (read_stream ports attempt_id deadline inputs s) (λ _, going q).
Proof.
  revert s. induction inputs as [|[poll|command|] inputs IH]; intros s; cbn [read_stream]; going;
    auto using triple_on_model_event, triple_quietly.
Qed.

Lemma triple_execute_model_attempt q attempt_id request deadline :
  triple (λ rt log, going q rt log ∧ pends attempt_id request rt)
    (execute_model_attempt ports loop attempt_id request deadline) (λ _, going q).
Proof.
  intros rt log rt' r Hs HP Hr.
  assert (triple (λ rt log, going q rt log ∧ pends attempt_id request rt)
    ((stored ← raised (publish ports (ModelRequestInFlight attempt_id));
      say (CallModel (sre_sequence stored) attempt_id request)) ≫= λ _,
     tick ← next_tick;
     early ← open_stream ports deadline (lp_open loop tick);
     match early with
     | Some control => mret control
     | None => tick ← next_tick;
               read_stream ports attempt_id deadline (lp_stream loop tick) StreamState_start
     end) (λ _, going q)) as Hall.
  { eapply triple_bind.
    - apply triple_start_attempt. intros rt0 log0 e rt0' [Hq [Hh Hle]] He Happ Hb Hf.
      pose proof (step_request _ _ _ Happ) as Hreq. split; [by unfold at_request in *; rewrite Hreq|].
      unfold held. rewrite Hb, Hf. split; [|done].
      apply run_step_inv in Happ as (? & s1 & _ & Hd & ->). cbn.
      pose proof (dispatch_requests _ _ _ _ _ Hd) as Hn. rewrite He in Hn. by rewrite Hn.
    - intros ?. cbv beta. apply going_bind; [apply triple_quietly; quietly|]. intros tick.
      apply going_bind; [by apply triple_quietly|]. intros [control|]; [apply going_ret|].
      apply going_bind; [apply triple_quietly; quietly|]. intros. apply triple_read_stream. }
  eapply Hall; try done. revert Hr. unfold execute_model_attempt. rewrite !M_bind_run.
  by destruct (raised _ rt) as [rt1 []].
Qed.

(** ** Failures and retries *)

Definition attempt_of (prepared : option PendingModelAction) : N :=
  from_option (λ p, mr_attempt (pma_request p)) 0 prepared.

(** What a plan promises of the retry it prepares. *)
Definition planned q (request : ModelRequest) (plan : ModelFailurePlan) : Prop :=
  match plan with
  | PlanRetry prepared =>
    mr_attempt request < lim_max_model_retries (rr_limits q) ∧
    pmr_request prepared = request <| mr_attempt := sat_add32 (mr_attempt request) 1 |>
  | PlanStop _ _ => True
  end.

Lemma primary_stop_reason_None max request primary error response :
  primary_stop_reason max request primary error response = None → mr_attempt request < max.
Proof.
  unfold primary_stop_reason. intros Hn.
  repeat (match type of Hn with (if ?b then _ else _) = None => destruct b eqn:? end;
          [discriminate Hn|]). by bprop.
Qed.

Lemma triple_plan_model_failure q request primary error response :
  triple (going q) (plan_model_failure ports request primary error response)
    (λ x rt _, (sn_request (rt_snapshot rt) = q ∧ planned q request x.2) ∧
       held (match x.2 with PlanRetry _ => 1 | PlanStop _ _ => 0 end) rt).
Proof.
  unfold plan_model_failure. eapply triple_bind; [apply triple_get_snapshot|]. intros s. cbv beta zeta.
  apply triple_pre with (P' := λ rt log, going q rt log ∧ sn_request s = q);
    [|by intros rt log [[Hq ?] ->]].
  apply triple_pure. intros ->.
  destruct (primary_stop_reason _ _ _ _ _) as [reason|] eqn:Hstop.
  - apply triple_ret. by intros rt log [? ?].
  - apply primary_stop_reason_None in Hstop.
    eapply triple_bind; [apply (triple_take_permit (λ s, sn_request s = q) 0)|].
    intros []; cbn [negb]; [|by apply triple_ret; intros rt log [? ?]].
    set (P := λ rt (_ : runlog), sn_request (rt_snapshot rt) = q ∧ held 1 rt).
    assert (steady P) as HP by (apply (steady_and (λ rt _, _)); [apply steady_request|apply steady_held]).
    eapply triple_bind with (R := λ _, P); [by apply quietly_next_tick|]. intros clock_tick. cbv beta zeta.
    eapply triple_bind with (R := λ _, P); [by apply quietly_next_tick|]. intros id_tick.
    apply triple_ret. by intros rt log [? ?].
Qed.

Definition is_retry (retry : ModelRetryDecision) : bool :=
  match retry with RetryPrepared _ => true | RetryStop _ => false end.

Lemma triple_commit_model_failure q attempt_id error response retry :
  triple (λ rt _, sn_request (rt_snapshot rt) = q ∧ held (if is_retry retry then 1 else 0) rt)
    (commit_model_failure ports attempt_id error response retry (is_retry retry))
    (λ _ rt log, match retry with
       | RetryPrepared prepared => pends (pmr_attempt_id prepared) (pmr_request prepared) rt
       | RetryStop _ => True
       end ∧ going q rt log).
Proof.
  unfold commit_model_failure.
  set (P := λ rt (_ : runlog), sn_request (rt_snapshot rt) = q ∧ held (if is_retry retry then 1 else 0) rt).
  assert (steady P) as HP by (apply (steady_and (λ rt _, _)); [apply steady_request|apply steady_held]).
  eapply triple_bind with (R := λ _, P); [by apply quietly_accounting|]. intros accounting. cbv beta zeta.
  destruct retry as [reason|prepared]; cbn [is_retry] in *.
  - eapply triple_bind; [by apply triple_publish_going|]. intros e. by apply triple_ret.
  - eapply triple_bind; [|intros e; by apply triple_ret; intros ?? Hp; exact Hp].
    apply triple_or_else.
    eapply triple_conseq; [eapply (triple_publish_request (λ rt _, sn_request (rt_snapshot rt) = q) _ _
      (λ _ rt _, pends (pmr_attempt_id prepared) (pmr_request prepared) rt ∧
                 sn_request (rt_snapshot rt) = q)); [done..|]|done|].
    + intros rt log e rt' Hs Hq He Happ. split; [|by rewrite (step_request _ _ _ Happ)].
      eapply apply_pending_request; [exact Happ|]. by rewrite He.
    + intros e rt log [[Hp Hq] Hh]. by split.
Qed.

(** ** The request of a turn *)

(** The value of a step, whatever its state. *)
Definition yields {E A} (m : run E A) (φ : A → Prop) : Prop :=
  ∀ rt rt' a, m rt = (rt', Ok a) → φ a.
Lemma yields_bind {E A B} (m : run E A) (f : A → run E B) φ :
  (∀ a, yields (f a) φ) → yields (m ≫= f) φ.
Proof. intros Hf rt rt' b. rewrite M_bind_run. destruct (m rt) as [rt1 [a|e]]; [apply Hf|done]. Qed.
Lemma yields_ret {E A} (a : A) (φ : A → Prop) : φ a → yields (E := E) (mret a) φ.
Proof. by intros Ha rt rt' a' [= _ <-]. Qed.
Lemma triple_yields {E A} P (m : run E A) (Q : A → world → runlog → Prop) φ :
  triple P m Q → yields m φ → triple P m (λ a rt log, Q a rt log ∧ φ a).
Proof.
  intros Hm Hv rt log rt' r Hs HP Hr. destruct (Hm _ _ _ _ Hs HP Hr) as (log' & ? & ? & Hok).
  exists log'. split_and!; [done..|]. destruct r as [a|]; [|done]. destruct Hok. split_and!; try done.
  by eapply Hv.
Qed.

Definition first_attempt (built : TerminalState + ModelRequest) : Prop :=
  match built with inr request => mr_attempt request = 0 | inl _ => True end.
Lemma yields_build_request request_number terminal_turn :
  yields (build_request ports loop request_number terminal_turn) first_attempt.
Proof.
  unfold build_request. do 4 (apply yields_bind; intros). case_match; [by apply yields_ret|].
  apply yields_bind. intros. by apply yields_ret.
Qed.

(** The attempt that goes on after a request is prepared. *)
Definition prepares q (x : TerminalState + AttemptId * ModelRequest) rt log : Prop :=
  going q rt log ∧
  match x with
  | inr (attempt_id, request) => pends attempt_id request rt ∧ mr_attempt request = 0
  | inl _ => True
  end.

Lemma triple_publish_new_request q built :
  triple (λ rt log, (sn_request (rt_snapshot rt) = q ∧ held 1 rt) ∧ first_attempt built)
    (publish_request ports built) (prepares q).
Proof.
  apply triple_pure. intros Hbuilt.
  set (P := λ rt (_ : runlog), sn_request (rt_snapshot rt) = q ∧ held 1 rt).
  assert (steady P) as HP by (apply (steady_and (λ rt _, _)); [apply steady_request|apply steady_held]).
  destruct built as [terminal|request]; cbn [publish_request].
  - eapply triple_bind; [apply (triple_drop_permit (λ s, sn_request s = q))|]. intros.
    by apply triple_ret.
  - eapply triple_bind with (R := λ _, P); [by apply quietly_next_tick|]. intros tick. cbv beta zeta.
    eapply triple_bind; [apply triple_or_else, (triple_publish_request
      (λ rt _, sn_request (rt_snapshot rt) = q) _ (rp_uuid ports tick, request)
      (λ _ rt _, pends (rp_uuid ports tick) request rt ∧ sn_request (rt_snapshot rt) = q)); try reflexivity|].
    + intros rt log e rt' Hs Hq He Happ. split; [|by rewrite (step_request _ _ _ Happ)].
      eapply apply_pending_request; [exact Happ|]. by rewrite He.
    + intros e. apply triple_ret. intros rt log [[Hp Hq] Hh]. by split.
Qed.

Lemma triple_prepare_request q request_number :
  triple (going q) (prepare_request ports loop request_number) (prepares q).
Proof.
  unfold prepare_request. eapply triple_bind; [apply (triple_admit_request (λ s, sn_request s = q))|].
  intros [[] terminal_turn]; cbn [fst negb].
  - set (P := λ rt (_ : runlog), sn_request (rt_snapshot rt) = q ∧ held 1 rt).
    assert (steady P) as HP by (apply (steady_and (λ rt _, _)); [apply steady_request|apply steady_held]).
    eapply triple_catch; [apply triple_yields; [by apply (quietly_build_request _ _ P)|apply yields_build_request]| |].
    + apply triple_publish_new_request.
    + intros halt. apply gives_up_drop.
  - eapply triple_bind; [apply triple_get_snapshot|]. intros s. apply triple_ret. by intros rt log [[]].
Qed.

(** ** The loop over the attempts *)

(** What is durable of a request that was prepared before. *)
Definition continues (prepared : option PendingModelAction) rt : Prop :=
  match prepared with Some p => sn_pending_model (rt_snapshot rt) = Some p | None => True end.

Lemma triple_next_attempt q deadline request_number prepared :
  triple (λ rt log, going q rt log ∧ continues prepared rt)
    (next_attempt ports loop deadline request_number prepared)
    (λ x rt log, going q rt log ∧ match x with
       | inr (attempt_id, request) => pends attempt_id request rt ∧ mr_attempt request = attempt_of prepared
       | inl _ => True end).
Proof.
  destruct prepared as [pending|]; cbn [next_attempt continues attempt_of from_option].
  - eapply triple_bind with (R := λ _ rt log, going q rt log ∧ sn_pending_model (rt_snapshot rt) = Some pending).
    + apply quietly_wait_for_model_retry. apply steady_and; [done|apply steady_snapshot_pending].
    + intros [terminal|]; apply triple_ret; intros rt log [? ?]; [done|]. split; [done|]. split; [|done].
      by exists pending.
  - eapply triple_pre; [apply triple_prepare_request|by intros ?? []].
Qed.

(** One more attempt: the retry it leaves is the pending request, and its number grows below the
    limit. *)
Definition attempted q (prepared : option PendingModelAction)
    (x : ModelTurnControl + option ModelPortError * PendingModelAction) rt log : Prop :=
  going q rt log ∧
  match x with
  | inr (_, p) => continues (Some p) rt ∧ attempt_of prepared < lim_max_model_retries (rr_limits q) ∧
      mr_attempt (pma_request p) = sat_add32 (attempt_of prepared) 1
  | inl _ => True
  end.

Lemma triple_one_attempt q deadline request_number primary prepared :
  triple (λ rt log, going q rt log ∧ continues prepared rt)
    (one_attempt ports loop deadline request_number primary prepared) (attempted q prepared).
Proof.
  unfold one_attempt. eapply triple_bind; [apply triple_next_attempt|].
  intros [terminal|[attempt_id request]]; [by apply triple_ret|].
  apply triple_pre with (P' := λ rt log, (going q rt log ∧ pends attempt_id request rt) ∧
    mr_attempt request = attempt_of prepared); [|by intros ?? (? & ? & ?)].
  apply triple_pure. intros Hattempt.
  eapply triple_bind; [apply triple_execute_model_attempt|].
  intros [output|error response|terminal]; [by apply triple_ret| |by apply triple_ret].
  eapply triple_bind; [apply triple_plan_model_failure|].
  intros [latched [reason terminal|retry]]; cbn [snd].
  - eapply triple_bind; [eapply triple_pre; [apply (triple_commit_model_failure q _ _ _ (RetryStop reason))|]|].
    + intros rt log [[? ?] ?]. by split.
    + intros ?. apply triple_ret. by intros rt log [].
  - apply triple_pre with (P' := λ rt log, (sn_request (rt_snapshot rt) = q ∧ held 1 rt) ∧
      planned q request (PlanRetry retry)); [|by intros rt log [[? ?] ?]].
    apply triple_pure. intros [Hlt Hreq].
    eapply triple_bind; [apply (triple_commit_model_failure q _ _ _ (RetryPrepared retry))|].
    intros ?. eapply triple_bind; [apply triple_get_snapshot|]. intros s.
    destruct (sn_pending_model s) as [pending|] eqn:Hp; [|apply triple_throw].
    apply triple_ret. intros rt log [[(p & Hp' & _ & Hpr) Hgo] ->]. rewrite Hp in Hp'.
    injection Hp' as ->. split; [done|]. cbn. rewrite Hpr, Hreq, <- Hattempt. by split_and!.
Qed.

Lemma triple_attempts q fuel deadline request_number primary prepared :
  triple (λ rt log, going q rt log ∧ continues prepared rt)
    (attempts ports loop fuel deadline request_number primary prepared) (λ _, going q).
Proof.
  revert primary prepared. induction fuel as [|fuel IH]; intros; cbn [attempts]; [apply triple_throw|].
  eapply triple_bind; [apply triple_one_attempt|]. intros [control|[primary' pending]].
  - apply triple_ret. by intros rt log [].
  - eapply triple_pre; [apply IH|]. by intros rt log (? & ? & _).
Qed.

Lemma attempts_more_fuel q fuel k deadline request_number primary prepared rt log :
  lim_max_model_retries (rr_limits q) ≤ U32_MAX →
  lim_max_model_retries (rr_limits q) ≤ attempt_of prepared + N.of_nat fuel →
  safe rt log → going q rt log → continues prepared rt →
  attempts ports loop (S fuel + k) deadline request_number primary prepared rt =
  attempts ports loop (S fuel) deadline request_number primary prepared rt.
Proof.
  intros Hu32. revert primary prepared rt log.
  induction fuel as [|fuel IH]; intros primary prepared rt log Hfuel Hs Hg Hc;
    cbn [attempts Nat.add]; rewrite !M_bind_run;
    destruct (one_attempt ports loop deadline request_number primary prepared rt)
      as [rt1 [[control|[primary' pending]]|halt]] eqn:Hone; try done;
    eapply (triple_one_attempt q) in Hone as (log1 & _ & _ & Hs1 & Hg1 & Hc1 & Hlt & Hatt); try done.
  - lia.
  - apply (IH _ _ _ log1); try done. cbn. rewrite Hatt. unfold saturating_add. lia.
Qed.

(** The loop over the attempts ends.  A request is attempted at most once more than it may be
    retried: more fuel than that never changes what a turn of a live process does, whether it
    starts a new request or goes on with one that an earlier process prepared. *)
Theorem attempts_of_a_turn_are_bounded k deadline request_number primary prepared rt log :
  lim_max_model_retries (rr_limits (sn_request (rt_snapshot rt))) ≤ U32_MAX →
  safe rt log → held 0 rt → continues prepared rt →
  attempts ports loop (attempts_fuel (rt_snapshot rt) + k) deadline request_number primary prepared rt =
  attempts ports loop (attempts_fuel (rt_snapshot rt)) deadline request_number primary prepared rt.
Proof.
  intros Hu32 Hs Hh Hc. unfold attempts_fuel.
  apply (attempts_more_fuel (sn_request (rt_snapshot rt)) _ _ _ _ _ _ _ log); try done. lia.
Qed.
End turn.
