(* ===== verification/AgentStreamFacts.v ===== *)
(** The stream of a model attempt: the deltas a run makes durable while the model streams are, in
    order and numbered from one, exactly the output it then commits. *)
From Stdlib Require Import Ascii String.
From S2P Require Import Prelude.
From S2P Require Import Text.
From S2P Require Import Json.
From S2P Require Import Task.
From S2P Require Import Protocol.
From S2P Require Import Validate.
From S2P Require Import Context.
From S2P Require Import Snapshot.
From S2P Require Import Evidence.
From S2P Require Import RunEvents.
From S2P Require Import AgentEvents.
From S2P Require Import Reducer.
From S2P Require Import MemStore.
From S2P Require Import AgentRuntime.
From S2P Require Import AgentRuntimeFacts.
From S2P Require Import AgentControl.
From S2P Require Import AgentProcess.
From S2P Require Import AgentControlFacts.
From S2P Require Import AgentTurn.
From S2P Require Import AgentTurnFacts.

Open Scope string_scope.
Open Scope list_scope.
Open Scope N_scope.

(** The numbered deltas of an attempt in a part of a log. *)
Definition content_deltas (attempt_id : AttemptId) (log : list StoredRuntimeEvent)
    : list (N * string) :=
  omap (λ e, match sre_event e with
             | ContentDelta a index delta => if a ==? attempt_id then Some (index, delta) else None
             | _ => None
             end) log.
Definition reasoning_deltas (attempt_id : AttemptId) (log : list StoredRuntimeEvent)
    : list (N * string) :=
  omap (λ e, match sre_event e with
             | ReasoningDelta a index delta => if a ==? attempt_id then Some (index, delta) else None
             | _ => None
             end) log.
Definition joined (deltas : list (N * string)) : string :=
  foldr String.append "" (snd <$> deltas).
(** The i-th delta has the number i, up to the width of the counter. *)
Definition numbered (deltas : list (N * string)) : Prop :=
  ∀ i index delta, deltas !! i = Some (index, delta) → index = N.min (N.of_nat i + 1) U64_MAX.
(** The deltas together are the text, and their counter is next. *)
Record spells (deltas : list (N * string)) (text : string) (index : N) (seen : bool) : Prop := {
  sp_joined : joined deltas = text;
  sp_numbered : numbered deltas;
  sp_index : index = N.min (N.of_nat (length deltas)) U64_MAX;
  sp_seen : seen = false → deltas = [];
}.

Lemma str_app_nil_r (s : string) : (s +:+ "")%string = s.
Proof. induction s as [|c s IH]; [done|]. change (String c (s +:+ "") = String c s). by rewrite IH. Qed.
Lemma str_app_assoc (a b c : string) : (a +:+ (b +:+ c) = (a +:+ b) +:+ c)%string.
Proof.
  induction a as [|x a IH]; [done|].
  change (String x (a +:+ (b +:+ c)) = String x ((a +:+ b) +:+ c)). by rewrite IH.
Qed.
Lemma joined_snoc deltas index delta :
  joined (deltas ++ [(index, delta)]) = (joined deltas +:+ delta)%string.
Proof.
  unfold joined. rewrite fmap_app. cbn.
  induction (snd <$> deltas) as [|x l IH]; cbn; [by rewrite str_app_nil_r|].
  by rewrite IH, str_app_assoc.
Qed.
Lemma spells_nil : spells [] "" 0 false.
Proof. split; [done| |done|done]. by intros i ???. Qed.
Lemma spells_snoc deltas text index seen delta :
  spells deltas text index seen →
  spells (deltas ++ [(sat_add64 index 1, delta)]) (text +:+ delta) (sat_add64 index 1) true.
Proof.
  intros [Hj Hn Hi _]. split; [by rewrite joined_snoc, Hj| | |done].
  - intros i index' delta' Hl. apply lookup_app_Some in Hl as [Hl|[Hge Hl]]; [by eapply Hn|].
    apply list_lookup_singleton_Some in Hl as [Heq [= <- <-]].
    rewrite Hi. unfold saturating_add. lia.
  - rewrite length_app, Hi. cbn. unfold saturating_add. lia.
Qed.

Section stream.
Context `{Codecs} {St : Type} `{!RunPort St} `{!RunPortLaws St}.
Context (ports : RuntimePorts) (loop : LoopPorts).
Context (uuid_fresh : ∀ n m, rp_uuid ports n = rp_uuid ports m → n = m).
Context (uuid_random : ∀ n, rp_uuid ports n ≠ RuntimeEventId_terminal).
Context (limits : RunLimits) (older : list (N * Action)).
Abbreviation run := (M (LoopWorld St)).
Abbreviation world := (Rt (LoopWorld St)).
Abbreviation runlog := (list StoredRuntimeEvent).
Abbreviation triple := (triple ports limits older).
Abbreviation safe := (safe ports limits older).
Implicit Types (rt : world) (log : runlog).

Section attempt.
Context (attempt_id : AttemptId) (start : runlog).

(** The log since [start] spells what has streamed. *)
Definition streamed (s : StreamState) rt log : Prop := ∃ more, log = start ++ more ∧
  spells (content_deltas attempt_id more) (ss_content s) (ss_content_index s)
    (ss_content_delta_seen s) ∧
  spells (reasoning_deltas attempt_id more) (ss_reasoning s) (ss_reasoning_index s)
    (ss_reasoning_delta_seen s).

Lemma quiet_deltas more : Forall (λ e, quiet_event (sre_event e) = true) more →
  content_deltas attempt_id more = [] ∧ reasoning_deltas attempt_id more = [].
Proof.
  induction 1 as [|e more He _ [IHc IHr]]; [done|]. cbn. fold (content_deltas attempt_id more).
  fold (reasoning_deltas attempt_id more). rewrite IHc, IHr. by destruct (sre_event e).
Qed.
Lemma steady_streamed s : steady (streamed s).
Proof.
  intros rt log rt' log' [(more & -> & Hq) _ _ _ _ _] (since & -> & Hc & Hr).
  destruct (quiet_deltas _ Hq) as [Hqc Hqr]. exists (since ++ more). rewrite app_assoc.
  split; [done|]. unfold content_deltas, reasoning_deltas in *. rewrite !omap_app, Hqc, Hqr, !app_nil_r.
  by split.
Qed.

Lemma triple_content_delta s delta :
  triple (streamed s)
    (raised (publish ports (ContentDelta attempt_id (sat_add64 (ss_content_index s) 1) delta)))
    (λ _, streamed (s <| ss_content_delta_seen := true |>
                      <| ss_content := (ss_content s +:+ delta)%string |>
                      <| ss_content_index := sat_add64 (ss_content_index s) 1 |>)).
Proof.
  apply triple_or_else, triple_publish; try done.
  intros rt log e rt' _ (more & -> & Hc & Hr) He _ _ _ _. exists (more ++ [e]).
  rewrite app_assoc. split; [done|]. unfold content_deltas, reasoning_deltas in *.
  rewrite !omap_app. cbn. rewrite He, bool_decide_true by done. cbn. rewrite app_nil_r.
  split; [by eapply spells_snoc|done].
Qed.
Lemma triple_reasoning_delta s delta :
  triple (streamed s)
    (raised (publish ports (ReasoningDelta attempt_id (sat_add64 (ss_reasoning_index s) 1) delta)))
    (λ _, streamed (s <| ss_reasoning_delta_seen := true |>
                      <| ss_reasoning := (ss_reasoning s +:+ delta)%string |>
                      <| ss_reasoning_index := sat_add64 (ss_reasoning_index s) 1 |>)).
Proof.
  apply triple_or_else, triple_publish; try done.
  intros rt log e rt' _ (more & -> & Hc & Hr) He _ _ _ _. exists (more ++ [e]).
  rewrite app_assoc. split; [done|]. unfold content_deltas, reasoning_deltas in *.
  rewrite !omap_app. cbn. rewrite He, bool_decide_true by done. cbn. rewrite app_nil_r.
  split; [done|by eapply spells_snoc].
Qed.

(** What an attempt that gives its output leaves in the log. *)
Definition delivered (control : ModelAttemptControl) log : Prop :=
  match control with
  | AttemptOutput output => ∃ more e accounting,
      log = start ++ more ++ [e] ∧ sre_event e = ModelResponseCommitted attempt_id output accounting ∧
      joined (content_deltas attempt_id more) = mo_content output ∧
      joined (reasoning_deltas attempt_id more) = default "" (mo_reasoning_content output) ∧
      numbered (content_deltas attempt_id more) ∧ numbered (reasoning_deltas attempt_id more)
  | _ => True
  end.

Lemma triple_streamed_quietly s {A} (m : run (Halt RuntimeFailure) A) :
  quietly ports limits older m → triple (streamed s) m (λ _, streamed s).
Proof. intros Hm. apply Hm, steady_streamed. Qed.

Lemma triple_deliver s output :
  (ss_content s = mo_content output) → (ss_reasoning s = default "" (mo_reasoning_content output)) →
  triple (streamed s)
    (accounting ← cumulative_accounting ports false;
     raised (publish ports (ModelResponseCommitted attempt_id output accounting)) ;;
     mret (AttemptOutput output)) (λ control _ log, delivered control log).
Proof.
  intros Hc Hr. eapply triple_bind; [apply triple_streamed_quietly, quietly_accounting|].
  intros accounting. cbv beta.
  eapply triple_bind with (R := λ _ _ log, delivered (AttemptOutput output) log).
  - apply triple_or_else, triple_publish; try done.
    intros rt log e rt' _ (more & -> & [] & []) He _ _ _ _. exists more, e, accounting.
    rewrite <- app_assoc. split_and!; try done; congruence.
  - intros ?. by apply triple_ret.
Qed.

(** What was not streamed is still empty. *)
Definition unseen_is_empty s : Prop :=
  (ss_content_delta_seen s = false → ss_content s = "") ∧
  (ss_reasoning_delta_seen s = false → ss_reasoning s = "").
Lemma streamed_unseen s rt log : streamed s rt log → unseen_is_empty s.
Proof.
  intros (more & _ & [Hc _ _ Hcs] & [Hr _ _ Hrs]). split; intros Hseen.
  - by rewrite <- Hc, (Hcs Hseen).
  - by rewrite <- Hr, (Hrs Hseen).
Qed.

(** The rest of a part that did not stream. *)
Definition completed_content s (text : string) : StreamState :=
  if negb (ss_content_delta_seen s) && negb (is_empty_str text)
  then s <| ss_content_delta_seen := true |> <| ss_content := (ss_content s +:+ text)%string |>
         <| ss_content_index := sat_add64 (ss_content_index s) 1 |>
  else s.
Definition completed_reasoning s (text : string) : StreamState :=
  if negb (ss_reasoning_delta_seen s) && negb (is_empty_str text)
  then s <| ss_reasoning_delta_seen := true |> <| ss_reasoning := (ss_reasoning s +:+ text)%string |>
         <| ss_reasoning_index := sat_add64 (ss_reasoning_index s) 1 |>
  else s.

Lemma triple_streamed_completed s output :
  triple (streamed s) (on_completed ports attempt_id s output)
    (λ control _ log, delivered control log).
Proof.
  apply triple_pre with (P' := λ rt log, streamed s rt log ∧ unseen_is_empty s);
    [|intros rt log Hs; by eauto using streamed_unseen].
  apply triple_pure. intros [Huc Hur]. unfold on_completed. cbv zeta.
  destruct (ss_content_delta_seen s && _) eqn:Hcontent; [by apply triple_ret|].
  destruct (ss_reasoning_delta_seen s && _) eqn:Hreasoning; [by apply triple_ret|].
  set (s1 := completed_content s (mo_content output)).
  set (s2 := completed_reasoning s1 (default "" (mo_reasoning_content output))).
  assert (ss_reasoning_delta_seen s1 = ss_reasoning_delta_seen s ∧ ss_reasoning s1 = ss_reasoning s ∧
          ss_reasoning_index s1 = ss_reasoning_index s) as (Hrs & Hrt & Hri)
    by (subst s1; unfold completed_content; by case_match).
  eapply triple_bind with (R := λ _, streamed s1).
  { subst s1. unfold completed_content. case_match; [|by apply triple_ret].
    eapply triple_bind; [apply triple_content_delta|]. intros ?. by apply triple_ret. }
  intros ?. eapply triple_bind with (R := λ _, streamed s2).
  { subst s2. unfold completed_reasoning. rewrite Hrs. case_match; [|by apply triple_ret].
    eapply triple_bind; [rewrite <- Hri; apply triple_reasoning_delta|].
    intros ?. by apply triple_ret. }
  intros ?. apply triple_deliver.
  - transitivity (ss_content s1); [subst s2; unfold completed_reasoning; by case_match|].
    subst s1. unfold completed_content.
    destruct (ss_content_delta_seen s) eqn:Hseen; cbn in *; [by bprop|]. rewrite Huc by done.
    destruct (mo_content output); [by apply Huc|done].
  - subst s2. unfold completed_reasoning. rewrite Hrs.
    destruct (ss_reasoning_delta_seen s) eqn:Hseen; cbn in *; [rewrite Hrt; by bprop|].
    destruct (default "" (mo_reasoning_content output));
      [change (ss_reasoning s1 = ""); rewrite Hrt; by apply Hur|cbn; by rewrite Hrt, Hur].
Qed.

Definition streaming (step : StreamStep) rt log : Prop :=
  match step with Stay s => streamed s rt log | Leave control => delivered control log end.
Lemma triple_streamed_event s poll :
  triple (streamed s) (on_model_event ports attempt_id s poll) streaming.
Proof.
  destruct poll as [[[[evidence|delta|delta|output]|error]|]|]; cbn [on_model_event].
  - by apply triple_ret.
  - case_match; [by apply triple_ret|]. cbv zeta.
    eapply triple_bind; [apply triple_content_delta|]. intros ?. by apply triple_ret.
  - case_match; [by apply triple_ret|]. cbv zeta.
    eapply triple_bind; [apply triple_reasoning_delta|]. intros ?. by apply triple_ret.
  - eapply triple_bind; [apply triple_streamed_completed|]. intros ?. by apply triple_ret.
  - by apply triple_ret.
  - by apply triple_ret.
  - eapply triple_bind; [apply triple_get_snapshot|]. intros snapshot. apply triple_ret.
    intros rt log [Hs _]. by case_match.
Qed.

Lemma triple_streamed_read deadline inputs s :
  triple (streamed s) (read_stream ports attempt_id deadline inputs s)
    (λ control _ log, delivered control log).
Proof.
  revert s. induction inputs as [|[poll|command|] inputs IH]; intros s; cbn [read_stream].
  - apply triple_throw.
  - eapply triple_bind; [apply triple_streamed_event|]. intros []; [apply IH|by apply triple_ret].
  - eapply triple_bind; [by apply triple_streamed_quietly, quietly_wait_command|].
    intros []; [by apply triple_ret|apply IH].
  - case_match; [|apply IH]. eapply triple_bind; [by apply triple_streamed_quietly, quietly_timed_out|].
    intros ?. by apply triple_ret.
Qed.
End attempt.

Definition no_output (early : option ModelAttemptControl) : Prop :=
  match early with Some (AttemptOutput _) => False | _ => True end.
Lemma yields_open_stream deadline inputs :
  yields (St := St) (open_stream ports deadline inputs) no_output.
Proof.
  induction inputs as [|[[|]|command|] inputs IH]; cbn [open_stream]; try by apply yields_ret.
  - done.
  - apply yields_bind. intros []; [by apply yields_ret|done].
  - case_match; [|done]. apply yields_bind. intros ?. by apply yields_ret.
Qed.

(** C15: What streams is what is committed.  When an attempt of a live process gives an output, the
    log it leaves ends with the commitment of that output, and before it, since the attempt
    started, the content deltas of the attempt - numbered from one without a gap - joined in
    order are exactly the content of the output, and the reasoning deltas its reasoning: also when
    the model streamed only a part or nothing of them, and whatever commands came between. *)
Theorem streamed_deltas_are_the_committed_output attempt_id request deadline rt log rt' output :
  safe rt log → pends attempt_id request rt →
  execute_model_attempt ports loop attempt_id request deadline rt = (rt', Ok (AttemptOutput output)) →
  ∃ more e accounting,
    safe rt' (log ++ more ++ [e]) ∧ sre_event e = ModelResponseCommitted attempt_id output accounting ∧
    joined (content_deltas attempt_id more) = mo_content output ∧
    joined (reasoning_deltas attempt_id more) = default "" (mo_reasoning_content output) ∧
    numbered (content_deltas attempt_id more) ∧ numbered (reasoning_deltas attempt_id more).
Proof.
  intros Hs Hp Hr.
  assert (triple (λ rt' log', (streamed attempt_id log StreamState_start rt' log') ∧
      pends attempt_id request rt')
    ((stored ← raised (publish ports (ModelRequestInFlight attempt_id));
      say (CallModel (sre_sequence stored) attempt_id request)) ≫= λ _,
     tick ← next_tick;
     early ← open_stream ports deadline (lp_open loop tick);
     match early with
     | Some control => mret control
     | None => tick ← next_tick;
               read_stream ports attempt_id deadline (lp_stream loop tick) StreamState_start
     end) (λ control _ log', delivered attempt_id log control log')) as Hall.
  { eapply triple_bind.
    - apply triple_start_attempt; [done..|].
      intros rt0 log0 e rt0' (more & -> & Hc & Hre) He _ _ _. exists (more ++ [e]).
      rewrite app_assoc. split; [done|]. unfold content_deltas, reasoning_deltas in *.
      rewrite !omap_app. cbn. rewrite He. by rewrite !app_nil_r.
    - intros ?. cbv beta.
      eapply triple_bind; [apply triple_streamed_quietly, quietly_next_tick|]. intros tick.
      eapply triple_bind; [apply triple_yields;
        [by apply triple_streamed_quietly, quietly_open_stream|apply yields_open_stream]|].
      intros [control|].
      + apply triple_ret. intros rt0 log0 [_ Hno]. by destruct control.
      + apply triple_pure. intros _.
        eapply triple_bind; [apply triple_streamed_quietly, quietly_next_tick|]. intros tick'.
        by apply triple_streamed_read. }
  destruct (Hall rt log rt' (Ok (AttemptOutput output)) Hs) as (log' & _ & _ & Hs' & Hdel).
  - split; [|exact Hp]. exists []. rewrite app_nil_r. split; [done|]. split; apply spells_nil.
  - revert Hr. unfold execute_model_attempt. rewrite !M_bind_run.
    by destruct (raised _ rt) as [rt1 []].
  - destruct Hdel as (more & e & accounting & -> & ?). by exists more, e, accounting.
Qed.
End stream.
