(* ===== verification/AgentAcceptFacts.v ===== *)
(** The turn and the reducer agree: the retry policy of the runtime is the one the reducer
    enforces, every failure is decided durably, and every request a turn builds is the one the
    reducer expects. *)
From Stdlib Require Import Ascii String.
From S2P Require Import Prelude.
From S2P Require Import Text.
From S2P Require Import Json.
From S2P Require Import Task.
From S2P Require Import Protocol.
From S2P Require Import Validate.
From S2P Require Import Context.
From S2P Require Import Snapshot.
From S2P Require Import Evidence.
From S2P Require Import RunEvents.
From S2P Require Import AgentEvents.
From S2P Require Import Reducer.
From S2P Require Import Steps.
From S2P Require Import LogFacts.
From S2P Require Import MemStore.
From S2P Require Import MemStoreFacts.
From S2P Require Import AgentRuntime.
From S2P Require Import AgentRuntimeFacts.
From S2P Require Import AgentTools.
From S2P Require Import AgentControl.
From S2P Require Import AgentProcess.
From S2P Require Import AgentTurn.
From S2P Require Import AgentTurnFacts.

Open Scope string_scope.
Open Scope list_scope.
Open Scope N_scope.

(** The failure the turn has latched is the primary failure of the log. *)
Definition latches (logged : option ModelAttemptFailure) (latched : option ModelPortError) : Prop :=
  match logged, latched with
  | None, None => True
  | Some failure, Some error =>
    maf_code failure = mpe_code error ∧ maf_category failure = mpe_category error
  | _, _ => False
  end.

Lemma policies_agree max pending request primary error response :
  pma_request pending = request → latches (pma_primary_failure pending) primary →
  primary_stop_reason max request primary error response =
  let failure := model_attempt_failure error response in
  retry_policy_stop_reason pending failure (default failure (pma_primary_failure pending)) max.
Proof.
  intros <- Hl. unfold primary_stop_reason, retry_policy_stop_reason. cbn.
  assert (is_some_and primary (λ latched,
      (mpe_code latched !=? mpe_code error) || (mpe_category latched !=? mpe_category error)) =
    (mpe_code error !=? maf_code (default (model_attempt_failure error response)
       (pma_primary_failure pending)))
    || (mpe_category error !=? maf_category (default (model_attempt_failure error response)
       (pma_primary_failure pending)))) as ->; [|done].
  destruct (pma_primary_failure pending) as [failure|], primary as [latched|]; try done; cbn.
  - destruct Hl as [-> ->]. f_equal; f_equal; apply bool_decide_ext; split; congruence.
  - by rewrite !bool_decide_true.
Qed.

Definition decision_of (plan : ModelFailurePlan) : ModelRetryDecision :=
  match plan with
  | PlanStop reason _ => RetryStop reason
  | PlanRetry prepared => RetryPrepared prepared
  end.

Section accept.
Context `{Codecs} {St : Type} `{!RunPort St} `{!RunPortLaws St} `{!RunPortAvailable St}.
Context (ports : RuntimePorts) (loop : LoopPorts).
Context (uuid_fresh : ∀ n m, rp_uuid ports n = rp_uuid ports m → n = m).
Context (uuid_random : ∀ n, rp_uuid ports n ≠ RuntimeEventId_terminal).
Abbreviation run := (M (LoopWorld St)).
Abbreviation world := (Rt (LoopWorld St)).
Implicit Types (rt : world) (log : list StoredRuntimeEvent).

(** What only moves ticks and the budget leaves a run live. *)
Lemma live_later rt rt' log :
  live ports rt log → rt_state rt' = rt_state rt → (rt_tick rt ≤ rt_tick rt')%nat →
  lw_store (rt_store rt') = lw_store (rt_store rt) → live ports rt' log.
Proof.
  intros [Hh Hs Hids Ht] Hst Htick Hstore.
  split; unfold rt_snapshot in *; rewrite ?Hst; cbn in *; rewrite ?Hstore; try done.
  intros n Hn. apply Hids. lia.
Qed.

Lemma accounting_later rt : ∃ rt' accounting,
  cumulative_accounting (E := Halt RuntimeFailure) ports false rt = (rt', Ok accounting) ∧
  rt_state rt' = rt_state rt ∧ (rt_tick rt ≤ rt_tick rt')%nat ∧ rt_store rt' = rt_store rt.
Proof.
  unfold cumulative_accounting. rewrite !M_bind_run. cbn. rewrite M_bind_run. cbn.
  eexists _, _. split; [done|]. cbn. split_and!; [done|lia|done].
Qed.

(** The planned decision is one the reducer validates. *)
Definition validated (run_id : RunId) (pending : PendingModelAction) (failure : ModelAttemptFailure)
    (max : N) (retry : ModelRetryDecision) : Prop :=
  match retry with
  | RetryStop reason => validate_retry_stop run_id pending failure
      (default failure (pma_primary_failure pending)) reason max = Ok tt
  | RetryPrepared prepared => validate_prepared_retry run_id pending failure
      (default failure (pma_primary_failure pending)) prepared max = Ok tt
  end.

Lemma plan_validated rt pending primary error response run_id :
  latches (pma_primary_failure pending) primary →
  (∀ n, (rt_tick rt ≤ n)%nat → rp_uuid ports n ≠ pma_attempt_id pending) →
  ∃ rt' latched plan,
    plan_model_failure ports (pma_request pending) primary error response rt =
      (rt', Ok (latched, plan)) ∧
    rt_state rt' = rt_state rt ∧ (rt_tick rt ≤ rt_tick rt')%nat ∧
    lw_store (rt_store rt') = lw_store (rt_store rt) ∧
    latches (Some (default (model_attempt_failure error response) (pma_primary_failure pending))) latched ∧
    validated run_id pending (model_attempt_failure error response)
      (lim_max_model_retries (rr_limits (sn_request (rt_snapshot rt)))) (decision_of plan).
Proof.
  intros Hl Hids.
  set (max := lim_max_model_retries (rr_limits (sn_request (rt_snapshot rt)))).
  assert (latches (Some (default (model_attempt_failure error response) (pma_primary_failure pending)))
    (Some (default error primary))) as Hlatched.
  { destruct (pma_primary_failure pending), primary; try done. }
  pose proof (policies_agree max pending _ primary error response eq_refl Hl) as Hagree. cbv zeta in Hagree.
  unfold plan_model_failure. rewrite M_bind_run. cbn -[primary_stop_reason take_permit]. fold max.
  destruct (primary_stop_reason _ _ _ _ _) as [reason|] eqn:Hstop.
  { eexists rt, _, _. split; [done|]. split; [done|]. split; [lia|]. split; [done|]. split; [done|]. cbn.
    unfold validate_retry_stop. rewrite <- Hagree. by rewrite bool_decide_true. }
  rewrite M_bind_run. unfold take_permit. rewrite M_bind_run. cbn.
  destruct (reserve_model_request _) as [budget|]; cbn.
  - eexists _, _, _. split; [done|]. cbn. split; [done|]. split; [lia|]. split; [done|]. split; [done|].
    unfold validate_prepared_retry. rewrite <- Hagree. cbn.
    rewrite (bool_decide_false (rp_uuid _ _ = _)) by (apply Hids; lia).
    by rewrite !bool_decide_true by done.
  - eexists rt, _, _. split; [by destruct rt as [? []]|]. split; [done|]. split; [lia|]. split; [done|]. split; [done|].
    cbn. unfold validate_retry_stop. rewrite <- Hagree. by rewrite bool_decide_true.
Qed.

(** A run that waits for nothing but its model. *)
Record unstopped (s : RunSnapshot) : Prop := {
  un_open : sn_terminal s = None;
  un_control : sn_pending_control s = None;
  un_failure : sn_last_model_failure s = None;
}.

Lemma dispatched_applied s ev s1 l p now :
  unstopped s → validate_agent_lifecycle_payload ev = Ok tt → pre_event p = ev →
  rr_run_id (sn_request s) = Some (rl_run_id l) →
  dispatch s (rl_run_id l) (sat_add64 (sn_last_sequence s) 1) ev = Ok s1 →
  apply_event s (next_stored s l p now) =
    Ok (s1 <| sn_last_sequence := sat_add64 (sn_last_sequence s) 1 |>).
Proof.
  intros [Ho Hc Hf] Hpay <- Hid. unfold next_stored. set (n := sat_add64 (sn_last_sequence s) 1).
  intros Hd. unfold apply_event, admit_event. rewrite Hid. cbn -[dispatch].
  unfold validate_event_header. cbn -[dispatch]. rewrite !bool_decide_true by done. cbn -[dispatch].
  rewrite Ho, Hpay, Hc, Hf. cbn -[dispatch]. by rewrite Hd.
Qed.

Lemma publish_dispatched rt log ev s1 :
  live ports rt log → unstopped (rt_snapshot rt) → validate_agent_lifecycle_payload ev = Ok tt →
  (∀ run_id, rr_run_id (sn_request (rt_snapshot rt)) = Some run_id →
     dispatch (rt_snapshot rt) run_id (sat_add64 (sn_last_sequence (rt_snapshot rt)) 1) ev = Ok s1) →
  ∃ rt' e, publish ports ev rt = (rt', Ok e) ∧ live ports rt' (log ++ [e]) ∧ sre_event e = ev ∧
    rt_state rt' = rt_state rt <| rs_snapshot :=
      s1 <| sn_last_sequence := sat_add64 (sn_last_sequence (rt_snapshot rt)) 1 |> |>.
Proof.
  intros Hl Hu Hpay Hd. destruct (pending_event_id ports ev (rt_tick rt)) as [Hpev _].
  destruct (port_holds_log _ _ _ (live_holds _ _ _ Hl)) as (_ & s & Hs & Hid).
  rewrite (live_snapshot _ _ _ Hl) in Hs. injection Hs as <-.
  apply publish_available; [done..|apply Hu|]. intros now.
  specialize (Hd _ Hid). by eapply dispatched_applied.
Qed.

Lemma publish_with_permit_Ok ev rt rt' e :
  publish ports ev rt = (rt', Ok e) → publish_with_model_permit ports ev rt = (rt', Ok e).
Proof.
  unfold publish_with_model_permit. rewrite publish_append_event.
  by destruct (append_event ports ev rt) as [rt1 [stored|failure]].
Qed.

(** The reducer accepts a validated decision. *)
Lemma failed_dispatches s pending error response accounting retry run_id n :
  sn_pending_model s = Some pending → pma_state pending = InFlight →
  (∀ run_id, validate_model_failure_evidence run_id (model_attempt_failure error response) = Ok tt) →
  validated run_id pending (model_attempt_failure error response)
    (lim_max_model_retries (rr_limits (sn_request s))) retry →
  ∃ s1, dispatch s run_id n (ModelRequestFailed (pma_attempt_id pending)
      (model_attempt_failure error response) accounting retry) = Ok s1 ∧
    ∀ p, sn_pending_model s1 = Some p → pma_primary_failure p =
      Some (default (model_attempt_failure error response) (pma_primary_failure pending)).
Proof.
  intros Hp Hflight Hev Hval. cbn -[validate_model_failure_evidence validate_prepared_retry validate_retry_stop].
  unfold on_model_request_failed, pending_model_mut. rewrite Hp.
  cbn -[validate_model_failure_evidence validate_prepared_retry validate_retry_stop].
  rewrite (bool_decide_true (pma_attempt_id pending = _)) by done.
  cbn -[validate_model_failure_evidence validate_prepared_retry validate_retry_stop].
  rewrite Hflight, (bool_decide_true (InFlight = InFlight)) by done.
  cbn -[validate_model_failure_evidence validate_prepared_retry validate_retry_stop]. rewrite Hev.
  cbn -[validate_model_failure_evidence validate_prepared_retry validate_retry_stop].
  destruct retry; cbn [validated] in Hval; rewrite Hval; cbn; eexists; (split; [done|]); cbn.
  - done.
  - by intros p [= <-].
Qed.

(** C13: Every failed attempt is decided durably.  When the attempt that is in flight fails, with
    evidence the reducer considers consistent, the decision of the turn - a retry, or why there is
    none - is one the reducer accepts: in a run that is not stopped and with a store that is
    available it becomes durable as the next event, for every failure, latched failure and budget,
    and what the turn has latched is again the primary failure of the log. *)
Theorem every_failure_is_decided_durably rt log pending primary error response :
  live ports rt log → unstopped (rt_snapshot rt) →
  sn_pending_model (rt_snapshot rt) = Some pending → pma_state pending = InFlight →
  latches (pma_primary_failure pending) primary →
  (∀ n, (rt_tick rt ≤ n)%nat → rp_uuid ports n ≠ pma_attempt_id pending) →
  (∀ run_id, validate_model_failure_evidence run_id (model_attempt_failure error response) = Ok tt) →
  ∃ rt' latched plan e accounting,
    ('(latched, plan) ← plan_model_failure ports (pma_request pending) primary error response;
     commit_model_failure ports (pma_attempt_id pending) error response (decision_of plan)
       (is_retry (decision_of plan)) ;;
     mret (latched, plan)) rt = (rt', Ok (latched, plan)) ∧
    live ports rt' (log ++ [e]) ∧
    sre_event e = ModelRequestFailed (pma_attempt_id pending) (model_attempt_failure error response)
                    accounting (decision_of plan) ∧
    (∀ p, sn_pending_model (rt_snapshot rt') = Some p → latches (pma_primary_failure p) latched).
Proof.
  intros Hl Hu Hp Hflight Hlatch Hids Hev.
  destruct (port_holds_log _ _ _ (live_holds _ _ _ Hl)) as (_ & s & Hs & Hid).
  rewrite (live_snapshot _ _ _ Hl) in Hs. injection Hs as <-.
  destruct (plan_validated rt pending primary error response (rl_run_id (rs_lease (rt_state rt))) Hlatch Hids)
    as (rt1 & latched & plan & Hplan & Hst & Htick & Hstore & Hlatched & Hval).
  assert (live ports rt1 log) as Hl1 by by eapply live_later.
  destruct (accounting_later rt1) as (rt2 & accounting & Hacc & Hst2 & Htick2 & Hstore2).
  assert (live ports rt2 log) as Hl2 by (eapply live_later; [exact Hl1|done..|by rewrite Hstore2]).
  assert (rt_snapshot rt2 = rt_snapshot rt) as Hsn by (unfold rt_snapshot; by rewrite Hst2, Hst).
  rewrite <- Hsn in Hu, Hp, Hid, Hval.
  destruct (failed_dispatches _ _ error response accounting _ _
    (sat_add64 (sn_last_sequence (rt_snapshot rt2)) 1) Hp Hflight Hev Hval) as (s1 & Hd & Hprimary).
  destruct (publish_dispatched rt2 log (ModelRequestFailed (pma_attempt_id pending)
    (model_attempt_failure error response) accounting (decision_of plan)) s1)
    as (rt3 & e & Hpub & Hl3 & He & Hst3); try done.
  { intros run_id Hrun. rewrite Hid in Hrun. by injection Hrun as <-. }
  exists rt3, latched, plan, e, accounting. split; [|split; [done|split; [done|]]].
  - rewrite M_bind_run, Hplan. cbn [decision_of]. rewrite M_bind_run. unfold commit_model_failure.
    rewrite M_bind_run, Hacc. rewrite M_bind_run. unfold raised, or_else.
    assert ((if is_retry (decision_of plan) then publish_with_model_permit ports
        (ModelRequestFailed (pma_attempt_id pending) (model_attempt_failure error response)
           accounting (decision_of plan)) rt2
      else publish ports (ModelRequestFailed (pma_attempt_id pending)
        (model_attempt_failure error response) accounting (decision_of plan)) rt2) = (rt3, Ok e)) as Hcommit
      by (destruct (is_retry _); [by apply publish_with_permit_Ok|done]).
    destruct (is_retry (decision_of plan)); by rewrite Hcommit.
  - intros p Hp3. unfold rt_snapshot in Hp3. rewrite Hst3 in Hp3. cbn in Hp3.
    by rewrite (Hprimary _ Hp3).
Qed.

(** ** The request of a turn *)

(** A new request may begin: nothing durable is unsettled. *)
Record at_boundary (s : RunSnapshot) : Prop := {
  ab_unstopped : unstopped s;
  ab_model : sn_pending_model s = None;
  ab_settled : ∀ run_id, validate_model_request_safe_boundary s run_id = Ok tt;
}.

(** What a compaction changes is only the projection. *)
Lemma compaction_boundary s e s' projection tools accounting before after :
  apply_event s e = Ok s' →
  sre_event e = ContextCompactionCommitted projection tools accounting before after →
  at_boundary s → at_boundary s' ∧ sn_request s' = sn_request s ∧ sn_local_turns s' = sn_local_turns s.
Proof.
  intros (r & s1 & _ & Hd & ->)%run_step_inv He [[] ? Hset]. rewrite He in Hd. cbn [dispatch] in Hd.
  expand_binds Hd. inv_run. subst. split; [|done]. split; [by split|done|]. intros run_id. apply Hset.
Qed.

(** A later moment of the same turn. *)
Record same_turn rt log rt' log' : Prop := {
  st_prefix : log `prefix_of` log';
  st_live : live ports rt' log';
  st_boundary : at_boundary (rt_snapshot rt');
  st_request : sn_request (rt_snapshot rt') = sn_request (rt_snapshot rt);
  st_turns : sn_local_turns (rt_snapshot rt') = sn_local_turns (rt_snapshot rt);
}.
Lemma same_turn_refl rt log :
  live ports rt log → at_boundary (rt_snapshot rt) → same_turn rt log rt log.
Proof. by split. Qed.

Lemma compact_context_boundary tools rt log rt' :
  live ports rt log → at_boundary (rt_snapshot rt) →
  compact_context ports tools rt = (rt', Ok tt) →
  ∃ log', same_turn rt log rt' log'.
Proof.
  intros Hl Hb. unfold compact_context. rewrite M_bind_run. cbn [get_snapshot].
  rewrite M_bind_run. unfold raised, or_else, lift. destruct (map_err _ _) as [preparation|]; [|done].
  cbn. destruct preparation as [|projection before after|];
    [intros [= <-]; eauto using same_turn_refl| |done].
  rewrite M_bind_run.
  destruct (publish _ _ rt) as [rt1 [e|]] eqn:Hpub; cbn; [intros [= <-]|done].
  apply (publish_steps _ uuid_fresh uuid_random rt log) in Hpub as (He & Hl1 & Happ & _ & _);
    [|done|apply Hb|done].
  destruct (compaction_boundary _ _ _ _ _ _ _ _ Happ He Hb) as (? & ? & ?).
  exists (log ++ [e]). split; try done. by apply prefix_app_r.
Qed.

Lemma current_context_Ok tools rt rt' context :
  current_context (St := St) tools rt = (rt', Ok context) →
  rt' = rt ∧ effective_context (context_input (rt_snapshot rt) tools) = Ok context.
Proof.
  unfold current_context. rewrite M_bind_run. cbn [get_snapshot]. unfold raised, or_else, lift.
  destruct (effective_context _); cbn; [|done]. by intros [= <- <-].
Qed.

(** The request a turn builds, from the projection it is going to be checked against. *)
Lemma build_request_Ok request_number terminal_turn rt log rt' request :
  live ports rt log → at_boundary (rt_snapshot rt) →
  build_request ports loop request_number terminal_turn rt = (rt', Ok (inr request)) →
  ∃ log' context, same_turn rt log rt' log' ∧
    effective_context (context_input (rt_snapshot rt') (mr_tools request)) = Ok context ∧
    request = mkModelRequest (state_run_id (rt_state rt'))
      (rr_parent_run_id (sn_request (rt_snapshot rt'))) (rr_actor (sn_request (rt_snapshot rt')))
      (rr_model (sn_request (rt_snapshot rt'))) (ec_system_prompt context) (ec_messages context)
      (mr_tools request) (rr_reasoning_effort (sn_request (rt_snapshot rt')))
      (rr_max_output_tokens (sn_request (rt_snapshot rt')))
      (rr_streaming (sn_request (rt_snapshot rt'))) request_number 0.
Proof.
  intros Hl Hb. unfold build_request. rewrite M_bind_run. cbn [get_snapshot].
  rewrite M_bind_run.
  destruct (request_tools _ _ _ rt) as [rt0 [tools|]] eqn:Htools; [|done].
  assert (rt0 = rt) as ->.
  { unfold request_tools in Htools. destruct terminal_turn; [by injection Htools as <- _|].
    destruct (for_request _); by injection Htools as <- _. }
  rewrite M_bind_run. destruct (current_context tools rt) as [rt0 [context|]] eqn:Hcontext; [|done].
  apply current_context_Ok in Hcontext as [-> Hcontext]. rewrite M_bind_run.
  set (settle := if _ <? _ then _ else mret context).
  destruct (settle rt) as [rt1 [context1|]] eqn:Hsettle; [|done].
  assert (∃ log1, same_turn rt log rt1 log1 ∧
    effective_context (context_input (rt_snapshot rt1) tools) = Ok context1) as (log1 & Hsame & Hcontext1).
  { subst settle. case_match; [|injection Hsettle as <- <-; eauto using same_turn_refl].
    rewrite M_bind_run in Hsettle. destruct (compact_context _ _ rt) as [rt2 [[]|]] eqn:Hcompact; [|done].
    apply (compact_context_boundary _ _ log) in Hcompact as (log2 & Hsame); [|done..].
    apply current_context_Ok in Hsettle as [-> ?]. by exists log2. }
  case_match; [done|]. cbn. intros [= <- <-]. by exists log1, context1.
Qed.

(** The reducer accepts the request of its own projection. *)
Lemma prepared_dispatches s run_id n attempt_id context tools request_number :
  at_boundary s → rr_run_id (sn_request s) = Some run_id →
  request_number = sat_add32 (sn_local_turns s) 1 →
  effective_context (context_input s tools) = Ok context →
  let run := sn_request s in
  let request := mkModelRequest run_id (rr_parent_run_id run) (rr_actor run) (rr_model run)
    (ec_system_prompt context) (ec_messages context) tools (rr_reasoning_effort run)
    (rr_max_output_tokens run) (rr_streaming run) request_number 0 in
  dispatch s run_id n (ModelRequestPrepared attempt_id request) =
    Ok (s <| sn_local_turns := N.max (sn_local_turns s) request_number |>
          <| sn_runtime_model_requests := sat_add32 (sn_runtime_model_requests s) 1 |>
          <| sn_last_model_activity_sequence := Some n |>
          <| sn_last_model_failure := None |>
          <| sn_pending_model := Some (mkPendingModelAction attempt_id request None None Prepared) |>).
Proof.
  intros [Hu Hm Hset] Hid Hn Hctx. cbn -[validate_model_request_safe_boundary effective_context].
  unfold on_model_request_prepared. rewrite Hm.
  cbn -[validate_model_request_safe_boundary effective_context].
  rewrite (bool_decide_true (run_id = run_id)) by done.
  cbn -[validate_model_request_safe_boundary effective_context].
  rewrite Hset. cbn -[effective_context]. rewrite Hctx. cbn.
  rewrite !bool_decide_true, Bool.eqb_reflx by done. cbn.
  rewrite Hn, N.eqb_refl. done.
Qed.

(** C14: Every request a turn builds is the one the reducer expects.  At a settled boundary of a run
    that is not stopped, whenever the turn builds a request - with or without a compaction in
    between - the request it then publishes is accepted: with a store that is available it becomes
    durable as the next event, under a fresh attempt, and is the pending request of the run. *)
Theorem built_requests_are_accepted request_number terminal_turn rt log rt1 request :
  live ports rt log → at_boundary (rt_snapshot rt) →
  request_number = sat_add32 (sn_local_turns (rt_snapshot rt)) 1 →
  build_request ports loop request_number terminal_turn rt = (rt1, Ok (inr request)) →
  ∃ log1 rt2 e attempt_id, log `prefix_of` log1 ∧ live ports rt1 log1 ∧
    publish_request ports (inr request) rt1 = (rt2, Ok (inr (attempt_id, request))) ∧
    live ports rt2 (log1 ++ [e]) ∧ sre_event e = ModelRequestPrepared attempt_id request ∧
    sn_pending_model (rt_snapshot rt2) = Some (mkPendingModelAction attempt_id request None None Prepared).
Proof.
  intros Hl Hb Hnumber Hbuild.
  destruct (build_request_Ok _ _ _ log _ _ Hl Hb Hbuild)
    as (log1 & context & [Hpre Hl1 Hb1 Hreq Hturns] & Hctx & Hr).
  set (rt1' := rt1 <| rt_tick := Datatypes.S (rt_tick rt1) |>).
  assert (live ports rt1' log1) as Hl1' by (eapply live_later; [exact Hl1|done|cbn; lia|done]).
  destruct (port_holds_log _ _ _ (live_holds _ _ _ Hl1)) as (_ & s & Hs & Hid).
  rewrite (live_snapshot _ _ _ Hl1) in Hs. injection Hs as <-.
  assert (state_run_id (rt_state rt1) = rl_run_id (rs_lease (rt_state rt1))) as Hrun
    by (unfold state_run_id; fold (rt_snapshot rt1); by rewrite Hid).
  rewrite Hrun in Hr. set (attempt_id := rp_uuid ports (rt_tick rt1)).
  pose proof (prepared_dispatches (rt_snapshot rt1) _ (sat_add64 (sn_last_sequence (rt_snapshot rt1)) 1)
    attempt_id context (mr_tools request) request_number Hb1 Hid ltac:(by rewrite Hturns) Hctx) as Hd.
  cbv zeta in Hd. rewrite <- Hr in Hd.
  destruct (publish_dispatched rt1' log1 _ _ Hl1' (ab_unstopped _ Hb1) (eq_refl : _ (ModelRequestPrepared attempt_id request) = _)
    ltac:(intros run_id Hid'; change (rt_snapshot rt1') with (rt_snapshot rt1) in *;
      rewrite Hid in Hid'; injection Hid' as <-; exact Hd)) as (rt2 & e & Hpub & Hl2 & He & Hst2).
  exists log1, rt2, e, attempt_id. split_and!; try done.
  - unfold publish_request. rewrite M_bind_run. cbn [next_tick]. cbv beta zeta.
    rewrite M_bind_run. unfold raised, or_else. fold rt1' attempt_id.
    by rewrite (publish_with_permit_Ok _ _ _ _ Hpub).
  - unfold rt_snapshot. by rewrite Hst2.
Qed.
End accept.
