(* ===== verification/AgentLoopFacts.v ===== *)
(** The loop of a run in a live process: everything it does stays durable and granted, an action that
    was under way is never repeated, and the loop ends within the budget of its requests. *)
From Stdlib Require Import Ascii String.
From S2P Require Import Prelude.
From S2P Require Import Text.
From S2P Require Import Json.
From S2P Require Import Task.
From S2P Require Import Protocol.
From S2P Require Import Validate.
From S2P Require Import Context.
From S2P Require Import Snapshot.
From S2P Require Import Evidence.
From S2P Require Import RunEvents.
From S2P Require Import AgentEvents.
From S2P Require Import Reducer.
From S2P Require Import Steps.
From S2P Require Import LogFacts.
From S2P Require Import ToolFacts.
From S2P Require Import EvidenceFacts.
From S2P Require Import CompletionFacts.
From S2P Require Import MemStore.
From S2P Require Import MemStoreFacts.
From S2P Require Import AgentTools.
From S2P Require Import AgentRuntime.
From S2P Require Import AgentRuntimeFacts.
From S2P Require Import AgentEmits.
From S2P Require Import AgentControl.
From S2P Require Import AgentTurn.
From S2P Require Import AgentProcess.
From S2P Require Import AgentCompletion.
From S2P Require Import AgentCall.
From S2P Require Import AgentControlFacts.
From S2P Require Import AgentCompletionFacts.
From S2P Require Import AgentCallFacts.
From S2P Require Import AgentTurnFacts.
From S2P Require Import AgentLoop.

Open Scope string_scope.
Open Scope list_scope.
Open Scope N_scope.

(** ** A review that asks for another turn *)

Section retries.
Context `{Codecs} {St : Type} `{!RunPort St} `{!RunPortLaws St}.
Context (ports : RuntimePorts) (verifiers : VerifierPort).
Context (uuid_fresh : ∀ n m, rp_uuid ports n = rp_uuid ports m → n = m).
Context (uuid_random : ∀ n, rp_uuid ports n ≠ RuntimeEventId_terminal).
Context (limits : RunLimits) (older : list (N * Action)).
Abbreviation run := (M (LoopWorld St)).
Abbreviation review := (run (Halt CompletionReviewError)).
Abbreviation world := (Rt (LoopWorld St)).
Abbreviation runlog := (list StoredRuntimeEvent).
Abbreviation triple := (triple ports limits older).
Abbreviation safe := (safe ports limits older).
Implicit Types (rt : world) (log : runlog) (P B : world → runlog → Prop).

(** Where the step asks for another turn, the process can go on. *)
Definition retries {A} P (m : review A) B : Prop := ∀ rt log rt' reason,
  safe rt log → P rt log → m rt = (rt', Err (Raised (ReviewRetry reason))) →
  ∃ log', log `prefix_of` log' ∧ safe rt' log' ∧ B rt' log'.
Definition never_retries {A} (m : review A) : Prop := ∀ rt rt' reason,
  m rt ≠ (rt', Err (Raised (ReviewRetry reason))).

Lemma retries_bind {A C} P (m : review A) R (f : A → review C) B :
  retries P m B → triple P m R → (∀ a, retries (R a) (f a) B) → retries P (m ≫= f) B.
Proof.
  intros Hm Ht Hf rt log rt2 reason Hs HP. rewrite M_bind_run. destruct (m rt) as [rt1 [a|e]] eqn:Hr.
  - destruct (Ht _ _ _ _ Hs HP Hr) as (log1 & Hpre & _ & Hs1 & HR). intros Hr2.
    destruct (Hf _ _ _ _ _ Hs1 HR Hr2) as (log2 & Hpre2 & ?). exists log2. split; [by etrans|done].
  - intros [= <- ->]. by eapply Hm.
Qed.
Lemma retries_never {A} P (m : review A) B : never_retries m → retries P m B.
Proof. intros Hm rt log rt' reason _ _ Hr. by apply Hm in Hr. Qed.

Lemma never_bind {A C} (m : review A) (f : A → review C) :
  never_retries m → (∀ a, never_retries (f a)) → never_retries (m ≫= f).
Proof.
  intros Hm Hf rt rt' reason. rewrite M_bind_run. destruct (m rt) as [rt1 [a|e]] eqn:Hr; [apply Hf|].
  intros [= <- ->]. by eapply Hm.
Qed.
Lemma never_ret {A} (a : A) : never_retries (mret a).
Proof. intros rt rt' reason [=]. Qed.
Lemma never_blocked {A} reason : never_retries (blocked (A := A) reason).
Proof. intros rt rt' reason' [=]. Qed.
Lemma never_stop {A} : never_retries (stop (A := A)).
Proof. intros rt rt' reason [=]. Qed.
Lemma never_block_if b reason : never_retries (block_if b reason).
Proof. destruct b; [apply never_blocked|apply never_ret]. Qed.
Lemma never_or_blocked {A} (o : option A) reason : never_retries (or_blocked o reason).
Proof. destruct o; [apply never_ret|apply never_blocked]. Qed.
Lemma never_or_else {E A} (f : E → string) (m : run E A) :
  never_retries (or_else (λ e, Raised (ReviewBlocked (f e))) m).
Proof. intros rt rt' reason. unfold or_else. by destruct (m rt) as [rt1 []]. Qed.
Lemma never_snapshot : never_retries get_snapshot.
Proof. intros rt rt' reason [=]. Qed.
Lemma never_state : never_retries get_state.
Proof. intros rt rt' reason [=]. Qed.
Lemma never_tick : never_retries next_tick.
Proof. intros rt rt' reason [=]. Qed.
Lemma never_say call : never_retries (say call).
Proof. intros rt rt' reason [=]. Qed.
Lemma never_lift_blocked {A} (x : result string A) :
  never_retries (lift (map_err (λ message, Raised (ReviewBlocked message)) x)).
Proof. intros rt rt' reason. by destruct x. Qed.

Ltac never :=
  repeat match goal with
  | |- never_retries (_ ≫= _) => apply never_bind; [|intros]
  | |- never_retries (mret _) => apply never_ret
  | |- never_retries stop => apply never_stop
  | |- never_retries (block_if _ _) => apply never_block_if
  | |- never_retries (or_blocked _ _) => apply never_or_blocked
  | |- never_retries (publish_review _ _ _) => apply never_or_else
  | |- never_retries (reconcile_review _) => apply never_or_else
  | |- never_retries get_snapshot => apply never_snapshot
  | |- never_retries get_state => apply never_state
  | |- never_retries next_tick => apply never_tick
  | |- never_retries (say _) => apply never_say
  | |- never_retries (lift _) => apply never_lift_blocked
  | |- never_retries (match _ with _ => _ end) => case_match
  end.

Lemma never_prepare candidate aid verifier :
  never_retries (prepare_verification ports candidate aid verifier).
Proof. unfold prepare_verification. cbv zeta. never. Qed.
Lemma never_execute vid pending verifier :
  never_retries (execute_verifier ports verifiers vid pending verifier).
Proof. unfold execute_verifier. cbv zeta. never. Qed.
Lemma never_observe : never_retries (observe_workspace_state ports true).
Proof. unfold observe_workspace_state. cbv zeta. never. Qed.
Lemma never_known candidate contract : never_retries (review_known_failures candidate contract).
Proof. unfold review_known_failures. never. Qed.

Lemma retries_at {A} P φ (m : review A) B :
  (∀ s, φ s → retries (seen P (eq s)) m B) → retries (seen P φ) m B.
Proof. intros Hm rt log rt' reason Hs [HP Hφ] Hr. by eapply (Hm _ Hφ). Qed.
Lemma retries_look {A} P s (f : RunSnapshot → review A) B :
  retries (seen P (eq s)) (f s) B → retries (seen P (eq s)) (get_snapshot ≫= f) B.
Proof. intros Hf rt log rt' reason Hs [HP Heq] Hr. apply (Hf rt log rt' reason Hs); [done|]. by rewrite Heq. Qed.
Lemma retries_pre {A} P P' (m : review A) B :
  retries P' m B → (∀ rt log, P rt log → P' rt log) → retries P m B.
Proof. intros Hm HP rt log rt' reason Hs Hp. by apply Hm, HP. Qed.
Lemma retries_ret_bind {A C} P (a : A) (f : A → review C) B :
  retries P (f a) B → retries P (mret a ≫= f) B.
Proof. done. Qed.
Lemma retries_blocked_bind {A C} P reason (f : A → review C) B : retries P (blocked reason ≫= f) B.
Proof. by intros ?????. Qed.

Lemma retries_last {A C} P (m : review A) (f : A → review C) B :
  retries P m B → (∀ a, never_retries (f a)) → retries P (m ≫= f) B.
Proof.
  intros Hm Hf rt log rt' reason Hs HP. rewrite M_bind_run. destruct (m rt) as [rt1 [a|e]] eqn:Hr.
  - intros Hr2. by apply Hf in Hr2.
  - intros [= <- ->]. by eapply Hm.
Qed.

(** The invariant, with no verifier under way. *)
Definition unverified B rt log : Prop :=
  B rt log ∧ sn_pending_host_verification (rt_snapshot rt) = None.

Lemma retries_reject candidate B φ :
  steady B → (∀ s, φ s → sn_pending_host_verification s = None) →
  retries (seen B φ) (reject_completion ports candidate) (unverified B).
Proof.
  intros HB Hφ. apply retries_at. intros s Hnone. apply Hφ in Hnone. unfold reject_completion. apply retries_look.
  destruct (failure ← _; _) as [rejection|]; cbn [or_blocked]; [|apply retries_blocked_bind].
  apply retries_ret_bind. eapply retries_bind with (R := λ _, unverified B); [apply retries_never, never_or_else| |].
  - eapply triple_conseq; [by apply triple_publish_review|done|].
    intros e rt log [Hp (n & r & s1 & Hd & Heq)]. split; [done|]. rewrite Heq. cbn.
    apply dispatch_verification in Hd. by rewrite Hd.
  - intros e rt log rt' reason Hs HP [= <- _]. by exists log.
Qed.

Lemma retries_host_verifier contract candidate aid policy verifier s0 B :
  steady B → reviewable candidate s0 → frozen contract aid policy verifier s0 →
  retries (seen B (eq s0)) (run_host_verifier ports verifiers candidate aid policy verifier) (unverified B).
Proof.
  intros HB Hrev Hfrozen. unfold run_host_verifier.
  eapply retries_bind; [apply retries_never, never_prepare|by apply triple_prepare_verification|].
  intros [vid pending]. cbn [fst snd].
  eapply retries_bind; [apply retries_never, never_execute|by eapply triple_execute_verifier|].
  intros outcome. cbv beta. apply retries_at. intros s _.
  eapply retries_bind; [apply retries_never, never_observe|apply triple_still; [done|by apply quietly_observe|done]|].
  intros after. apply retries_look. cbv zeta.
  destruct (seal_evidence_receipt _ _ _ _ _ _ _) as [receipt|cause].
  - apply retries_never, never_bind; [apply never_or_else|intros; apply never_ret].
  - eapply retries_bind; [apply retries_never, never_or_else|by apply triple_publish_review|].
    intros e. apply retries_reject; [done|]. intros s' (n & r & s1 & Hd & ->). cbn.
    by apply dispatch_verification in Hd as [].
Qed.

Lemma retries_satisfy contract candidate host a s0 B :
  steady B → reviewable candidate s0 → rr_task_contract (sn_request s0) = Some contract →
  a ∈ def_acceptance (contract_definition contract) →
  retries (seen B (eq s0)) (satisfy ports verifiers candidate contract host a) (unverified B).
Proof.
  intros HB Hrev Hcontract Ha. destruct a as [id description|id description policy verifier]; cbn [satisfy].
  - apply retries_never, never_bind; [apply never_or_blocked|intros; apply never_ret].
  - apply retries_look. destruct (current_evidence _ _ _ _ _).
    + apply retries_never, never_bind; [apply never_ret|intros; apply never_ret].
    + assert (frozen contract id policy verifier s0) by (split; [done|by exists description]).
      eapply retries_bind; [by eapply retries_host_verifier|by eapply triple_run_host_verifier|].
      intros; apply retries_never, never_ret.
Qed.

Lemma retries_satisfy_all contract candidate host acceptance s0 B :
  steady B → reviewable candidate s0 → rr_task_contract (sn_request s0) = Some contract →
  (∀ a, a ∈ acceptance → a ∈ def_acceptance (contract_definition contract)) →
  retries (seen B (eq s0)) (satisfy_all ports verifiers candidate contract host acceptance) (unverified B).
Proof.
  intros HB. revert s0. induction acceptance as [|a acceptance IH]; intros s0 Hrev Hcontract Hin.
  - apply retries_never, never_ret.
  - cbn [satisfy_all]. assert (a ∈ def_acceptance (contract_definition contract)) as Ha by (apply Hin; by left).
    eapply retries_bind; [by apply (retries_satisfy contract)|by apply (triple_satisfy ports verifiers uuid_fresh uuid_random limits older B contract)|].
    intros satisfaction. apply retries_at. intros s1 [_ Hs1].
    apply retries_last; [|intros; apply never_ret].
    destruct Hs1 as [->|[_ Hadv]]; [apply IH; try done; intros; apply Hin; by right|].
    apply IH; [by eapply advanced_reviewable| |intros; apply Hin; by right].
    destruct Hadv as (? & ? & ? & ? & ? & _ & _ & []). congruence.
Qed.

Lemma retries_accept candidate B :
  steady B →
  retries (seen B (reviewable candidate)) (accept_completion_candidate ports verifiers candidate) (unverified B).
Proof.
  intros HB. apply retries_at. intros s Hrev. unfold accept_completion_candidate. apply retries_look.
  destruct (rr_task_contract (sn_request s)) as [contract|] eqn:Hcontract; cbn [or_blocked];
    [|apply retries_blocked_bind].
  apply retries_ret_bind. eapply retries_bind with (R := λ _, seen B (eq s)); [apply retries_never, never_block_if| |].
  { destruct (_ !=? _); [apply triple_throw|by apply triple_ret]. }
  intros []. eapply retries_bind; [apply retries_never, never_or_else|by apply (triple_reconcile ports uuid_fresh uuid_random limits older B s)|].
  intros []. eapply retries_pre with (P' := seen B (λ s1, reviewable candidate s1 ∧
    rr_task_contract (sn_request s1) = Some contract)).
  2:{ intros rt log [HP Hs]. split; [done|]. destruct Hs as [->|(_ & Hreq & Hcomp & Hpend & _)]; [done|].
      split; [split; [by destruct Hrev; congruence|by rewrite Hpend; apply Hrev]|congruence]. }
  apply retries_at. intros s1 [Hrev1 Hcontract1].
  eapply retries_bind; [apply retries_never, never_known|apply triple_known_failures|]. intros [].
  apply retries_look. cbv zeta.
  apply retries_last; [by apply (retries_satisfy_all contract)|].
  intros satisfied. repeat (apply never_bind; [|intros]);
    repeat case_match; eauto using never_or_else, never_ret, never_snapshot, never_lift_blocked, never_block_if.
Qed.
End retries.

(** ** What the steps leave of the state of the process *)

(** The events that no verification publishes. *)
Definition plain_event (ev : RuntimeEventKind) : bool :=
  match ev with
  | HostVerificationPrepared _ _ _ _ _ | HostVerificationStarted _ | HostVerificationCommitted _ _ _ _ => false
  | _ => true
  end.
Definition plain (ev : RuntimeEventKind) : Prop := plain_event ev = true.

Section frames.
Context `{Codecs} {St : Type} `{!RunPort St} `{!RunPortLaws St}.
Context (ports : RuntimePorts) (loop : LoopPorts) (tools : CallPorts) (verifiers : VerifierPort).
Abbreviation run := (M (LoopWorld St)).
Abbreviation world := (Rt (LoopWorld St)).
Abbreviation keeps := (emits (St := LoopWorld St) plain).
Implicit Types (rt : world).

Lemma keeps_idles {E A} (m : run E A) : emits waiting m → keeps m.
Proof.
  intros Hm rt log rt' r Hh Hr. destruct (Hm _ _ _ _ Hh Hr) as (? & Hmoves & ?).
  split_and!; [done| |done]. eapply moves_weaken; [|done]. intros ev. unfold waiting. by destruct ev.
Qed.
Lemma keeps_handle_control command : keeps (handle_control ports command).
Proof. apply keeps_idles, idles_handle_control. Qed.
Lemma keeps_reconcile : keeps (reconcile_workspace ports).
Proof. apply keeps_idles, idles_reconcile. Qed.
Lemma keeps_say {E} call : keeps (say (E := E) call).
Proof. apply emits_same. by intros ??? [= <- <-]. Qed.
Lemma keeps_world {E} : keeps (get_world (E := E)).
Proof. apply emits_same. by intros ??? [= <- <-]. Qed.
Lemma keeps_put_budget {E} budget : keeps (put_budget (E := E) budget).
Proof. apply emits_same. by intros ??? [= <- <-]. Qed.
Lemma keeps_take_permit : keeps take_permit.
Proof.
  apply emits_same. intros rt rt' r. unfold take_permit. rewrite M_bind_run. cbn.
  by destruct (reserve_model_request _); intros [= <- <-].
Qed.
Lemma keeps_take_terminal_permit : keeps take_terminal_permit.
Proof. apply emits_same. by intros ??? [= <- <-]. Qed.
Lemma keeps_drop_permit {E} : keeps (drop_permit (E := E)).
Proof. apply emits_same. by intros ??? [= <- <-]. Qed.
Lemma keeps_publish ev : plain ev → keeps (publish ports ev).
Proof. by apply emits_publish. Qed.
Lemma keeps_publish_permit ev : plain ev → keeps (publish_with_model_permit ports ev).
Proof.
  intros Hev rt log rt' r Hh Hr. apply publish_permit in Hr as (rt1 & Hr & Hrt').
  pose proof (keeps_publish ev Hev _ _ _ _ Hh Hr) as ((log' & Hpre & Hl & Hrun) & Hm & Hs).
  destruct r; [by subst; split_and!; [by exists log'|..]|].
  destruct Hrt' as [->| ->]; (split_and!; [exists log'; by split|done..]).
Qed.

#[local] Hint Resolve keeps_handle_control keeps_reconcile keeps_say keeps_world keeps_put_budget
  keeps_take_permit keeps_take_terminal_permit keeps_drop_permit keeps_publish
  keeps_publish_permit : keeps.
#[local] Hint Extern 1 (plain _) => reflexivity : keeps.
Ltac keeps := cbv zeta; emits; unfold raised, stop; emits; auto with keeps.

Lemma keeps_accounting {E} seal : keeps (cumulative_accounting (E := E) ports seal).
Proof. unfold cumulative_accounting. keeps. Qed.
Lemma keeps_wait_command command : keeps (wait_command ports command).
Proof. unfold wait_command. keeps. Qed.
Lemma keeps_timed_out deadline : keeps (timed_out (St := St) deadline).
Proof. unfold timed_out. keeps. Qed.
#[local] Hint Resolve keeps_accounting keeps_wait_command keeps_timed_out : keeps.
Lemma keeps_wait_until not_before deadline inputs : keeps (wait_until ports not_before deadline inputs).
Proof. induction inputs as [|[[]|command|] inputs IH]; cbn [wait_until]; keeps. Qed.
Lemma keeps_wait_for_model_retry deadline pending :
  keeps (wait_for_model_retry ports loop deadline pending).
Proof. unfold wait_for_model_retry. keeps. apply keeps_wait_until. Qed.
Lemma keeps_open_stream deadline inputs : keeps (open_stream ports deadline inputs).
Proof. induction inputs as [|[[]|command|] inputs IH]; cbn [open_stream]; keeps. Qed.
Lemma keeps_on_completed attempt_id s output : keeps (on_completed ports attempt_id s output).
Proof. unfold on_completed. keeps. Qed.
#[local] Hint Resolve keeps_on_completed : keeps.
Lemma keeps_on_model_event attempt_id s poll : keeps (on_model_event ports attempt_id s poll).
Proof. unfold on_model_event. keeps. Qed.
Lemma keeps_read_stream attempt_id deadline inputs s :
  keeps (read_stream ports attempt_id deadline inputs s).
Proof.
  revert s. induction inputs as [|[poll|command|] inputs IH]; intros s; cbn [read_stream]; keeps.
  apply keeps_on_model_event.
Qed.
#[local] Hint Resolve keeps_wait_for_model_retry keeps_open_stream keeps_read_stream : keeps.
Lemma keeps_execute_model_attempt attempt_id request deadline :
  keeps (execute_model_attempt ports loop attempt_id request deadline).
Proof. unfold execute_model_attempt. keeps. Qed.
Lemma keeps_commit_model_failure attempt_id error response retry permit :
  keeps (commit_model_failure ports attempt_id error response retry permit).
Proof. unfold commit_model_failure. keeps. Qed.
Lemma keeps_plan_model_failure request primary error response :
  keeps (plan_model_failure (St := St) ports request primary error response).
Proof. unfold plan_model_failure. keeps. Qed.
Lemma keeps_build_request request_number terminal_turn :
  keeps (build_request ports loop request_number terminal_turn).
Proof. unfold build_request, request_tools, compact_context, current_context. keeps. Qed.
Lemma keeps_publish_request built : keeps (publish_request ports built).
Proof. unfold publish_request. keeps. Qed.
Lemma keeps_prepare_request request_number : keeps (prepare_request ports loop request_number).
Proof.
  unfold prepare_request, admit_request. keeps.
  refine (emits_catch _ (build_request _ _ _ _) (λ _, _) (λ _, _) (keeps_build_request _ _) _ _);
    intros; keeps. apply keeps_publish_request.
Qed.
Lemma keeps_one_attempt deadline request_number primary prepared :
  keeps (one_attempt ports loop deadline request_number primary prepared).
Proof.
  unfold one_attempt, next_attempt. keeps; auto using keeps_prepare_request,
    keeps_execute_model_attempt, keeps_plan_model_failure, keeps_commit_model_failure.
Qed.
Lemma keeps_attempts fuel deadline request_number primary prepared :
  keeps (attempts ports loop fuel deadline request_number primary prepared).
Proof.
  revert primary prepared. induction fuel as [|fuel IH]; intros; cbn [attempts]; keeps.
  apply keeps_one_attempt.
Qed.
Lemma keeps_model_turn deadline prepared : keeps (model_turn ports loop deadline prepared).
Proof. unfold model_turn. keeps. apply keeps_attempts. Qed.

(** The review. *)
Lemma emits_accept candidate :
  emits (λ _, True) (accept_completion_candidate ports verifiers candidate).
Proof.
  assert (emits (St := LoopWorld St) (λ _, True) (reconcile_workspace ports)) as Hreconcile
    by (unfold reconcile_workspace, observe_workspace_state; keeps).
  assert (∀ call, emits (λ _, True) (say (E := Halt CompletionReviewError) call)) as Hsay
    by (intros call; apply emits_same; by intros ??? [= <- <-]).
  assert (∀ aid policy verifier, emits (λ _, True) (run_host_verifier ports verifiers candidate aid policy verifier))
    as Hrun.
  { intros. unfold run_host_verifier, prepare_verification, execute_verifier, reject_completion,
      publish_review, observe_workspace_state, block_if, or_blocked, blocked. keeps. }
  assert (∀ contract host acceptance,
    emits (λ _, True) (satisfy_all ports verifiers candidate contract host acceptance)) as Hall.
  { intros contract host acceptance. induction acceptance as [|a acceptance IH]; cbn [satisfy_all];
      unfold satisfy, or_blocked, blocked; keeps. }
  unfold accept_completion_candidate, reconcile_review, review_known_failures, block_if,
    or_blocked, blocked. keeps.
Qed.

(** *** Steps that also take up what was recovered *)

(** The recovered actions are only ever taken, and requests are only ever added. *)
Record later rt rt' : Prop := {
  la_request : sn_request (rt_snapshot rt') = sn_request (rt_snapshot rt);
  la_model : rs_recovery_model (rt_state rt') = rs_recovery_model (rt_state rt) ∨
             rs_recovery_model (rt_state rt') = None;
  la_tool : rs_recovery_tool (rt_state rt') = rs_recovery_tool (rt_state rt) ∨
            rs_recovery_tool (rt_state rt') = None;
  la_output : rs_recovery_output (rt_state rt') = rs_recovery_output (rt_state rt) ∨
              rs_recovery_output (rt_state rt') = None;
  la_verification : sn_pending_host_verification (rt_snapshot rt') =
                    sn_pending_host_verification (rt_snapshot rt);
  la_requests : sn_runtime_model_requests (rt_snapshot rt) ≤ U32_MAX →
    sn_runtime_model_requests (rt_snapshot rt) ≤ sn_runtime_model_requests (rt_snapshot rt') ∧
    sn_runtime_model_requests (rt_snapshot rt') ≤ U32_MAX;
}.
Lemma later_refl rt : later rt rt.
Proof. split; auto. Qed.
Lemma later_trans rt1 rt2 rt3 : later rt1 rt2 → later rt2 rt3 → later rt1 rt3.
Proof.
  intros [Hq Hm Ht Ho Hv Hr] [Hq' Hm' Ht' Ho' Hv' Hr']. split.
  - by rewrite Hq'.
  - destruct Hm' as [->| ->]; auto.
  - destruct Ht' as [->| ->]; auto.
  - destruct Ho' as [->| ->]; auto.
  - by rewrite Hv'.
  - intros Hle. destruct (Hr Hle) as [? Hle']. destruct (Hr' Hle'). lia.
Qed.

Lemma dispatch_more_requests s run_id n ev s' :
  dispatch s run_id n ev = Ok s' → sn_runtime_model_requests s ≤ U32_MAX →
  sn_runtime_model_requests s ≤ sn_runtime_model_requests s' ∧ sn_runtime_model_requests s' ≤ U32_MAX.
Proof.
  intros Hd Hle. pose proof (dispatch_requests _ _ _ _ _ Hd) as Hr.
  destruct ev; cbn in Hr; try (rewrite Hr; unfold saturating_add; lia);
    try (rewrite Hr; destruct retry; unfold saturating_add; lia).
  cbn [dispatch] in Hd. unfold on_child_finished in Hd. inv_run. subst. cbn. unfold saturating_add. lia.
Qed.
Lemma moves_more_requests C s s' :
  moves C s s' → sn_runtime_model_requests s ≤ U32_MAX →
  sn_runtime_model_requests s ≤ sn_runtime_model_requests s' ∧ sn_runtime_model_requests s' ≤ U32_MAX.
Proof.
  intros Hm Hle. apply (moves_keep C (λ s', sn_runtime_model_requests s ≤ sn_runtime_model_requests s' ∧
    sn_runtime_model_requests s' ≤ U32_MAX)) in Hm; [done| |done].
  intros s1 r n ev s2 _ Hd [Hlo Hhi]. cbn. destruct (dispatch_more_requests _ _ _ _ _ Hd Hhi). lia.
Qed.

Lemma moves_verification s s' :
  moves plain s s' → sn_pending_host_verification s' = sn_pending_host_verification s.
Proof.
  intros Hm. apply (moves_keep _ (λ s1, sn_pending_host_verification s1 = sn_pending_host_verification s)) in Hm;
    [done| |done].
  intros s1 r n ev s2 Hev Hd <-. apply dispatch_verification in Hd. by destruct ev.
Qed.

(** In a run of the request [q], [m] only publishes, and takes up what was recovered. *)
Context (q : RunRequest).
Definition advances {E A} (m : run E A) : Prop := ∀ rt log rt' r,
  holds rt log → sn_request (rt_snapshot rt) = q → m rt = (rt', r) →
  (∃ log', holds rt' log') ∧ later rt rt'.

Lemma advances_keeps {E A} (m : run E A) : keeps m → advances m.
Proof.
  intros Hm rt log rt' r Hh _ Hr. destruct (Hm _ _ _ _ Hh Hr) as ((log' & _ & Hh') & Hmoves & Hs).
  split; [by exists log'|]. split; [by eapply moves_request|by left; rewrite Hs..| |]; [by apply moves_verification|]. by apply (moves_more_requests _ _ _ Hmoves).
Qed.
Lemma advances_bind {E A B} (m : run E A) (f : A → run E B) :
  advances m → (∀ a, advances (f a)) → advances (m ≫= f).
Proof.
  intros Hm Hf rt log rt2 r Hh Hq. rewrite M_bind_run. destruct (m rt) as [rt1 [a|e]] eqn:Hr.
  - destruct (Hm _ _ _ _ Hh Hq Hr) as ((log1 & Hh1) & Hl1). intros Hr2.
    destruct (Hf _ _ _ _ _ Hh1 ltac:(by rewrite (la_request _ _ Hl1)) Hr2) as (? & Hl2).
    split; [done|]. by eapply later_trans.
  - intros [= <- <-]. by eapply Hm.
Qed.
Lemma advances_or_else {E F A} (f : E → F) (m : run E A) : advances m → advances (or_else f m).
Proof.
  intros Hm rt log rt' r Hh Hq. unfold or_else. destruct (m rt) as [rt1 r1] eqn:Hr. intros [= <- <-].
  by eapply Hm.
Qed.
Lemma advances_local {E A} (m : run E A) :
  (∀ rt rt' r, m rt = (rt', r) → rt_store rt' = rt_store rt ∧ rs_lease (rt_state rt') = rs_lease (rt_state rt) ∧
     rt_snapshot rt' = rt_snapshot rt ∧ later rt rt') → advances m.
Proof.
  intros Hm rt log rt' r [Hl Hrun] _ Hr. destruct (Hm _ _ _ Hr) as (Hst & Hle & Hsn & Hla). split; [|done].
  exists log. split; rewrite Hle; [by rewrite Hst|]. unfold state_run_id in *.
  fold (rt_snapshot rt'). by rewrite Hsn.
Qed.

Lemma advances_set_recovery_tool : advances (set_recovery_tool (St := St) None).
Proof. apply advances_local. intros ??? [= <- <-]. split_and!; try done. split; cbn; auto. Qed.
Lemma advances_forget_model : advances (forget_recovery_model (St := St)).
Proof. apply advances_local. intros ??? [= <- <-]. split_and!; try done. split; cbn; auto. Qed.
Lemma advances_forget_output : advances (forget_recovery_output (St := St)).
Proof. apply advances_local. intros ??? [= <- <-]. split_and!; try done. split; cbn; auto. Qed.
Lemma advances_forget_failure : advances (forget_recovery_failure (St := St)).
Proof. apply advances_local. intros ??? [= <- <-]. split_and!; try done. split; cbn; auto. Qed.

Lemma keeps_await_execution access deadline inputs : keeps (await_execution ports access deadline inputs).
Proof.
  induction inputs as [|[[]|command|] inputs IH]; cbn [await_execution]; unfold terminal_halt, map_halt; keeps.
Qed.
Lemma keeps_run_tool call op started persisted grant invocation access deadline :
  keeps (run_tool ports tools call op started persisted grant invocation access deadline).
Proof.
  unfold run_tool. emits; auto using keeps_idles, idles_authorize_call, idles_approve, idles_recheck,
    keeps_await_execution.
  unfold start_tool, publish_call. keeps.
Qed.
Lemma keeps_ask_user request op deadline : keeps (ask_user ports tools request op deadline).
Proof. unfold ask_user. keeps. apply keeps_idles, idles_wait_for_interaction. Qed.
Lemma keeps_settle_call op call outcome terminal : keeps (settle_call ports op call outcome terminal).
Proof. unfold settle_call, commit_tool_outcome, publish_call, observe_workspace_state. keeps. Qed.

(** A call, where the depth limit refuses what would launch a child. *)
Context (delegation : Delegation St).
Lemma advances_execute_call call advertised deadline :
  (mtc_name call = AGENT_TOOL_NAME → lim_max_depth (rr_limits q) ≤ actor_depth (rr_actor q)) →
  advances (execute_call ports tools delegation call advertised deadline).
Proof.
  intros Hdepth. unfold execute_call. apply advances_bind; [apply advances_keeps, emits_get_state|].
  intros state. cbv zeta. destruct (for_request _); [|apply advances_keeps; keeps].
  apply advances_bind.
  { unfold claim_operation. apply advances_bind; [apply advances_keeps, emits_get_state|]. intros state'.
    destruct (rs_recovery_tool state').
    - destruct (_ ==? _); [|apply advances_keeps; keeps].
      apply advances_bind; [apply advances_set_recovery_tool|]. intros. apply advances_keeps. keeps.
    - apply advances_keeps. unfold publish_call. keeps. }
  intros [[op started] persisted]. apply advances_bind.
  - destruct (refuse_call _ _ _ _ _ _ _); [apply advances_keeps; keeps|].
    unfold dispatch_call. destruct (rte_invocation _); [|apply advances_keeps; keeps].
    destruct (mtc_name call ==? AGENT_TOOL_NAME) eqn:Hagent.
    + case_match; [|apply advances_keeps; keeps]. case_match; [|apply advances_keeps; keeps].
      case_match; [|apply advances_keeps; keeps]. bprop.
      intros rt log rt2 res Hh Hq. unfold run_agent_tool, launch_child. rewrite M_bind_run. cbn -[N.leb].
      fold (rt_snapshot rt). rewrite Hq, (proj2 (N.leb_le _ _) (Hdepth Hagent)). intros [= <- <-].
      split; [by exists log|apply later_refl].
    + apply advances_keeps. destruct (mtc_name call ==? REQUEST_USER_INPUT_TOOL_NAME); keeps;
        auto using keeps_ask_user, keeps_run_tool.
  - intros [outcome terminal|outcome]; apply advances_keeps; [apply keeps_settle_call|].
    unfold commit_tool_outcome, publish_call. keeps.
Qed.
End frames.

(** ** The loop *)

Section run.
Context `{Codecs} {St : Type} `{!RunPort St} `{!RunPortLaws St}.
Context (ports : RuntimePorts) (loop : LoopPorts) (tools : CallPorts) (verifiers : VerifierPort).
Context (delegation : Delegation St) (waits : nat → list ControlCommand).
Context (uuid_fresh : ∀ n m, rp_uuid ports n = rp_uuid ports m → n = m).
Context (uuid_random : ∀ n, rp_uuid ports n ≠ RuntimeEventId_terminal).
Context (limits : RunLimits) (older : list (N * Action)) (q : RunRequest).
(** The run has no children, and launches none. *)
Context (childless : ∀ rt, dg_pending_children delegation rt = false).
Context (leaf : lim_max_depth (rr_limits q) ≤ actor_depth (rr_actor q)).
Context (limits_u32 : lim_max_model_requests limits ≤ U32_MAX).
Abbreviation run := (M (LoopWorld St)).
Abbreviation step := (run (Halt TerminalState)).
Abbreviation world := (Rt (LoopWorld St)).
Abbreviation runlog := (list StoredRuntimeEvent).
Abbreviation triple := (triple ports limits older).
Abbreviation quietly := (quietly ports limits older).
Abbreviation safe := (safe ports limits older).
Abbreviation durable := (durable limits older).
Abbreviation going := (going limits q).
Abbreviation keeps := (emits (St := LoopWorld St) plain).
Implicit Types (rt : world) (log : runlog).

(** How many turns are left: the requests of the budget, and what is still to be taken up. *)
Definition measure rt : N :=
  (lim_max_model_requests limits - sn_runtime_model_requests (rt_snapshot rt))
  + (if rs_recovery_output (rt_state rt) then 1 else 0)
  + (if rs_recovery_model (rt_state rt) then 1 else 0).

(** What holds of the process between the steps of the loop. *)
Definition calm s : Prop :=
  ∀ p, sn_pending_host_verification s = Some p → phv_state p = Prepared.
Record looping (n : N) rt log : Prop := {
  lo_going : going rt log;
  lo_tool : rs_recovery_tool (rt_state rt) = None;
  lo_model : ∀ p, rs_recovery_model (rt_state rt) = Some p → sn_pending_model (rt_snapshot rt) = Some p;
  lo_calm : calm (rt_snapshot rt);
  lo_measure : measure rt ≤ n;
}.

Lemma later_measure rt rt' log : going rt log → later rt rt' → measure rt' ≤ measure rt.
Proof.
  intros [_ [Hr Hle]] [_ Hm _ Ho _ Hreq]. destruct (Hreq ltac:(lia)) as [Hmono _]. unfold measure.
  destruct Hm as [->| ->], Ho as [->| ->]; repeat case_match; lia.
Qed.

(** A step that no attempt takes. *)
Lemma triple_looping {E A} n (m : run E A) :
  quietly m → keeps m → triple (looping n) m (λ _, looping n).
Proof.
  intros Hq Hk rt log rt' r Hs [Hg Ht Hm Hc Hn] Hr.
  destruct (Hq (λ rt' log', going rt' log' ∧
    sn_pending_model (rt_snapshot rt') = sn_pending_model (rt_snapshot rt))) with rt log rt' r
    as (log' & ? & ? & Hok); try done.
  { apply steady_and; [apply steady_going|apply steady_snapshot_pending]. }
  exists log'. split_and!; [done..|]. destruct r; [|done]. destruct Hok as (? & Hg' & Hpend).
  split; [done|].
  pose proof (live_log _ _ _ (sf_live _ _ _ _ _ Hs)) as Hh.
  destruct (Hk _ _ _ _ Hh Hr) as (_ & _ & Hst).
  pose proof (advances_keeps q m Hk _ _ _ _ Hh (proj1 Hg) Hr) as [_ Hl].
  split; [done|by rewrite Hst| | |].
  - intros p. rewrite Hst. cbn. rewrite Hpend. apply Hm.
  - intros p. rewrite (la_verification _ _ Hl). apply Hc.
  - pose proof (later_measure _ _ _ Hg Hl). lia.
Qed.

Lemma triple_over {A} P terminal (Q : A → world → runlog → Prop) : triple P (over terminal) Q.
Proof. apply triple_throw. Qed.
Lemma settled_eq {A} terminal rt :
  settled (A := A) delegation terminal rt = (rt, Err (Raised terminal)).
Proof. unfold settled, settled_terminal. rewrite M_bind_run, childless. done. Qed.
Lemma triple_settled {A} P terminal (Q : A → world → runlog → Prop) :
  triple P (settled delegation terminal) Q.
Proof.
  intros rt log rt' r Hs HP. rewrite settled_eq. intros [= <- <-].
  exists log. split_and!; [done|by apply safe_durable in Hs|done].
Qed.
Lemma triple_settling {A} P (m : step A) Q : triple P m Q → triple P (settling delegation m) Q.
Proof.
  intros Hm rt log rt' r Hs HP. unfold settling. destruct (m rt) as [rt1 [a|[terminal|]]] eqn:Hr;
    rewrite ?settled_eq; intros [= <- <-]; destruct (Hm _ _ _ _ Hs HP Hr) as (log' & ? & ? & ?); by exists log'.
Qed.
Lemma triple_failing {A} P (m : run (Halt RuntimeFailure) A) Q : triple P m Q → triple P (failing m) Q.
Proof. apply triple_or_else. Qed.

(** Steps that only take up what was recovered. *)
Lemma triple_forget {A} n n' (m : step A) :
  (∀ rt rt' r, m rt = (rt', r) → rt_store rt' = rt_store rt ∧ rt_tick rt' = rt_tick rt ∧
     rt_snapshot rt' = rt_snapshot rt ∧ rs_lease (rt_state rt') = rs_lease (rt_state rt) ∧ later rt rt' ∧
     (measure rt ≤ n → measure rt' ≤ n')) →
  triple (looping n) m (λ _, looping n').
Proof.
  intros Hm rt log rt' r Hs [Hg Ht Hmodel Hc Hn] Hr.
  destruct (Hm _ _ _ Hr) as (Hst & Htick & Hsn & Hle & Hl & Hmeasure).
  destruct (quietly_local ports limits older m) with (λ rt' (_ : runlog), going rt' log) rt log rt' r
    as (log' & ? & ? & Hok); try done.
  { intros rt0 rt0' r0 Hr0. destruct (Hm _ _ _ Hr0) as (-> & -> & -> & -> & _). by split_and!. }
  { intros rt0 log0 rt0' log0' Hq0 Hg0. by apply (steady_going limits q rt0 log0 rt0' log0'). }
  exists log'. split_and!; [done..|]. destruct r; [|done]. destruct Hok as [? Hg'].
  split; [done|]. split; [done| | |by rewrite Hsn|auto].
  - destruct (la_tool _ _ Hl) as [->| ->]; done.
  - intros p. rewrite Hsn. destruct (la_model _ _ Hl) as [->| ->]; [apply Hmodel|done].
Qed.

Lemma triple_forget_output n : triple (looping n) forget_recovery_output (λ _, looping n).
Proof.
  apply triple_forget. intros rt rt' r [= <- <-]. split_and!; try done; [split; cbn; auto|].
  unfold measure, rt_snapshot. cbn. repeat case_match; lia.
Qed.
Lemma triple_forget_failure n : triple (looping n) forget_recovery_failure (λ _, looping n).
Proof.
  apply triple_forget. intros rt rt' r [= <- <-]. split_and!; try done. split; cbn; auto.
Qed.

Lemma keeps_drain commands : keeps (drain_controls ports commands).
Proof.
  induction commands as [|command commands IH]; cbn [drain_controls]; emits; try done.
  apply keeps_handle_control.
Qed.
Lemma keeps_flush : keeps (flush_pending_steers ports).
Proof.
  unfold flush_pending_steers. emits. generalize (length (sn_pending_steers a)). intros k.
  induction k as [|k IH]; cbn [flush_steers]; unfold raised, stop; emits; done.
Qed.
Lemma triple_drain n : triple (looping n) (drain_waiting ports waits) (λ _, looping n).
Proof.
  apply triple_looping; unfold drain_waiting.
  - apply quietly_bind; [apply quietly_next_tick|]. intros. by apply quietly_drain_controls.
  - apply emits_bind; [apply emits_next_tick|]. intros. apply keeps_drain.
Qed.
Lemma triple_flush n : triple (looping n) (failing (flush_pending_steers ports)) (λ _, looping n).
Proof. apply triple_failing, triple_looping; [by apply quietly_flush_pending_steers|apply keeps_flush]. Qed.
Lemma triple_reconcile_boundary n : triple (looping n) (boundary_reconcile ports) (λ _, looping n).
Proof. apply triple_or_else, triple_looping; [by apply quietly_reconcile|apply keeps_reconcile]. Qed.
Lemma triple_snapshot {E} n : triple (looping n) (get_snapshot : run E _) (λ _, looping n).
Proof. apply triple_looping; [apply quietly_get_snapshot|apply emits_get_snapshot]. Qed.
Lemma triple_state {E} n : triple (looping n) (get_state : run E _) (λ _, looping n).
Proof. apply triple_looping; [apply quietly_get_state|apply emits_get_state]. Qed.
Lemma triple_tick {E} n : triple (looping n) (next_tick : run E _) (λ _, looping n).
Proof. apply triple_looping; [apply quietly_next_tick|apply emits_next_tick]. Qed.
Lemma triple_publish_looping n ev :
  quiet_event ev = true → event_action ev = None → plain ev →
  triple (looping n) (failing (raised (publish ports ev))) (λ _, looping n).
Proof.
  intros Hq Ha Hp. apply triple_failing, triple_or_else, triple_looping; [by apply quietly_publish|].
  by apply emits_publish.
Qed.
Lemma triple_require_transition n rejection :
  triple (looping n) (require_transition rejection) (λ _, looping n).
Proof.
  unfold require_transition. eapply triple_bind; [apply triple_get_world|]. intros w.
  destruct (_ || _); [apply triple_throw|]. apply triple_ret. by intros rt log [].
Qed.

(** *** Reviews *)

Definition reviewing n candidate rt log : Prop :=
  looping n rt log ∧ reviewable candidate (rt_snapshot rt).

Lemma triple_review_candidate n candidate :
  triple (reviewing n candidate) (review_candidate ports verifiers candidate) (λ _, looping n).
Proof.
  intros rt log rt' r Hs [Hlo Hrev]. unfold review_candidate.
  destruct (accept_completion_candidate ports verifiers candidate rt) as [rt1 res] eqn:Hr.
  set (B := λ rt' (_ : runlog), going rt' log ∧
    sn_pending_model (rt_snapshot rt') = sn_pending_model (rt_snapshot rt)).
  assert (steady B) as HB.
  { intros rt0 log0 rt0' log0' Hq [Hg Hp]. split; [by apply (steady_going limits q rt0 log0 rt0' log0')|].
    by rewrite (qu_pending _ _ _ _ Hq). }
  assert (B rt log) as Hb by (split; [apply Hlo|done]).
  destruct (triple_accept ports verifiers uuid_fresh uuid_random limits older False (λ _ _, True) candidate
    (steady_pure True) _ _ _ _ Hs (conj I (conj Hrev (False_ind _))) Hr) as (log1 & Hpre & Hd & _).
  destruct res as [[message decision]|[[reason|reason]|]]; try (intros [= <- <-]; by exists log1).
  destruct (has_unreserved_model_request _); intros [= <- <-]; [|by exists log1].
  destruct (retries_accept ports verifiers uuid_fresh uuid_random limits older candidate B HB
    _ _ _ _ Hs (conj Hb Hrev) Hr) as (log2 & Hpre2 & Hs2 & [Hg2 Hp2] & Hv2).
  exists log2. split; [done|]. split; [by apply safe_durable in Hs2|]. split; [done|].
  destruct Hlo as [Hg Ht Hm Hc Hn]. pose proof (live_log _ _ _ (sf_live _ _ _ _ _ Hs)) as Hh.
  pose proof (emits_accept ports verifiers candidate _ _ _ _ Hh Hr) as (_ & Hmoves & Hst).
  destruct Hg as [Hq [Hheld Hle]]. apply moves_more_requests in Hmoves as [Hmore _]; [|lia].
  split; [done|by rewrite Hst| | |].
  - intros p. rewrite Hst. cbn. rewrite Hp2. apply Hm.
  - intros p. by rewrite Hv2.
  - revert Hn. unfold measure. rewrite Hst. cbn. repeat case_match; lia.
Qed.

Lemma dispatch_reviewable candidate s run_id n ev s' :
  waiting ev → dispatch s run_id n ev = Ok s' → reviewable candidate s →
  reviewable candidate (s' <| sn_last_sequence := n |>).
Proof.
  intros Hw Hd [Hc Hv]. pose proof (dispatch_verification _ _ _ _ _ Hd) as Hver.
  split; cbn.
  - rewrite <- Hc. clear Hver Hv Hc. step_cases ev Hd; try discriminate Hw; same_field.
  - destruct ev; try discriminate Hw; by rewrite Hver.
Qed.

Lemma idles_drain commands : emits (St := LoopWorld St) waiting (drain_controls ports commands).
Proof.
  induction commands as [|command commands IH]; cbn [drain_controls]; emits; try done.
  apply idles_handle_control.
Qed.
Lemma triple_reviewing_drain n candidate :
  triple (reviewing n candidate) (drain_waiting ports waits) (λ _, reviewing n candidate).
Proof.
  intros rt log rt' r Hs [Hlo Hrev] Hr.
  destruct (triple_drain n _ _ _ _ Hs Hlo Hr) as (log' & ? & ? & Hok). exists log'. split_and!; [done..|].
  destruct r; [|done]. destruct Hok. split; [done|]. split; [done|].
  pose proof (live_log _ _ _ (sf_live _ _ _ _ _ Hs)) as Hh.
  assert (emits (St := LoopWorld St) waiting (drain_waiting ports waits)) as He
    by (apply emits_bind; [apply emits_next_tick|intros; apply idles_drain]).
  destruct (He _ _ _ _ Hh Hr) as (_ & Hm & _).
  eapply (moves_keep _ (reviewable candidate)); [|exact Hm|done].
  intros s1 run_id k ev s2 Hw Hd. by eapply dispatch_reviewable.
Qed.
Lemma triple_reviewing_snapshot {E} n candidate :
  triple (reviewing n candidate) (get_snapshot : run E _) (λ _, reviewing n candidate).
Proof. eapply triple_conseq; [apply triple_get_snapshot|done|by intros ??? []]. Qed.

Lemma triple_await_acceptance n candidate :
  triple (reviewing n candidate) (await_acceptance ports delegation waits candidate)
    (λ _, reviewing n candidate).
Proof.
  unfold await_acceptance. eapply triple_bind; [apply triple_reviewing_snapshot|]. intros s.
  destruct (_ && _); [|by apply triple_ret].
  eapply triple_bind; [apply triple_failing, triple_reviewing_drain|]. intros [terminal|]; [apply triple_settled|].
  eapply triple_bind; [apply triple_reviewing_snapshot|]. intros s'.
  destruct (is_none _); [apply triple_over|by apply triple_ret].
Qed.

Lemma triple_resume_candidate n candidate :
  triple (reviewing n candidate) (resume_candidate ports verifiers delegation waits candidate)
    (λ _, looping n).
Proof.
  unfold resume_candidate. eapply triple_bind; [apply triple_reviewing_snapshot|]. intros s.
  destruct (recovered_rejection s candidate) as [rejection|].
  - eapply triple_bind; [eapply triple_pre; [by apply triple_publish_looping|by intros ?? []]|]. intros e.
    eapply triple_bind; [apply triple_forget_output|]. intros []. apply triple_require_transition.
  - eapply triple_bind; [apply triple_await_acceptance|]. intros []. apply triple_review_candidate.
Qed.

Lemma triple_skip_consumed n : triple (looping n) skip_consumed_response (λ _, looping n).
Proof.
  unfold skip_consumed_response. eapply triple_bind; [apply triple_state|]. intros state.
  destruct (consumed_rejection state); [|by apply triple_ret].
  eapply triple_bind; [apply triple_forget_output|]. intros []. apply triple_require_transition.
Qed.

Lemma unambiguous_calm state : recovery_ambiguity state = None → calm (rs_snapshot state).
Proof.
  unfold recovery_ambiguity, verifier_ambiguity. intros Hn p Hp. rewrite Hp in Hn.
  destruct (model_ambiguity state); [done|]. destruct (tool_ambiguity state); [done|]. cbn in Hn.
  destruct (phv_state p); [done|]. by rewrite bool_decide_true in Hn.
Qed.

(** A process that takes up a run may find a verification under way: it goes no further. *)
Lemma triple_resume n :
  triple (λ rt log, calm (rt_snapshot rt) → looping n rt log)
    (resume ports verifiers delegation waits) (λ _, looping n).
Proof.
  unfold resume. apply triple_raw. intros rt0 log0.
  eapply triple_bind; [apply triple_get_state|]. intros state.
  destruct (recovery_ambiguity state) eqn:Ha; [apply triple_over|]. apply unambiguous_calm in Ha.
  apply triple_pre with (P' := λ rt log, looping n rt log ∧ rt_state rt = state).
  2:{ intros rt log [[Hlo _] ->]. split; [by apply Hlo|done]. }
  destruct (sn_pending_control _); [apply triple_settled|].
  destruct (rs_recovery_failure state).
  { eapply triple_bind; [eapply triple_pre; [apply triple_forget_failure|by intros ?? []]|].
    intros []. apply triple_over. }
  eapply triple_bind with (R := λ _, looping n); [|intros []; apply triple_skip_consumed].
  destruct (sn_pending_completion (rs_snapshot state)) as [candidate|] eqn:Hc.
  - eapply triple_pre; [apply triple_resume_candidate|].
    intros rt log [Hlo Hst]. split; [done|]. unfold rt_snapshot. by rewrite Hst.
  - apply triple_ret. by intros rt log [].
Qed.

(** *** A turn *)

Lemma triple_open_boundary n deadline :
  triple (looping n) (open_boundary ports delegation waits deadline) (λ _, looping n).
Proof.
  unfold open_boundary. eapply triple_bind; [apply triple_settling, triple_failing, triple_drain|].
  intros drained. eapply triple_bind with (R := λ _, looping n).
  { destruct drained; [apply triple_settled|by apply triple_ret]. }
  intros []. eapply triple_bind; [apply triple_tick|]. intros tick.
  eapply triple_bind; [apply triple_state|]. intros state.
  eapply triple_bind with (R := λ _, looping n).
  { destruct (deadline_expired _ _); [apply triple_settled|by apply triple_ret]. }
  intros []. destruct (safe_fresh_boundary state); [|by apply triple_ret].
  eapply triple_bind with (R := λ _, looping n); [|intros []; apply triple_reconcile_boundary].
  destruct (negb _); [apply triple_flush|by apply triple_ret].
Qed.

(** The request of a new turn is counted. *)
Lemma publish_request_counts built rt log rt' x :
  holds rt log → sn_runtime_model_requests (rt_snapshot rt) < U32_MAX →
  publish_request ports built rt = (rt', Ok (inr x)) →
  sn_runtime_model_requests (rt_snapshot rt) < sn_runtime_model_requests (rt_snapshot rt').
Proof.
  intros Hh Hlt. destruct built as [terminal|request]; cbn [publish_request].
  { rewrite M_bind_run. by destruct (drop_permit rt) as [? []]. }
  rewrite M_bind_run. cbn -[publish_with_model_permit]. unfold raised, or_else. rewrite M_bind_run.
  set (rt1 := rt <| rt_tick := _ |>).
  destruct (publish_with_model_permit _ _ rt1) as [rt2 [e|failure]] eqn:Hp; [|done].
  intros [= <- _]. apply publish_permit in Hp as (rt3 & Hp & ->).
  assert (holds rt1 log) as Hh1 by (by destruct Hh).
  apply (publish_holds _ _ _ log) in Hp as (_ & _ & log' & _ & _ & _ & He & Happ); [|done].
  apply run_step_inv in Happ as (r & s1 & _ & Hd & Hs1). rewrite He in Hd.
  pose proof (dispatch_requests _ _ _ _ _ Hd) as Hr. cbn in Hr. rewrite Hs1. cbn. rewrite Hr.
  change (rt_snapshot rt1) with (rt_snapshot rt). unfold saturating_add. lia.
Qed.

Lemma prepare_request_counts request_number rt log rt' x :
  safe rt log → going rt log → prepare_request ports loop request_number rt = (rt', Ok (inr x)) →
  sn_runtime_model_requests (rt_snapshot rt) < sn_runtime_model_requests (rt_snapshot rt').
Proof.
  intros Hs [_ Hh]. unfold prepare_request. rewrite M_bind_run. set (c := sn_runtime_model_requests (rt_snapshot rt)).
  destruct (admit_request request_number rt) as [rt1 [[permit terminal_turn]|e]] eqn:Ha; [|done].
  eapply (triple_admit_request ports limits older limits_u32 (λ s, sn_runtime_model_requests s = c))
    in Ha as (log1 & _ & _ & Hs1 & Hc1 & Hh1); try done. cbn [fst] in Hh1.
  destruct permit; cbn [negb]; [|done].
  destruct (build_request ports loop request_number terminal_turn rt1) as [rt2 [built|e]] eqn:Hb; [|done].
  set (P := λ rt (_ : runlog), sn_runtime_model_requests (rt_snapshot rt) = c ∧ held limits 1 rt).
  assert (steady P) as HP.
  { intros rt3 log3 rt3' log3' Hq [Hc Hh3]. split; [by rewrite (qu_requests _ _ _ _ Hq)|].
    by apply (steady_held limits 1 rt3 log3 rt3' log3'). }
  eapply (quietly_build_request ports loop uuid_fresh uuid_random limits older _ _ P HP)
    in Hb as (log2 & _ & _ & Hs2 & Hc2 & [Hheld Hle]); try done.
  intros Hp. rewrite <- Hc2. eapply publish_request_counts; [|lia|exact Hp].
  by eapply live_log, sf_live.
Qed.

Lemma one_attempt_counts deadline request_number primary rt log rt' next :
  safe rt log → going rt log →
  one_attempt ports loop deadline request_number primary None rt = (rt', Ok next) →
  (∃ terminal, next = inl (TurnTerminal terminal)) ∨
  sn_runtime_model_requests (rt_snapshot rt) < sn_runtime_model_requests (rt_snapshot rt').
Proof.
  intros Hs Hg. unfold one_attempt. rewrite M_bind_run. cbn [next_attempt].
  destruct (prepare_request _ _ _ rt) as [rt1 [[terminal|[attempt_id request]]|e]] eqn:Hp;
    [intros [= _ <-]; left; by eexists| |done].
  intros Hr. right. pose proof (prepare_request_counts _ _ _ _ _ Hs Hg Hp) as Hc.
  pose proof (live_log _ _ _ (sf_live _ _ _ _ _ Hs)) as Hh.
  destruct (keeps_prepare_request _ _ _ _ _ _ _ Hh Hp) as ((log1 & _ & Hh1) & Hm & _).
  destruct Hg as [_ [Hheld Hle]]. apply moves_more_requests in Hm as [_ Hm]; [|lia].
  match type of Hr with ?m rt1 = _ => assert (keeps m) as Hk end.
  { emits; auto using keeps_execute_model_attempt, keeps_plan_model_failure, keeps_commit_model_failure. }
  destruct (Hk _ _ _ _ Hh1 Hr) as (_ & Hm1 & _). apply moves_more_requests in Hm1 as [? _]; lia.
Qed.

(** A new turn that gives an output has taken a request of the budget. *)
Lemma new_turn_counts deadline rt log rt' output :
  safe rt log → going rt log → model_turn ports loop deadline None rt = (rt', Ok (TurnOutput output)) →
  sn_runtime_model_requests (rt_snapshot rt) < sn_runtime_model_requests (rt_snapshot rt').
Proof.
  intros Hs Hg. unfold model_turn. rewrite M_bind_run. cbn -[attempts attempts_fuel].
  unfold attempts_fuel. cbn [attempts]. rewrite M_bind_run.
  destruct (one_attempt _ _ _ _ _ _ rt) as [rt1 [next|e]] eqn:Hone; [|done].
  pose proof (live_log _ _ _ (sf_live _ _ _ _ _ Hs)) as Hh.
  destruct (keeps_one_attempt _ _ _ _ _ _ _ _ _ _ Hh Hone) as ((log1 & _ & Hh1) & Hm & _).
  eapply one_attempt_counts in Hone as [[terminal ->]|Hc]; [done| |done..].
  destruct Hg as [_ [Hheld Hle]]. apply moves_more_requests in Hm as [_ Hm]; [|lia].
  destruct next as [control|[primary pending]]; [by intros [= <- _]|]. intros Hr.
  apply (keeps_attempts _ _ _ _ _ _ _ _ _ _ _ Hh1) in Hr as (_ & Hm1 & _).
  apply moves_more_requests in Hm1 as [? _]; lia.
Qed.

Lemma triple_model_turn n deadline prepared :
  triple (λ rt log, looping n rt log ∧ continues prepared rt ∧ rs_recovery_model (rt_state rt) = None)
    (model_turn ports loop deadline prepared)
    (λ control rt log, looping n rt log ∧
       match control, prepared with TurnOutput _, None => measure rt + 1 ≤ n | _, _ => True end).
Proof.
  intros rt log rt' r Hs ([Hg Ht Hm Hc Hn] & Hcont & Hnone) Hr.
  pose proof (live_log _ _ _ (sf_live _ _ _ _ _ Hs)) as Hh.
  destruct (keeps_model_turn ports loop deadline prepared _ _ _ _ Hh Hr) as (_ & _ & Hst).
  pose proof (advances_keeps q _ (keeps_model_turn ports loop deadline prepared) _ _ _ _ Hh (proj1 Hg) Hr)
    as [_ Hl].
  pose proof Hr as Hr'. unfold model_turn in Hr'. rewrite M_bind_run in Hr'.
  eapply (triple_attempts ports loop uuid_fresh uuid_random limits older limits_u32 q) in Hr'
    as (log' & Hlog & Hd & Hok); try done.
  exists log'. split_and!; [done..|]. destruct r as [control|]; [|done]. destruct Hok as [Hs' Hg'].
  pose proof (later_measure _ _ _ Hg Hl) as Hmeasure.
  split; [done|]. split; [split; [done|by rewrite Hst| | |lia]|].
  - intros p. rewrite Hst. cbn. by rewrite Hnone.
  - intros p. rewrite (la_verification _ _ Hl). apply Hc.
  - destruct control as [output|], prepared; try done.
    apply (new_turn_counts _ _ log) in Hr; [|done..]. destruct Hg as [_ [Hheld Hle]].
    destruct Hg' as [_ [Hheld' Hle']].
    revert Hn. unfold measure. rewrite Hst. cbn. rewrite Hnone. repeat case_match; lia.
Qed.

Lemma triple_take_turn n deadline :
  triple (looping n) (take_turn ports loop delegation deadline)
    (λ control rt log, looping n rt log ∧
       match control with TurnOutput _ => measure rt + 1 ≤ n | _ => True end).
Proof.
  unfold take_turn. apply triple_raw. intros rt0 log0.
  eapply triple_bind; [apply triple_get_state|]. intros state.
  apply triple_pre with (P' := λ rt log, looping n rt log ∧ rt_state rt = state).
  2:{ intros rt log [[Hlo _] ->]. done. }
  destruct (rs_recovery_output state) as [output|] eqn:Ho.
  { intros rt log rt' r Hs [Hlo Hst] Hr. rewrite M_bind_run in Hr. cbn in Hr. injection Hr as <- <-.
    destruct (triple_forget_output n rt log _ _ Hs Hlo eq_refl) as (log' & ? & ? & ? & Hlo').
    exists log'. split_and!; try done. destruct Hlo as [_ _ _ _ Hn]. revert Hn.
    unfold measure, rt_snapshot. cbn. rewrite Hst, Ho. lia. }
  destruct (rs_recovery_model state) as [pending|] eqn:Hmodel.
  - eapply triple_bind with (R := λ _ rt log, (looping n rt log ∧ continues (Some pending) rt ∧
        rs_recovery_model (rt_state rt) = None) ∧ 1 ≤ n ∧ measure rt + 1 ≤ n).
    { intros rt log rt' r Hs [Hlo Hst] Hr. pose proof Hlo as [_ _ Hm _ Hn].
      destruct (triple_forget n n (forget_recovery_model (St := St))) with rt log rt' r
        as (log' & ? & ? & Hok); try done.
      { intros rt1 rt1' r1 [= <- <-]. split_and!; try done; [split; cbn; auto|].
        unfold measure, rt_snapshot. cbn. repeat case_match; lia. }
      injection Hr as <- <-. destruct Hok as [? Hlo']. exists log'. split_and!; try done.
      - cbn. apply Hm. by rewrite Hst.
      - revert Hn. unfold measure, rt_snapshot. cbn. rewrite Hst, Hmodel. lia.
      - revert Hn. unfold measure, rt_snapshot. cbn. rewrite Hst, Hmodel. lia. }
    intros []. apply triple_settling, triple_failing.
    apply triple_pre with (P' := λ rt log, looping (n - 1) rt log ∧ continues (Some pending) rt ∧
      rs_recovery_model (rt_state rt) = None ∧ 1 ≤ n).
    2:{ intros rt log [[[Hg Ht Hm Hc Hn] [Hcont Hnone]] [? ?]]. split_and!; try done. split; try done. lia. }
    intros rt log rt' r Hs (Hlo & Hcont & Hnone & Hle) Hr.
    destruct (triple_model_turn (n - 1) deadline (Some pending) _ _ _ _ Hs (conj Hlo (conj Hcont Hnone)) Hr)
      as (log' & ? & ? & Hok).
    exists log'. split_and!; [done..|]. destruct r as [control|]; [|done].
    destruct Hok as [? [[Hg Ht Hm Hc Hn] _]]. split; [done|]. split; [split; try done; lia|].
    destruct control; [lia|done].
  - apply triple_settling, triple_failing. eapply triple_conseq; [apply (triple_model_turn n deadline None)| |].
    + intros rt log [Hlo Hst]. split_and!; [done|done|by rewrite Hst].
    + done.
Qed.

Lemma triple_propose_completion n turn :
  triple (looping n) (propose_completion ports verifiers turn) (λ _, looping n).
Proof.
  unfold propose_completion. eapply triple_bind; [apply triple_snapshot|]. intros s.
  destruct (negb _); [apply triple_flush|]. destruct (trim_is_empty _); [apply triple_over|].
  destruct (rr_task_contract _) as [contract|]; [|apply triple_throw].
  eapply triple_bind; [apply triple_reconcile_boundary|]. intros [].
  eapply triple_bind; [apply triple_snapshot|]. intros s1. cbv zeta. set (candidate := mkCompletionCandidate _ _ _ _).
  eapply triple_bind with (R := λ _, reviewing n candidate).
  - intros rt log rt' r Hs Hlo Hr.
    destruct (triple_publish_looping n (CompletionProposed candidate) eq_refl eq_refl eq_refl _ _ _ _ Hs Hlo Hr)
      as (log' & ? & ? & Hok). exists log'. split_and!; [done..|]. destruct r as [e|]; [|done].
    destruct Hok as [? Hlo']. split; [done|]. split; [done|]. split; [|apply Hlo'].
    revert Hr. unfold failing, map_halt, raised, or_else.
    destruct (publish ports (CompletionProposed candidate) rt) as [rt1 [e'|]] eqn:Hp; [|done].
    intros [= <- _].
    apply (publish_holds _ _ _ log) in Hp as (_ & _ & log1 & _ & _ & _ & He & Happ);
      [|by eapply live_log, sf_live].
    apply run_step_inv in Happ as (r & s2 & _ & Hd & ->). rewrite He in Hd. cbn [dispatch] in Hd.
    unfold on_completion_proposed in Hd. inv_run. by subst.
  - intros e. eapply triple_bind; [apply triple_reviewing_snapshot|]. intros s2.
    destruct (task_requires_host_acceptance s2); [apply triple_over|apply triple_review_candidate].
Qed.

Lemma triple_reserve_call n call :
  triple (looping n) (reserve_call (St := St) delegation call) (λ _, looping n).
Proof.
  unfold reserve_call. eapply triple_bind; [apply triple_state|]. intros state.
  destruct (is_some_and _ _); [by apply triple_ret|].
  apply triple_raw. intros rt0 log0. eapply triple_bind; [apply triple_get_world|]. intros w.
  destruct (reserve_tool (lw_budget w)) as [budget|] eqn:Hres; [|apply triple_settled].
  apply (triple_budget ports limits older). intros rt log rt' r Hs [[Hlo _] ->] [= <- <-].
  assert (rb_model_requests budget = rb_model_requests (lw_budget (rt_store rt)) ∧
    rb_limits budget = rb_limits (lw_budget (rt_store rt))) as [Hm Hl].
  { unfold reserve_tool in Hres. destruct (reserve _ _); [|done]. by injection Hres as <-. }
  split_and!; try done. destruct Hlo as [[Hq Hh] Ht Hmodel Hc Hn]. split; try done. split; [done|].
  unfold held in *. cbn. by rewrite Hm.
Qed.

Lemma triple_run_call n turn deadline call :
  triple (looping n) (run_call ports tools delegation turn deadline call) (λ _, looping n).
Proof.
  unfold run_call. eapply triple_bind; [apply triple_snapshot|]. intros s.
  destruct (tool_call_completed _ _); [by apply triple_ret|].
  eapply triple_bind; [apply triple_reserve_call|]. intros []. apply triple_settling.
  intros rt log rt' r Hs [Hg Ht Hm Hc Hn] Hr.
  pose proof (live_log _ _ _ (sf_live _ _ _ _ _ Hs)) as Hh.
  assert (mtc_name call = AGENT_TOOL_NAME → lim_max_depth (rr_limits q) ≤ actor_depth (rr_actor q)) as Hleaf
    by done.
  pose proof (advances_execute_call ports tools q delegation call _ deadline Hleaf _ _ _ _ Hh (proj1 Hg) Hr)
    as [_ Hl].
  set (P := λ rt' (_ : runlog), going rt' log ∧ sn_pending_model (rt_snapshot rt') = sn_pending_model (rt_snapshot rt)).
  assert (steady P) as HP.
  { intros rt0 log0 rt0' log0' Hq [Hg0 Hp0]. split; [by apply (steady_going limits q rt0 log0 rt0' log0')|].
    by rewrite (qu_pending _ _ _ _ Hq). }
  assert (claimable call (rt_state rt)) as Hclaim by (intros p Hp; congruence).
  destruct (triple_execute_call ports tools delegation uuid_fresh uuid_random limits older P q (rt_state rt)
    call _ deadline HP (proj1 Hg) Hclaim Hleaf _ _ _ _ Hs (conj (conj Hg eq_refl) eq_refl) Hr)
    as (log' & ? & ? & Hok).
  exists log'. split_and!; [done..|]. destruct r; [|done]. destruct Hok as (? & [Hg' Hp'] & _).
  split; [done|]. split; [done| | | |].
  - destruct (la_tool _ _ Hl) as [->| ->]; done.
  - intros p. rewrite Hp'. destruct (la_model _ _ Hl) as [->| ->]; [apply Hm|done].
  - intros p. rewrite (la_verification _ _ Hl). apply Hc.
  - pose proof (later_measure _ _ _ Hg Hl). lia.
Qed.
Lemma triple_run_calls n turn deadline calls :
  triple (looping n) (run_calls ports tools delegation turn deadline calls) (λ _, looping n).
Proof.
  induction calls as [|call calls IH]; cbn [run_calls]; [by apply triple_ret|].
  eapply triple_bind; [apply triple_run_call|]. by intros [].
Qed.

Lemma triple_loop_turn n deadline :
  triple (looping n)
    (loop_turn ports loop tools verifiers delegation waits deadline)
    (λ _ rt log, looping n rt log ∧ measure rt + 1 ≤ n).
Proof.
  unfold loop_turn. eapply triple_bind; [apply triple_open_boundary|]. intros [].
  eapply triple_bind; [apply triple_take_turn|]. intros [turn|terminal]; [|apply triple_settled].
  apply triple_pre with (P' := λ rt log, looping (n - 1) rt log ∧ 1 ≤ n).
  2:{ intros rt log [[Hg Ht Hm Hc Hn] Hle]. split; [split; try done; lia|lia]. }
  apply triple_pure. intros Hle.
  apply triple_conseq with (P' := looping (n - 1)) (Q' := λ _, looping (n - 1)); [|done|].
  2:{ intros [] rt log [Hg Ht Hm Hc Hn]. split; [split; try done; lia|lia]. }
  destruct (output_refusal turn); [apply triple_settled|].
  destruct (mto_tool_calls turn ==? []); [apply triple_propose_completion|].
  eapply triple_bind; [apply triple_run_calls|]. intros [].
  eapply triple_bind with (R := λ _, looping (n - 1)).
  { intros rt log rt' r Hs Hlo. unfold join_children. rewrite childless. intros [= <- <-].
    exists log. split_and!; [done|by apply safe_durable in Hs|done|done]. }
  intros []. apply triple_settling, triple_flush.
Qed.

Lemma triple_turns n fuel deadline :
  triple (looping n) (turns ports loop tools verifiers delegation waits fuel deadline) (λ _, looping n).
Proof.
  induction fuel as [|fuel IH]; cbn [turns]; [apply triple_throw|].
  eapply triple_bind; [apply triple_loop_turn|]. intros [].
  eapply triple_pre; [exact IH|]. by intros rt log [? _].
Qed.

Lemma turns_more_fuel fuel k deadline rt log :
  safe rt log → (∃ n, looping n rt log) → (N.to_nat (measure rt) < fuel)%nat →
  turns ports loop tools verifiers delegation waits (fuel + k) deadline rt =
  turns ports loop tools verifiers delegation waits fuel deadline rt.
Proof.
  revert rt log. induction fuel as [|fuel IH]; intros rt log Hs [n Hlo] Hfuel; [lia|].
  cbn [turns Nat.add]. rewrite !M_bind_run.
  destruct (loop_turn _ _ _ _ _ _ deadline rt) as [rt1 [[]|e]] eqn:Hturn; [|done].
  assert (looping (measure rt) rt log) as Hlo0 by (destruct Hlo; by split).
  destruct (triple_loop_turn _ _ _ _ _ _ Hs Hlo0 Hturn) as (log1 & _ & _ & Hs1 & Hlo1 & Hlt).
  apply (IH _ log1); [done|by eexists|lia].
Qed.

(** *** The process *)

(** A process as [run_launch] starts it on the log that it holds: the state is taken from the
    snapshot, the budget is new, and no tool was pending. *)
Record launched (resumed : bool) rt : Prop := {
  ld_state : ∃ accounting inclusive started, rt_state rt =
    launch_state (rt_snapshot rt) (rs_lease (rt_state rt)) accounting inclusive resumed started;
  ld_budget : launch_budget (rt_state rt) (RuntimeBudget_new limits
      (sn_runtime_model_requests (rt_snapshot rt)) (sn_tool_calls (rt_snapshot rt))) false =
    (lw_budget (rt_store rt), lw_terminal_model_request (rt_store rt));
  ld_requests : sn_runtime_model_requests (rt_snapshot rt) ≤ lim_max_model_requests limits;
  ld_request : sn_request (rt_snapshot rt) = q;
  ld_tool : sn_pending_tool (rt_snapshot rt) = None;
  ld_verification : resumed = false → sn_pending_host_verification (rt_snapshot rt) = None;
}.

Lemma launched_looping resumed rt log :
  launched resumed rt → calm (rt_snapshot rt) → looping (lim_max_model_requests limits + 2) rt log.
Proof.
  intros [(accounting & inclusive & started & Hst) Hb Hle Hq Ht _] Hc. split; [|by rewrite Hst| |done|].
  - split; [done|]. unfold held, launch_budget in *. cbn [orb] in Hb.
    destruct (terminal_request_is_already_admitted _); [injection Hb as <- <-; cbn; lia|].
    destruct (reserve_terminal_model_request _) as [budget|] eqn:Hr; injection Hb as <- <-; cbn; [|lia].
    unfold reserve_terminal_model_request, reserve_model_request in Hr.
    destruct (reserve _ _) as [next|] eqn:Hres; [|done]. injection Hr as <-.
    apply reserve_Some in Hres as [Hlt ->]. cbn in *. lia.
  - intros p. by rewrite Hst.
  - unfold measure. repeat case_match; lia.
Qed.

Lemma turns_never_end fuel deadline rt rt' :
  turns ports loop tools verifiers delegation waits fuel deadline rt ≠ (rt', Ok tt).
Proof.
  revert rt. induction fuel as [|fuel IH]; intros rt; cbn [turns]; [done|].
  rewrite M_bind_run. by destruct (loop_turn _ _ _ _ _ _ _ rt) as [rt1 [[]|]].
Qed.

Definition enter (resumed : bool) : step unit :=
  if resumed then resume ports verifiers delegation waits else mret tt.
Lemma triple_enter resumed :
  triple (λ rt _, launched resumed rt) (enter resumed) (λ _, looping (lim_max_model_requests limits + 2)).
Proof.
  destruct resumed; cbn [enter].
  - eapply triple_pre; [apply triple_resume|]. intros rt log Hl Hc. by apply (launched_looping true).
  - apply triple_ret. intros rt log Hl. apply (launched_looping false); [done|].
    intros p Hp. by rewrite (ld_verification _ _ Hl eq_refl) in Hp.
Qed.
Lemma run_until_terminal_eq resumed deadline rt :
  run_until_terminal ports loop tools verifiers delegation waits deadline resumed rt =
  (enter resumed ;; turns ports loop tools verifiers delegation waits (turns_fuel (rt_snapshot rt)) deadline) rt.
Proof. done. Qed.


End run.

(** ** Taking up a run *)

Section recovery.
Context `{Codecs} {St : Type} `{RunPort St}.
Context (ports : RuntimePorts) (loop : LoopPorts) (tools : CallPorts) (verifiers : VerifierPort).
Context (delegation : Delegation St) (waits : nat → list ControlCommand).
Implicit Types (s : RunSnapshot) (rt : Rt (LoopWorld St)).

(** An action that started and has no committed end; a delegation counts where [delegated] says. *)
Inductive under_way (delegated : bool) s : string → Prop :=
| under_way_model p : sn_pending_model s = Some p → pma_state p = InFlight →
    under_way delegated s (pma_attempt_id p)
| under_way_tool p : sn_pending_tool s = Some p → pta_state p = InFlight →
    delegated = true ∨ ti_name (pta_invocation p) ≠ AGENT_TOOL_NAME →
    under_way delegated s (pta_operation_id p)
| under_way_verifier p : sn_pending_host_verification s = Some p → phv_state p = InFlight →
    under_way delegated s (phv_verification_id p).

(** The ambiguities of a state that was taken from its snapshot. *)
Definition taken_up (state : RunState) : Prop :=
  rs_recovery_model state = sn_pending_model (rs_snapshot state) ∧
  rs_recovery_tool state = sn_pending_tool (rs_snapshot state).

Lemma ambiguity_named state ambiguity :
  taken_up state →
  model_ambiguity state = Some ambiguity ∨ tool_ambiguity state = Some ambiguity ∨
  verifier_ambiguity state = Some ambiguity →
  under_way true (rs_snapshot state) (ra_action_id ambiguity).
Proof.
  unfold model_ambiguity, tool_ambiguity, verifier_ambiguity. intros [-> ->] [Ha|[Ha|Ha]].
  - destruct (sn_pending_model _) as [p|] eqn:Hp; [|done]. cbn in Ha.
    destruct (_ ==? _) eqn:Hs; [|done]. injection Ha as <-. bprop. by apply under_way_model.
  - destruct (sn_pending_tool _) as [p|] eqn:Hp; [|done]. cbn in Ha.
    destruct (pta_state p ==? InFlight) eqn:Hs; [|done]. destruct (_ || _)%bool; [|done].
    injection Ha as <-. bprop. apply under_way_tool; auto.
  - destruct (sn_pending_host_verification _) as [p|] eqn:Hp; [|done]. cbn in Ha.
    destruct (_ ==? _) eqn:Hs; [|done]. injection Ha as <-. bprop. by apply under_way_verifier.
Qed.
Lemma under_way_ambiguous state action :
  taken_up state → under_way false (rs_snapshot state) action →
  is_Some (model_ambiguity state) ∨ is_Some (tool_ambiguity state) ∨ is_Some (verifier_ambiguity state).
Proof.
  unfold model_ambiguity, tool_ambiguity, verifier_ambiguity.
  intros [-> ->] [p Hp Hs|p Hp Hs Hn|p Hp Hs]; rewrite Hp; cbn; rewrite Hs.
  - left. by eexists.
  - right; left. destruct Hn as [Hn|Hn]; [done|].
    assert (ti_name (pta_invocation p) !=? AGENT_TOOL_NAME = true) as E by (by apply negb_true_iff, bool_decide_eq_false).
    cbn in E |- *. rewrite E. by eexists.
  - right; right. by eexists.
Qed.

End recovery.
