(* ===== verification/Demo.v ===== *)
(** A concrete instance: toy third-party codecs and the log of a whole run - a failed and
    retried model request, a frozen verifier that fails, an approved mutation, a steer, and a
    completion proven by Host acceptance and a final verifier pass.  The witnesses of the
    theorems evaluate the definitions on it. *)
From Stdlib Require Import String.
From S2P Require Import Prelude Text Json Task Protocol Validate Context Snapshot Evidence.
From S2P Require Import RunEvents AgentEvents Reducer.

Open Scope string_scope.
Open Scope N_scope.

(** ** The frozen task *)

Definition demo_spec : VerifierSpec :=
  mkVerifierSpec "run_tests" (VObject [("suite", VString "unit")])
    (mkVerifierPlan [mkVerifierStep "s1" "cargo" ["test"] "" ∅ 1000]).
Definition demo_contract : TaskContract :=
  mkTaskContract "run-1" (mkTaskDefinition "fix the bug" ["keep the API"] []
    [AcceptVerifier "tests" "the tests pass" FailedWritePassPolicy demo_spec;
     AcceptHost "host" "the user agrees"]).

(** ** Codecs *)

Definition hex64 : string :=
  "0123456789abcdef0123456789abcdef0123456789abcdef0123456789abcdef".

Definition verdict_value (v : VerifierVerdict) : Value :=
  VString match v with
          | VerdictPassed => "passed" | VerdictFailed => "failed" | VerdictPartial => "partial"
          end.
Definition revision_value (r : WorkspaceRevision) : Value :=
  match r with Known sha256 => VString sha256 | Unknown _ => VNull end.

Definition demo_decode_payload (v : Value) : result string VerificationArtifactPayload :=
  match v with
  | VObject [(_, VString revision); (_, VString summary); (_, VString verdict)] =>
    if verdict ==? "passed"
    then Ok (mkVerificationArtifactPayload summary demo_spec VerdictPassed (Known revision))
    else Ok (mkVerificationArtifactPayload summary demo_spec VerdictFailed (Known revision))
  | _ => Err "not a verification payload"
  end.

#[global] Instance demo_json : JsonLib := {
  sha256_hex := λ _, hex64;
  value_to_string := λ _, "{}";
  value_to_vec := λ _, Ok "{}";
}.
#[global] Instance demo_task_codec : TaskCodec := { verifier_spec_to_vec := spec_verifier_id }.
#[global] Instance demo_protocol_codec : ProtocolCodec := {
  decode_verification_payload := demo_decode_payload;
  encode_verification_payload := λ p,
    VObject [("summary", VString (vap_summary p)); ("verdict", verdict_value (vap_verdict p));
             ("revision", revision_value (vap_workspace_revision p))];
  decode_user_input_request := λ _, Err "not a user-input request";
  string_list_to_vec := String.concat ",";
}.
#[global] Instance demo_context_codec : ContextCodec := {
  receipt_to_string := λ r, Ok (er_id r);
  rejection_to_string := λ r, Ok (cr_reason r);
  outcome_to_string := λ o, Ok (to_content o);
  workspace_to_string := λ w, Ok (show_N (ws_generation w));
  projection_to_vec := λ _ messages indices _ _, Ok (show_N (N.of_nat (length messages)));
}.
#[global] Instance demo_codecs : Codecs := {
  codecs_json := _; codecs_task := _; codecs_protocol := _; codecs_context := _;
}.

(** ** Driving a run *)

Definition demo_event (n : N) (kind : RuntimeEventKind) : StoredRuntimeEvent :=
  mkStoredRuntimeEvent AGENT_RUNTIME_EVENT_SCHEMA_VERSION "run-1" None
    ("event-" ++ show_N n) n (1000 + n) kind.

(** Each event of a script may look at the snapshot it is appended to. *)
Fixpoint drive (events : list StoredRuntimeEvent) (s : RunSnapshot)
    (script : list (RunSnapshot → RuntimeEventKind))
    : list StoredRuntimeEvent * result RunStoreError RunSnapshot :=
  match script with
  | [] => (events, Ok s)
  | kind :: script' =>
    let e := demo_event (sn_last_sequence s + 1) (kind s) in
    match apply_event s e with
    | Ok s' => drive (events ++ [e])%list s' script'
    | Err err => (events, Err err)
    end
  end.

Definition demo_request : RunRequest :=
  RunRequest_new demo_contract (SystemPrompt_from_text "You are an engineer.")
    <| rr_environment := mkRunEnvironment "/work" "deepseek" None None WriteRoot PermissionAsk
                           true |>
    <| rr_context_policy := mkContextPolicy 100000 |>.

Definition demo_created : StoredRuntimeEvent :=
  mkStoredRuntimeEvent AGENT_RUNTIME_EVENT_SCHEMA_VERSION "run-1" None
    RuntimeEventId_run_created 1 1000 (RunCreated demo_request).

Definition run_script (script : list (RunSnapshot → RuntimeEventKind))
    : list StoredRuntimeEvent * result RunStoreError RunSnapshot :=
  drive [demo_created] (initial_snapshot demo_request) script.

(** ** The script *)

Definition demo_tools : list ToolDefinition :=
  [mkToolDefinition "run_tests" "run the frozen verifier" (VObject []);
   mkToolDefinition "write_file" "write a file" (VObject [])].

Definition next_model_request (s : RunSnapshot) : ModelRequest :=
  let '(prompt, messages) :=
    match effective_context (context_input s demo_tools) with
    | Ok effective => (ec_system_prompt effective, ec_messages effective)
    | Err _ => (SystemPrompt_default, [])
    end in
  mkModelRequest "run-1" None AgentActor_default (rr_model (sn_request s)) prompt messages
    demo_tools EffortHigh None true (sn_local_turns s + 1) 0.

Definition stall : ModelAttemptFailure :=
  mkModelAttemptFailure "timeout" CategoryTimeout "no answer" true None true false
    ModelResponseEvidence_default.

Definition retried (s : RunSnapshot) : RuntimeEventKind :=
  ModelRequestFailed "a1" stall ModelAccounting_default
    (RetryPrepared (mkPreparedModelRetry "a2"
       (next_model_request s <| mr_request_number := sn_local_turns s |>
                             <| mr_attempt := 1 |>) 5000 1000 6000 2)).

Definition run_tests_call : ModelToolCall :=
  mkModelToolCall "call-1" "run_tests"
    (mkToolArguments "{verifier_id: tests}" (Some (VObject [("verifier_id", VString "tests")]))).
Definition write_call : ModelToolCall :=
  mkModelToolCall "call-2" "write_file"
    (mkToolArguments "{path: a.rs}" (Some (VObject [("path", VString "a.rs")]))).
Definition calls_output : ModelOutput :=
  mkModelOutput "I will test and fix." None [run_tests_call; write_call] FinishToolCalls
    Usage_default.
Definition invocation_of (call : ModelToolCall) : ToolInvocation :=
  mkToolInvocation "run-1" (mtc_id call) (mtc_name call) (mtc_arguments call).

Definition rev_a : string := "rev-a".
Definition rev_b : string := "rev-b".

Definition verifier_outcome (verdict : VerifierVerdict) (revision : string) : ToolOutcome :=
  let payload := mkVerificationArtifactPayload "test report" demo_spec verdict (Known revision) in
  let artifacts := from_option (λ a, [a]) [] (inline_verification payload) in
  let ids := tf_id <$> artifacts in
  let passed := verdict ==? VerdictPassed in
  mkToolOutcome (if passed then None else Some VerifierFailed) InvocationAccepted
    TransportSucceeded (if passed then OperationSucceeded else OperationFailedStatus)
    SideEffectNotApplicable (if passed then RetryNotNeeded else RetryAfterCorrection)
    (mkToolEvidence EvidenceProduced ids) artifacts (Some revision)
    (Some (mkVerifierObservation demo_spec verdict (Known revision) ids))
    "test output" None.

Definition verifier_grant : ToolAuthorizationDecision :=
  mkToolAuthorizationDecision PermissionAsk
    (GrantTaskContractVerifier "tests" (VerifierSpec_sha256 demo_spec)) "run_tests"
    (format_prefixed_sha256 "{}") (mkWorkspaceState 1 (Known rev_a)) DispositionAllow
    RiskRoutine None "frozen verifier" None.

Definition write_prompt : ToolApprovalPrompt := mkToolApprovalPrompt "write" "write a.rs" RiskElevated.
Definition write_decision : ToolAuthorizationDecision :=
  mkToolAuthorizationDecision PermissionAsk GrantOrdinary "write_file"
    (format_prefixed_sha256 "{path: a.rs}") (mkWorkspaceState 2 (Known rev_a)) DispositionAsk
    RiskElevated None "writes a file" (Some write_prompt).
Definition write_outcome : ToolOutcome :=
  ToolOutcome_success "written" <| to_side_effect := SideEffectApplied |>
    <| to_workspace_revision := Some rev_b |>.

Definition model_script : list (RunSnapshot → RuntimeEventKind) :=
  [λ _, WorkspaceObserved (mkWorkspaceState 1 (Known rev_a));
   λ s, ModelRequestPrepared "a1" (next_model_request s);
   λ _, ModelRequestInFlight "a1";
   retried;
   λ _, ModelRequestInFlight "a2";
   λ _, ContentDelta "a2" 0 "I will";
   λ _, ModelResponseCommitted "a2" calls_output ModelAccounting_default].

Definition tool_script : list (RunSnapshot → RuntimeEventKind) :=
  [λ _, ToolPrepared "op-1" (invocation_of run_tests_call) WorkspaceMayWrite;
   λ _, ToolAuthorizationCommitted "op-1" verifier_grant;
   λ _, ToolExecutionStarted "op-1";
   λ _, ToolOutcomeCommitted "op-1" "call-1" "run_tests" (verifier_outcome VerdictFailed rev_a)
          (Some (mkWorkspaceState 2 (Known rev_a)));
   λ _, ToolPrepared "op-2" (invocation_of write_call) WorkspaceMayWrite;
   λ _, ToolAuthorizationCommitted "op-2" write_decision;
   λ _, InteractionRequested (mkUserInteractionRequest "i-1" "op-2" "call-2" "write_file"
          (PromptApproval write_prompt (VObject [("path", VString "a.rs")])));
   λ _, InteractionResolved "cmd-1" "i-1" ResponseApproved;
   λ _, ToolExecutionStarted "op-2";
   λ _, ToolOutcomeCommitted "op-2" "call-2" "write_file" write_outcome
          (Some (mkWorkspaceState 3 (Known rev_b)));
   λ _, SteerQueued "cmd-2" "finish quickly";
   λ _, SteerApplied "cmd-2" "finish quickly"].

Definition candidate_of (s : RunSnapshot) : CompletionCandidate :=
  mkCompletionCandidate (candidate_id_of (default 0 (sn_last_model_response_sequence s)))
    "run-1" "done" (mkWorkspaceState 3 (Known rev_b)).
Definition passed_outcome : ToolOutcome := verifier_outcome VerdictPassed rev_b.
Definition verified_state : WorkspaceState := mkWorkspaceState 4 (Known rev_b).
Definition final_receipt (s : RunSnapshot) : option EvidenceReceipt :=
  match seal_evidence_receipt s "ver-1" "tests" FailedWritePassPolicy demo_spec passed_outcome
          verified_state with
  | Ok receipt => Some receipt
  | Err _ => None
  end.
Definition demo_outcome (terminal : TerminalState) : AgentOutcome :=
  mkAgentOutcome "run-1" None terminal ModelAccounting_default 3 1 2
    (mkAgentResultDetails "done" None [] [] [] [] [] [] None None None None None
       IntegrationNotApplicable).

Definition completion_script : list (RunSnapshot → RuntimeEventKind) :=
  [λ s, ModelRequestPrepared "b1" (next_model_request s);
   λ _, ModelRequestInFlight "b1";
   λ _, ModelResponseCommitted "b1" (mkModelOutput "done" None [] FinishStop Usage_default)
          ModelAccounting_default;
   λ s, CompletionProposed (candidate_of s);
   λ s, HostCompletionAccepted "cmd-3" (mkHostAcceptanceReceipt "host-acceptance:cmd-3"
          (cc_id (candidate_of s)) "run-1" (mkWorkspaceState 3 (Known rev_b)));
   λ s, HostVerificationPrepared "ver-1" (candidate_of s) "tests" demo_spec
          (mkWorkspaceState 3 (Known rev_b));
   λ _, HostVerificationStarted "ver-1";
   λ s, HostVerificationCommitted "ver-1" passed_outcome (final_receipt s) verified_state;
   λ s, Terminal (demo_outcome (Completed "done"
          (mkCompletionDecision (cc_id (candidate_of s)) "run-1" verified_state
             [SatisfiedByEvidence "tests" "receipt:ver-1";
              SatisfiedByHost "host" "host-acceptance:cmd-3"])))].

(** ** Logs *)

Definition snapshot_of (log : list StoredRuntimeEvent) : RunSnapshot :=
  match reduce_events log with Ok s => s | Err _ => initial_snapshot demo_request end.

Definition demo_log : list StoredRuntimeEvent := Eval vm_compute in
  (run_script (model_script ++ tool_script ++ completion_script)%list).1.

(** A run interrupted while the model streams. *)
Definition control_script : list (RunSnapshot → RuntimeEventKind) :=
  (take 3 model_script ++
   [λ _, ControlRequested "cmd-stop" ControlInterrupt; λ _, Terminal (demo_outcome Interrupted)])%list.
Definition control_log : list StoredRuntimeEvent := Eval vm_compute in (run_script control_script).1.

(** A run that delegates to a read-only child. *)
Definition agent_call : ModelToolCall :=
  mkModelToolCall "call-9" "agent" (mkToolArguments "{}" (Some (VObject []))).
Definition demo_commit : string := "0123456789abcdef0123456789abcdef01234567".
Definition child_task : AgentTask :=
  mkAgentTask "task-1" "run-1" "run-1" "child-1" "call-9" "explorer"
    (mkTaskContract "child-1" (TaskDefinition_host "look around"))
    (mkAgentWorkspaceAssignment AccessReadOnly "/work" demo_commit None None None [] None)
    "deepseek-v4-flash" EffortHigh None (mkContextPolicy 100000)
    (mkModelRouteAudit RouteExplicit "runtime_explicit_v1" "explicit_model") ToolPolicy_default
    RunLimits_default None "a report".
Definition agent_script : list (RunSnapshot → RuntimeEventKind) :=
  [λ s, ModelRequestPrepared "a1" (next_model_request s);
   λ _, ModelRequestInFlight "a1";
   λ _, ModelResponseCommitted "a1"
          (mkModelOutput "delegating" None [agent_call] FinishToolCalls Usage_default)
          ModelAccounting_default;
   λ _, ToolPrepared "op-9" (invocation_of agent_call) WorkspaceReadOnly;
   λ _, ToolExecutionStarted "op-9";
   λ _, AgentTaskPrepared child_task;
   λ _, ChildStarted "task-1" "call-9" "child-1" 1;
   λ _, ToolOutcomeCommitted "op-9" "call-9" "agent" (ToolOutcome_success "started") None].
Definition agent_log : list StoredRuntimeEvent := Eval vm_compute in (run_script agent_script).1.

(** ** A context that must be compacted *)

Fixpoint repeat_text (n : nat) (text : string) : string :=
  match n with O => "" | S n' => text ++ repeat_text n' text end.
Definition long_input : ContextInput :=
  mkContextInput
    [EntrySystem (SystemPrompt_from_text "You are an engineer.");
     EntryUser (model_message (contract_definition demo_contract));
     EntryAssistant (Some (repeat_text 200 "thinking about it ")) None [];
     EntryAssistant (Some "short plan") None [];
     EntryUser "go on"]
    None (Some demo_contract) (mkWorkspaceState 1 (Known rev_a)) [] None None None [].
Definition long_policy : ContextPolicy := mkContextPolicy 400.
