(* ===== verification/Witnesses.v ===== *)
(** Concrete instances: each lemma applies one theorem to the demonstration run, with its
    hypotheses evaluated there. *)
From Stdlib Require Import String Ascii.
From stdpp Require Import sorting relations.
From S2P Require Import Prelude Text Json Task Protocol RunApi Validate Context.
From S2P Require Import Snapshot Evidence RunEvents AgentEvents Reducer Steps LogFacts.
From S2P Require Import ToolFacts EvidenceFacts CompletionFacts AgentFacts ModelFacts.
From S2P Require Import ContextFacts ErrorFacts MemStore RunLog MemStoreFacts SqliteStore.
From S2P Require Import SqliteFacts Demo.

Open Scope string_scope.
Open Scope N_scope.

(** ** Logs *)

Lemma accepted_log_is_contiguous_witness :
  ∃ run_id, rr_run_id (sn_request (snapshot_of demo_log)) = Some run_id ∧
    log_numbered demo_log run_id.
Proof.
  apply (accepted_log_is_contiguous demo_log (snapshot_of demo_log)).
  - vm_compute. reflexivity.
  - vm_compute. discriminate.
Defined.

Lemma terminal_is_final_witness :
  reduce_events (demo_log ++ [demo_created])%list ≠ Ok (snapshot_of demo_log).
Proof.
  apply (terminal_is_final demo_log (snapshot_of demo_log)).
  - vm_compute. reflexivity.
  - vm_compute. eexists. reflexivity.
Defined.

Lemma history_is_append_only_witness :
  extends (snapshot_of (take 10 demo_log)) (snapshot_of demo_log).
Proof.
  apply (history_is_append_only (take 10 demo_log) (drop 10 demo_log)); vm_compute; reflexivity.
Defined.

(** The step of the log at an index. *)
Definition step_event (k : nat) : StoredRuntimeEvent := nth k demo_log demo_created.

Lemma workspace_epoch_exact_witness :
  sn_workspace_state (snapshot_of (take 18 demo_log)) =
    sn_workspace_state (snapshot_of (take 17 demo_log)) ∨
  ws_generation (sn_workspace_state (snapshot_of (take 18 demo_log))) =
    ws_generation (sn_workspace_state (snapshot_of (take 17 demo_log))) + 1.
Proof.
  apply (workspace_epoch_exact _ (step_event 17)).
  - vm_compute. reflexivity.
  - vm_compute. reflexivity.
Defined.

Lemma commands_exactly_once_witness : commands_ordered (snapshot_of demo_log).
Proof.
  apply (commands_exactly_once demo_log).
  - vm_compute. reflexivity.
  - vm_compute. discriminate.
Defined.

Lemma steers_are_fifo_witness :
  (demo_log ≫= queued_steer =
   (demo_log ≫= applied_steer) ++ sn_pending_steers (snapshot_of demo_log))%list.
Proof. apply (steers_are_fifo demo_log). vm_compute. reflexivity. Defined.

Lemma control_request_is_honoured_witness :
  sn_pending_control (snapshot_of control_log) =
    Some (mkPendingControl "cmd-stop" ControlInterrupt).
Proof.
  apply (control_request_is_honoured control_log (snapshot_of control_log) 4
    (nth 4 control_log demo_created)); vm_compute; reflexivity.
Defined.

Lemma reducer_only_reports_corruption_witness :
  ∃ run_id, rr_run_id (sn_request (snapshot_of demo_log)) = Some run_id ∧
    ((∃ message, corrupt "run-1" "event appears after terminal" = Corrupt run_id message) ∨
     (corrupt "run-1" "event appears after terminal" =
        UnsupportedSchema 23 MIN_SUPPORTED_AGENT_RUNTIME_EVENT_SCHEMA_VERSION
          AGENT_RUNTIME_EVENT_SCHEMA_VERSION ∧ 23 ≠ AGENT_RUNTIME_EVENT_SCHEMA_VERSION)).
Proof.
  apply (reducer_only_reports_corruption demo_log (snapshot_of demo_log)
    (demo_event 30 (SteerQueued "cmd-9" "too late"))); vm_compute; reflexivity.
Defined.

(** ** Tools, evidence, completion *)


Lemma workspace_changes_are_authorized_witness :
  ∃ op call name o p,
    sre_event (step_event 17) = ToolOutcomeCommitted op call name o
      (Some (sn_workspace_state (snapshot_of (take 18 demo_log)))) ∧
    sn_pending_tool (snapshot_of (take 17 demo_log)) = Some p ∧ pta_operation_id p = op ∧
    pta_workspace_access p = WorkspaceMayWrite.
Proof.
  destruct (workspace_changes_are_authorized (take 17 demo_log)
    (snapshot_of (take 17 demo_log)) (step_event 17) (snapshot_of (take 18 demo_log)))
    as [Hw|[(vid & o & r & Hw)|(op & call & name & o & p & H1 & H2 & H3 & H4 & _)]].
  - vm_compute. reflexivity.
  - vm_compute. reflexivity.
  - vm_compute. discriminate.
  - vm_compute in Hw. discriminate Hw.
  - vm_compute in Hw. discriminate Hw.
  - exists op, call, name, o, p. auto.
Defined.


(** The receipt of the final pass and its two predecessors in the log. *)
Definition demo_receipt : EvidenceReceipt := Eval vm_compute in
  match sn_evidence_receipts (snapshot_of demo_log) with
  | receipt :: _ => receipt
  | [] => mkEvidenceReceipt "" "" "" "" demo_spec verified_state [] LatestPass
  end.
Definition demo_failure : FailedVerifierEvidence := Eval vm_compute in
  match er_lineage demo_receipt with
  | FailedWritePass failure _ => failure
  | _ => mkFailedVerifierEvidence (SourceTool "") verified_state []
  end.
Definition demo_mutation : WorkspaceMutationEvidence := Eval vm_compute in
  match er_lineage demo_receipt with
  | FailedWritePass _ mutation => mutation
  | _ => mkWorkspaceMutationEvidence "" verified_state verified_state
  end.

Lemma failed_write_pass_is_ordered_witness :
  ∃ i j k, (i < j < k)%nat ∧
    logged demo_log i (progress_failure_event
      (mkTemporalEvidenceProgress (er_acceptance_id demo_receipt) (er_verifier demo_receipt)
         demo_failure (Some demo_mutation))) ∧
    logged demo_log j (mutation_event (er_verifier demo_receipt) demo_mutation) ∧
    logged demo_log k (receipt_event demo_receipt).
Proof.
  apply (failed_write_pass_is_ordered demo_log (snapshot_of demo_log)).
  - vm_compute. reflexivity.
  - vm_compute. left.
  - vm_compute. reflexivity.
Defined.

Definition demo_decision : CompletionDecision :=
  mkCompletionDecision "completion-23" "run-1" verified_state
    [SatisfiedByEvidence "tests" "receipt:ver-1"; SatisfiedByHost "host" "host-acceptance:cmd-3"].

Lemma completed_run_is_proven_witness :
  ∃ c contract, rr_task_contract (sn_request (snapshot_of demo_log)) = Some contract ∧
    "done" = cc_message c ∧ candidate_origin demo_log c.
Proof.
  destruct (completed_run_is_proven demo_log (snapshot_of demo_log)
    (demo_outcome (Completed "done" demo_decision)) "done" demo_decision)
    as (c & contract & H1 & H2 & H3 & _); [vm_compute; reflexivity..|].
  exists c, contract. auto.
Defined.

(** ** Children *)

Lemma agent_identities_unique_witness :
  NoDup ((at_task_id ∘ atl_task) <$> sn_agent_tasks (snapshot_of agent_log)).
Proof. apply (agent_identities_unique agent_log). vm_compute. reflexivity. Defined.

Definition demo_lifecycle : AgentTaskLifecycle := Eval vm_compute in
  match sn_agent_tasks (snapshot_of agent_log) with
  | lifecycle :: _ => lifecycle
  | [] => mkAgentTaskLifecycle child_task None None None None None None None
  end.

Lemma agent_lifecycle_is_ordered_witness : lifecycle_ok demo_lifecycle.
Proof.
  apply (agent_lifecycle_is_ordered agent_log (snapshot_of agent_log)).
  - vm_compute. reflexivity.
  - vm_compute. left.
Defined.

(** ** Model requests and context *)

Definition pending_attempt : PendingModelAction := Eval vm_compute in
  match sn_pending_model (snapshot_of (take 6 demo_log)) with
  | Some pending => pending
  | None => mkPendingModelAction "" (next_model_request (snapshot_of [])) None None Prepared
  end.

Lemma model_retries_replay_the_first_attempt_witness :
  pma_attempt_id pending_attempt = "a2" ∧
  ∃ first k a, logged (take 6 demo_log) k (λ ev, ev = ModelRequestPrepared a first) ∧
    retry_of (snapshot_of (take 6 demo_log)) pending_attempt first.
Proof.
  split; [reflexivity|].
  apply (model_retries_replay_the_first_attempt (take 6 demo_log)).
  - vm_compute. reflexivity.
  - vm_compute. discriminate.
  - vm_compute. reflexivity.
Defined.

Lemma failed_attempt_retries_or_stops_witness :
  ∃ pending, sn_pending_model (snapshot_of (take 4 demo_log)) = Some pending ∧
    pma_attempt_id pending = "a1" ∧ pma_state pending = InFlight.
Proof.
  destruct (failed_attempt_retries_or_stops (snapshot_of (take 4 demo_log)) (step_event 4)
    (snapshot_of (take 5 demo_log)) "a1" stall ModelAccounting_default
    match retried (snapshot_of (take 4 demo_log)) with
    | ModelRequestFailed _ _ _ retry => retry
    | _ => RetryStop StopNotRetryable
    end) as (pending & H1 & H2 & H3 & _); [vm_compute; reflexivity..|].
  exists pending. auto.
Defined.

Definition long_plan : ContextProjection * N * N := Eval vm_compute in
  match prepare_compaction long_input long_policy with
  | Ok (CompactionLocal projection before after) => (projection, before, after)
  | _ => (mkContextProjection 0 "" [] [], 0, 0)
  end.


Definition long_history : list ModelMessage * list N := Eval vm_compute in
  match projected_history (ci_transcript long_input) long_plan.1.1 with
  | Ok history => history
  | Err _ => ([], [])
  end.

Lemma projection_survives_growth_witness :
  projected_history (ci_transcript long_input ++ [EntryUser "and then"])%list long_plan.1.1 =
    Ok ((long_history.1 ++ [MsgUser "and then"])%list, (long_history.2 ++ [5])%list).
Proof.
  rewrite (projection_survives_growth (ci_transcript long_input) [EntryUser "and then"]
    long_plan.1.1 long_history.1 long_history.2).
  - vm_compute. reflexivity.
  - vm_compute. reflexivity.
Defined.

(** ** JSON *)

Lemma canonical_json_is_canonical_witness :
  canonical_json (VObject [("b", VNull); ("a", VBool true)]) =
  canonical_json (VObject [("a", VBool true); ("b", VNull)]).
Proof.
  apply (canonical_json_is_canonical (VObject [("b", VNull); ("a", VBool true)])).
  - constructor.
    + vm_compute. repeat constructor; set_solver.
    + repeat constructor.
  - apply (same_object _ [("b", VNull); ("a", VBool true)]).
    + repeat constructor.
    + apply Permutation_swap.
Defined.

(** ** The in-memory store *)

Abbreviation mem_store := (InMemoryRunStore unit).

Definition demo_intent : CreationIntent unit := mkCreationIntent CreationStart "/work" None tt.
Definition demo_lease : RunLease := mkRunLease "run-1" 1 "owner-1" 7.
Definition observed : PendingRuntimeEvent :=
  mkPendingRuntimeEvent "event-2" (WorkspaceObserved (mkWorkspaceState 1 (Known rev_a))).

Definition mem0 : mem_store := empty_store.
Definition mem1 : mem_store := Eval vm_compute in
  match reserve_creation mem0 "cmd-start" "digest" "run-1" demo_intent 900 with
  | Ok (st, _) => st | Err _ => mem0 end.
Definition mem2 : mem_store := Eval vm_compute in
  match create mem1 demo_request 1000 "owner-1" 7 with Ok (st, _) => st | Err _ => mem1 end.
Definition mem3 : mem_store := Eval vm_compute in
  match append mem2 demo_lease observed 1002 with Ok (st, _) => st | Err _ => mem2 end.
Definition mem4 : mem_store := Eval vm_compute in
  match release mem3 demo_lease with Ok st => st | Err _ => mem3 end.
Definition mem5 : mem_store := Eval vm_compute in
  match acquire mem4 "run-1" "owner-2" 8 with Ok (st, _) => st | Err _ => mem4 end.

Definition mem_run (st : mem_store) : InMemoryRun :=
  default (mkInMemoryRun [] (snapshot_of []) None 0) (ims_runs st !! "run-1").

Definition mem_reservation : ReservedCreation unit := Eval vm_compute in
  match reserve_creation mem0 "cmd-start" "digest" "run-1" demo_intent 900 with
  | Ok (_, r) => r
  | Err _ => mkReservedCreation (mkCreationReservation "" "" "" 0 None) false
  end.

Lemma mem_steps_01 : rtc store_step mem0 mem1.
Proof.
  apply rtc_once, (step_reserve mem0 "cmd-start" "digest" "run-1" demo_intent 900 mem1
    mem_reservation). vm_compute. reflexivity.
Qed.
Lemma mem_steps_12 : store_step mem1 mem2.
Proof. eapply (step_create mem1 demo_request 1000 "owner-1" 7). vm_compute. reflexivity. Qed.
Lemma mem_steps_23 : store_step mem2 mem3.
Proof. eapply (step_append mem2 demo_lease observed 1002). vm_compute. reflexivity. Qed.
Lemma mem_steps_34 : store_step mem3 mem4.
Proof. eapply (step_release mem3 demo_lease). vm_compute. reflexivity. Qed.
Lemma mem_steps_45 : store_step mem4 mem5.
Proof. eapply (step_acquire mem4 "run-1" "owner-2" 8). vm_compute. reflexivity. Qed.

Lemma mem_reach_2 : rtc store_step mem0 mem2.
Proof. eapply rtc_r; [apply mem_steps_01|apply mem_steps_12]. Qed.
Lemma mem_reach_4 : rtc store_step mem0 mem4.
Proof.
  eapply rtc_r; [|apply mem_steps_34]. eapply rtc_r; [|apply mem_steps_23]. apply mem_reach_2.
Qed.
Lemma mem_reach_5 : rtc store_step mem0 mem5.
Proof. eapply rtc_r; [apply mem_reach_4|apply mem_steps_45]. Qed.

Lemma cached_snapshot_is_replay_witness :
  load mem5 "run-1" = Ok (Some (mkRunReplay (imr_snapshot (mem_run mem5)) (imr_events (mem_run mem5)))).
Proof.
  apply (cached_snapshot_is_replay mem5 "run-1" (mem_run mem5) mem_reach_5).
  vm_compute. reflexivity.
Defined.

Lemma append_is_idempotent_witness :
  append mem3 (mkRunLease "run-1" 99 "someone" 1) observed 5000 =
    Ok (mem3, demo_event 2 (WorkspaceObserved (mkWorkspaceState 1 (Known rev_a)))).
Proof.
  apply (append_is_idempotent mem2 demo_lease observed 1002 mem3).
  - apply mem_reach_2.
  - vm_compute. reflexivity.
  - reflexivity.
Defined.

Lemma stale_lease_never_writes_witness :
  ∃ run', ims_runs mem5 !! "run-1" = Some run' ∧
    imr_events (mem_run mem4) `prefix_of` imr_events run' ∧ imr_lease run' ≠ Some demo_lease.
Proof.
  destruct (stale_lease_never_writes mem4 mem5 "run-1" (mem_run mem4) demo_lease)
    as (run' & H1 & H2 & H3 & _).
  - apply mem_reach_4.
  - vm_compute. reflexivity.
  - vm_compute. discriminate.
  - reflexivity.
  - vm_compute. reflexivity.
  - apply rtc_once, mem_steps_45.
  - exists run'. auto.
Defined.

Lemma mem_store_refines_run_log_witness :
  ∃ m, rtc log_step ∅ m ∧ ∀ id,
    match m !! id with
    | None => load mem5 id = Ok None
    | Some r => ∃ s, reduce_events (lr_log r) = Ok s ∧
                     load mem5 id = Ok (Some (mkRunReplay s (lr_log r)))
    end.
Proof. apply (mem_store_refines_run_log mem5 mem_reach_5). Defined.

Lemma every_store_keeps_append_only_logs_witness :
  ∃ replayed', store_load mem5 "run-1" = Ok (Some replayed') ∧
    imr_events (mem_run mem2) `prefix_of` replay_events replayed'.
Proof.
  destruct (every_store_keeps_append_only_logs (S := mem_store) mem2 mem5 "run-1"
    (mkRunReplay (imr_snapshot (mem_run mem2)) (imr_events (mem_run mem2))))
    as (replayed' & H1 & H2 & _).
  - apply mem_reach_2.
  - vm_compute. reflexivity.
  - eapply rtc_l; [apply mem_steps_23|]. eapply rtc_l; [apply mem_steps_34|].
    apply rtc_once, mem_steps_45.
  - exists replayed'. auto.
Defined.

Lemma reservation_is_stable_witness :
  reserve_creation mem1 "cmd-start" "digest" "run-7" demo_intent 9999 =
    Ok (mem1, mkReservedCreation (rc_reservation mem_reservation) false).
Proof.
  apply (reservation_is_stable mem0 "cmd-start" "digest" "run-1" demo_intent 900 mem1).
  - apply rtc_refl.
  - vm_compute. reflexivity.
Defined.

Lemma root_run_listing_is_correct_witness :
  ∃ records, list_root_runs mem5 "/work" 10 = Ok records ∧ (length records ≤ 10)%nat.
Proof.
  destruct (root_run_listing_is_correct mem5 "/work" 10 mem_reach_5) as (records & H1 & _ & H2 & _).
  exists records. auto.
Defined.

Lemma lineage_check_terminates_and_is_sound_witness :
  ∃ ids, lineage (stored_snapshot (ims_runs mem5)) "/work" None ids ∧ NoDup ids.
Proof.
  destruct (lineage_check_terminates_and_is_sound (ims_runs mem5) (imr_snapshot (mem_run mem5))
    "/work") as [_ Hl].
  destruct Hl as (ids & H1 & H2 & _); [vm_compute; reflexivity|]. exists ids. auto.
Defined.

(** ** Tool outcomes *)

Definition ambiguous_outcome : ToolOutcome := ToolOutcome_recovery_ambiguous "lost".
Lemma read_only_guarantee_is_sound_witness :
  ToolOutcome_validate ambiguous_outcome = Ok tt ∧
  ToolOutcome_validate (with_workspace_access_guarantee ambiguous_outcome WorkspaceReadOnly)
    = Ok tt.
Proof.
  split; [vm_compute; reflexivity|].
  apply (read_only_guarantee_is_sound ambiguous_outcome); [vm_compute; reflexivity..|].
  vm_compute. discriminate.
Defined.

(** ** The SQLite store *)

(** A concrete serialiser: the values of the demonstration, each written as its position in a
    table. *)
Definition find_text {A} `{EqDecision A} (table : list A) (a : A) : result string string :=
  match list_find (a =.) table with
  | Some (k, _) => Ok (string_of_list_ascii (repeat "0"%char k))
  | None => Err "not in the table"
  end.
Definition read_text {A} (table : list A) (text : string) : result string A :=
  match table !! String.length text with
  | Some a => Ok a
  | None => Err "no such value"
  end.

Lemma table_roundtrip {A} `{EqDecision A} (table : list A) a text :
  find_text table a = Ok text → read_text table text = Ok a.
Proof.
  unfold find_text, read_text. destruct (list_find (a =.) table) as [[k b]|] eqn:Hf; [|done].
  intros [= <-]. apply list_find_Some in Hf as (Hk & <- & _).
  assert (String.length (string_of_list_ascii (repeat "0"%char k)) = k) as ->; [|by rewrite Hk].
  clear. by induction k as [|k IH]; cbn; [|rewrite IH].
Qed.

Definition late_delta : StoredRuntimeEvent := demo_event 6 (ContentDelta "a1" 0 "x").
Definition event_table : list StoredRuntimeEvent := (control_log ++ [late_delta])%list.
Definition snapshot_table : list RunSnapshot := Eval vm_compute in
  let snapshots := (λ k, snapshot_of (take k control_log)) <$> [1; 2; 3; 4; 5; 6]%nat in
  (snapshots ++ [nth 4 snapshots (snapshot_of []) <| sn_last_sequence := 6 |>])%list.

#[global] Instance demo_json : StoreJson := {
  event_to_string := find_text event_table;
  event_from_str := read_text event_table;
  snapshot_to_string := find_text snapshot_table;
  snapshot_from_str := read_text snapshot_table;
  command_to_string := λ _, Err "no commands";
  command_from_str := λ _, Err "no commands";
  constraint_failed := "constraint failed";
}.
#[global] Instance demo_json_laws : StoreJsonLaws.
Proof. split; intros; by apply table_roundtrip. Qed.

(** The events of the interrupted run as their writer submits them. *)
Definition control_pending (k : nat) : PendingRuntimeEvent :=
  let e := nth k control_log demo_created in mkPendingRuntimeEvent (sre_event_id e) (sre_event e).
Definition late_pending : PendingRuntimeEvent :=
  mkPendingRuntimeEvent "event-6" (ContentDelta "a1" 0 "x").

Definition appended (db : Database) (pending : PendingRuntimeEvent) (now : N) : Database :=
  match append_run_event_sync db demo_lease pending now with Ok (db', _) => db' | Err _ => db end.

Definition db1 : Database := Eval vm_compute in
  match create_run_sync empty_database demo_request 1000 "owner-1" 7 with
  | Ok (db, _) => db | Err _ => empty_database end.
Definition db2 : Database := Eval vm_compute in appended db1 (control_pending 1) 1002.
Definition db3 : Database := Eval vm_compute in appended db2 (control_pending 2) 1003.
Definition db4 : Database := Eval vm_compute in appended db3 (control_pending 3) 1004.
Definition db5 : Database := Eval vm_compute in appended db4 (control_pending 4) 1005.
Definition db6 : Database := Eval vm_compute in appended db5 late_pending 1006.

Lemma db_append db k now db' :
  append_run_event_sync db demo_lease (control_pending k) now =
    Ok (db', nth k control_log demo_created) →
  snapshot_projection_neutral (pre_event (control_pending k)) = false →
  rtc sqlite_op empty_database db → rtc sqlite_op empty_database db'.
Proof. intros H1 H2 H3. eapply rtc_r; [done|]. eapply op_append; [done|congruence]. Qed.

Lemma db_reach_1 : rtc sqlite_op empty_database db1.
Proof.
  apply rtc_once. eapply (op_create _ demo_request 1000 "owner-1" 7).
  - vm_compute. discriminate.
  - vm_compute. reflexivity.
Qed.
Lemma db_reach_4 : rtc sqlite_op empty_database db4.
Proof.
  eapply (db_append db3 3 1004); [vm_compute; reflexivity..|].
  eapply (db_append db2 2 1003); [vm_compute; reflexivity..|].
  eapply (db_append db1 1 1002); [vm_compute; reflexivity..|]. apply db_reach_1.
Qed.
Lemma db_reach_5 : rtc sqlite_op empty_database db5.
Proof. eapply (db_append db4 4 1005); [vm_compute; reflexivity..|]. apply db_reach_4. Qed.



Definition db5_replay : RunReplay := Eval vm_compute in
  mkRunReplay (snapshot_of (take 5 control_log)) (take 5 control_log).

Lemma delta_after_control_makes_run_unreadable_witness :
  load_run_sync db6 "run-1" = Err (corrupt "run-1"
    "only settlement events may follow a durable terminal control request").
Proof.
  apply (delta_after_control_makes_run_unreadable db5 demo_lease late_pending 1006 db6 late_delta
    db5_replay).
  - apply db_reach_5.
  - vm_compute. reflexivity.
  - vm_compute. reflexivity.
  - reflexivity.
  - vm_compute. reflexivity.
  - vm_compute. eexists. reflexivity.
Defined.
