(* ===== verification/ToolWitnesses.v ===== *)
(** Concrete instances of the theorems on the patch tool, the DeepSeek ledger, the Shell policy and
    [web_fetch], with their hypotheses evaluated. *)
From Stdlib Require Import Ascii String.
From stdpp Require Import relations.
From S2P Require Import Prelude.
From S2P Require Import Text.
From S2P Require Import Json.
From S2P Require Import Protocol.
From S2P Require Import Validate.
From S2P Require Import Accounting.
From S2P Require Import TextOps.
From S2P Require Import Patch.
From S2P Require Import PatchFacts.
From S2P Require Import PatchRoundtrip.
From S2P Require Import PatchFiles.
From S2P Require Import PatchExecFacts.
From S2P Require Import Ledger.
From S2P Require Import LedgerFacts.
From S2P Require Import ExecPolicy.
From S2P Require Import ExecPolicyFacts.
From S2P Require Import CommandSafety.
From S2P Require Import BrowserRequest.
From S2P Require Import IpAddr.
From S2P Require Import WebUrl.
From S2P Require Import HtmlText.
From S2P Require Import HtmlTextFacts.
From S2P Require Import WebFetch.
From S2P Require Import WebFetchFacts.
From S2P Require Import Demo.

Open Scope string_scope.
Open Scope list_scope.
Open Scope N_scope.

(** ** Shell policy *)

Definition words (s : string) : option (list string) := Some (split_whitespace s).
Definition shell_policy : ExecPolicy :=
  mkExecPolicy [("git", mkExecPolicyRuleSet ["git status"] ["rm *"])].

Lemma wildcard_matches_is_glob_witness : wildcard_matches "git *" "git status" = true.
Proof.
  apply (wildcard_matches_is_glob "git *" "git status").
  - intros H. apply (bool_decide_pack _) in H. vm_compute in H. exact H.
  - do 4 (apply glob_byte; [vm_compute; discriminate|]).
    apply glob_star_drop. exists 6%nat. apply glob_nil.
Defined.


(** ** The ledger: one root inference, reserved, answered and recorded *)

Definition demo_usage : Usage := mkUsage 10 4 6 4 0 1 0.
Definition demo_wire : Value := VObject
  [("prompt_tokens", VNumber "10"); ("completion_tokens", VNumber "4"); ("total_tokens", VNumber "14");
   ("prompt_cache_hit_tokens", VNumber "6"); ("prompt_cache_miss_tokens", VNumber "4");
   ("completion_tokens_details", VObject [("reasoning_tokens", VNumber "1")])].
Definition demo_lease : ApiRequestLease := Eval vm_compute in
  match (try_reserve_kind (SharedApiRequestBudget_new 2) ActorRoot Inference).2 with
  | Ok l => l
  | Err _ => mkApiRequestLease ActorRoot Inference false false false false
  end.
Definition ledger_reserved : ApiRequestBudgetState := Eval vm_compute in
  (try_reserve_kind (SharedApiRequestBudget_new 2) ActorRoot Inference).1.
Definition demo_guard : ApiResponseAccountingGuard :=
  ApiResponseAccountingGuard_new (Some (mark_response_received demo_lease)) "deepseek-v4-flash"
    StandardChat.
Definition ledger_end : LedgerSystem :=
  let '(s, g) := complete ledger_reserved demo_guard (Some demo_usage) (Some demo_wire) in
  mkLedgerSystem s [OwnsGuard g]
    (settlements ledger_reserved (rg_request_lease demo_guard)
       (guard_response (observe_final demo_guard (Some demo_usage) (Some demo_wire)) false)).

Lemma ledger_end_reached : rtc ledger_step (ledger_start 2) ledger_end.
Proof.
  unfold ledger_end.
  destruct (complete ledger_reserved demo_guard (Some demo_usage) (Some demo_wire)) as [s g] eqn:E.
  eapply rtc_l. { apply (step_reserve _ ledger_reserved ActorRoot Inference demo_lease).
                  vm_compute. reflexivity. }
  eapply rtc_l. { apply (step_mark _ [] demo_lease [] [] mark_response_received). left. reflexivity. }
  eapply rtc_l. { apply (step_guard _ [] _ [] [] "deepseek-v4-flash" StandardChat). }
  eapply rtc_l. { apply (step_complete _ _ [] demo_guard _ [] [] (Some demo_usage) (Some demo_wire) E). }
  apply rtc_refl.
Qed.


Lemma complete_receipt_hides_nothing_witness :
  ma_complete (model_accounting_snapshot (sy_state ledger_end)) = true ∧
  pending (sy_owners ledger_end) = [].
Proof.
  split; [vm_compute; reflexivity|].
  apply (complete_receipt_hides_nothing 2 ledger_end);
    [vm_compute; discriminate|apply ledger_end_reached|vm_compute; reflexivity].
Defined.

Lemma resumed_budget_is_what_is_left_witness :
  resume_api_request_budget (model_accounting_snapshot (sy_state ledger_end)) =
  (SharedApiRequestBudget_new 1, false).
Proof.
  destruct (resume_api_request_budget (model_accounting_snapshot (sy_state ledger_end)))
    as [s' exhausted] eqn:E.
  destruct (resumed_budget_is_what_is_left 2 ledger_end s' exhausted) as [H1 H2].
  - vm_compute. reflexivity.
  - apply ledger_end_reached.
  - exact E.
  - destruct exhausted.
    + exfalso. pose proof (proj1 H1 eq_refl) as H. vm_compute in H. discriminate.
    + rewrite (proj1 (H2 eq_refl)). vm_compute. reflexivity.
Defined.

(** ** The patch tool *)

Definition demo_edits : list edit :=
  [(["one"], [Context "two"; Remove "three"; Add "drei"; Add "vier"])].

Lemma diff_turns_old_into_new_witness :
  parse_unified_diff (text_of Unix true (print_hunks (diff_hunks 0 0 demo_edits))) =
    Ok (diff_hunks 0 0 demo_edits) ∧
  apply_hunks_to_lines ["one"; "two"; "three"; "five"] (diff_hunks 0 0 demo_edits) 3 "f" =
    Ok (["one"; "two"; "drei"; "vier"; "five"], mkHunkApplyStats 1 0 0).
Proof.
  destruct (diff_turns_old_into_new demo_edits ["five"] Unix true 3 "f") as (H1 & H2 & _).
  - discriminate.
  - split; [left; discriminate|apply Forall_nil_2].
  - apply (bool_decide_unpack _). vm_compute. exact I.
  - apply (bool_decide_unpack _). vm_compute. exact I.
  - vm_compute. reflexivity.
  - vm_compute. reflexivity.
  - split; [exact H1|exact H2].
Defined.

Definition demo_fs : Fs :=
  mkFs {[ ["w"; "a"] := ("old", 420) ]} {[ []; ["w"] ]}.
Definition demo_context : ProductionToolContext := mkProductionToolContext (λ raw, Ok ["w"; raw]).
(** Two whole-file changes, while the second write is refused by the system. *)
Definition demo_request : Value := VObject [("changes", VArray
  [VObject [("path", VString "a"); ("content", VString "new")];
   VObject [("path", VString "b"); ("content", VString "more")]])].
Definition full_disk : World :=
  mkWorld demo_fs [NoFault; NoFault; FailBefore "No space left on device (os error 28)"].


(** ** A fetch: a toy URL library, a network that redirects from HTTP to HTTPS, a small page *)

(** A URL is its text: a scheme, two slashes and a host up to the next slash. *)
Definition toy_scheme (u : string) : string :=
  if starts_with "https://" u then "https" else if starts_with "http://" u then "http" else "".
Definition toy_rest (u : string) : string :=
  of_bytes (drop (match toy_scheme u with "https" => 8 | _ => 7 end)%nat (bytes u)).
#[local] Instance toy_url : UrlLib := {
  Url := string;
  Url_parse := Ok;
  url_scheme := toy_scheme;
  url_username := λ _, "";
  url_password := λ _, None;
  url_host_str := λ u, Some (of_bytes (break_at (is_byte 47) (bytes (toy_rest u))).1);
  url_port := λ _, None;
  url_port_or_known_default := λ u, Some (if toy_scheme u ==? "https" then 443 else 80);
  url_as_str := λ u, u;
}.
#[local] Instance toy_edit : UrlEdit := { url_join := λ _ l, Ok l; url_without_fragment := λ u, u }.

Definition public_host : IpAddr := V4 (ipv4_of_octets 93 184 216 34).
Definition web_resolve (n : nat) (host : string) (port : N)
    : option (result WebFetchNetworkError (list SocketAddr)) :=
  Some (Ok [mkSocketAddr public_host port; mkSocketAddr public_host port]).
Definition web_page : string := "<title> A  b</title><body>one<p>two <a href='https://b.org/x'>x</a><script>evil</script></body>".
Definition web_get (n : nat) (url : Url) (addresses : list SocketAddr)
    : option (result WebFetchNetworkError WebFetchHttpResponse) :=
  match n with
  | O => Some (Ok (mkWebFetchHttpResponse 301 [("location", "https://a.org/")] "" 0))
  | _ => Some (Ok (mkWebFetchHttpResponse 200 [("content-type", "text/html; charset=UTF-8")] web_page (str_len web_page)))
  end.
Definition web_input : Value := VObject [("url", VString "http://a.org/")].
Definition web_call := execute_web_fetch (λ _, []) web_resolve web_get "now" 15000 true web_input.

(** What the call does: two requests, an upgraded connection and the extracted page. *)
Example web_call_requests :
  (λ r, (rq_url r, rq_addresses r)) <$> web_call.1
  = [("http://a.org/", [mkSocketAddr public_host 80]); ("https://a.org/", [mkSocketAddr public_host 443])].
Proof. vm_compute. reflexivity. Qed.
Example web_page_extracted :
  extract_html web_page "https://a.org/"
  = mkExtractedPage (Some "A b") ("one" ++ newline ++ "two x")%string ["https://b.org/x"] false.
Proof. vm_compute. reflexivity. Qed.

Lemma fetch_only_contacts_public_hosts_witness :
  length web_call.1 = 2%nat ∧ NoDup ((λ r, url_as_str (rq_url r)) <$> web_call.1).
Proof.
  split; [vm_compute; reflexivity|].
  pose proof (fetch_only_contacts_public_hosts (λ _, []) web_resolve web_get "now" 15000 true web_input) as H.
  unfold web_call. destruct (execute_web_fetch _ _ _ _ _ _ _) as [requests out].
  destruct H as (_ & _ & _ & H & _). exact H.
Defined.

Definition web_outcome : ToolOutcome := default (ToolOutcome_error "") web_call.2.
Lemma web_call_ends :
  execute_web_fetch (λ _, []) web_resolve web_get "now" 15000 true web_input = (web_call.1, Some web_outcome).
Proof. vm_compute. reflexivity. Qed.
Lemma web_call_succeeds : ToolOutcome_is_success web_outcome = true.
Proof. vm_compute. reflexivity. Qed.
Lemma web_call_plain : all_https web_call.1 = false ∧ N.of_nat (length web_call.1) = 2.
Proof. split; vm_compute; reflexivity. Qed.

Lemma fetch_report_is_truthful_witness :
  ∃ requested w, truthful requested (call_max_chars web_input) web_call.1 w
    ∧ wr_transport_trajectory w = "plaintext_exposed" ∧ wr_redirect_count w = 1.
Proof.
  destruct (fetch_report_is_truthful (λ _, []) web_resolve web_get "now" 15000 true web_input web_call.1
    web_outcome web_call_ends web_call_succeeds) as (requested & w & _ & _ & Ht).
  exists requested, w. split; [exact Ht|]. destruct Ht as (_ & _ & Hcount & Htr & _).
  destruct web_call_plain as [Hplain Hl]. rewrite Hplain in Htr. split; [exact Htr|lia].
Defined.

Lemma public_address_test_is_exact_witness :
  is_public_ip (V4 (ipv4_of_octets 100 64 0 1)) = false ∧ is_public_ip public_host = true.
Proof.
  destruct public_address_test_is_exact as [H4 _]. split.
  - apply not_true_iff_false. rewrite (proj1 (H4 100 64 0 1 eq_refl eq_refl eq_refl eq_refl)).
    intros H. apply H. right. right. left. split; [reflexivity|]. split; [discriminate|reflexivity].
  - apply (proj1 (H4 93 184 216 34 eq_refl eq_refl eq_refl eq_refl)). unfold reserved_v4. lia.
Defined.
