(* ===== verification/AgentWitnesses.v ===== *)
(** The theorems of the runtime loop at concrete runs.  A run that delegates to an isolated writer
    child, the child's completed report, and a Host that seals and integrates; and a turn whose
    first attempt fails before it was answered, whose retry streams while a steer arrives and
    completes, and whose store holds all of it; and whole runs - one that reads a file and proposes
    its completion, one that is taken up with a request in flight, one that ends, and the review
    of a candidate whose verifier passes. *)
From Stdlib Require Import String Ascii.
From S2P Require Import Prelude.
From S2P Require Import Text.
From S2P Require Import Json.
From S2P Require Import Task.
From S2P Require Import Protocol.
From S2P Require Import Validate.
From S2P Require Import Context.
From S2P Require Import Snapshot.
From S2P Require Import Evidence.
From S2P Require Import RunEvents.
From S2P Require Import AgentEvents.
From S2P Require Import Reducer.
From S2P Require Import Steps.
From S2P Require Import LogFacts.
From S2P Require Import MemStore.
From S2P Require Import MemStoreFacts.
From S2P Require Import TextOps.
From S2P Require Import AgentRuntime.
From S2P Require Import AgentRuntimeFacts.
From S2P Require Import AgentWriter.
From S2P Require Import AgentWriterFacts.
From S2P Require Import AgentSettle.
From S2P Require Import AgentTools.
From S2P Require Import AgentControl.
From S2P Require Import AgentTurn.
From S2P Require Import AgentProcess.
From S2P Require Import AgentCompletion.
From S2P Require Import AgentCall.
From S2P Require Import AgentEmits.
From S2P Require Import AgentControlFacts.
From S2P Require Import AgentCompletionFacts.
From S2P Require Import AgentCallFacts.
From S2P Require Import AgentTurnFacts.
From S2P Require Import AgentStreamFacts.
From S2P Require Import AgentAcceptFacts.
From S2P Require Import AgentLoop.
From S2P Require Import AgentLoopFacts.
From S2P Require Import Demo.
From S2P Require Import Witnesses.

Open Scope string_scope.
Open Scope N_scope.

(** ** The run *)

Definition writer_contract : TaskContract :=
  mkTaskContract "child-1" (mkTaskDefinition "fix the parser" [] []
    [AcceptVerifier "tests" "the tests pass" FailedWritePassPolicy demo_spec]).
Definition writer_assignment : AgentWorkspaceAssignment :=
  mkAgentWorkspaceAssignment AccessIsolatedWrite "/work" demo_commit (Some "/worktrees/child-1")
    (Some "main") (Some "writer/child-1") ["src"] (Some "owner-1").
Definition writer_task : AgentTask :=
  mkAgentTask "task-1" "run-1" "run-1" "child-1" "call-9" "writer" writer_contract
    writer_assignment "deepseek-v4-flash" EffortHigh None (mkContextPolicy 100000)
    (mkModelRouteAudit RouteExplicit "runtime_explicit_v1" "explicit_model") ToolPolicy_default
    RunLimits_default None "a patch".

Definition writer_request : RunRequest :=
  demo_request <| rr_environment := mkRunEnvironment "/work" "deepseek" None None
                    WriteIsolatedWriter PermissionAsk true |>.
Definition writer_created : StoredRuntimeEvent :=
  mkStoredRuntimeEvent AGENT_RUNTIME_EVENT_SCHEMA_VERSION "run-1" None
    RuntimeEventId_run_created 1 1000 (RunCreated writer_request).
Definition known_state (generation : N) : WorkspaceState :=
  mkWorkspaceState generation (Known hex64).

Definition writer_script : list (RunSnapshot → RuntimeEventKind) :=
  [λ _, WorkspaceObserved (known_state 1);
   λ s, ModelRequestPrepared "a1" (next_model_request s);
   λ _, ModelRequestInFlight "a1";
   λ _, ModelResponseCommitted "a1"
          (mkModelOutput "delegating" None [agent_call] FinishToolCalls Usage_default)
          ModelAccounting_default;
   λ _, ToolPrepared "op-9" (invocation_of agent_call) WorkspaceMayWrite;
   λ _, ToolExecutionStarted "op-9";
   λ _, AgentTaskPrepared writer_task;
   λ _, AgentWorkspaceCreated "task-1" writer_assignment (known_state 1);
   λ _, ChildStarted "task-1" "call-9" "child-1" 1].
Definition writer_log : list StoredRuntimeEvent := Eval vm_compute in
  (drive [writer_created] (initial_snapshot writer_request) writer_script).1.
Definition writer_snapshot : RunSnapshot := Eval vm_compute in snapshot_of writer_log.
Definition writer_lifecycle : AgentTaskLifecycle := Eval vm_compute in
  match sn_agent_tasks writer_snapshot with
  | lifecycle :: _ => lifecycle
  | [] => mkAgentTaskLifecycle writer_task None None None None None None None
  end.

(** ** The child's report *)

Definition child_failure : FailedVerifierEvidence :=
  mkFailedVerifierEvidence (SourceTool "op-1") (mkWorkspaceState 1 (Known rev_a))
    ["artifact-1"].
Definition child_mutation : WorkspaceMutationEvidence :=
  mkWorkspaceMutationEvidence "op-2" (mkWorkspaceState 1 (Known rev_a)) (known_state 2).
Definition child_receipt : EvidenceReceipt :=
  mkEvidenceReceipt "receipt:host-verification:candidate-1:tests" "child-1" "tests"
    "host-verification:candidate-1:tests" demo_spec (known_state 4) ["artifact-2"]
    (FailedWritePass child_failure child_mutation).
Definition child_decision : CompletionDecision :=
  mkCompletionDecision "candidate-1" "child-1" (known_state 4)
    [SatisfiedByEvidence "tests" "receipt:host-verification:candidate-1:tests"].
Definition child_outcome : AgentOutcome :=
  mkAgentOutcome "child-1" (Some "run-1") (Completed "done" child_decision)
    ModelAccounting_default 2 0 1
    (mkAgentResultDetails "done"
       (Some (mkCompletionCandidate "candidate-1" "child-1" "done" (known_state 3)))
       [child_receipt] [] [] [] [] [] None None None None None IntegrationNotApplicable).
Definition child_replay : RunReplay :=
  mkRunReplay (writer_snapshot <| sn_workspace_state := known_state 4 |>) [].

(** ** The ports *)

Fixpoint unary (n : nat) : string :=
  match n with O => "u" | Datatypes.S n => String "u" (unary n) end.

Definition writer_orchestrator : AgentOrchestrator := mkAgentOrchestrator
  (λ _ p, Ok (mkWriterPlan writer_assignment))
  (λ _ task _, Ok (mkWriterBinding (at_workspace task) (known_state 1)))
  (λ _ task, if paths_stay_within ["src/parser.rs"] (awa_allowed_paths (at_workspace task))
     then Ok (mkWriterSeal demo_commit "fedcba9876543210fedcba9876543210fedcba98" hex64
                ["src/parser.rs"] (known_state 0))
     else Err (mkAgentOrchestrationError OrchestrationRejected "scope" "outside"))
  (λ _ _ seal _, Ok (mkWriterIntegration (wse_final_commit seal) (known_state 0)))
  (λ _ _ seal phase reason,
     match retained_writer_cleanup_plan seal phase reason "cleanup_not_proven" with
     | Some plan => Ok plan
     | None => Err (mkAgentOrchestrationError OrchestrationRejected "cleanup" "no plan")
     end)
  (λ _ _ plan, Ok match wcp_mode plan with
     | RetainForRecovery code => CleanupRetained ResourceUnknown ResourceUnknown MetadataUncertain code
     | RemoveExact _ => CleanupAlreadyAbsent
     end).

Definition writer_ports : RuntimePorts := mkRuntimePorts
  (λ n, 2000 + N.of_nat n) unary (λ _ _, Err tt) (Some writer_orchestrator) (λ _, Ok hex64)
  (λ _, Ok "{}") (λ _, "store error") (λ _, "failure").

Definition writer_lease : RunLease := new_lease "run-1" 1 "owner" 7.
Definition writer_store : InMemoryRunStore unit :=
  mkInMemoryRunStore {["run-1" := mkInMemoryRun writer_log writer_snapshot (Some writer_lease) 2]} ∅.
Definition writer_rt : Rt (InMemoryRunStore unit) :=
  mkRt (mkRunState writer_snapshot writer_lease ModelAccounting_default 0 false 1000 None None None
          None []) writer_store 0 [].

(** ** Its hypotheses *)

Lemma unary_injective n m : unary n = unary m → n = m.
Proof.
  revert m. induction n as [|n IH]; intros [|m] Hx; cbn in Hx.
  - done.
  - by destruct m.
  - by destruct n.
  - injection Hx as Hx. f_equal. by apply IH.
Qed.

Lemma unary_text n : require_agent_text "writer integration id" (unary n) = Ok tt.
Proof.
  assert (all_bytes (λ b, is_ascii_lowercase b || is_ascii_digit b || (byte_val b =? 95)) (unary n) = true
    ∧ unary n ≠ "") as [Ha Hne].
  { induction n as [|n [IH _]]; [by split|]. split; [|done]. unfold all_bytes in *. cbn. exact IH. }
  by apply require_agent_text_code.
Qed.

Lemma writer_live : live writer_ports writer_rt writer_log.
Proof.
  split.
  - exists (mkInMemoryRun writer_log writer_snapshot (Some writer_lease) 2).
    split_and!; [vm_compute; reflexivity|done| |done]. split; cbn.
    + vm_compute. reflexivity.
    + done.
    + apply (bool_decide_unpack _). vm_compute. exact I.
    + intros l [= <-]. split; [done|]. left. cbn. lia.
    + by intros [? ?].
    + unfold U64_MAX. lia.
  - vm_compute. reflexivity.
  - intros n _ Hin. cbn in Hin. rewrite list_elem_of_In in Hin. cbn in Hin.
    repeat destruct Hin as [Hin|Hin]; try (by destruct n); done.
  - intros _ Hin. apply (bool_decide_pack _) in Hin. vm_compute in Hin. exact Hin.
Qed.

Lemma writer_at_task : at_task writer_ports writer_rt writer_log 0 writer_lifecycle.
Proof. split; [exact writer_live|by vm_compute..]. Qed.

Lemma writer_contract_kept : orchestrator_ok writer_orchestrator.
Proof.
  split.
  - intros n task seal phase reason plan. cbn. unfold retained_writer_cleanup_plan.
    set (plan' := mkWriterCleanupPlan _ _ _ _ _ _).
    destruct (WriterCleanupPlan_validate plan') as [[]|] eqn:Hv; [|done]. intros [= <-].
    unfold plan_answers. rewrite Hv. cbn. split_and!; try done.
    destruct seal as [s|]; cbn; eauto.
  - intros n task plan result Hv. cbn. intros [= <-].
    destruct (wcp_mode plan) as [tip|code] eqn:Hm; [done|]. split; [|by intros c [= <-]].
    unfold WriterCleanupPlan_validate in Hv. rewrite Hm in Hv.
    do 4 (apply seq_Ok in Hv as [_ Hv]). apply seq_Ok in Hv as [Hv _]. cbn.
    by rewrite (reason_code_relabel _ "writer cleanup result uncertainty" _ Hv).
  - done.
  - intros n task seal. cbn -[paths_stay_within]. destruct (paths_stay_within _ _) eqn:Hp; [|done]. by intros [= <-].
  - intros n task seal expected integration [= <-]. by exists hex64.
  - done.
Qed.

Lemma writer_child_given : child_given writer_lifecycle (Some child_outcome) (Some child_replay).
Proof.
  intros _. exists child_outcome. split; [done|]. split.
  { split; [vm_compute; reflexivity|done|done|by repeat constructor|constructor]. }
  right. exists child_replay. split; [done|]. split.
  - done.
  - vm_compute. reflexivity.
  - by eexists.
  - eexists. split; [vm_compute; reflexivity|]. by vm_compute.
  - exists "done", child_decision. split; [done|]. intros run_id lc seal Ht Hs.
    unfold validate_writer_success. rewrite Ht, Hs. vm_compute. reflexivity.
  - vm_compute. reflexivity.
Qed.


Lemma publish_is_exactly_once_witness :
  ∃ rt' e, publish writer_ports (WorkspaceObserved (known_state 1)) writer_rt = (rt', Ok e) ∧
    sre_event e = WorkspaceObserved (known_state 1) ∧ live writer_ports rt' (writer_log ++ [e])%list ∧
    rt_sink rt' = (rt_sink writer_rt ++ [e])%list.
Proof.
  destruct (publish writer_ports (WorkspaceObserved (known_state 1)) writer_rt) as [rt' r] eqn:Hp.
  pose proof (publish_is_exactly_once writer_ports unary_injective (λ n, ltac:(by destruct n))
    writer_rt writer_log _ rt' r writer_live eq_refl Hp) as Hx.
  assert (∃ e, r = Ok e) as [e ->].
  { vm_compute in Hp. injection Hp as _ <-. eexists. reflexivity. }
  exists rt', e. split; [reflexivity|exact Hx].
Defined.

(** ** A launch *)

Definition writer_launch : Value :=
  VObject [("prompt", VString " fix the parser "); ("workspace_access", VString "isolated_write");
           ("allowed_paths", VArray [VString "tests//parser"; VString "./src"])].

Lemma agent_launch_is_well_formed_witness :
  ∃ r, AgentLaunchRequest_parse writer_launch true = Ok r ∧ launch_ok true r ∧
    al_allowed_paths r = ["src"; "tests/parser"].
Proof.
  destruct (AgentLaunchRequest_parse writer_launch true) as [r|e] eqn:Hr.
  - exists r. split; [reflexivity|]. split.
    + apply (agent_launch_is_well_formed writer_launch true r Hr).
    + vm_compute in Hr. injection Hr as <-. reflexivity.
  - vm_compute in Hr. discriminate Hr.
Defined.

(** ** The run *)

Definition turn_created : StoredRuntimeEvent := writer_created.
Definition turn_snapshot : RunSnapshot := Eval vm_compute in initial_snapshot writer_request.
Definition turn_log : list StoredRuntimeEvent := [turn_created].
Definition turn_limits : RunLimits := Eval vm_compute in rr_limits (sn_request turn_snapshot).
Definition turn_store : InMemoryRunStore unit :=
  mkInMemoryRunStore {["run-1" := mkInMemoryRun turn_log turn_snapshot (Some writer_lease) 2]} ∅.
Definition turn_ports : RuntimePorts := mkRuntimePorts
  (λ n, 2000 + 1000 * N.of_nat n) unary (λ _ _, Err tt) None (λ _, Ok hex64)
  (λ _, Ok "{}") (λ _, "store error") (λ _, "failure").
Definition turn_world : LoopWorld (InMemoryRunStore unit) :=
  mkLoopWorld turn_store (RuntimeBudget_new turn_limits 1 0) true [].
Definition turn_rt : Rt (LoopWorld (InMemoryRunStore unit)) :=
  mkRt (mkRunState turn_snapshot writer_lease ModelAccounting_default 0 false 1000 None None None
          None []) turn_world 0 [].

(** ** The model *)

Definition turn_failure : ModelPortError :=
  ModelPortError_new "connect" CategoryTransport "connection refused" true.
Definition turn_output : ModelOutput :=
  mkModelOutput "all done" None [] FinishStop Usage_default.
Definition turn_steer : ControlCommand := CtlSteer "cmd-1" "hurry" true.
Definition turn_loop : LoopPorts := mkLoopPorts
  (mkToolExecutor [mkToolDefinition "read_file" "read" (VObject [])] (λ _, WorkspaceReadOnly))
  (λ _, [Heard tt; Heard tt; Heard tt; Heard tt])
  (λ n, if Nat.leb n 12 then [Heard (Err turn_failure)] else [Heard (Ok tt)])
  (λ _, [Heard (PollEvent (Some (Ok (StreamContentDelta "all "))));
         HeardCommand turn_steer;
         Heard (PollEvent (Some (Ok (StreamContentDelta "done"))));
         Heard (PollEvent (Some (Ok (StreamCompleted turn_output))))]).

(** ** Its hypotheses *)

Lemma unary_random n : unary n ≠ RuntimeEventId_terminal.
Proof. by destruct n. Qed.
Lemma turn_limits_u32 : lim_max_model_requests turn_limits ≤ U32_MAX.
Proof. vm_compute. discriminate. Qed.

Lemma turn_live : live turn_ports turn_rt turn_log.
Proof.
  split.
  - exists (mkInMemoryRun turn_log turn_snapshot (Some writer_lease) 2).
    split_and!; [vm_compute; reflexivity|done| |done]. split; cbn.
    + vm_compute. reflexivity.
    + done.
    + apply (bool_decide_unpack _). vm_compute. exact I.
    + intros l [= <-]. split; [done|]. left. cbn. lia.
    + by intros [? ?].
    + unfold U64_MAX. lia.
  - vm_compute. reflexivity.
  - intros n _ Hin. cbn in Hin. rewrite list_elem_of_In in Hin. cbn in Hin.
    repeat destruct Hin as [Hin|Hin]; try (by destruct n); done.
  - intros _ Hin. apply (bool_decide_pack _) in Hin. vm_compute in Hin. exact Hin.
Qed.
Lemma turn_safe : safe turn_ports turn_limits [] turn_rt turn_log.
Proof. split; [exact turn_live|done|constructor|done| |done]. vm_compute. discriminate. Qed.
Lemma turn_held : held turn_limits 0 turn_rt.
Proof. split; vm_compute; discriminate. Qed.
Lemma turn_boundary : at_boundary (rt_snapshot turn_rt).
Proof. split; [by split|done|]. intros run_id. by vm_compute. Qed.

(** ** The theorems on it *)

Lemma budget_is_exact_and_bounded_witness : ∃ b t,
  rtc budget_step (RuntimeBudget_new turn_limits 1 0, mkTaken 1 0 0 0 []) (b, t) ∧
  tk_requests t = 3 ∧ exact_budget turn_limits b t.
Proof.
  eexists _, _. assert (rtc budget_step (RuntimeBudget_new turn_limits 1 0, mkTaken 1 0 0 0 [])
    (mkRuntimeBudget turn_limits 3 1 0, mkTaken 3 0 1 0 [])) as Hsteps.
  { eapply rtc_l; [by apply step_permit|]. cbn.
    eapply rtc_l; [by apply step_consume|]. cbn.
    eapply rtc_l; [by apply (step_absorb _ _ 1)|]. cbn.
    eapply rtc_l; [by apply (step_absorbed _ _ 1 1 [] [])|]. cbn. apply rtc_refl. }
  split; [exact Hsteps|]. split; [done|].
  apply (budget_is_exact_and_bounded turn_limits 1 0); [vm_compute; discriminate..|exact Hsteps].
Defined.

(** The turn after its queue held a steer. *)
Definition steered : Rt (LoopWorld (InMemoryRunStore unit)) * result (Halt RuntimeFailure) (option TerminalState) :=
  Eval vm_compute in drain_controls turn_ports [turn_steer] turn_rt.
Lemma steered_eq : drain_controls turn_ports [turn_steer] turn_rt = steered.
Proof. vm_compute. reflexivity. Qed.

Lemma commands_are_acknowledged_from_the_log_witness : ∃ log' e,
  safe turn_ports turn_limits [] steered.1 log' ∧ e ∈ log' ∧ sre_sequence e = 2 ∧
  sre_event e = SteerQueued "cmd-1" "hurry".
Proof.
  destruct (commands_are_acknowledged_from_the_log turn_ports unary_injective unary_random turn_limits []
    [turn_steer] turn_rt turn_log _ _ turn_safe steered_eq) as (log' & _ & Hd & Hs & _).
  pose proof (du_told _ _ _ _ Hd) as Ht.
  assert (told log' (Acknowledge "cmd-1" (CommandSteer "hurry") (Ok 2))) as (e & He & Hseq & Hev).
  { rewrite Forall_forall in Ht. apply Ht. by left. }
  exists log', e. split; [exact Hs|]. split; [exact He|]. split; [exact Hseq|].
  destruct (sre_event e); try discriminate Hev. by injection Hev as -> ->.
Defined.

Lemma steered_live : ∃ log' e, live turn_ports steered.1 log' ∧ e ∈ log' ∧ sre_sequence e = 2 ∧
  event_command (sre_event e) = Some ("cmd-1", CommandSteer "hurry").
Proof.
  destruct (quietly_durable turn_ports turn_limits [] _ _ _ _ _
    (quietly_drain_controls turn_ports unary_injective unary_random turn_limits [] [turn_steer])
    turn_safe steered_eq) as (log' & _ & Hd & Hs & _).
  pose proof (du_told _ _ _ _ Hd) as Ht. rewrite Forall_forall in Ht.
  destruct (Ht (Acknowledge "cmd-1" (CommandSteer "hurry") (Ok 2))) as (e & He & Hseq & Hev); [by left|].
  exists log', e. split; [by apply Hs|]. by split_and!.
Qed.
Lemma repeated_command_gets_the_same_answer_witness :
  (handle_control turn_ports turn_steer steered.1).2 = Ok EffectContinue ∧
  last (lw_calls (rt_store (handle_control turn_ports turn_steer steered.1).1)) =
    Some (Acknowledge "cmd-1" (CommandSteer "hurry") (Ok 2)) ∧
  last (lw_calls (rt_store (handle_control turn_ports (CtlSteer "cmd-1" "slow down" true) steered.1).1)) =
    Some (Acknowledge "cmd-1" (CommandSteer "slow down") (Err CtlCommandPayloadMismatch)).
Proof.
  destruct steered_live as (log' & e & Hl & He & Hseq & Hev).
  destruct (repeated_command_gets_the_same_answer turn_ports steered.1 log' e "cmd-1"
    (CommandSteer "hurry") (CommandSteer "slow down") Hl He Hev) as [Hsame Hother].
  cbn [control_of] in Hsame, Hother. change (CtlSteer "cmd-1" "hurry" true) with turn_steer in Hsame.
  rewrite Hsame, Hother by done. rewrite Hseq. cbn [fst snd]. split; [reflexivity|].
  split; apply last_snoc.
Defined.

(** The whole turn: an attempt that fails, and its retry. *)
Definition completes (x : Rt (LoopWorld (InMemoryRunStore unit)) *
    result (Halt RuntimeFailure) ModelTurnControl) : bool :=
  match x.2 with
  | Ok (TurnOutput output) => (mto_content output ==? "all done")
      && Nat.eqb (length (action_calls (lw_calls (rt_store x.1)))) 2
  | _ => false
  end.
Lemma turn_completes : completes (model_turn turn_ports turn_loop None None turn_rt) = true.
Proof. vm_compute. reflexivity. Qed.

Lemma attempts_of_a_turn_are_bounded_witness :
  attempts turn_ports turn_loop (attempts_fuel (rt_snapshot turn_rt) + 5) None 1 None None turn_rt =
  attempts turn_ports turn_loop (attempts_fuel (rt_snapshot turn_rt)) None 1 None None turn_rt.
Proof.
  apply (attempts_of_a_turn_are_bounded turn_ports turn_loop unary_injective unary_random turn_limits []
    turn_limits_u32 5 None 1 None None turn_rt turn_log); [vm_compute; discriminate| | |exact I].
  - exact turn_safe.
  - exact turn_held.
Defined.

(** A request that is prepared, and its attempt. *)
Definition streaming_loop : LoopPorts := mkLoopPorts (lp_tools turn_loop) (lp_sleep turn_loop)
  (λ _, [Heard (Ok tt)]) (lp_stream turn_loop).
Definition prepared_rt : Rt (LoopWorld (InMemoryRunStore unit)) :=
  Eval vm_compute in (prepare_request turn_ports turn_loop 1 turn_rt).1.
Definition prepared_pending : PendingModelAction := Eval vm_compute in
  default (mkPendingModelAction "" (next_model_request turn_snapshot) None None Prepared)
    (sn_pending_model (rt_snapshot prepared_rt)).
Lemma prepared_eq : prepare_request turn_ports turn_loop 1 turn_rt =
  (prepared_rt, Ok (inr (pma_attempt_id prepared_pending, pma_request prepared_pending))).
Proof. vm_compute. reflexivity. Qed.
Lemma prepared_safe : ∃ log, safe turn_ports turn_limits [] prepared_rt log.
Proof.
  destruct (triple_prepare_request turn_ports turn_loop unary_injective unary_random turn_limits []
    turn_limits_u32 (sn_request turn_snapshot) 1 _ _ _ _ turn_safe (conj eq_refl turn_held) prepared_eq)
    as (log & _ & _ & Hs & _). by exists log.
Qed.
Lemma prepared_pends :
  pends (pma_attempt_id prepared_pending) (pma_request prepared_pending) prepared_rt.
Proof. exists prepared_pending. split; [vm_compute; reflexivity|done]. Qed.

Lemma streamed_deltas_are_the_committed_output_witness :
  ∃ (rt' : Rt (LoopWorld (InMemoryRunStore unit))) log more e accounting,
  safe turn_ports turn_limits [] rt' (log ++ more ++ [e])%list ∧
  sre_event e = ModelResponseCommitted (pma_attempt_id prepared_pending) turn_output accounting ∧
  joined (content_deltas (pma_attempt_id prepared_pending) more) = "all done".
Proof.
  destruct prepared_safe as [log Hs].
  destruct (execute_model_attempt turn_ports streaming_loop (pma_attempt_id prepared_pending)
    (pma_request prepared_pending) None prepared_rt) as [rt' r] eqn:Hr.
  assert (r = Ok (AttemptOutput turn_output)) as ->.
  { vm_compute in Hr. injection Hr as _ <-. reflexivity. }
  destruct (streamed_deltas_are_the_committed_output turn_ports streaming_loop unary_injective unary_random
    turn_limits [] _ _ _ _ log _ _ Hs prepared_pends Hr) as (more & e & accounting & Hs' & He & Hj & _).
  exists rt', log, more, e, accounting. split; [exact Hs'|]. by split.
Defined.

(** The attempt in flight, and its failure. *)
Definition flying_rt : Rt (LoopWorld (InMemoryRunStore unit)) :=
  Eval vm_compute in (publish turn_ports (ModelRequestInFlight (pma_attempt_id prepared_pending)) prepared_rt).1.
Definition flying_pending : PendingModelAction := prepared_pending <| pma_state := InFlight |>.
Lemma flying_live : ∃ log, live turn_ports flying_rt log.
Proof.
  destruct prepared_safe as [log Hs].
  destruct (publish turn_ports (ModelRequestInFlight (pma_attempt_id prepared_pending)) prepared_rt)
    as [rt' r] eqn:Hp.
  assert (rt' = flying_rt ∧ ∃ e, r = Ok e) as [-> [e ->]].
  { vm_compute in Hp. injection Hp as <- <-. split; [vm_compute; reflexivity|by eexists]. }
  apply (publish_steps turn_ports unary_injective unary_random _ log) in Hp as (_ & Hl & _);
    [by exists (log ++ [e])%list|apply Hs|apply Hs|done].
Qed.

Lemma every_failure_is_decided_durably_witness :
  ∃ (rt' : Rt (LoopWorld (InMemoryRunStore unit))) latched prepared log e accounting,
  live turn_ports rt' (log ++ [e])%list ∧
  sre_event e = ModelRequestFailed (pma_attempt_id flying_pending)
    (model_attempt_failure turn_failure ModelResponseEvidence_default) accounting
    (RetryPrepared prepared) ∧ mr_attempt (pmr_request prepared) = 1 ∧ latched = Some turn_failure ∧
  is_Some (sn_pending_model (rt_snapshot rt')).
Proof.
  destruct flying_live as [log Hl].
  destruct (every_failure_is_decided_durably turn_ports unary_injective unary_random flying_rt log
    flying_pending None turn_failure ModelResponseEvidence_default) as
    (rt' & latched & plan & e & accounting & Hr & Hl' & He & _).
  - exact Hl.
  - split; vm_compute; reflexivity.
  - vm_compute. reflexivity.
  - reflexivity.
  - exact I.
  - intros n Hn Heq. change (pma_attempt_id flying_pending) with (unary 0) in Heq.
    apply unary_injective in Heq. subst. vm_compute in Hn. lia.
  - intros run_id. vm_compute. reflexivity.
  - vm_compute in Hr. injection Hr as <- <- <-.
    eexists _, _, _, log, e, accounting. split; [exact Hl'|]. split; [exact He|].
    split; [reflexivity|]. split; [reflexivity|]. by eexists.
Defined.

Lemma built_requests_are_accepted_witness : ∃ rt1 rt2 request log1 e attempt_id,
  build_request turn_ports turn_loop 1 false turn_rt = (rt1, Ok (inr request)) ∧
  publish_request turn_ports (inr request) rt1 = (rt2, Ok (inr (attempt_id, request))) ∧
  live turn_ports rt2 (log1 ++ [e])%list ∧ sre_event e = ModelRequestPrepared attempt_id request ∧
  (td_name <$> mr_tools request) = ["agent"; "read_file"; "request_user_input"].
Proof.
  destruct (build_request turn_ports turn_loop 1 false turn_rt) as [rt1 r] eqn:Hb.
  assert (∃ request, r = Ok (inr request) ∧
    (td_name <$> mr_tools request) = ["agent"; "read_file"; "request_user_input"]) as (request & -> & Htools).
  { vm_compute in Hb. injection Hb as _ <-. eexists. split; reflexivity. }
  destruct (built_requests_are_accepted turn_ports turn_loop unary_injective unary_random 1 false turn_rt
    turn_log rt1 request turn_live turn_boundary eq_refl Hb)
    as (log1 & rt2 & e & attempt_id & _ & _ & Hp & Hl & He & _).
  exists rt1, rt2, request, log1, e, attempt_id. split; [reflexivity|]. split; [exact Hp|].
  split; [exact Hl|]. by split.
Defined.

(** ** Whole runs *)

(** The store that holds a log of the run, and the process that creates the run or takes it up. *)
Definition stored (log : list StoredRuntimeEvent) : InMemoryRunStore unit :=
  mkInMemoryRunStore {["run-1" := mkInMemoryRun log (snapshot_of log) (Some writer_lease) 2]} ∅.
Definition fresh_budget (s : RunSnapshot) : RuntimeBudget :=
  RuntimeBudget_new (rr_limits (sn_request s)) (sn_runtime_model_requests s) (sn_tool_calls s).
Definition process (resumed : bool) (log : list StoredRuntimeEvent)
    : Rt (LoopWorld (InMemoryRunStore unit)) :=
  let s := snapshot_of log in
  let state := launch_state s writer_lease None false resumed 1000 in
  let launched := launch_budget state (fresh_budget s) false in
  mkRt state (mkLoopWorld (stored log) launched.1 launched.2 []) 0 [].

Definition fits (log : list StoredRuntimeEvent) : bool :=
  let s := snapshot_of log in
  is_ok (reduce_events log) && (rr_run_id (sn_request s) ==? Some "run-1")
  && is_none (sn_terminal s) && bool_decide (NoDup (sre_event_id <$> log))
  && forallb (λ e, negb (String.prefix "u" (sre_event_id e))
                   && (sre_event_id e !=? RuntimeEventId_terminal)) log
  && (N.of_nat (length (logged_requests log)) <=? lim_max_model_requests (rr_limits (sn_request s))).

Lemma unary_prefix n : String.prefix "u" (unary n) = true.
Proof. destruct n as [|n]; [done|]. cbn. by destruct (unary n). Qed.

Lemma process_safe ports resumed log :
  rp_uuid ports = unary → fits log = true →
  safe ports (rr_limits (sn_request (snapshot_of log))) (logged_starts log) (process resumed log) log.
Proof.
  intros Hu Hf. unfold fits in Hf. cbv zeta in Hf.
  apply andb_prop in Hf as [Hf Hn]. apply andb_prop in Hf as [Hf Hids]. apply andb_prop in Hf as [Hf Hdup].
  apply andb_prop in Hf as [Hf Hopen]. apply andb_prop in Hf as [Hr Hid].
  apply bool_decide_eq_true in Hid, Hdup. apply N.leb_le in Hn.
  assert (reduce_events log = Ok (snapshot_of log)) as Hred.
  { unfold snapshot_of. by destruct (reduce_events log). }
  assert (∀ id, id ∈ (sre_event_id <$> log) → String.prefix "u" id = false ∧ id ≠ RuntimeEventId_terminal) as Hall.
  { intros id (e & -> & He)%list_elem_of_fmap. rewrite forallb_forall in Hids.
    apply list_elem_of_In, Hids, andb_prop in He as [Hp Ht]. apply negb_true_iff in Hp, Ht.
    by apply bool_decide_eq_false in Ht. }
  assert (sn_terminal (snapshot_of log) = None) as Ht by by destruct (sn_terminal _).
  split; cbn; [split|done|constructor| |done|].
  - exists (mkInMemoryRun log (snapshot_of log) (Some writer_lease) 2).
    split_and!; [done|done| |done]. split; cbn; try done.
    + intros l [= <-]. split; [done|]. left. cbn. lia.
    + rewrite Ht. by intros [? ?].
  - done.
  - intros n _ Hin. rewrite Hu in Hin. apply Hall in Hin as [Hin _]. by rewrite unary_prefix in Hin.
  - intros _ Hin. by apply Hall in Hin as [_ ?].
  - by rewrite app_nil_r.
  - unfold launch_budget, reserve_terminal_model_request, reserve_model_request.
    destruct (terminal_request_is_already_admitted _); [done|]. by destruct (reserve _ _).
Qed.

(** The run at its depth limit, and its ports: the model reads a file, and then is done. *)
Definition leaf_request : RunRequest :=
  writer_request <| rr_limits := mkRunLimits 64 64 2 256 0 64 (Some 900000) None |>.
Definition leaf_created : StoredRuntimeEvent :=
  mkStoredRuntimeEvent AGENT_RUNTIME_EVENT_SCHEMA_VERSION "run-1" None
    RuntimeEventId_run_created 1 1000 (RunCreated leaf_request).
Definition leaf_delegation : Delegation (InMemoryRunStore unit) :=
  mkDelegation (λ _ _ _ _ _, stop) (λ _, false) (λ _, stop) (λ _, stop).
Definition read_call : ModelToolCall :=
  mkModelToolCall "call-1" "read_file" (mkToolArguments "{}" (Some (VObject []))).
Definition read_output : ModelOutput :=
  mkModelOutput "reading" None [read_call] FinishToolCalls Usage_default.
Definition leaf_tools : CallPorts := mkCallPorts (λ _, WorkspaceReadOnly) (λ _ _, None)
  (λ _ mode grant invocation ws, Ok (mkToolAuthorizationDecision mode grant (ti_name invocation)
     (format_prefixed_sha256 (ta_raw (ti_arguments invocation))) ws DispositionAllow RiskRoutine
     None "reads" None))
  (λ _ _, [Heard (Ok (ToolOutcome_success "text"))]) (λ _, []) (λ _, Err "no answers").
Definition leaf_verifiers : VerifierPort := mkVerifierPort (λ _ _, Some (Ok passed_outcome)).
Definition leaf_loop : LoopPorts := mkLoopPorts (lp_tools turn_loop) (lp_sleep turn_loop)
  (λ _, [Heard (Ok tt)])
  (λ n, [Heard (PollEvent (Some (Ok (StreamCompleted
           (if Nat.leb n 12 then read_output else turn_output)))))]).
Definition leaf_run (resumed : bool) (log : list StoredRuntimeEvent) :=
  run_until_terminal turn_ports leaf_loop leaf_tools leaf_verifiers leaf_delegation (λ _, []) None
    resumed (process resumed log).
Definition script_log (script : list (RunSnapshot → RuntimeEventKind)) : list StoredRuntimeEvent :=
  (drive [leaf_created] (initial_snapshot leaf_request) script).1.

Lemma leaf_launched : launched (rr_limits leaf_request) leaf_request false (process false [leaf_created]).
Proof. split; [by eexists _, _, _|vm_compute; try done..]. Qed.
Lemma leaf_safe : safe turn_ports (rr_limits leaf_request) [] (process false [leaf_created]) [leaf_created].
Proof. by apply (process_safe turn_ports false [leaf_created]); [|vm_compute]. Qed.
Lemma leaf_limits_u32 : lim_max_model_requests (rr_limits leaf_request) ≤ U32_MAX.
Proof. vm_compute. discriminate. Qed.
Lemma leaf_depth :
  lim_max_depth (rr_limits leaf_request) ≤ actor_depth (rr_actor leaf_request).
Proof. vm_compute. discriminate. Qed.

(** It reads the file, and proposes its completion, which waits for its user. *)
Definition proposes (x : Rt (LoopWorld (InMemoryRunStore unit)) * result (Halt TerminalState) unit) : bool :=
  match x.2 with
  | Err (Raised (AwaitingHostAcceptance candidate)) => (cc_message candidate ==? "all done")
      && Nat.eqb (length (action_calls (lw_calls (rt_store x.1)))) 3
  | _ => false
  end.
Lemma leaf_proposes : proposes (leaf_run false [leaf_created]) = true.
Proof. vm_compute. reflexivity. Qed.


(** A process that takes up a run whose request is in flight. *)
Definition flying_log : list StoredRuntimeEvent := Eval vm_compute in script_log (take 3 model_script).

(** It is interrupted there. *)
Lemma unsettled_requests_stay_visible_witness : ∃ rt' outcome,
  final_outcome turn_ports (E := Empty_set) Interrupted (process true flying_log) = (rt', Ok outcome) ∧
  ao_terminal outcome = Interrupted ∧ ma_complete (ao_accounting outcome) = false ∧
  1 ≤ ma_billing_unknown_attempts (ao_accounting outcome).
Proof.
  destruct (final_outcome turn_ports (E := Empty_set) Interrupted (process true flying_log)) as [rt' [outcome|[]]] eqn:Hr.
  destruct (unsettled_requests_stay_visible turn_ports Interrupted _ _ _ Hr) as [Hh _].
  destruct (Hh ltac:(vm_compute; reflexivity)) as (Hc & _ & _ & Hn).
  exists rt', outcome. split; [reflexivity|]. split; [vm_compute in Hr; by injection Hr as _ <-|].
  split; [exact Hc|]. etrans; [|exact Hn]. vm_compute. discriminate.
Defined.
Lemma run_ends_as_its_log_says_witness : ∃ rt' outcome log',
  finalize turn_ports (E := Empty_set) (Failed EmptyModelOutput) (process false [leaf_created]) = (rt', Ok outcome) ∧
  ao_terminal outcome = Failed EmptyModelOutput ∧
  ∃ s, reduce_events log' = Ok s ∧ sn_terminal s = Some outcome.
Proof.
  destruct (finalize turn_ports (E := Empty_set) (Failed EmptyModelOutput) (process false [leaf_created]))
    as [rt' [outcome|[]]] eqn:Hr.
  assert (ao_terminal outcome = Failed EmptyModelOutput) as Ho.
  { vm_compute in Hr. by injection Hr as _ <-. }
  destruct (run_ends_as_its_log_says turn_ports (Failed EmptyModelOutput) _ [leaf_created] _ _
    (live_log _ _ _ (sf_live _ _ _ _ _ leaf_safe)) Hr) as (outcome' & log' & st & [= <-] & _ & _ & _ & Hend).
  cbn [is_awaiting_host] in Hend. destruct Hend as [Hend|[error Hend]]; [|rewrite Ho in Hend; discriminate Hend].
  exists rt', outcome, log'. split; [reflexivity|]. split; [exact Ho|exact Hend].
Defined.

(** A tool call after the response that made it. *)
Definition ports_at (revision : string) : RuntimePorts := mkRuntimePorts
  (rp_clock turn_ports) unary (λ _ _, Err tt) None (λ _, Ok revision)
  (λ _, Ok "{}") (λ _, "store error") (λ _, "failure").
Definition called_log : list StoredRuntimeEvent := Eval vm_compute in
  script_log (take 3 model_script ++
    [λ _, ModelResponseCommitted "a1" read_output ModelAccounting_default])%list.
Lemma tools_run_as_granted_and_settle_witness : ∃ rt' log',
  execute_call (ports_at rev_a) leaf_tools leaf_delegation read_call true None (process true called_log) = (rt', Ok tt) ∧
  safe (ports_at rev_a) (rr_limits leaf_request) (logged_starts called_log) rt' log' ∧
  sn_pending_tool (rt_snapshot rt') = None ∧ length (action_calls (lw_calls (rt_store rt'))) = 1%nat.
Proof.
  assert (safe (ports_at rev_a) (rr_limits leaf_request) (logged_starts called_log) (process true called_log) called_log)
    as Hs by by apply (process_safe (ports_at rev_a) true called_log); [|vm_compute].
  destruct (execute_call (ports_at rev_a) leaf_tools leaf_delegation read_call true None (process true called_log))
    as [rt' r] eqn:Hr.
  assert (r = Ok tt ∧ length (action_calls (lw_calls (rt_store rt'))) = 1%nat) as [-> Hn].
  { vm_compute in Hr. injection Hr as <- <-. split; vm_compute; reflexivity. }
  destruct (tools_run_as_granted_and_settle (ports_at rev_a) leaf_tools leaf_delegation unary_injective unary_random
    (rr_limits leaf_request) (logged_starts called_log) read_call true None _ called_log rt' (Ok tt) Hs)
    as (log' & _ & _ & Hs' & Hset & _).
  - intros p Hp. vm_compute in Hp. discriminate Hp.
  - intros Hname. vm_compute in Hname. discriminate Hname.
  - exact Hr.
  - exists rt', log'. split; [reflexivity|]. split; [exact Hs'|]. split; [exact Hset|exact Hn].
Defined.

(** A candidate that its user accepted, and the verifier that passes. *)
Definition accepted_log : list StoredRuntimeEvent := Eval vm_compute in
  (run_script (model_script ++ tool_script ++ take 5 completion_script)%list).1.
Definition accepted_candidate : CompletionCandidate := Eval vm_compute in
  candidate_of (snapshot_of accepted_log).
Definition accepts (x : Rt (LoopWorld (InMemoryRunStore unit)) *
    result (Halt CompletionReviewError) (string * CompletionDecision)) : bool :=
  match x.2, ims_runs (lw_store (rt_store x.1)) !! rl_run_id (rs_lease (rt_state x.1)) with
  | Ok (message, _), Some run => (message ==? "done")
      && Nat.eqb (length (action_calls (lw_calls (rt_store x.1)))) 1
      && is_some_and (last (imr_events run)) (λ e, match sre_event e with
                       HostVerificationCommitted _ _ _ _ => true | _ => false end)
  | _, _ => false
  end.
Lemma accepted_completion_is_valid_witness : ∃ rt' decision log',
  accept_completion_candidate (ports_at rev_b) leaf_verifiers accepted_candidate (process true accepted_log) =
    (rt', Ok ("done", decision)) ∧
  safe (ports_at rev_b) (rr_limits demo_request) (logged_starts accepted_log) rt' log' ∧
  validate_completion_decision (rt_snapshot rt') "run-1" decision = Ok tt ∧
  length (action_calls (lw_calls (rt_store rt'))) = 1%nat.
Proof.
  assert (safe (ports_at rev_b) (rr_limits demo_request) (logged_starts accepted_log) (process true accepted_log)
    accepted_log) as Hs by by apply (process_safe (ports_at rev_b) true accepted_log); [|vm_compute].
  assert (accepts (accept_completion_candidate (ports_at rev_b) leaf_verifiers accepted_candidate
    (process true accepted_log)) = true) as Hv by (vm_compute; reflexivity).
  destruct (accept_completion_candidate (ports_at rev_b) leaf_verifiers accepted_candidate
    (process true accepted_log)) as [rt' r] eqn:Hr.
  destruct (accepted_completion_is_valid (ports_at rev_b) leaf_verifiers unary_injective unary_random
    (rr_limits demo_request) (logged_starts accepted_log) accepted_candidate _ accepted_log rt' r Hs)
    as (log' & _ & _ & Hok).
  - split; [vm_compute; reflexivity|]. intros p Hp. vm_compute in Hp. discriminate Hp.
  - vm_compute. reflexivity.
  - exact Hr.
  - unfold accepts in Hv. cbn [fst snd] in Hv. destruct r as [[message decision]|]; [|discriminate Hv].
    destruct Hok as (Hs' & _ & Hvalid).
    destruct (live_holds _ _ _ (sf_live _ _ _ _ _ Hs')) as (run & Hrun & Hev & _).
    rewrite Hrun in Hv. apply andb_prop in Hv as [Hv Hlast]. apply andb_prop in Hv as [Hm Hn].
    apply bool_decide_eq_true in Hm. apply Nat.eqb_eq in Hn. subst message log'.
    exists rt', decision, (imr_events run). split; [reflexivity|]. split; [exact Hs'|]. split; [|exact Hn].
    destruct Hvalid as [Hvalid|[(before & e & ws & Hev & He) _]]; [apply Hvalid|].
    rewrite Hev, last_snoc in Hlast. cbn [is_some_and] in Hlast. rewrite He in Hlast. discriminate Hlast.
Defined.
