(* ===== verification/PolicyWitnesses.v ===== *)
(** Concrete inputs for the theorems on command safety, paths, the sandbox and tool authorization: a
    workspace with one directory, executors in the three permission modes and a writer's executor. *)
From Stdlib Require Import String Ascii.
From S2P Require Import Prelude.
From S2P Require Import Text.
From S2P Require Import TextOps.
From S2P Require Import Json.
From S2P Require Import Task.
From S2P Require Import Protocol.
From S2P Require Import RunApi.
From S2P Require Import Validate.
From S2P Require Import Patch.
From S2P Require Import ExecPolicy.
From S2P Require Import CommandSafety.
From S2P Require Import CommandSafetyFacts.
From S2P Require Import Paths.
From S2P Require Import PathsFacts.
From S2P Require Import Sandbox.
From S2P Require Import SandboxFacts.
From S2P Require Import BrowserRequest.
From S2P Require Import ToolAuthorization.
From S2P Require Import ToolAuthorizationFacts.
From S2P Require Import Demo.

Open Scope string_scope.
Open Scope list_scope.
Open Scope N_scope.

(** ** The parameters *)

Definition words (s : string) : option (list string) := Some (split_whitespace s).
Lemma words_shrink s ts : words s = Some ts → (total_len ts ≤ len s)%nat.
Proof. intros [= <-]. apply split_whitespace_le. Qed.

Definition ws : PathBuf := [RootDir; Normal "ws"].
Definition demo_exists (p : PathBuf) : bool := bool_decide (p ∈ [[RootDir]; ws]).
Definition demo_canonicalize (p : PathBuf) : result string PathBuf :=
  if demo_exists p then Ok p else Err "ENOENT".
Lemma demo_root_exists : demo_exists [RootDir] = true.
Proof. reflexivity. Qed.
Lemma demo_exists_canonical p : demo_exists p = true → ∃ q, demo_canonicalize p = Ok q.
Proof. intros He. unfold demo_canonicalize. rewrite He. by exists p. Qed.
Lemma demo_canonical_clean p q : demo_canonicalize p = Ok q → clean q.
Proof.
  unfold demo_canonicalize, demo_exists. case_bool_decide as Hin; [|done]. intros [= <-].
  repeat (apply elem_of_cons in Hin as [->|Hin]);
    [by exists []|exists ["ws"]; split; [done|by repeat constructor]|by apply elem_of_nil in Hin].
Qed.
Lemma ws_absolute : absolute_path ws.
Proof. exists [Normal "ws"]. split; [done|]. by repeat constructor. Qed.

#[global] Instance demo_url : UrlLib := {
  Url := string;
  Url_parse := Ok;
  url_scheme := λ _, "https";
  url_username := λ _, "";
  url_password := λ _, None;
  url_host_str := λ _, Some "example.com";
  url_port := λ _, None;
  url_port_or_known_default := λ _, Some 443;
  url_as_str := λ u, u;
}.

(** ** Command safety *)

Lemma destructive_segment_is_dangerous_witness :
  level (analyze_command words to_ascii_lowercase "cd build && A=1 rm -r x ~/") = Dangerous.
Proof.
  apply (destructive_segment_is_dangerous words to_ascii_lowercase "cd build && A=1 rm -r x ~/"
           ["cd build"] "A=1 rm -r x ~/" []).
  - vm_compute. reflexivity.
  - exists ["-r"; "x"; "~/"]. split; [vm_compute; reflexivity|]. split; vm_compute; reflexivity.
  - intros s args Hs. apply list_elem_of_singleton in Hs as ->. vm_compute. discriminate.
Defined.

Lemma unprompted_command_is_plain_witness :
  level (analyze_command words to_ascii_lowercase "ls -la") = Safe
  ∧ contains_str "&&" "ls -la" = false.
Proof.
  assert (H : level (analyze_command words to_ascii_lowercase "ls -la") = Safe) by (vm_compute; reflexivity).
  split; [exact H|].
  destruct (unprompted_command_is_plain words to_ascii_lowercase "ls -la" (or_introl H)) as (_ & Hop & _).
  apply Hop. left.
Defined.

Lemma readonly_classifier_decides_witness :
  is_parallel_readonly_command words "git status -s" = true ∧ readonly words "git status -s".
Proof.
  assert (H : is_parallel_readonly_command words "git status -s" = true) by (vm_compute; reflexivity).
  split; [exact H|].
  destruct (readonly_classifier_decides words words_shrink "git status -s") as [_ Hiff].
  apply Hiff. exact H.
Defined.

(** ** Paths *)


Lemma write_guard_refines_sandbox_witness :
  mounts_writable (policy_mounts (get_writable_roots demo_canonicalize (λ _, false) (λ _, false)
    (λ _, Err "ENOENT") (λ _, None) (IsolatedWriter ws false) ws))
    [RootDir; Normal "ws"; Normal "x.rs"] = true.
Proof.
  apply (write_guard_refines_sandbox demo_exists demo_canonicalize (λ _, false) (λ _, false)
    (λ _, Err "ENOENT") (λ _, None) demo_root_exists demo_exists_canonical demo_canonical_clean
    (new_context ws) "x.rs" ws false ws).
  - apply ws_absolute.
  - reflexivity.
  - vm_compute. reflexivity.
Defined.

(** ** The sandbox *)

(** A file system of directories. *)
Definition dirs_metadata (w : list PathBuf) (p : PathBuf) : result IoError FileKind :=
  if bool_decide (p ∈ w) then Ok KindDir else Err (mkIoError NotFound "ENOENT").
Definition dirs_create (w : list PathBuf) (p : PathBuf) : list PathBuf * result IoError unit := (p :: w, Ok tt).
Definition dirs_canonicalize (w : list PathBuf) (p : PathBuf) : result IoError PathBuf := Ok p.
Lemma dirs_frame w p q : p ≠ q → dirs_metadata (dirs_create w p).1 q = dirs_metadata w q.
Proof.
  intros Hpq. unfold dirs_metadata. cbn. destruct (decide (q ∈ w)) as [Hin|Hin].
  - rewrite !bool_decide_true; [done|done|by right].
  - rewrite !bool_decide_false; [done|done|]. intros [->|?]%elem_of_cons; done.
Qed.

Definition writer_spec : CommandSpec := mkCommandSpec "cargo" ["test"] ws [] 1000 (IsolatedWriter ws false).
Definition prepared_writer : list PathBuf * result IoError ExecEnv :=
  prepare_enforced dirs_canonicalize dirs_metadata dirs_create true false
    (λ w, prepare (λ p, match dirs_canonicalize w p with Ok q => Ok q | Err e => Err (io_message e) end)
            (λ _, false) (λ _, false) (λ _, Err "ENOENT") (λ _, None) true false)
    [ws; ws ++ [Normal ".git"]] (mkSandboxManager None false) writer_spec.


(** ** Authorization *)

Definition no_resolver (name : string) (input : Value) : result ToolError VerifierSpec :=
  Err (InvalidInput "none").
Definition no_preview (run : RunId) (request : BrowserInteractRequest) : option BrowserAuthorizationPreview := None.
Notation demo_authorize :=
  (authorize words to_ascii_lowercase demo_exists demo_canonicalize no_resolver no_preview).

Definition executor_in (mode : RunPermissionMode) : ProductionToolExecutor :=
  ProductionToolExecutor_new demo_canonicalize (config_with_permission_mode mode (ProductionToolConfig_new ws)).
Definition shell_call (command : string) : ToolInvocation :=
  mkToolInvocation "run-1" "call-1" "exec_shell"
    (mkToolArguments "{}" (Some (VObject [("command", VString command)]))).
Definition known_state : WorkspaceState := mkWorkspaceState 1 (Known hex64).


Lemma ask_mode_runs_only_safe_commands_witness :
  ∃ d, demo_authorize (executor_in PermissionAsk) PermissionAsk GrantOrdinary (shell_call "ls -la") known_state
         = Ok d ∧ tad_disposition d = DispositionAllow
       ∧ command_likely_needs_network "ls -la" = false.
Proof.
  destruct (demo_authorize (executor_in PermissionAsk) PermissionAsk GrantOrdinary
              (shell_call "ls -la") known_state) as [d|e] eqn:Hd; [|vm_compute in Hd; discriminate Hd].
  assert (Hallow : tad_disposition d = DispositionAllow) by (vm_compute in Hd; injection Hd as <-; reflexivity).
  exists d. split; [reflexivity|]. split; [exact Hallow|].
  destruct (ask_mode_runs_only_safe_commands words to_ascii_lowercase demo_exists demo_canonicalize
    no_resolver no_preview _ _ _ _ _ (VObject [("command", VString "ls -la")]) "ls -la" Hd
    eq_refl eq_refl eq_refl Hallow) as (_ & _ & _ & Hnet & _).
  exact Hnet.
Defined.


Lemma decision_binds_the_call_witness :
  ∃ d, demo_authorize (executor_in PermissionAsk) PermissionAsk GrantOrdinary (shell_call "cargo publish") known_state
         = Ok d ∧ validate_for d GrantOrdinary (shell_call "cargo publish") known_state = Ok tt.
Proof.
  destruct (demo_authorize (executor_in PermissionAsk) PermissionAsk GrantOrdinary
              (shell_call "cargo publish") known_state) as [d|e] eqn:Hd; [|vm_compute in Hd; discriminate Hd].
  exists d. split; [reflexivity|].
  destruct (decision_binds_the_call words to_ascii_lowercase demo_exists demo_canonicalize
    no_resolver no_preview _ _ _ _ _ _ Hd) as (_ & Hv & _).
  - vm_compute. do 4 right. left.
  - vm_compute. reflexivity.
  - apply Hv. vm_compute in Hd. injection Hd as <-. vm_compute. reflexivity.
Defined.

Definition read_call : ToolInvocation :=
  mkToolInvocation "run-1" "call-2" "read_file"
    (mkToolArguments "{}" (Some (VObject [("path", VString "x.rs")]))).

(** ** What the analysis misses *)

(** In Agent mode the masked deletion of the home directory runs without a prompt. *)
Lemma agent_mode_runs_masked_deletion :
  ∃ d, demo_authorize (executor_in PermissionAgent) PermissionAgent GrantOrdinary
         (shell_call "find . -delete; rm -rf ~") known_state = Ok d ∧ tad_disposition d = DispositionAllow.
Proof. eexists. split; vm_compute; reflexivity. Qed.

(** In Ask mode a deletion behind [env] runs without a prompt: its first letters are those of a
    read-only command. *)
Lemma ask_mode_runs_env_deletion :
  ∃ d, demo_authorize (executor_in PermissionAsk) PermissionAsk GrantOrdinary
         (shell_call "env rm -rf src") known_state = Ok d ∧ tad_disposition d = DispositionAllow.
Proof. eexists. split; vm_compute; reflexivity. Qed.

(** An assignment before the command hides it from the network test. *)
Lemma assignment_hides_network_use :
  command_likely_needs_network "curl https://example.com" = true
  ∧ command_likely_needs_network "A=1 curl https://example.com" = false.
Proof. split; vm_compute; reflexivity. Qed.

(** A well-formed failure of a verifier that ends after the cancellation becomes ill-formed. *)
Definition failed_verifier : ToolOutcome :=
  ToolOutcome_error "tests failed" <| to_failure_code := Some VerifierFailed |>.
Lemma cancelled_verifier_failure_is_ill_formed :
  ToolOutcome_validate failed_verifier = Ok tt
  ∧ is_ok (ToolOutcome_validate (execute
      (mkToolInvocation "run-1" "call-3" "run_tests" (mkToolArguments "{}" (Some (VObject [])))) false
      (λ _, FinishedAfterCancel (Ok failed_verifier)))) = false.
Proof. split; vm_compute; reflexivity. Qed.
